(* ===== verification/_CoqProject ===== *)
-Q . S2P
Prelude.v
Memory.v
Riscv.v
Kalloc.v
Vm.v
PageTable.v
Uvm.v
UserCopy.v
FsDefs.v
BufCache.v
Bio.v
Log.v
LogCrash.v
LogTx.v
UserMem.v
KernelMem.v
Fs.v
FsTx.v
FsBlocks.v
FsFile.v
FsWrite.v
FsAtomic.v
FsSpec.v
FsDir.v
Mkfs.v
MkfsImage.v
MkfsBoot.v
FsBoot.v
Grep.v
Printf.v
Ulib.v
Umalloc.v
Sh.v
ShParse.v
ShMain.v
Spinlock.v
ProcDefs.v
Sleeplock.v
Pipe.v
Unix.v
Primes.v
PrimesSpec.v
PrimesRun.v
PrimesEnd.v
Xargs.v
Find.v
Pingpong.v
Cat.v
Virtio.v
VirtioInv.v
VirtioRun.v
VirtioSpec.v
VirtioInit.v
Console.v
Uart.v
UartRun.v
UartSpec.v
Kernel.v
Machine.v
Sched.v
File.v
FileWrite.v
Proc.v
Exec.v
Sysfile.v
Trap.v
Boot.v
Pids.v
Lifecycle.v
