(* ===== verification/Prelude.v ===== *)
(** * A verification development for the xv6 kernel and its user programs

    The repository is MIT's xv6 for RISC-V as configured for the first lab
    (LAB=util): a small Unix kernel (src/kernel), a C library, a shell and a
    few commands (src/user), and the program that makes the first disk image
    (src/mkfs).  This library translates the C code into Gallina definitions
    and proves properties of them.

    ** How C is translated

    Kernel code runs in the monad [M S A] of this file: explicit passing of a
    state [S], with the outcomes of returning, of [panic], of waiting
    ([Block]: a [sleep] or a lock only another thread can free) and of
    exhausting the fuel of a loop.  [wp m Q s] is total correctness: [m]
    returns from [s], never panics or waits, has fuel enough, and satisfies
    [Q].  [wlp B m Q s] supplements it for code that may wait.  A C loop whose
    recursion is not structural is [loop] with fuel; the fuel is computed
    from the arguments (one iteration per page, block, directory entry or byte
    that is left, plus the last), and the [wp] theorems show that it suffices.
    Integers are [Z] with the wrap-around of their C type written out ([u32],
    [i32], ...); memory and disk blocks are functions from addresses to bytes;
    pointers are addresses where the code does pointer arithmetic on memory,
    and table indices where it points into a fixed array.

    ** The parts of the system and the files that model them

    - [Prelude], [Memory], [Riscv]: machine integers, the monad and its rules;
      byte memories and kernel/string.c; the macros of kernel/riscv.h and
      kernel/memlayout.h.
    - [Kalloc] (kernel/kalloc.c): the free list threaded through memory.
      [Vm] (kernel/vm.c): page tables; [PageTable], [Uvm] and [UserCopy] prove
      their invariants, the growth and shrinking of an address space, and
      copying to and from it.  [UserMem] is the interface to the memory of
      a process that the file system and the pipes use; [KernelMem] discharges
      it with the page tables.
    - [FsDefs] (kernel/param.h, fs.h, stat.h, fcntl.h); [Bio] (kernel/bio.c,
      buf.h): the buffer cache with its LRU list; [BufCache]: the interface it
      promises; [Log] (kernel/log.c), with [LogCrash] and [LogTx] for crash
      safety; [Fs] (kernel/fs.c): blocks, inodes, directories and paths.  Its
      proofs: [FsTx] has the rules for code inside a transaction, [FsBlocks]
      the block allocator against the free map, [FsFile] the contents of a
      file, bmap and readi, [FsWrite] writei and the inode on disk, [FsAtomic]
      the brackets of a transaction around a write, [FsSpec] and [FsDir] the
      resulting properties with directories, paths and the inode table.
    - [Mkfs] (mkfs/mkfs.c): the program that makes the first image.
      [MkfsImage] and [MkfsBoot] prove what is on the image, [FsBoot] that the
      kernel finds it there.
    - [Virtio] (kernel/virtio_disk.c, virtio.h): the disk driver, its callers,
      its interrupt handler and the device, interleaved.  [VirtioInv] has the
      invariant of the descriptor rings, [VirtioRun] the simulation of an
      atomic disk, [VirtioSpec] the resulting properties, [VirtioInit] the
      handshake of virtio_disk_init.
    - [Console] (kernel/console.c and the input of kernel/uart.c): the line
      discipline.  [Uart] (the output of kernel/uart.c, consolewrite): writers,
      interrupt handler, unlocked writers and the device, interleaved;
      [UartRun] has the invariant, [UartSpec] the properties.
    - [Spinlock] (kernel/spinlock.c) and [Sleeplock] (kernel/sleeplock.c with
      sleep and wakeup of kernel/proc.c): step relations over interleaved harts
      and processes.
    - [ProcDefs], [Kernel], [Machine]: process structures (kernel/proc.h), the
      state of the whole kernel, and small concrete machines for examples.
      [Sched] and [Proc] (kernel/proc.c), [Pipe] (kernel/pipe.c), [File]
      (kernel/file.c), [Exec] (kernel/exec.c and the arguments of
      kernel/syscall.c), [Sysfile] (kernel/sysfile.c), [Trap] (kernel/trap.c,
      kernel/sysproc.c and the dispatch of kernel/syscall.c).  [Pids] and
      [Lifecycle] prove properties of processes, [FileWrite] that of
      filewrite from the memory of the process down to the disk.  [Boot]
      (kernel/start.c, main.c, plic.c): from machine mode to the scheduler.
    - [Ulib] (user/ulib.c and user/wc.c), [Printf] (user/printf.c and
      kernel/printf.c), [Umalloc] (user/umalloc.c), [Grep] (user/grep.c),
      [Sh], [ShParse] and [ShMain] (user/sh.c), [Xargs] (user/xargs.c), [Find]
      (user/find.c and user/ls.c), [Cat] (user/cat.c and user/echo.c).
    - [Unix]: processes, descriptors and pipes as programs see them, for the
      programs that fork: [Primes] (user/primes.c), proved in [PrimesSpec],
      [PrimesRun] and [PrimesEnd], and [Pingpong] (user/pingpong.c).

    A component is called through its definitions: system calls run on the
    state of the whole kernel and call the file system, the pipes and the page
    tables on their part of it ([Kernel.fs], [Kernel.on_pipe], [Kernel.vm]).
    A [swtch] to the scheduler ends a run: the outcome is [Block] with the
    state the scheduler continues from, and the code after the switch is a
    definition of its own ([Sched.sleep_resumed], ...).

    ** What the theorems show

    - Memory: every sequence of kalloc and kfree keeps pages exclusive and loses
      none; address spaces grow with zeroed private pages, shrink by exactly
      the pages above the new size, and copyout, copyin and copyinstr touch
      exactly the user bytes they may; memmove handles overlap.
    - Storage: the buffer cache refines an abstract cache with LRU replacement;
      a transaction is atomic under a crash at any disk write followed by
      recovery, and recovery is itself crash-safe; the reservation of
      begin_op is too generous by three blocks (a panic).
    - Files: the contents of a file are the bytes found through its inode.
      balloc finds, marks and zeroes a free block; bmap never changes the
      contents; readi delivers them; writei changes exactly the bytes written;
      filewrite composes file, file system, log, cache and process memory: it
      terminates, other files and the free map stay consistent, its
      transactions fit the reservation, and after a crash at any disk write
      the file holds a first part of the bytes.  dirlookup and dirlink are
      lookup and insertion in the list of entries, an inode survives the
      round trip through the disk, and a path is taken apart into its
      components.  The theorems assume what a mounted disk made by mkfs has:
      marked metadata blocks ([meta_used]), blocks of an inode that are marked,
      in the data area and not shared within the inode ([inode_ok]), and a
      block for every byte of the file ([mapped]).
      For the image mkfs makes these are theorems: the image is consistent,
      and a kernel that boots on it finds every file by its name and reads
      the bytes mkfs was given.
    - Devices: under every interleaving the disk driver is linearizable to a
      disk of atomic block operations, never panics, and every call can
      complete.  The bytes processes write to the console reach the UART once
      and in order, no character is lost although the kernel's own output
      takes no lock, and every writer can return.  Typing refines the view of
      the user of a terminal; a read of the console takes at most a line.
      Harts boot in order and get exactly the interrupts they serve.
    - Concurrency: spin and sleep locks are exclusive, wakeups are not lost, the
      sleep lock does not deadlock, interrupt nesting is restored; a pipe is a
      FIFO under every interleaving of reads and writes.
    - Processes: every trap and system call keeps process ids distinct and the
      table well formed; exit and wait never lose a child; kill(0) poisons a
      free entry.
    - User space: printing and parsing of numbers are inverse, wc and grep are
      right however reads split the input, the matcher accepts the language of
      its pattern, malloc and free keep live blocks disjoint, the shell parses
      its grammar and wires its commands as they mean.  The concurrent sieve
      prints the primes, and pingpong its two lines, under every interleaving;
      with the file table of the kernel the sieve can fail.  find prints the
      files whose name begins with the target; xargs starts its command once
      per argument when the reads end at delimiters, and fails on input longer
      than one read.

    ** Bounds

    The disk driver is proved for any number of processes, the console's
    output for any number of writers and the NCPU harts; the devices are
    classes ([Virtio.Device], [Uart.Ns16550]) with the behaviour their
    documents promise, and a concrete instance shows that they can hold.
    pingpong is checked on all of its executions, which are finitely many;
    the sieve is proved for its MAX of 280 and tables that are large enough.

    ** Not modelled

    Assembly (entry, trampoline, context switch) and the control registers
    other than those of [Boot].  The test programs (usertests.c, grind.c,
    forktest.c, stressfs.c), which state nothing of their own.  init, kill,
    ln, mkdir, rm, sleep and zombie, which only pass their arguments to system
    calls.  The tests of argc and the opening of files in the other programs.
    The state of [Kernel] is what one hart sees: other harts appear in
    [Spinlock], [Sleeplock], [Virtio], [Uart] and [Boot].  The file system
    calls the disk as one that reads and writes blocks atomically, which is
    what the driver is proved to implement; likewise the devices of [File] and
    [Trap] are parameters of those files.  Messages printed to the console are
    left out, except by the two printf themselves. *)

From Stdlib Require Export ZArith Lia ZifyBool Strings.Byte String FunctionalExtensionality.
From stdpp Require Export prelude functions gmap.

#[global] Open Scope Z_scope.

(** ** Machine integers

    A w-bit C integer is a [Z]; the wrap-around of its type is written out. *)

Definition u8 (x : Z) : Z := x mod 2 ^ 8.
Definition u16 (x : Z) : Z := x mod 2 ^ 16.
Definition u32 (x : Z) : Z := x mod 2 ^ 32.
Definition u64 (x : Z) : Z := x mod 2 ^ 64.

(** Two's complement reading of the low [w] bits. *)
Definition sext (w x : Z) : Z :=
  let y := x mod 2 ^ w in if y <? 2 ^ (w - 1) then y else y - 2 ^ w.
Definition i16 (x : Z) : Z := sext 16 x.
Definition i32 (x : Z) : Z := sext 32 x.
Definition i64 (x : Z) : Z := sext 64 x.

Lemma u32_small x : 0 <= x < 2 ^ 32 -> u32 x = x.
Proof. apply Z.mod_small. Qed.

Lemma i32_small z : 0 <= z < 2 ^ 31 -> i32 z = z.
Proof. intros H. unfold i32, sext. rewrite Z.mod_small by lia. replace (_ <? _) with true by lia. reflexivity. Qed.

(** ** Bytes *)

Definition b2z (b : byte) : Z := Z.of_N (Byte.to_N b).
Definition z2b (z : Z) : byte :=
  match Byte.of_N (Z.to_N (z mod 256)) with Some b => b | None => x00 end.

Lemma b2z_range (b : byte) : 0 <= b2z b < 256.
Proof. unfold b2z. pose proof (Byte.to_N_bounded b). lia. Qed.

Lemma b2z_z2b (z : Z) : b2z (z2b z) = z mod 256.
Proof.
  unfold b2z, z2b. pose proof (Z.mod_pos_bound z 256 ltac:(lia)).
  destruct (Byte.of_N (Z.to_N (z mod 256))) as [b|] eqn:E.
  - apply Byte.to_of_N in E. lia.
  - apply Byte.of_N_None_iff in E. lia.
Qed.

Lemma z2b_b2z (b : byte) : z2b (b2z b) = b.
Proof.
  unfold b2z, z2b. pose proof (Byte.to_N_bounded b).
  rewrite Z.mod_small by lia. rewrite N2Z.id, Byte.of_to_N. reflexivity.
Qed.

Lemma b2z_inj (b c : byte) : b2z b = b2z c -> b = c.
Proof. intros H. rewrite <- (z2b_b2z b), <- (z2b_b2z c), H. reflexivity. Qed.

Lemma z2b_mod (z : Z) : z2b (z mod 256) = z2b z.
Proof. unfold z2b. rewrite Z.mod_mod by lia. reflexivity. Qed.

#[export] Instance byte_eq_dec : EqDecision byte.
Proof. intros x y. exact (Byte.byte_eq_dec x y). Defined.

(** ** The kernel monad

    Kernel code is explicit state passing over a state type [S].  Besides
    returning, a path can call [panic], can reach a [sleep()] or a spin that
    only another thread of control can end, or can exhaust the fuel of a loop
    whose recursion is not structural. *)

Inductive outcome (S A : Type) : Type :=
| Ret (a : A) (s : S)
| Panic (why : string)
| Block (s : S)
| OutOfFuel.
Arguments Ret {S A} a s.
Arguments Panic {S A} why.
Arguments Block {S A} s.
Arguments OutOfFuel {S A}.

Definition M (S A : Type) : Type := S -> outcome S A.

#[export] Instance M_ret S : MRet (M S) := fun A a s => Ret a s.
#[export] Instance M_bind S : MBind (M S) := fun A B f m s =>
  match m s with
  | Ret a s' => f a s'
  | Panic w => Panic w
  | Block s' => Block s'
  | OutOfFuel => OutOfFuel
  end.

Definition panic {S A} (why : string) : M S A := fun _ => Panic why.
Definition block {S A} : M S A := fun s => Block s.
Definition get {S} : M S S := fun s => Ret s s.
Definition gets {S A} (f : S -> A) : M S A := fun s => Ret (f s) s.
Definition modify {S} (f : S -> S) : M S unit := fun s => Ret tt (f s).
Definition when {S} (b : bool) (m : M S unit) : M S unit := if b then m else mret tt.
Definition panic_if {S} (b : bool) (why : string) : M S unit :=
  if b then panic why else mret tt.

(** A loop: the body yields the next loop state ([inl]) or leaves the loop
    with a result ([inr]), which covers [break] and [return]. *)
Fixpoint loop {S L R} (fuel : nat) (body : L -> M S (L + R)) (l : L) : M S R :=
  match fuel with
  | O => fun _ => OutOfFuel
  | Datatypes.S fuel' =>
      r ← body l;
      match r with inl l' => loop fuel' body l' | inr x => mret x end
  end.

(** Running code of a component inside the state of a larger one. *)
Definition zoom {S T A} (getter : T -> S) (setter : S -> T -> T) (m : M S A) : M T A :=
  fun t =>
    match m (getter t) with
    | Ret a s => Ret a (setter s t)
    | Panic w => Panic w
    | Block s => Block (setter s t)
    | OutOfFuel => OutOfFuel
    end.

(** A spinlock as one hart sees it: [acquire] of a lock this hart holds and
    [release] of one it does not hold panic (kernel/spinlock.c); the
    many-hart behaviour is the subject of [Spinlock]. *)
Definition acquire {S} (locked : S -> bool) (set : bool -> S -> S) : M S unit :=
  fun s => if locked s then Panic "acquire" else Ret tt (set true s).
Definition release {S} (locked : S -> bool) (set : bool -> S -> S) : M S unit :=
  fun s => if locked s then Ret tt (set false s) else Panic "release".

(** ** Reachability: invariants of a step relation *)

Lemma rtc_invariant {A} (R : relation A) (P : A -> Prop) x y :
  (forall a b, P a -> R a b -> P b) -> rtc R x y -> P x -> P y.
Proof. intros Hstep. induction 1 as [a|a b c Hab _ IH]; [auto|]. intros Ha. apply IH, (Hstep a); assumption. Qed.

(** ** Total-correctness reasoning: [wp m Q s] says that [m] started in [s]
    returns (no panic, no block, enough fuel) in a state satisfying [Q]. *)

Definition wp {S A} (m : M S A) (Q : A -> S -> Prop) (s : S) : Prop :=
  match m s with Ret a s' => Q a s' | _ => False end.

Lemma wp_ret {S A} (a : A) (Q : A -> S -> Prop) s : Q a s -> wp (mret a) Q s.
Proof. exact id. Qed.

Lemma wp_bind {S A B} (m : M S A) (f : A -> M S B) Q s :
  wp m (fun a s' => wp (f a) Q s') s -> wp (m ≫= f) Q s.
Proof. unfold wp, mbind, M_bind. destruct (m s); tauto. Qed.

Lemma wp_mono {S A} (m : M S A) (P Q : A -> S -> Prop) s :
  wp m P s -> (forall a s', P a s' -> Q a s') -> wp m Q s.
Proof. unfold wp. destruct (m s); auto. Qed.

Lemma wp_conj {S A} (m : M S A) (P Q : A -> S -> Prop) s :
  wp m P s -> wp m Q s -> wp m (fun a s' => P a s' /\ Q a s') s.
Proof. unfold wp. destruct (m s); auto. Qed.

Lemma wp_run {S A} (m : M S A) Q s :
  wp m Q s <-> exists a s', m s = Ret a s' /\ Q a s'.
Proof.
  unfold wp. split.
  - destruct (m s) eqn:E; try tauto. eauto.
  - intros (a & s' & -> & H). exact H.
Qed.

Lemma wp_gets {S A} (f : S -> A) Q s : Q (f s) s -> wp (gets f) Q s.
Proof. exact id. Qed.
Lemma wp_get {S} (Q : S -> S -> Prop) s : Q s s -> wp get Q s.
Proof. exact id. Qed.
Lemma wp_modify {S} (f : S -> S) Q s : Q tt (f s) -> wp (modify f) Q s.
Proof. exact id. Qed.
Lemma wp_when {S} (b : bool) (m : M S unit) Q s :
  (b = true -> wp m Q s) -> (b = false -> Q tt s) -> wp (when b m) Q s.
Proof. intros H1 H2. destruct b; [exact (H1 eq_refl) | exact (H2 eq_refl)]. Qed.
Lemma wp_panic_if {S} (b : bool) w (Q : unit -> S -> Prop) s :
  b = false -> Q tt s -> wp (panic_if b w) Q s.
Proof. intros -> H. exact H. Qed.
Lemma wp_zoom {S T A} (g : T -> S) (st : S -> T -> T) (m : M S A) Q t :
  wp m (fun a s => Q a (st s t)) (g t) -> wp (zoom g st m) Q t.
Proof. unfold wp, zoom. destruct (m (g t)); auto. Qed.
Lemma wp_acquire {S} (l : S -> bool) st Q s :
  l s = false -> Q tt (st true s) -> wp (acquire l st) Q s.
Proof. unfold wp, acquire. intros ->. auto. Qed.
Lemma wp_release {S} (l : S -> bool) st Q s :
  l s = true -> Q tt (st false s) -> wp (release l st) Q s.
Proof. unfold wp, release. intros ->. auto. Qed.

(** One iteration of a loop. *)
Lemma wp_loop_S {S L R} fuel (body : L -> M S (L + R)) l Q s :
  wp (body l) (fun r s' => match r with inl l' => wp (loop fuel body l') Q s' | inr x => Q x s' end) s ->
  wp (loop (Datatypes.S fuel) body l) Q s.
Proof.
  intros H. cbn [loop]. apply wp_bind. eapply wp_mono; [exact H|]. intros [l'|x] s' Hr; [exact Hr | apply wp_ret; exact Hr].
Qed.

(** Loops by an invariant indexed by the remaining number of iterations. *)
Lemma wp_loop {S L R} (Inv : nat -> L -> S -> Prop) (body : L -> M S (L + R)) Q :
  (forall k l s, Inv k l s ->
     wp (body l) (fun r s' => match r with
                             | inl l' => exists k', (k' < k)%nat /\ Inv k' l' s'
                             | inr x => Q x s' end) s) ->
  forall fuel k l s, Inv k l s -> (k < fuel)%nat -> wp (loop fuel body l) Q s.
Proof.
  intros Hb fuel. induction fuel as [|fuel IH]; intros k l s HI Hk; [lia|].
  cbn [loop]. apply wp_bind. eapply wp_mono; [exact (Hb k l s HI)|].
  intros [l'|x] s'; cbn.
  - intros (k' & Hlt & HI'). apply (IH k'); [exact HI' | lia].
  - apply wp_ret.
Qed.

(** ** Invariants of code that may wait or panic: [wlp B m Q s] says that
    every return of [m] satisfies [Q] and every state it waits in satisfies
    [B].  It supplements a total-correctness statement, never replaces it. *)

Definition wlp {S A} (B : S -> Prop) (m : M S A) (Q : A -> S -> Prop) (s : S) : Prop :=
  match m s with Ret a s' => Q a s' | Block s' => B s' | _ => True end.

(** [m] keeps the invariant [I], and waits in states that satisfy [B]. *)
Definition keeps {S A} (I B : S -> Prop) (m : M S A) : Prop :=
  forall s, I s -> wlp B m (fun _ s' => I s') s.

Section Wlp.
Context {S : Type} (B : S -> Prop).

Lemma wlp_ret {A} (a : A) (Q : A -> S -> Prop) s : Q a s -> wlp B (mret a) Q s.
Proof. exact id. Qed.
Lemma wlp_bind {A C} (m : M S A) (f : A -> M S C) Q s :
  wlp B m (fun a s' => wlp B (f a) Q s') s -> wlp B (m ≫= f) Q s.
Proof. unfold wlp, mbind, M_bind. destruct (m s); tauto. Qed.
Lemma wlp_mono {A} (m : M S A) (P Q : A -> S -> Prop) s :
  wlp B m P s -> (forall a s', P a s' -> Q a s') -> wlp B m Q s.
Proof. unfold wlp. destruct (m s); auto. Qed.
Lemma wp_wlp {A} (m : M S A) Q s : wp m Q s -> wlp B m Q s.
Proof. unfold wp, wlp. destruct (m s); tauto. Qed.
Lemma wlp_gets {A} (f : S -> A) (Q : A -> S -> Prop) s : Q (f s) s -> wlp B (gets f) Q s.
Proof. exact id. Qed.
Lemma wlp_modify (f : S -> S) (Q : unit -> S -> Prop) s : Q tt (f s) -> wlp B (modify f) Q s.
Proof. exact id. Qed.
Lemma wlp_when (b : bool) (m : M S unit) Q s :
  (b = true -> wlp B m Q s) -> (b = false -> Q tt s) -> wlp B (when b m) Q s.
Proof. intros H1 H2. destruct b; [exact (H1 eq_refl) | exact (H2 eq_refl)]. Qed.
Lemma wlp_panic_if (b : bool) w (Q : unit -> S -> Prop) s :
  (b = false -> Q tt s) -> wlp B (panic_if b w) Q s.
Proof. destruct b; [intros _; exact I | intros H; exact (H eq_refl)]. Qed.
Lemma wlp_panic {A} w (Q : A -> S -> Prop) s : wlp B (panic w) Q s.
Proof. exact I. Qed.
Lemma wlp_block {A} (Q : A -> S -> Prop) s : B s -> wlp B block Q s.
Proof. exact id. Qed.
Lemma wlp_zoom {T A} (g : S -> T) (st : T -> S -> S) (m : M T A) (Q : A -> S -> Prop) t :
  (forall a u, Q a (st u t)) -> (forall u, B (st u t)) -> wlp B (zoom g st m) Q t.
Proof. unfold wlp, zoom. destruct (m (g t)); auto. Qed.
Lemma wlp_acquire (l : S -> bool) st Q s : (l s = false -> Q tt (st true s)) -> wlp B (acquire l st) Q s.
Proof. unfold wlp, acquire. destruct (l s); auto. Qed.
Lemma wlp_release (l : S -> bool) st Q s : (l s = true -> Q tt (st false s)) -> wlp B (release l st) Q s.
Proof. unfold wlp, release. destruct (l s); auto. Qed.
Lemma wlp_loop {L R} (Inv : L -> S -> Prop) (body : L -> M S (L + R)) Q :
  (forall l s, Inv l s -> wlp B (body l) (fun r s' => match r with inl l' => Inv l' s' | inr x => Q x s' end) s) ->
  forall fuel l s, Inv l s -> wlp B (loop fuel body l) Q s.
Proof.
  intros Hb fuel. induction fuel as [|fuel IH]; intros l s HI; [exact I|].
  cbn [loop]. apply wlp_bind. eapply wlp_mono; [exact (Hb l s HI)|]. intros [l'|x] s'; cbn; [apply IH | apply wlp_ret].
Qed.
Lemma wlp_keeps {A} (I : S -> Prop) (m : M S A) (Q : A -> S -> Prop) s :
  keeps I B m -> I s -> (forall a s', I s' -> Q a s') -> wlp B m Q s.
Proof. intros Hk Hs HQ. eapply wlp_mono; [exact (Hk s Hs)|]. auto. Qed.
End Wlp.

(** [wp_step] takes one syntactic step of a program under [wp]. *)
Ltac wp_step :=
  lazymatch goal with
  | |- wp (_ ≫= _) _ _ => apply wp_bind
  | |- wp (mret _) _ _ => apply wp_ret
  | |- wp (gets _) _ _ => apply wp_gets
  | |- wp get _ _ => apply wp_get
  | |- wp (modify _) _ _ => apply wp_modify
  | |- wp (zoom _ _ _) _ _ => apply wp_zoom
  | |- wp (let _ := _ in _) _ _ => cbv zeta
  | |- wp ((fun _ => _) _) _ _ => cbv beta
  end.
Ltac wp_steps := repeat (wp_step; cbv beta).

(** Case analysis on every conditional of the goal, arithmetic refuting the
    impossible branches. *)
Ltac zcases := repeat case_match; first [reflexivity | lia | exfalso; lia | congruence].

(** Linear arithmetic with division and remainder by constants. *)
Ltac zdiv := Z.to_euclidean_division_equations; lia.
