(* ===== verification/Memory.v ===== *)
(** * Byte-addressed memory and kernel/string.c

    An object in memory (physical RAM, a disk block, the data of a buffer, a
    [char] array) is a function from addresses to bytes.  This file has the
    little-endian scalar accesses the compiler generates for [uint16],
    [uint32] and [uint64] lvalues and, in [Module CString], the routines of
    kernel/string.c as the loops the source writes, with the specification of
    each.  On RISC-V plain [char] is unsigned. *)

From S2P Require Import Prelude.

Definition mem : Type := Z -> byte.

Definition mset (m : mem) (a : Z) (b : byte) : mem :=
  fun x => if x =? a then b else m x.

(** The effect of copying [n] bytes of [src] at [s] over [m] at [d]. *)
Definition blit (m : mem) (d : Z) (src : mem) (s n : Z) : mem :=
  fun x => if (d <=? x) && (x <? d + n) then src (s + (x - d)) else m x.

(** The effect of filling [n] bytes of [m] at [d]. *)
Definition fill (m : mem) (d n : Z) (b : byte) : mem :=
  fun x => if (d <=? x) && (x <? d + n) then b else m x.

Definition zeroes : mem := fun _ => x00.

(** The bytes of [m] from [a], [n] of them. *)
Definition bytes_at (m : mem) (a : Z) (n : nat) : list byte :=
  (fun i => m (a + Z.of_nat i)) <$> seq 0 n.

(** Writing a list of bytes at [a]. *)
Definition put_bytes (m : mem) (a : Z) (l : list byte) : mem :=
  fun x => if (a <=? x) && (x <? a + Z.of_nat (length l))
           then nth (Z.to_nat (x - a)) l x00 else m x.

(** ** Little-endian scalars *)

Fixpoint le_load (n : nat) (m : mem) (a : Z) : Z :=
  match n with
  | O => 0
  | S n' => b2z (m a) + 256 * le_load n' m (a + 1)
  end.

Fixpoint le_store (n : nat) (m : mem) (a v : Z) : mem :=
  match n with
  | O => m
  | S n' => le_store n' (mset m a (z2b v)) (a + 1) (v / 256)
  end.

Definition load16 := le_load 2.
Definition load32 := le_load 4.
Definition load64 := le_load 8.
Definition store16 := le_store 2.
Definition store32 := le_store 4.
Definition store64 := le_store 8.

Lemma mset_eq m a b : mset m a b a = b.
Proof. unfold mset. rewrite Z.eqb_refl. reflexivity. Qed.

Lemma mset_ne m a b x : x <> a -> mset m a b x = m x.
Proof. intros H. unfold mset. apply Z.eqb_neq in H as ->. reflexivity. Qed.

Lemma le_load_range n m a : 0 <= le_load n m a < 2 ^ (8 * Z.of_nat n).
Proof.
  revert a. induction n as [|n IH]; intros a; cbn [le_load]; [lia|].
  specialize (IH (a + 1)). pose proof (b2z_range (m a)).
  replace (8 * Z.of_nat (S n)) with (8 + 8 * Z.of_nat n) by lia.
  rewrite Z.pow_add_r by lia. change (2 ^ 8) with 256. lia.
Qed.

Lemma le_load_ext n (m m' : mem) a a' :
  (forall i, 0 <= i < Z.of_nat n -> m (a + i) = m' (a' + i)) ->
  le_load n m a = le_load n m' a'.
Proof.
  revert a a'. induction n as [|n IH]; intros a a' H; cbn [le_load]; [reflexivity|].
  f_equal.
  - specialize (H 0 ltac:(lia)). rewrite !Z.add_0_r in H. now rewrite H.
  - f_equal. apply IH. intros i Hi. specialize (H (1 + i) ltac:(lia)).
    now rewrite !Z.add_assoc in H.
Qed.

Lemma le_store_out n m a v x :
  x < a \/ a + Z.of_nat n <= x -> le_store n m a v x = m x.
Proof.
  revert m a v. induction n as [|n IH]; intros m a v Hx; cbn [le_store]; [reflexivity|].
  rewrite IH by lia. apply mset_ne. lia.
Qed.

Lemma le_load_store_ne n k m a v b :
  b + Z.of_nat n <= a \/ a + Z.of_nat k <= b ->
  le_load n (le_store k m a v) b = le_load n m b.
Proof. intros H. apply le_load_ext. intros i Hi. apply le_store_out. lia. Qed.

Lemma le_load_store_eq n m a v :
  le_load n (le_store n m a v) a = v mod 2 ^ (8 * Z.of_nat n).
Proof.
  revert m a v. induction n as [|n IH]; intros m a v; cbn [le_load le_store].
  { rewrite Z.mod_1_r. reflexivity. }
  rewrite IH. rewrite le_store_out by lia. rewrite mset_eq, b2z_z2b.
  replace (8 * Z.of_nat (S n)) with (8 + 8 * Z.of_nat n) by lia.
  rewrite Z.pow_add_r by lia. change (2 ^ 8) with 256.
  pose proof (Z.pow_pos_nonneg 2 (8 * Z.of_nat n) ltac:(lia) ltac:(lia)).
  rewrite Z.rem_mul_r by lia. reflexivity.
Qed.

(** ** Region lemmas *)

Lemma blit_in m d src s n x : d <= x < d + n -> blit m d src s n x = src (s + (x - d)).
Proof.
  intros H. unfold blit.
  replace ((d <=? x) && (x <? d + n)) with true by lia. reflexivity.
Qed.
Lemma blit_out m d src s n x : ~ d <= x < d + n -> blit m d src s n x = m x.
Proof.
  intros H. unfold blit.
  replace ((d <=? x) && (x <? d + n)) with false by lia. reflexivity.
Qed.
Lemma fill_in m d n b x : d <= x < d + n -> fill m d n b x = b.
Proof.
  intros H. unfold fill.
  replace ((d <=? x) && (x <? d + n)) with true by lia. reflexivity.
Qed.
Lemma fill_out m d n b x : ~ d <= x < d + n -> fill m d n b x = m x.
Proof.
  intros H. unfold fill.
  replace ((d <=? x) && (x <? d + n)) with false by lia. reflexivity.
Qed.

Lemma le_load_fill_out n m d k b a :
  a + Z.of_nat n <= d \/ d + k <= a -> le_load n (fill m d k b) a = le_load n m a.
Proof. intros H. apply le_load_ext. intros i Hi. apply fill_out. lia. Qed.

Lemma le_load_zero n m a :
  (forall i, 0 <= i < Z.of_nat n -> m (a + i) = x00) -> le_load n m a = 0.
Proof.
  revert a. induction n as [|n IH]; intros a H; cbn [le_load]; [reflexivity|].
  rewrite IH.
  - specialize (H 0 ltac:(lia)). rewrite Z.add_0_r in H. rewrite H. reflexivity.
  - intros i Hi. rewrite <- Z.add_assoc. apply H. lia.
Qed.

Lemma le_load_fill_zero n m d k a :
  d <= a -> a + Z.of_nat n <= d + k -> le_load n (fill m d k x00) a = 0.
Proof. intros H1 H2. apply le_load_zero. intros i Hi. apply fill_in. lia. Qed.

Lemma length_bytes_at m a n : length (bytes_at m a n) = n.
Proof. unfold bytes_at. rewrite length_fmap, length_seq. reflexivity. Qed.

Lemma lookup_bytes_at m a n (i : nat) :
  (i < n)%nat -> bytes_at m a n !! i = Some (m (a + Z.of_nat i)).
Proof.
  intros H. unfold bytes_at. rewrite list_lookup_fmap, lookup_seq_lt by exact H. reflexivity.
Qed.

Lemma nth_bytes_at (g : Z -> byte) a (n i : nat) : (i < n)%nat -> nth i (bytes_at g a n) x00 = g (a + Z.of_nat i).
Proof. intros Hi. apply nth_lookup_Some, lookup_bytes_at, Hi. Qed.

Lemma bytes_at_ext m m' a a' n :
  (forall i, 0 <= i < Z.of_nat n -> m (a + i) = m' (a' + i)) ->
  bytes_at m a n = bytes_at m' a' n.
Proof.
  intros H. unfold bytes_at. apply list_fmap_ext. intros i x Hx.
  apply lookup_seq in Hx. apply H. lia.
Qed.

Lemma bytes_at_app m a (n k : nat) :
  bytes_at m a (n + k) = bytes_at m a n ++ bytes_at m (a + Z.of_nat n) k.
Proof.
  apply list_eq. intros i.
  destruct (decide (i < n)%nat) as [Hi|Hi].
  - rewrite lookup_app_l by (rewrite length_bytes_at; lia).
    rewrite !lookup_bytes_at by lia. reflexivity.
  - rewrite lookup_app_r by (rewrite length_bytes_at; lia).
    rewrite length_bytes_at. destruct (decide (i < n + k)%nat).
    + rewrite !lookup_bytes_at by lia. do 2 f_equal. lia.
    + rewrite !lookup_ge_None_2 by (rewrite length_bytes_at; lia). reflexivity.
Qed.

Lemma put_bytes_in m a l x :
  a <= x < a + Z.of_nat (length l) -> put_bytes m a l x = nth (Z.to_nat (x - a)) l x00.
Proof.
  intros H. unfold put_bytes.
  replace ((a <=? x) && (x <? a + Z.of_nat (length l))) with true by lia. reflexivity.
Qed.
Lemma put_bytes_out m a l x :
  ~ a <= x < a + Z.of_nat (length l) -> put_bytes m a l x = m x.
Proof.
  intros H. unfold put_bytes.
  replace ((a <=? x) && (x <? a + Z.of_nat (length l))) with false by lia. reflexivity.
Qed.

Create Rewrite HintDb mem.
#[export] Hint Rewrite mset_eq : mem.
#[export] Hint Rewrite blit_in blit_out fill_in fill_out put_bytes_in put_bytes_out
  using lia : mem.

(** ** kernel/string.c

    Pointers into distinct C objects are an object and an offset; within one
    object the addresses are compared as the source compares them. *)
Module CString.

(** [cdst[i] = c] for i = 0 .. n-1 *)
Fixpoint memset_loop (k : nat) (m : mem) (a c : Z) : mem :=
  match k with
  | O => m
  | S k' => memset_loop k' (mset m a (z2b c)) (a + 1) c
  end.
Definition memset (dst c n : Z) (m : mem) : mem := memset_loop (Z.to_nat n) m dst c.

Fixpoint memcmp_loop (k : nat) (m1 : mem) (s1 : Z) (m2 : mem) (s2 : Z) : Z :=
  match k with
  | O => 0
  | S k' =>
      if negb (b2z (m1 s1) =? b2z (m2 s2)) then b2z (m1 s1) - b2z (m2 s2)
      else memcmp_loop k' m1 (s1 + 1) m2 (s2 + 1)
  end.
Definition memcmp (m1 : mem) (v1 : Z) (m2 : mem) (v2 n : Z) : Z :=
  memcmp_loop (Z.to_nat n) m1 v1 m2 v2.

(** [while(n-- > 0) *d++ = *s++;] *)
Fixpoint copy_up (k : nat) (m : mem) (d s : Z) : mem :=
  match k with
  | O => m
  | S k' => copy_up k' (mset m d (m s)) (d + 1) (s + 1)
  end.
(** [while(n-- > 0) *--d = *--s;] *)
Fixpoint copy_down (k : nat) (m : mem) (d s : Z) : mem :=
  match k with
  | O => m
  | S k' => copy_down k' (mset m (d - 1) (m (s - 1))) (d - 1) (s - 1)
  end.
Definition memmove (dst src n : Z) (m : mem) : mem :=
  if n =? 0 then m
  else if (src <? dst) && (src + n >? dst)
  then copy_down (Z.to_nat n) m (dst + n) (src + n)
  else copy_up (Z.to_nat n) m dst src.
Definition memcpy (dst src n : Z) (m : mem) : mem := memmove dst src n m.

Fixpoint strncmp_loop (k : nat) (m1 : mem) (p : Z) (m2 : mem) (q : Z) : Z :=
  match k with
  | O => 0
  | S k' =>
      if negb (b2z (m1 p) =? 0) && (b2z (m1 p) =? b2z (m2 q))
      then strncmp_loop k' m1 (p + 1) m2 (q + 1)
      else b2z (m1 p) - b2z (m2 q)
  end.
Definition strncmp (m1 : mem) (p : Z) (m2 : mem) (q n : Z) : Z :=
  strncmp_loop (Z.to_nat n) m1 p m2 q.

(** The two loops of [strncpy]: copy until a NUL has been copied, then pad. *)
Fixpoint strncpy_loop (k : nat) (m : mem) (s : Z) (src : mem) (t : Z) : mem :=
  match k with
  | O => m
  | S k' =>
      let m' := mset m s (src t) in
      if b2z (src t) =? 0 then memset_loop k' m' (s + 1) 0
      else strncpy_loop k' m' (s + 1) src (t + 1)
  end.
Definition strncpy (m : mem) (s : Z) (src : mem) (t n : Z) : mem :=
  strncpy_loop (Z.to_nat n) m s src t.

(** [while(--n > 0 && ( *s++ = *t++) != 0); *s = 0;] : after copying a NUL
    the pointer is one past it and [*s = 0] writes the byte there. *)
Fixpoint safestrcpy_loop (k : nat) (m : mem) (s : Z) (src : mem) (t : Z) : mem :=
  match k with
  | O => mset m s x00
  | S k' =>
      let m' := mset m s (src t) in
      if b2z (src t) =? 0 then mset m' (s + 1) x00
      else safestrcpy_loop k' m' (s + 1) src (t + 1)
  end.
Definition safestrcpy (m : mem) (s : Z) (src : mem) (t n : Z) : mem :=
  if n <=? 0 then m else safestrcpy_loop (Z.to_nat (n - 1)) m s src t.

Fixpoint strlen_loop (fuel : nat) (m : mem) (s n : Z) : option Z :=
  match fuel with
  | O => None
  | S f => if b2z (m (s + n)) =? 0 then Some n else strlen_loop f m s (n + 1)
  end.
Definition strlen (fuel : nat) (m : mem) (s : Z) : option Z := strlen_loop fuel m s 0.

(** *** Specifications *)

(** The string at [p] in an array of at most [n] bytes: up to the first NUL. *)
Fixpoint cstr (n : nat) (m : mem) (p : Z) : list byte :=
  match n with
  | O => []
  | S n' => if b2z (m p) =? 0 then [] else m p :: cstr n' m (p + 1)
  end.

Lemma memset_loop_spec k m a c x :
  memset_loop k m a c x = fill m a (Z.of_nat k) (z2b c) x.
Proof.
  revert m a. induction k as [|k IH]; intros m a; cbn [memset_loop].
  { rewrite fill_out by lia. reflexivity. }
  rewrite IH. unfold fill, mset.
  zcases.
Qed.

Lemma memset_fill dst c n m : 0 <= n -> memset dst c n m = fill m dst n (z2b c).
Proof.
  intros Hn. apply functional_extensionality. intros x.
  unfold memset. rewrite memset_loop_spec, Z2Nat.id by lia. reflexivity.
Qed.

Lemma copy_up_spec k m d s x :
  d <= s \/ s + Z.of_nat k <= d ->
  copy_up k m d s x = blit m d m s (Z.of_nat k) x.
Proof.
  revert m d s. induction k as [|k IH]; intros m d s Hd; cbn [copy_up].
  { rewrite blit_out by lia. reflexivity. }
  rewrite IH by lia. destruct (decide (d <= x < d + Z.of_nat (S k))) as [Hx|Hx].
  - rewrite (blit_in m) by lia. destruct (decide (x = d)) as [->|Hne].
    + rewrite blit_out, mset_eq by lia. f_equal. lia.
    + rewrite blit_in by lia. rewrite mset_ne by lia. f_equal. lia.
  - rewrite !blit_out by lia. apply mset_ne. lia.
Qed.

Lemma copy_down_spec k m d s x :
  s <= d ->
  copy_down k m d s x = blit m (d - Z.of_nat k) m (s - Z.of_nat k) (Z.of_nat k) x.
Proof.
  revert m d s. induction k as [|k IH]; intros m d s Hd; cbn [copy_down].
  { rewrite blit_out by lia. reflexivity. }
  rewrite IH by lia.
  destruct (decide (d - Z.of_nat (S k) <= x < d)) as [Hx|Hx].
  - rewrite (blit_in m) by lia. destruct (decide (x = d - 1)) as [->|Hne].
    + rewrite blit_out, mset_eq by lia. f_equal. lia.
    + rewrite blit_in by lia. rewrite mset_ne by lia. f_equal. lia.
  - rewrite !blit_out by lia. apply mset_ne. lia.
Qed.

Lemma memmove_blit dst src n m :
  0 <= n -> memmove dst src n m = blit m dst m src n.
Proof.
  intros Hn. apply functional_extensionality. intros x. unfold memmove.
  destruct (Z.eqb_spec n 0) as [->|Hn0]; [rewrite blit_out by lia; reflexivity|].
  destruct ((src <? dst) && (src + n >? dst)) eqn:E.
  - rewrite copy_down_spec, Z2Nat.id by lia. f_equal; lia.
  - rewrite copy_up_spec, Z2Nat.id by lia. reflexivity.
Qed.

Lemma memcmp_loop_zero k m1 s1 m2 s2 :
  memcmp_loop k m1 s1 m2 s2 = 0 <-> bytes_at m1 s1 k = bytes_at m2 s2 k.
Proof.
  revert s1 s2. induction k as [|k IH]; intros s1 s2; cbn [memcmp_loop]; [tauto|].
  change (S k) with (1 + k)%nat. rewrite !bytes_at_app.
  change (bytes_at m1 s1 1) with [m1 (s1 + 0)]. change (bytes_at m2 s2 1) with [m2 (s2 + 0)].
  rewrite !Z.add_0_r. change (Z.of_nat 1) with 1. cbn [app].
  destruct (Z.eqb_spec (b2z (m1 s1)) (b2z (m2 s2))) as [E|E]; cbn [negb].
  - rewrite IH. apply b2z_inj in E. rewrite E. split; [intros ->; reflexivity | congruence].
  - split; [lia|]. intros H. injection H as H _. congruence.
Qed.

Lemma strncmp_loop_zero k m1 p m2 q :
  strncmp_loop k m1 p m2 q = 0 <-> cstr k m1 p = cstr k m2 q.
Proof.
  revert p q. induction k as [|k IH]; intros p q; cbn [strncmp_loop cstr]; [tauto|].
  destruct (Z.eqb_spec (b2z (m1 p)) 0) as [E0|E0]; cbn [negb andb].
  - destruct (Z.eqb_spec (b2z (m2 q)) 0) as [E1|E1]; [split; [reflexivity | lia]|].
    split; [lia | discriminate].
  - destruct (Z.eqb_spec (b2z (m1 p)) (b2z (m2 q))) as [E|E].
    + destruct (Z.eqb_spec (b2z (m2 q)) 0) as [E1|E1]; [exfalso; lia|].
      rewrite IH. apply b2z_inj in E. rewrite E.
      split; [intros ->; reflexivity | congruence].
    + destruct (Z.eqb_spec (b2z (m2 q)) 0) as [E1|E1].
      * split; [lia | discriminate].
      * split; [lia|]. intros H. injection H as H _. congruence.
Qed.

Lemma cstr_length n m p : (length (cstr n m p) <= n)%nat.
Proof.
  revert p. induction n as [|n IH]; intros p; cbn [cstr]; [cbn; lia|].
  case_match; cbn [length]; [lia|]. specialize (IH (p + 1)). lia.
Qed.

Lemma strncpy_loop_spec k m s src t x :
  strncpy_loop k m s src t x =
  if (s <=? x) && (x <? s + Z.of_nat k)
  then nth (Z.to_nat (x - s)) (cstr k src t) x00 else m x.
Proof.
  revert m s t. induction k as [|k IH]; intros m s t; cbn [strncpy_loop cstr].
  { replace ((s <=? x) && (x <? s + Z.of_nat 0)) with false by lia. reflexivity. }
  cbv zeta. destruct (Z.eqb_spec (b2z (src t)) 0) as [E|E].
  - rewrite memset_loop_spec. unfold fill, mset.
    assert (E' : src t = x00) by (apply b2z_inj; rewrite E; reflexivity). rewrite E'.
    change (z2b 0) with x00.
    replace (nth (Z.to_nat (x - s)) [] x00) with x00 by (destruct (Z.to_nat (x - s)); reflexivity).
    zcases.
  - rewrite IH. unfold mset.
    destruct ((s <=? x) && (x <? s + Z.of_nat (S k))) eqn:H1.
    + destruct (Z.eqb_spec x s) as [->|Hne].
      * replace ((s + 1 <=? s) && (s <? s + 1 + Z.of_nat k)) with false by lia.
        rewrite Z.sub_diag. reflexivity.
      * replace ((s + 1 <=? x) && (x <? s + 1 + Z.of_nat k)) with true by lia.
        replace (Z.to_nat (x - s)) with (S (Z.to_nat (x - (s + 1)))) by lia. reflexivity.
    + replace ((s + 1 <=? x) && (x <? s + 1 + Z.of_nat k)) with false by lia.
      destruct (Z.eqb_spec x s); [lia | reflexivity].
Qed.

Lemma safestrcpy_loop_cstr k m s src t :
  cstr (S k) (safestrcpy_loop k m s src t) s = cstr k src t.
Proof.
  revert m s t. induction k as [|k IH]; intros m s t; cbn [safestrcpy_loop].
  { cbn [cstr]. rewrite mset_eq. reflexivity. }
  cbv zeta. destruct (Z.eqb_spec (b2z (src t)) 0) as [E|E].
  - cbn [cstr]. rewrite mset_ne, mset_eq by lia. rewrite E. reflexivity.
  - change (cstr (S k) src t) with (if b2z (src t) =? 0 then [] else src t :: cstr k src (t + 1)).
    change (cstr (S (S k)) ?a s) with (if b2z (a s) =? 0 then [] else a s :: cstr (S k) a (s + 1)).
    rewrite IH.
    assert (Hs : forall j m1 a b, a > s ->
       safestrcpy_loop j m1 a src b s = m1 s).
    { clear. induction j as [|j IHj]; intros m1 a b Ha; cbn [safestrcpy_loop].
      - apply mset_ne. lia.
      - cbv zeta. case_match.
        + rewrite !mset_ne by lia. reflexivity.
        + rewrite IHj by lia. apply mset_ne. lia. }
    rewrite Hs by lia. rewrite mset_eq.
    apply Z.eqb_neq in E as ->. reflexivity.
Qed.

Lemma strlen_loop_spec fuel m s n r :
  strlen_loop fuel m s n = Some r ->
  n <= r /\ b2z (m (s + r)) = 0 /\ forall i, n <= i < r -> b2z (m (s + i)) <> 0.
Proof.
  revert n. induction fuel as [|f IH]; intros n; cbn [strlen_loop]; [discriminate|].
  destruct (Z.eqb_spec (b2z (m (s + n))) 0) as [E|E].
  - intros [= <-]. split; [lia|]. split; [exact E|]. intros i Hi. lia.
  - intros H. apply IH in H as (H1 & H2 & H3). split; [lia|]. split; [exact H2|].
    intros i Hi. destruct (decide (i = n)) as [->|]; [exact E | apply H3; lia].
Qed.

Lemma strlen_loop_total m s z n fuel :
  b2z (m (s + z)) = 0 -> n <= z -> z - n < Z.of_nat fuel ->
  exists r, strlen_loop fuel m s n = Some r /\ r <= z.
Proof.
  revert n. induction fuel as [|f IH]; intros n Hz Hn Hf; [lia|].
  cbn [strlen_loop]. destruct (Z.eqb_spec (b2z (m (s + n))) 0) as [E|E].
  - exists n. split; [reflexivity | lia].
  - apply IH; [exact Hz | | lia]. destruct (decide (n = z)) as [->|]; [contradiction | lia].
Qed.

(** [memmove] copies correctly for every pair of ranges, overlapping or
    not: the destination receives the bytes the source held before the call
    and no other byte changes. *)
Theorem memmove_overlap dst src n m x :
  0 <= n ->
  memmove dst src n m x = if (dst <=? x) && (x <? dst + n) then m (src + (x - dst)) else m x.
Proof.
  intros Hn. rewrite memmove_blit by exact Hn.
  destruct (_ && _) eqn:E; [rewrite blit_in | rewrite blit_out]; try reflexivity; lia.
Qed.

Lemma memmove_overlap_witness :
  memmove 101 100 4 (fun a => z2b (u8 a)) 103 = z2b 102.
Proof. rewrite (memmove_overlap 101 100 4); [reflexivity | lia]. Defined.

(** A C string stored in an array reads back up to its bound. *)
Lemma cstr_bytes k (m : mem) a (l : list byte) :
  x00 ∉ l -> (forall i b, l !! i = Some b -> m (a + Z.of_nat i) = b) ->
  ((length l < k)%nat -> m (a + Z.of_nat (length l)) = x00) -> (length l <= k)%nat -> cstr k m a = l.
Proof.
  revert a l. induction k as [|k IH]; intros a l Hn Hm Hz Hl; cbn [cstr].
  - destruct l; [reflexivity | cbn in Hl; lia].
  - destruct l as [|b l].
    + cbn in Hz. rewrite Z.add_0_r in Hz. rewrite Hz by lia. reflexivity.
    + pose proof (Hm 0%nat b eq_refl) as Hb. rewrite Z.add_0_r in Hb. rewrite Hb. apply not_elem_of_cons in Hn as [Hb0 Hn].
      destruct (Z.eqb_spec (b2z b) 0) as [E|E]; [exfalso; apply Hb0; apply b2z_inj; rewrite E; reflexivity|].
      f_equal. apply IH; [exact Hn | | | cbn in Hl; lia].
      * intros i d Hi. specialize (Hm (S i) d Hi). rewrite <- Hm. f_equal. lia.
      * intros Hk. rewrite <- Hz by (cbn; lia). f_equal. cbn [length]. lia.
Qed.

End CString.

#[global] Arguments le_load : simpl never.
#[global] Arguments le_store : simpl never.
#[global] Arguments load16 : simpl never.
#[global] Arguments load32 : simpl never.
#[global] Arguments load64 : simpl never.
#[global] Arguments store16 : simpl never.
#[global] Arguments store32 : simpl never.
#[global] Arguments store64 : simpl never.
#[global] Arguments CString.memset : simpl never.
#[global] Arguments CString.memmove : simpl never.
#[global] Arguments blit : simpl never.
#[global] Arguments fill : simpl never.
