(* ===== verification/Riscv.v ===== *)
(** * Page and page-table macros (kernel/riscv.h, kernel/memlayout.h)

    The macros as the headers write them, on 64-bit unsigned values, and the
    arithmetic facts about them that the memory components share. *)

From S2P Require Import Prelude.

(** ** kernel/riscv.h *)

Definition PGSIZE : Z := 4096.
Definition PGSHIFT : Z := 12.
Definition PGROUNDUP (sz : Z) : Z := Z.land (u64 (sz + PGSIZE - 1)) (Z.lnot (PGSIZE - 1)).
Definition PGROUNDDOWN (a : Z) : Z := Z.land a (Z.lnot (PGSIZE - 1)).

Definition PTE_V : Z := Z.shiftl 1 0.
Definition PTE_R : Z := Z.shiftl 1 1.
Definition PTE_W : Z := Z.shiftl 1 2.
Definition PTE_X : Z := Z.shiftl 1 3.
Definition PTE_U : Z := Z.shiftl 1 4.

Definition PA2PTE (pa : Z) : Z := u64 (Z.shiftl (Z.shiftr pa 12) 10).
Definition PTE2PA (pte : Z) : Z := u64 (Z.shiftl (Z.shiftr pte 10) 12).
Definition PTE_FLAGS (pte : Z) : Z := Z.land pte 0x3FF.

Definition PXMASK : Z := 0x1FF.
Definition PXSHIFT (level : Z) : Z := PGSHIFT + 9 * level.
Definition PX (level va : Z) : Z := Z.land (Z.shiftr va (PXSHIFT level)) PXMASK.
Definition MAXVA : Z := Z.shiftl 1 (9 + 9 + 9 + 12 - 1).

(** ** kernel/memlayout.h *)

Definition UART0 : Z := 0x10000000.
Definition VIRTIO0 : Z := 0x10001000.
Definition PLIC : Z := 0x0c000000.
Definition KERNBASE : Z := 0x80000000.
Definition PHYSTOP : Z := KERNBASE + 128 * 1024 * 1024.
Definition TRAMPOLINE : Z := MAXVA - PGSIZE.
Definition KSTACK (p : Z) : Z := TRAMPOLINE - (p + 1) * 2 * PGSIZE.
Definition TRAPFRAME : Z := TRAMPOLINE - PGSIZE.

(** ** Arithmetic of the macros *)

Lemma land_lnot_pg (x : Z) : Z.land x (Z.lnot (PGSIZE - 1)) = PGSIZE * (x / PGSIZE).
Proof.
  change (PGSIZE - 1) with (Z.ones 12). change PGSIZE with (2 ^ 12).
  rewrite <- Z.ldiff_land, Z.ldiff_ones_r by lia.
  rewrite Z.shiftl_mul_pow2, Z.shiftr_div_pow2 by lia. lia.
Qed.

Lemma PGROUNDDOWN_eq a : PGROUNDDOWN a = PGSIZE * (a / PGSIZE).
Proof. apply land_lnot_pg. Qed.

Lemma PGROUNDUP_eq a :
  0 <= a -> a + PGSIZE - 1 < 2 ^ 64 -> PGROUNDUP a = PGSIZE * ((a + PGSIZE - 1) / PGSIZE).
Proof.
  intros H0 H. unfold PGROUNDUP, u64, PGSIZE in *. rewrite Z.mod_small by lia.
  apply land_lnot_pg.
Qed.

Lemma PGROUNDUP_aligned_id a :
  0 <= a -> a + PGSIZE - 1 < 2 ^ 64 -> a mod PGSIZE = 0 -> PGROUNDUP a = a.
Proof.
  intros H0 H Ha. rewrite PGROUNDUP_eq by assumption. unfold PGSIZE in *. zdiv.
Qed.

Lemma PGROUNDUP_bounds a :
  0 <= a -> a + PGSIZE - 1 < 2 ^ 64 ->
  a <= PGROUNDUP a < a + PGSIZE /\ PGROUNDUP a mod PGSIZE = 0.
Proof.
  intros H0 H. rewrite PGROUNDUP_eq by assumption. unfold PGSIZE in *. zdiv.
Qed.

Lemma PGROUNDDOWN_bounds a :
  PGROUNDDOWN a <= a < PGROUNDDOWN a + PGSIZE /\ PGROUNDDOWN a mod PGSIZE = 0.
Proof. rewrite PGROUNDDOWN_eq. unfold PGSIZE in *. zdiv. Qed.

Lemma PX_eq level va : 0 <= level -> PX level va = (va / 2 ^ (12 + 9 * level)) mod 512.
Proof.
  intros H. unfold PX, PXSHIFT, PXMASK, PGSHIFT. change 0x1FF with (Z.ones 9).
  rewrite Z.land_ones, Z.shiftr_div_pow2 by lia. reflexivity.
Qed.

Lemma PX_range level va : 0 <= level -> 0 <= PX level va < 512.
Proof. intros H. rewrite PX_eq by lia. apply Z.mod_pos_bound. lia. Qed.

(** The three indices determine the page of a user virtual address. *)
Lemma PX_inj va va' :
  0 <= va < MAXVA -> 0 <= va' < MAXVA ->
  PX 2 va = PX 2 va' -> PX 1 va = PX 1 va' -> PX 0 va = PX 0 va' ->
  va / PGSIZE = va' / PGSIZE.
Proof.
  rewrite !PX_eq by lia. change MAXVA with (2 ^ 38). change PGSIZE with 4096.
  change (2 ^ (12 + 9 * 2)) with (2 ^ 30). change (2 ^ (12 + 9 * 1)) with (2 ^ 21).
  change (2 ^ (12 + 9 * 0)) with (2 ^ 12). zdiv.
Qed.

Lemma PA2PTE_eq pa :
  0 <= pa < 2 ^ 56 -> PA2PTE pa = 1024 * (pa / PGSIZE).
Proof.
  intros H. unfold PA2PTE, u64. rewrite Z.shiftr_div_pow2, Z.shiftl_mul_pow2 by lia.
  change (2 ^ 12) with PGSIZE. change (2 ^ 10) with 1024. unfold PGSIZE in *.
  rewrite Z.mod_small; zdiv.
Qed.

Lemma PTE2PA_eq pte : 0 <= pte < 2 ^ 54 -> PTE2PA pte = PGSIZE * (pte / 1024).
Proof.
  intros H. unfold PTE2PA, u64. rewrite Z.shiftr_div_pow2, Z.shiftl_mul_pow2 by lia.
  change (2 ^ 12) with PGSIZE. change (2 ^ 10) with 1024. unfold PGSIZE in *.
  rewrite Z.mod_small; zdiv.
Qed.

(** Or-ing ten flag bits under an entry's page number is an addition. *)
Lemma lor_flags k fl : 0 <= fl < 1024 -> Z.lor (1024 * k) fl = 1024 * k + fl.
Proof.
  intros H. replace (1024 * k) with (Z.shiftl k 10) by (rewrite Z.shiftl_mul_pow2; lia).
  assert (Hz : Z.land (Z.shiftl k 10) fl = 0).
  { apply Z.bits_inj'. intros n Hn. rewrite Z.land_spec, Z.bits_0.
    destruct (decide (n < 10)).
    - rewrite Z.shiftl_spec_low by lia. reflexivity.
    - replace fl with (fl mod 2 ^ 10) by (apply Z.mod_small; lia).
      rewrite Z.mod_pow2_bits_high by lia. apply andb_false_r. }
  rewrite Z.add_nocarry_lxor, Z.lxor_lor by exact Hz. reflexivity.
Qed.

Lemma PTE2PA_roundtrip pa fl :
  0 <= pa < 2 ^ 56 -> pa mod PGSIZE = 0 -> 0 <= fl < 1024 ->
  PTE2PA (Z.lor (PA2PTE pa) fl) = pa.
Proof.
  intros H Ha Hf. rewrite PA2PTE_eq, lor_flags by assumption.
  unfold PGSIZE in *. rewrite PTE2PA_eq by zdiv. unfold PGSIZE. zdiv.
Qed.

Lemma PTE_FLAGS_roundtrip pa fl :
  0 <= pa < 2 ^ 56 -> 0 <= fl < 1024 ->
  PTE_FLAGS (Z.lor (PA2PTE pa) fl) = fl.
Proof.
  intros H Hf. rewrite PA2PTE_eq, lor_flags by assumption.
  unfold PTE_FLAGS. change 0x3FF with (Z.ones 10). rewrite Z.land_ones by lia.
  change (2 ^ 10) with 1024. unfold PGSIZE. zdiv.
Qed.

Lemma lor_bound n a b :
  0 <= n -> 0 <= a < 2 ^ n -> 0 <= b < 2 ^ n -> 0 <= Z.lor a b < 2 ^ n.
Proof.
  intros Hn Ha Hb.
  assert (E : Z.lor a b = Z.land (Z.lor a b) (Z.ones n)).
  { rewrite Z.land_lor_distr_l, !Z.land_ones, !Z.mod_small by lia. reflexivity. }
  rewrite E, Z.land_ones by exact Hn. apply Z.mod_pos_bound. lia.
Qed.

Lemma PX_page level va : 0 <= level -> PX level (PGROUNDDOWN va) = PX level va.
Proof.
  intros H. rewrite !PX_eq, PGROUNDDOWN_eq by exact H.
  replace (2 ^ (12 + 9 * level)) with (PGSIZE * 2 ^ (9 * level)) by
    (change PGSIZE with (2 ^ 12); rewrite <- Z.pow_add_r; [reflexivity | lia | lia]).
  pose proof (Z.pow_pos_nonneg 2 (9 * level) ltac:(lia) ltac:(lia)).
  rewrite <- !Z.div_div by (unfold PGSIZE; lia).
  rewrite (Z.mul_comm PGSIZE), Z.div_mul by (unfold PGSIZE; lia). reflexivity.
Qed.

(** Entries [kalloc]ed pages and permissions make. *)
Lemma pte_make pa perm :
  0 <= pa < 2 ^ 56 -> 0 <= perm < 1024 ->
  exists fl, 0 <= fl < 1024 /\ Z.land fl 1 = 1 /\
    Z.lor (Z.lor (PA2PTE pa) perm) PTE_V = Z.lor (PA2PTE pa) fl /\ fl = Z.lor perm PTE_V.
Proof.
  intros Hpa Hperm. exists (Z.lor perm PTE_V). rewrite Z.lor_assoc.
  split; [apply (lor_bound 10); [lia | exact Hperm | change PTE_V with 1; lia]|].
  split; [|split; reflexivity]. rewrite Z.land_lor_distr_l.
  change (Z.land PTE_V 1) with 1. change 1 with (Z.ones 1).
  rewrite Z.land_ones by lia. apply Z.bits_inj'. intros n Hn. rewrite Z.lor_spec.
  destruct (decide (n = 0)) as [->|].
  - rewrite (Z.ones_spec_low 1 0) by lia. apply orb_true_r.
  - rewrite Z.mod_pow2_bits_high by lia. reflexivity.
Qed.

Lemma flag_V_of_lor pa fl :
  0 <= pa < 2 ^ 56 -> 0 <= fl < 1024 -> Z.land fl 1 = 1 ->
  Z.land (Z.lor (PA2PTE pa) fl) PTE_V = 1.
Proof.
  intros Hpa Hf H1. rewrite Z.land_lor_distr_l.
  change PTE_V with 1. rewrite H1. rewrite PA2PTE_eq by exact Hpa.
  replace (Z.land (1024 * (pa / PGSIZE)) 1) with 0; [reflexivity|].
  change 1 with (Z.ones 1). rewrite Z.land_ones by lia. change (2 ^ 1) with 2. zdiv.
Qed.

Lemma pte_bound pa fl :
  0 <= pa < 2 ^ 56 -> 0 <= fl < 1024 -> 0 <= Z.lor (PA2PTE pa) fl < 2 ^ 54.
Proof.
  intros Hpa Hf. rewrite PA2PTE_eq, lor_flags by assumption. unfold PGSIZE. zdiv.
Qed.
