(* ===== verification/Kalloc.v ===== *)
(** * The physical page allocator (kernel/kalloc.c)

    The free list is threaded through the free pages themselves: the state is
    physical memory, the lock bit and the head pointer of [kmem], and the
    linker symbol [end].  [kinv s l] says that the list in memory is exactly
    [l], a duplicate-free list of allocatable pages. *)

From S2P Require Import Prelude Memory Riscv.

Record kstate : Type := mkK {
  k_mem : mem;          (** physical memory *)
  k_lock : bool;        (** kmem.lock *)
  k_freelist : Z;       (** kmem.freelist, 0 for the null pointer *)
  k_end : Z             (** first address after the kernel, from kernel.ld *)
}.

Definition set_mem (f : mem -> mem) (s : kstate) : kstate :=
  mkK (f (k_mem s)) (k_lock s) (k_freelist s) (k_end s).
Definition set_klock (b : bool) (s : kstate) : kstate :=
  mkK (k_mem s) b (k_freelist s) (k_end s).
Definition set_freelist (p : Z) (s : kstate) : kstate :=
  mkK (k_mem s) (k_lock s) p (k_end s).

Ltac ksimpl :=
  unfold set_mem, set_klock, set_freelist; cbn [k_mem k_lock k_freelist k_end].

(** [r->next], the first word of a free page *)
Definition run_next (m : mem) (r : Z) : Z := load64 m r.

Definition kfree (pa : Z) : M kstate unit :=
  s ← get;
  panic_if (negb (pa mod PGSIZE =? 0) || (pa <? k_end s) || (pa >=? PHYSTOP)) "kfree";;
  modify (set_mem (CString.memset pa 1 PGSIZE));;
  acquire k_lock set_klock;;
  fl ← gets k_freelist;
  modify (set_mem (fun m => store64 m pa fl));;
  modify (set_freelist pa);;
  release k_lock set_klock.

Definition kalloc : M kstate Z :=
  acquire k_lock set_klock;;
  r ← gets k_freelist;
  m ← gets k_mem;
  when (negb (r =? 0)) (modify (set_freelist (run_next m r)));;
  release k_lock set_klock;;
  when (negb (r =? 0)) (modify (set_mem (CString.memset r 5 PGSIZE)));;
  mret r.

Definition freerange (fuel : nat) (pa_start pa_end : Z) : M kstate unit :=
  loop fuel (fun p =>
    if p + PGSIZE <=? pa_end then kfree p;; mret (inl (p + PGSIZE))
    else mret (inr tt)) (PGROUNDUP pa_start).

(** [kinit]; one iteration of [freerange] per page of RAM bounds the fuel. *)
Definition kinit : M kstate unit :=
  modify (set_klock false);;
  e ← gets k_end;
  freerange (Z.to_nat ((PHYSTOP - e) / PGSIZE + 2)) e PHYSTOP.

(** ** Representation *)

Fixpoint chain (m : mem) (p : Z) (l : list Z) : Prop :=
  match l with
  | [] => p = 0
  | q :: l' => p = q /\ chain m (run_next m q) l'
  end.

Definition page_ok (e p : Z) : Prop := p mod PGSIZE = 0 /\ e <= p /\ p < PHYSTOP.

#[export] Instance page_ok_dec e p : Decision (page_ok e p).
Proof. unfold page_ok. apply _. Defined.

(** Address [x] lies in the page at [p]. *)
Definition in_page (p x : Z) : Prop := p <= x < p + PGSIZE.

Record kinv (s : kstate) (l : list Z) : Prop := {
  ki_chain : chain (k_mem s) (k_freelist s) l;
  ki_nodup : NoDup l;
  ki_pages : Forall (page_ok (k_end s)) l;
  ki_lock : k_lock s = false;
  ki_end : 0 < k_end s
}.

(** [s'] differs from [s] in memory only inside the pages [ps]; [end] is fixed. *)
Definition same_outside (ps : list Z) (s s' : kstate) : Prop :=
  k_end s' = k_end s /\
  forall x, Forall (fun p => ~ in_page p x) ps -> k_mem s' x = k_mem s x.

Lemma page_disjoint p q x :
  p mod PGSIZE = 0 -> q mod PGSIZE = 0 -> p <> q -> in_page p x -> ~ in_page q x.
Proof. unfold in_page, PGSIZE. intros. zdiv. Qed.

Lemma chain_ext m m' p l :
  Forall (fun q => q mod PGSIZE = 0) l ->
  (forall q x, q ∈ l -> in_page q x -> m' x = m x) -> chain m p l -> chain m' p l.
Proof.
  revert p. induction l as [|q l IH]; intros p Hal Hm; cbn [chain]; [auto|].
  apply Forall_cons in Hal as [Hq Hal]. intros [-> H]. split; [reflexivity|].
  assert (Hn : run_next m' q = run_next m q).
  { unfold run_next, load64. apply le_load_ext. intros i Hi. apply (Hm q); [left|].
    unfold in_page, PGSIZE. lia. }
  rewrite Hn. apply IH; [exact Hal | | exact H].
  intros q' x Hq'. apply Hm. set_solver.
Qed.

Lemma pages_aligned e l : Forall (page_ok e) l -> Forall (fun q => q mod PGSIZE = 0) l.
Proof. intros H. eapply Forall_impl; [exact H|]. intros x [Hx _]. exact Hx. Qed.

(** The list survives memory changes confined to pages that are not on it. *)
Lemma kinv_same_outside s s' l ps :
  kinv s l -> same_outside ps s s' ->
  k_lock s' = false -> k_freelist s' = k_freelist s ->
  Forall (fun p => p mod PGSIZE = 0 /\ p ∉ l) ps -> kinv s' l.
Proof.
  intros [Hc Hn Hp Hl He] [Hend Hm] Hl' Hf Hps. constructor.
  - rewrite Hf. eapply chain_ext; [eapply pages_aligned; exact Hp | | exact Hc].
    intros q x Hq Hx. apply Hm. eapply Forall_impl; [exact Hps|].
    intros p [Hpa Hpn]. eapply page_disjoint; [| exact Hpa | | exact Hx].
    + rewrite Forall_forall in Hp. apply (Hp q Hq).
    + intros ->. contradiction.
  - exact Hn.
  - rewrite Hend. exact Hp.
  - exact Hl'.
  - lia.
Qed.

Lemma same_outside_refl ps s : same_outside ps s s.
Proof. split; auto. Qed.

Lemma same_outside_trans ps qs s s' s'' :
  same_outside ps s s' -> same_outside qs s' s'' -> same_outside (ps ++ qs) s s''.
Proof.
  intros [H1 H2] [H3 H4]. split; [congruence|]. intros x Hx.
  apply Forall_app in Hx as [Hx1 Hx2]. rewrite H4, H2 by assumption. reflexivity.
Qed.

Lemma same_outside_mono ps qs s s' :
  same_outside ps s s' -> ps ⊆ qs -> same_outside qs s s'.
Proof.
  intros [H1 H2] Hsub. split; [exact H1|]. intros x Hx. apply H2.
  rewrite Forall_forall in Hx |- *. intros p Hp. apply Hx, Hsub, Hp.
Qed.

(** ** Operations *)

Lemma kfree_bad pa s : ~ page_ok (k_end s) pa -> kfree pa s = Panic "kfree".
Proof.
  intros H. unfold kfree, get, mbind, M_bind, panic_if. unfold page_ok in H.
  replace (_ || _ || _) with true by lia. reflexivity.
Qed.

Lemma kfree_wp pa s l :
  kinv s l -> page_ok (k_end s) pa -> pa ∉ l ->
  wp (kfree pa) (fun _ s' => kinv s' (pa :: l) /\ same_outside [pa] s s') s.
Proof.
  intros HI Hp Hni. pose proof HI as [Hc Hn Hps Hl He]. unfold kfree. wp_steps.
  apply wp_panic_if; [unfold page_ok in Hp; lia|]. wp_steps. apply wp_acquire; [exact Hl|].
  wp_steps. apply wp_release; [reflexivity|]. ksimpl.
  assert (Hso : same_outside [pa] s (mkK (store64 (CString.memset pa 1 PGSIZE (k_mem s)) pa
                  (k_freelist s)) false pa (k_end s))).
  { split; [reflexivity|]. intros x Hx. rewrite Forall_singleton in Hx. cbv beta in Hx.
    unfold in_page, PGSIZE in Hx. cbn. unfold store64. rewrite le_store_out by lia.
    rewrite CString.memset_fill by (unfold PGSIZE; lia). apply fill_out. unfold PGSIZE. lia. }
  split; [|exact Hso].
  assert (Hfl : 0 <= k_freelist s < 2 ^ 64).
  { destruct l as [|q l]; cbn in Hc; [lia|]. destruct Hc as [-> _].
    apply Forall_cons in Hps as [[? []] _]. unfold PHYSTOP, KERNBASE in *. lia. }
  constructor; cbn.
  - split; [reflexivity|]. unfold run_next, load64, store64.
    rewrite le_load_store_eq, Z.mod_small by exact Hfl.
    eapply chain_ext; [eapply pages_aligned; exact Hps | | exact Hc].
    intros q x Hq Hx. apply Hso. apply Forall_singleton.
    rewrite Forall_forall in Hps. eapply page_disjoint; [apply (Hps q Hq) | apply Hp | | exact Hx].
    intros ->. contradiction.
  - apply NoDup_cons. auto.
  - apply Forall_cons. auto.
  - reflexivity.
  - exact He.
Qed.

Lemma kalloc_wp s l :
  kinv s l ->
  wp kalloc (fun r s' =>
    match l with
    | [] => r = 0 /\ s' = s
    | p :: l' => r = p /\ kinv s' l' /\ same_outside [p] s s' /\
                 (forall x, in_page p x -> k_mem s' x = x05)
    end) s.
Proof.
  intros HI. pose proof HI as [Hc Hn Hps Hl He]. unfold kalloc. wp_steps.
  apply wp_acquire; [exact Hl|]. wp_steps. cbn [set_klock k_freelist k_mem].
  destruct l as [|p l].
  - cbn in Hc. rewrite Hc. cbn [Z.eqb negb when]. wp_steps.
    apply wp_release; [reflexivity|]. wp_steps. split; [reflexivity|].
    destruct s; cbn in *; subst; reflexivity.
  - cbn in Hc. destruct Hc as [Hfp Hc]. apply Forall_cons in Hps as [Hp Hps].
    apply NoDup_cons in Hn as [Hnp Hn].
    assert (Hp0 : p <> 0) by (unfold page_ok in Hp; lia).
    rewrite Hfp. apply Z.eqb_neq in Hp0 as ->. cbn [negb when]. wp_steps.
    apply wp_release; [reflexivity|]. wp_steps. split; [reflexivity|]. ksimpl.
    rewrite CString.memset_fill by (unfold PGSIZE; lia).
    assert (Hso : same_outside [p] s (mkK (fill (k_mem s) p PGSIZE (z2b 5)) false
                    (run_next (k_mem s) p) (k_end s))).
    { split; [reflexivity|]. intros x Hx. rewrite Forall_singleton in Hx. cbn.
      apply fill_out. exact Hx. }
    split; [|split; [exact Hso|]].
    + constructor; cbn; auto.
      eapply chain_ext; [eapply pages_aligned; exact Hps | | exact Hc].
      intros q x Hq Hx. apply Hso. apply Forall_singleton.
      rewrite Forall_forall in Hps. eapply page_disjoint; [apply (Hps q Hq) | apply Hp | | exact Hx].
      intros ->. contradiction.
    + intros x Hx. apply fill_in. exact Hx.
Qed.

(** The pages [freerange] pushes from [p], in the order they end on the list. *)
Fixpoint pages_down (k : nat) (p : Z) (acc : list Z) : list Z :=
  match k with
  | O => acc
  | S k' => pages_down k' (p + PGSIZE) (p :: acc)
  end.

Lemma pages_down_app k p acc : pages_down k p acc = pages_down k p [] ++ acc.
Proof.
  revert p acc. induction k as [|k IH]; intros p acc; cbn; [reflexivity|].
  rewrite IH, (IH _ [p]), <- app_assoc. reflexivity.
Qed.

Lemma elem_of_pages_down k p q :
  q ∈ pages_down k p [] <-> exists i, 0 <= i < Z.of_nat k /\ q = p + i * PGSIZE.
Proof.
  revert p. induction k as [|k IH]; intros p; cbn [pages_down].
  - split; [intros H; inversion H | intros (i & Hi & _); lia].
  - rewrite pages_down_app, elem_of_app, IH, list_elem_of_singleton. split.
    + intros [(i & Hi & ->)| ->]; [exists (i + 1) | exists 0]; lia.
    + intros (i & Hi & ->). destruct (decide (i = 0)) as [->|]; [right; lia|].
      left. exists (i - 1). lia.
Qed.

Lemma freerange_loop fuel pa_end s p l (k : nat) :
  kinv s l -> p mod PGSIZE = 0 -> k_end s <= p -> pa_end <= PHYSTOP ->
  p + Z.of_nat k * PGSIZE <= pa_end < p + (Z.of_nat k + 1) * PGSIZE ->
  (forall q, q ∈ l -> q < p) -> (k < fuel)%nat ->
  wp (loop fuel (fun p =>
    if p + PGSIZE <=? pa_end then kfree p;; mret (inl (p + PGSIZE))
    else mret (inr tt)) p)
    (fun _ s' => kinv s' (pages_down k p l)) s.
Proof.
  revert fuel s p l. induction k as [|k IH]; intros fuel s p l HI Hp He Hend Hk Hl Hf;
    (destruct fuel as [|fuel]; [lia|]); cbn [loop]; apply wp_bind.
  - replace (p + PGSIZE <=? pa_end) with false by lia. wp_steps. exact HI.
  - unfold PGSIZE in Hk. replace (p + PGSIZE <=? pa_end) with true by (unfold PGSIZE; lia).
    apply wp_bind. eapply wp_mono.
    { apply (kfree_wp p s l); [exact HI | | intros Hin; specialize (Hl p Hin); lia].
      unfold page_ok. lia. }
    intros _ s' [HI' [Hend' _]]. wp_steps. cbn [pages_down]. apply IH.
    + exact HI'.
    + unfold PGSIZE in *. zdiv.
    + unfold PGSIZE. lia.
    + exact Hend.
    + unfold PGSIZE. lia.
    + intros q [->|Hq]%elem_of_cons; [unfold PGSIZE; lia|].
      specialize (Hl q Hq). unfold PGSIZE. lia.
    + lia.
Qed.

Lemma kinit_wp s :
  0 < k_end s < PHYSTOP -> k_freelist s = 0 ->
  wp kinit (fun _ s' =>
    exists l, kinv s' l /\ forall q, q ∈ l <-> page_ok (k_end s) q) s.
Proof.
  intros He Hf. unfold kinit. wp_steps.
  cbn [set_klock k_end]. unfold freerange.
  assert (Hb : 0 <= k_end s /\ k_end s + PGSIZE - 1 < 2 ^ 64)
    by (unfold PHYSTOP, KERNBASE, PGSIZE in *; lia).
  destruct (PGROUNDUP_bounds (k_end s)) as [Hup Hal]; [lia | lia |].
  set (p := PGROUNDUP (k_end s)) in *.
  set (k := Z.to_nat ((PHYSTOP - p) / PGSIZE)).
  assert (Hk : 0 <= (PHYSTOP - p) / PGSIZE).
  { assert (p <= PHYSTOP) by (unfold PHYSTOP, KERNBASE, PGSIZE in *; zdiv).
    apply Z.div_pos; unfold PGSIZE; lia. }
  eapply wp_mono.
  - apply (freerange_loop _ PHYSTOP (set_klock false s) p [] k).
    + constructor; ksimpl; cbn; auto using NoDup_nil_2; lia.
    + exact Hal.
    + ksimpl. lia.
    + lia.
    + unfold k. rewrite Z2Nat.id by exact Hk. unfold PGSIZE in *. zdiv.
    + intros q Hq. inversion Hq.
    + unfold k. unfold PGSIZE in *. zdiv.
  - intros [] s' HI. exists (pages_down k p []). split; [exact HI|].
    intros q. rewrite elem_of_pages_down. unfold k. rewrite Z2Nat.id by exact Hk.
    unfold page_ok. split.
    + intros (i & Hi & ->). unfold PHYSTOP, KERNBASE, PGSIZE in *. zdiv.
    + intros (Hq & Hqe & Hqs). exists ((q - p) / PGSIZE).
      unfold PHYSTOP, KERNBASE, PGSIZE in *. zdiv.
Qed.

(** ** Sessions: arbitrary sequences of allocations and frees

    [owned] is the list of pages handed out and not yet freed; an operation
    frees the [i]-th of them or asks for a page. *)
Inductive kop := KAlloc | KFree (i : nat).

Definition kop_run (op : kop) (owned : list Z) : M kstate (list Z) :=
  match op with
  | KAlloc => r ← kalloc; mret (if r =? 0 then owned else r :: owned)
  | KFree i =>
      match owned !! i with
      | Some p => kfree p;; mret (take i owned ++ drop (S i) owned)
      | None => mret owned
      end
  end.

Fixpoint kops_run (ops : list kop) (owned : list Z) : M kstate (list Z) :=
  match ops with
  | [] => mret owned
  | op :: ops' => owned' ← kop_run op owned; kops_run ops' owned'
  end.

Lemma kop_run_wp op owned s l :
  kinv s l -> NoDup (owned ++ l) -> Forall (page_ok (k_end s)) owned ->
  wp (kop_run op owned) (fun owned' s' => exists l',
     kinv s' l' /\ owned' ++ l' ≡ₚ owned ++ l /\ k_end s' = k_end s) s.
Proof.
  intros HI Hnd Ho. destruct op as [|i]; cbn [kop_run].
  - apply wp_bind. eapply wp_mono; [exact (kalloc_wp s l HI)|].
    intros r s' Hr. wp_steps. destruct l as [|p l].
    + destruct Hr as [-> ->]. cbn. exists []. auto.
    + destruct Hr as (-> & HI' & [He _] & _). exists l.
      assert (p <> 0).
      { pose proof (ki_pages _ _ HI) as Hp. apply Forall_cons in Hp as [Hp _].
        pose proof (ki_end _ _ HI). unfold page_ok in Hp. lia. }
      apply Z.eqb_neq in H as ->. split; [exact HI'|]. split; [|exact He].
      cbn. apply Permutation_middle.
  - destruct (owned !! i) as [p|] eqn:E.
    + pose proof (take_drop_middle _ _ _ E) as Hsplit.
      apply wp_bind. eapply wp_mono.
      { apply (kfree_wp p s l HI).
        - rewrite Forall_forall in Ho. apply Ho. eapply list_elem_of_lookup_2. exact E.
        - intros Hin. apply NoDup_app in Hnd as (_ & Hd & _).
          apply (Hd p); [eapply list_elem_of_lookup_2; exact E | exact Hin]. }
      intros _ s' [HI' [He _]]. wp_steps. exists (p :: l).
      split; [exact HI'|]. split; [|exact He].
      rewrite <- Hsplit at 3. rewrite <- !app_assoc. cbn.
      apply Permutation_app_head. symmetry. apply Permutation_middle.
    + wp_steps. exists l. auto.
Qed.

Lemma kops_run_wp ops owned s l :
  kinv s l -> NoDup (owned ++ l) -> Forall (page_ok (k_end s)) owned ->
  wp (kops_run ops owned) (fun owned' s' => exists l',
     kinv s' l' /\ owned' ++ l' ≡ₚ owned ++ l /\ k_end s' = k_end s) s.
Proof.
  revert owned s l. induction ops as [|op ops IH]; intros owned s l HI Hnd Ho; cbn [kops_run].
  - wp_steps. exists l. auto.
  - apply wp_bind. eapply wp_mono; [exact (kop_run_wp op owned s l HI Hnd Ho)|].
    intros owned' s' (l' & HI' & Hperm & He). eapply wp_mono.
    + apply (IH owned' s' l' HI').
      * rewrite Hperm. exact Hnd.
      * rewrite He. assert (Hall : Forall (page_ok (k_end s)) (owned' ++ l')).
        { rewrite Hperm. apply Forall_app. split; [exact Ho | apply HI]. }
        apply Forall_app in Hall. apply Hall.
    + intros owned'' s'' (l'' & HI'' & Hperm' & He'). exists l''.
      split; [exact HI''|]. split; [|congruence]. rewrite Hperm'. exact Hperm.
Qed.

(** ** Properties *)

(** C23: after boot, whatever the sequence of [kalloc] and [kfree] calls, the
    calls return without a panic, no page is handed out twice, and the pages
    handed out together with the free ones are exactly the page-aligned pages
    between the end of the kernel and PHYSTOP: none is lost. *)
Theorem kalloc_exclusive s ops :
  0 < k_end s < PHYSTOP -> k_freelist s = 0 ->
  wp (kinit;; kops_run ops []) (fun owned s' => exists l,
    kinv s' l /\ NoDup (owned ++ l) /\
    forall q, q ∈ owned ++ l <-> page_ok (k_end s) q) s.
Proof.
  intros He Hf. apply wp_bind. eapply wp_mono; [exact (kinit_wp s He Hf)|].
  intros [] s1 (l & HK & Hl). eapply wp_mono.
  { apply (kops_run_wp ops [] s1 l HK); [apply HK | apply Forall_nil_2]. }
  intros owned s2 (l' & HK' & Hperm & _). exists l'. split; [exact HK'|].
  cbn [app] in Hperm. split; [rewrite Hperm; apply HK|]. intros q. rewrite Hperm. apply Hl.
Qed.

Lemma kalloc_exclusive_witness : exists s owned s',
  (kinit;; kops_run [KAlloc; KAlloc; KFree 1; KAlloc] []) s = Ret owned s' /\ NoDup owned.
Proof.
  exists {| k_mem := fun _ => x00; k_lock := false; k_freelist := 0; k_end := PHYSTOP - 5000 |}.
  destruct (proj1 (wp_run _ _ _) (kalloc_exclusive
    {| k_mem := fun _ => x00; k_lock := false; k_freelist := 0; k_end := PHYSTOP - 5000 |}
    [KAlloc; KAlloc; KFree 1; KAlloc]
    ltac:(unfold PHYSTOP, KERNBASE; cbn [k_end]; lia) eq_refl)) as (owned & s' & E & l & _ & Hnd & _).
  exists owned, s'. split; [exact E|]. apply NoDup_app in Hnd. apply Hnd.
Defined.
