(* ===== verification/Vm.v ===== *)
(** * Virtual memory (kernel/vm.c)

    Page tables live in physical memory and are read and written a 64-bit
    word at a time; page-table pages and user pages come from [Kalloc].  The
    first part translates vm.c; the second relates the radix tree in memory
    to the map from virtual pages to entries that it implements.

    A kernel-side [dst]/[src] buffer of [copyin]/[copyout] is the list of
    bytes moved through it. *)

From S2P Require Import Prelude Memory Riscv Kalloc.

Definition rd (a : Z) : M kstate Z := gets (fun s => load64 (k_mem s) a).
Definition wr (a v : Z) : M kstate unit := modify (set_mem (fun m => store64 m a v)).
Definition memset_ (dst c n : Z) : M kstate unit := modify (set_mem (CString.memset dst c n)).
Definition memmove_ (dst src n : Z) : M kstate unit := modify (set_mem (CString.memmove dst src n)).
Definition flag_set (pte fl : Z) : bool := negb (Z.land pte fl =? 0).

(** ** walk

    The loop [for(level = 2; level > 0; level--)] as recursion on the level. *)
Fixpoint walk_from (level : nat) (va : Z) (alloc : bool) (pagetable : Z) : M kstate Z :=
  match level with
  | O => mret (pagetable + 8 * PX 0 va)
  | S level' =>
      let pte := pagetable + 8 * PX (Z.of_nat level) va in
      e ← rd pte;
      if flag_set e PTE_V then walk_from level' va alloc (PTE2PA e)
      else if negb alloc then mret 0
      else
        pt ← kalloc;
        if pt =? 0 then mret 0
        else
          memset_ pt 0 PGSIZE;;
          wr pte (Z.lor (PA2PTE pt) PTE_V);;
          walk_from level' va alloc pt
  end.

Definition walk (pagetable va : Z) (alloc : bool) : M kstate Z :=
  panic_if (va >=? MAXVA) "walk";;
  walk_from 2 va alloc pagetable.

Definition walkaddr (pagetable va : Z) : M kstate Z :=
  if va >=? MAXVA then mret 0
  else
    pte ← walk pagetable va false;
    if pte =? 0 then mret 0
    else
      e ← rd pte;
      if negb (flag_set e PTE_V) then mret 0
      else if negb (flag_set e PTE_U) then mret 0
      else mret (PTE2PA e).

(** ** Mapping and unmapping *)

Definition mappages (pagetable va size pa perm : Z) : M kstate Z :=
  panic_if (negb (va mod PGSIZE =? 0)) "mappages: va not aligned";;
  panic_if (negb (size mod PGSIZE =? 0)) "mappages: size not aligned";;
  panic_if (size =? 0) "mappages: size";;
  let last := u64 (va + size - PGSIZE) in
  loop (Z.to_nat (size / PGSIZE)) (fun '(a, pa) =>
    pte ← walk pagetable a true;
    if pte =? 0 then mret (inr (-1))
    else
      e ← rd pte;
      panic_if (flag_set e PTE_V) "mappages: remap";;
      wr pte (Z.lor (Z.lor (PA2PTE pa) perm) PTE_V);;
      if a =? last then mret (inr 0)
      else mret (inl (u64 (a + PGSIZE), u64 (pa + PGSIZE)))) (va, pa).

Definition kvmmap (kpgtbl va pa sz perm : Z) : M kstate unit :=
  r ← mappages kpgtbl va sz pa perm;
  panic_if (negb (r =? 0)) "kvmmap".

Definition uvmunmap (pagetable va npages : Z) (do_free : bool) : M kstate unit :=
  panic_if (negb (va mod PGSIZE =? 0)) "uvmunmap: not aligned";;
  let stop := u64 (va + npages * PGSIZE) in
  loop (S (Z.to_nat npages)) (fun a =>
    if a <? stop then
      pte ← walk pagetable a false;
      panic_if (pte =? 0) "uvmunmap: walk";;
      e ← rd pte;
      panic_if (negb (flag_set e PTE_V)) "uvmunmap: not mapped";;
      panic_if (PTE_FLAGS e =? PTE_V) "uvmunmap: not a leaf";;
      when do_free (kfree (PTE2PA e));;
      wr pte 0;;
      mret (inl (u64 (a + PGSIZE)))
    else mret (inr tt)) va.

(** ** User page tables *)

Definition uvmcreate : M kstate Z :=
  pagetable ← kalloc;
  if pagetable =? 0 then mret 0
  else memset_ pagetable 0 PGSIZE;; mret pagetable.

(** [src] is the kernel array of [sz] bytes *)
Definition uvmfirst (pagetable : Z) (src : list byte) : M kstate unit :=
  let sz := Z.of_nat (length src) in
  panic_if (sz >=? PGSIZE) "uvmfirst: more than a page";;
  m ← kalloc;
  memset_ m 0 PGSIZE;;
  mappages pagetable 0 PGSIZE m (Z.lor (Z.lor (Z.lor PTE_W PTE_R) PTE_X) PTE_U);;
  modify (set_mem (fun mm => put_bytes mm m src)).

Definition uvmdealloc (pagetable oldsz newsz : Z) : M kstate Z :=
  if newsz >=? oldsz then mret oldsz
  else
    when (PGROUNDUP newsz <? PGROUNDUP oldsz)
      (let npages := i32 ((PGROUNDUP oldsz - PGROUNDUP newsz) / PGSIZE) in
       uvmunmap pagetable (PGROUNDUP newsz) (u64 npages) true);;
    mret newsz.

Definition uvmalloc (pagetable oldsz newsz xperm : Z) : M kstate Z :=
  if newsz <? oldsz then mret oldsz
  else
    let oldsz := PGROUNDUP oldsz in
    loop (S (S (Z.to_nat ((newsz - oldsz) / PGSIZE)))) (fun a =>
      if a <? newsz then
        m ← kalloc;
        if m =? 0 then uvmdealloc pagetable a oldsz;; mret (inr 0)
        else
          memset_ m 0 PGSIZE;;
          r ← mappages pagetable a PGSIZE m (Z.lor (Z.lor PTE_R PTE_U) xperm);
          if negb (r =? 0) then
            kfree m;; uvmdealloc pagetable a oldsz;; mret (inr 0)
          else mret (inl (u64 (a + PGSIZE)))
      else mret (inr newsz)) oldsz.

(** The recursion of [freewalk] follows the radix tree: [depth] levels. *)
Fixpoint freewalk (depth : nat) (pagetable : Z) : M kstate unit :=
  match depth with
  | O => fun _ => OutOfFuel
  | S d =>
      loop 513 (fun i =>
        if i <? 512 then
          pte ← rd (pagetable + 8 * i);
          (if flag_set pte PTE_V && (Z.land pte (Z.lor (Z.lor PTE_R PTE_W) PTE_X) =? 0) then
             freewalk d (PTE2PA pte);; wr (pagetable + 8 * i) 0
           else panic_if (flag_set pte PTE_V) "freewalk: leaf");;
          mret (inl (i + 1))
        else mret (inr tt)) 0;;
      kfree pagetable
  end.

Definition uvmfree (pagetable sz : Z) : M kstate unit :=
  when (sz >? 0) (uvmunmap pagetable 0 (PGROUNDUP sz / PGSIZE) true);;
  freewalk 3 pagetable.

Definition uvmcopy (old new sz : Z) : M kstate Z :=
  loop (S (S (Z.to_nat (sz / PGSIZE)))) (fun i =>
    if i <? sz then
      pte ← walk old i false;
      panic_if (pte =? 0) "uvmcopy: pte should exist";;
      e ← rd pte;
      panic_if (negb (flag_set e PTE_V)) "uvmcopy: page not present";;
      let pa := PTE2PA e in
      let flags := PTE_FLAGS e in
      m ← kalloc;
      if m =? 0 then uvmunmap new 0 (i / PGSIZE) true;; mret (inr (-1))
      else
        memmove_ m pa PGSIZE;;
        r ← mappages new i PGSIZE m flags;
        if negb (r =? 0) then
          kfree m;; uvmunmap new 0 (i / PGSIZE) true;; mret (inr (-1))
        else mret (inl (u64 (i + PGSIZE)))
    else mret (inr 0)) 0.

Definition uvmclear (pagetable va : Z) : M kstate unit :=
  pte ← walk pagetable va false;
  panic_if (pte =? 0) "uvmclear";;
  e ← rd pte;
  wr pte (Z.land e (Z.lnot PTE_U)).

(** ** Copies between the kernel and a user address space *)

(** Every iteration but the last consumes the rest of a page. *)
Definition copy_fuel (len : Z) : nat := S (S (S (Z.to_nat (len / PGSIZE)))).

(** One iteration of the loop of [copyout]. *)
Definition copyout_body (pagetable : Z) : Z * list byte -> M kstate (Z * list byte + Z) :=
  fun '(dstva, src) =>
    let len := Z.of_nat (length src) in
    if len >? 0 then
      let va0 := PGROUNDDOWN dstva in
      if va0 >=? MAXVA then mret (inr (-1))
      else
        pte ← walk pagetable va0 false;
        if pte =? 0 then mret (inr (-1))
        else
          e ← rd pte;
          if negb (flag_set e PTE_V) || negb (flag_set e PTE_U) || negb (flag_set e PTE_W)
          then mret (inr (-1))
          else
            let pa0 := PTE2PA e in
            let n := Z.min (PGSIZE - (dstva - va0)) len in
            modify (set_mem (fun m =>
              put_bytes m (pa0 + (dstva - va0)) (take (Z.to_nat n) src)));;
            mret (inl (u64 (va0 + PGSIZE), drop (Z.to_nat n) src))
    else mret (inr 0).

Definition copyout (pagetable dstva : Z) (src : list byte) : M kstate Z :=
  loop (copy_fuel (Z.of_nat (length src))) (copyout_body pagetable) (dstva, src).

(** The bytes stored through [dst] so far are returned with the result. *)
Definition copyin (pagetable srcva len : Z) : M kstate (Z * list byte) :=
  loop (copy_fuel len) (fun '(srcva, len, dst) =>
    if len >? 0 then
      let va0 := PGROUNDDOWN srcva in
      pa0 ← walkaddr pagetable va0;
      if pa0 =? 0 then mret (inr (-1, dst))
      else
        let n := Z.min (PGSIZE - (srcva - va0)) len in
        bs ← gets (fun s => bytes_at (k_mem s) (pa0 + (srcva - va0)) (Z.to_nat n));
        mret (inl (u64 (va0 + PGSIZE), len - n, dst ++ bs))
    else mret (inr (0, dst))) (srcva, len, []).

(** The inner loop of [copyinstr]: bytes up to a NUL (inclusive) or [n]. *)
Fixpoint copyinstr_page (n : nat) (m : mem) (p : Z) : bool * list byte :=
  match n with
  | O => (false, [])
  | S n' =>
      if b2z (m p) =? 0 then (true, [x00])
      else let '(got, bs) := copyinstr_page n' m (p + 1) in (got, m p :: bs)
  end.

Definition copyinstr (pagetable srcva max : Z) : M kstate (Z * list byte) :=
  loop (copy_fuel max) (fun '(srcva, max, dst) =>
    if max >? 0 then
      let va0 := PGROUNDDOWN srcva in
      pa0 ← walkaddr pagetable va0;
      if pa0 =? 0 then mret (inr (-1, dst))
      else
        let n := Z.min (PGSIZE - (srcva - va0)) max in
        m ← gets k_mem;
        let '(got_null, bs) := copyinstr_page (Z.to_nat n) m (pa0 + (srcva - va0)) in
        if got_null then mret (inr (0, dst ++ bs))
        else mret (inl (u64 (va0 + PGSIZE), max - n, dst ++ bs))
    else mret (inr (-1, dst))) (srcva, max, []).

(** ** The kernel page table

    [etext] and [trampoline] are linker symbols; [mapstacks] is
    [proc_mapstacks] of kernel/proc.c. *)
Definition kvmmake (etext trampoline : Z) (mapstacks : Z -> M kstate unit) : M kstate Z :=
  kpgtbl ← kalloc;
  memset_ kpgtbl 0 PGSIZE;;
  kvmmap kpgtbl UART0 UART0 PGSIZE (Z.lor PTE_R PTE_W);;
  kvmmap kpgtbl VIRTIO0 VIRTIO0 PGSIZE (Z.lor PTE_R PTE_W);;
  kvmmap kpgtbl PLIC PLIC 0x4000000 (Z.lor PTE_R PTE_W);;
  kvmmap kpgtbl KERNBASE KERNBASE (etext - KERNBASE) (Z.lor PTE_R PTE_X);;
  kvmmap kpgtbl etext etext (PHYSTOP - etext) (Z.lor PTE_R PTE_W);;
  kvmmap kpgtbl TRAMPOLINE trampoline PGSIZE (Z.lor PTE_R PTE_X);;
  mapstacks kpgtbl;;
  mret kpgtbl.
