(* ===== verification/PageTable.v ===== *)
(** * The radix tree in memory and the map it implements

    Representation predicates for the three-level page tables of kernel/vm.c
    and the correctness of its operations ([Vm]) in terms of them.

    - [page_of m root n] is the page-table page at node [n] of the tree;
    - [leaf_val m root va] is the leaf entry for [va] (0 when there is none);
    - [pt_ok] says that distinct nodes are distinct pages, all of them among
      the pages [P];
    - [vinv s l root P] joins it with the allocator's invariant. *)

From S2P Require Import Prelude Memory Riscv Kalloc Vm.

(** ** Nodes *)

Inductive node := N2 | N1 (i : Z) | N0 (i j : Z).

Definition idx_ok (i : Z) : Prop := 0 <= i < 512.
Definition node_ok (n : node) : Prop :=
  match n with N2 => True | N1 i => idx_ok i | N0 i j => idx_ok i /\ idx_ok j end.

Definition pte_child (m : mem) (pt i : Z) : option Z :=
  let e := load64 m (pt + 8 * i) in
  if flag_set e PTE_V then Some (PTE2PA e) else None.

Definition page_of (m : mem) (root : Z) (n : node) : option Z :=
  match n with
  | N2 => Some root
  | N1 i => pte_child m root i
  | N0 i j => p ← pte_child m root i; pte_child m p j
  end.

Definition leaf_node (va : Z) : node := N0 (PX 2 va) (PX 1 va).
Definition leaf_addr (m : mem) (root va : Z) : option Z :=
  (fun p => p + 8 * PX 0 va) <$> page_of m root (leaf_node va).
Definition leaf_val (m : mem) (root va : Z) : Z :=
  match leaf_addr m root va with Some a => load64 m a | None => 0 end.

Record pt_ok (m : mem) (e root : Z) (P : list Z) : Prop := {
  pt_in : forall n p, node_ok n -> page_of m root n = Some p -> p ∈ P;
  pt_inj : forall n n' p, node_ok n -> node_ok n' ->
    page_of m root n = Some p -> page_of m root n' = Some p -> n = n';
  pt_pages : Forall (page_ok e) P
}.

Lemma leaf_node_ok va : node_ok (leaf_node va).
Proof. split; apply PX_range; lia. Qed.

Lemma in_page_entry p i x :
  idx_ok i -> p + 8 * i <= x < p + 8 * i + 8 -> in_page p x.
Proof. unfold idx_ok, in_page, PGSIZE. lia. Qed.

Lemma pte_child_ext m m' pt i :
  idx_ok i -> (forall x, in_page pt x -> m' x = m x) -> pte_child m' pt i = pte_child m pt i.
Proof.
  intros Hi H. unfold pte_child.
  replace (load64 m' (pt + 8 * i)) with (load64 m (pt + 8 * i)); [reflexivity|].
  apply le_load_ext. intros k Hk. symmetry. apply H. eapply in_page_entry; [exact Hi | lia].
Qed.

(** The tree depends only on its level-2 and level-1 pages. *)
Lemma page_of_ext m m' root n :
  node_ok n ->
  (forall k p x, (k = N2 \/ exists i, k = N1 i /\ idx_ok i) -> page_of m root k = Some p ->
     in_page p x -> m' x = m x) ->
  page_of m' root n = page_of m root n.
Proof.
  intros Hn H.
  assert (H2 : forall i, idx_ok i -> pte_child m' root i = pte_child m root i).
  { intros i Hi. apply pte_child_ext; [exact Hi|]. intros x. apply (H N2); auto. }
  destruct n as [|i|i j]; cbn; [reflexivity | exact (H2 i Hn) |].
  destruct Hn as [Hi Hj]. rewrite (H2 i Hi).
  destruct (pte_child m root i) as [p|] eqn:E; [|reflexivity]. cbn.
  apply pte_child_ext; [exact Hj|]. intros x. apply (H (N1 i)); eauto.
Qed.

Lemma page_of_outside m m' e root P n :
  pt_ok m e root P -> node_ok n ->
  (forall p x, p ∈ P -> in_page p x -> m' x = m x) ->
  page_of m' root n = page_of m root n.
Proof.
  intros HP Hn H. apply page_of_ext; [exact Hn|]. intros k p x Hk Hp. apply H.
  eapply pt_in; [exact HP | | exact Hp].
  destruct Hk as [->|(i & -> & Hi)]; [exact I | exact Hi].
Qed.

Lemma leaf_addr_in m e root P va a :
  pt_ok m e root P -> leaf_addr m root va = Some a ->
  exists p, p ∈ P /\ page_of m root (leaf_node va) = Some p /\ a = p + 8 * PX 0 va.
Proof.
  intros HP. unfold leaf_addr. destruct (page_of m root (leaf_node va)) as [p|] eqn:E;
    cbn; [|discriminate]. intros [= <-]. exists p.
  split; [eapply pt_in; [exact HP | apply leaf_node_ok | exact E] | auto].
Qed.

Lemma leaf_val_ext m m' e root P va :
  pt_ok m e root P ->
  (forall p x, p ∈ P -> in_page p x -> m' x = m x) ->
  leaf_val m' root va = leaf_val m root va.
Proof.
  intros HP H. unfold leaf_val, leaf_addr.
  rewrite (page_of_outside m m' e root P) by (auto using leaf_node_ok).
  destruct (page_of m root (leaf_node va)) as [p|] eqn:E; cbn; [|reflexivity].
  apply le_load_ext. intros k Hk. apply (H p).
  - eapply pt_in; [exact HP | apply leaf_node_ok | exact E].
  - eapply in_page_entry; [apply (PX_range 0 va); lia | lia].
Qed.

Lemma pt_ok_ext m m' e root P :
  pt_ok m e root P -> (forall p x, p ∈ P -> in_page p x -> m' x = m x) -> pt_ok m' e root P.
Proof.
  intros HP H. constructor.
  - intros n p Hn Hp. rewrite (page_of_outside m m' e root P) in Hp by assumption.
    eapply pt_in; eauto.
  - intros n n' p Hn Hn' Hp Hp'. rewrite (page_of_outside m m' e root P) in Hp, Hp' by assumption.
    eapply pt_inj; eauto.
  - apply HP.
Qed.

Lemma leaf_val_page m root va : leaf_val m root (PGROUNDDOWN va) = leaf_val m root va.
Proof.
  unfold leaf_val, leaf_addr, leaf_node. rewrite !PX_page by lia. reflexivity.
Qed.

(** ** Writing a leaf entry *)

Lemma store_leaf m e root P va a v :
  pt_ok m e root P -> leaf_addr m root va = Some a ->
  pt_ok (store64 m a v) e root P /\
  (forall n, node_ok n -> page_of (store64 m a v) root n = page_of m root n) /\
  (forall va', PX 2 va' = PX 2 va -> PX 1 va' = PX 1 va -> PX 0 va' = PX 0 va ->
     leaf_val (store64 m a v) root va' = v mod 2 ^ 64) /\
  (forall va', (PX 2 va', PX 1 va', PX 0 va') <> (PX 2 va, PX 1 va, PX 0 va) ->
     leaf_val (store64 m a v) root va' = leaf_val m root va').
Proof.
  intros HP Ha. destruct (leaf_addr_in _ _ _ _ _ _ HP Ha) as (p & Hp & Hpo & ->).
  pose proof (PX_range 0 va ltac:(lia)) as Hk.
  pose proof (pt_pages _ _ _ _ HP) as Hpg. rewrite Forall_forall in Hpg.
  assert (Hout : forall q x, q ∈ P -> q <> p -> in_page q x ->
            store64 m (p + 8 * PX 0 va) v x = m x).
  { intros q x Hq Hne Hx. apply le_store_out.
    pose proof (page_disjoint q p x (proj1 (Hpg q Hq)) (proj1 (Hpg p Hp)) Hne Hx) as Hd.
    unfold in_page, PGSIZE in Hd. lia. }
  assert (Hpage : forall n, node_ok n ->
            page_of (store64 m (p + 8 * PX 0 va) v) root n = page_of m root n).
  { intros n Hn. apply page_of_ext; [exact Hn|]. intros k q x Hko Hq Hx.
    assert (Hok : node_ok k) by (destruct Hko as [->|(i & -> & Hi)]; [exact I | exact Hi]).
    apply (Hout q); [eapply pt_in; eauto | | exact Hx]. intros ->.
    pose proof (pt_inj _ _ _ _ HP _ _ _ Hok (leaf_node_ok va) Hq Hpo) as E.
    destruct Hko as [->|(i & -> & _)]; discriminate. }
  split; [|split; [exact Hpage|split]].
  - constructor.
    + intros n q Hn. rewrite Hpage by exact Hn. eapply pt_in; eauto.
    + intros n n' q Hn Hn'. rewrite !Hpage by assumption. eapply pt_inj; eauto.
    + apply HP.
  - intros va' E2 E1 E0. unfold leaf_val, leaf_addr, leaf_node. rewrite E2, E1, E0.
    rewrite Hpage by apply leaf_node_ok. unfold leaf_node in Hpo. rewrite Hpo. cbn [fmap option_fmap option_map].
    unfold load64, store64. rewrite le_load_store_eq. reflexivity.
  - intros va' Hne. unfold leaf_val, leaf_addr. rewrite Hpage by apply leaf_node_ok.
    destruct (page_of m root (leaf_node va')) as [q|] eqn:E; cbn [fmap option_fmap option_map]; [|reflexivity].
    pose proof (PX_range 0 va' ltac:(lia)) as Hk'. apply le_load_ext. intros i Hi.
    destruct (decide (q = p)) as [->|Hqp].
    + pose proof (pt_inj _ _ _ _ HP _ _ _ (leaf_node_ok va') (leaf_node_ok va) E Hpo) as En.
      unfold leaf_node in En. injection En as E2 E1. apply le_store_out.
      assert (PX 0 va' <> PX 0 va) by congruence. lia.
    + apply (Hout q); [eapply pt_in; [exact HP | apply leaf_node_ok | exact E] | exact Hqp |].
      eapply in_page_entry; [exact Hk' | lia].
Qed.

(** ** Linking a fresh, zeroed page-table page *)

#[export] Instance node_eq_dec : EqDecision node.
Proof. solve_decision. Defined.

Definition child (n : node) (i : Z) : node :=
  match n with N2 => N1 i | N1 a => N0 a i | N0 a b => N0 a b end.
Definition inner (n : node) : Prop := match n with N0 _ _ => False | _ => node_ok n end.

Lemma inner_ok n : inner n -> node_ok n.
Proof. destruct n; cbn; tauto. Qed.

Lemma page_of_child m root n i p :
  inner n -> page_of m root n = Some p -> page_of m root (child n i) = pte_child m p i.
Proof.
  destruct n as [|a|a b]; cbn; intros Hn Hp; [|rewrite Hp; reflexivity | contradiction].
  injection Hp as ->. reflexivity.
Qed.

Lemma flag_set_spec e : flag_set e PTE_V = true <-> Z.land e PTE_V <> 0.
Proof. unfold flag_set. lia. Qed.

Lemma link_entry m q p i :
  page_ok 0 q -> pte_child (store64 m (p + 8 * i) (Z.lor (PA2PTE q) PTE_V)) p i = Some q.
Proof.
  intros (Ha & H0 & Hs).
  assert (Hq : 0 <= q < 2 ^ 56) by (unfold PHYSTOP, KERNBASE in *; lia).
  assert (Hf : 0 <= PTE_V < 1024) by (change PTE_V with 1; lia).
  unfold pte_child, load64, store64. rewrite le_load_store_eq.
  change (8 * Z.of_nat 8) with 64.
  pose proof (pte_bound q PTE_V Hq Hf). rewrite Z.mod_small by lia.
  unfold flag_set. rewrite flag_V_of_lor by (auto; reflexivity).
  cbn [Z.eqb negb]. rewrite PTE2PA_roundtrip by assumption. reflexivity.
Qed.

Section Link.
Context (m m1 : mem) (e root : Z) (P : list Z) (n : node) (i p q : Z).
Context (HP : pt_ok m e root P) (He : 0 <= e).
Context (Hn : inner n) (Hi : idx_ok i).
Context (Hp : page_of m root n = Some p).
Context (Hfree : page_of m root (child n i) = None).
Context (Hq : page_ok e q) (HqP : q ∉ P).
Context (Hm1 : forall x, ~ in_page q x -> m1 x = m x).
Context (Hz : forall x, in_page q x -> m1 x = x00).
Let m' := store64 m1 (p + 8 * i) (Z.lor (PA2PTE q) PTE_V).

#[local] Lemma link_pP : p ∈ P.
Proof. eapply pt_in; [exact HP | apply inner_ok; exact Hn | exact Hp]. Qed.

#[local] Lemma link_same r x :
  r ∈ P -> in_page r x -> ~ p + 8 * i <= x < p + 8 * i + 8 -> m' x = m x.
Proof.
  intros Hr Hx Hne. unfold m'. unfold store64. rewrite le_store_out by lia.
  apply Hm1. pose proof (pt_pages _ _ _ _ HP) as Hpg. rewrite Forall_forall in Hpg.
  eapply page_disjoint; [apply (Hpg r Hr) | apply Hq | | exact Hx].
  intros ->. contradiction.
Qed.

#[local] Lemma link_other r j :
  r ∈ P -> idx_ok j -> (r, j) <> (p, i) -> pte_child m' r j = pte_child m r j.
Proof.
  intros Hr Hj Hne. unfold pte_child.
  replace (load64 m' (r + 8 * j)) with (load64 m (r + 8 * j)); [reflexivity|].
  apply le_load_ext. intros k Hk. symmetry. apply (link_same r); [exact Hr | |].
  - eapply in_page_entry; [exact Hj | lia].
  - pose proof (pt_pages _ _ _ _ HP) as Hpg. rewrite Forall_forall in Hpg.
    destruct (Hpg r Hr) as [Hra _]. destruct (Hpg p link_pP) as [Hpa _].
    destruct (decide (r = p)) as [->|Hrp].
    + assert (j <> i) by congruence. lia.
    + pose proof (page_disjoint r p (r + 8 * j + k) Hra Hpa Hrp) as Hd.
      assert (in_page r (r + 8 * j + k)) by (eapply in_page_entry; [exact Hj | lia]).
      specialize (Hd H). unfold in_page, PGSIZE, idx_ok in *. lia.
Qed.

#[local] Lemma link_zero j : idx_ok j -> pte_child m' q j = None.
Proof.
  intros Hj. unfold pte_child.
  replace (load64 m' (q + 8 * j)) with 0; [reflexivity|]. symmetry.
  apply le_load_zero. intros k Hk.
  assert (Hx : in_page q (q + 8 * j + k)) by (eapply in_page_entry; [exact Hj | lia]).
  unfold m', store64. rewrite le_store_out; [apply Hz; exact Hx|].
  pose proof (pt_pages _ _ _ _ HP) as Hpg. rewrite Forall_forall in Hpg.
  destruct (Hpg p link_pP) as [Hpa _].
  assert (Hqp : q <> p) by (intros ->; apply HqP, link_pP).
  pose proof (page_disjoint q p _ (proj1 Hq) Hpa Hqp Hx) as Hd.
  unfold in_page, PGSIZE, idx_ok in *. lia.
Qed.

#[local] Lemma link_self : pte_child m' p i = Some q.
Proof. apply link_entry. unfold page_ok in *. lia. Qed.

Lemma page_of_link k :
  node_ok k -> page_of m' root k = if decide (k = child n i) then Some q else page_of m root k.
Proof.
  assert (HrP : root ∈ P) by (apply (pt_in _ _ _ _ HP N2); auto; exact I).
  pose proof link_other as LO. pose proof link_self as LS. pose proof link_zero as LZ.
  intros Hk. destruct n as [|a|]; [| |contradiction]; cbn [child] in *.
  - cbn in Hp. injection Hp as Erp.
    destruct k as [|j|b j]; cbn [page_of]; case_decide as E; try congruence.
    + apply LO; [exact HrP | exact Hk | congruence].
    + destruct Hk as [Hb Hj]. destruct (decide (b = i)) as [->|Hbi].
      * rewrite Erp, LS. rewrite Erp in Hfree. cbn in Hfree. rewrite Hfree.
        cbn. apply LZ. exact Hj.
      * rewrite LO by (auto; congruence).
        destruct (pte_child m root b) as [r|] eqn:Er; [|reflexivity]. cbn.
        apply LO; [|exact Hj|].
        -- apply (pt_in _ _ _ _ HP (N1 b)); [exact Hb | exact Er].
        -- intros [= Hr _].
           pose proof (pt_inj _ _ _ _ HP (N1 b) N2 r Hb I Er) as Hc.
           cbn in Hc. discriminate Hc. congruence.
  - assert (Hpr : p <> root).
    { intros ->. pose proof (pt_inj _ _ _ _ HP (N1 a) N2 root Hn I Hp eq_refl). discriminate. }
    destruct k as [|j|b j]; cbn [page_of]; case_decide as E; try congruence.
    + apply LO; [exact HrP | exact Hk | congruence].
    + injection E as -> ->. rewrite LO by (auto; congruence).
      cbn in Hp. rewrite Hp. cbn. apply LS.
    + destruct Hk as [Hb Hj]. rewrite LO by (auto; congruence).
      destruct (pte_child m root b) as [r|] eqn:Er; [|reflexivity]. cbn.
      apply LO; [|exact Hj|].
      * apply (pt_in _ _ _ _ HP (N1 b)); [exact Hb | exact Er].
      * intros [= -> ->]. pose proof (pt_inj _ _ _ _ HP (N1 b) (N1 a) p Hb Hn Er Hp). congruence.
Qed.

Lemma link_pt_ok : pt_ok m' e root (q :: P).
Proof.
  constructor.
  - intros k r Hk. rewrite page_of_link by exact Hk. case_decide.
    + intros [= <-]. left.
    + intros Hr. right. eapply pt_in; eauto.
  - intros k k' r Hk Hk'. rewrite !page_of_link by assumption.
    repeat case_decide; [congruence | | |].
    + intros [= <-] Hr. exfalso. exact (HqP (pt_in _ _ _ _ HP k' q Hk' Hr)).
    + intros Hr [= <-]. exfalso. exact (HqP (pt_in _ _ _ _ HP k q Hk Hr)).
    + apply (pt_inj _ _ _ _ HP k k' r Hk Hk').
  - apply Forall_cons. split; [exact Hq | apply HP].
Qed.

Lemma link_leaf_val va : leaf_val m' root va = leaf_val m root va.
Proof.
  unfold leaf_val, leaf_addr. rewrite page_of_link by apply leaf_node_ok.
  pose proof (PX_range 0 va ltac:(lia)) as Hk.
  case_decide as E.
  - rewrite E, Hfree. cbn [fmap option_fmap option_map].
    apply le_load_zero. intros k Hkk.
    assert (Hx : in_page q (q + 8 * PX 0 va + k)) by (eapply in_page_entry; [exact Hk | lia]).
    unfold m', store64. rewrite le_store_out; [apply Hz; exact Hx|].
    pose proof (pt_pages _ _ _ _ HP) as Hpg. rewrite Forall_forall in Hpg.
    destruct (Hpg p link_pP) as [Hpa _].
    assert (Hqp : q <> p) by (intros ->; apply HqP, link_pP).
    pose proof (page_disjoint q p _ (proj1 Hq) Hpa Hqp Hx) as Hd.
    unfold in_page, PGSIZE, idx_ok in *. lia.
  - destruct (page_of m root (leaf_node va)) as [r|] eqn:Er;
      cbn [fmap option_fmap option_map]; [|reflexivity].
    assert (HrP : r ∈ P) by (eapply pt_in; [exact HP | apply leaf_node_ok | exact Er]).
    assert (Hrp : r <> p).
    { intros ->. pose proof (pt_inj _ _ _ _ HP _ _ _ (leaf_node_ok va) (inner_ok _ Hn) Er Hp) as En.
      rewrite <- En in Hn. exact Hn. }
    apply le_load_ext. intros k Hkk.
    assert (Hx : in_page r (r + 8 * PX 0 va + k)) by (eapply in_page_entry; [exact Hk | lia]).
    apply (link_same r); [exact HrP | exact Hx |].
    pose proof (pt_pages _ _ _ _ HP) as Hpg. rewrite Forall_forall in Hpg.
    pose proof (page_disjoint r p _ (proj1 (Hpg r HrP)) (proj1 (Hpg p link_pP)) Hrp Hx) as Hd.
    unfold in_page, PGSIZE, idx_ok in *. lia.
Qed.
End Link.

(** ** walk *)

Definition vinv (s : kstate) (l : list Z) (root : Z) (P : list Z) : Prop :=
  kinv s l /\ pt_ok (k_mem s) (k_end s) root P /\ forall p, p ∈ P -> p ∉ l.

(** From [s] to [s'] the table acquired page-table pages from the free list
    and nothing else changed: not one leaf entry, no byte outside the table. *)
Record vgrow (root : Z) (s : kstate) (l P : list Z) (s' : kstate) (l' P' : list Z) : Prop := {
  vg_inv : vinv s' l' root P';
  vg_used : exists used, l = used ++ l' /\ P' = rev used ++ P;
  vg_leaf : forall va, leaf_val (k_mem s') root va = leaf_val (k_mem s) root va;
  vg_out : same_outside P' s s'
}.

Lemma vgrow_refl root s l P : vinv s l root P -> vgrow root s l P s l P.
Proof.
  intros H. constructor; [exact H | exists []; auto | auto | apply same_outside_refl].
Qed.

Lemma vgrow_trans root s l P s1 l1 P1 s2 l2 P2 :
  vgrow root s l P s1 l1 P1 -> vgrow root s1 l1 P1 s2 l2 P2 -> vgrow root s l P s2 l2 P2.
Proof.
  intros [H1 (u1 & -> & HP1) L1 O1] [H2 (u2 & -> & HP2) L2 O2]. constructor.
  - exact H2.
  - exists (u1 ++ u2). rewrite app_assoc, rev_app_distr, HP2, HP1, app_assoc. auto.
  - intros va. rewrite L2. apply L1.
  - eapply same_outside_mono; [exact (same_outside_trans _ _ _ _ _ O1 O2)|].
    subst P2. intros x. rewrite !elem_of_app. tauto.
Qed.

Definition node_at (level : nat) (va : Z) : node :=
  match level with O => leaf_node va | S O => N1 (PX 2 va) | _ => N2 end.

Lemma node_at_child level va :
  (level < 2)%nat -> child (node_at (S level) va) (PX (Z.of_nat (S level)) va) = node_at level va.
Proof. intros H. destruct level as [|[|]]; [reflexivity | reflexivity | lia]. Qed.

Lemma node_at_inner level va : (0 < level <= 2)%nat -> inner (node_at level va).
Proof.
  intros H. destruct level as [|[|[|]]]; cbn; [lia | apply PX_range; lia | exact I | lia].
Qed.

Lemma vinv_link root s s1 l q P n i p :
  vinv s (q :: l) root P -> inner n -> idx_ok i ->
  page_of (k_mem s) root n = Some p -> page_of (k_mem s) root (child n i) = None ->
  kinv s1 l -> same_outside [q] s s1 ->
  let s' := set_mem (fun m => store64 m (p + 8 * i) (Z.lor (PA2PTE q) PTE_V))
              (set_mem (CString.memset q 0 PGSIZE) s1) in
  vgrow root s (q :: l) P s' l (q :: P) /\ page_of (k_mem s') root (child n i) = Some q.
Proof.
  intros (HK & HP & Hd) Hn Hi Hp Hfree HK1 [Hend Hout] s'.
  pose proof (ki_pages _ _ HK) as Hqs. apply Forall_cons in Hqs as [Hq Hqs].
  pose proof (ki_nodup _ _ HK) as Hnd. apply NoDup_cons in Hnd as [Hql Hnd].
  pose proof (ki_end _ _ HK) as He.
  set (m1 := CString.memset q 0 PGSIZE (k_mem s1)).
  assert (Em1 : m1 = fill (k_mem s1) q PGSIZE x00)
    by (apply CString.memset_fill; unfold PGSIZE; lia).
  assert (Hm1 : forall x, ~ in_page q x -> m1 x = k_mem s x).
  { intros x Hx. rewrite Em1, fill_out by exact Hx. apply Hout. rewrite Forall_singleton. exact Hx. }
  assert (Hz : forall x, in_page q x -> m1 x = x00) by (intros x Hx; rewrite Em1; apply fill_in; exact Hx).
  assert (HqP : q ∉ P) by (intros Hin; apply (Hd q Hin); left).
  assert (Hpp : p ∈ P) by (eapply pt_in; [exact HP | apply inner_ok; exact Hn | exact Hp]).
  assert (Hpa : p mod PGSIZE = 0).
  { pose proof (pt_pages _ _ _ _ HP) as Hpg. rewrite Forall_forall in Hpg. apply (Hpg p Hpp). }
  assert (He' : 0 <= k_end s) by lia.
  assert (Hso : same_outside [p; q] s s').
  { split; [exact Hend|]. intros x Hx. apply Forall_cons in Hx as [Hx1 Hx2].
    rewrite Forall_singleton in Hx2. unfold s'. ksimpl. fold m1. unfold store64.
    rewrite le_store_out by (unfold in_page, PGSIZE, idx_ok in *; lia). apply Hm1. exact Hx2. }
  split; [constructor|].
  - split; [|split].
    + apply (kinv_same_outside s1 s' l [p; q]); [exact HK1 | | apply HK1 | reflexivity |].
      * split; [reflexivity|]. intros x Hx. apply Forall_cons in Hx as [Hx1 Hx2].
        rewrite Forall_singleton in Hx2. unfold s'. ksimpl. fold m1. unfold store64.
        rewrite le_store_out by (unfold in_page, PGSIZE, idx_ok in *; lia).
        rewrite Em1. apply fill_out. exact Hx2.
      * repeat (apply Forall_cons; split); [| |apply Forall_nil; exact I].
        -- split; [exact Hpa|]. intros Hin. apply (Hd p Hpp). right. exact Hin.
        -- split; [apply Hq | exact Hql].
    + unfold s'. ksimpl. fold m1. rewrite Hend.
      eapply link_pt_ok; eauto.
    + intros r [->|Hr]%elem_of_cons; [exact Hql|]. intros Hin. apply (Hd r Hr). right. exact Hin.
  - exists [q]. auto.
  - intros va. unfold s'. ksimpl. fold m1. eapply link_leaf_val; eauto.
  - eapply same_outside_mono; [exact Hso|]. intros x Hx.
    rewrite elem_of_cons, list_elem_of_singleton in Hx. rewrite elem_of_cons.
    destruct Hx as [-> | ->]; auto.
  - unfold s'. ksimpl. fold m1. erewrite page_of_link; eauto.
    + rewrite decide_True by reflexivity. reflexivity.
    + destruct n; cbn in *; [exact Hi | split; [exact Hn | exact Hi] | contradiction].
Qed.

Lemma walk_from_wp root level va pt s l P :
  vinv s l root P -> (level <= 2)%nat -> page_of (k_mem s) root (node_at level va) = Some pt ->
  wp (walk_from level va true pt) (fun r s' => exists l' P', vgrow root s l P s' l' P' /\
    (r = 0 /\ l' = [] \/ r <> 0 /\ leaf_addr (k_mem s') root va = Some r)) s.
Proof.
  revert pt s l P. induction level as [|level IH]; intros pt s l P HV Hlv Hpt; cbn [walk_from].
  - wp_steps. exists l, P. split; [apply vgrow_refl; exact HV|]. right.
    cbn [node_at] in Hpt. pose proof (PX_range 0 va ltac:(lia)).
    destruct HV as (HK & HP & _). pose proof (ki_end _ _ HK).
    pose proof (pt_pages _ _ _ _ HP) as Hpg. rewrite Forall_forall in Hpg.
    pose proof (Hpg pt (pt_in _ _ _ _ HP _ _ (leaf_node_ok va) Hpt)) as Hok. unfold page_ok in Hok.
    split; [lia|]. unfold leaf_addr. rewrite Hpt. reflexivity.
  - assert (Hin : inner (node_at (S level) va)) by (apply node_at_inner; lia).
    assert (Hix : idx_ok (PX (Z.of_nat (S level)) va)) by (apply PX_range; lia).
    pose proof (page_of_child (k_mem s) root _ (PX (Z.of_nat (S level)) va) pt Hin Hpt) as Hc.
    unfold pte_child in Hc. rewrite node_at_child in Hc by lia.
    cbv zeta. unfold rd. wp_steps.
    destruct (flag_set _ PTE_V) eqn:Ef.
    + apply IH; [exact HV | lia | exact Hc].
    + cbn [negb]. apply wp_bind. pose proof HV as (HK & _ & _).
      eapply wp_mono; [exact (kalloc_wp s l HK)|]. intros r s1 Hr. cbv beta in Hr |- *.
      destruct l as [|q l].
      * destruct Hr as [-> ->]. cbn [Z.eqb]. wp_steps. exists [], P.
        split; [apply vgrow_refl; exact HV | auto].
      * destruct Hr as (-> & HK1 & Hso & _).
        assert (Hq0 : q <> 0).
        { pose proof (ki_pages _ _ HK) as Hqs. apply Forall_cons in Hqs as [Hq _].
          pose proof (ki_end _ _ HK). unfold page_ok in Hq. lia. }
        apply Z.eqb_neq in Hq0 as ->. unfold memset_, wr. wp_steps.
        rewrite <- (node_at_child level va) in Hc by lia.
        destruct (vinv_link root s s1 l q P _ _ pt HV Hin Hix Hpt Hc HK1 Hso) as [Hg Hq].
        rewrite node_at_child in Hq by lia.
        eapply wp_mono.
        { apply (IH q _ l (q :: P)); [apply Hg | lia | exact Hq]. }
        intros r s2 (l' & P' & Hg' & Hres). exists l', P'.
        split; [exact (vgrow_trans _ _ _ _ _ _ _ _ _ _ Hg Hg') | exact Hres].
Qed.

Lemma walk_alloc_wp root va s l P :
  vinv s l root P -> va < MAXVA ->
  wp (walk root va true) (fun r s' => exists l' P', vgrow root s l P s' l' P' /\
    (r = 0 /\ l' = [] \/ r <> 0 /\ leaf_addr (k_mem s') root va = Some r)) s.
Proof.
  intros HV Hva. unfold walk. apply wp_bind. apply wp_panic_if; [lia|].
  apply walk_from_wp; [exact HV | lia | reflexivity].
Qed.

(** Without [alloc], [walk] only reads. *)
Lemma walk_noalloc root va s :
  va < MAXVA ->
  walk root va false s = Ret (default 0 (leaf_addr (k_mem s) root va)) s.
Proof.
  intros Hva. unfold walk, mbind, M_bind, panic_if.
  replace (va >=? MAXVA) with false by lia. cbn [mret M_ret].
  unfold leaf_addr, leaf_node. cbn [walk_from page_of].
  unfold rd, gets, mbind, M_bind, option_bind, pte_child. change (Z.of_nat 2) with 2. change (Z.of_nat 1) with 1.
  destruct (flag_set (load64 (k_mem s) (root + 8 * PX 2 va)) PTE_V); [|reflexivity].
  destruct (flag_set _ PTE_V); reflexivity.
Qed.

(** ** Changing leaf entries *)

(** As [vgrow], with the leaf entries of the address space becoming [f]. *)
Record vstep (root : Z) (s : kstate) (l P : list Z) (s' : kstate) (l' P' : list Z)
    (f : Z -> Z) : Prop := {
  vs_inv : vinv s' l' root P';
  vs_used : exists used, l = used ++ l' /\ P' = rev used ++ P;
  vs_leaf : forall va, 0 <= va < MAXVA -> leaf_val (k_mem s') root va = f va;
  vs_out : same_outside P' s s'
}.

Lemma vgrow_vstep root s l P s' l' P' :
  vgrow root s l P s' l' P' -> vstep root s l P s' l' P' (leaf_val (k_mem s) root).
Proof. intros [H1 H2 H3 H4]. constructor; auto. Qed.

Lemma vstep_trans root s l P s1 l1 P1 f s2 l2 P2 g :
  vstep root s l P s1 l1 P1 f -> vstep root s1 l1 P1 s2 l2 P2 g -> vstep root s l P s2 l2 P2 g.
Proof.
  intros [H1 (u1 & -> & HP1) L1 O1] [H2 (u2 & -> & HP2) L2 O2]. constructor.
  - exact H2.
  - exists (u1 ++ u2). rewrite app_assoc, rev_app_distr, HP2, HP1, app_assoc. auto.
  - exact L2.
  - eapply same_outside_mono; [exact (same_outside_trans _ _ _ _ _ O1 O2)|].
    subst P2. intros x. rewrite !elem_of_app. tauto.
Qed.

Lemma vstep_ext root s l P s' l' P' f g :
  vstep root s l P s' l' P' f -> (forall va, 0 <= va < MAXVA -> f va = g va) ->
  vstep root s l P s' l' P' g.
Proof.
  intros [H1 H2 H3 H4] E. constructor; auto. intros va Hva. rewrite H3 by exact Hva. auto.
Qed.

Definition set_entry (f : Z -> Z) (va v : Z) : Z -> Z :=
  fun va' => if va' / PGSIZE =? va / PGSIZE then v else f va'.

Lemma vstep_store root s l P va a v :
  vinv s l root P -> 0 <= va < MAXVA -> leaf_addr (k_mem s) root va = Some a -> 0 <= v < 2 ^ 64 ->
  vstep root s l P (set_mem (fun m => store64 m a v) s) l P
    (set_entry (leaf_val (k_mem s) root) va v).
Proof.
  intros (HK & HP & Hd) Hva Ha Hv.
  destruct (store_leaf _ _ _ _ va a v HP Ha) as (HP' & _ & Heq & Hne).
  destruct (leaf_addr_in _ _ _ _ _ _ HP Ha) as (p & Hp & Hpo & Ea).
  pose proof (pt_pages _ _ _ _ HP) as Hpg. rewrite Forall_forall in Hpg.
  pose proof (PX_range 0 va ltac:(lia)) as Hk.
  assert (Hso : same_outside [p] s (set_mem (fun m => store64 m a v) s)).
  { split; [reflexivity|]. intros x Hx. rewrite Forall_singleton in Hx. ksimpl.
    unfold store64. apply le_store_out. unfold in_page, PGSIZE in Hx. lia. }
  constructor.
  - split; [|split; [exact HP' | exact Hd]].
    apply (kinv_same_outside s _ l [p] HK Hso); [apply HK | reflexivity |].
    rewrite Forall_singleton. split; [apply (Hpg p Hp) | apply Hd; exact Hp].
  - exists []. auto.
  - intros va' Hva'. ksimpl. unfold set_entry.
    destruct (Z.eqb_spec (va' / PGSIZE) (va / PGSIZE)) as [E|E].
    + rewrite Heq, Z.mod_small; [reflexivity | exact Hv | | |];
        rewrite <- (PX_page _ va'), <- (PX_page _ va), !PGROUNDDOWN_eq, E by lia; reflexivity.
    + apply Hne. intros [= E2 E1 E0]. apply E. apply PX_inj; assumption.
  - eapply same_outside_mono; [exact Hso|]. intros x ->%list_elem_of_singleton. exact Hp.
Qed.

(** ** mappages *)

(** The leaf entries after mapping [n] pages from [va] to physical [pa]. *)
Definition mapped (va n pa perm : Z) (f : Z -> Z) : Z -> Z := fun va' =>
  if (va <=? va') && (va' <? va + n * PGSIZE)
  then Z.lor (PA2PTE (pa + (PGROUNDDOWN va' - va))) (Z.lor perm PTE_V) else f va'.

Definition pte_valid (e : Z) : bool := flag_set e PTE_V.

Lemma mapped_0 va pa perm f va' : mapped va 0 pa perm f va' = f va'.
Proof. unfold mapped. replace (_ && _) with false by lia. reflexivity. Qed.

Lemma mapped_cons va n pa perm f va' :
  va mod PGSIZE = 0 -> 0 <= n ->
  mapped (va + PGSIZE) n (pa + PGSIZE) perm
    (set_entry f va (Z.lor (PA2PTE pa) (Z.lor perm PTE_V))) va' =
  mapped va (n + 1) pa perm f va'.
Proof.
  intros Ha Hn. unfold mapped, set_entry. rewrite PGROUNDDOWN_eq.
  destruct (Z.eqb_spec (va' / PGSIZE) (va / PGSIZE)) as [E|E].
  - replace ((va + PGSIZE <=? va') && _) with false by (unfold PGSIZE in *; zdiv).
    replace ((va <=? va') && _) with true by (unfold PGSIZE in *; zdiv).
    rewrite E. replace (pa + _) with pa by (unfold PGSIZE in *; zdiv). reflexivity.
  - replace ((va <=? va') && (va' <? va + (n + 1) * PGSIZE))
      with ((va + PGSIZE <=? va') && (va' <? va + PGSIZE + n * PGSIZE))
      by (unfold PGSIZE in *; zdiv).
    replace (pa + PGSIZE + (PGSIZE * (va' / PGSIZE) - (va + PGSIZE)))
      with (pa + (PGSIZE * (va' / PGSIZE) - va)) by lia. reflexivity.
Qed.

(** One iteration of [mappages]: either the walk runs out of pages, leaving
    every entry as it was, or the entry for [a] is written. *)
Lemma map_one_wp root a pa perm s l P (Q : Z -> kstate -> Prop) :
  vinv s l root P -> 0 <= a < MAXVA -> 0 <= pa < 2 ^ 56 -> 0 <= perm < 1024 ->
  pte_valid (leaf_val (k_mem s) root a) = false ->
  (forall s' P', vstep root s l P s' [] P' (leaf_val (k_mem s) root) -> Q 0 s') ->
  (forall r s' l' P', r <> 0 ->
     vstep root s l P s' l' P'
       (set_entry (leaf_val (k_mem s) root) a (Z.lor (PA2PTE pa) (Z.lor perm PTE_V))) -> Q r s') ->
  wp (pte ← walk root a true;
      if pte =? 0 then mret 0
      else
        e ← rd pte;
        panic_if (flag_set e PTE_V) "mappages: remap";;
        wr pte (Z.lor (Z.lor (PA2PTE pa) perm) PTE_V);;
        mret pte) Q s.
Proof.
  intros HV Ha Hpa Hperm Hinv Q0 Q1. apply wp_bind.
  eapply wp_mono; [apply (walk_alloc_wp root a s l P HV); lia|].
  intros r s1 (l1 & P1 & Hg & [[-> ->]|[Hr0 Hr]]).
  - cbn [Z.eqb]. wp_steps. apply (Q0 s1 P1). apply vgrow_vstep. exact Hg.
  - pose proof Hr0 as Hr0'. apply Z.eqb_neq in Hr0' as ->. unfold rd, wr. wp_steps.
    assert (Hlv : load64 (k_mem s1) r = leaf_val (k_mem s) root a).
    { rewrite <- (vg_leaf _ _ _ _ _ _ _ Hg a). unfold leaf_val. rewrite Hr. reflexivity. }
    apply wp_panic_if; [rewrite Hlv; exact Hinv|]. wp_steps.
    rewrite <- Z.lor_assoc.
    destruct (pte_make pa perm Hpa Hperm) as (fl & Hfl & _ & _ & ->).
    pose proof (pte_bound pa _ Hpa Hfl) as Hb.
    apply (Q1 r _ l1 P1 Hr0).
    eapply vstep_ext.
    + eapply vstep_trans; [exact (vgrow_vstep _ _ _ _ _ _ _ Hg)|].
      apply vstep_store; [apply Hg | exact Ha | exact Hr | lia].
    + intros va Hva. unfold set_entry. rewrite (vg_leaf _ _ _ _ _ _ _ Hg). reflexivity.
Qed.

(** The loop of [mappages] as the source iterates it. *)
Definition mappages_body (pagetable last perm : Z) : Z * Z -> M kstate (Z * Z + Z) :=
  fun '(a, pa) =>
    pte ← walk pagetable a true;
    if pte =? 0 then mret (inr (-1))
    else
      e ← rd pte;
      panic_if (flag_set e PTE_V) "mappages: remap";;
      wr pte (Z.lor (Z.lor (PA2PTE pa) perm) PTE_V);;
      if a =? last then mret (inr 0)
      else mret (inl (u64 (a + PGSIZE), u64 (pa + PGSIZE))).

Lemma mappages_body_one root last perm a pa s :
  mappages_body root last perm (a, pa) s =
  (r ← (pte ← walk root a true;
        if pte =? 0 then mret 0
        else
          e ← rd pte;
          panic_if (flag_set e PTE_V) "mappages: remap";;
          wr pte (Z.lor (Z.lor (PA2PTE pa) perm) PTE_V);;
          mret pte);
   if r =? 0 then mret (inr (-1))
   else if a =? last then mret (inr 0)
   else mret (inl (u64 (a + PGSIZE), u64 (pa + PGSIZE)))) s.
Proof.
  unfold mappages_body. unfold mbind at 1 5 6, M_bind at 1 5 6.
  destruct (walk root a true s) as [pte s1| | |]; try reflexivity.
  destruct (pte =? 0) eqn:E; [reflexivity|].
  unfold rd, wr, gets, modify, mbind, M_bind, panic_if.
  destruct (flag_set _ PTE_V); [reflexivity|]. cbn. rewrite E. reflexivity.
Qed.

Lemma mappages_loop_wp (k : nat) root last perm a pa s l P :
  vinv s l root P -> (0 < k)%nat -> a mod PGSIZE = 0 -> 0 <= a ->
  a + Z.of_nat k * PGSIZE <= MAXVA -> last = a + (Z.of_nat k - 1) * PGSIZE ->
  0 <= pa -> pa + Z.of_nat k * PGSIZE < 2 ^ 56 -> 0 <= perm < 1024 ->
  (forall va, a <= va < a + Z.of_nat k * PGSIZE -> pte_valid (leaf_val (k_mem s) root va) = false) ->
  wp (loop k (mappages_body root last perm) (a, pa)) (fun r s' => exists l' P' j,
      vstep root s l P s' l' P' (mapped a j pa perm (leaf_val (k_mem s) root)) /\
      (r = 0 /\ j = Z.of_nat k \/ r = -1 /\ l' = [] /\ 0 <= j < Z.of_nat k)) s.
Proof.
  revert a pa s l P. induction k as [|k IH];
    intros a pa s l P HV Hk Ha Ha0 HaM Hlast Hpa HpaM Hperm Hfree; [lia|].
  cbn [loop]. apply wp_bind. unfold wp. rewrite mappages_body_one.
  change (wp (r ← (pte ← walk root a true;
        if pte =? 0 then mret 0
        else
          e ← rd pte;
          panic_if (flag_set e PTE_V) "mappages: remap";;
          wr pte (Z.lor (Z.lor (PA2PTE pa) perm) PTE_V);;
          mret pte);
   if r =? 0 then mret (inr (-1))
   else if a =? last then mret (inr 0)
   else mret (inl (u64 (a + PGSIZE), u64 (pa + PGSIZE))))
   (fun x s' => wp (match x with inl l' => loop k (mappages_body root last perm) l'
                     | inr x => mret x end) (fun r s' => exists l' P' j,
      vstep root s l P s' l' P' (mapped a j pa perm (leaf_val (k_mem s) root)) /\
      (r = 0 /\ j = Z.of_nat (S k) \/ r = -1 /\ l' = [] /\ 0 <= j < Z.of_nat (S k))) s') s).
  unfold PGSIZE in *. apply wp_bind. apply (map_one_wp root a pa perm s l P _ HV); [lia | lia | exact Hperm | | |].
  - apply Hfree. lia.
  - intros s' P' Hs. cbn [Z.eqb]. wp_steps. exists [], P', 0. split; [|right; intuition lia].
    eapply vstep_ext; [exact Hs|]. intros va _. symmetry. apply mapped_0.
  - intros r s' l' P' Hr0 Hs. apply Z.eqb_neq in Hr0 as ->.
    destruct (Z.eqb_spec a last) as [E|E].
    + wp_steps. exists l', P', 1. assert (k = 0)%nat by lia. subst k. split; [|left; intuition lia].
      eapply vstep_ext; [exact Hs|]. intros va _.
      rewrite <- (mapped_cons a 0 pa perm) by (unfold PGSIZE; lia). symmetry. apply mapped_0.
    + wp_steps. unfold u64.
      assert (MAXVA = 2 ^ 38) by reflexivity. rewrite !Z.mod_small by lia.
      eapply wp_mono; [apply (IH (a + 4096) (pa + 4096) s' l' P')|]; try lia.
      * apply Hs.
      * zdiv.
      * intros va Hva. rewrite (vs_leaf _ _ _ _ _ _ _ _ Hs) by lia. unfold set_entry.
        replace (va / PGSIZE =? a / PGSIZE) with false by (unfold PGSIZE; zdiv).
        apply Hfree. lia.
      * intros r' s'' (l'' & P'' & j & Hs' & Hres). exists l'', P'', (j + 1).
        split; [|intuition lia].
        eapply vstep_ext; [eapply vstep_trans; [exact Hs | exact Hs']|].
        intros va Hva. destruct Hres as [[]|(? & ? & ?)];
          rewrite <- (mapped_cons a j pa perm) by (unfold PGSIZE; lia);
          unfold mapped; (destruct (_ && _); [reflexivity|]);
          apply (vs_leaf _ _ _ _ _ _ _ _ Hs); exact Hva.
Qed.

Lemma mappages_wp root va size pa perm s l P :
  vinv s l root P -> va mod PGSIZE = 0 -> 0 <= va -> size mod PGSIZE = 0 -> 0 < size ->
  va + size <= MAXVA -> 0 <= pa -> pa + size < 2 ^ 56 -> 0 <= perm < 1024 ->
  (forall a, va <= a < va + size -> pte_valid (leaf_val (k_mem s) root a) = false) ->
  wp (mappages root va size pa perm) (fun r s' => exists l' P' j,
      vstep root s l P s' l' P' (mapped va j pa perm (leaf_val (k_mem s) root)) /\
      (r = 0 /\ j = size / PGSIZE \/ r = -1 /\ l' = [] /\ 0 <= j < size / PGSIZE)) s.
Proof.
  intros HV Ha Ha0 Hs Hs0 HM Hpa HpaM Hperm Hfree. unfold mappages.
  do 3 (apply wp_bind; apply wp_panic_if; [lia|]). cbv zeta.
  assert (Esz : Z.of_nat (Z.to_nat (size / PGSIZE)) * PGSIZE = size) by (unfold PGSIZE in *; zdiv).
  assert (Hlast : u64 (va + size - PGSIZE) = va + (Z.of_nat (Z.to_nat (size / PGSIZE)) - 1) * PGSIZE).
  { unfold u64. assert (MAXVA = 2 ^ 38) by reflexivity. unfold PGSIZE in *. rewrite Z.mod_small; lia. }
  eapply wp_mono.
  - apply (mappages_loop_wp (Z.to_nat (size / PGSIZE)) root (u64 (va + size - PGSIZE)) perm va pa s l P);
      try (rewrite ?Esz; assumption); unfold PGSIZE in *; try lia.
  - intros r s' (l' & P' & j & Hv & Hr). exists l', P', j. split; [exact Hv|].
    rewrite Z2Nat.id in Hr by (unfold PGSIZE; zdiv). exact Hr.
Qed.

(** ** Memory changes outside the table *)

Lemma pt_same_outside root s s' P ds :
  pt_ok (k_mem s) (k_end s) root P -> same_outside ds s s' ->
  (forall d, d ∈ ds -> d mod PGSIZE = 0 /\ d ∉ P) ->
  pt_ok (k_mem s') (k_end s') root P /\
  (forall va, leaf_addr (k_mem s') root va = leaf_addr (k_mem s) root va) /\
  (forall va, leaf_val (k_mem s') root va = leaf_val (k_mem s) root va).
Proof.
  intros HP [He Hm] Hds.
  pose proof (pt_pages _ _ _ _ HP) as Hpg. rewrite Forall_forall in Hpg.
  assert (Hsame : forall p x, p ∈ P -> in_page p x -> k_mem s' x = k_mem s x).
  { intros p x Hp Hx. apply Hm. rewrite Forall_forall. intros d Hd.
    destruct (Hds d Hd) as [Hda HdP].
    eapply page_disjoint; [apply (Hpg p Hp) | exact Hda | intros ->; contradiction | exact Hx]. }
  split; [rewrite He; eapply pt_ok_ext; eassumption|]. split.
  - intros va. unfold leaf_addr. f_equal. eapply page_of_outside; eauto using leaf_node_ok.
  - intros va. eapply leaf_val_ext; eassumption.
Qed.

Lemma leaf_valid_addr m root va :
  pte_valid (leaf_val m root va) = true ->
  exists a, leaf_addr m root va = Some a /\ leaf_val m root va = load64 m a.
Proof.
  unfold leaf_val. destruct (leaf_addr m root va) as [a|]; [eauto|discriminate].
Qed.

Lemma leaf_addr_pos root s l P va a :
  vinv s l root P -> leaf_addr (k_mem s) root va = Some a -> a <> 0.
Proof.
  intros (HK & HP & _) Ha. destruct (leaf_addr_in _ _ _ _ _ _ HP Ha) as (p & Hp & _ & ->).
  pose proof (pt_pages _ _ _ _ HP) as Hpg. rewrite Forall_forall in Hpg.
  pose proof (Hpg p Hp). pose proof (ki_end _ _ HK). pose proof (PX_range 0 va ltac:(lia)).
  unfold page_ok in *. lia.
Qed.

(** ** uvmunmap *)

Definition unmap_body (pagetable stop : Z) (do_free : bool) (a : Z) : M kstate (Z + unit) :=
  if a <? stop then
    pte ← walk pagetable a false;
    panic_if (pte =? 0) "uvmunmap: walk";;
    e ← rd pte;
    panic_if (negb (flag_set e PTE_V)) "uvmunmap: not mapped";;
    panic_if (PTE_FLAGS e =? PTE_V) "uvmunmap: not a leaf";;
    when do_free (kfree (PTE2PA e));;
    wr pte 0;;
    mret (inl (u64 (a + PGSIZE)))
  else mret (inr tt).

(** The physical page behind [va]. *)
Definition phys (m : mem) (root va : Z) : Z := PTE2PA (leaf_val m root va).

(** A leaf mapping [uvmunmap] accepts; with [do_free] its frame must be an
    allocated page that is not part of the table. *)
Record leaf_page (s : kstate) (l : list Z) (root : Z) (P : list Z) (do_free : bool)
    (va : Z) : Prop := {
  lp_valid : pte_valid (leaf_val (k_mem s) root va) = true;
  lp_leaf : PTE_FLAGS (leaf_val (k_mem s) root va) <> PTE_V;
  lp_frame : do_free = true -> page_ok (k_end s) (phys (k_mem s) root va) /\
    (phys (k_mem s) root va ∉ P) /\ (phys (k_mem s) root va ∉ l)
}.

Definition freed (do_free : bool) (ds : list Z) : list Z := if do_free then ds else [].

Lemma unmap_one_wp root a stop do_free s l P (Q : Z + unit -> kstate -> Prop) :
  vinv s l root P -> 0 <= a < MAXVA -> a < stop -> leaf_page s l root P do_free a ->
  (forall s', vinv s' (freed do_free [phys (k_mem s) root a] ++ l) root P ->
     (forall va, 0 <= va < MAXVA ->
        leaf_val (k_mem s') root va = set_entry (leaf_val (k_mem s) root) a 0 va) ->
     same_outside (freed do_free [phys (k_mem s) root a] ++ P) s s' ->
     Q (inl (u64 (a + PGSIZE))) s') ->
  wp (unmap_body root stop do_free a) Q s.
Proof.
  intros HV Ha Hst [Hval Hlf Hfr] HQ. unfold unmap_body, phys in *.
  replace (a <? stop) with true by lia. apply wp_bind. unfold wp at 1.
  rewrite walk_noalloc by lia.
  destruct (leaf_valid_addr _ _ _ Hval) as (pte & Hpte & Hev).
  rewrite Hpte. change (default 0 (Some pte)) with pte.
  pose proof (leaf_addr_pos _ _ _ _ _ _ HV Hpte) as Hp0.
  apply wp_bind. apply wp_panic_if; [lia|]. unfold rd, wr. wp_steps. rewrite <- Hev.
  apply wp_panic_if; [unfold pte_valid in Hval; rewrite Hval; reflexivity|]. apply wp_bind.
  apply wp_panic_if; [lia|]. apply wp_bind.
  set (d := PTE2PA (leaf_val (k_mem s) root a)) in *.
  assert (Hfree : wp (when do_free (kfree d)) (fun _ s1 =>
            kinv s1 (freed do_free [d] ++ l) /\ same_outside (freed do_free [d]) s s1) s).
  { destruct HV as (HK & _ & _). apply wp_when; intros ->.
    - destruct (Hfr eq_refl) as (H1 & _ & H2). apply kfree_wp; assumption.
    - split; [exact HK | apply same_outside_refl]. }
  eapply wp_mono; [exact Hfree|]. intros [] s1 [HK1 Hso]. wp_steps.
  destruct HV as (HK & HP & Hd).
  destruct (pt_same_outside root s s1 P (freed do_free [d]) HP Hso) as (HP1 & HA1 & HL1).
  { destruct do_free; intros d' Hd'; [|inversion Hd']. cbn in Hd'.
    apply list_elem_of_singleton in Hd' as ->. destruct (Hfr eq_refl) as ((Hmod & _) & HdP & _). exact (conj Hmod HdP). }
  assert (HV1 : vinv s1 (freed do_free [d] ++ l) root P).
  { split; [exact HK1|]. split; [exact HP1|]. intros p Hp. destruct do_free; [|apply Hd; exact Hp].
    destruct (Hfr eq_refl) as (_ & ? & _).
    intros [->|Hin]%elem_of_cons; [contradiction | exact (Hd p Hp Hin)]. }
  assert (Hpte1 : leaf_addr (k_mem s1) root a = Some pte) by (rewrite HA1; exact Hpte).
  pose proof (vstep_store root s1 _ P a pte 0 HV1 Ha Hpte1 ltac:(lia)) as Hs.
  apply HQ.
  - apply Hs.
  - intros va Hva. rewrite (vs_leaf _ _ _ _ _ _ _ _ Hs) by exact Hva.
    unfold set_entry. rewrite HL1. reflexivity.
  - exact (same_outside_trans _ _ _ _ _ Hso (vs_out _ _ _ _ _ _ _ _ Hs)).
Qed.

(** The frames behind [n] pages from [a], last page first. *)
Fixpoint frames (m : mem) (root a : Z) (n : nat) (acc : list Z) : list Z :=
  match n with
  | O => acc
  | S n' => frames m root (a + PGSIZE) n' (phys m root a :: acc)
  end.

Lemma frames_app m root a n acc : frames m root a n acc = frames m root a n [] ++ acc.
Proof.
  revert a acc. induction n as [|n IH]; intros a acc; cbn; [reflexivity|].
  rewrite IH, (IH _ [_]), <- app_assoc. reflexivity.
Qed.

Lemma elem_of_frames m root a n d :
  d ∈ frames m root a n [] <-> exists i, 0 <= i < Z.of_nat n /\ d = phys m root (a + i * PGSIZE).
Proof.
  revert a. induction n as [|n IH]; intros a; cbn [frames].
  - split; [intros H; inversion H | intros (i & Hi & _); lia].
  - rewrite frames_app, elem_of_app, IH, list_elem_of_singleton. split.
    + intros [(i & Hi & ->)| ->]; [exists (i + 1) | exists 0]; (split; [lia | f_equal; lia]).
    + intros (i & Hi & ->). destruct (decide (i = 0)) as [->|]; [right; f_equal; lia|].
      left. exists (i - 1). split; [lia | f_equal; lia].
Qed.

Lemma frames_ext m m' root a n :
  (forall i, 0 <= i < Z.of_nat n ->
     phys m' root (a + i * PGSIZE) = phys m root (a + i * PGSIZE)) ->
  frames m' root a n [] = frames m root a n [].
Proof.
  revert a. induction n as [|n IH]; intros a H; cbn [frames]; [reflexivity|].
  rewrite frames_app, (frames_app m), IH.
  - pose proof (H 0 ltac:(lia)) as H0. rewrite Z.mul_0_l, Z.add_0_r in H0. rewrite H0. reflexivity.
  - intros i Hi. replace (a + PGSIZE + i * PGSIZE) with (a + (i + 1) * PGSIZE) by lia.
    apply H. lia.
Qed.

Definition unmapped (a b : Z) (f : Z -> Z) : Z -> Z := fun va =>
  if (a <=? va) && (va <? b) then 0 else f va.

Lemma unmap_loop_wp (n fuel : nat) root a stop do_free s l P :
  vinv s l root P -> a mod PGSIZE = 0 -> 0 <= a -> stop = a + Z.of_nat n * PGSIZE ->
  stop <= MAXVA -> (n < fuel)%nat ->
  (forall i, 0 <= i < Z.of_nat n -> leaf_page s l root P do_free (a + i * PGSIZE)) ->
  (do_free = true -> NoDup (frames (k_mem s) root a n [])) ->
  wp (loop fuel (unmap_body root stop do_free) a) (fun _ s' =>
     vinv s' (freed do_free (frames (k_mem s) root a n []) ++ l) root P /\
     (forall va, 0 <= va < MAXVA ->
        leaf_val (k_mem s') root va = unmapped a stop (leaf_val (k_mem s) root) va) /\
     same_outside (freed do_free (frames (k_mem s) root a n []) ++ P) s s') s.
Proof.
  revert fuel a s l. induction n as [|n IH];
    intros fuel a s l HV Ha Ha0 Hst HM Hf Hpg Hnd; (destruct fuel as [|fuel]; [lia|]);
    cbn [loop]; apply wp_bind.
  - unfold unmap_body. replace (a <? stop) with false by lia. wp_steps.
    replace (freed do_free _) with (@nil Z) by (destruct do_free; reflexivity).
    split; [exact HV|]. split; [|apply same_outside_refl]. intros va _. unfold unmapped.
    replace (_ && _) with false by lia. reflexivity.
  - unfold PGSIZE in Hst. assert (EM : MAXVA = 2 ^ 38) by reflexivity.
    pose proof (Hpg 0 ltac:(lia)) as Hp0. rewrite Z.mul_0_l, Z.add_0_r in Hp0.
    apply (unmap_one_wp root a stop do_free s l P _ HV); [lia | lia | exact Hp0 |].
    intros s1 HV1 HL1 Hso1. unfold u64. rewrite Z.mod_small by (unfold PGSIZE; lia).
    assert (Hph : forall i, 0 <= i < Z.of_nat n ->
      leaf_val (k_mem s1) root (a + PGSIZE + i * PGSIZE) =
      leaf_val (k_mem s) root (a + PGSIZE + i * PGSIZE)).
    { intros i Hi. rewrite HL1 by (unfold PGSIZE; lia). unfold set_entry.
      replace (_ =? _) with false by (unfold PGSIZE in *; zdiv). reflexivity. }
    assert (Hfr : frames (k_mem s1) root (a + PGSIZE) n [] = frames (k_mem s) root (a + PGSIZE) n []).
    { apply frames_ext. intros i Hi. unfold phys. rewrite Hph by exact Hi. reflexivity. }
    set (d := phys (k_mem s) root a) in *.
    assert (Hnd' : do_free = true -> (d ∉ frames (k_mem s) root (a + PGSIZE) n []) /\
              NoDup (frames (k_mem s) root (a + PGSIZE) n [])).
    { intros E. specialize (Hnd E). cbn [frames] in Hnd. rewrite frames_app in Hnd.
      apply NoDup_app in Hnd as (H1 & H2 & _). split; [|exact H1].
      intros Hin. apply (H2 d Hin). left. }
    eapply wp_mono.
    + apply (IH fuel (a + PGSIZE) s1 _ HV1).
      * unfold PGSIZE in *. zdiv.
      * unfold PGSIZE. lia.
      * unfold PGSIZE. lia.
      * lia.
      * lia.
      * intros i Hi. destruct (Hpg (i + 1) ltac:(lia)) as [E1 E2 E3].
        replace (a + (i + 1) * PGSIZE) with (a + PGSIZE + i * PGSIZE) in * by lia.
        constructor; [rewrite Hph by exact Hi; exact E1 | rewrite Hph by exact Hi; exact E2 |].
        intros Edf. unfold phys in *. rewrite Hph by exact Hi. destruct (E3 Edf) as (F1 & F2 & F3).
        rewrite (proj1 Hso1). split; [exact F1|]. split; [exact F2|]. rewrite Edf. cbn.
        intros [E|Hin]%elem_of_cons; [|contradiction].
        destruct (Hnd' Edf) as [Hd _]. apply Hd. rewrite elem_of_frames.
        exists i. split; [exact Hi | symmetry; exact E].
      * intros Edf. rewrite Hfr. apply (Hnd' Edf).
    + intros [] s2 (HV2 & HL2 & Hso2). rewrite Hfr in HV2, Hso2.
      assert (Efr : freed do_free (frames (k_mem s) root a (S n) []) =
                    freed do_free (frames (k_mem s) root (a + PGSIZE) n []) ++ freed do_free [d]).
      { destruct do_free; cbn [freed frames]; [apply frames_app | reflexivity]. }
      rewrite Efr, <- !app_assoc. split; [exact HV2|]. split.
      * intros va Hva. rewrite HL2 by exact Hva. unfold unmapped.
        rewrite HL1 by exact Hva. unfold set_entry.
        repeat case_match; first [reflexivity | exfalso; unfold PGSIZE in *; zdiv].
      * eapply same_outside_mono; [exact (same_outside_trans _ _ _ _ _ Hso1 Hso2)|].
        intros x. rewrite !elem_of_app. tauto.
Qed.

Lemma uvmunmap_wp root va npages do_free s l P :
  vinv s l root P -> va mod PGSIZE = 0 -> 0 <= va -> 0 <= npages ->
  va + npages * PGSIZE <= MAXVA ->
  (forall i, 0 <= i < npages -> leaf_page s l root P do_free (va + i * PGSIZE)) ->
  (do_free = true -> NoDup (frames (k_mem s) root va (Z.to_nat npages) [])) ->
  wp (uvmunmap root va npages do_free) (fun _ s' =>
     vinv s' (freed do_free (frames (k_mem s) root va (Z.to_nat npages) []) ++ l) root P /\
     (forall a, 0 <= a < MAXVA -> leaf_val (k_mem s') root a =
        unmapped va (va + npages * PGSIZE) (leaf_val (k_mem s) root) a) /\
     same_outside (freed do_free (frames (k_mem s) root va (Z.to_nat npages) []) ++ P) s s') s.
Proof.
  intros HV Ha Ha0 Hn HM Hpg Hnd. unfold uvmunmap. apply wp_bind. apply wp_panic_if; [lia|].
  cbv zeta. assert (EM : MAXVA = 2 ^ 38) by reflexivity.
  replace (u64 (va + npages * PGSIZE)) with (va + npages * PGSIZE)
    by (unfold u64, PGSIZE in *; rewrite Z.mod_small; lia).
  apply (unmap_loop_wp (Z.to_nat npages)); try assumption; try lia.
  all: rewrite Z2Nat.id by exact Hn; first [reflexivity | exact Hpg].
Qed.
