(* ===== verification/Uvm.v ===== *)
(** * User address spaces: growth, shrinking and copies

    Correctness of [uvmalloc], [uvmdealloc], [copyin], [copyout] and
    [copyinstr] of kernel/vm.c.  [aspace s l root P n] describes a process
    whose first [n] pages are mapped to distinct allocated frames and whose
    pages above them, up to the trapframe, are unmapped. *)

From S2P Require Import Prelude Memory Riscv Kalloc Vm PageTable.

Record aspace (s : kstate) (l : list Z) (root : Z) (P : list Z) (n : Z) : Prop := {
  as_inv : vinv s l root P;
  as_size : 0 <= n /\ n * PGSIZE <= TRAPFRAME;
  as_page : forall i, 0 <= i < n -> leaf_page s l root P true (i * PGSIZE);
  as_inj : forall i j, 0 <= i < n -> 0 <= j < n ->
    phys (k_mem s) root (i * PGSIZE) = phys (k_mem s) root (j * PGSIZE) -> i = j;
  as_top : forall va, n * PGSIZE <= va < TRAPFRAME -> leaf_val (k_mem s) root va = 0;
  as_priv : forall va, TRAPFRAME <= va < MAXVA -> flag_set (leaf_val (k_mem s) root va) PTE_U = false
}.

(** The byte a user program sees at [va]. *)
Definition vread (m : mem) (root va : Z) : byte := m (phys m root va + va mod PGSIZE).

Lemma phys_page m root va : phys m root (va / PGSIZE * PGSIZE) = phys m root va.
Proof.
  unfold phys. rewrite <- (leaf_val_page m root va), PGROUNDDOWN_eq, Z.mul_comm. reflexivity.
Qed.

Lemma TRAPFRAME_MAXVA : TRAPFRAME + 2 * PGSIZE = MAXVA.
Proof. reflexivity. Qed.

Lemma MAXVA_eq : MAXVA = 2 ^ 38.
Proof. reflexivity. Qed.

Lemma NoDup_frames m root a n :
  (forall i j, 0 <= i < Z.of_nat n -> 0 <= j < Z.of_nat n ->
     phys m root (a + i * PGSIZE) = phys m root (a + j * PGSIZE) -> i = j) ->
  NoDup (frames m root a n []).
Proof.
  revert a. induction n as [|n IH]; intros a H; cbn [frames]; [apply NoDup_nil_2|].
  rewrite frames_app. apply NoDup_app. split; [|split].
  - apply IH. intros i j Hi Hj E.
    assert (i + 1 = j + 1); [|lia]. apply H; [lia | lia |].
    replace (a + (i + 1) * PGSIZE) with (a + PGSIZE + i * PGSIZE) by lia.
    replace (a + (j + 1) * PGSIZE) with (a + PGSIZE + j * PGSIZE) by lia. exact E.
  - intros d (i & Hi & ->)%elem_of_frames E%list_elem_of_singleton.
    assert (i + 1 = 0); [|lia]. apply H; [lia | lia |].
    replace (a + (i + 1) * PGSIZE) with (a + PGSIZE + i * PGSIZE) by lia.
    rewrite Z.mul_0_l, Z.add_0_r. exact E.
  - apply NoDup_singleton.
Qed.

(** Frames and table pages stay apart from a smaller pool of pages. *)
Lemma aspace_mono s l root P n s' l' P' :
  aspace s l root P n -> vinv s' l' root P' -> k_end s' = k_end s ->
  (forall va, 0 <= va < MAXVA -> leaf_val (k_mem s') root va = leaf_val (k_mem s) root va) ->
  (forall x, x ∈ l' \/ x ∈ P' -> x ∈ l \/ x ∈ P) ->
  aspace s' l' root P' n.
Proof.
  intros [HV Hn Hpg Hinj Htop Hpriv] HV' He HL Hsub.
  pose proof TRAPFRAME_MAXVA as HT.
  assert (HL' : forall i, 0 <= i < n ->
     leaf_val (k_mem s') root (i * PGSIZE) = leaf_val (k_mem s) root (i * PGSIZE))
    by (intros i Hi; apply HL; unfold PGSIZE in *; lia).
  constructor; [exact HV' | exact Hn | | | |].
  - intros i Hi. destruct (Hpg i Hi) as [H1 H2 H3].
    constructor; unfold phys in *; rewrite ?HL' by exact Hi; [exact H1 | exact H2 |].
    intros _. destruct (H3 eq_refl) as (F1 & F2 & F3). rewrite He.
    split; [exact F1|]. split; intros Hin.
    + destruct (Hsub _ (or_intror Hin)); contradiction.
    + destruct (Hsub _ (or_introl Hin)); contradiction.
  - intros i j Hi Hj. unfold phys. rewrite !HL' by assumption. apply Hinj; assumption.
  - intros va Hva. rewrite HL; [apply Htop; exact Hva | unfold PGSIZE in *; lia].
  - intros va Hva. rewrite HL; [apply Hpriv; exact Hva | unfold PGSIZE in *; lia].
Qed.

(** ** Shrinking *)

Lemma unmap_tail_wp s l root P n k :
  aspace s l root P n -> 0 <= k <= n ->
  wp (uvmunmap root (k * PGSIZE) (n - k) true) (fun _ s' =>
    aspace s' (frames (k_mem s) root (k * PGSIZE) (Z.to_nat (n - k)) [] ++ l) root P k /\
    (forall va, 0 <= va < MAXVA -> leaf_val (k_mem s') root va =
       unmapped (k * PGSIZE) (n * PGSIZE) (leaf_val (k_mem s) root) va) /\
    same_outside (frames (k_mem s) root (k * PGSIZE) (Z.to_nat (n - k)) [] ++ P) s s') s.
Proof.
  intros [HV Hn Hpg Hinj Htop Hpriv] Hk. pose proof TRAPFRAME_MAXVA as HT.
  assert (Hrng : k * PGSIZE + (n - k) * PGSIZE = n * PGSIZE) by lia.
  assert (Hfr : NoDup (frames (k_mem s) root (k * PGSIZE) (Z.to_nat (n - k)) [])).
  { apply NoDup_frames. intros i j Hi Hj E. assert (k + i = k + j); [|lia].
    apply Hinj; [lia | lia |].
    replace ((k + i) * PGSIZE) with (k * PGSIZE + i * PGSIZE) by lia.
    replace ((k + j) * PGSIZE) with (k * PGSIZE + j * PGSIZE) by lia. exact E. }
  eapply wp_mono.
  - apply (uvmunmap_wp root (k * PGSIZE) (n - k) true s l P HV).
    + unfold PGSIZE. zdiv.
    + unfold PGSIZE. lia.
    + lia.
    + unfold PGSIZE in *. lia.
    + intros i Hi. replace (k * PGSIZE + i * PGSIZE) with ((k + i) * PGSIZE) by lia.
      apply Hpg. lia.
    + intros _. exact Hfr.
  - intros [] s' (HV' & HL & Hso). cbn [freed] in HV', Hso. rewrite Hrng in HL.
    split; [|split; [exact HL | exact Hso]].
    assert (HLk : forall i, 0 <= i < k -> leaf_val (k_mem s') root (i * PGSIZE) =
                                          leaf_val (k_mem s) root (i * PGSIZE)).
    { intros i Hi. rewrite HL by (unfold PGSIZE in *; lia). unfold unmapped.
      replace (_ && _) with false by (unfold PGSIZE in *; lia). reflexivity. }
    constructor; [exact HV' | unfold PGSIZE in *; lia | | | |].
    + intros i Hi. destruct (Hpg i ltac:(lia)) as [H1 H2 H3].
      constructor; unfold phys in *; rewrite ?HLk by exact Hi; [exact H1 | exact H2 |].
      intros _. destruct (H3 eq_refl) as (F1 & F2 & F3). rewrite (proj1 Hso).
      split; [exact F1|]. split; [exact F2|].
      intros [(j & Hj & E)%elem_of_frames|Hin]%elem_of_app; [|contradiction].
      replace (k * PGSIZE + j * PGSIZE) with ((k + j) * PGSIZE) in E by lia.
      apply Hinj in E; lia.
    + intros i j Hi Hj. unfold phys. rewrite !HLk by assumption. apply Hinj; lia.
    + intros va Hva. rewrite HL by (unfold PGSIZE in *; lia). unfold unmapped.
      destruct (_ && _) eqn:E; [reflexivity|]. apply Htop. lia.
    + intros va Hva. rewrite HL by (unfold PGSIZE in *; lia). unfold unmapped.
      destruct (_ && _) eqn:E; [reflexivity|]. apply Hpriv. lia.
Qed.

Lemma PGROUNDUP_mult k : 0 <= k -> k * PGSIZE <= TRAPFRAME -> PGROUNDUP (k * PGSIZE) = k * PGSIZE.
Proof.
  intros H0 H. pose proof TRAPFRAME_MAXVA. pose proof MAXVA_eq. unfold PGSIZE in *.
  apply PGROUNDUP_aligned_id; unfold PGSIZE; [lia | lia | zdiv].
Qed.

(** The number of pages of a process of [sz] bytes. *)
Definition npages (sz : Z) : Z := (sz + PGSIZE - 1) / PGSIZE.

Lemma npages_PGROUNDUP sz :
  0 <= sz <= TRAPFRAME -> PGROUNDUP sz = npages sz * PGSIZE /\ 0 <= npages sz /\
  npages sz * PGSIZE <= TRAPFRAME.
Proof.
  intros H. pose proof TRAPFRAME_MAXVA. pose proof MAXVA_eq.
  unfold npages. rewrite PGROUNDUP_eq by (unfold PGSIZE in *; lia).
  assert (TRAPFRAME mod PGSIZE = 0) by reflexivity. unfold PGSIZE in *.
  split; [lia|]. zdiv.
Qed.

Lemma uvmdealloc_wp s l root P oldsz newsz :
  aspace s l root P (npages oldsz) -> 0 <= newsz <= oldsz -> oldsz <= TRAPFRAME ->
  wp (uvmdealloc root oldsz newsz) (fun r s' =>
    r = newsz /\
    aspace s' (frames (k_mem s) root (PGROUNDUP newsz)
                 (Z.to_nat (npages oldsz - npages newsz)) [] ++ l) root P (npages newsz) /\
    (forall va, 0 <= va < MAXVA -> leaf_val (k_mem s') root va =
       unmapped (PGROUNDUP newsz) (PGROUNDUP oldsz) (leaf_val (k_mem s) root) va) /\
    same_outside (frames (k_mem s) root (PGROUNDUP newsz)
                 (Z.to_nat (npages oldsz - npages newsz)) [] ++ P) s s') s.
Proof.
  intros HA Hsz HT. unfold uvmdealloc.
  destruct (npages_PGROUNDUP oldsz ltac:(lia)) as (Eo & Ho & HoT).
  destruct (npages_PGROUNDUP newsz ltac:(lia)) as (En & Hn & HnT).
  assert (Hmono : npages newsz <= npages oldsz) by (unfold npages, PGSIZE; zdiv).
  assert (Hnop : forall s', s' = s -> npages newsz = npages oldsz ->
    aspace s' (frames (k_mem s) root (PGROUNDUP newsz)
                 (Z.to_nat (npages oldsz - npages newsz)) [] ++ l) root P (npages newsz) /\
    (forall va, 0 <= va < MAXVA -> leaf_val (k_mem s') root va =
       unmapped (PGROUNDUP newsz) (PGROUNDUP oldsz) (leaf_val (k_mem s) root) va) /\
    same_outside (frames (k_mem s) root (PGROUNDUP newsz)
                 (Z.to_nat (npages oldsz - npages newsz)) [] ++ P) s s').
  { intros s' -> E. rewrite En, Eo, E, Z.sub_diag. cbn [Z.to_nat frames app].
    split; [exact HA|]. split; [|apply same_outside_refl]. intros va _. unfold unmapped.
    replace (_ && _) with false by lia. reflexivity. }
  destruct (newsz >=? oldsz) eqn:Ege.
  { wp_steps. assert (newsz = oldsz) by lia. split; [lia|]. apply Hnop; [reflexivity|].
    congruence. }
  apply wp_bind. apply wp_when; intros Elt.
  - pose proof TRAPFRAME_MAXVA. pose proof MAXVA_eq. cbv zeta.
    assert (Enp : u64 (i32 ((PGROUNDUP oldsz - PGROUNDUP newsz) / PGSIZE)) =
                  npages oldsz - npages newsz).
    { replace (PGROUNDUP oldsz - PGROUNDUP newsz) with ((npages oldsz - npages newsz) * PGSIZE) by lia.
      rewrite Z.div_mul by (unfold PGSIZE; lia). unfold u64, i32, sext.
      rewrite (Z.mod_small _ (2 ^ 32)) by (unfold PGSIZE in *; lia).
      replace (_ <? 2 ^ (32 - 1)) with true by (unfold PGSIZE in *; lia).
      rewrite Z.mod_small by (unfold PGSIZE in *; lia). reflexivity. }
    rewrite Enp, En, Eo. eapply wp_mono; [apply (unmap_tail_wp s l root P (npages oldsz)); [exact HA | lia]|].
    intros [] s' H'. wp_steps. split; [reflexivity | exact H'].
  - wp_steps. split; [reflexivity|]. apply Hnop; [reflexivity|].
    assert (npages newsz * PGSIZE >= npages oldsz * PGSIZE) by lia. unfold PGSIZE in *. lia.
Qed.

(** ** Growing *)

(** A page taken from the free list and zeroed. *)
Lemma fresh_zero s q l1 root P n s1 :
  aspace s (q :: l1) root P n -> kinv s1 l1 -> same_outside [q] s s1 ->
  let s2 := set_mem (CString.memset q 0 PGSIZE) s1 in
  aspace s2 l1 root P n /\ same_outside [q] s s2 /\
  (forall va, leaf_val (k_mem s2) root va = leaf_val (k_mem s) root va) /\
  (forall x, in_page q x -> k_mem s2 x = x00) /\
  page_ok (k_end s2) q /\ (q ∉ P) /\ (q ∉ l1).
Proof.
  intros HA HK1 Hso s2. pose proof HA as [(HK & HP & Hd) Hn Hpg Hinj Htop _].
  pose proof (ki_pages _ _ HK) as Hqs. apply Forall_cons in Hqs as [Hq _].
  pose proof (ki_nodup _ _ HK) as Hnd. apply NoDup_cons in Hnd as [Hql Hnd].
  assert (HqP : q ∉ P) by (intros Hin; apply (Hd q Hin); left).
  assert (E2 : k_mem s2 = fill (k_mem s1) q PGSIZE x00).
  { unfold s2. ksimpl. apply CString.memset_fill. unfold PGSIZE. lia. }
  assert (Hso12 : same_outside [q] s1 s2).
  { split; [reflexivity|]. intros x Hx. rewrite Forall_singleton in Hx.
    rewrite E2. apply fill_out. exact Hx. }
  assert (Hso2 : same_outside [q] s s2).
  { eapply same_outside_mono; [exact (same_outside_trans _ _ _ _ _ Hso Hso12)|].
    intros x Hx. rewrite elem_of_app in Hx. tauto. }
  assert (HK2 : kinv s2 l1).
  { apply (kinv_same_outside s1 s2 l1 [q] HK1 Hso12); [apply HK1 | reflexivity |].
    rewrite Forall_singleton. split; [apply Hq | exact Hql]. }
  destruct (pt_same_outside root s s2 P [q] HP Hso2) as (HP2 & _ & HL2).
  { intros d ->%list_elem_of_singleton. split; [apply Hq | exact HqP]. }
  split; [|split; [exact Hso2|split; [exact HL2|split]]].
  - apply (aspace_mono s (q :: l1) root P n); [exact HA | | apply Hso2 | intros; apply HL2 |].
    + split; [exact HK2|]. split; [exact HP2|]. intros p Hp Hin. apply (Hd p Hp). right. exact Hin.
    + intros x [Hx|Hx]; [left; right; exact Hx | right; exact Hx].
  - intros x Hx. rewrite E2. apply fill_in. exact Hx.
  - rewrite (proj1 Hso2). split; [exact Hq | split; [exact HqP | exact Hql]].
Qed.

(** What [uvmalloc] has done after mapping the pages [k0 .. k-1]. *)
Record growing (root perm : Z) (s0 : kstate) (l0 P0 : list Z) (k0 : Z)
    (s : kstate) (l P : list Z) (k : Z) : Prop := {
  gr_as : aspace s l root P k;
  gr_range : 0 <= k0 <= k;
  gr_old : forall va, 0 <= va < MAXVA -> ~ k0 * PGSIZE <= va < k * PGSIZE ->
    leaf_val (k_mem s) root va = leaf_val (k_mem s0) root va;
  gr_new : forall va, k0 * PGSIZE <= va < k * PGSIZE ->
    PTE_FLAGS (leaf_val (k_mem s) root va) = Z.lor perm PTE_V /\ vread (k_mem s) root va = x00;
  gr_acct : frames (k_mem s) root (k0 * PGSIZE) (Z.to_nat (k - k0)) [] ++ l ++ P ≡ₚ l0 ++ P0;
  gr_out : same_outside (l0 ++ P0) s0 s
}.

Lemma growing_refl root perm s l P k :
  aspace s l root P k -> growing root perm s l P k s l P k.
Proof.
  intros HA. constructor; auto.
  - destruct HA. lia.
  - intros va Hva. lia.
  - rewrite Z.sub_diag. reflexivity.
  - apply same_outside_refl.
Qed.

Lemma frames_snoc m root a (n : nat) :
  frames m root a (S n) [] = phys m root (a + Z.of_nat n * PGSIZE) :: frames m root a n [].
Proof.
  revert a. induction n as [|n IH]; intros a.
  - cbn. rewrite Z.add_0_r. reflexivity.
  - change (frames m root a (S (S n)) []) with (frames m root (a + PGSIZE) (S n) [phys m root a]).
    rewrite frames_app, IH. cbn [app]. f_equal; [f_equal; lia|].
    cbn [frames]. rewrite (frames_app _ _ _ _ [_]). reflexivity.
Qed.

Lemma lor_R_not_V perm : Z.testbit perm 1 = true -> Z.lor perm PTE_V <> PTE_V.
Proof.
  intros H E. apply (f_equal (fun z => Z.testbit z 1)) in E.
  rewrite Z.lor_spec, H in E. discriminate.
Qed.

Lemma flag_set_lor_V q perm :
  0 <= q < 2 ^ 56 -> 0 <= perm < 1024 ->
  pte_valid (Z.lor (PA2PTE q) (Z.lor perm PTE_V)) = true.
Proof.
  intros Hq Hp. destruct (pte_make q perm Hq Hp) as (fl & Hfl & H1 & _ & ->).
  unfold pte_valid, flag_set. rewrite flag_V_of_lor by assumption. reflexivity.
Qed.

Lemma mapped_one_in k q perm f va :
  k * PGSIZE <= va < (k + 1) * PGSIZE ->
  mapped (k * PGSIZE) 1 q perm f va = Z.lor (PA2PTE q) (Z.lor perm PTE_V).
Proof.
  intros H. unfold mapped. replace (_ && _) with true by (unfold PGSIZE in *; lia).
  rewrite PGROUNDDOWN_eq. do 2 f_equal. unfold PGSIZE in *. zdiv.
Qed.

Lemma mapped_one_out k q perm f va :
  ~ k * PGSIZE <= va < (k + 1) * PGSIZE -> mapped (k * PGSIZE) 1 q perm f va = f va.
Proof.
  intros H. unfold mapped. replace (_ && _) with false by (unfold PGSIZE in *; lia). reflexivity.
Qed.

Section GrowStep.
Context (root perm : Z) (s s2 s3 : kstate) (q : Z) (l1 l3 P P3 : list Z) (k : Z).
Context (HA : aspace s (q :: l1) root P k).
Context (HA2 : aspace s2 l1 root P k) (Hso2 : same_outside [q] s s2).
Context (HL2 : forall va, leaf_val (k_mem s2) root va = leaf_val (k_mem s) root va).
Context (Hz : forall x, in_page q x -> k_mem s2 x = x00).
Context (Hq : page_ok (k_end s2) q) (HqP : q ∉ P) (Hql : q ∉ l1).
Context (Hs : vstep root s2 l1 P s3 l3 P3 (mapped (k * PGSIZE) 1 q perm (leaf_val (k_mem s2) root))).
Context (Hk : (k + 1) * PGSIZE <= TRAPFRAME) (Hperm : 0 <= perm < 1024)
  (HR : Z.testbit perm 1 = true).

#[local] Lemma gs_q : 0 <= q < 2 ^ 56.
Proof.
  pose proof (ki_end _ _ (proj1 (as_inv _ _ _ _ _ HA2))).
  unfold page_ok, PHYSTOP, KERNBASE in Hq. lia.
Qed.

#[local] Lemma gs_fl : 0 <= Z.lor perm PTE_V < 1024.
Proof. apply (lor_bound 10); [lia | exact Hperm | change PTE_V with 1; lia]. Qed.

#[local] Lemma gs_k : 0 <= k.
Proof. apply (as_size _ _ _ _ _ HA). Qed.

#[local] Lemma gs_new va :
  k * PGSIZE <= va < (k + 1) * PGSIZE ->
  leaf_val (k_mem s3) root va = Z.lor (PA2PTE q) (Z.lor perm PTE_V).
Proof.
  intros Hva. pose proof gs_k. pose proof TRAPFRAME_MAXVA.
  rewrite (vs_leaf _ _ _ _ _ _ _ _ Hs) by (unfold PGSIZE in *; lia).
  apply mapped_one_in. exact Hva.
Qed.

#[local] Lemma gs_old va :
  0 <= va < MAXVA -> ~ k * PGSIZE <= va < (k + 1) * PGSIZE ->
  leaf_val (k_mem s3) root va = leaf_val (k_mem s) root va.
Proof.
  intros Hva Hne. rewrite (vs_leaf _ _ _ _ _ _ _ _ Hs) by exact Hva.
  rewrite mapped_one_out by exact Hne. apply HL2.
Qed.

#[local] Lemma gs_phys_new va :
  k * PGSIZE <= va < (k + 1) * PGSIZE -> phys (k_mem s3) root va = q.
Proof.
  intros Hva. unfold phys. rewrite gs_new by exact Hva.
  apply PTE2PA_roundtrip; [apply gs_q | apply Hq | apply gs_fl].
Qed.

#[local] Lemma gs_pool x : x ∈ l3 \/ x ∈ P3 -> x ∈ l1 \/ x ∈ P.
Proof.
  destruct (vs_used _ _ _ _ _ _ _ _ Hs) as (used & -> & ->).
  rewrite !elem_of_app, (list_elem_of_In (rev used) x), <- in_rev, <- list_elem_of_In. tauto.
Qed.

#[local] Lemma gs_end : k_end s3 = k_end s.
Proof. rewrite (proj1 (vs_out _ _ _ _ _ _ _ _ Hs)). apply Hso2. Qed.

Lemma grow_aspace : aspace s3 l3 root P3 (k + 1).
Proof.
  pose proof gs_k as Hk0. pose proof TRAPFRAME_MAXVA as HT.
  assert (Hpo : forall i, 0 <= i < k ->
     leaf_val (k_mem s3) root (i * PGSIZE) = leaf_val (k_mem s) root (i * PGSIZE)).
  { intros i Hi. apply gs_old; unfold PGSIZE in *; lia. }
  constructor.
  - apply Hs.
  - lia.
  - intros i Hi. destruct (decide (i = k)) as [->|Hne].
    + constructor.
      * rewrite gs_new by (unfold PGSIZE; lia). apply flag_set_lor_V; [apply gs_q | exact Hperm].
      * rewrite gs_new by (unfold PGSIZE; lia).
        rewrite PTE_FLAGS_roundtrip by (apply gs_q || apply gs_fl). apply lor_R_not_V. exact HR.
      * intros _. rewrite gs_phys_new by (unfold PGSIZE; lia).
        rewrite (proj1 (vs_out _ _ _ _ _ _ _ _ Hs)). split; [exact Hq|].
        split; intros Hin;
          [destruct (gs_pool q (or_intror Hin)) | destruct (gs_pool q (or_introl Hin))]; contradiction.
    + destruct (as_page _ _ _ _ _ HA i ltac:(lia)) as [H1 H2 H3].
      constructor; unfold phys in *; rewrite ?Hpo by lia; [exact H1 | exact H2 |].
      intros _. destruct (H3 eq_refl) as (F1 & F2 & F3). rewrite gs_end. split; [exact F1|].
      rewrite not_elem_of_cons in F3.
      split; intros Hin;
        [destruct (gs_pool _ (or_intror Hin)) | destruct (gs_pool _ (or_introl Hin))]; tauto.
  - assert (Hc : forall i, 0 <= i < k -> phys (k_mem s3) root (i * PGSIZE) <> q).
    { intros i Hi E. unfold phys in E. rewrite Hpo in E by lia.
      destruct (lp_frame _ _ _ _ _ _ (as_page _ _ _ _ _ HA i ltac:(lia)) eq_refl) as (_ & _ & F3).
      apply F3. unfold phys. rewrite E. left. }
    intros i j Hi Hj E.
    destruct (decide (i = k)) as [->|Hik]; destruct (decide (j = k)) as [->|Hjk]; auto.
    + exfalso. apply (Hc j); [lia|]. rewrite <- E. apply gs_phys_new. unfold PGSIZE. lia.
    + exfalso. apply (Hc i); [lia|]. rewrite E. apply gs_phys_new. unfold PGSIZE. lia.
    + apply (as_inj _ _ _ _ _ HA); [lia | lia |]. unfold phys in *. rewrite !Hpo in E by lia. exact E.
  - intros va Hva. rewrite gs_old by (unfold PGSIZE in *; lia).
    apply (as_top _ _ _ _ _ HA). unfold PGSIZE in *. lia.
  - intros va Hva. rewrite gs_old by (unfold PGSIZE in *; lia).
    apply (as_priv _ _ _ _ _ HA). exact Hva.
Qed.

(** Frames of already mapped pages keep their contents. *)
Lemma grow_content va :
  0 <= va < k * PGSIZE -> vread (k_mem s3) root va = vread (k_mem s) root va.
Proof.
  intros Hva. pose proof TRAPFRAME_MAXVA as HT. unfold vread.
  assert (E : phys (k_mem s3) root va = phys (k_mem s) root va).
  { unfold phys. rewrite gs_old; [reflexivity | unfold PGSIZE in *; lia | unfold PGSIZE in *; lia]. }
  rewrite E. set (d := phys (k_mem s) root va).
  assert (Hi : 0 <= va / PGSIZE < k) by (unfold PGSIZE in *; zdiv).
  destruct (lp_frame _ _ _ _ _ _ (as_page _ _ _ _ _ HA _ Hi) eq_refl) as (F1 & F2 & F3).
  rewrite phys_page in F1, F2, F3. fold d in F1, F2, F3. rewrite not_elem_of_cons in F3.
  assert (Hx : in_page d (d + va mod PGSIZE)) by (unfold in_page, PGSIZE; zdiv).
  pose proof (pt_pages _ _ _ _ (proj1 (proj2 (vs_inv _ _ _ _ _ _ _ _ Hs)))) as Hpg.
  rewrite Forall_forall in Hpg.
  rewrite (proj2 (vs_out _ _ _ _ _ _ _ _ Hs)), (proj2 Hso2); [reflexivity | |].
  - rewrite Forall_singleton. eapply page_disjoint; [apply F1 | apply Hq | tauto | exact Hx].
  - rewrite Forall_forall. intros p Hp.
    eapply page_disjoint; [apply F1 | apply (Hpg p Hp) | | exact Hx].
    intros E'. rewrite <- E' in Hp. destruct (gs_pool d (or_intror Hp)); tauto.
Qed.

Lemma grow_zero va :
  k * PGSIZE <= va < (k + 1) * PGSIZE -> vread (k_mem s3) root va = x00.
Proof.
  intros Hva. unfold vread. rewrite gs_phys_new by exact Hva.
  assert (Hx : in_page q (q + va mod PGSIZE)) by (unfold in_page, PGSIZE; zdiv).
  pose proof (pt_pages _ _ _ _ (proj1 (proj2 (vs_inv _ _ _ _ _ _ _ _ Hs)))) as Hpg.
  rewrite Forall_forall in Hpg.
  rewrite (proj2 (vs_out _ _ _ _ _ _ _ _ Hs)); [apply Hz; exact Hx|].
  rewrite Forall_forall. intros p Hp.
  eapply page_disjoint; [apply Hq | apply (Hpg p Hp) | | exact Hx].
  intros E'. rewrite <- E' in Hp. destruct (gs_pool q (or_intror Hp)); tauto.
Qed.

Lemma growing_step s0 l0 P0 k0 :
  growing root perm s0 l0 P0 k0 s (q :: l1) P k ->
  growing root perm s0 l0 P0 k0 s3 l3 P3 (k + 1).
Proof.
  intros [_ Hr Hold Hnew Hacct Hout]. pose proof gs_k as Hk0. pose proof TRAPFRAME_MAXVA as HT.
  constructor.
  - exact grow_aspace.
  - lia.
  - intros va Hva Hne. rewrite gs_old by (unfold PGSIZE in *; lia).
    apply Hold; [exact Hva | unfold PGSIZE in *; lia].
  - intros va Hva. destruct (decide (va < k * PGSIZE)) as [Hlt|Hge].
    + rewrite gs_old by (unfold PGSIZE in *; lia).
      rewrite grow_content by (unfold PGSIZE in *; lia). apply Hnew. lia.
    + split; [|apply grow_zero; lia]. rewrite gs_new by lia.
      apply PTE_FLAGS_roundtrip; [apply gs_q | apply gs_fl].
  - replace (Z.to_nat (k + 1 - k0)) with (S (Z.to_nat (k - k0))) by lia.
    rewrite frames_snoc. rewrite gs_phys_new by (unfold PGSIZE in *; lia).
    rewrite (frames_ext (k_mem s) (k_mem s3)).
    + rewrite <- Hacct. destruct (vs_used _ _ _ _ _ _ _ _ Hs) as (used & -> & ->).
      rewrite <- (Permutation_rev used). solve_Permutation.
    + intros i Hi. unfold phys. rewrite gs_old by (unfold PGSIZE in *; lia). reflexivity.
  - eapply same_outside_mono;
      [exact (same_outside_trans _ _ _ _ _ (same_outside_trans _ _ _ _ _ Hout Hso2)
                (vs_out _ _ _ _ _ _ _ _ Hs))|].
    intros x Hx. rewrite <- Hacct. rewrite !elem_of_app, list_elem_of_singleton in Hx.
    rewrite !elem_of_app, elem_of_cons.
    destruct Hx as [[Hx|Hx]|Hx].
    + rewrite <- elem_of_app, <- Hacct, !elem_of_app, elem_of_cons in Hx. exact Hx.
    + auto.
    + destruct (gs_pool x (or_intror Hx)); auto.
Qed.
End GrowStep.

(** Pages may move between the free list and the table while user memory stays. *)
Lemma growing_mono root perm s0 l0 P0 k0 s l P k s' l' P' :
  growing root perm s0 l0 P0 k0 s l P k -> vinv s' l' root P' ->
  (forall va, 0 <= va < MAXVA -> leaf_val (k_mem s') root va = leaf_val (k_mem s) root va) ->
  l' ++ P' ≡ₚ l ++ P -> same_outside (l ++ P) s s' ->
  growing root perm s0 l0 P0 k0 s' l' P' k.
Proof.
  intros [HA Hr Hold Hnew Hacct Hout] HV' HL Hperm Hso. pose proof TRAPFRAME_MAXVA as HT.
  pose proof (as_size _ _ _ _ _ HA) as Hsz.
  constructor.
  - apply (aspace_mono s l root P k); [exact HA | exact HV' | apply Hso | exact HL |].
    intros x. rewrite <- !elem_of_app, Hperm. auto.
  - exact Hr.
  - intros va Hva Hne. rewrite HL by exact Hva. apply Hold; assumption.
  - intros va Hva. rewrite HL by (unfold PGSIZE in *; lia).
    destruct (Hnew va Hva) as [H1 H2]. split; [exact H1|]. rewrite <- H2. unfold vread.
    replace (phys (k_mem s') root va) with (phys (k_mem s) root va)
      by (unfold phys; rewrite HL by (unfold PGSIZE in *; lia); reflexivity).
    apply Hso. rewrite Forall_forall. intros p Hp.
    assert (Hi : 0 <= va / PGSIZE < k) by (unfold PGSIZE in *; zdiv).
    destruct (lp_frame _ _ _ _ _ _ (as_page _ _ _ _ _ HA _ Hi) eq_refl) as (F1 & F2 & F3).
    rewrite phys_page in F1, F2, F3.
    assert (Hpa : p mod PGSIZE = 0).
    { pose proof (as_inv _ _ _ _ _ HA) as (HK & HP & _). apply elem_of_app in Hp as [Hp|Hp].
      - pose proof (ki_pages _ _ HK) as Hx. rewrite Forall_forall in Hx. apply (Hx p Hp).
      - pose proof (pt_pages _ _ _ _ HP) as Hx. rewrite Forall_forall in Hx. apply (Hx p Hp). }
    eapply page_disjoint; [apply F1 | exact Hpa | | unfold in_page, PGSIZE; zdiv].
    intros <-. apply elem_of_app in Hp. tauto.
  - rewrite (frames_ext (k_mem s)), Hperm; [exact Hacct|]. intros i Hi. unfold phys.
    rewrite HL by (unfold PGSIZE in *; lia). reflexivity.
  - eapply same_outside_mono; [exact (same_outside_trans _ _ _ _ _ Hout Hso)|].
    intros x Hx. apply elem_of_app in Hx as [Hx|Hx]; [exact Hx|].
    rewrite <- Hacct, elem_of_app. auto.
Qed.

(** Undoing: the state [uvmalloc] leaves when it returns 0. *)
Definition undone (root : Z) (s0 : kstate) (l0 P0 : list Z) (k0 : Z) (s' : kstate) : Prop :=
  exists l' P', aspace s' l' root P' k0 /\ l' ++ P' ≡ₚ l0 ++ P0 /\
    (forall va, 0 <= va < MAXVA -> leaf_val (k_mem s') root va = leaf_val (k_mem s0) root va) /\
    same_outside (l0 ++ P0) s0 s'.

Lemma npages_mult k : 0 <= k -> npages (k * PGSIZE) = k.
Proof. intros H. unfold npages, PGSIZE. zdiv. Qed.

Lemma undo_wp root perm s0 l0 P0 k0 s l P k :
  growing root perm s0 l0 P0 k0 s l P k -> aspace s0 l0 root P0 k0 ->
  wp (uvmdealloc root (k * PGSIZE) (k0 * PGSIZE)) (fun _ s' => undone root s0 l0 P0 k0 s') s.
Proof.
  intros [HA Hr Hold Hnew Hacct Hout] HA0. pose proof TRAPFRAME_MAXVA as HT.
  pose proof (as_size _ _ _ _ _ HA) as Hsz. pose proof (as_size _ _ _ _ _ HA0) as Hsz0.
  eapply wp_mono.
  - apply (uvmdealloc_wp s l root P); [rewrite npages_mult by lia; exact HA | unfold PGSIZE; lia | lia].
  - intros r s' (_ & HA' & HL & Hso).
    rewrite !PGROUNDUP_mult, !npages_mult in * by lia.
    eexists _, P. split; [exact HA'|]. split; [|split].
    + rewrite <- Hacct, app_assoc. reflexivity.
    + intros va Hva. rewrite HL by exact Hva. unfold unmapped.
      destruct (_ && _) eqn:E; [|apply Hold; [exact Hva | lia]].
      symmetry. apply (as_top _ _ _ _ _ HA0). lia.
    + eapply same_outside_mono; [exact (same_outside_trans _ _ _ _ _ Hout Hso)|].
      intros x Hx. rewrite !elem_of_app in Hx. rewrite <- Hacct, !elem_of_app.
      destruct Hx as [Hx|Hx]; [|tauto].
      rewrite <- elem_of_app, <- Hacct, !elem_of_app in Hx. exact Hx.
Qed.

Lemma uvmalloc_wp root oldsz newsz xperm s l P :
  aspace s l root P (npages oldsz) -> 0 <= oldsz <= newsz -> newsz <= TRAPFRAME ->
  0 <= xperm < 1024 ->
  wp (uvmalloc root oldsz newsz xperm) (fun r s' =>
    (r = newsz /\ exists l' P', growing root (Z.lor (Z.lor PTE_R PTE_U) xperm)
                    s l P (npages oldsz) s' l' P' (npages newsz)) \/
    (r = 0 /\ undone root s l P (npages oldsz) s')) s.
Proof.
  intros HA Hsz HT Hx. unfold uvmalloc. replace (newsz <? oldsz) with false by lia. cbv zeta.
  pose proof TRAPFRAME_MAXVA as HTM. pose proof MAXVA_eq as HM.
  destruct (npages_PGROUNDUP oldsz ltac:(lia)) as (Eo & Ho & HoT). rewrite Eo.
  destruct (npages_PGROUNDUP newsz ltac:(lia)) as (En & Hn & HnT).
  set (k0 := npages oldsz) in *. set (kn := npages newsz) in *.
  assert (Hkk : k0 <= kn) by (unfold k0, kn, npages, PGSIZE; zdiv).
  set (perm := Z.lor (Z.lor PTE_R PTE_U) xperm).
  assert (Hperm : 0 <= perm < 1024) by (apply (lor_bound 10); [lia | change (Z.lor PTE_R PTE_U) with 18; lia | lia]).
  assert (HR : Z.testbit perm 1 = true) by (unfold perm; rewrite Z.lor_spec; reflexivity).
  apply (wp_loop (fun j a s' => exists k l' P', growing root perm s l P k0 s' l' P' k /\
           a = k * PGSIZE /\ k <= kn /\ j = Z.to_nat (kn - k))) with (k := Z.to_nat (kn - k0)).
  2:{ exists k0, l, P. split; [apply growing_refl; exact HA | lia]. }
  2:{ unfold kn, npages, PGSIZE in *. zdiv. }
  intros j a s1 (k & l1 & P1 & HG & -> & Hk & ->).
  pose proof (gr_as _ _ _ _ _ _ _ _ _ _ HG) as HA1. pose proof (as_size _ _ _ _ _ HA1) as Hk1.
  destruct (Z.ltb_spec (k * PGSIZE) newsz) as [Hlt|Hge].
  2:{ wp_steps. left. split; [reflexivity|]. exists l1, P1.
      replace kn with k; [exact HG|]. unfold kn, npages, PGSIZE in *. zdiv. }
  assert (Hlt' : k < kn) by (unfold kn, npages, PGSIZE in *; zdiv).
  apply wp_bind. eapply wp_mono; [exact (kalloc_wp s1 l1 (proj1 (as_inv _ _ _ _ _ HA1)))|].
  intros r s2 Hr. destruct l1 as [|q l1].
  { destruct Hr as [-> ->]. cbn [Z.eqb]. apply wp_bind.
    eapply wp_mono; [exact (undo_wp _ _ _ _ _ _ _ _ _ _ HG HA)|].
    intros ? s3 Hu. wp_steps. right. split; [reflexivity | exact Hu]. }
  destruct Hr as (-> & HK2 & Hso & _).
  destruct (fresh_zero s1 q l1 root P1 k s2 HA1 HK2 Hso) as (HA3 & Hso3 & HL3 & Hz & Hq & HqP & Hql).
  assert (Hq0 : 0 < q).
  { pose proof (ki_end _ _ (proj1 (as_inv _ _ _ _ _ HA3))). unfold page_ok in Hq. lia. }
  replace (q =? 0) with false by lia. unfold memset_. wp_steps.
  set (s3 := set_mem (CString.memset q 0 PGSIZE) s2) in *.
  eapply wp_mono.
  { apply (mappages_wp root (k * PGSIZE) PGSIZE q perm s3 l1 P1 (as_inv _ _ _ _ _ HA3));
      try (unfold PGSIZE in *; lia).
    - unfold PGSIZE. zdiv.
    - reflexivity.
    - unfold page_ok, PHYSTOP, KERNBASE, PGSIZE in *. lia.
    - intros va Hva. rewrite (as_top _ _ _ _ _ HA3); [reflexivity|]. unfold PGSIZE in *. lia. }
  intros r s4 (l4 & P4 & jj & Hs & Hres). change (PGSIZE / PGSIZE) with 1 in Hres.
  destruct Hres as [[-> ->]|(-> & -> & Hj)].
  - cbn [Z.eqb negb]. wp_steps. exists (Z.to_nat (kn - (k + 1))). split; [lia|].
    exists (k + 1), l4, P4. split.
    + eapply growing_step; eauto. unfold PGSIZE in *. lia.
    + unfold u64. rewrite Z.mod_small by (unfold PGSIZE in *; lia). unfold PGSIZE in *. lia.
  - assert (jj = 0) by lia. subst jj. cbn [Z.eqb negb]. apply wp_bind.
    destruct (vs_used _ _ _ _ _ _ _ _ Hs) as (used & Eu & EP). rewrite app_nil_r in Eu. subst used.
    eapply wp_mono.
    { apply (kfree_wp q s4 []); [apply Hs | | apply not_elem_of_nil].
      rewrite (proj1 (vs_out _ _ _ _ _ _ _ _ Hs)). exact Hq. }
    intros [] s5 [HK5 Hso5]. apply wp_bind.
    assert (HqP4 : q ∉ P4).
    { subst P4. rewrite elem_of_app, list_elem_of_In, <- in_rev, <- list_elem_of_In. tauto. }
    pose proof (vs_inv _ _ _ _ _ _ _ _ Hs) as (_ & HP4 & _).
    destruct (pt_same_outside root s4 s5 P4 [q] HP4 Hso5) as (HP5 & _ & HL5).
    { intros d ->%list_elem_of_singleton. split; [apply Hq | exact HqP4]. }
    eapply wp_mono.
    { apply (undo_wp root perm s l P k0 s5 [q] P4 k); [|exact HA].
      apply (growing_mono root perm s l P k0 s1 (q :: l1) P1 k); [exact HG | | | |].
      - split; [exact HK5|]. split; [exact HP5|].
        intros p Hp ->%list_elem_of_singleton. contradiction.
      - intros va Hva. rewrite HL5, (vs_leaf _ _ _ _ _ _ _ _ Hs), mapped_0 by exact Hva. apply HL3.
      - subst P4. rewrite <- (Permutation_rev l1). reflexivity.
      - eapply same_outside_mono;
          [exact (same_outside_trans _ _ _ _ _ Hso3
             (same_outside_trans _ _ _ _ _ (vs_out _ _ _ _ _ _ _ _ Hs) Hso5))|].
        subst P4. intros x. rewrite !elem_of_app, !list_elem_of_singleton, elem_of_cons,
          (list_elem_of_In (rev l1) x), <- in_rev, <- list_elem_of_In. tauto. }
    intros ? s6 Hu. wp_steps. right. split; [reflexivity | exact Hu].
Qed.
