(* ===== verification/UserCopy.v ===== *)
(** * Copies between kernel and user memory

    [copyin], [copyout] and [copyinstr] of kernel/vm.c against the user's
    view of memory ([Uvm.vread]), for every user-supplied address. *)

From S2P Require Import Prelude Memory Riscv Kalloc Vm PageTable Uvm.

(** The checks of [walkaddr] and of [copyout] on an address. *)
Definition user_ok (m : mem) (root va : Z) : bool :=
  (va <? MAXVA) && flag_set (leaf_val m root va) PTE_V && flag_set (leaf_val m root va) PTE_U.
Definition user_wok (m : mem) (root va : Z) : bool :=
  user_ok m root va && flag_set (leaf_val m root va) PTE_W.

(** [k] bytes of user memory from [va]. *)
Definition vbytes (m : mem) (root va k : Z) : list byte :=
  (fun i => vread m root (va + Z.of_nat i)) <$> seq 0 (Z.to_nat k).

Lemma length_vbytes m root va k : length (vbytes m root va k) = Z.to_nat k.
Proof. unfold vbytes. rewrite length_fmap, length_seq. reflexivity. Qed.

Lemma vbytes_app m root va a b :
  0 <= a -> 0 <= b -> vbytes m root va (a + b) = vbytes m root va a ++ vbytes m root (va + a) b.
Proof.
  intros Ha Hb. unfold vbytes. rewrite Z2Nat.inj_add, seq_app, fmap_app by lia. f_equal.
  replace (0 + Z.to_nat a)%nat with (Z.to_nat a + 0)%nat by lia.
  rewrite <- fmap_add_seq, <- list_fmap_compose. apply list_fmap_ext. intros i x _. cbn. f_equal. lia.
Qed.

(** Addresses of one page. *)
Lemma user_ok_page m root va :
  0 <= va -> user_ok m root (PGROUNDDOWN va) = user_ok m root va.
Proof.
  intros H. unfold user_ok. rewrite leaf_val_page.
  replace (PGROUNDDOWN va <? MAXVA) with (va <? MAXVA); [reflexivity|].
  rewrite PGROUNDDOWN_eq, MAXVA_eq. unfold PGSIZE. zdiv.
Qed.

Lemma same_page_leaf m root va va' :
  va / PGSIZE = va' / PGSIZE -> leaf_val m root va = leaf_val m root va'.
Proof.
  intros E. rewrite <- (leaf_val_page m root va), <- (leaf_val_page m root va'), !PGROUNDDOWN_eq, E.
  reflexivity.
Qed.

Lemma same_page_ok m root va va' :
  va / PGSIZE = va' / PGSIZE -> user_ok m root va = user_ok m root va'.
Proof.
  intros E. unfold user_ok. rewrite (same_page_leaf _ _ _ _ E).
  replace (va <? MAXVA) with (va' <? MAXVA); [reflexivity|].
  rewrite MAXVA_eq. unfold PGSIZE in E. zdiv.
Qed.

Lemma page_bytes m root va n :
  0 <= va -> 0 <= n <= PGSIZE - va mod PGSIZE ->
  bytes_at m (phys m root va + va mod PGSIZE) (Z.to_nat n) = vbytes m root va n.
Proof.
  intros Hva Hn. unfold bytes_at, vbytes. apply list_fmap_ext. intros i x Hx.
  apply lookup_seq in Hx as [-> Hx]. cbn. unfold vread, phys.
  rewrite (same_page_leaf m root (va + Z.of_nat i) va) by (unfold PGSIZE in *; zdiv).
  f_equal. unfold PGSIZE in *. zdiv.
Qed.

Section Space.
Context (s : kstate) (l : list Z) (root : Z) (P : list Z) (n : Z).
Context (HA : aspace s l root P n).

(** User-accessible addresses are those below the process size. *)
Lemma user_ok_below va :
  0 <= va -> user_ok (k_mem s) root va = true ->
  0 <= va / PGSIZE < n /\ page_ok (k_end s) (phys (k_mem s) root va) /\
  (phys (k_mem s) root va ∉ P) /\ (phys (k_mem s) root va ∉ l).
Proof.
  intros Hva Hok. unfold user_ok in Hok.
  destruct (decide (va < n * PGSIZE)) as [Hlt|Hge].
  - assert (Hi : 0 <= va / PGSIZE < n) by (unfold PGSIZE in *; zdiv). split; [exact Hi|].
    pose proof (lp_frame _ _ _ _ _ _ (as_page _ _ _ _ _ HA _ Hi) eq_refl) as HF.
    rewrite phys_page in HF. exact HF.
  - exfalso. destruct (decide (va < TRAPFRAME)).
    + rewrite (as_top _ _ _ _ _ HA) in Hok by lia.
      change (flag_set 0 PTE_V) with false in Hok. lia.
    + destruct (decide (va < MAXVA)); [|lia].
      rewrite (as_priv _ _ _ _ _ HA) in Hok by lia. lia.
Qed.

Lemma walk_read va :
  va < MAXVA ->
  walk root va false s = Ret (default 0 (leaf_addr (k_mem s) root va)) s /\
  match leaf_addr (k_mem s) root va with
  | Some a => a <> 0 /\ load64 (k_mem s) a = leaf_val (k_mem s) root va
  | None => leaf_val (k_mem s) root va = 0
  end.
Proof.
  intros Hva. split; [apply walk_noalloc; exact Hva|]. unfold leaf_val.
  destruct (leaf_addr (k_mem s) root va) as [a|] eqn:E; [|reflexivity].
  split; [|reflexivity]. eapply leaf_addr_pos; [apply HA | exact E].
Qed.

Lemma walkaddr_eq va :
  walkaddr root va s =
  Ret (if user_ok (k_mem s) root va then phys (k_mem s) root va else 0) s.
Proof.
  unfold walkaddr, user_ok, phys. destruct (Z.ltb_spec va MAXVA) as [Hlt|Hge].
  - replace (va >=? MAXVA) with false by lia. cbn [andb].
    destruct (walk_read va Hlt) as [Hw Hv]. unfold mbind, M_bind, mret, M_ret, rd, gets. rewrite Hw.
    destruct (leaf_addr (k_mem s) root va) as [a|].
    + change (default 0 (Some a)) with a. destruct Hv as [Ha Hv].
      replace (a =? 0) with false by lia. cbv beta iota. rewrite Hv.
      destruct (flag_set _ PTE_V); [|reflexivity]. destruct (flag_set _ PTE_U); reflexivity.
    + rewrite Hv. reflexivity.
  - replace (va >=? MAXVA) with true by lia. reflexivity.
Qed.

(** Iterations of a copy of [len] bytes that starts [off] bytes into a page. *)
Definition copy_iters (off len : Z) : nat :=
  if len <=? 0 then O else Z.to_nat ((off + len + PGSIZE - 1) / PGSIZE).

Lemma copyin_wp srcva len :
  0 <= srcva < 2 ^ 64 -> 0 <= len ->
  wp (copyin root srcva len) (fun '(r, bs) s' => s' = s /\ exists k,
    0 <= k <= len /\ bs = vbytes (k_mem s) root srcva k /\
    (forall i, 0 <= i < k -> user_ok (k_mem s) root (srcva + i) = true) /\
    (r = 0 /\ k = len \/ r = -1 /\ k < len /\ user_ok (k_mem s) root (srcva + k) = false)) s.
Proof.
  intros Hva Hlen. unfold copyin.
  apply (wp_loop (fun j '(va, rest, bs) s' => s' = s /\ exists k,
    0 <= k <= len /\ rest = len - k /\ bs = vbytes (k_mem s) root srcva k /\
    (forall i, 0 <= i < k -> user_ok (k_mem s) root (srcva + i) = true) /\
    (0 < rest -> va = srcva + k /\ 0 <= va < 2 ^ 64) /\
    j = copy_iters (va mod PGSIZE) rest)) with (k := copy_iters (srcva mod PGSIZE) len).
  2:{ split; [reflexivity|]. exists 0. split; [lia|]. split; [lia|]. split; [reflexivity|].
      split; [lia|]. split; [lia | reflexivity]. }
  2:{ unfold copy_iters, copy_fuel, PGSIZE. case_match; zdiv. }
  intros j [[va rest] bs] s' (-> & k & Hk & -> & -> & Hok & Hcur & ->).
  destruct (Z.gtb_spec (len - k) 0) as [Hrest|Hdone].
  2:{ wp_steps. split; [reflexivity|]. exists k. repeat (split; [assumption || reflexivity|]).
      left. lia. }
  destruct (Hcur ltac:(lia)) as [-> Hb]. cbv zeta. apply wp_bind. unfold wp at 1.
  rewrite walkaddr_eq, user_ok_page by lia.
  destruct (user_ok (k_mem s) root (srcva + k)) eqn:Euo.
  2:{ cbn [Z.eqb]. wp_steps. split; [reflexivity|]. exists k.
      repeat (split; [assumption || reflexivity|]). right. split; [reflexivity|]. split; [lia | exact Euo]. }
  destruct (user_ok_below _ (proj1 Hb) Euo) as (Hi & Hpg & _).
  assert (EM : srcva + k < MAXVA) by (unfold user_ok in Euo; lia). rewrite MAXVA_eq in EM.
  assert (Hp0 : phys (k_mem s) root (PGROUNDDOWN (srcva + k)) = phys (k_mem s) root (srcva + k))
    by (unfold phys; rewrite leaf_val_page; reflexivity).
  rewrite Hp0. pose proof (ki_end _ _ (proj1 (as_inv _ _ _ _ _ HA))).
  replace (phys (k_mem s) root (srcva + k) =? 0) with false by (unfold page_ok in Hpg; lia).
  wp_steps. set (va := srcva + k) in *.
  assert (Eoff : va - PGROUNDDOWN va = va mod PGSIZE) by (rewrite PGROUNDDOWN_eq; unfold PGSIZE; zdiv).
  rewrite Eoff. set (n1 := Z.min (PGSIZE - va mod PGSIZE) (len - k)).
  assert (Hn1 : 0 < n1 <= PGSIZE - va mod PGSIZE) by (unfold n1, PGSIZE; zdiv).
  rewrite page_bytes by lia.
  exists (copy_iters 0 (len - k - n1)). split.
  { unfold copy_iters, n1, PGSIZE in *. repeat case_match; zdiv. }
  split; [reflexivity|]. exists (k + n1). split; [lia|]. split; [lia|].
  split; [rewrite vbytes_app by lia; reflexivity|]. split.
  { intros i Hi'. destruct (decide (i < k)); [apply Hok; lia|].
    rewrite (same_page_ok _ _ _ va); [exact Euo|]. unfold va, PGSIZE in *. zdiv. }
  assert (Eu : u64 (PGROUNDDOWN va + PGSIZE) = PGROUNDDOWN va + PGSIZE).
  { unfold u64. rewrite PGROUNDDOWN_eq. apply Z.mod_small. unfold PGSIZE. zdiv. }
  rewrite Eu, PGROUNDDOWN_eq. split.
  - unfold n1, va, PGSIZE in *. zdiv.
  - f_equal. unfold PGSIZE. zdiv.
Qed.
End Space.

(** ** Storing to user memory *)

(** [s'] is [s] after the bytes [bs] were stored at user address [dst]: the
    page table is the same, the program sees [bs] there and its old memory
    elsewhere, and no byte outside the program's own frames changed. *)
Record stored (root n : Z) (l P : list Z) (s s' : kstate) (dst : Z) (bs : list byte) : Prop := {
  st_space : aspace s' l root P n;
  st_leaf : forall va, leaf_val (k_mem s') root va = leaf_val (k_mem s) root va;
  st_read : forall va, 0 <= va < n * PGSIZE ->
    vread (k_mem s') root va =
    if (dst <=? va) && (va <? dst + Z.of_nat (length bs))
    then nth (Z.to_nat (va - dst)) bs x00 else vread (k_mem s) root va;
  st_out : same_outside (frames (k_mem s) root 0 (Z.to_nat n) []) s s'
}.

Lemma stored_nil root n l P s dst : aspace s l root P n -> stored root n l P s s dst [].
Proof.
  intros H. constructor; [exact H | reflexivity | | apply same_outside_refl].
  intros va Hva. replace (_ && _) with false by (cbn [length]; lia). reflexivity.
Qed.

Lemma frames_leaf_ext m m' root a n ds :
  (forall va, leaf_val m' root va = leaf_val m root va) -> frames m' root a n ds = frames m root a n ds.
Proof.
  intros H. revert a ds. induction n as [|n IH]; intros a ds; cbn [frames]; [reflexivity|].
  rewrite IH. unfold phys. rewrite H. reflexivity.
Qed.

Lemma stored_app root n l P s s1 s2 dst bs1 bs2 :
  stored root n l P s s1 dst bs1 ->
  stored root n l P s1 s2 (dst + Z.of_nat (length bs1)) bs2 ->
  stored root n l P s s2 dst (bs1 ++ bs2).
Proof.
  intros [HA1 HL1 HR1 HO1] [HA2 HL2 HR2 HO2]. constructor; [exact HA2 | | |].
  - intros va. rewrite HL2. apply HL1.
  - intros va Hva. rewrite HR2, HR1 by exact Hva. rewrite length_app, Nat2Z.inj_add.
    repeat case_match; try reflexivity; try (exfalso; lia).
    + rewrite app_nth2 by lia. f_equal. lia.
    + rewrite app_nth1 by lia. reflexivity.
  - rewrite (frames_leaf_ext _ _ _ _ _ _ HL1) in HO2.
    eapply same_outside_mono; [exact (same_outside_trans _ _ _ _ _ HO1 HO2)|].
    intros x Hx. apply elem_of_app in Hx as [Hx|Hx]; exact Hx.
Qed.

Section Store.
Context (s : kstate) (l : list Z) (root : Z) (P : list Z) (n : Z).
Context (HA : aspace s l root P n).
Context (va : Z) (bs : list byte).
Context (Hva : 0 <= va) (Hok : user_ok (k_mem s) root va = true).
Context (Hlen : Z.of_nat (length bs) <= PGSIZE - va mod PGSIZE).

#[local] Abbreviation d := (phys (k_mem s) root va).
#[local] Abbreviation s' := (set_mem (fun m => put_bytes m (d + va mod PGSIZE) bs) s).

#[local] Lemma store_outside : same_outside [d] s s'.
Proof.
  split; [reflexivity|]. intros x Hx. rewrite Forall_singleton in Hx. ksimpl.
  apply put_bytes_out. unfold in_page in Hx. unfold PGSIZE in *. zdiv.
Qed.

#[local] Lemma store_leaf_same :
  pt_ok (k_mem s') (k_end s') root P /\
  forall w, leaf_val (k_mem s') root w = leaf_val (k_mem s) root w.
Proof.
  destruct (user_ok_below s l root P n HA va Hva Hok) as (_ & Hpg & HnP & _).
  destruct (pt_same_outside root s s' P [d] (proj1 (proj2 (as_inv _ _ _ _ _ HA))) store_outside)
    as (H1 & _ & H2); [|split; assumption].
  intros x ->%list_elem_of_singleton. split; [apply Hpg | exact HnP].
Qed.

#[local] Lemma store_space : aspace s' l root P n.
Proof.
  destruct (user_ok_below s l root P n HA va Hva Hok) as (_ & Hpg & HnP & Hnl).
  destruct (as_inv _ _ _ _ _ HA) as (HK & _ & Hdis).
  eapply aspace_mono; [exact HA | | reflexivity | intros w _; apply store_leaf_same | tauto].
  split; [|split; [apply store_leaf_same | exact Hdis]].
  eapply kinv_same_outside; [exact HK | exact store_outside | apply HK | reflexivity|].
  rewrite Forall_singleton. split; [apply Hpg | exact Hnl].
Qed.

Lemma user_store : stored root n l P s s' va bs.
Proof.
  destruct (user_ok_below s l root P n HA va Hva Hok) as (Hi & Hpg & HnP & Hnl).
  constructor; [exact store_space | apply store_leaf_same | |].
  - intros w Hw. unfold vread.
    assert (Ep : phys (k_mem s') root w = phys (k_mem s) root w)
      by (unfold phys; f_equal; apply store_leaf_same).
    rewrite Ep. ksimpl. destruct (decide (w / PGSIZE = va / PGSIZE)) as [E|Hne].
    + assert (Epw : phys (k_mem s) root w = d)
        by (unfold phys; rewrite (same_page_leaf (k_mem s) root w va E); reflexivity).
      rewrite Epw. destruct ((va <=? w) && (w <? va + Z.of_nat (length bs))) eqn:Ew.
      * rewrite put_bytes_in by (unfold PGSIZE in *; zdiv). f_equal. unfold PGSIZE in *. zdiv.
      * rewrite put_bytes_out by (unfold PGSIZE in *; zdiv). reflexivity.
    + replace ((va <=? w) && (w <? va + Z.of_nat (length bs))) with false
        by (unfold PGSIZE in *; zdiv).
      assert (Hw' : 0 <= w / PGSIZE < n) by (unfold PGSIZE in *; zdiv).
      pose proof (as_page _ _ _ _ _ HA _ Hw') as HP.
      destruct (lp_frame _ _ _ _ _ _ HP eq_refl) as (Hpw & _ & _). rewrite phys_page in Hpw.
      assert (Hdd : phys (k_mem s) root w <> d).
      { intros E. apply Hne. apply (as_inj _ _ _ _ _ HA); [exact Hw' | exact Hi |].
        rewrite !phys_page. exact E. }
      apply (proj2 store_outside). rewrite Forall_singleton.
      eapply page_disjoint; [apply Hpw | apply Hpg | exact Hdd |]. unfold in_page, PGSIZE. zdiv.
  - eapply same_outside_mono; [exact store_outside|]. intros x ->%list_elem_of_singleton.
    apply elem_of_frames. exists (va / PGSIZE). split; [lia|]. rewrite Z.add_0_l, phys_page. reflexivity.
Qed.
End Store.

Lemma user_ok_leaf_ext m m' root :
  (forall va, leaf_val m' root va = leaf_val m root va) ->
  forall va, user_ok m' root va = user_ok m root va /\ user_wok m' root va = user_wok m root va.
Proof. intros H va. unfold user_wok, user_ok. rewrite H. auto. Qed.

Lemma user_wok_page m root va va' :
  va / PGSIZE = va' / PGSIZE -> user_wok m root va = user_wok m root va'.
Proof.
  intros E. unfold user_wok. rewrite (same_page_ok _ _ _ _ E), (same_page_leaf _ _ _ _ E). reflexivity.
Qed.

Lemma copyout_body_bad s l root P n dst src :
  aspace s l root P n -> 0 <= dst -> src <> [] -> user_wok (k_mem s) root dst = false ->
  copyout_body root (dst, src) s = Ret (inr (-1)) s.
Proof.
  intros HA Hd Hsrc Hw. unfold copyout_body.
  replace (Z.of_nat (length src) >? 0) with true by (destruct src; [congruence | cbn [length]; lia]).
  cbv zeta. destruct (PGROUNDDOWN dst >=? MAXVA) eqn:EM; [reflexivity|].
  destruct (walk_read s l root P n HA (PGROUNDDOWN dst) ltac:(lia)) as [Hwk Hv].
  unfold mbind, M_bind, mret, M_ret, rd, gets, modify. rewrite Hwk.
  destruct (leaf_addr (k_mem s) root (PGROUNDDOWN dst)) as [a|]; [|reflexivity].
  change (default 0 (Some a)) with a. destruct Hv as [Ha Hv].
  replace (a =? 0) with false by lia. cbv beta iota. rewrite Hv, leaf_val_page.
  unfold user_wok, user_ok in Hw.
  replace (dst <? MAXVA) with true in Hw
    by (rewrite PGROUNDDOWN_eq, MAXVA_eq in EM; rewrite MAXVA_eq; unfold PGSIZE in EM; zdiv).
  destruct (flag_set _ PTE_V); [|reflexivity]. destruct (flag_set _ PTE_U); [|reflexivity].
  destruct (flag_set _ PTE_W); [discriminate Hw | reflexivity].
Qed.

Lemma copyout_body_ok s l root P n dst src :
  aspace s l root P n -> 0 <= dst -> src <> [] -> user_wok (k_mem s) root dst = true ->
  let n1 := Z.to_nat (Z.min (PGSIZE - dst mod PGSIZE) (Z.of_nat (length src))) in
  exists s', copyout_body root (dst, src) s =
    Ret (inl ((dst / PGSIZE + 1) * PGSIZE, drop n1 src)) s' /\
  stored root n l P s s' dst (take n1 src).
Proof.
  intros HA Hd Hsrc Hw n1.
  assert (Hu : user_ok (k_mem s) root dst = true) by (unfold user_wok in Hw; lia).
  assert (EM : dst < MAXVA) by (unfold user_ok in Hu; lia). rewrite MAXVA_eq in EM.
  assert (Eoff : dst - PGROUNDDOWN dst = dst mod PGSIZE)
    by (rewrite PGROUNDDOWN_eq; unfold PGSIZE; zdiv).
  assert (Eu : u64 (PGROUNDDOWN dst + PGSIZE) = (dst / PGSIZE + 1) * PGSIZE)
    by (unfold u64; rewrite PGROUNDDOWN_eq, Z.mod_small; unfold PGSIZE; zdiv).
  eexists. split; [|apply (user_store s l root P n HA dst (take n1 src) Hd Hu);
    rewrite length_take; unfold n1, PGSIZE; zdiv].
  unfold copyout_body.
  replace (Z.of_nat (length src) >? 0) with true by (destruct src; [congruence | cbn [length]; lia]).
  cbv zeta. replace (PGROUNDDOWN dst >=? MAXVA) with false
    by (rewrite PGROUNDDOWN_eq, MAXVA_eq; unfold PGSIZE; zdiv).
  destruct (walk_read s l root P n HA (PGROUNDDOWN dst)
    ltac:(rewrite PGROUNDDOWN_eq, MAXVA_eq; unfold PGSIZE; zdiv)) as [Hwk Hv].
  unfold mbind, M_bind, mret, M_ret, rd, gets, modify. rewrite Hwk.
  unfold user_wok, user_ok in Hw. rewrite leaf_val_page in Hv.
  destruct (leaf_addr (k_mem s) root (PGROUNDDOWN dst)) as [a|].
  2:{ rewrite Hv in Hw. change (flag_set 0 PTE_V) with false in Hw. lia. }
  change (default 0 (Some a)) with a. destruct Hv as [Ha Hv].
  replace (a =? 0) with false by lia. cbv beta iota. rewrite Hv, Eoff, Eu. fold n1.
  replace (negb _ || _ || _) with false by lia. reflexivity.
Qed.

Lemma copyout_wp s l root P n dst src :
  aspace s l root P n -> 0 <= dst < 2 ^ 64 ->
  wp (copyout root dst src) (fun r s' => exists k,
    (k <= length src)%nat /\ stored root n l P s s' dst (take k src) /\
    (forall i, 0 <= i < Z.of_nat k -> user_wok (k_mem s) root (dst + i) = true) /\
    (r = 0 /\ k = length src \/
     r = -1 /\ (k < length src)%nat /\ user_wok (k_mem s) root (dst + Z.of_nat k) = false)) s.
Proof.
  intros HA Hdst. unfold copyout.
  apply (wp_loop (fun j '(va, rest) s' => exists k,
    (k <= length src)%nat /\ rest = drop k src /\ stored root n l P s s' dst (take k src) /\
    (forall i, 0 <= i < Z.of_nat k -> user_wok (k_mem s) root (dst + i) = true) /\
    (rest <> [] -> va = dst + Z.of_nat k) /\
    j = copy_iters (va mod PGSIZE) (Z.of_nat (length rest))))
    with (k := copy_iters (dst mod PGSIZE) (Z.of_nat (length src))).
  2:{ exists O. split; [lia|]. split; [reflexivity|]. split; [apply stored_nil; exact HA|].
      split; [lia|]. split; [lia | reflexivity]. }
  2:{ unfold copy_iters, copy_fuel, PGSIZE. case_match; zdiv. }
  intros j [va rest] s' (k & Hk & -> & Hst & Hok & Hcur & ->).
  destruct (decide (drop k src = [])) as [Hnil|Hne].
  { unfold wp. rewrite Hnil. cbn. exists k. split; [exact Hk|]. split; [exact Hst|]. split; [exact Hok|].
    left. split; [reflexivity|]. apply (f_equal length) in Hnil. rewrite length_drop in Hnil.
    cbn [length] in Hnil. lia. }
  assert (Hlt : (k < length src)%nat).
  { destruct (decide (k < length src)%nat) as [?|Hge]; [assumption|].
    contradict Hne. apply drop_ge. lia. }
  rewrite (Hcur Hne).
  assert (Ew : user_wok (k_mem s') root (dst + Z.of_nat k) = user_wok (k_mem s) root (dst + Z.of_nat k))
    by apply (user_ok_leaf_ext _ _ _ (st_leaf _ _ _ _ _ _ _ _ Hst)).
  destruct (user_wok (k_mem s) root (dst + Z.of_nat k)) eqn:Eok.
  2:{ unfold wp. erewrite copyout_body_bad; [| apply Hst | lia | exact Hne | exact Ew].
      exists k. split; [exact Hk|]. split; [exact Hst|]. split; [exact Hok|]. right. auto. }
  destruct (copyout_body_ok s' l root P n (dst + Z.of_nat k) (drop k src) (st_space _ _ _ _ _ _ _ _ Hst))
    as (s'' & Hrun & Hst'); [lia | exact Hne | exact Ew |].
  unfold wp. rewrite Hrun. clear Hrun.
  set (n1 := Z.to_nat _) in *.
  assert (Hn1 : (0 < n1)%nat /\ Z.of_nat n1 = Z.min (PGSIZE - (dst + Z.of_nat k) mod PGSIZE)
    (Z.of_nat (length src - k))) by (unfold n1; rewrite length_drop; unfold PGSIZE; zdiv).
  exists (copy_iters 0 (Z.of_nat (length src - k - n1))). split.
  { unfold copy_iters, PGSIZE in *. rewrite length_drop. repeat case_match; zdiv. }
  exists (k + n1)%nat. split; [lia|]. split; [rewrite drop_drop; reflexivity|]. split.
  { rewrite <- take_take_drop. eapply stored_app; [exact Hst|].
    rewrite length_take, Nat.min_l by lia. exact Hst'. }
  split; [|split].
  - intros i Hi. destruct (decide (i < Z.of_nat k)); [apply Hok; lia|].
    rewrite (user_wok_page _ _ _ (dst + Z.of_nat k)); [exact Eok|]. unfold PGSIZE in *. zdiv.
  - intros Hr. rewrite drop_drop in Hr.
    assert ((k + n1 < length src)%nat).
    { destruct (decide (k + n1 < length src)%nat) as [?|Hge]; [assumption|].
      contradict Hr. apply drop_ge. lia. }
    unfold PGSIZE in *. zdiv.
  - rewrite drop_drop, length_drop, Z.mod_mul by (unfold PGSIZE; lia). f_equal. lia.
Qed.

(** ** Strings from user memory *)

Lemma copyinstr_page_spec n m p :
  let '(got, bs) := copyinstr_page n m p in
  if got : bool
  then exists i, (i < n)%nat /\ bs = bytes_at m p i ++ [x00] /\ m (p + Z.of_nat i) = x00 /\
       x00 ∉ bytes_at m p i
  else bs = bytes_at m p n /\ x00 ∉ bs.
Proof.
  revert p. induction n as [|n IH]; intros p; cbn [copyinstr_page].
  { split; [reflexivity | apply not_elem_of_nil]. }
  destruct (Z.eqb_spec (b2z (m p)) 0) as [Ez|Hnz].
  { exists O. split; [lia|]. split; [reflexivity|]. rewrite Z.add_0_r.
    split; [apply b2z_inj; exact Ez | apply not_elem_of_nil]. }
  assert (Hne : x00 <> m p) by (intros E; apply Hnz; rewrite <- E; reflexivity).
  specialize (IH (p + 1)). destruct (copyinstr_page n m (p + 1)) as [got bs].
  assert (Hb : forall i, bytes_at m p (S i) = m p :: bytes_at m (p + 1) i).
  { intros i. change (S i) with (1 + i)%nat. rewrite (bytes_at_app m p 1 i). cbn. rewrite Z.add_0_r. reflexivity. }
  destruct got.
  - destruct IH as (i & Hi & -> & Hz & Hno). exists (S i). split; [lia|]. rewrite Hb.
    split; [reflexivity|]. split; [rewrite <- Hz; f_equal; lia|]. apply not_elem_of_cons. auto.
  - destruct IH as (-> & Hno). rewrite Hb. split; [reflexivity|]. apply not_elem_of_cons. auto.
Qed.

Section Str.
Context (s : kstate) (l : list Z) (root : Z) (P : list Z) (n : Z).
Context (HA : aspace s l root P n).

(** The outcome of [copyinstr]: the string with its NUL, or what was readable. *)
Definition copied_str (srcva max : Z) (r : Z) (bs : list byte) : Prop :=
  exists k, 0 <= k <= max /\ (x00 ∉ vbytes (k_mem s) root srcva k) /\
  (forall i, 0 <= i < k -> user_ok (k_mem s) root (srcva + i) = true) /\
  (r = 0 /\ k < max /\ user_ok (k_mem s) root (srcva + k) = true /\
     vread (k_mem s) root (srcva + k) = x00 /\ bs = vbytes (k_mem s) root srcva k ++ [x00] \/
   r = -1 /\ bs = vbytes (k_mem s) root srcva k /\
     (k = max \/ user_ok (k_mem s) root (srcva + k) = false)).

Lemma page_ok_upto va k n1 :
  0 <= va + k -> user_ok (k_mem s) root (va + k) = true -> n1 <= PGSIZE - (va + k) mod PGSIZE ->
  (forall i, 0 <= i < k -> user_ok (k_mem s) root (va + i) = true) ->
  forall i, 0 <= i < k + n1 -> user_ok (k_mem s) root (va + i) = true.
Proof.
  intros H0 Hu Hn Hok i Hi. destruct (decide (i < k)); [apply Hok; lia|].
  rewrite (same_page_ok _ _ _ (va + k)); [exact Hu|]. unfold PGSIZE in *. zdiv.
Qed.

Lemma copyinstr_wp srcva max :
  0 <= srcva < 2 ^ 64 -> 0 <= max ->
  wp (copyinstr root srcva max) (fun '(r, bs) s' => s' = s /\ copied_str srcva max r bs) s.
Proof.
  intros Hva Hlen. unfold copyinstr.
  apply (wp_loop (fun j '(va, rest, bs) s' => s' = s /\ exists k,
    0 <= k <= max /\ rest = max - k /\ bs = vbytes (k_mem s) root srcva k /\
    (x00 ∉ vbytes (k_mem s) root srcva k) /\
    (forall i, 0 <= i < k -> user_ok (k_mem s) root (srcva + i) = true) /\
    (0 < rest -> va = srcva + k) /\
    j = copy_iters (va mod PGSIZE) rest)) with (k := copy_iters (srcva mod PGSIZE) max).
  2:{ split; [reflexivity|]. exists 0. split; [lia|]. split; [lia|]. split; [reflexivity|].
      split; [apply not_elem_of_nil|]. split; [lia|]. split; [lia | reflexivity]. }
  2:{ unfold copy_iters, copy_fuel, PGSIZE. case_match; zdiv. }
  intros j [[va rest] bs] s' (-> & k & Hk & -> & -> & Hnz & Hok & Hcur & ->).
  destruct (Z.gtb_spec (max - k) 0) as [Hrest|Hdone].
  2:{ wp_steps. split; [reflexivity|]. exists k. repeat (split; [assumption|]).
      right. split; [reflexivity|]. split; [reflexivity|]. left. lia. }
  rewrite (Hcur ltac:(lia)). cbv zeta. apply wp_bind. unfold wp at 1.
  rewrite (walkaddr_eq s l root P n HA), user_ok_page by lia.
  destruct (user_ok (k_mem s) root (srcva + k)) eqn:Euo.
  2:{ cbn [Z.eqb]. wp_steps. split; [reflexivity|]. exists k.
      repeat (split; [assumption|]). right. auto. }
  assert (Hb : 0 <= srcva + k) by lia.
  destruct (user_ok_below s l root P n HA _ Hb Euo) as (Hi & Hpg & _).
  assert (EM : srcva + k < MAXVA) by (unfold user_ok in Euo; lia). rewrite MAXVA_eq in EM.
  replace (phys (k_mem s) root (PGROUNDDOWN (srcva + k))) with (phys (k_mem s) root (srcva + k))
    by (unfold phys; rewrite leaf_val_page; reflexivity).
  pose proof (ki_end _ _ (proj1 (as_inv _ _ _ _ _ HA))).
  replace (phys (k_mem s) root (srcva + k) =? 0) with false by (unfold page_ok in Hpg; lia).
  wp_steps. set (va' := srcva + k) in *.
  assert (Eoff : va' - PGROUNDDOWN va' = va' mod PGSIZE) by (rewrite PGROUNDDOWN_eq; unfold PGSIZE; zdiv).
  rewrite Eoff. set (n1 := Z.min (PGSIZE - va' mod PGSIZE) (max - k)).
  assert (Hn1 : 0 < n1 <= PGSIZE - va' mod PGSIZE) by (unfold n1, PGSIZE; zdiv).
  pose proof (copyinstr_page_spec (Z.to_nat n1) (k_mem s) (phys (k_mem s) root va' + va' mod PGSIZE)) as Hs.
  destruct (copyinstr_page _ _ _) as [got pbs]. destruct got; wp_steps.
  - destruct Hs as (i & Hi' & -> & Hz & Hno).
    assert (Ebs : bytes_at (k_mem s) (phys (k_mem s) root va' + va' mod PGSIZE) i =
      vbytes (k_mem s) root va' (Z.of_nat i))
      by (rewrite <- page_bytes by lia; rewrite Nat2Z.id; reflexivity).
    rewrite Ebs in *. split; [reflexivity|]. exists (k + Z.of_nat i). split; [lia|].
    rewrite vbytes_app, not_elem_of_app by lia. split; [auto|]. split.
    { apply page_ok_upto; [exact Hb | exact Euo | fold va'; lia | exact Hok]. }
    assert (Eva : srcva + (k + Z.of_nat i) = va' + Z.of_nat i) by (unfold va'; lia).
    left. split; [reflexivity|]. split; [lia|]. rewrite Eva.
    assert (Epg : (va' + Z.of_nat i) / PGSIZE = va' / PGSIZE) by (unfold PGSIZE in *; zdiv).
    split; [rewrite (same_page_ok _ _ _ _ Epg); exact Euo|].
    split; [|apply app_assoc].
    unfold vread, phys. rewrite (same_page_leaf _ _ _ _ Epg). rewrite <- Hz. unfold phys.
    f_equal. unfold PGSIZE in *. zdiv.
  - destruct Hs as (-> & Hno). rewrite page_bytes in * by lia.
    exists (copy_iters 0 (max - k - n1)). split.
    { unfold copy_iters, n1, PGSIZE in *. repeat case_match; zdiv. }
    split; [reflexivity|]. exists (k + n1). split; [lia|]. split; [lia|].
    split; [rewrite vbytes_app by lia; reflexivity|].
    rewrite vbytes_app, not_elem_of_app by lia. split; [auto|]. split.
    { apply page_ok_upto; [exact Hb | exact Euo | fold va'; lia | exact Hok]. }
    assert (Eu : u64 (PGROUNDDOWN va' + PGSIZE) = PGROUNDDOWN va' + PGSIZE).
    { unfold u64. rewrite PGROUNDDOWN_eq. apply Z.mod_small. unfold PGSIZE. zdiv. }
    rewrite Eu, PGROUNDDOWN_eq. split.
    + unfold n1, va', PGSIZE in *. zdiv.
    + f_equal. unfold PGSIZE. zdiv.
Qed.
End Str.

(** ** Fresh address spaces *)

Lemma zero_root m e root :
  page_ok e root -> (forall x, in_page root x -> m x = x00) ->
  pt_ok m e root [root] /\ forall va, leaf_val m root va = 0.
Proof.
  intros Hr Hz.
  assert (Hc : forall i, idx_ok i -> pte_child m root i = None).
  { intros i Hi. unfold pte_child.
    rewrite (le_load_zero 8 m) by (intros k Hk; apply Hz; eapply in_page_entry; [exact Hi | lia]).
    reflexivity. }
  assert (Hp : forall k p, node_ok k -> page_of m root k = Some p -> k = N2 /\ p = root).
  { intros [|i|i j] p Hk; cbn.
    - intros [= <-]. auto.
    - rewrite Hc by exact Hk. discriminate.
    - rewrite Hc by apply Hk. discriminate. }
  split; [constructor|].
  - intros k p Hk E. apply list_elem_of_singleton. exact (proj2 (Hp _ _ Hk E)).
  - intros k k' p Hk Hk' E E'. rewrite (proj1 (Hp _ _ Hk E)), (proj1 (Hp _ _ Hk' E')). reflexivity.
  - rewrite Forall_singleton. exact Hr.
  - intros va. unfold leaf_val, leaf_addr.
    destruct (page_of m root (leaf_node va)) as [p|] eqn:E; [|reflexivity].
    destruct (Hp _ _ (leaf_node_ok va) E) as [E' _]. discriminate E'.
Qed.

Lemma uvmcreate_wp s l :
  kinv s l ->
  wp uvmcreate (fun r s' =>
    match l with
    | [] => r = 0 /\ s' = s
    | q :: l' => r = q /\ aspace s' l' q [q] 0 /\ same_outside [q] s s'
    end) s.
Proof.
  intros HK. unfold uvmcreate. apply wp_bind. eapply wp_mono; [exact (kalloc_wp s l HK)|].
  intros r s1 Hr. destruct l as [|q l]; [destruct Hr as [-> ->]; cbn; wp_steps; auto|].
  destruct Hr as (-> & HK1 & Hso & _).
  pose proof (ki_pages _ _ HK) as Hqs. apply Forall_cons in Hqs as [Hq _].
  pose proof (ki_nodup _ _ HK) as Hnd. apply NoDup_cons in Hnd as [Hql _].
  pose proof (ki_end _ _ HK) as He.
  replace (q =? 0) with false by (unfold page_ok in Hq; lia). unfold memset_. wp_steps.
  set (s2 := set_mem (CString.memset q 0 PGSIZE) s1).
  assert (E2 : k_mem s2 = fill (k_mem s1) q PGSIZE x00)
    by (unfold s2; ksimpl; apply CString.memset_fill; unfold PGSIZE; lia).
  assert (Hso12 : same_outside [q] s1 s2).
  { split; [reflexivity|]. intros x Hx. rewrite Forall_singleton in Hx. rewrite E2. apply fill_out. exact Hx. }
  destruct (zero_root (k_mem s2) (k_end s2) q) as [HP HL].
  { rewrite (proj1 Hso12), (proj1 Hso). exact Hq. }
  { intros x Hx. rewrite E2. apply fill_in. exact Hx. }
  split; [reflexivity|]. split.
  - constructor; [| change TRAPFRAME with 274877898752; lia | lia | lia | intros; apply HL |].
    + split; [|split; [exact HP | intros p ->%list_elem_of_singleton; exact Hql]].
      apply (kinv_same_outside s1 s2 l [q] HK1 Hso12); [apply HK1 | reflexivity |].
      rewrite Forall_singleton. split; [apply Hq | exact Hql].
    + intros va _. rewrite HL. reflexivity.
  - eapply same_outside_mono; [exact (same_outside_trans _ _ _ _ _ Hso Hso12)|].
    intros x Hx. rewrite elem_of_app in Hx. tauto.
Qed.

(** A machine with six pages of memory, booted, with one process of two
    writable pages. *)
Definition boot6 : kstate :=
  {| k_mem := fun _ => x00; k_lock := false; k_freelist := 0; k_end := PHYSTOP - 6 * PGSIZE |}.

Definition boot6_proc : M kstate (Z * Z) :=
  kinit;; root ← uvmcreate; r ← uvmalloc root 0 (2 * PGSIZE) PTE_W; mret (root, r).

Lemma boot6_space : exists s l root P,
  aspace s l root P 2 /\ forall va, 0 <= va < 2 * PGSIZE ->
    PTE_FLAGS (leaf_val (k_mem s) root va) = Z.lor (Z.lor (Z.lor PTE_R PTE_U) PTE_W) PTE_V.
Proof.
  assert (Hrun : match boot6_proc boot6 with Ret (_, r) _ => r =? 2 * PGSIZE | _ => false end = true)
    by (vm_compute; reflexivity).
  assert (Hwp : wp boot6_proc (fun '(root, r) s => r = 0 \/ exists s' l root P,
    aspace s' l root P 2 /\ forall va, 0 <= va < 2 * PGSIZE ->
    PTE_FLAGS (leaf_val (k_mem s') root va) = Z.lor (Z.lor (Z.lor PTE_R PTE_U) PTE_W) PTE_V) boot6).
  { unfold boot6_proc. apply wp_bind. eapply wp_mono; [apply kinit_wp; cbn; [unfold PHYSTOP, KERNBASE, PGSIZE; lia | reflexivity]|].
    intros [] s1 (l & HK & Hin). apply wp_bind. eapply wp_mono; [exact (uvmcreate_wp s1 l HK)|].
    destruct l as [|q l].
    { exfalso. apply (not_elem_of_nil (PHYSTOP - PGSIZE)). apply Hin. vm_compute. repeat split; congruence. }
    intros r s2 (-> & HA & _). apply wp_bind. eapply wp_mono.
    { apply (uvmalloc_wp q 0 (2 * PGSIZE) PTE_W s2 l [q] HA).
      - unfold PGSIZE. lia.
      - vm_compute. congruence.
      - vm_compute. repeat split; congruence. }
    intros r s3 [(-> & l' & P' & HG)|[-> _]]; wp_steps; [|left; reflexivity]. right.
    exists s3, l', q, P'. split; [exact (gr_as _ _ _ _ _ _ _ _ _ _ HG)|].
    intros va Hva. apply (gr_new _ _ _ _ _ _ _ _ _ _ HG va Hva). }
  unfold wp in Hwp. destruct (boot6_proc boot6) as [[root r] s'| | |]; try discriminate Hrun.
  destruct Hwp as [->|H]; [discriminate Hrun | exact H].
Qed.

Lemma user_wok_ok m root va : user_wok m root va = true -> user_ok m root va = true.
Proof. unfold user_wok. lia. Qed.

(** The writable addresses of a process, from the flags of its entries. *)
Lemma user_wok_flags s l root P n va :
  aspace s l root P n -> 0 <= va < n * PGSIZE ->
  Z.land (PTE_FLAGS (leaf_val (k_mem s) root va)) 21 = 21 ->
  user_wok (k_mem s) root va = true.
Proof.
  intros HA Hva E. pose proof (as_size _ _ _ _ _ HA). pose proof TRAPFRAME_MAXVA.
  unfold user_wok, user_ok. replace (va <? MAXVA) with true by (unfold PGSIZE in *; lia).
  set (e := leaf_val _ _ _) in *.
  assert (Hb : forall i, Z.testbit 21 i = true -> Z.testbit e i = true).
  { intros i Hi. apply (f_equal (fun z => Z.testbit z i)) in E. unfold PTE_FLAGS in E.
    rewrite !Z.land_spec, Hi in E. destruct (Z.testbit e i); [reflexivity | discriminate E]. }
  assert (Hf : forall i, Z.testbit 21 i = true -> flag_set e (2 ^ i) = true).
  { intros i Hi. unfold flag_set. apply negb_true_iff, Z.eqb_neq. intros E0.
    apply (f_equal (fun z => Z.testbit z i)) in E0.
    rewrite Z.land_spec, (Hb i Hi), Z.bits_0, Z.pow2_bits_true in E0; [discriminate E0|].
    destruct i; [lia | lia | discriminate Hi]. }
  rewrite (Hf 0 eq_refl : flag_set e PTE_V = true), (Hf 4 eq_refl : flag_set e PTE_U = true),
    (Hf 2 eq_refl : flag_set e PTE_W = true). reflexivity.
Qed.

Lemma stored_bytes root n l P s s' dst bs :
  stored root n l P s s' dst bs -> 0 <= dst -> dst + Z.of_nat (length bs) <= n * PGSIZE ->
  vbytes (k_mem s') root dst (Z.of_nat (length bs)) = bs.
Proof.
  intros Hst Hd Hn. unfold vbytes. rewrite Nat2Z.id. apply list_eq. intros i.
  rewrite list_lookup_fmap. destruct (decide (i < length bs)%nat) as [Hi|Hi].
  - rewrite lookup_seq_lt by exact Hi. cbn.
    rewrite (st_read _ _ _ _ _ _ _ _ Hst) by lia.
    replace (_ && _) with true by lia.
    replace (Z.to_nat (dst + Z.of_nat i - dst)) with i by lia. symmetry.
    destruct (lookup_lt_is_Some_2 _ _ Hi) as [b Hb]. rewrite (nth_lookup_Some _ _ x00 _ Hb). exact Hb.
  - rewrite lookup_seq_ge by lia. symmetry. apply lookup_ge_None. lia.
Qed.

(** ** Properties *)

(** C20: [copyout], for any destination a user program passes, copies a prefix
    of the source: all of it with result 0, or up to the first byte that is
    not a valid, user, writable address with result -1.  The program's other
    memory, its page table and every byte of physical memory outside its own
    frames are unchanged. *)
Theorem copyout_correct s l root P n dst src :
  aspace s l root P n -> 0 <= dst < 2 ^ 64 ->
  wp (copyout root dst src) (fun r s' => exists k,
    (k <= length src)%nat /\ stored root n l P s s' dst (take k src) /\
    (forall i, 0 <= i < Z.of_nat k -> user_wok (k_mem s) root (dst + i) = true) /\
    (r = 0 /\ k = length src \/
     r = -1 /\ (k < length src)%nat /\ user_wok (k_mem s) root (dst + Z.of_nat k) = false)) s.
Proof. apply copyout_wp. Qed.

Lemma copyout_correct_witness : exists s root s',
  copyout root 4094 [x01; x02; x03; x04] s = Ret 0 s' /\
  vread (k_mem s') root 4093 = vread (k_mem s) root 4093 /\ vread (k_mem s') root 4097 = x04.
Proof.
  destruct boot6_space as (s & l & root & P & HA & Hfl). exists s, root.
  destruct (proj1 (wp_run _ _ _) (copyout_correct s l root P 2 4094 [x01; x02; x03; x04] HA ltac:(lia)))
    as (r & s' & E & k & Hk & Hst & _ & [[-> ->]|(_ & Hk' & Hno)]).
  - exists s'. split; [exact E|]. split; (rewrite (st_read _ _ _ _ _ _ _ _ Hst); [reflexivity|]).
    + unfold PGSIZE. lia.
    + unfold PGSIZE. lia.
  - cbn in Hk'. exfalso. rewrite (user_wok_flags s l root P 2) in Hno; [discriminate | exact HA | |].
    + unfold PGSIZE. lia.
    + rewrite Hfl; [reflexivity | unfold PGSIZE; lia].
Defined.

(** [copyin] never changes the state; it returns 0 with the [len] bytes
    the user program sees at [srcva], or -1 when one of them is not a valid
    user address, and then the bytes before it were copied. *)
Theorem copyin_correct s l root P n srcva len :
  aspace s l root P n -> 0 <= srcva < 2 ^ 64 -> 0 <= len ->
  wp (copyin root srcva len) (fun '(r, bs) s' => s' = s /\ exists k,
    0 <= k <= len /\ bs = vbytes (k_mem s) root srcva k /\
    (forall i, 0 <= i < k -> user_ok (k_mem s) root (srcva + i) = true) /\
    (r = 0 /\ k = len \/ r = -1 /\ k < len /\ user_ok (k_mem s) root (srcva + k) = false)) s.
Proof. intros HA. apply (copyin_wp s l root P n HA). Qed.

Lemma copyin_correct_witness : exists s root bs, copyin root 8190 5 s = Ret (-1, bs) s.
Proof.
  destruct boot6_space as (s & l & root & P & HA & _). exists s, root.
  destruct (proj1 (wp_run _ _ _) (copyin_correct s l root P 2 8190 5 HA ltac:(lia) ltac:(lia)))
    as ([r bs] & s' & E & -> & k & Hk & -> & Hok & Hr).
  assert (Hno : user_ok (k_mem s) root 8192 = false).
  { unfold user_ok. rewrite (as_top _ _ _ _ _ HA); [apply andb_false_r|]. vm_compute. intuition congruence. }
  destruct Hr as [[-> ->]|(-> & _)]; [|eauto].
  specialize (Hok 2 ltac:(lia)). change (8190 + 2) with 8192 in Hok. congruence.
Defined.

(** C21: bytes stored with [copyout] are the bytes [copyin] reads back, for
    any writable range of the process, across page boundaries. *)
Theorem copyout_copyin s l root P n dst src :
  aspace s l root P n -> 0 <= dst < 2 ^ 64 ->
  (forall i, 0 <= i < Z.of_nat (length src) -> user_wok (k_mem s) root (dst + i) = true) ->
  wp (r1 ← copyout root dst src; '(r2, bs) ← copyin root dst (Z.of_nat (length src)); mret (r1, r2, bs))
    (fun x _ => x = (0, 0, src)) s.
Proof.
  intros HA Hd Hw. apply wp_bind. eapply wp_mono; [exact (copyout_wp s l root P n dst src HA Hd)|].
  intros r1 s1 (k & Hk & Hst & _ & [[-> ->]|(_ & Hk' & Hno)]); [|rewrite Hw in Hno by lia; discriminate].
  rewrite firstn_all in Hst.
  apply wp_bind. eapply wp_mono.
  { apply (copyin_wp s1 l root P n (st_space _ _ _ _ _ _ _ _ Hst)); [exact Hd | lia]. }
  intros [r2 bs] s2 (-> & k & Hk1 & -> & _ & [[-> ->]|(_ & Hk' & Hno)]).
  - wp_steps. do 2 f_equal. destruct src as [|b src]; [reflexivity|].
    apply (stored_bytes _ _ _ _ _ _ _ _ Hst); [lia|].
    set (z := Z.of_nat (length (b :: src)) - 1).
    pose proof (Hw z ltac:(unfold z; cbn [length]; lia)) as Hz%user_wok_ok.
    destruct (user_ok_below s l root P n HA (dst + z)) as [Hb _]; [unfold z; cbn [length]; lia | exact Hz |].
    unfold z, PGSIZE in *. zdiv.
  - rewrite (proj1 (user_ok_leaf_ext _ _ _ (st_leaf _ _ _ _ _ _ _ _ Hst) _)) in Hno.
    rewrite user_wok_ok in Hno by (apply Hw; lia). discriminate.
Qed.

Lemma copyout_copyin_witness : exists s root s1 s2,
  copyout root 4095 [x01; x02] s = Ret 0 s1 /\ copyin root 4095 2 s1 = Ret (0, [x01; x02]) s2.
Proof.
  destruct boot6_space as (s & l & root & P & HA & Hfl). exists s, root.
  assert (Hw : forall i, 0 <= i < Z.of_nat (length [x01; x02]) ->
    user_wok (k_mem s) root (4095 + i) = true).
  { intros i Hi. cbn in Hi. apply (user_wok_flags s l root P 2 _ HA); [unfold PGSIZE; lia|].
    rewrite Hfl; [reflexivity | unfold PGSIZE; lia]. }
  pose proof (copyout_copyin s l root P 2 4095 [x01; x02] HA ltac:(lia) Hw) as H.
  unfold wp, mbind, M_bind, mret, M_ret in H.
  change (Z.of_nat (length [x01; x02])) with 2 in H.
  destruct (copyout root 4095 [x01; x02] s) as [r1 s1| | |]; try contradiction.
  destruct (copyin root 4095 2 s1) as [[r2 bs] s2| | |] eqn:E2; try contradiction.
  change ((r1, r2, bs) = (0, 0, [x01; x02])) in H. injection H as -> -> ->. exists s1, s2. split; [reflexivity | exact E2].
Defined.

(** [copyinstr] returns 0 exactly with a NUL-terminated string of at most
    [max] bytes (NUL included) of readable user memory, and -1 when there is
    no NUL in the first [max] bytes or an unreadable byte comes first. *)
Theorem copyinstr_correct s l root P n srcva max :
  aspace s l root P n -> 0 <= srcva < 2 ^ 64 -> 0 <= max ->
  wp (copyinstr root srcva max) (fun '(r, bs) s' => s' = s /\ copied_str s root srcva max r bs) s.
Proof. intros HA. apply (copyinstr_wp s l root P n HA). Qed.

Lemma copyinstr_correct_witness : exists s root r bs,
  copyinstr root 100 128 s = Ret (r, bs) s /\ copied_str s root 100 128 r bs.
Proof.
  destruct boot6_space as (s & l & root & P & HA & _). exists s, root.
  destruct (proj1 (wp_run _ _ _) (copyinstr_correct s l root P 2 100 128 HA ltac:(lia) ltac:(lia)))
    as ([r bs] & s' & E & -> & H). exists r, bs. split; [exact E | exact H].
Defined.

(** C22: [uvmalloc] either returns the new size with every new page mapped to
    a zeroed frame of its own with the requested permissions and the old
    mappings and memory untouched, or returns 0 with the address space as it
    was and every page it took back on the free list or in the page table. *)
Theorem uvmalloc_correct root oldsz newsz xperm s l P :
  aspace s l root P (npages oldsz) -> 0 <= oldsz <= newsz -> newsz <= TRAPFRAME ->
  0 <= xperm < 1024 ->
  wp (uvmalloc root oldsz newsz xperm) (fun r s' =>
    (r = newsz /\ exists l' P', growing root (Z.lor (Z.lor PTE_R PTE_U) xperm)
                    s l P (npages oldsz) s' l' P' (npages newsz)) \/
    (r = 0 /\ undone root s l P (npages oldsz) s')) s.
Proof. apply uvmalloc_wp. Qed.

Lemma uvmalloc_correct_witness : exists s root r s',
  uvmalloc root 8192 20000 PTE_W s = Ret r s' /\ (r = 20000 \/ r = 0).
Proof.
  destruct boot6_space as (s & l & root & P & HA & _). exists s, root.
  destruct (proj1 (wp_run _ _ _) (uvmalloc_correct root 8192 20000 PTE_W s l P HA ltac:(lia)
    ltac:(vm_compute; congruence) ltac:(vm_compute; intuition congruence)))
    as (r & s' & E & [(-> & _)|(-> & _)]); eauto.
Defined.

(** [uvmdealloc] returns the new size, unmaps exactly the pages above it
    and puts exactly their frames back on the free list. *)
Theorem uvmdealloc_correct s l root P oldsz newsz :
  aspace s l root P (npages oldsz) -> 0 <= newsz <= oldsz -> oldsz <= TRAPFRAME ->
  wp (uvmdealloc root oldsz newsz) (fun r s' =>
    r = newsz /\
    aspace s' (frames (k_mem s) root (PGROUNDUP newsz)
                 (Z.to_nat (npages oldsz - npages newsz)) [] ++ l) root P (npages newsz) /\
    (forall va, 0 <= va < MAXVA -> leaf_val (k_mem s') root va =
       unmapped (PGROUNDUP newsz) (PGROUNDUP oldsz) (leaf_val (k_mem s) root) va) /\
    same_outside (frames (k_mem s) root (PGROUNDUP newsz)
                 (Z.to_nat (npages oldsz - npages newsz)) [] ++ P) s s') s.
Proof. apply uvmdealloc_wp. Qed.

Lemma uvmdealloc_correct_witness : exists s root s' l' P,
  uvmdealloc root 8192 100 s = Ret 100 s' /\ aspace s' l' root P 1.
Proof.
  destruct boot6_space as (s & l & root & P & HA & _). exists s, root.
  destruct (proj1 (wp_run _ _ _) (uvmdealloc_correct s l root P 8192 100 HA ltac:(lia) ltac:(vm_compute; congruence)))
    as (r & s' & E & -> & HA' & _). eauto 6.
Defined.
