(* ===== verification/FsDefs.v ===== *)
(** * Constants and on-disk formats

    kernel/param.h, kernel/fs.h, kernel/stat.h and kernel/fcntl.h.  A disk
    block is a byte array: a [mem] of which the [BSIZE] bytes from 0 are
    meaningful, and [m ≈ m'] says that two blocks hold the same bytes. *)

From S2P Require Import Prelude Memory.


(** ** param.h *)

Definition NPROC : Z := 64.
Definition NCPU : Z := 8.
Definition NOFILE : Z := 16.
Definition NFILE : Z := 100.
Definition NINODE : Z := 50.
Definition NDEV : Z := 10.
Definition ROOTDEV : Z := 1.
Definition MAXARG : Z := 32.
Definition MAXOPBLOCKS : Z := 10.
Definition LOGSIZE : Z := MAXOPBLOCKS * 3.
Definition NBUF : Z := MAXOPBLOCKS * 3.
Definition FSSIZE : Z := 2000.
Definition MAXPATH : Z := 128.

(** ** fs.h *)

Definition ROOTINO : Z := 1.
Definition BSIZE : Z := 1024.
Definition FSMAGIC : Z := 0x10203040.
Definition NDIRECT : Z := 12.
Definition NINDIRECT : Z := BSIZE / 4.
Definition MAXFILE : Z := NDIRECT + NINDIRECT.
Definition DIRSIZ : Z := 14.

Record superblock := {
  sb_magic : Z; sb_size : Z; sb_nblocks : Z; sb_ninodes : Z;
  sb_nlog : Z; sb_logstart : Z; sb_inodestart : Z; sb_bmapstart : Z
}.

(** sizeof(struct dinode): four shorts, a uint and NDIRECT+1 uints. *)
Definition DINODE_SIZE : Z := 4 * 2 + 4 + (NDIRECT + 1) * 4.
Definition IPB : Z := BSIZE / DINODE_SIZE.
Definition IBLOCK (i : Z) (sb : superblock) : Z := u32 (i / IPB + sb_inodestart sb).
Definition BPB : Z := BSIZE * 8.
Definition BBLOCK (b : Z) (sb : superblock) : Z := u32 (b / BPB + sb_bmapstart sb).

(** ** stat.h, fcntl.h *)

Definition T_DIR : Z := 1.
Definition T_FILE : Z := 2.
Definition T_DEVICE : Z := 3.
Definition O_RDONLY : Z := 0x000.
Definition O_WRONLY : Z := 0x001.
Definition O_RDWR : Z := 0x002.
Definition O_CREATE : Z := 0x200.
Definition O_TRUNC : Z := 0x400.

(** ** Blocks *)

#[export] Instance block_equiv : Equiv mem := fun m m' => forall i, 0 <= i < BSIZE -> m i = m' i.

#[export] Instance block_equivalence : Equivalence (≡@{mem}).
Proof.
  split; unfold equiv, block_equiv.
  - intros m i _. reflexivity.
  - intros m m' H i Hi. symmetry. apply H, Hi.
  - intros m m' m'' H H' i Hi. rewrite H by exact Hi. apply H', Hi.
Qed.

(** Loads inside the block agree on equal blocks. *)
Lemma load32_block m m' a :
  m ≡ m' -> 0 <= a -> a + 4 <= BSIZE -> load32 m a = load32 m' a.
Proof.
  intros H H0 H1. apply le_load_ext. intros k Hk. cbn in Hk.
  unfold equiv, block_equiv in H. first [apply H; lia | symmetry; apply H; lia].
Qed.

(** [memmove(to->data, from->data, BSIZE)] between two buffers. *)
Definition copy_block (to from : mem) : mem := blit to 0 from 0 BSIZE.

Lemma copy_block_eq to from : copy_block to from ≡ from.
Proof. intros i Hi. unfold copy_block. rewrite blit_in by lia. f_equal. lia. Qed.
