(* ===== verification/BufCache.v ===== *)
(** * What the buffer cache promises to its clients

    The abstract state of a cache over one device and a class of its
    operations with their laws.  [Bio] discharges the class for
    kernel/bio.c; the log ([Log]) and the file system are verified against
    it, never against the implementation. *)

From S2P Require Import Prelude Memory FsDefs.

(** [c_view] is what a reader sees, [c_disk] what a crash leaves; [c_refs]
    are the reference counts of the blocks in use, [c_held] the buffers
    whose sleep-lock the running thread holds, by buffer; [c_writes] is the
    history of completed disk writes. *)
Record cache := Cache {
  c_disk : Z -> mem;
  c_view : Z -> mem;
  c_refs : gmap Z Z;
  c_held : gmap nat Z;
  c_writes : list (Z * mem)
}.

Definition ref_inc (blk : Z) (r : gmap Z Z) : gmap Z Z := <[blk := default 0 (r !! blk) + 1]> r.
Definition ref_dec (blk : Z) (r : gmap Z Z) : gmap Z Z :=
  match r !! blk with
  | Some n => if n =? 1 then delete blk r else <[blk := n - 1]> r
  | None => r
  end.

Definition c_read (blk : Z) (b : nat) (c : cache) : cache :=
  Cache (c_disk c) (c_view c) (ref_inc blk (c_refs c)) (<[b := blk]> (c_held c)) (c_writes c).
Definition c_set (blk : Z) (m : mem) (c : cache) : cache :=
  Cache (c_disk c) (<[blk := m]> (c_view c)) (c_refs c) (c_held c) (c_writes c).
Definition c_write (blk : Z) (c : cache) : cache :=
  Cache (<[blk := c_view c blk]> (c_disk c)) (c_view c) (c_refs c) (c_held c)
    (c_writes c ++ [(blk, c_view c blk)]).
Definition c_release (blk : Z) (b : nat) (c : cache) : cache :=
  Cache (c_disk c) (c_view c) (ref_dec blk (c_refs c)) (delete b (c_held c)) (c_writes c).
Definition c_pin (blk : Z) (c : cache) : cache :=
  Cache (c_disk c) (c_view c) (ref_inc blk (c_refs c)) (c_held c) (c_writes c).
Definition c_unpin (blk : Z) (c : cache) : cache :=
  Cache (c_disk c) (c_view c) (ref_dec blk (c_refs c)) (c_held c) (c_writes c).

(** A cache after boot: nothing referenced. *)
Definition c_fresh (d : Z -> mem) : cache := Cache d d ∅ ∅ [].

Record cache_ok (c : cache) : Prop := {
  co_refs : forall blk n, c_refs c !! blk = Some n -> 0 < n;
  co_held : forall b blk, c_held c !! b = Some blk -> is_Some (c_refs c !! blk);
  co_inj : forall b b' blk, c_held c !! b = Some blk -> c_held c !! b' = Some blk -> b = b';
  co_clean : forall blk, c_refs c !! blk = None -> c_view c blk = c_disk c blk
}.

Class BufCache (S : Type) := {
  bread : Z -> Z -> M S nat;
  bwrite : nat -> M S unit;
  brelse : nat -> M S unit;
  bpin : nat -> M S unit;
  bunpin : nat -> M S unit;
  buf_data : nat -> S -> mem;
  buf_blockno : nat -> S -> Z;
  set_buf_data : nat -> mem -> S -> S;

  cache_rel : Z -> S -> cache -> Prop;

  rel_ok dev s c : cache_rel dev s c -> cache_ok c;
  bread_law dev blk s c :
    cache_rel dev s c ->
    (forall b, c_held c !! b <> Some blk) ->
    is_Some (c_refs c !! blk) \/ Z.of_nat (size (c_refs c)) < NBUF ->
    default 0 (c_refs c !! blk) < 2 ^ 31 ->
    wp (bread dev blk) (fun b s' => c_held c !! b = None /\ cache_rel dev s' (c_read blk b c)) s;
  data_law dev s c b blk :
    cache_rel dev s c -> c_held c !! b = Some blk ->
    buf_data b s = c_view c blk /\ buf_blockno b s = blk;
  set_data_law dev s c b blk m :
    cache_rel dev s c -> c_held c !! b = Some blk ->
    cache_rel dev (set_buf_data b m s) (c_set blk m c);
  bwrite_law dev s c b blk :
    cache_rel dev s c -> c_held c !! b = Some blk ->
    wp (bwrite b) (fun _ s' => cache_rel dev s' (c_write blk c)) s;
  brelse_law dev s c b blk :
    cache_rel dev s c -> c_held c !! b = Some blk ->
    (c_refs c !! blk = Some 1 -> c_view c blk = c_disk c blk) ->
    wp (brelse b) (fun _ s' => cache_rel dev s' (c_release blk b c)) s;
  bpin_law dev s c b blk :
    cache_rel dev s c -> c_held c !! b = Some blk ->
    default 0 (c_refs c !! blk) < 2 ^ 31 ->
    wp (bpin b) (fun _ s' => cache_rel dev s' (c_pin blk c)) s;
  bunpin_law dev s c b blk :
    cache_rel dev s c -> c_held c !! b = Some blk ->
    1 < default 0 (c_refs c !! blk) ->
    wp (bunpin b) (fun _ s' => cache_rel dev s' (c_unpin blk c)) s
}.

(** ** Reference counts *)

Lemma ref_inc_eq blk r : ref_inc blk r !! blk = Some (default 0 (r !! blk) + 1).
Proof. unfold ref_inc. apply lookup_insert_eq. Qed.

Lemma ref_inc_ne blk k r : k <> blk -> ref_inc blk r !! k = r !! k.
Proof. intros H. unfold ref_inc. apply lookup_insert_ne. congruence. Qed.

Lemma ref_dec_eq blk r n :
  r !! blk = Some n -> ref_dec blk r !! blk = if n =? 1 then None else Some (n - 1).
Proof.
  intros H. unfold ref_dec. rewrite H. case_match; [apply lookup_delete_eq | apply lookup_insert_eq].
Qed.

Lemma ref_dec_ne blk k r : k <> blk -> ref_dec blk r !! k = r !! k.
Proof.
  intros H. unfold ref_dec. destruct (r !! blk) as [n|]; [|reflexivity].
  case_match; [apply lookup_delete_ne | apply lookup_insert_ne]; congruence.
Qed.

(** Taking and dropping a reference is the identity. *)
Lemma ref_dec_inc blk r :
  (forall n, r !! blk = Some n -> 0 < n) -> ref_dec blk (ref_inc blk r) = r.
Proof.
  intros H. apply map_eq. intros k. destruct (decide (k = blk)) as [->|Hne].
  - rewrite (ref_dec_eq _ _ _ (ref_inc_eq blk r)). destruct (r !! blk) as [n|] eqn:E; cbn.
    + specialize (H n eq_refl). replace (n + 1 =? 1) with false by lia. f_equal. lia.
    + reflexivity.
  - rewrite ref_dec_ne, ref_inc_ne by exact Hne. reflexivity.
Qed.

Lemma size_ref_inc blk r :
  size (ref_inc blk r) = (size r + if decide (is_Some (r !! blk)) then 0 else 1)%nat.
Proof.
  unfold ref_inc. rewrite map_size_insert. destruct (r !! blk) eqn:E; cbn; case_decide as Hd.
  - lia.
  - contradict Hd. eauto.
  - destruct Hd as [? Hd]. discriminate.
  - lia.
Qed.
