(* ===== verification/Bio.v ===== *)
(** * The buffer cache: kernel/bio.c, kernel/buf.h

    [struct buf bcache.buf[NBUF]] with the circular list through [head] is an
    array of records indexed by [nat] in which index [HEAD] is [bcache.head].
    The list order is recovered as a functional LRU list ([ring]) and the
    cache as the abstract [cache] of [BufCache]; [bio_cache] discharges the
    class.

    The calls of [virtio_disk_rw] are synchronous block transfers here, and
    every completed write is appended to a history. *)

From S2P Require Import Prelude Memory FsDefs BufCache.

(** ** State *)

Record buf := Buf {
  b_valid : bool;
  b_dev : Z;
  b_blockno : Z;
  b_locked : bool;    (** the sleep-lock, held by the running thread *)
  b_refcnt : Z;
  b_prev : nat;
  b_next : nat;
  b_data : mem
}.

Record bstate := BState {
  bc_lock : bool;
  bc_buf : nat -> buf;
  bd_disk : Z -> mem;
  bd_writes : list (Z * mem)
}.

Definition NBUFn : nat := Z.to_nat NBUF.
Definition HEAD : nat := NBUFn.

Definition set_bc_lock (l : bool) (s : bstate) : bstate :=
  BState l (bc_buf s) (bd_disk s) (bd_writes s).
Definition upd (b : nat) (f : buf -> buf) (s : bstate) : bstate :=
  BState (bc_lock s) (<[b := f (bc_buf s b)]> (bc_buf s)) (bd_disk s) (bd_writes s).

Definition set_valid v x := Buf v (b_dev x) (b_blockno x) (b_locked x) (b_refcnt x) (b_prev x) (b_next x) (b_data x).
Definition set_id d n x := Buf (b_valid x) d n (b_locked x) (b_refcnt x) (b_prev x) (b_next x) (b_data x).
Definition set_locked l x := Buf (b_valid x) (b_dev x) (b_blockno x) l (b_refcnt x) (b_prev x) (b_next x) (b_data x).
Definition set_refcnt r x := Buf (b_valid x) (b_dev x) (b_blockno x) (b_locked x) r (b_prev x) (b_next x) (b_data x).
Definition set_prev p x := Buf (b_valid x) (b_dev x) (b_blockno x) (b_locked x) (b_refcnt x) p (b_next x) (b_data x).
Definition set_next p x := Buf (b_valid x) (b_dev x) (b_blockno x) (b_locked x) (b_refcnt x) (b_prev x) p (b_data x).
Definition set_data m x := Buf (b_valid x) (b_dev x) (b_blockno x) (b_locked x) (b_refcnt x) (b_prev x) (b_next x) m.

(** ** Operations *)

Definition lock_bcache : M bstate unit := acquire bc_lock set_bc_lock.
Definition unlock_bcache : M bstate unit := release bc_lock set_bc_lock.

(** kernel/sleeplock.c for one thread: a lock that is held makes it sleep. *)
Definition acquiresleep (b : nat) : M bstate unit := fun s =>
  if b_locked (bc_buf s b) then Block s else Ret tt (upd b (set_locked true) s).
Definition releasesleep (b : nat) : M bstate unit := modify (upd b (set_locked false)).
Definition holdingsleep (b : nat) : M bstate bool := gets (fun s => b_locked (bc_buf s b)).

(** A block transfer between a buffer and the disk. *)
Definition disk_rw (b : nat) (write : bool) : M bstate unit := fun s =>
  let x := bc_buf s b in
  Ret tt (if write
          then BState (bc_lock s) (bc_buf s) (<[b_blockno x := b_data x]> (bd_disk s))
                 (bd_writes s ++ [(b_blockno x, b_data x)])
          else upd b (set_data (bd_disk s (b_blockno x))) s).

Definition binit_body (b : nat) (s : bstate) : bstate :=
  let s := upd b (set_next (b_next (bc_buf s HEAD))) s in
  let s := upd b (set_prev HEAD) s in
  let s := upd b (set_locked false) s in
  let s := upd (b_next (bc_buf s HEAD)) (set_prev b) s in
  upd HEAD (set_next b) s.
Definition binit : M bstate unit :=
  modify (set_bc_lock false);;
  modify (upd HEAD (set_prev HEAD));;
  modify (upd HEAD (set_next HEAD));;
  modify (fun s => foldl (fun s b => binit_body b s) s (seq 0 NBUFn)).

(** One step of the search of [bget] for a cached block ... *)
Definition bget_hit (dev blockno : Z) (b : nat) : M bstate (nat + option nat) :=
  if decide (b = HEAD) then mret (inr None)
  else
    x ← gets (fun s => bc_buf s b);
    if (b_dev x =? dev) && (b_blockno x =? blockno) then
      modify (upd b (fun x => set_refcnt (u32 (b_refcnt x + 1)) x));;
      unlock_bcache;;
      acquiresleep b;;
      mret (inr (Some b))
    else mret (inl (b_next x)).

(** ... and of its search for a buffer to recycle. *)
Definition bget_recycle (dev blockno : Z) (b : nat) : M bstate (nat + nat) :=
  if decide (b = HEAD) then panic "bget: no buffers"
  else
    x ← gets (fun s => bc_buf s b);
    if b_refcnt x =? 0 then
      modify (upd b (fun x => set_refcnt 1 (set_valid false (set_id dev blockno x))));;
      unlock_bcache;;
      acquiresleep b;;
      mret (inr b)
    else mret (inl (b_prev x)).

Definition bget (dev blockno : Z) : M bstate nat :=
  lock_bcache;;
  first ← gets (fun s => b_next (bc_buf s HEAD));
  hit ← loop (S (S NBUFn)) (bget_hit dev blockno) first;
  match hit with
  | Some b => mret b
  | None =>
      last ← gets (fun s => b_prev (bc_buf s HEAD));
      loop (S (S NBUFn)) (bget_recycle dev blockno) last
  end.

Definition bread (dev blockno : Z) : M bstate nat :=
  b ← bget dev blockno;
  x ← gets (fun s => bc_buf s b);
  when (negb (b_valid x)) (disk_rw b false;; modify (upd b (set_valid true)));;
  mret b.

Definition bwrite (b : nat) : M bstate unit :=
  h ← holdingsleep b;
  panic_if (negb h) "bwrite";;
  disk_rw b true.

(** [b->next->prev = b->prev; ...; bcache.head.next = b;] *)
Definition to_front (b : nat) (s : bstate) : bstate :=
  let s := upd (b_next (bc_buf s b)) (set_prev (b_prev (bc_buf s b))) s in
  let s := upd (b_prev (bc_buf s b)) (set_next (b_next (bc_buf s b))) s in
  let s := upd b (set_next (b_next (bc_buf s HEAD))) s in
  let s := upd b (set_prev HEAD) s in
  let s := upd (b_next (bc_buf s HEAD)) (set_prev b) s in
  upd HEAD (set_next b) s.

Definition brelse (b : nat) : M bstate unit :=
  h ← holdingsleep b;
  panic_if (negb h) "brelse";;
  releasesleep b;;
  lock_bcache;;
  modify (upd b (fun x => set_refcnt (u32 (b_refcnt x - 1)) x));;
  x ← gets (fun s => bc_buf s b);
  when (b_refcnt x =? 0) (modify (to_front b));;
  unlock_bcache.

Definition bpin (b : nat) : M bstate unit :=
  lock_bcache;;
  modify (upd b (fun x => set_refcnt (u32 (b_refcnt x + 1)) x));;
  unlock_bcache.

Definition bunpin (b : nat) : M bstate unit :=
  lock_bcache;;
  modify (upd b (fun x => set_refcnt (u32 (b_refcnt x - 1)) x));;
  unlock_bcache.

(** ** The circular list *)

(** Following [next] from [x] visits [l] and then [y]; [prev] goes back. *)
Fixpoint linked (B : nat -> buf) (x : nat) (l : list nat) (y : nat) : Prop :=
  match l with
  | [] => b_next (B x) = y /\ b_prev (B y) = x
  | a :: l' => b_next (B x) = a /\ b_prev (B a) = x /\ linked B a l' y
  end.

(** The cache's list, most recently used first. *)
Definition ring (B : nat -> buf) (order : list nat) : Prop :=
  linked B HEAD order HEAD /\ order ≡ₚ seq 0 NBUFn.

Lemma linked_app B x l1 b l2 y :
  linked B x (l1 ++ b :: l2) y <-> linked B x l1 b /\ linked B b l2 y.
Proof.
  revert x. induction l1 as [|a l1 IH]; intros x; cbn [linked app]; [tauto|]. rewrite IH. tauto.
Qed.

Lemma linked_ext B B' x l y :
  (forall a, a ∈ x :: l -> b_next (B' a) = b_next (B a)) ->
  (forall a, a ∈ l ++ [y] -> b_prev (B' a) = b_prev (B a)) ->
  linked B x l y -> linked B' x l y.
Proof.
  revert x. induction l as [|a l IH]; intros x Hn Hp; cbn [linked].
  - rewrite Hn, Hp by left. tauto.
  - rewrite Hn, Hp by left. intros (H1 & H2 & H3). split; [exact H1|]. split; [exact H2|].
    apply IH; [| |exact H3].
    + intros c Hc. apply Hn. right. exact Hc.
    + intros c Hc. apply Hp. right. exact Hc.
Qed.

Lemma linked_prev_in B x l y : linked B x l y -> b_prev (B y) ∈ x :: l.
Proof.
  revert x. induction l as [|a l IH]; intros x; cbn [linked].
  - intros [_ ->]. left.
  - intros (_ & _ & H). right. exact (IH a H).
Qed.

Lemma linked_next_in B x l y : linked B x l y -> b_next (B x) ∈ l ++ [y].
Proof. destruct l as [|a l]; cbn; [intros [-> _] | intros (-> & _)]; left. Qed.

(** Taking [b] out: [b->next->prev = b->prev; b->prev->next = b->next]. *)
Lemma linked_unlink B B' x l1 b l2 y :
  linked B x (l1 ++ b :: l2) y -> NoDup (l1 ++ b :: l2) ->
  x ∉ l1 ++ b :: l2 -> y ∉ l1 ++ b :: l2 ->
  (forall a, b_next (B' a) = if decide (a = b_prev (B b)) then b_next (B b) else b_next (B a)) ->
  (forall a, b_prev (B' a) = if decide (a = b_next (B b)) then b_prev (B b) else b_prev (B a)) ->
  linked B' x (l1 ++ l2) y.
Proof.
  intros HL Hnd Hx Hy Hn Hp. revert x HL Hx Hnd.
  induction l1 as [|a l1 IH]; intros x HL Hx Hnd; cbn [app linked] in *.
  - destruct HL as (Hnx & Hpb & HL).
    assert (Hnx' : b_next (B' x) = b_next (B b)) by (rewrite Hn, Hpb; case_decide; congruence).
    destruct l2 as [|c l2]; cbn [linked] in *.
    + destruct HL as [Eb Ey]. rewrite Hnx', Hp, Eb. case_decide; [|congruence]. split; [reflexivity | exact Hpb].
    + destruct HL as (Eb & Ec & HL). split; [congruence|]. rewrite Hp, Eb.
      split; [case_decide; congruence|]. eapply linked_ext; [| |exact HL].
      * intros d Hd. rewrite Hn. case_decide as E; [|reflexivity]. exfalso.
        apply Hx. rewrite Hpb in E. subst d. right. exact Hd.
      * intros d Hd. rewrite Hp. case_decide as E; [|reflexivity]. exfalso. rewrite Eb in E. subst d.
        apply NoDup_cons in Hnd as [_ Hnd]. apply NoDup_cons in Hnd as [Hc _].
        apply elem_of_app in Hd as [Hd|Hd%list_elem_of_singleton]; [contradiction|].
        apply Hy. subst y. right. left.
  - destruct HL as (Hnx & Hpa & HL). pose proof HL as [HL1 HL2]%linked_app.
    apply linked_prev_in in HL1. apply linked_next_in in HL2.
    apply NoDup_cons in Hnd as [Ha Hnd].
    assert (Hxa : b_next (B' x) = a).
    { rewrite Hn. case_decide as E; [|exact Hnx]. exfalso. apply Hx. rewrite E.
      apply elem_of_cons in HL1 as [->|HL1]; [left|]. right. apply elem_of_app. left. exact HL1. }
    assert (Hax : b_prev (B' a) = x).
    { rewrite Hp. case_decide as E; [|exact Hpa]. exfalso. rewrite <- E in HL2.
      apply elem_of_app in HL2 as [HL2|HL2%list_elem_of_singleton].
      - apply Ha. apply elem_of_app. right. right. exact HL2.
      - apply Hy. subst y. left. }
    split; [exact Hxa|]. split; [exact Hax|]. apply IH; [| exact HL | exact Ha | exact Hnd].
    intros Hin. apply Hy. right. exact Hin.
Qed.

(** Putting [b] in behind [x]: the last four stores of [brelse], the body of
    [binit]. *)
Lemma linked_insert B B' x b l y :
  linked B x l y -> b ∉ l -> x ∉ l -> b <> x -> b <> y -> NoDup l -> y ∉ l ->
  (forall a, b_next (B' a) = if decide (a = x) then b else if decide (a = b) then b_next (B x) else b_next (B a)) ->
  (forall a, b_prev (B' a) = if decide (a = b_next (B x)) then b else if decide (a = b) then x else b_prev (B a)) ->
  linked B' x (b :: l) y.
Proof.
  intros HL Hb Hx Hbx Hby Hnd Hyl Hn Hp.
  assert (Hfirst : b_next (B x) <> b).
  { intros E. apply linked_next_in in HL. rewrite E in HL.
    apply elem_of_app in HL as [HL|HL%list_elem_of_singleton]; congruence. }
  cbn [linked]. split; [rewrite Hn; case_decide; congruence|].
  split; [rewrite Hp; repeat case_decide; congruence|].
  destruct l as [|a l]; cbn [linked] in *.
  - destruct HL as [Ex Ey]. rewrite Hn, Hp, Ex. split; repeat case_decide; congruence.
  - destruct HL as (Ex & Ea & HL). split; [rewrite Hn; repeat case_decide; congruence|].
    split; [rewrite Hp; repeat case_decide; congruence|].
    eapply linked_ext; [| |exact HL].
    + intros c Hc. rewrite Hn. repeat case_decide; [| | reflexivity]; subst; exfalso; [apply Hx | apply Hb]; exact Hc.
    + intros c Hc. rewrite Hp, Ex. apply NoDup_cons in Hnd as [Hal _].
      apply elem_of_app in Hc as [Hc|Hc%list_elem_of_singleton]; repeat case_decide; try reflexivity; subst; exfalso.
      * contradiction.
      * apply Hb. right. exact Hc.
      * apply Hyl. left.
      * contradiction.
Qed.

Lemma upd_at b f s a : bc_buf (upd b f s) a = if decide (a = b) then f (bc_buf s b) else bc_buf s a.
Proof.
  cbn. case_decide as E; [subst; apply fn_lookup_insert | apply fn_lookup_insert_ne; congruence].
Qed.

(** Everything in a buffer but its links. *)
Definition payload (x : buf) := (b_valid x, b_dev x, b_blockno x, b_locked x, b_refcnt x, b_data x).

Lemma payload_fields x y :
  payload x = payload y ->
  b_valid x = b_valid y /\ b_dev x = b_dev y /\ b_blockno x = b_blockno y /\
  b_locked x = b_locked y /\ b_refcnt x = b_refcnt y /\ b_data x = b_data y.
Proof. unfold payload. intros [=]. auto 10. Qed.

Lemma upd_field {A} (g : buf -> A) b f s i :
  (forall x, g (f x) = g x) -> g (bc_buf (upd b f s) i) = g (bc_buf s i).
Proof. intros H. rewrite upd_at. case_decide; [subst; apply H | reflexivity]. Qed.

Lemma to_front_payload b s i : payload (bc_buf (to_front b s) i) = payload (bc_buf s i).
Proof. unfold to_front. cbv zeta. rewrite !(upd_field payload) by reflexivity. reflexivity. Qed.

Lemma HEAD_notin order : order ≡ₚ seq 0 NBUFn -> HEAD ∉ order.
Proof. intros ->. rewrite elem_of_seq. unfold HEAD. lia. Qed.

Lemma ring_NoDup order : order ≡ₚ seq 0 NBUFn -> NoDup order.
Proof. intros ->. apply NoDup_seq. Qed.

Lemma ring_ext B B' order :
  (forall a, b_next (B' a) = b_next (B a) /\ b_prev (B' a) = b_prev (B a)) ->
  ring B order -> ring B' order.
Proof.
  intros H [HL HP]. split; [|exact HP]. eapply linked_ext; [| |exact HL]; intros a _; apply H.
Qed.

Lemma push_linked s b l :
  linked (bc_buf s) HEAD l HEAD -> b ∉ l -> HEAD ∉ l -> b <> HEAD -> NoDup l ->
  let s1 := upd b (set_prev HEAD) (upd b (set_next (b_next (bc_buf s HEAD))) s) in
  linked (bc_buf (upd HEAD (set_next b) (upd (b_next (bc_buf s1 HEAD)) (set_prev b) s1)))
    HEAD (b :: l) HEAD.
Proof.
  intros HL Hb Hh Hbh Hnd s1.
  assert (E1 : b_next (bc_buf s1 HEAD) = b_next (bc_buf s HEAD))
    by (unfold s1; rewrite !upd_at; repeat case_decide; congruence).
  rewrite E1. pose proof (linked_next_in _ _ _ _ HL) as Hin.
  apply (linked_insert (bc_buf s)); [exact HL | exact Hb | exact Hh | exact Hbh | exact Hbh | exact Hnd | exact Hh | |];
    intros a; unfold s1; rewrite !upd_at; repeat case_decide; cbn; rewrite ?upd_at; repeat case_decide; cbn;
    congruence.
Qed.

(** The pointer surgery of [brelse] is move-to-front on the list. *)
Lemma to_front_ring b s l1 l2 :
  ring (bc_buf s) (l1 ++ b :: l2) -> ring (bc_buf (to_front b s)) (b :: l1 ++ l2).
Proof.
  intros [HL HP]. pose proof (HEAD_notin _ HP) as Hh. pose proof (ring_NoDup _ HP) as Hnd.
  split; [|rewrite <- HP; apply Permutation_middle].
  assert (Hbh : b <> HEAD) by (intros ->; apply Hh; apply elem_of_app; right; left).
  pose proof HL as [HL1 HL2]%linked_app.
  assert (Hqb : b_next (bc_buf s b) <> b).
  { intros E. apply linked_next_in in HL2. rewrite E in HL2.
    apply NoDup_app in Hnd as (_ & _ & Hnd). apply NoDup_cons in Hnd as [Hnd _].
    apply elem_of_app in HL2 as [?|?%list_elem_of_singleton]; contradiction. }
  unfold to_front. cbv zeta.
  set (s1 := upd (b_next (bc_buf s b)) _ s).
  assert (E1 : bc_buf s1 b = bc_buf s b) by (unfold s1; rewrite upd_at; case_decide; congruence).
  rewrite E1. set (s2 := upd (b_prev (bc_buf s b)) _ s1).
  assert (H2 : linked (bc_buf s2) HEAD (l1 ++ l2) HEAD).
  { apply (linked_unlink (bc_buf s) (bc_buf s2) HEAD l1 b l2 HEAD HL Hnd Hh Hh);
      intros a; unfold s2, s1; rewrite !upd_at; repeat case_decide; subst; cbn; congruence. }
  assert (Hsub : forall c, c ∈ l1 ++ l2 -> c ∈ l1 ++ b :: l2) by (intros c; rewrite !elem_of_app, elem_of_cons; tauto).
  apply NoDup_app in Hnd as (Hn1 & Hn12 & Hn2). apply NoDup_cons in Hn2 as [Hb2 Hn2].
  clearbody s2. apply push_linked; [exact H2 | | | exact Hbh |].
  - rewrite elem_of_app. intros [H|H]; [apply (Hn12 b H); left | contradiction].
  - intros H. apply Hh, Hsub, H.
  - apply NoDup_app. split; [exact Hn1|]. split; [|exact Hn2].
    intros c Hc Hc2. apply (Hn12 c Hc). right. exact Hc2.
Qed.

Lemma binit_body_linked s b l :
  linked (bc_buf s) HEAD l HEAD -> b ∉ l -> HEAD ∉ l -> b <> HEAD -> NoDup l ->
  linked (bc_buf (binit_body b s)) HEAD (b :: l) HEAD.
Proof.
  intros HL Hb Hh Hbh Hnd. pose proof (push_linked s b l HL Hb Hh Hbh Hnd) as H. cbv zeta in H.
  eapply linked_ext; [| | exact H]; intros a _; unfold binit_body; cbv zeta;
    rewrite !upd_at; repeat case_decide; cbn; rewrite ?upd_at; repeat case_decide; cbn; congruence.
Qed.

Lemma binit_body_fields s b i :
  b_valid (bc_buf (binit_body b s) i) = b_valid (bc_buf s i) /\
  b_dev (bc_buf (binit_body b s) i) = b_dev (bc_buf s i) /\
  b_refcnt (bc_buf (binit_body b s) i) = b_refcnt (bc_buf s i) /\
  (b_locked (bc_buf s i) = false -> b_locked (bc_buf (binit_body b s) i) = false) /\
  bc_lock (binit_body b s) = bc_lock s /\ bd_disk (binit_body b s) = bd_disk s /\
  bd_writes (binit_body b s) = bd_writes s.
Proof.
  unfold binit_body. cbv zeta.
  rewrite !(upd_field b_valid), !(upd_field b_dev), !(upd_field b_refcnt) by reflexivity.
  repeat split. rewrite !(upd_field b_locked _ (set_next _)), !(upd_field b_locked _ (set_prev _)) by reflexivity.
  rewrite upd_at. case_decide; [reflexivity|].
  rewrite !(upd_field b_locked _ (set_prev _)), !(upd_field b_locked _ (set_next _)) by reflexivity. auto.
Qed.

(** The boot state of the cache: a zeroed BSS over a disk. *)
Definition buf0 : buf := Buf false 0 0 false 0 0 0 zeroes.
Definition bss (d : Z -> mem) : bstate := BState false (fun _ => buf0) d [].

Lemma binit_fold d n :
  (n <= NBUFn)%nat ->
  let s := foldl (fun s b => binit_body b s)
    (upd HEAD (set_next HEAD) (upd HEAD (set_prev HEAD) (set_bc_lock false (bss d)))) (seq 0 n) in
  linked (bc_buf s) HEAD (rev (seq 0 n)) HEAD /\
  (forall i, b_valid (bc_buf s i) = false /\ b_dev (bc_buf s i) = 0 /\ b_refcnt (bc_buf s i) = 0 /\
     b_locked (bc_buf s i) = false) /\
  bc_lock s = false /\ bd_disk s = d /\ bd_writes s = [].
Proof.
  induction n as [|n IH]; intros Hn; cbv zeta.
  - cbn [seq foldl rev linked]. repeat split; try (rewrite !upd_at; repeat case_decide; reflexivity).
  - rewrite seq_S, foldl_app. destruct (IH ltac:(lia)) as (HL & Hf & Hk & Hd & Hw). clear IH.
    set (s := foldl _ _ (seq 0 n)) in *. cbn [foldl].
    rewrite rev_app_distr. cbn [rev app Nat.add]. split; [|split].
    + apply binit_body_linked; [exact HL | | | unfold HEAD; lia | ].
      * rewrite list_elem_of_In, <- in_rev, <- list_elem_of_In, elem_of_seq. lia.
      * rewrite list_elem_of_In, <- in_rev, <- list_elem_of_In, elem_of_seq. unfold HEAD. lia.
      * apply NoDup_ListNoDup, NoDup_rev, NoDup_ListNoDup, NoDup_seq.
    + intros i. destruct (Hf i) as (F1 & F2 & F3 & F4).
      destruct (binit_body_fields s n i) as (-> & -> & -> & H4 & _). auto.
    + destruct (binit_body_fields s n 0) as (_ & _ & _ & _ & -> & -> & ->). auto.
Qed.

(** ** bget as a search in the LRU list *)

Definition is_block (s : bstate) (dev blockno : Z) (b : nat) : bool :=
  (b_dev (bc_buf s b) =? dev) && (b_blockno (bc_buf s b) =? blockno).
Definition is_unused (s : bstate) (b : nat) : bool := b_refcnt (bc_buf s b) =? 0.

(** Take buffer [b] after the change [f], with its sleep-lock. *)
Definition take_buf (f : buf -> buf) (b : nat) (s : bstate) : outcome bstate nat :=
  let s' := upd b f s in
  if b_locked (f (bc_buf s b)) then Block s' else Ret b (upd b (set_locked true) s').

Definition bget_spec (dev blockno : Z) (order : list nat) (s : bstate) : outcome bstate nat :=
  match find (is_block s dev blockno) order with
  | Some b => take_buf (fun x => set_refcnt (u32 (b_refcnt x + 1)) x) b s
  | None =>
      match find (is_unused s) (rev order) with
      | Some b => take_buf (fun x => set_refcnt 1 (set_valid false (set_id dev blockno x))) b s
      | None => Panic "bget: no buffers"
      end
  end.

Lemma unlock_take {A} (g : nat -> A) f b s :
  bc_lock s = false ->
  (modify (upd b f);; unlock_bcache;; acquiresleep b;; mret (g b)) (set_bc_lock true s) =
  match take_buf f b s with
  | Ret b' s' => Ret (g b') s' | Panic w => Panic w | Block s' => Block s' | OutOfFuel => OutOfFuel
  end.
Proof.
  intros Hl. unfold mbind, M_bind, modify, unlock_bcache, release, acquiresleep, take_buf. cbn.
  destruct s as [lk B d w]. cbn in Hl |- *. subst lk.
  unfold set_bc_lock, upd. cbn. rewrite !fn_lookup_insert.
  destruct (b_locked (f (B b))); reflexivity.
Qed.

Lemma hit_loop s dev blk x l fuel :
  bc_lock s = false -> linked (bc_buf s) x l HEAD -> HEAD ∉ l -> (length l < fuel)%nat ->
  loop fuel (bget_hit dev blk) (b_next (bc_buf s x)) (set_bc_lock true s) =
  match find (is_block s dev blk) l with
  | Some b => match take_buf (fun x => set_refcnt (u32 (b_refcnt x + 1)) x) b s with
              | Ret b' s' => Ret (Some b') s' | Panic w => Panic w
              | Block s' => Block s' | OutOfFuel => OutOfFuel end
  | None => Ret None (set_bc_lock true s)
  end.
Proof.
  intros Hl. revert x fuel. induction l as [|a l IH]; intros x fuel HL Hh Hf; (destruct fuel as [|fuel]; [cbn in Hf; lia|]);
    cbn [linked] in HL; cbn [loop find].
  - destruct HL as [-> _].
    assert (E : bget_hit dev blk HEAD = mret (inr None))
      by (unfold bget_hit; rewrite decide_True by reflexivity; reflexivity).
    rewrite E. reflexivity.
  - destruct HL as (-> & _ & HL). apply not_elem_of_cons in Hh as [Hha Hh].
    pose proof (unlock_take (fun b => inr (Some b) : nat + option nat)
      (fun x => set_refcnt (u32 (b_refcnt x + 1)) x) a s Hl) as Hu.
    assert (E : bget_hit dev blk a (set_bc_lock true s) =
      if is_block s dev blk a then
        match take_buf (fun x => set_refcnt (u32 (b_refcnt x + 1)) x) a s with
        | Ret b' s' => Ret (inr (Some b')) s' | Panic w => Panic w
        | Block s' => Block s' | OutOfFuel => OutOfFuel end
      else Ret (inl (b_next (bc_buf s a))) (set_bc_lock true s)).
    { rewrite <- Hu. unfold bget_hit. rewrite decide_False by congruence. unfold is_block.
      unfold mbind at 1. unfold M_bind at 1, gets at 1. cbn [bc_buf set_bc_lock]. 
      destruct (_ && _); reflexivity. }
    unfold mbind at 1. unfold M_bind at 1. rewrite E. destruct (is_block s dev blk a).
    + destruct (take_buf _ a s); reflexivity.
    + apply (IH a fuel HL Hh). cbn [length] in Hf. lia.
Qed.

Lemma recycle_loop s dev blk y l fuel :
  bc_lock s = false -> linked (bc_buf s) HEAD l y -> HEAD ∉ l -> (length l < fuel)%nat ->
  loop fuel (bget_recycle dev blk) (b_prev (bc_buf s y)) (set_bc_lock true s) =
  match find (is_unused s) (rev l) with
  | Some b => take_buf (fun x => set_refcnt 1 (set_valid false (set_id dev blk x))) b s
  | None => Panic "bget: no buffers"
  end.
Proof.
  intros Hl. revert y fuel. induction l as [|a l IH] using rev_ind; intros y fuel HL Hh Hf;
    (destruct fuel as [|fuel]; [cbn in Hf; lia|]); cbn [loop].
  - destruct HL as [_ ->].
    assert (E : bget_recycle dev blk HEAD = panic "bget: no buffers")
      by (unfold bget_recycle; rewrite decide_True by reflexivity; reflexivity).
    rewrite E. reflexivity.
  - rewrite rev_unit. cbn [find]. apply linked_app in HL as [HL [_ ->]].
    rewrite not_elem_of_app, list_elem_of_singleton in Hh. destruct Hh as [Hh Hha].
    pose proof (unlock_take (fun b => inr b : nat + nat)
      (fun x => set_refcnt 1 (set_valid false (set_id dev blk x))) a s Hl) as Hu.
    assert (E : bget_recycle dev blk a (set_bc_lock true s) =
      if is_unused s a then
        match take_buf (fun x => set_refcnt 1 (set_valid false (set_id dev blk x))) a s with
        | Ret b' s' => Ret (inr b') s' | Panic w => Panic w
        | Block s' => Block s' | OutOfFuel => OutOfFuel end
      else Ret (inl (b_prev (bc_buf s a))) (set_bc_lock true s)).
    { rewrite <- Hu. unfold bget_recycle. rewrite decide_False by congruence. unfold is_unused.
      unfold mbind at 1. unfold M_bind at 1, gets at 1. cbn [bc_buf set_bc_lock]. 
      destruct (_ =? 0); reflexivity. }
    unfold mbind at 1. unfold M_bind at 1. rewrite E. destruct (is_unused s a).
    + destruct (take_buf _ a s); reflexivity.
    + apply (IH a fuel HL Hh). rewrite length_app in Hf. cbn [length] in Hf. lia.
Qed.

Lemma bget_eq dev blk s order :
  bc_lock s = false -> ring (bc_buf s) order -> bget dev blk s = bget_spec dev blk order s.
Proof.
  intros Hl [HL HP]. pose proof (HEAD_notin _ HP) as Hh.
  assert (Hlen : length order = NBUFn) by (rewrite HP; apply length_seq).
  unfold bget, lock_bcache, acquire. unfold mbind at 1. unfold M_bind at 1. rewrite Hl.
  unfold mbind at 1. unfold M_bind at 1, gets at 1. unfold mbind at 1. unfold M_bind at 1.
  change (b_next (bc_buf (set_bc_lock true s) HEAD)) with (b_next (bc_buf s HEAD)).
  rewrite (hit_loop s dev blk HEAD order _ Hl HL Hh) by lia. unfold bget_spec.
  destruct (find (is_block s dev blk) order) as [b|].
  - destruct (take_buf _ b s); reflexivity.
  - unfold mbind, M_bind, gets.
    change (b_prev (bc_buf (set_bc_lock true s) HEAD)) with (b_prev (bc_buf s HEAD)).
    rewrite (recycle_loop s dev blk HEAD order _ Hl HL Hh) by lia. reflexivity.
Qed.

(** ** The abstract cache *)

Record bio_rel (dev : Z) (s : bstate) (c : cache) : Prop := {
  br_lock : bc_lock s = false;
  br_ring : exists order, ring (bc_buf s) order;
  br_dev : dev <> 0;
  br_uniq : forall i j, (i < NBUFn)%nat -> (j < NBUFn)%nat ->
    b_dev (bc_buf s i) = dev -> b_dev (bc_buf s j) = dev ->
    b_blockno (bc_buf s i) = b_blockno (bc_buf s j) -> i = j;
  br_refs : forall i, (i < NBUFn)%nat -> b_refcnt (bc_buf s i) <> 0 ->
    b_dev (bc_buf s i) = dev /\ b_valid (bc_buf s i) = true /\
    c_refs c !! b_blockno (bc_buf s i) = Some (b_refcnt (bc_buf s i));
  br_bufs : forall blk n, c_refs c !! blk = Some n -> 0 < n < 2 ^ 32 /\
    exists i, (i < NBUFn)%nat /\ b_dev (bc_buf s i) = dev /\
    b_blockno (bc_buf s i) = blk /\ b_refcnt (bc_buf s i) = n;
  br_held : forall i, c_held c !! i =
    if decide (i < NBUFn)%nat then
      if b_locked (bc_buf s i) then Some (b_blockno (bc_buf s i)) else None
    else None;
  br_locked : forall i, (i < NBUFn)%nat -> b_locked (bc_buf s i) = true -> b_refcnt (bc_buf s i) <> 0;
  br_data : forall i, (i < NBUFn)%nat -> b_dev (bc_buf s i) = dev -> b_valid (bc_buf s i) = true ->
    b_data (bc_buf s i) = c_view c (b_blockno (bc_buf s i));
  br_clean : forall blk, c_refs c !! blk = None -> c_view c blk = c_disk c blk;
  br_disk : c_disk c = bd_disk s;
  br_writes : c_writes c = bd_writes s
}.

Lemma bio_ok dev s c : bio_rel dev s c -> cache_ok c.
Proof.
  intros R. constructor.
  - intros blk n H. apply (br_bufs _ _ _ R) in H. lia.
  - intros b blk H. rewrite (br_held _ _ _ R) in H. case_decide as Hb; [|discriminate].
    destruct (b_locked (bc_buf s b)) eqn:El; [|discriminate]. injection H as <-.
    destruct (br_refs _ _ _ R b Hb (br_locked _ _ _ R b Hb El)) as (_ & _ & ->). eauto.
  - intros b b' blk H H'. rewrite (br_held _ _ _ R) in H, H'.
    destruct (decide (b < NBUFn)%nat) as [Hb|]; [|discriminate].
    destruct (decide (b' < NBUFn)%nat) as [Hb'|]; [|discriminate].
    destruct (b_locked (bc_buf s b)) eqn:El; [|discriminate].
    destruct (b_locked (bc_buf s b')) eqn:El'; [|discriminate]. injection H as <-. injection H' as E.
    destruct (br_refs _ _ _ R b Hb (br_locked _ _ _ R b Hb El)) as (D & _ & _).
    destruct (br_refs _ _ _ R b' Hb' (br_locked _ _ _ R b' Hb' El')) as (D' & _ & _).
    apply (br_uniq _ _ _ R b b' Hb Hb' D D'). congruence.
  - apply R.
Qed.

Lemma held_buf dev s c b blk :
  bio_rel dev s c -> c_held c !! b = Some blk ->
  (b < NBUFn)%nat /\ b_locked (bc_buf s b) = true /\ b_blockno (bc_buf s b) = blk /\
  b_dev (bc_buf s b) = dev /\ b_valid (bc_buf s b) = true /\ b_data (bc_buf s b) = c_view c blk /\
  c_refs c !! blk = Some (b_refcnt (bc_buf s b)) /\ 0 < b_refcnt (bc_buf s b) < 2 ^ 32.
Proof.
  intros R H. rewrite (br_held _ _ _ R) in H. case_decide as Hb; [|discriminate].
  destruct (b_locked (bc_buf s b)) eqn:El; [|discriminate]. injection H as <-.
  destruct (br_refs _ _ _ R b Hb (br_locked _ _ _ R b Hb El)) as (D & V & Hr).
  repeat split; try assumption; try (apply (br_bufs _ _ _ R) in Hr; lia).
  apply (br_data _ _ _ R b Hb D V).
Qed.

(** [s'] is [s] but for the payload of buffer [b]. *)
Record buf_step (s : bstate) (b : nat) (x : buf) (s' : bstate) : Prop := {
  bs_lock : bc_lock s' = false;
  bs_ring : exists order, ring (bc_buf s') order;
  bs_self : payload (bc_buf s' b) = payload x;
  bs_rest : forall i, i <> b -> payload (bc_buf s' i) = payload (bc_buf s i)
}.

Lemma buf_step_field {A} (g : buf -> A) s b x s' i :
  (forall y z, payload y = payload z -> g y = g z) -> buf_step s b x s' ->
  g (bc_buf s' i) = if decide (i = b) then g x else g (bc_buf s i).
Proof.
  intros Hg H. case_decide as E; apply Hg; [subst i; apply H | apply (bs_rest _ _ _ _ H); exact E].
Qed.

(** Rewrite the fields of the new state. *)
Ltac step_fields H :=
  rewrite ?(buf_step_field b_valid _ _ _ _ _ (fun y z E => proj1 (payload_fields y z E)) H),
    ?(buf_step_field b_dev _ _ _ _ _ (fun y z E => proj1 (proj2 (payload_fields y z E))) H),
    ?(buf_step_field b_blockno _ _ _ _ _ (fun y z E => proj1 (proj2 (proj2 (payload_fields y z E)))) H),
    ?(buf_step_field b_locked _ _ _ _ _ (fun y z E => proj1 (proj2 (proj2 (proj2 (payload_fields y z E))))) H),
    ?(buf_step_field b_refcnt _ _ _ _ _ (fun y z E => proj1 (proj2 (proj2 (proj2 (proj2 (payload_fields y z E)))))) H),
    ?(buf_step_field b_data _ _ _ _ _ (fun y z E => proj2 (proj2 (proj2 (proj2 (proj2 (payload_fields y z E)))))) H).

(** A change of buffer [b], which keeps the block [blk] or takes it over. *)
Lemma bio_rel_step dev s c b blk x s' c' :
  bio_rel dev s c -> (b < NBUFn)%nat -> buf_step s b x s' ->
  b_dev x = dev -> b_blockno x = blk -> b_valid x = true ->
  (b_refcnt (bc_buf s b) = 0 /\ c_refs c !! blk = None \/
   b_dev (bc_buf s b) = dev /\ b_blockno (bc_buf s b) = blk) ->
  (forall i, (i < NBUFn)%nat -> i <> b -> b_dev (bc_buf s i) = dev -> b_blockno (bc_buf s i) <> blk) ->
  (forall k, k <> blk -> c_refs c' !! k = c_refs c !! k) ->
  c_refs c' !! blk = (if b_refcnt x =? 0 then None else Some (b_refcnt x)) -> 0 <= b_refcnt x < 2 ^ 32 ->
  c_held c' = (if b_locked x then <[b := blk]> (c_held c) else delete b (c_held c)) ->
  (b_locked x = true -> b_refcnt x <> 0) ->
  c_view c' = <[blk := b_data x]> (c_view c) ->
  (b_refcnt x = 0 -> b_data x = c_disk c' blk) ->
  c_disk c' = bd_disk s' -> c_writes c' = bd_writes s' ->
  (forall k, k <> blk -> c_disk c' k = c_disk c k) ->
  bio_rel dev s' c'.
Proof.
  intros R Hb Hst Hd Hk Hv Hown Hno Hrn Hrb Hr Hh Hl Hvw Hcl Hdk Hw Hdn.
  constructor; [apply Hst | apply Hst | apply R | ..]; try assumption.
  - intros i j Hi Hj. step_fields Hst. repeat case_decide; subst; try congruence.
    + intros _ Dj Ek. exfalso. apply (Hno j Hj ltac:(congruence) Dj). congruence.
    + intros Di _ Ek. exfalso. apply (Hno i Hi ltac:(congruence) Di). congruence.
    + apply (br_uniq _ _ _ R); assumption.
  - intros i Hi. step_fields Hst. case_decide as E.
    + intros Hn. split; [exact Hd|]. split; [exact Hv|]. rewrite Hk, Hrb.
      replace (b_refcnt x =? 0) with false by lia. reflexivity.
    + intros Hn. destruct (br_refs _ _ _ R i Hi Hn) as (D & V & Er).
      split; [exact D|]. split; [exact V|]. rewrite Hrn; [exact Er|]. apply (Hno i Hi E D).
  - intros k n. destruct (decide (k = blk)) as [->|Hne].
    + rewrite Hrb. destruct (b_refcnt x =? 0) eqn:E0; [discriminate|]. intros [= <-].
      split; [lia|]. exists b. step_fields Hst. rewrite !decide_True by reflexivity. auto.
    + rewrite Hrn by exact Hne. intros H.
      destruct (br_bufs _ _ _ R k n H) as (Hn & i & Hi & D & Ek & Er). split; [exact Hn|].
      exists i. split; [exact Hi|]. assert (Hib : i <> b).
      { intros ->. destruct Hown as [[E0 _]|[_ E]]; [lia | congruence]. }
      step_fields Hst. rewrite !decide_False by exact Hib. auto.
  - intros i. step_fields Hst. rewrite Hh. destruct (decide (i = b)) as [->|Hne].
    + rewrite decide_True by exact Hb. rewrite Hk.
      destruct (b_locked x); [apply lookup_insert_eq | apply lookup_delete_eq].
    + rewrite <- (br_held _ _ _ R i).
      destruct (b_locked x); [apply lookup_insert_ne | apply lookup_delete_ne]; congruence.
  - intros i Hi. step_fields Hst. case_decide; [exact Hl | apply (br_locked _ _ _ R i Hi)].
  - intros i Hi. step_fields Hst. rewrite Hvw. case_decide as E.
    + intros _ _. rewrite Hk, fn_lookup_insert. reflexivity.
    + intros D V. rewrite fn_lookup_insert_ne by (intros E'; exact (Hno i Hi E D (eq_sym E'))).
      apply (br_data _ _ _ R i Hi D V).
  - intros k. rewrite Hvw. destruct (decide (k = blk)) as [->|Hne].
    + rewrite Hrb, fn_lookup_insert. destruct (b_refcnt x =? 0) eqn:E0; [|discriminate].
      intros _. apply Hcl. lia.
    + rewrite Hrn, fn_lookup_insert_ne, Hdn by congruence. apply (br_clean _ _ _ R).
Qed.

Lemma upd_upd b f g s : upd b g (upd b f s) = upd b (fun x => g (f x)) s.
Proof.
  unfold upd. cbn. f_equal. apply functional_extensionality. intros i.
  rewrite fn_lookup_insert. destruct (decide (i = b)) as [->|Hne].
  - rewrite !fn_lookup_insert. reflexivity.
  - rewrite !fn_lookup_insert_ne by congruence. reflexivity.
Qed.

Lemma buf_step_upd dev s c b f :
  bio_rel dev s c -> (forall x, b_next (f x) = b_next x /\ b_prev (f x) = b_prev x) ->
  buf_step s b (f (bc_buf s b)) (upd b f s).
Proof.
  intros R Hf. constructor.
  - apply R.
  - destruct (br_ring _ _ _ R) as [order Ho]. exists order. eapply ring_ext; [|exact Ho].
    intros a. rewrite upd_at. case_decide; [subst; apply Hf | auto].
  - rewrite upd_at, decide_True by reflexivity. reflexivity.
  - intros i Hi. rewrite upd_at, decide_False by exact Hi. reflexivity.
Qed.

Lemma block_refs dev s c b :
  bio_rel dev s c -> (b < NBUFn)%nat -> b_dev (bc_buf s b) = dev ->
  c_refs c !! b_blockno (bc_buf s b) =
    (if b_refcnt (bc_buf s b) =? 0 then None else Some (b_refcnt (bc_buf s b))) /\
  0 <= b_refcnt (bc_buf s b) < 2 ^ 32.
Proof.
  intros R Hb D. destruct (Z.eqb_spec (b_refcnt (bc_buf s b)) 0) as [E|E].
  - split; [|lia]. destruct (c_refs c !! _) as [n|] eqn:H; [|reflexivity].
    destruct (br_bufs _ _ _ R _ _ H) as (Hn & i & Hi & Di & Ei & Er).
    assert (i = b) by (apply (br_uniq _ _ _ R); auto). subst i. lia.
  - destruct (br_refs _ _ _ R b Hb E) as (_ & _ & H). split; [exact H|].
    apply (br_bufs _ _ _ R) in H. lia.
Qed.

Lemma others_differ dev s c b :
  bio_rel dev s c -> (b < NBUFn)%nat -> b_dev (bc_buf s b) = dev ->
  forall i, (i < NBUFn)%nat -> i <> b -> b_dev (bc_buf s i) = dev ->
  b_blockno (bc_buf s i) <> b_blockno (bc_buf s b).
Proof. intros R Hb D i Hi Hne Di E. apply Hne. apply (br_uniq _ _ _ R); assumption. Qed.

Lemma in_order order b : order ≡ₚ seq 0 NBUFn -> In b order <-> (b < NBUFn)%nat.
Proof. intros H. rewrite <- list_elem_of_In, H, elem_of_seq. lia. Qed.

(** Not every buffer can be referenced when fewer than [NBUF] blocks are. *)
Lemma unused_exists dev s c order :
  bio_rel dev s c -> order ≡ₚ seq 0 NBUFn -> Z.of_nat (size (c_refs c)) < NBUF ->
  exists b, find (is_unused s) (rev order) = Some b.
Proof.
  intros R HP Hsz. destruct (find (is_unused s) (rev order)) as [b|] eqn:E; [eauto|]. exfalso.
  assert (Hall : forall i, (i < NBUFn)%nat -> b_refcnt (bc_buf s i) <> 0).
  { intros i Hi. pose proof (find_none _ _ E i) as Hn. unfold is_unused in Hn.
    rewrite <- in_rev, (in_order _ _ HP) in Hn. specialize (Hn Hi). lia. }
  set (bs := (fun i => b_blockno (bc_buf s i)) <$> seq 0 NBUFn).
  assert (Hnd : NoDup bs).
  { apply NoDup_fmap_2_strong; [|apply NoDup_seq]. intros i j Hi%elem_of_seq Hj%elem_of_seq Eij.
    assert (Hi' : (i < NBUFn)%nat) by lia. assert (Hj' : (j < NBUFn)%nat) by lia.
    apply (br_uniq _ _ _ R i j Hi' Hj'); [apply (br_refs _ _ _ R); auto | apply (br_refs _ _ _ R); auto | exact Eij]. }
  assert (Hsub : list_to_set bs ⊆ dom (c_refs c)).
  { intros k Hk. apply elem_of_list_to_set, list_elem_of_fmap in Hk as (i & -> & Hi%elem_of_seq).
    apply elem_of_dom. assert (Hi' : (i < NBUFn)%nat) by lia.
    destruct (br_refs _ _ _ R i Hi' (Hall i Hi')) as (_ & _ & ->). eauto. }
  apply subseteq_size in Hsub. rewrite size_list_to_set, size_dom in Hsub by exact Hnd.
  unfold bs in Hsub. rewrite length_fmap, length_seq in Hsub. unfold NBUFn in Hsub. lia.
Qed.

(** What [bread] does to the buffer [bget] chose. *)
Definition fetched (d : Z -> mem) (y : buf) : buf :=
  if b_valid y then y else set_valid true (set_data (d (b_blockno y)) y).

Lemma fetched_field {A} (g : buf -> A) d y :
  (forall v m z, g (set_valid v (set_data m z)) = g z) -> g (fetched d y) = g y.
Proof. intros H. unfold fetched. destruct (b_valid y); [reflexivity | apply H]. Qed.

Lemma fetched_valid d y : b_valid (fetched d y) = true.
Proof. unfold fetched. destruct (b_valid y) eqn:V; [exact V | reflexivity]. Qed.

Lemma fetched_data d y : b_data (fetched d y) = if b_valid y then b_data y else d (b_blockno y).
Proof. unfold fetched. destruct (b_valid y); reflexivity. Qed.

Lemma bread_eq dev blk s order :
  bc_lock s = false -> ring (bc_buf s) order ->
  bread dev blk s =
  match bget_spec dev blk order s with
  | Ret b s' => Ret b (upd b (fetched (bd_disk s')) s')
  | r => r
  end.
Proof.
  intros Hl Ho. unfold bread. unfold mbind at 1. unfold M_bind at 1. rewrite (bget_eq _ _ _ _ Hl Ho).
  destruct (bget_spec dev blk order s) as [b s'| | |]; try reflexivity.
  unfold mbind, M_bind, gets, when, fetched, mret, M_ret.
  assert (Hid : forall f, f (bc_buf s' b) = bc_buf s' b -> upd b f s' = s').
  { intros f Hf. destruct s' as [lk B d w]. unfold upd. cbn in *. f_equal.
    apply functional_extensionality. intros i. rewrite Hf.
    destruct (decide (i = b)) as [->|]; [apply fn_lookup_insert | apply fn_lookup_insert_ne; congruence]. }
  destruct (b_valid (bc_buf s' b)) eqn:V.
  - cbn [negb]. rewrite Hid; [reflexivity|]. rewrite V. reflexivity.
  - cbn [negb disk_rw modify]. rewrite upd_upd. f_equal. unfold upd. f_equal. rewrite V. reflexivity.
Qed.

(** Taking a buffer as block [blk]. *)
Lemma bio_take dev blk s c b f :
  bio_rel dev s c -> (b < NBUFn)%nat ->
  (forall x, b_next (f x) = b_next x /\ b_prev (f x) = b_prev x) ->
  let x := f (bc_buf s b) in
  b_dev x = dev -> b_blockno x = blk -> b_valid x = true -> b_locked x = true ->
  b_refcnt x = default 0 (c_refs c !! blk) + 1 -> b_refcnt x < 2 ^ 32 -> b_data x = c_view c blk ->
  (b_refcnt (bc_buf s b) = 0 /\ c_refs c !! blk = None \/
   b_dev (bc_buf s b) = dev /\ b_blockno (bc_buf s b) = blk) ->
  (forall i, (i < NBUFn)%nat -> i <> b -> b_dev (bc_buf s i) = dev -> b_blockno (bc_buf s i) <> blk) ->
  bio_rel dev (upd b f s) (c_read blk b c).
Proof.
  intros R Hb Hf x Hd Hk Hv Hl Hr Hr2 Hda Hown Hno.
  assert (H0 : 0 <= default 0 (c_refs c !! blk)).
  { destruct (c_refs c !! blk) as [n|] eqn:E; cbn; [apply (br_bufs _ _ _ R) in E; lia | lia]. }
  eapply (bio_rel_step dev s c b blk x); try eassumption; cbn [c_read c_refs c_held c_view c_disk c_writes].
  - apply (buf_step_upd dev s c b f R Hf).
  - intros k Hne. apply ref_inc_ne. exact Hne.
  - rewrite ref_inc_eq, Hr. replace (_ =? 0) with false by lia. reflexivity.
  - lia.
  - rewrite Hl. reflexivity.
  - lia.
  - rewrite Hda. apply functional_extensionality. intros k.
    destruct (decide (k = blk)) as [->|]; [rewrite fn_lookup_insert | rewrite fn_lookup_insert_ne]; congruence.
  - lia.
  - apply R.
  - apply R.
  - reflexivity.
Qed.

Lemma bread_wp dev blk s c :
  bio_rel dev s c -> (forall b, c_held c !! b <> Some blk) ->
  is_Some (c_refs c !! blk) \/ Z.of_nat (size (c_refs c)) < NBUF ->
  default 0 (c_refs c !! blk) < 2 ^ 31 ->
  wp (bread dev blk) (fun b s' => c_held c !! b = None /\ bio_rel dev s' (c_read blk b c)) s.
Proof.
  intros R Hnh Hroom Hmax. destruct (br_ring _ _ _ R) as [order Ho]. pose proof Ho as [_ HP].
  unfold wp. rewrite (bread_eq _ _ _ _ (br_lock _ _ _ R) Ho). unfold bget_spec.
  destruct (find (is_block s dev blk) order) as [b|] eqn:Ef.
  - apply find_some in Ef as [Hb Eid]. apply (in_order _ _ HP) in Hb.
    apply andb_prop in Eid as [D%Z.eqb_eq K%Z.eqb_eq].
    destruct (block_refs dev s c b R Hb D) as [Hr Hrb]. rewrite K in Hr.
    pose proof (Hnh b) as Hl. rewrite (br_held _ _ _ R), decide_True, K in Hl by exact Hb.
    destruct (b_locked (bc_buf s b)) eqn:El; [congruence|].
    unfold take_buf. cbn [b_locked set_refcnt]. rewrite El, !upd_upd.
    split; [rewrite (br_held _ _ _ R), decide_True, El by exact Hb; reflexivity|].
    assert (Hdef : default 0 (c_refs c !! blk) = b_refcnt (bc_buf s b)) by (rewrite Hr; case_match; cbn; lia).
    eapply bio_take; try eassumption.
    + intros x. split; (rewrite fetched_field by reflexivity; reflexivity).
    + rewrite fetched_field by reflexivity. exact D.
    + rewrite fetched_field by reflexivity. exact K.
    + apply fetched_valid.
    + rewrite fetched_field by reflexivity. reflexivity.
    + rewrite fetched_field by reflexivity. cbn. rewrite Hdef. apply u32_small. lia.
    + rewrite fetched_field by reflexivity. cbn. rewrite u32_small; lia.
    + rewrite fetched_data. cbn.
      destruct (b_valid (bc_buf s b)) eqn:V.
      * rewrite <- K. apply (br_data _ _ _ R b Hb D V).
      * rewrite K, (br_clean _ _ _ R), (br_disk _ _ _ R); [reflexivity|]. rewrite Hr.
        destruct (Z.eqb_spec (b_refcnt (bc_buf s b)) 0) as [|E]; [reflexivity|].
        apply (br_refs _ _ _ R b Hb) in E. destruct E as (_ & E & _). congruence.
    + right. auto.
    + rewrite <- K. apply (others_differ dev s c b R Hb D).
  - assert (Hno : forall i, (i < NBUFn)%nat -> b_dev (bc_buf s i) = dev -> b_blockno (bc_buf s i) <> blk).
    { intros i Hi D K. pose proof (find_none _ _ Ef i (proj2 (in_order _ _ HP) Hi)) as E.
      unfold is_block in E. lia. }
    assert (Hnone : c_refs c !! blk = None).
    { destruct (c_refs c !! blk) as [n|] eqn:E; [|reflexivity].
      destruct (br_bufs _ _ _ R _ _ E) as (_ & i & Hi & D & K & _). destruct (Hno i Hi D K). }
    destruct (unused_exists dev s c order R HP) as [b Eb].
    { destruct Hroom as [[n Hn]|H]; [congruence | exact H]. }
    rewrite Eb. apply find_some in Eb as [Hb E0]. rewrite <- in_rev in Hb. apply (in_order _ _ HP) in Hb.
    unfold is_unused in E0. apply Z.eqb_eq in E0.
    assert (El : b_locked (bc_buf s b) = false).
    { destruct (b_locked (bc_buf s b)) eqn:El; [|reflexivity]. destruct (br_locked _ _ _ R b Hb El E0). }
    unfold take_buf. cbn [b_locked set_refcnt set_valid set_id]. rewrite El, !upd_upd.
    split; [rewrite (br_held _ _ _ R), decide_True, El by exact Hb; reflexivity|].
    eapply bio_take; try eassumption; try reflexivity.
    + intros x. split; (rewrite fetched_field by reflexivity; reflexivity).
    + cbn. rewrite Hnone. reflexivity.
    + cbn. rewrite (br_clean _ _ _ R _ Hnone), (br_disk _ _ _ R). reflexivity.
    + left. auto.
    + intros i Hi _. apply Hno. exact Hi.
Qed.

(** A change of a held buffer that keeps its identity. *)
Lemma bio_held_step dev s c b blk x s' c' :
  bio_rel dev s c -> c_held c !! b = Some blk -> buf_step s b x s' ->
  b_dev x = dev -> b_blockno x = blk -> b_valid x = true ->
  (forall k, k <> blk -> c_refs c' !! k = c_refs c !! k) ->
  c_refs c' !! blk = (if b_refcnt x =? 0 then None else Some (b_refcnt x)) -> 0 <= b_refcnt x < 2 ^ 32 ->
  c_held c' = (if b_locked x then <[b := blk]> (c_held c) else delete b (c_held c)) ->
  (b_locked x = true -> b_refcnt x <> 0) ->
  c_view c' = <[blk := b_data x]> (c_view c) ->
  (b_refcnt x = 0 -> b_data x = c_disk c' blk) ->
  c_disk c' = bd_disk s' -> c_writes c' = bd_writes s' ->
  (forall k, k <> blk -> c_disk c' k = c_disk c k) ->
  bio_rel dev s' c'.
Proof.
  intros R Hh Hst. destruct (held_buf dev s c b blk R Hh) as (Hb & _ & K & D & _).
  intros. eapply (bio_rel_step dev s c b blk x); try eassumption; [right; auto|].
  rewrite <- K. apply (others_differ dev s c b R Hb D).
Qed.

Lemma fn_insert_id (f : Z -> mem) k : <[k := f k]> f = f.
Proof.
  apply functional_extensionality. intros i.
  destruct (decide (i = k)) as [->|]; [apply fn_lookup_insert | apply fn_lookup_insert_ne; congruence].
Qed.

Lemma set_data_rel dev s c b blk m :
  bio_rel dev s c -> c_held c !! b = Some blk ->
  bio_rel dev (upd b (set_data m) s) (c_set blk m c).
Proof.
  intros R Hh. pose proof (held_buf dev s c b blk R Hh) as (Hb & L & K & D & V & Hd & Hr & Hrb).
  eapply (bio_held_step dev s c b blk _ _ _ R Hh (buf_step_upd dev s c b (set_data m) R (fun _ => conj eq_refl eq_refl)));
    cbn; try assumption; try lia; try reflexivity; try apply R.
  - rewrite Hr. replace (_ =? 0) with false by lia. reflexivity.
  - rewrite L. symmetry. apply insert_id. exact Hh.
Qed.

Lemma bwrite_wp dev s c b blk :
  bio_rel dev s c -> c_held c !! b = Some blk ->
  wp (bwrite b) (fun _ s' => bio_rel dev s' (c_write blk c)) s.
Proof.
  intros R Hh. pose proof (held_buf dev s c b blk R Hh) as (Hb & L & K & D & V & Hd & Hr & Hrb).
  unfold bwrite, holdingsleep. wp_steps. apply wp_panic_if; [rewrite L; reflexivity|].
  unfold wp, disk_rw. rewrite K, Hd.
  eapply (bio_held_step dev s c b blk (bc_buf s b) _ _ R Hh); cbn; try assumption; try lia; try reflexivity.
  - constructor; [apply R | apply R | reflexivity | reflexivity].
  - rewrite Hr. replace (_ =? 0) with false by lia. reflexivity.
  - rewrite L. symmetry. apply insert_id. exact Hh.
  - rewrite Hd. symmetry. apply fn_insert_id.
  - rewrite (br_disk _ _ _ R). reflexivity.
  - rewrite (br_writes _ _ _ R). reflexivity.
  - intros k Hne. apply fn_lookup_insert_ne. congruence.
Qed.

Lemma refcnt_wp dev s c b blk f c' :
  bio_rel dev s c -> c_held c !! b = Some blk -> 0 < f (b_refcnt (bc_buf s b)) < 2 ^ 32 ->
  c' = Cache (c_disk c) (c_view c) (<[blk := f (b_refcnt (bc_buf s b))]> (c_refs c)) (c_held c) (c_writes c) ->
  wp (lock_bcache;; modify (upd b (fun x => set_refcnt (f (b_refcnt x)) x));; unlock_bcache)
    (fun _ s' => bio_rel dev s' c') s.
Proof.
  intros R Hh Hf ->. pose proof (held_buf dev s c b blk R Hh) as (Hb & L & K & D & V & Hd & Hr & Hrb).
  unfold lock_bcache, unlock_bcache. wp_steps. apply wp_acquire; [apply R|]. wp_steps.
  apply wp_release; [reflexivity|].
  set (g := fun x => set_refcnt (f (b_refcnt x)) x).
  replace (set_bc_lock false _) with (upd b g s).
  2:{ pose proof (br_lock _ _ _ R) as Hl. destruct s. cbn in *. subst. reflexivity. }
  eapply (bio_held_step dev s c b blk _ _ _ R Hh (buf_step_upd dev s c b g R (fun _ => conj eq_refl eq_refl)));
    cbn; try assumption; try lia; try reflexivity; try apply R.
  - intros k Hne. apply lookup_insert_ne. congruence.
  - rewrite lookup_insert_eq. replace (_ =? 0) with false by lia. reflexivity.
  - rewrite L. symmetry. apply insert_id. exact Hh.
  - rewrite Hd. symmetry. apply fn_insert_id.
Qed.

Lemma bpin_wp dev s c b blk :
  bio_rel dev s c -> c_held c !! b = Some blk -> default 0 (c_refs c !! blk) < 2 ^ 31 ->
  wp (bpin b) (fun _ s' => bio_rel dev s' (c_pin blk c)) s.
Proof.
  intros R Hh Hm. pose proof (held_buf dev s c b blk R Hh) as (_ & _ & _ & _ & _ & _ & Hr & Hrb).
  rewrite Hr in Hm. cbn in Hm.
  apply (refcnt_wp dev s c b blk (fun r => u32 (r + 1)) (c_pin blk c) R Hh).
  - rewrite u32_small; lia.
  - unfold c_pin, ref_inc. rewrite Hr. cbn [default]. rewrite u32_small by lia. reflexivity.
Qed.

Lemma bunpin_wp dev s c b blk :
  bio_rel dev s c -> c_held c !! b = Some blk -> 1 < default 0 (c_refs c !! blk) ->
  wp (bunpin b) (fun _ s' => bio_rel dev s' (c_unpin blk c)) s.
Proof.
  intros R Hh Hm. pose proof (held_buf dev s c b blk R Hh) as (_ & _ & _ & _ & _ & _ & Hr & Hrb).
  rewrite Hr in Hm. cbn in Hm.
  apply (refcnt_wp dev s c b blk (fun r => u32 (r - 1)) (c_unpin blk c) R Hh).
  - rewrite u32_small; lia.
  - unfold c_unpin, ref_dec. rewrite Hr. replace (_ =? 1) with false by lia.
    rewrite u32_small by lia. reflexivity.
Qed.

(** [brelse] on the LRU list: the buffer moves to the front when its last
    reference goes. *)
Definition lru_release (unused : bool) (b : nat) (order : list nat) : list nat :=
  if unused then b :: filter (.≠ b) order else order.

Lemma filter_ne_id (b : nat) (l : list nat) : b ∉ l -> filter (.≠ b) l = l.
Proof.
  induction l as [|a l IH]; [reflexivity|]. intros [Ha Hl]%not_elem_of_cons.
  rewrite filter_cons_True by congruence. rewrite IH by exact Hl. reflexivity.
Qed.

Lemma filter_ne_split (b : nat) (l1 l2 : list nat) :
  b ∉ l1 -> b ∉ l2 -> filter (.≠ b) (l1 ++ b :: l2) = l1 ++ l2.
Proof.
  intros H1 H2. rewrite filter_app, filter_cons_False by (intros H; apply H; reflexivity).
  rewrite !filter_ne_id by assumption. reflexivity.
Qed.

Lemma brelse_eq b s order :
  bc_lock s = false -> ring (bc_buf s) order -> (b < NBUFn)%nat -> b_locked (bc_buf s b) = true ->
  exists s', brelse b s = Ret tt s' /\
  ring (bc_buf s') (lru_release (u32 (b_refcnt (bc_buf s b) - 1) =? 0) b order) /\
  bc_lock s' = false /\ bd_disk s' = bd_disk s /\ bd_writes s' = bd_writes s /\
  payload (bc_buf s' b) =
    payload (set_refcnt (u32 (b_refcnt (bc_buf s b) - 1)) (set_locked false (bc_buf s b))) /\
  forall i, i <> b -> payload (bc_buf s' i) = payload (bc_buf s i).
Proof.
  intros Hl Ho Hb L.
  set (f := fun x => set_refcnt (u32 (b_refcnt x - 1)) (set_locked false x)).
  set (s1 := upd b f s).
  assert (Hself : bc_buf s1 b = f (bc_buf s b)) by (unfold s1; rewrite upd_at, decide_True by reflexivity; reflexivity).
  assert (Hrest : forall i, i <> b -> payload (bc_buf s1 i) = payload (bc_buf s i))
    by (intros i Hi; unfold s1; rewrite upd_at, decide_False by exact Hi; reflexivity).
  assert (Ho1 : ring (bc_buf s1) order).
  { eapply ring_ext; [|exact Ho]. intros a. unfold s1. rewrite upd_at. case_decide; [subst|]; auto. }
  exists (if u32 (b_refcnt (bc_buf s b) - 1) =? 0 then to_front b s1 else s1). split.
  { unfold brelse, holdingsleep, releasesleep, lock_bcache, unlock_bcache, acquire, release, when, panic_if,
      mbind, M_bind, gets, modify, mret, M_ret. rewrite L. cbn [negb].
    change (bc_lock (upd b (set_locked false) s)) with (bc_lock s). rewrite Hl.
    change (upd b ?g (set_bc_lock true ?t)) with (set_bc_lock true (upd b g t)). rewrite upd_upd.
    change (upd b _ s) with s1.
    change (bc_buf (set_bc_lock true s1) b) with (bc_buf s1 b). rewrite Hself.
    change (b_refcnt (f (bc_buf s b))) with (u32 (b_refcnt (bc_buf s b) - 1)).
    destruct (_ =? 0); clear -Hl; destruct s; cbn in *; subst; reflexivity. }
  pose proof Ho as [_ HP].
  destruct (u32 (b_refcnt (bc_buf s b) - 1) =? 0) eqn:E0; cbn [lru_release].
  - split; [|split; [exact Hl|split; [reflexivity|split; [reflexivity|split]]]].
    + assert (Hin : b ∈ order) by (rewrite HP, elem_of_seq; lia).
      apply list_elem_of_split in Hin as (l1 & l2 & ->).
      pose proof (ring_NoDup _ HP) as (_ & Hd & [Hb2 _]%NoDup_cons)%NoDup_app.
      rewrite filter_ne_split; [| intros H; apply (Hd b H); left | exact Hb2].
      apply to_front_ring. exact Ho1.
    + rewrite to_front_payload, Hself. reflexivity.
    + intros i Hi. rewrite to_front_payload. apply Hrest, Hi.
  - split; [exact Ho1|]. rewrite Hself. repeat split; auto.
Qed.

Lemma brelse_wp dev s c b blk :
  bio_rel dev s c -> c_held c !! b = Some blk ->
  (c_refs c !! blk = Some 1 -> c_view c blk = c_disk c blk) ->
  wp (brelse b) (fun _ s' => bio_rel dev s' (c_release blk b c)) s.
Proof.
  intros R Hh Hcl. pose proof (held_buf dev s c b blk R Hh) as (Hb & L & K & D & V & Hd & Hr & Hrb).
  destruct (br_ring _ _ _ R) as [order Ho].
  destruct (brelse_eq b s order (br_lock _ _ _ R) Ho Hb L) as (s' & E & Ho' & Hl' & Hdk & Hw & Hself & Hrest).
  unfold wp. rewrite E.
  set (x := set_refcnt (u32 (b_refcnt (bc_buf s b) - 1)) (set_locked false (bc_buf s b))) in *.
  assert (Hx : b_refcnt x = b_refcnt (bc_buf s b) - 1) by (cbn; apply u32_small; lia).
  eapply (bio_held_step dev s c b blk x s' _ R Hh); try assumption; cbn [c_release c_refs c_held c_view c_disk c_writes].
  - constructor; [exact Hl' | eexists; exact Ho' | exact Hself | exact Hrest].
  - intros k Hne. apply ref_dec_ne. exact Hne.
  - rewrite (ref_dec_eq _ _ _ Hr), Hx. repeat case_match; try reflexivity; exfalso; lia.
  - rewrite Hx. lia.
  - reflexivity.
  - discriminate.
  - change (b_data x) with (b_data (bc_buf s b)). rewrite Hd. symmetry. apply fn_insert_id.
  - change (b_data x) with (b_data (bc_buf s b)). rewrite Hd, Hx. intros E0. apply Hcl. rewrite Hr. f_equal. lia.
  - rewrite Hdk. apply R.
  - rewrite Hw. apply R.
  - reflexivity.
Qed.

Lemma held_data dev s c b blk :
  bio_rel dev s c -> c_held c !! b = Some blk ->
  b_data (bc_buf s b) = c_view c blk /\ b_blockno (bc_buf s b) = blk.
Proof.
  intros R Hh. pose proof (held_buf dev s c b blk R Hh) as (_ & _ & K & _ & _ & Hd & _). auto.
Qed.

#[export] Instance bio_cache : BufCache bstate := {
  BufCache.bread := bread;
  BufCache.bwrite := bwrite;
  BufCache.brelse := brelse;
  BufCache.bpin := bpin;
  BufCache.bunpin := bunpin;
  buf_data b s := b_data (bc_buf s b);
  buf_blockno b s := b_blockno (bc_buf s b);
  set_buf_data b m := upd b (set_data m);
  cache_rel := bio_rel;
  rel_ok := bio_ok;
  bread_law := bread_wp;
  data_law := held_data;
  set_data_law := set_data_rel;
  bwrite_law := bwrite_wp;
  brelse_law := brelse_wp;
  bpin_law := bpin_wp;
  bunpin_law := bunpin_wp
}.

(** After [binit] on a zeroed BSS the cache is empty. *)
Lemma binit_wp dev d :
  dev <> 0 ->
  wp binit (fun _ s => bio_rel dev s (c_fresh d) /\ ring (bc_buf s) (rev (seq 0 NBUFn))) (bss d).
Proof.
  intros Hdev. unfold binit. wp_steps.
  destruct (binit_fold d NBUFn ltac:(lia)) as (HL & Hf & Hl & Hd & Hw). cbv zeta in *.
  set (s := foldl _ _ _) in *.
  assert (Ho : ring (bc_buf s) (rev (seq 0 NBUFn))) by (split; [exact HL | rewrite <- Permutation_rev; reflexivity]).
  split; [|exact Ho]. constructor; cbn; try (rewrite Hd || rewrite Hw); try reflexivity; try assumption.
  - eauto.
  - intros i j _ _ Hi. destruct (Hf i) as (_ & E & _). congruence.
  - intros i _ Hi. destruct (Hf i) as (_ & _ & E & _). congruence.
  - intros blk n H. rewrite lookup_empty in H. discriminate.
  - intros i. rewrite lookup_empty. destruct (Hf i) as (_ & _ & _ & ->). case_decide; reflexivity.
  - intros i _ Hi. destruct (Hf i) as (_ & _ & _ & E). congruence.
  - intros i _ Hi. destruct (Hf i) as (_ & E & _). congruence.
Qed.

(** ** Properties *)

(** On every well-formed list, the pointer-chasing [bget] is the search in
    the LRU list: the first buffer holding the block, else the least recently
    used one without references, else a panic. *)
Theorem bget_refines_lru dev blk s order :
  bc_lock s = false -> ring (bc_buf s) order -> bget dev blk s = bget_spec dev blk order s.
Proof. apply bget_eq. Qed.

Lemma bget_refines_lru_witness : exists s s',
  ring (bc_buf s) (rev (seq 0 NBUFn)) /\ bget 1 5 s = Ret O s'.
Proof.
  destruct (binit_fold (fun _ => zeroes) NBUFn ltac:(lia)) as (HL & Hf & Hl & _). cbv zeta in *.
  set (s := foldl _ _ _) in *. clearbody s.
  assert (Ho : ring (bc_buf s) (rev (seq 0 NBUFn)))
    by (split; [exact HL | rewrite <- Permutation_rev; reflexivity]).
  assert (Hmiss : forall l, find (is_block s 1 5) l = None).
  { induction l as [|i l IH]; [reflexivity|]. cbn [find]. unfold is_block at 1.
    destruct (Hf i) as (_ & -> & _). exact IH. }
  eexists s, _. split; [exact Ho|]. rewrite (bget_refines_lru 1 5 s _ Hl Ho). unfold bget_spec.
  rewrite Hmiss, rev_involutive. change (seq 0 NBUFn) with (O :: seq 1 29). cbn [find].
  unfold is_unused at 1. destruct (Hf O) as (_ & _ & -> & E). cbn [Z.eqb].
  unfold take_buf. cbn [b_locked set_refcnt set_valid set_id]. rewrite E. reflexivity.
Defined.

(** [brelse] keeps the list well formed and moves the buffer to its front
    exactly when the last reference goes; no other buffer changes. *)
Theorem brelse_refines_lru b s order :
  bc_lock s = false -> ring (bc_buf s) order -> (b < NBUFn)%nat -> b_locked (bc_buf s b) = true ->
  exists s', brelse b s = Ret tt s' /\
  ring (bc_buf s') (lru_release (u32 (b_refcnt (bc_buf s b) - 1) =? 0) b order) /\
  bc_lock s' = false /\ bd_disk s' = bd_disk s /\ bd_writes s' = bd_writes s /\
  payload (bc_buf s' b) =
    payload (set_refcnt (u32 (b_refcnt (bc_buf s b) - 1)) (set_locked false (bc_buf s b))) /\
  forall i, i <> b -> payload (bc_buf s' i) = payload (bc_buf s i).
Proof. apply brelse_eq. Qed.

Lemma brelse_refines_lru_witness : exists s s',
  brelse O s = Ret tt s' /\ ring (bc_buf s') (O :: rev (seq 1 (NBUFn - 1))).
Proof.
  destruct (proj1 (wp_run _ _ _) (binit_wp 1 (fun _ => zeroes) ltac:(lia))) as ([] & s0 & _ & _ & Ho0).
  set (s := upd O (fun x => set_refcnt 1 (set_locked true x)) (set_bc_lock false s0)).
  assert (Ho : ring (bc_buf s) (rev (seq 0 NBUFn))).
  { eapply ring_ext; [|exact Ho0]. intros a. unfold s. rewrite upd_at. case_decide; [subst|]; auto. }
  assert (E0 : bc_buf s O = set_refcnt 1 (set_locked true (bc_buf s0 O)))
    by (unfold s; rewrite upd_at; reflexivity).
  destruct (brelse_refines_lru O s (rev (seq 0 NBUFn)) eq_refl Ho ltac:(vm_compute; lia)
    ltac:(rewrite E0; reflexivity)) as (s' & E & Hr & _).
  exists s, s'. split; [exact E|]. rewrite E0 in Hr. exact Hr.
Defined.

(** C12: the cache is coherent: [bread] returns a locked buffer whose data is
    the last data put in the block's buffer, or the disk's when nobody refers
    to the block, and changes what no other reader sees; it succeeds whenever
    the block is cached or fewer than NBUF blocks are in use. *)
Theorem bread_coherent dev blk s c :
  bio_rel dev s c -> (forall b, c_held c !! b <> Some blk) ->
  is_Some (c_refs c !! blk) \/ Z.of_nat (size (c_refs c)) < NBUF ->
  default 0 (c_refs c !! blk) < 2 ^ 31 ->
  wp (bread dev blk) (fun b s' =>
    bio_rel dev s' (c_read blk b c) /\ b_data (bc_buf s' b) = c_view c blk /\
    b_locked (bc_buf s' b) = true) s.
Proof.
  intros R H1 H2 H3. eapply wp_mono; [exact (bread_wp dev blk s c R H1 H2 H3)|].
  intros b s' [_ R']. split; [exact R'|].
  destruct (held_buf dev s' _ b blk R' (lookup_insert_eq _ _ _)) as (_ & L & _ & _ & _ & D & _). auto.
Qed.

Lemma bread_coherent_witness : exists s b s',
  bread 1 7 s = Ret b s' /\ b_data (bc_buf s' b) 3 = x2a.
Proof.
  destruct (proj1 (wp_run _ _ _) (binit_wp 1 (fun _ _ => x2a) ltac:(lia))) as ([] & s0 & _ & R & _).
  destruct (proj1 (wp_run _ _ _) (bread_coherent 1 7 s0 _ R
    ltac:(intros b; cbn; rewrite lookup_empty; discriminate)
    ltac:(right; reflexivity) ltac:(cbn; rewrite lookup_empty; cbn; lia))) as (b & s' & E & _ & Hd & _).
  exists s0, b, s'. split; [exact E|]. rewrite Hd. reflexivity.
Defined.
