(* ===== verification/Log.v ===== *)
(** * The write-ahead log: kernel/log.c

    The log over any buffer cache that satisfies [BufCache].  The operations
    are those of the source; the crash-safety argument is in [LogCrash].

    [sleep] is [block]: the caller waits with the lock released, and when it
    is woken [begin_op] runs again from its start. *)

From S2P Require Import Prelude Memory FsDefs BufCache.

Section Log.
Context {S : Type} `{BufCache S}.

(** [struct log] with its [struct logheader lh], and the buffer cache. *)
Record lstate := LState {
  l_lock : bool;
  l_start : Z;
  l_size : Z;
  l_outstanding : Z;
  l_committing : bool;
  l_dev : Z;
  l_n : Z;
  l_block : Z -> Z;
  l_bc : S
}.

Definition set_llock (v : bool) (s : lstate) : lstate :=
  LState v (l_start s) (l_size s) (l_outstanding s) (l_committing s) (l_dev s) (l_n s) (l_block s) (l_bc s).
Definition set_outstanding (v : Z) (s : lstate) : lstate :=
  LState (l_lock s) (l_start s) (l_size s) v (l_committing s) (l_dev s) (l_n s) (l_block s) (l_bc s).
Definition set_committing (v : bool) (s : lstate) : lstate :=
  LState (l_lock s) (l_start s) (l_size s) (l_outstanding s) v (l_dev s) (l_n s) (l_block s) (l_bc s).
Definition set_lh (n : Z) (b : Z -> Z) (s : lstate) : lstate :=
  LState (l_lock s) (l_start s) (l_size s) (l_outstanding s) (l_committing s) (l_dev s) n b (l_bc s).
Definition set_bc (c : S) (s : lstate) : lstate :=
  LState (l_lock s) (l_start s) (l_size s) (l_outstanding s) (l_committing s) (l_dev s) (l_n s) (l_block s) c.
Definition set_geometry (start size dev : Z) (s : lstate) : lstate :=
  LState (l_lock s) start size (l_outstanding s) (l_committing s) dev (l_n s) (l_block s) (l_bc s).

(** Calls of the buffer cache; [int] arguments become [uint]. *)
Definition bio {A} (m : M S A) : M lstate A := zoom l_bc set_bc m.
Definition lbread (blk : Z) : M lstate nat :=
  dev ← gets l_dev; bio (bread (u32 dev) (u32 blk)).
Definition bdata (b : nat) : M lstate mem := gets (fun s => buf_data b (l_bc s)).
Definition bstore (b : nat) (m : mem) : M lstate unit :=
  modify (fun s => set_bc (set_buf_data b m (l_bc s)) s).

Definition lock_log : M lstate unit := acquire l_lock set_llock.
Definition unlock_log : M lstate unit := release l_lock set_llock.
(** [sleep(&log, &log.lock)] *)
Definition sleep_log {A} : M lstate A := fun s => Block (set_llock false s).

(** [hb->n = n; for(i = 0; i < n; i++) hb->block[i] = block[i];] *)
Fixpoint put_blocks (k : nat) (i : Z) (block : Z -> Z) (m : mem) : mem :=
  match k with
  | O => m
  | Datatypes.S k' => put_blocks k' (i + 1) block (store32 m (4 + 4 * i) (u32 (block i)))
  end.
Definition put_head (n : Z) (block : Z -> Z) (m : mem) : mem :=
  put_blocks (Z.to_nat n) 0 block (store32 m 0 (u32 n)).

(** [n = lh->n; for(i = 0; i < n; i++) block[i] = lh->block[i];] *)
Fixpoint get_blocks (k : nat) (i : Z) (m : mem) (block : Z -> Z) : Z -> Z :=
  match k with
  | O => block
  | Datatypes.S k' => get_blocks k' (i + 1) m (<[i := i32 (load32 m (4 + 4 * i))]> block)
  end.

(** One iteration of [install_trans]. *)
Definition install_step (recovering : bool) (tail : Z) : M lstate (Z + unit) :=
  n ← gets l_n;
  if tail <? n then
    start ← gets l_start;
    block ← gets l_block;
    lbuf ← lbread (start + tail + 1);
    dbuf ← lbread (block tail);
    src ← bdata lbuf;
    dst ← bdata dbuf;
    bstore dbuf (copy_block dst src);;
    bio (bwrite dbuf);;
    when (negb recovering) (bio (bunpin dbuf));;
    bio (brelse lbuf);;
    bio (brelse dbuf);;
    mret (inl (tail + 1))
  else mret (inr tt).

Definition install_trans (recovering : bool) : M lstate unit :=
  n ← gets l_n;
  loop (Datatypes.S (Z.to_nat n)) (install_step recovering) 0.

Definition read_head : M lstate unit :=
  start ← gets l_start;
  buf ← lbread start;
  m ← bdata buf;
  let n := i32 (load32 m 0) in
  modify (fun s => set_lh n (get_blocks (Z.to_nat n) 0 m (l_block s)) s);;
  bio (brelse buf).

Definition write_head : M lstate unit :=
  start ← gets l_start;
  buf ← lbread start;
  m ← bdata buf;
  n ← gets l_n;
  block ← gets l_block;
  bstore buf (put_head n block m);;
  bio (bwrite buf);;
  bio (brelse buf).

Definition recover_from_log : M lstate unit :=
  read_head;;
  install_trans true;;
  modify (fun s => set_lh 0 (l_block s) s);;
  write_head.

(** sizeof(struct logheader) *)
Definition LOGHEADER_SIZE : Z := 4 + 4 * LOGSIZE.

Definition initlog (dev : Z) (sb : superblock) : M lstate unit :=
  panic_if (LOGHEADER_SIZE >=? BSIZE) "initlog: too big logheader";;
  modify (set_llock false);;
  modify (set_geometry (i32 (sb_logstart sb)) (i32 (sb_nlog sb)) dev);;
  recover_from_log.

Definition begin_op : M lstate unit :=
  lock_log;;
  s ← get;
  if l_committing s then sleep_log
  else if l_n s + (l_outstanding s + 1) * MAXOPBLOCKS >? LOGSIZE then sleep_log
  else modify (set_outstanding (l_outstanding s + 1));; unlock_log.

(** One iteration of [write_log]. *)
Definition write_log_step (tail : Z) : M lstate (Z + unit) :=
  n ← gets l_n;
  if tail <? n then
    start ← gets l_start;
    block ← gets l_block;
    to ← lbread (start + tail + 1);
    from ← lbread (block tail);
    src ← bdata from;
    dst ← bdata to;
    bstore to (copy_block dst src);;
    bio (bwrite to);;
    bio (brelse from);;
    bio (brelse to);;
    mret (inl (tail + 1))
  else mret (inr tt).

Definition write_log : M lstate unit :=
  n ← gets l_n;
  loop (Datatypes.S (Z.to_nat n)) write_log_step 0.

Definition commit : M lstate unit :=
  n ← gets l_n;
  when (n >? 0)
    (write_log;;
     write_head;;
     install_trans false;;
     modify (fun s => set_lh 0 (l_block s) s);;
     write_head).

Definition end_op : M lstate unit :=
  lock_log;;
  modify (fun s => set_outstanding (l_outstanding s - 1) s);;
  s ← get;
  panic_if (l_committing s) "log.committing";;
  let do_commit := l_outstanding s =? 0 in
  when do_commit (modify (set_committing true));;
  unlock_log;;
  when do_commit
    (commit;;
     lock_log;;
     modify (set_committing false);;
     unlock_log).

(** [for (i = 0; i < n; i++) if (block[i] == blockno) break;] *)
Fixpoint find_block (k : nat) (i : Z) (block : Z -> Z) (blockno : Z) : Z :=
  match k with
  | O => i
  | Datatypes.S k' => if u32 (block i) =? blockno then i else find_block k' (i + 1) block blockno
  end.

Definition log_write (b : nat) : M lstate unit :=
  lock_log;;
  s ← get;
  panic_if ((l_n s >=? LOGSIZE) || (l_n s >=? l_size s - 1)) "too big a transaction";;
  panic_if (l_outstanding s <? 1) "log_write outside of trans";;
  blockno ← gets (fun s => buf_blockno b (l_bc s));
  let i := find_block (Z.to_nat (l_n s)) 0 (l_block s) blockno in
  modify (fun s => set_lh (l_n s) (<[i := i32 blockno]> (l_block s)) s);;
  when (i =? l_n s)
    (bio (bpin b);;
     modify (fun s => set_lh (l_n s + 1) (l_block s) s));;
  unlock_log.

End Log.
Arguments lstate S : clear implicits.
