(* ===== verification/LogCrash.v ===== *)
(** * Crash safety of the log

    For every point at which the machine can stop during a commit or during
    recovery itself, recovery ([initlog]) brings the disk to the contents of
    before the transaction or to those after it, never to a mixture.

    A crash leaves the disk after some prefix of the block writes issued
    ([disk_after]); a block write is atomic. *)

From S2P Require Import Prelude Memory FsDefs BufCache Log.

(** ** Disks after a prefix of writes *)

Definition disk_after (d : Z -> mem) (ws : list (Z * mem)) : Z -> mem :=
  foldl (fun d w => <[w.1 := w.2]> d) d ws.

Lemma disk_after_snoc d ws b m : disk_after d (ws ++ [(b, m)]) = <[b := m]> (disk_after d ws).
Proof. unfold disk_after. rewrite foldl_app. reflexivity. Qed.

(** Every disk a crash can leave satisfies [P]. *)
Definition every_crash (P : (Z -> mem) -> Prop) (d : Z -> mem) (ws : list (Z * mem)) : Prop :=
  forall k, P (disk_after d (take k ws)).

Lemma every_crash_nil P d : P d -> every_crash P d [].
Proof. intros H k. rewrite take_nil. exact H. Qed.

Lemma every_crash_snoc P d ws w :
  every_crash P d ws -> P (disk_after d (ws ++ [w])) -> every_crash P d (ws ++ [w]).
Proof.
  intros H Hw k. destruct (decide (k <= length ws)%nat) as [Hk|Hk].
  - rewrite take_app_le by exact Hk. apply H.
  - rewrite take_ge by (rewrite length_app; cbn; lia). exact Hw.
Qed.

Lemma every_crash_mono (P Q : (Z -> mem) -> Prop) d ws :
  (forall d', P d' -> Q d') -> every_crash P d ws -> every_crash Q d ws.
Proof. intros H HP k. apply H, HP. Qed.

Lemma every_crash_last P d ws : every_crash P d ws -> P (disk_after d ws).
Proof. intros H. specialize (H (length ws)). rewrite take_ge in H by lia. exact H. Qed.

(** ** The header block *)

(** The header block [m] names the blocks [bs]. *)
Definition head_is (m : mem) (bs : list Z) : Prop :=
  i32 (load32 m 0) = Z.of_nat (length bs) /\
  forall i b, bs !! i = Some b -> i32 (load32 m (4 + 4 * Z.of_nat i)) = b.

Lemma load32_range m a : 0 <= load32 m a < 2 ^ 32.
Proof. unfold load32. pose proof (le_load_range 4 m a) as Hr. cbn in Hr. lia. Qed.

Lemma i32_u32 z : - 2 ^ 31 <= z < 2 ^ 31 -> i32 (u32 z) = z.
Proof.
  intros Hz. unfold i32, sext, u32. rewrite Z.mod_mod by lia.
  destruct (decide (0 <= z)).
  - rewrite Z.mod_small by lia. replace (z <? 2 ^ (32 - 1)) with true by lia. reflexivity.
  - replace (z mod 2 ^ 32) with (z + 2 ^ 32) by (apply Zmod_unique with (-1); lia).
    replace (z + 2 ^ 32 <? 2 ^ (32 - 1)) with false by lia. lia.
Qed.

Lemma load_store32_eq m a v : load32 (store32 m a (u32 v)) a = u32 v.
Proof.
  unfold load32, store32. rewrite le_load_store_eq. apply Z.mod_small. unfold u32.
  pose proof (Z.mod_pos_bound v (2 ^ 32) ltac:(lia)). cbn. lia.
Qed.

Lemma load_store32_ne m a v a' :
  a' + 4 <= a \/ a + 4 <= a' -> load32 (store32 m a v) a' = load32 m a'.
Proof. intros Hd. unfold load32, store32. apply le_load_store_ne. cbn. lia. Qed.

Lemma put_blocks_ne k i block m a :
  a + 4 <= 4 + 4 * i \/ 4 + 4 * (i + Z.of_nat k) <= a ->
  load32 (put_blocks k i block m) a = load32 m a.
Proof.
  revert i m. induction k as [|k IH]; intros i m Ha; cbn [put_blocks]; [reflexivity|].
  rewrite IH by lia. apply load_store32_ne. lia.
Qed.

Lemma put_blocks_eq k i block m j :
  0 <= j < Z.of_nat k ->
  load32 (put_blocks k i block m) (4 + 4 * (i + j)) = u32 (block (i + j)).
Proof.
  revert i m j. induction k as [|k IH]; intros i m j Hj; [lia|]. cbn [put_blocks].
  destruct (decide (j = 0)) as [->|Hne].
  - rewrite put_blocks_ne by lia. rewrite Z.add_0_r. apply load_store32_eq.
  - specialize (IH (i + 1) (store32 m (4 + 4 * i) (u32 (block i))) (j - 1) ltac:(lia)).
    replace (i + 1 + (j - 1)) with (i + j) in IH by lia. exact IH.
Qed.

Lemma get_blocks_at k i m block j :
  get_blocks k i m block j =
  if (i <=? j) && (j <? i + Z.of_nat k) then i32 (load32 m (4 + 4 * j)) else block j.
Proof.
  revert i block. induction k as [|k IH]; intros i block; cbn [get_blocks].
  - replace (_ && _) with false by lia. reflexivity.
  - rewrite IH. destruct (decide (j = i)) as [->|Hne].
    + replace ((i + 1 <=? i) && _) with false by lia. rewrite fn_lookup_insert.
      replace (_ && _) with true by lia. reflexivity.
    + rewrite fn_lookup_insert_ne by congruence.
      replace ((i + 1 <=? j) && (j <? i + 1 + Z.of_nat k))
        with ((i <=? j) && (j <? i + Z.of_nat (S k))) by lia. reflexivity.
Qed.

(** An in-memory header that holds the blocks [bs]. *)
Definition holds_blocks (block : Z -> Z) (bs : list Z) : Prop :=
  forall i b, bs !! i = Some b -> block (Z.of_nat i) = b.

Lemma put_head_is block m bs :
  holds_blocks block bs -> Z.of_nat (length bs) < 2 ^ 31 ->
  (forall b, b ∈ bs -> 0 <= b < 2 ^ 31) ->
  head_is (put_head (Z.of_nat (length bs)) block m) bs.
Proof.
  intros Hb Hn Hr. unfold put_head. rewrite Nat2Z.id. split.
  - rewrite put_blocks_ne by lia. rewrite load_store32_eq. apply i32_u32. lia.
  - intros i b Hi. pose proof (lookup_lt_Some _ _ _ Hi) as Hlt.
    pose proof (put_blocks_eq (length bs) 0 block
      (store32 m 0 (u32 (Z.of_nat (length bs)))) (Z.of_nat i) ltac:(lia)) as E.
    rewrite Z.add_0_l in E. rewrite E, (Hb i b Hi). apply i32_u32.
    apply list_elem_of_lookup_2, Hr in Hi. lia.
Qed.

Lemma head_is_unique m bs bs' : head_is m bs -> head_is m bs' -> bs = bs'.
Proof.
  intros [H1 H2] [H1' H2']. apply list_eq_same_length with (length bs); [lia | reflexivity |].
  intros i x y _ Hx Hy. rewrite <- (H2 _ _ Hx), <- (H2' _ _ Hy). reflexivity.
Qed.

Lemma get_blocks_holds m bs block :
  head_is m bs -> holds_blocks (get_blocks (Z.to_nat (i32 (load32 m 0))) 0 m block) bs.
Proof.
  intros [Hn Hb] i b Hi. pose proof (lookup_lt_Some _ _ _ Hi) as Hlt. rewrite get_blocks_at, Hn.
  replace (_ && _) with true by lia. apply Hb. exact Hi.
Qed.

(** ** What recovery makes of a disk *)

Section Geometry.
Context (start size : Z).
Context (Hgeo : 0 <= start /\ 0 < size <= LOGSIZE /\ start + size < 2 ^ 31).

Definition in_log (blk : Z) : Prop := start <= blk < start + size.

Record log_wf (bs : list Z) : Prop := {
  lw_nodup : NoDup bs;
  lw_len : Z.of_nat (length bs) < size;
  lw_out : forall b, b ∈ bs -> 0 <= b < 2 ^ 31 /\ ~ in_log b
}.

(** The log block that holds the [i]-th logged block. *)
Definition slot (i : nat) : Z := start + Z.of_nat i + 1.

Lemma slot_in i (bs : list Z) : log_wf bs -> (i < length bs)%nat -> in_log (slot i) /\ slot i <> start.
Proof. intros W Hi. pose proof (lw_len _ W). unfold in_log, slot. lia. Qed.

(** The contents recovery gives block [blk]. *)
Definition replay (d : Z -> mem) (bs : list Z) (blk : Z) : mem :=
  match list_find (eq blk) bs with Some (i, _) => d (slot i) | None => d blk end.

Lemma replay_logged d bs i b : NoDup bs -> bs !! i = Some b -> replay d bs b = d (slot i).
Proof.
  intros Hnd Hi. unfold replay. destruct (list_find (eq b) bs) as [[j x]|] eqn:E.
  - apply list_find_Some in E as (Hj & -> & _). rewrite (NoDup_lookup _ _ _ _ Hnd Hi Hj). reflexivity.
  - exfalso. apply list_find_None in E. rewrite Forall_forall in E.
    apply (E b); [eapply list_elem_of_lookup_2; exact Hi | reflexivity].
Qed.

Lemma replay_other d bs b : b ∉ bs -> replay d bs b = d b.
Proof.
  intros Hb. unfold replay. destruct (list_find (eq b) bs) as [[j x]|] eqn:E; [|reflexivity].
  apply list_find_Some in E as (Hj & -> & _). exfalso. apply Hb. eapply list_elem_of_lookup_2. exact Hj.
Qed.

(** Disk [d] is one from which recovery obtains the file-system contents [V]. *)
Definition recovers (V : Z -> mem) (d : Z -> mem) : Prop :=
  exists bs, log_wf bs /\ head_is (d start) bs /\
    forall blk, ~ in_log blk -> replay d bs blk ≡ V blk.

Lemma log_wf_nil : log_wf [].
Proof.
  constructor; [apply NoDup_nil_2 | cbn; lia |]. intros b Hb. destruct (not_elem_of_nil _ Hb).
Qed.

(** With an empty header the disk is its own contents. *)
Lemma recovers_empty V d :
  head_is (d start) [] -> (forall blk, ~ in_log blk -> d blk ≡ V blk) -> recovers V d.
Proof. intros Hh Hv. exists []. split; [exact log_wf_nil|]. split; [exact Hh | exact Hv]. Qed.

(** With a full header it is the logged blocks over the rest. *)
Lemma recovers_logged V d bs :
  log_wf bs -> head_is (d start) bs ->
  (forall i b, bs !! i = Some b -> d (slot i) ≡ V b) ->
  (forall blk, ~ in_log blk -> blk ∉ bs -> d blk ≡ V blk) -> recovers V d.
Proof.
  intros W Hh Hs Ho. exists bs. split; [exact W|]. split; [exact Hh|]. intros blk Hblk.
  destruct (decide (blk ∈ bs)) as [Hin|Hin].
  - apply list_elem_of_lookup_1 in Hin as [i Hi]. rewrite (replay_logged _ _ _ _ (lw_nodup _ W) Hi).
    apply Hs, Hi.
  - rewrite replay_other by exact Hin. apply Ho; assumption.
Qed.
End Geometry.

(** ** Steps of log code on the abstract cache

    Log code only changes the buffer cache inside [lstate], so its states are
    [set_bc x s] for a fixed [s]. *)

Section Rules.
Context {S : Type} `{BC : BufCache S}.
Context (dev : Z) (Hdev : u32 dev = dev).
Context (s : lstate S) (Hs : l_dev s = dev).

#[local] Lemma wp_bio {A B} (m : M S A) (k : A -> M (lstate S) B) Q x :
  wp m (fun a x' => wp (k a) Q (set_bc x' s)) x -> wp (bio m ≫= k) Q (set_bc x s).
Proof. intros Hm. apply wp_bind, wp_zoom. exact Hm. Qed.

Lemma rule_bread {B} blk (k : nat -> M (lstate S) B) Q x c :
  cache_rel dev x c -> 0 <= blk < 2 ^ 31 ->
  (forall b, c_held c !! b <> Some blk) ->
  is_Some (c_refs c !! blk) \/ Z.of_nat (size (c_refs c)) < NBUF ->
  default 0 (c_refs c !! blk) < 2 ^ 31 ->
  (forall b x', c_held c !! b = None -> cache_rel dev x' (c_read blk b c) -> wp (k b) Q (set_bc x' s)) ->
  wp (lbread blk ≫= k) Q (set_bc x s).
Proof.
  intros R Hb H1 H2 H3 Hk. unfold lbread. apply wp_bind, wp_bind, wp_gets. cbn [l_dev set_bc].
  rewrite Hs, Hdev, (u32_small blk) by lia. apply wp_zoom. cbn [l_bc set_bc].
  eapply wp_mono; [exact (bread_law dev blk x c R H1 H2 H3)|]. intros b x' [Hn R']. exact (Hk b x' Hn R').
Qed.

Lemma rule_bdata {B} b blk (k : mem -> M (lstate S) B) Q x c :
  cache_rel dev x c -> c_held c !! b = Some blk ->
  wp (k (c_view c blk)) Q (set_bc x s) -> wp (bdata b ≫= k) Q (set_bc x s).
Proof.
  intros R Hh Hk. apply wp_bind, wp_gets. cbn [l_bc set_bc].
  rewrite (proj1 (data_law dev x c b blk R Hh)). exact Hk.
Qed.

Lemma rule_bstore {B} b blk m (k : unit -> M (lstate S) B) Q x c :
  cache_rel dev x c -> c_held c !! b = Some blk ->
  (forall x', cache_rel dev x' (c_set blk m c) -> wp (k tt) Q (set_bc x' s)) ->
  wp (bstore b m ≫= k) Q (set_bc x s).
Proof. intros R Hh Hk. apply wp_bind, wp_modify. apply Hk. apply set_data_law; assumption. Qed.

Lemma rule_bwrite {B} b blk (k : unit -> M (lstate S) B) Q x c :
  cache_rel dev x c -> c_held c !! b = Some blk ->
  (forall x', cache_rel dev x' (c_write blk c) -> wp (k tt) Q (set_bc x' s)) ->
  wp (bio (bwrite b) ≫= k) Q (set_bc x s).
Proof.
  intros R Hh Hk. apply wp_bio. eapply wp_mono; [exact (bwrite_law dev x c b blk R Hh)|].
  intros [] x' R'. apply Hk, R'.
Qed.

Lemma rule_brelse {B} b blk (k : unit -> M (lstate S) B) Q x c :
  cache_rel dev x c -> c_held c !! b = Some blk ->
  (c_refs c !! blk = Some 1 -> c_view c blk = c_disk c blk) ->
  (forall x', cache_rel dev x' (c_release blk b c) -> wp (k tt) Q (set_bc x' s)) ->
  wp (bio (brelse b) ≫= k) Q (set_bc x s).
Proof.
  intros R Hh Hc Hk. apply wp_bio. eapply wp_mono; [exact (brelse_law dev x c b blk R Hh Hc)|].
  intros [] x' R'. apply Hk, R'.
Qed.

Lemma rule_bunpin {B} b blk (k : unit -> M (lstate S) B) Q x c :
  cache_rel dev x c -> c_held c !! b = Some blk -> 1 < default 0 (c_refs c !! blk) ->
  (forall x', cache_rel dev x' (c_unpin blk c) -> wp (k tt) Q (set_bc x' s)) ->
  wp (bio (bunpin b) ≫= k) Q (set_bc x s).
Proof.
  intros R Hh Hc Hk. apply wp_bio. eapply wp_mono; [exact (bunpin_law dev x c b blk R Hh Hc)|].
  intros [] x' R'. apply Hk, R'.
Qed.

(** *** Composite steps *)

(** Block [t] is overwritten, in the cache and on disk, with [m]. *)
Definition c_put (t : Z) (m : mem) (c : cache) : cache :=
  Cache (<[t := m]> (c_disk c)) (<[t := m]> (c_view c)) (c_refs c) (c_held c) (c_writes c ++ [(t, m)]).

(** Bounds on the reference counts that rule out overflow. *)
Definition small_refs (c : cache) : Prop := forall k n, c_refs c !! k = Some n -> n < 2 ^ 30.

Lemma small_default c k : small_refs c -> default 0 (c_refs c !! k) < 2 ^ 30.
Proof. intros Hr. destruct (c_refs c !! k) as [n|] eqn:E; cbn; [exact (Hr _ _ E) | lia]. Qed.

Lemma cache_eq d v r h w d' v' r' h' w' :
  d = d' -> v = v' -> r = r' -> h = h' -> w = w' -> Cache d v r h w = Cache d' v' r' h' w'.
Proof. intros. subst. reflexivity. Qed.

Lemma ref_inc_comm a b r : a <> b -> ref_inc a (ref_inc b r) = ref_inc b (ref_inc a r).
Proof.
  intros Hne. unfold ref_inc at 1 3. rewrite !ref_inc_ne by congruence. unfold ref_inc.
  apply insert_insert_ne. congruence.
Qed.

Lemma ref_dec_inc_comm a b r : a <> b -> ref_dec a (ref_inc b r) = ref_inc b (ref_dec a r).
Proof.
  intros Hne. unfold ref_inc at 2. rewrite ref_dec_ne by congruence. unfold ref_dec, ref_inc.
  rewrite lookup_insert_ne by congruence. destruct (r !! a); [|reflexivity]. case_match.
  - apply delete_insert_ne. congruence.
  - apply insert_insert_ne. congruence.
Qed.

Lemma held_back (b1 b2 : nat) (t f : Z) :
  b1 <> b2 -> delete b1 (delete b2 (<[b2 := f]> (<[b1 := t]> (∅ : gmap nat Z)))) = ∅.
Proof.
  intros Hne. rewrite delete_insert_id by (rewrite lookup_insert_ne by congruence; apply lookup_empty).
  apply delete_insert_id, lookup_empty.
Qed.

Lemma fn_insert_put (v : Z -> mem) t m : <[t := (<[t := m]> v) t]> v = <[t := m]> v.
Proof. rewrite fn_lookup_insert. reflexivity. Qed.

(** Reading two blocks [t] and [f]. *)
Lemma rule_bread2 {B} t f (k : nat -> nat -> M (lstate S) B) Q x c :
  cache_rel dev x c -> c_held c = ∅ -> small_refs c -> t <> f ->
  0 <= t < 2 ^ 31 -> 0 <= f < 2 ^ 31 ->
  Z.of_nat (size (c_refs c)) < NBUF ->
  is_Some (c_refs c !! f) \/ Z.of_nat (size (c_refs c)) + 1 < NBUF ->
  (forall b1 b2 x', b1 <> b2 -> cache_rel dev x' (c_read f b2 (c_read t b1 c)) ->
     wp (k b1 b2) Q (set_bc x' s)) ->
  wp (b1 ← lbread t; b2 ← lbread f; k b1 b2) Q (set_bc x s).
Proof.
  intros R Hh Hsm Hne Ht Hf Hsz Hroom Hk.
  pose proof (small_default c t Hsm) as Hdt. pose proof (small_default c f Hsm) as Hdf.
  apply (rule_bread t _ Q x c R Ht); [rewrite Hh; intros b; rewrite lookup_empty; discriminate | auto | lia |].
  intros b1 x1 _ R1.
  apply (rule_bread f _ Q x1 _ R1 Hf); cbn [c_read c_held c_refs].
  - rewrite Hh. intros b. destruct (decide (b = b1)) as [->|Hb].
    + rewrite lookup_insert_eq. congruence.
    + rewrite lookup_insert_ne, lookup_empty by congruence. discriminate.
  - rewrite ref_inc_ne by congruence. destruct Hroom as [Hr|Hr]; [left; exact Hr | right].
    rewrite size_ref_inc. case_decide; lia.
  - rewrite ref_inc_ne by congruence. lia.
  - intros b2 x2 Hb2 R2. apply (Hk b1 b2 x2); [|exact R2].
    intros ->. rewrite lookup_insert_eq in Hb2. discriminate.
Qed.

(** [write_log]: the cached block goes to its log slot. *)
Lemma write_log_step_wp tail t f x c Q :
  l_n s > tail -> l_start s + tail + 1 = t -> l_block s tail = f ->
  cache_rel dev x c -> c_held c = ∅ -> small_refs c -> t <> f ->
  0 <= t < 2 ^ 31 -> 0 <= f < 2 ^ 31 ->
  Z.of_nat (size (c_refs c)) < NBUF -> is_Some (c_refs c !! f) ->
  (forall x', cache_rel dev x' (c_put t (copy_block (c_view c t) (c_view c f)) c) ->
     Q (inl (tail + 1)) (set_bc x' s)) ->
  wp (write_log_step tail) Q (set_bc x s).
Proof.
  intros Hn Et Ef R Hh Hsm Hne Ht Hf Hsz [n Hr] HQ. pose proof (rel_ok dev x c R) as OK.
  pose proof (co_refs _ OK _ _ Hr) as Hn0.
  unfold write_log_step. apply wp_bind, wp_gets. cbn [l_n set_bc]. replace (tail <? l_n s) with true by lia.
  apply wp_bind, wp_gets. apply wp_bind, wp_gets. cbn [l_start l_block set_bc]. rewrite Et, Ef.
  apply (rule_bread2 t f _ Q x c R Hh Hsm Hne Ht Hf Hsz); [left; eauto|].
  intros b1 b2 x1 Hb R1.
  assert (H2 : c_held (c_read f b2 (c_read t b1 c)) !! b2 = Some f) by apply lookup_insert_eq.
  assert (H1 : c_held (c_read f b2 (c_read t b1 c)) !! b1 = Some t)
    by (cbn; rewrite lookup_insert_ne by congruence; apply lookup_insert_eq).
  apply (rule_bdata b2 f _ Q x1 _ R1 H2). apply (rule_bdata b1 t _ Q x1 _ R1 H1).
  apply (rule_bstore b1 t _ _ Q x1 _ R1 H1). intros x2 R2.
  apply (rule_bwrite b1 t _ Q x2 _ R2 H1). intros x3 R3.
  apply (rule_brelse b2 f _ Q x3 _ R3 H2).
  { cbn. rewrite ref_inc_eq, ref_inc_ne, Hr by congruence. cbn. intros [=]. lia. }
  intros x4 R4. apply (rule_brelse b1 t _ Q x4 _ R4).
  { cbn. rewrite lookup_delete_ne by congruence. exact H1. }
  { cbn. rewrite !fn_lookup_insert. reflexivity. }
  intros x5 R5. apply wp_ret. apply HQ.
  eapply eq_ind; [exact R5|]. unfold c_put, c_release, c_write, c_set, c_read. cbn.
  apply cache_eq; [rewrite fn_lookup_insert; reflexivity | reflexivity | | | rewrite fn_lookup_insert; reflexivity].
  - rewrite !ref_dec_inc; [reflexivity | intros m; apply (co_refs _ OK) |].
    intros m. rewrite ref_inc_ne by congruence. apply (co_refs _ OK).
  - rewrite Hh. apply held_back. exact Hb.
Qed.

(** [install_trans]: the log slot goes to its home block, which is unpinned
    unless this is recovery. *)
Lemma install_step_wp recovering tail t f x c Q :
  l_n s > tail -> l_start s + tail + 1 = t -> l_block s tail = f ->
  cache_rel dev x c -> c_held c = ∅ -> small_refs c -> t <> f ->
  0 <= t < 2 ^ 31 -> 0 <= f < 2 ^ 31 ->
  Z.of_nat (size (c_refs c)) < NBUF ->
  (if recovering : bool then Z.of_nat (size (c_refs c)) + 1 < NBUF else is_Some (c_refs c !! f)) ->
  (forall x', cache_rel dev x' (let c' := c_put f (copy_block (c_view c f) (c_view c t)) c in
                                if recovering then c' else c_unpin f c') ->
     Q (inl (tail + 1)) (set_bc x' s)) ->
  wp (install_step recovering tail) Q (set_bc x s).
Proof.
  intros Hn Et Ef R Hh Hsm Hne Ht Hf Hsz Hroom HQ. pose proof (rel_ok dev x c R) as OK.
  unfold install_step. apply wp_bind, wp_gets. cbn [l_n set_bc]. replace (tail <? l_n s) with true by lia.
  apply wp_bind, wp_gets. apply wp_bind, wp_gets. cbn [l_start l_block set_bc]. rewrite Et, Ef.
  apply (rule_bread2 t f _ Q x c R Hh Hsm Hne Ht Hf Hsz); [destruct recovering; auto|].
  intros b1 b2 x1 Hb R1.
  assert (H2 : c_held (c_read f b2 (c_read t b1 c)) !! b2 = Some f) by apply lookup_insert_eq.
  assert (H1 : c_held (c_read f b2 (c_read t b1 c)) !! b1 = Some t)
    by (cbn; rewrite lookup_insert_ne by congruence; apply lookup_insert_eq).
  apply (rule_bdata b1 t _ Q x1 _ R1 H1). apply (rule_bdata b2 f _ Q x1 _ R1 H2).
  apply (rule_bstore b2 f _ _ Q x1 _ R1 H2). intros x2 R2.
  apply (rule_bwrite b2 f _ Q x2 _ R2 H2). intros x3 R3.
  set (m := copy_block (c_view c f) (c_view c t)).
  set (c3 := c_write f (c_set f m (c_read f b2 (c_read t b1 c)))) in *.
  set (c4 := if recovering then c3 else c_unpin f c3).
  assert (Hstep : forall k : unit -> M (lstate S) (Z + unit),
     (forall x4, cache_rel dev x4 c4 -> wp (k tt) Q (set_bc x4 s)) ->
     wp (when (negb recovering) (bio (bunpin b2)) ≫= k) Q (set_bc x3 s)).
  { intros k Hk. destruct recovering; [exact (Hk x3 R3)|]. cbn [negb when].
    apply (rule_bunpin b2 f _ Q x3 c3 R3 H2); [|exact Hk].
    destruct Hroom as [n Hr]. pose proof (co_refs _ OK _ _ Hr). cbn.
    rewrite ref_inc_eq, ref_inc_ne, Hr by congruence. cbn. lia. }
  apply Hstep. intros x4 R4.
  assert (Hh4 : c_held c4 = c_held c3) by (unfold c4; destruct recovering; reflexivity).
  assert (Ht4 : c_refs c4 !! t = Some (default 0 (c_refs c !! t) + 1)).
  { unfold c4. destruct recovering; cbn; [|rewrite ref_dec_ne by congruence];
      rewrite ref_inc_ne, ref_inc_eq by congruence; reflexivity. }
  apply (rule_brelse b1 t _ Q x4 c4 R4); [rewrite Hh4; exact H1 | |].
  { rewrite Ht4. intros E. assert (Hnone : c_refs c !! t = None).
    { destruct (c_refs c !! t) as [n|] eqn:Er; [|reflexivity]. cbn in E.
      pose proof (co_refs _ OK _ _ Er). injection E as E. lia. }
    apply (co_clean _ OK) in Hnone.
    unfold c4. destruct recovering; cbn; rewrite !fn_lookup_insert_ne by congruence; exact Hnone. }
  intros x5 R5. apply (rule_brelse b2 f _ Q x5 _ R5).
  { cbn. rewrite Hh4, lookup_delete_ne by congruence. exact H2. }
  { intros _. unfold c4. destruct recovering; cbn; rewrite !fn_lookup_insert; reflexivity. }
  intros x6 R6. apply wp_ret. apply HQ.
  eapply eq_ind; [exact R6|]. cbv zeta. fold m.
  assert (Eh : delete b2 (delete b1 (c_held c3)) = c_held c).
  { cbn. rewrite Hh, delete_delete. apply held_back. exact Hb. }
  assert (Er : ref_dec t (c_refs c3) = ref_inc f (c_refs c)).
  { cbn. rewrite ref_inc_comm by congruence. apply ref_dec_inc. intros n.
    rewrite ref_inc_ne by congruence. apply (co_refs _ OK). }
  unfold c4. destruct recovering; unfold c_release, c_put, c_unpin;
    (apply cache_eq; [cbn; rewrite fn_lookup_insert; reflexivity | reflexivity | | exact Eh
                     | cbn; rewrite fn_lookup_insert; reflexivity]).
  - cbn [c_refs]. rewrite Er. apply ref_dec_inc. intros n. apply (co_refs _ OK).
  - cbn [c_refs c_unpin].
    assert (E2 : ref_dec t (ref_dec f (c_refs c3)) = c_refs c).
    { cbn. rewrite ref_dec_inc by (intros n; rewrite ref_inc_ne by congruence; apply (co_refs _ OK)).
      apply ref_dec_inc. intros n. apply (co_refs _ OK). }
    rewrite E2. reflexivity.
Qed.

(** [write_head] *)
Lemma write_head_wp x c Q :
  cache_rel dev x c -> c_held c = ∅ -> small_refs c -> 0 <= l_start s < 2 ^ 31 ->
  Z.of_nat (size (c_refs c)) < NBUF ->
  (forall x', cache_rel dev x'
      (c_put (l_start s) (put_head (l_n s) (l_block s) (c_view c (l_start s))) c) ->
     Q tt (set_bc x' s)) ->
  wp write_head Q (set_bc x s).
Proof.
  intros R Hh Hsm Hst Hsz HQ. pose proof (rel_ok dev x c R) as OK.
  pose proof (small_default c (l_start s) Hsm) as Hd.
  unfold write_head. apply wp_bind, wp_gets. cbn [l_start set_bc]. set (t := l_start s) in *.
  apply (rule_bread t _ Q x c R Hst); [rewrite Hh; intros b; rewrite lookup_empty; discriminate | auto | lia |].
  intros b x1 _ R1.
  assert (H1 : c_held (c_read t b c) !! b = Some t) by apply lookup_insert_eq.
  apply (rule_bdata b t _ Q x1 _ R1 H1). apply wp_bind, wp_gets. apply wp_bind, wp_gets.
  cbn [l_n l_block set_bc]. apply (rule_bstore b t _ _ Q x1 _ R1 H1). intros x2 R2.
  apply (rule_bwrite b t _ Q x2 _ R2 H1). intros x3 R3.
  unfold bio. apply wp_zoom. cbn [l_bc set_bc].
  eapply wp_mono; [apply (brelse_law dev x3 _ b t R3 H1)|].
  { intros _. cbn. rewrite !fn_lookup_insert. reflexivity. }
  intros [] x4 R4. apply HQ. eapply eq_ind; [exact R4|].
  unfold c_put, c_release, c_write, c_set, c_read. cbn.
  apply cache_eq; [rewrite fn_lookup_insert; reflexivity | reflexivity | | | rewrite fn_lookup_insert; reflexivity].
  - apply ref_dec_inc. intros n. apply (co_refs _ OK).
  - rewrite Hh. apply delete_insert_id, lookup_empty.
Qed.

(** [read_head] *)
Lemma read_head_wp x c Q :
  cache_rel dev x c -> c_held c = ∅ -> small_refs c -> 0 <= l_start s < 2 ^ 31 ->
  Z.of_nat (size (c_refs c)) < NBUF ->
  (forall x', cache_rel dev x' c ->
     let m := c_view c (l_start s) in
     let n := i32 (load32 m 0) in
     Q tt (set_bc x' (set_lh n (get_blocks (Z.to_nat n) 0 m (l_block s)) s))) ->
  wp read_head Q (set_bc x s).
Proof.
  intros R Hh Hsm Hst Hsz HQ. pose proof (rel_ok dev x c R) as OK.
  pose proof (small_default c (l_start s) Hsm) as Hd.
  unfold read_head. apply wp_bind, wp_gets. cbn [l_start set_bc]. set (t := l_start s) in *.
  apply (rule_bread t _ Q x c R Hst); [rewrite Hh; intros b; rewrite lookup_empty; discriminate | auto | lia |].
  intros b x1 _ R1.
  assert (H1 : c_held (c_read t b c) !! b = Some t) by apply lookup_insert_eq.
  apply (rule_bdata b t _ Q x1 _ R1 H1). cbv zeta. apply wp_bind, wp_modify.
  unfold bio. apply wp_zoom. cbn [l_bc set_bc set_lh].
  eapply wp_mono; [apply (brelse_law dev x1 _ b t R1 H1)|].
  { cbn. rewrite ref_inc_eq. intros [=E]. apply (co_clean _ OK).
    destruct (c_refs c !! t) as [n|] eqn:Er; [|reflexivity]. pose proof (co_refs _ OK _ _ Er). cbn in E. lia. }
  intros [] x2 R2. apply HQ. eapply eq_ind; [exact R2|].
  unfold c_release, c_read. cbn. destruct c as [d v r h w]. cbn in *. subst h.
  apply cache_eq; try reflexivity.
  - apply ref_dec_inc. intros n. apply (co_refs _ OK).
  - apply delete_insert_id, lookup_empty.
Qed.
End Rules.

(** ** Histories of writes *)

(** From [c] to [c'] some blocks were written, and after every one of the
    writes the disk satisfied [P]. *)
Definition wrote (P : (Z -> mem) -> Prop) (c c' : cache) : Prop :=
  exists ws, c_writes c' = c_writes c ++ ws /\ c_disk c' = disk_after (c_disk c) ws /\
    every_crash P (c_disk c) ws.

Lemma wrote_refl (P : (Z -> mem) -> Prop) c : P (c_disk c) -> wrote P c c.
Proof.
  intros HP. exists []. rewrite app_nil_r. split; [reflexivity|]. split; [reflexivity|].
  apply every_crash_nil. exact HP.
Qed.

Lemma wrote_put (P : (Z -> mem) -> Prop) t m c :
  P (c_disk c) -> P (<[t := m]> (c_disk c)) -> wrote P c (c_put t m c).
Proof.
  intros H1 H2. exists [(t, m)]. split; [reflexivity|]. split; [reflexivity|].
  apply (every_crash_snoc P (c_disk c) []); [apply every_crash_nil; exact H1 | exact H2].
Qed.

Lemma wrote_trans P c c' c'' : wrote P c c' -> wrote P c' c'' -> wrote P c c''.
Proof.
  intros (ws & E1 & D1 & H1) (ws' & E2 & D2 & H2). exists (ws ++ ws').
  split; [rewrite E2, E1, app_assoc; reflexivity|].
  split; [rewrite D2, D1; unfold disk_after; rewrite foldl_app; reflexivity|].
  intros k. destruct (decide (k <= length ws)%nat).
  - rewrite take_app_le by lia. apply H1.
  - rewrite take_app_ge by lia. unfold disk_after. rewrite foldl_app. rewrite D1 in H2. apply H2.
Qed.

Lemma wrote_mono (P Q : (Z -> mem) -> Prop) c c' :
  (forall d, P d -> Q d) -> wrote P c c' -> wrote Q c c'.
Proof.
  intros H (ws & E & D & Hc). exists ws. split; [exact E|]. split; [exact D|].
  eapply every_crash_mono; eassumption.
Qed.

Lemma wrote_last P c c' : wrote P c c' -> P (c_disk c').
Proof. intros (ws & _ & -> & H). apply every_crash_last. exact H. Qed.

(** Unpinning keeps the history. *)
Lemma wrote_unpin P c c' b : wrote P c c' -> wrote P c (c_unpin b c').
Proof. intros (ws & H). exists ws. exact H. Qed.

(** ** Dropping the pins of a list of blocks *)

Definition unpinned (r : gmap Z Z) (bs : list Z) : gmap Z Z := foldl (fun r b => ref_dec b r) r bs.

Lemma unpinned_snoc r bs b : unpinned r (bs ++ [b]) = ref_dec b (unpinned r bs).
Proof. unfold unpinned. rewrite foldl_app. reflexivity. Qed.

Lemma unpinned_other r bs k : k ∉ bs -> unpinned r bs !! k = r !! k.
Proof.
  induction bs as [|b bs IH] using rev_ind; [reflexivity|].
  rewrite not_elem_of_app, list_elem_of_singleton. intros [H1 H2].
  rewrite unpinned_snoc, ref_dec_ne by exact H2. apply IH, H1.
Qed.

Lemma ref_dec_le b r k n : ref_dec b r !! k = Some n -> exists n0, r !! k = Some n0 /\ n <= n0.
Proof.
  destruct (decide (k = b)) as [->|Hne]; [|rewrite ref_dec_ne by exact Hne; exists n; split; [assumption | lia]].
  destruct (r !! b) as [n0|] eqn:E.
  - rewrite (ref_dec_eq _ _ _ E). case_match; [discriminate|]. intros [= <-]. exists n0. split; [reflexivity | lia].
  - unfold ref_dec. rewrite E, E. discriminate.
Qed.

Lemma unpinned_le r bs k n : unpinned r bs !! k = Some n -> exists n0, r !! k = Some n0 /\ n <= n0.
Proof.
  revert n. induction bs as [|b bs IH] using rev_ind; intros n; [exists n; split; [assumption | lia]|].
  rewrite unpinned_snoc. intros (n1 & H1 & Hle)%ref_dec_le.
  destruct (IH _ H1) as (n0 & H0 & Hle0). exists n0. split; [exact H0 | lia].
Qed.

Lemma unpinned_size r bs : (size (unpinned r bs) <= size r)%nat.
Proof.
  rewrite <- !size_dom. apply subseteq_size. intros k [n Hn]%elem_of_dom.
  destruct (unpinned_le _ _ _ _ Hn) as (n0 & H0 & _). apply elem_of_dom. eauto.
Qed.

(** ** The phases of a commit and of recovery *)

Section Phases.
Context {S : Type} `{BC : BufCache S}.
Context (dev : Z) (Hdev : u32 dev = dev) (start size : Z).
Context (Hgeo : 0 <= start /\ 0 < size <= LOGSIZE /\ start + size < 2 ^ 31).
#[local] Abbreviation in_log := (in_log start size).
#[local] Abbreviation log_wf := (log_wf start size).
#[local] Abbreviation slot := (slot start).
#[local] Abbreviation recovers := (recovers start size).

(** Installing the blocks [bs] of a committed transaction whose contents are
    [V]: the first [i] are home. *)
Record installing (bs : list Z) (V : Z -> mem) (recovering : bool) (i : nat) (c : cache) : Prop := {
  in_head : head_is (c_disk c start) bs;
  in_slot : forall j b, bs !! j = Some b -> c_disk c (slot j) ≡ V b /\ c_view c (slot j) ≡ V b;
  in_rest : forall blk, ~ in_log blk -> blk ∉ bs -> c_disk c blk ≡ V blk /\ c_view c blk ≡ V blk;
  in_done : forall j b, (j < i)%nat -> bs !! j = Some b -> c_disk c b ≡ V b /\ c_view c b ≡ V b;
  in_view : recovering = false -> forall blk, ~ in_log blk -> c_view c blk ≡ V blk
}.

Lemma installing_recovers bs V r i c : log_wf bs -> installing bs V r i c -> recovers V (c_disk c).
Proof.
  intros W I. apply (recovers_logged start size V _ bs W (in_head _ _ _ _ _ I)).
  - intros j b Hj. apply (in_slot _ _ _ _ _ I j b Hj).
  - intros blk H1 H2. apply (in_rest _ _ _ _ _ I blk H1 H2).
Qed.

Lemma installing_put bs V r i c f m :
  log_wf bs -> installing bs V r i c -> bs !! i = Some f -> m ≡ V f ->
  installing bs V r (Datatypes.S i) (c_put f m c).
Proof.
  intros W I Hf Hm. pose proof (lw_out _ _ _ W f (list_elem_of_lookup_2 _ _ _ Hf)) as [_ Hfl].
  assert (Hput : forall (g : Z -> mem) k, (<[f := m]> g) k = if decide (f = k) then m else g k).
  { intros g k. case_decide as E; [subst; apply fn_lookup_insert | apply fn_lookup_insert_ne; exact E]. }
  constructor; cbn [c_put c_disk c_view].
  - rewrite Hput. case_decide as E; [|apply I]. exfalso. apply Hfl. unfold LogCrash.in_log. lia.
  - intros j b Hj. rewrite !Hput. case_decide as E; [|apply (in_slot _ _ _ _ _ I j b Hj)]. exfalso.
    apply Hfl. rewrite E. apply (slot_in start size j bs W). eapply lookup_lt_Some. exact Hj.
  - intros blk H1 H2. rewrite !Hput. case_decide as E; [|apply (in_rest _ _ _ _ _ I blk H1 H2)].
    exfalso. subst blk. apply H2. eapply list_elem_of_lookup_2. exact Hf.
  - intros j b Hj Hb. rewrite !Hput. case_decide as E; [subst b; auto|].
    apply (in_done _ _ _ _ _ I j b); [|exact Hb]. destruct (decide (j = i)) as [->|]; [congruence | lia].
  - intros Er blk Hblk. rewrite Hput. case_decide as E; [subst; exact Hm | apply (in_view _ _ _ _ _ I Er blk Hblk)].
Qed.

(** The reference counts after [i] blocks are installed. *)
Definition inst_refs (recovering : bool) (r : gmap Z Z) (bs : list Z) (i : nat) : gmap Z Z :=
  if recovering then r else unpinned r (take i bs).

Lemma installing_step bs V r i c f m :
  log_wf bs -> installing bs V r i c -> bs !! i = Some f -> m ≡ V f ->
  wrote (recovers V) c (c_put f m c).
Proof.
  intros W I Hf Hm. apply wrote_put; [exact (installing_recovers _ _ _ _ _ W I)|].
  exact (installing_recovers _ _ _ _ _ W (installing_put _ _ _ _ _ _ _ W I Hf Hm)).
Qed.

Section Install.
Context (s : lstate S) (Hs : l_dev s = dev) (Hst : l_start s = start).
Context (bs : list Z) (W : log_wf bs) (Hn : l_n s = Z.of_nat (length bs)).
Context (Hblk : holds_blocks (l_block s) bs) (V : Z -> mem).

(** Room in the cache, and the pins, that installing relies on. *)
Definition inst_room (recovering : bool) (c : cache) : Prop :=
  c_held c = ∅ /\ small_refs c /\ Z.of_nat (base.size (c_refs c)) < NBUF /\
  if recovering then Z.of_nat (base.size (c_refs c)) + 1 < NBUF
  else forall b, b ∈ bs -> is_Some (c_refs c !! b).

Lemma slot_eq i : l_start s + Z.of_nat i + 1 = slot i.
Proof. unfold LogCrash.slot. rewrite Hst. reflexivity. Qed.

Lemma bs_range i f : bs !! i = Some f ->
  0 <= f < 2 ^ 31 /\ 0 <= slot i < 2 ^ 31 /\ slot i <> f.
Proof.
  intros Hf. pose proof (lookup_lt_Some _ _ _ Hf) as Hi.
  destruct (lw_out _ _ _ W f (list_elem_of_lookup_2 _ _ _ Hf)) as [Hr Hl].
  destruct (slot_in start size i bs W Hi) as [Hsl _].
  split; [exact Hr|]. split; [unfold LogCrash.in_log in Hsl; lia|]. intros <-. contradiction.
Qed.

Lemma install_trans_wp recovering x c :
  cache_rel dev x c -> inst_room recovering c -> installing bs V recovering 0 c ->
  wp (install_trans recovering) (fun _ s' => exists x' c',
    s' = set_bc x' s /\ cache_rel dev x' c' /\ installing bs V recovering (length bs) c' /\
    c_held c' = ∅ /\ c_refs c' = inst_refs recovering (c_refs c) bs (length bs) /\
    wrote (recovers V) c c') (set_bc x s).
Proof.
  intros R (Hh & Hsm & Hsz & Hroom) I0. unfold install_trans. apply wp_bind, wp_gets.
  cbn [l_n set_bc]. rewrite Hn, Nat2Z.id.
  apply (wp_loop (fun k tail s' => exists i x' c', tail = Z.of_nat i /\ (i + k = length bs)%nat /\
    s' = set_bc x' s /\ cache_rel dev x' c' /\ installing bs V recovering i c' /\
    c_held c' = ∅ /\ c_refs c' = inst_refs recovering (c_refs c) bs i /\
    wrote (recovers V) c c')) with (k := length bs); [| | lia].
  2:{ exists O, x, c. repeat (split; [first [reflexivity | assumption | lia]|]).
      split; [destruct recovering; reflexivity|]. apply wrote_refl. exact (installing_recovers _ _ _ _ _ W I0). }
  intros k tail s' (i & x' & c' & -> & Hik & -> & R' & I' & Hh' & Hr' & Hw').
  destruct k as [|k].
  { unfold install_step. apply wp_bind, wp_gets. cbn [l_n set_bc]. rewrite Hn.
    replace (_ <? _) with false by lia. apply wp_ret.
    replace i with (length bs) in * by lia. exists x', c'. auto 10. }
  destruct (lookup_lt_is_Some_2 bs i ltac:(lia)) as [f Hf].
  destruct (bs_range i f Hf) as (Hfr & Hsr & Hsf).
  assert (Hm : copy_block (c_view c' f) (c_view c' (slot i)) ≡ V f).
  { rewrite copy_block_eq. apply (in_slot _ _ _ _ _ I' i f Hf). }
  assert (Hsize : (base.size (c_refs c') <= base.size (c_refs c))%nat).
  { rewrite Hr'. unfold inst_refs. destruct recovering; [lia | apply unpinned_size]. }
  eapply (install_step_wp dev Hdev s Hs recovering (Z.of_nat i) (slot i) f x' c' _
    ltac:(lia) (slot_eq i) (Hblk i f Hf) R' Hh').
  - intros b n Hb. rewrite Hr' in Hb. unfold inst_refs in Hb. destruct recovering; [apply (Hsm _ _ Hb)|].
    destruct (unpinned_le _ _ _ _ Hb) as (n0 & H0 & Hle). apply Hsm in H0. lia.
  - exact Hsf.
  - exact Hsr.
  - exact Hfr.
  - lia.
  - destruct recovering; [lia|]. rewrite Hr'. cbn. rewrite unpinned_other.
    + apply Hroom. eapply list_elem_of_lookup_2. exact Hf.
    + intros (j & Hj)%list_elem_of_lookup_1. apply lookup_take_Some in Hj as [Hj Hlt].
      pose proof (NoDup_lookup _ _ _ _ (lw_nodup _ _ _ W) Hf Hj). lia.
  - intros x'' R''. exists k. split; [lia|]. eexists (Datatypes.S i), x'', _.
    split; [lia|]. split; [lia|]. split; [reflexivity|]. split; [exact R''|]. cbv zeta in *.
    pose proof (installing_put bs V recovering i c' f _ W I' Hf Hm) as Inew.
    pose proof (wrote_trans _ _ _ _ Hw' (installing_step bs V recovering i c' f _ W I' Hf Hm)) as Hwnew.
    destruct recovering; (split; [first [exact Inew | destruct Inew; constructor; assumption]|]);
      (split; [exact Hh'|]); (split; [|first [exact Hwnew | apply wrote_unpin; exact Hwnew]]).
    + exact Hr'.
    + cbn. rewrite Hr'. cbn. rewrite (take_S_r _ _ _ Hf), unpinned_snoc. reflexivity.
Qed.
End Install.

(** A quiet log: the header is empty and the disk holds the contents [V]. *)
Record quiet (V : Z -> mem) (c : cache) : Prop := {
  q_head : head_is (c_disk c start) [];
  q_data : forall blk, ~ in_log blk -> c_disk c blk ≡ V blk /\ c_view c blk ≡ V blk
}.

Lemma put_head_empty block m : head_is (put_head 0 block m) [].
Proof.
  apply (put_head_is block m []); [intros i b Hi; discriminate | cbn; lia |].
  intros b Hb. destruct (not_elem_of_nil _ Hb).
Qed.

Lemma installed_clear bs V r c block m :
  log_wf bs -> installing bs V r (length bs) c ->
  quiet V (c_put start (put_head 0 block m) c) /\
  wrote (recovers V) c (c_put start (put_head 0 block m) c).
Proof.
  intros W I.
  assert (Hall : forall blk, ~ in_log blk -> c_disk c blk ≡ V blk /\ c_view c blk ≡ V blk).
  { intros blk Hblk. destruct (decide (blk ∈ bs)) as [Hin|Hin]; [|apply (in_rest _ _ _ _ _ I blk Hblk Hin)].
    apply list_elem_of_lookup_1 in Hin as [j Hj].
    apply (in_done _ _ _ _ _ I j blk (lookup_lt_Some _ _ _ Hj) Hj). }
  assert (Hq : quiet V (c_put start (put_head 0 block m) c)).
  { constructor; cbn [c_put c_disk c_view].
    - rewrite fn_lookup_insert. apply put_head_empty.
    - intros blk Hblk. rewrite !fn_lookup_insert_ne by (intros <-; apply Hblk; unfold LogCrash.in_log; lia).
      apply Hall, Hblk. }
  split; [exact Hq|]. apply wrote_put; [exact (installing_recovers _ _ _ _ _ W I)|].
  apply (recovers_empty start size Hgeo); [apply Hq | intros blk Hblk; apply (q_data _ _ Hq blk Hblk)].
Qed.

(** *** Recovery *)

Lemma installing_fresh bs V d :
  log_wf bs -> head_is (d start) bs -> (forall blk, ~ in_log blk -> replay start d bs blk ≡ V blk) ->
  installing bs V true 0 (c_fresh d).
Proof.
  intros W Hh Hv. constructor; cbn [c_fresh c_disk c_view].
  - exact Hh.
  - intros j b Hj. pose proof (lw_out _ _ _ W b (list_elem_of_lookup_2 _ _ _ Hj)) as [_ Hb].
    specialize (Hv b Hb). rewrite (replay_logged _ _ _ _ _ (lw_nodup _ _ _ W) Hj) in Hv. auto.
  - intros blk H1 H2. specialize (Hv blk H1). rewrite replay_other in Hv by exact H2. auto.
  - intros j b Hj. lia.
  - discriminate.
Qed.

Lemma initlog_wp sb s V d x :
  cache_rel dev x (c_fresh d) -> l_bc s = x -> i32 (sb_logstart sb) = start -> i32 (sb_nlog sb) = size ->
  recovers V d ->
  wp (initlog dev sb) (fun _ s' => exists c',
    cache_rel dev (l_bc s') c' /\ l_start s' = start /\ l_size s' = size /\ l_dev s' = dev /\
    l_n s' = 0 /\ l_lock s' = false /\ l_outstanding s' = l_outstanding s /\
    l_committing s' = l_committing s /\
    quiet V c' /\ c_held c' = ∅ /\ c_refs c' = ∅ /\ wrote (recovers V) (c_fresh d) c') s.
Proof.
  intros R Hx Es En (bs & W & Hh & Hv). unfold initlog. wp_steps. apply wp_panic_if; [reflexivity|].
  wp_steps. rewrite Es, En. set (s1 := set_geometry start size dev (set_llock false s)).
  assert (E1 : s1 = set_bc x s1) by (unfold s1; rewrite <- Hx; reflexivity). rewrite E1.
  unfold recover_from_log. apply wp_bind.
  assert (Hsm : small_refs (c_fresh d)) by (intros k n Hk; cbn in Hk; rewrite lookup_empty in Hk; discriminate).
  apply (read_head_wp dev Hdev s1 eq_refl x (c_fresh d) _ R eq_refl Hsm); [cbn; lia | reflexivity |].
  intros x1 R1. cbn [c_fresh c_view]. cbv zeta. change (l_start s1) with start.
  set (block := get_blocks _ _ _ _). pose proof (proj1 Hh) as Hn. rewrite Hn.
  set (s2 := set_lh (Z.of_nat (length bs)) block s1). apply wp_bind.
  eapply wp_mono.
  { apply (install_trans_wp s2 eq_refl eq_refl bs W eq_refl) with (V := V) (c := c_fresh d).
    - apply get_blocks_holds. exact Hh.
    - exact R1.
    - split; [reflexivity|]. split; [exact Hsm|]. split; reflexivity.
    - apply installing_fresh; assumption. }
  intros [] s' (x2 & c2 & -> & R2 & I2 & Hh2 & Hr2 & Hw2). wp_steps.
  change (set_lh 0 (l_block (set_bc x2 s2)) (set_bc x2 s2)) with (set_bc x2 (set_lh 0 block s2)).
  cbn [inst_refs c_fresh c_refs] in Hr2.
  apply (write_head_wp dev Hdev (set_lh 0 block s2) eq_refl x2 c2 _ R2 Hh2).
  - intros k n Hk. rewrite Hr2, lookup_empty in Hk. discriminate.
  - cbn. lia.
  - rewrite Hr2. reflexivity.
  - intros x3 R3. eexists. split; [exact R3|].
    destruct (installed_clear bs V true c2 block (c_view c2 start) W I2) as [Hq Hw3].
    repeat (split; [reflexivity|]). split; [exact Hq|]. split; [exact Hh2|]. split; [exact Hr2|].
    exact (wrote_trans _ _ _ _ Hw2 Hw3).
Qed.

(** *** Commit *)

(** [write_log] has copied the first [i] blocks; [D0] is the disk of before
    the commit, [V0] the contents of the cache. *)
Record logging (D0 V0 : Z -> mem) (bs : list Z) (i : nat) (c : cache) : Prop := {
  lg_head : head_is (c_disk c start) [];
  lg_out : forall blk, ~ in_log blk -> c_disk c blk = D0 blk /\ c_view c blk = V0 blk;
  lg_slot : forall j b, (j < i)%nat -> bs !! j = Some b ->
    c_disk c (slot j) ≡ V0 b /\ c_view c (slot j) ≡ V0 b
}.

Lemma logging_recovers D0 V0 bs i c : logging D0 V0 bs i c -> recovers D0 (c_disk c).
Proof.
  intros L. apply (recovers_empty start size Hgeo); [apply L|].
  intros blk Hb. rewrite (proj1 (lg_out _ _ _ _ _ L blk Hb)). reflexivity.
Qed.

Lemma logging_put D0 V0 bs i c f m :
  log_wf bs -> logging D0 V0 bs i c -> bs !! i = Some f -> m ≡ V0 f ->
  logging D0 V0 bs (Datatypes.S i) (c_put (slot i) m c).
Proof.
  intros W L Hf Hm. destruct (slot_in start size i bs W (lookup_lt_Some _ _ _ Hf)) as [Hin Hne].
  constructor; cbn [c_put c_disk c_view].
  - rewrite fn_lookup_insert_ne by exact Hne. apply L.
  - intros blk Hb. rewrite !fn_lookup_insert_ne by (intros <-; contradiction). apply (lg_out _ _ _ _ _ L blk Hb).
  - intros j b Hj Hb. destruct (decide (j = i)) as [->|Hji].
    + rewrite !fn_lookup_insert. rewrite Hf in Hb. injection Hb as <-. auto.
    + rewrite !fn_lookup_insert_ne by (unfold LogCrash.slot; lia). apply (lg_slot _ _ _ _ _ L j b); [lia | exact Hb].
Qed.

Section Commit.
Context (s : lstate S) (Hs : l_dev s = dev) (Hst : l_start s = start).
Context (bs : list Z) (W : log_wf bs) (Hn : l_n s = Z.of_nat (length bs)).
Context (Hblk : holds_blocks (l_block s) bs) (D0 V0 : Z -> mem).

Lemma write_log_wp x c :
  cache_rel dev x c -> inst_room bs false c -> logging D0 V0 bs 0 c ->
  wp write_log (fun _ s' => exists x' c',
    s' = set_bc x' s /\ cache_rel dev x' c' /\ logging D0 V0 bs (length bs) c' /\
    c_held c' = ∅ /\ c_refs c' = c_refs c /\ wrote (recovers D0) c c') (set_bc x s).
Proof.
  intros R (Hh & Hsm & Hsz & Hpin) L0. unfold write_log. apply wp_bind, wp_gets.
  cbn [l_n set_bc]. rewrite Hn, Nat2Z.id.
  apply (wp_loop (fun k tail s' => exists i x' c', tail = Z.of_nat i /\ (i + k = length bs)%nat /\
    s' = set_bc x' s /\ cache_rel dev x' c' /\ logging D0 V0 bs i c' /\
    c_held c' = ∅ /\ c_refs c' = c_refs c /\ wrote (recovers D0) c c')) with (k := length bs); [| | lia].
  2:{ exists O, x, c. repeat (split; [first [reflexivity | assumption | lia]|]).
      apply wrote_refl. exact (logging_recovers _ _ _ _ _ L0). }
  intros k tail s' (i & x' & c' & -> & Hik & -> & R' & L' & Hh' & Hr' & Hw').
  destruct k as [|k].
  { unfold write_log_step. apply wp_bind, wp_gets. cbn [l_n set_bc]. rewrite Hn.
    replace (_ <? _) with false by lia. apply wp_ret.
    replace i with (length bs) in * by lia. exists x', c'. auto 10. }
  destruct (lookup_lt_is_Some_2 bs i ltac:(lia)) as [f Hf].
  destruct (bs_range bs W i f Hf) as (Hfr & Hsr & Hsf).
  destruct (lw_out _ _ _ W f (list_elem_of_lookup_2 _ _ _ Hf)) as [_ Hfl].
  assert (Hm : copy_block (c_view c' (slot i)) (c_view c' f) ≡ V0 f).
  { rewrite copy_block_eq, (proj2 (lg_out _ _ _ _ _ L' f Hfl)). reflexivity. }
  eapply (write_log_step_wp dev Hdev s Hs (Z.of_nat i) (slot i) f x' c' _
    ltac:(lia) (slot_eq s Hst i) (Hblk i f Hf) R' Hh').
  - intros b n Hb. rewrite Hr' in Hb. apply (Hsm _ _ Hb).
  - exact Hsf.
  - exact Hsr.
  - exact Hfr.
  - rewrite Hr'. exact Hsz.
  - rewrite Hr'. apply Hpin. eapply list_elem_of_lookup_2. exact Hf.
  - intros x'' R''. exists k. split; [lia|]. eexists (Datatypes.S i), x'', _.
    split; [lia|]. split; [lia|]. split; [reflexivity|]. split; [exact R''|].
    pose proof (logging_put D0 V0 bs i c' f _ W L' Hf Hm) as Lnew. split; [exact Lnew|].
    split; [exact Hh'|]. split; [exact Hr'|]. eapply wrote_trans; [exact Hw'|].
    apply wrote_put; [exact (logging_recovers _ _ _ _ _ L') | exact (logging_recovers _ _ _ _ _ Lnew)].
Qed.

(** The header write is the commit point. *)
Lemma logged_commit c block m :
  logging D0 V0 bs (length bs) c -> holds_blocks block bs ->
  (forall blk, ~ in_log blk -> blk ∉ bs -> V0 blk ≡ D0 blk) ->
  installing bs V0 false 0 (c_put start (put_head (Z.of_nat (length bs)) block m) c).
Proof.
  intros L Hb Hcl. pose proof (lw_len _ _ _ W) as Hlen.
  assert (Hns : forall blk, ~ in_log blk -> start <> blk) by (intros blk H1 ->; apply H1; unfold LogCrash.in_log; lia).
  constructor; cbn [c_put c_disk c_view].
  - rewrite fn_lookup_insert. apply put_head_is; [exact Hb | unfold LOGSIZE, MAXOPBLOCKS in *; lia |].
    intros b Hin. apply (lw_out _ _ _ W b Hin).
  - intros j b Hj. pose proof (lookup_lt_Some _ _ _ Hj) as Hlt.
    rewrite !fn_lookup_insert_ne by (unfold LogCrash.slot; lia). apply (lg_slot _ _ _ _ _ L j b Hlt Hj).
  - intros blk H1 H2. rewrite !fn_lookup_insert_ne by (apply Hns; exact H1).
    destruct (lg_out _ _ _ _ _ L blk H1) as [-> ->]. split; [symmetry; apply Hcl; assumption | reflexivity].
  - intros j b Hj. lia.
  - intros _ blk H1. rewrite fn_lookup_insert_ne by (apply Hns; exact H1).
    rewrite (proj2 (lg_out _ _ _ _ _ L blk H1)). reflexivity.
Qed.

Lemma commit_wp x c :
  bs <> [] -> cache_rel dev x c -> inst_room bs false c ->
  head_is (c_disk c start) [] -> c_disk c = D0 -> c_view c = V0 ->
  (forall blk, ~ in_log blk -> blk ∉ bs -> V0 blk ≡ D0 blk) ->
  wp commit (fun _ s' => exists x' c' c1 m,
    s' = set_bc x' (set_lh 0 (l_block s) s) /\ cache_rel dev x' c' /\ quiet V0 c' /\
    c_held c' = ∅ /\ c_refs c' = unpinned (c_refs c) bs /\
    wrote (recovers D0) c c1 /\ wrote (recovers V0) (c_put start m c1) c') (set_bc x s).
Proof.
  intros Hne R Hroom Hh ED EV Hcl. pose proof Hroom as (Hhd & Hsm & Hsz & Hpin).
  unfold commit. apply wp_bind, wp_gets. cbn [l_n set_bc]. apply wp_when.
  2:{ intros E. destruct bs; [congruence | cbn [length] in Hn; lia]. }
  intros _. apply wp_bind. eapply wp_mono.
  { apply (write_log_wp x c R Hroom). constructor; [exact Hh | subst; auto | lia]. }
  intros [] s1 (x1 & c1 & -> & R1 & L1 & Hh1 & Hr1 & Hw1). apply wp_bind.
  assert (Hsm1 : small_refs c1) by (intros k n Hk; rewrite Hr1 in Hk; exact (Hsm _ _ Hk)).
  assert (Hsz1 : Z.of_nat (base.size (c_refs c1)) < NBUF) by (rewrite Hr1; exact Hsz).
  apply (write_head_wp dev Hdev s Hs x1 c1 _ R1 Hh1 Hsm1); [lia | exact Hsz1 |].
  intros x2 R2. rewrite Hst, Hn in R2. set (m := put_head _ _ _) in *.
  pose proof (logged_commit c1 (l_block s) (c_view c1 start) L1 Hblk Hcl) as I2. fold m in I2.
  apply wp_bind. eapply wp_mono.
  { apply (install_trans_wp s Hs Hst bs W Hn Hblk V0 false x2 _ R2); [|exact I2].
    split; [exact Hh1|]. split; [exact Hsm1|]. split; [exact Hsz1|]. cbn. rewrite Hr1. exact Hpin. }
  intros [] s3 (x3 & c3 & -> & R3 & I3 & Hh3 & Hr3 & Hw3). wp_steps.
  change (set_lh 0 (l_block (set_bc x3 s)) (set_bc x3 s)) with (set_bc x3 (set_lh 0 (l_block s) s)).
  unfold inst_refs in Hr3. rewrite firstn_all in Hr3. cbn [c_put c_refs] in Hr3. rewrite Hr1 in Hr3.
  apply (write_head_wp dev Hdev (set_lh 0 (l_block s) s) Hs x3 c3 _ R3 Hh3).
  - intros k n Hk. rewrite Hr3 in Hk. destruct (unpinned_le _ _ _ _ Hk) as (n0 & H0 & Hle). apply Hsm in H0. lia.
  - cbn. lia.
  - rewrite Hr3. pose proof (unpinned_size (c_refs c) bs). lia.
  - cbn [l_start l_n l_block set_lh]. rewrite Hst. intros x4 R4.
    destruct (installed_clear bs V0 false c3 (l_block s) (c_view c3 start) W I3) as [Hq Hw4].
    eexists x4, _, c1, m. split; [reflexivity|]. split; [exact R4|]. split; [exact Hq|].
    split; [exact Hh3|]. split; [exact Hr3|]. split; [exact Hw1|]. exact (wrote_trans _ _ _ _ Hw3 Hw4).
Qed.
End Commit.
End Phases.
