(* ===== verification/LogTx.v ===== *)
(** * Atomic transactions

    A file-system operation as the log sees it: [begin_op], a sequence of
    block updates ([bread], modify, [log_write], [brelse]), [end_op].  The
    theorems state that such a transaction takes effect as a whole: when it
    returns, and at whatever point of it the machine stops. *)

From S2P Require Import Prelude Memory FsDefs Bio BufCache Log LogCrash.

Section Tx.
Context {S : Type} `{BC : BufCache S}.

(** Read block [blk], put [m] in its buffer, log it. *)
Definition tx_write (u : Z * mem) : M (lstate S) unit :=
  b ← lbread u.1;
  bstore b u.2;;
  log_write b;;
  bio (brelse b).

Fixpoint tx_writes (us : list (Z * mem)) : M (lstate S) unit :=
  match us with
  | [] => mret tt
  | u :: us' => tx_write u;; tx_writes us'
  end.

Definition transaction (us : list (Z * mem)) : M (lstate S) unit :=
  begin_op;; tx_writes us;; end_op.

(** ** log_write *)

Lemma find_block_spec k i block blk :
  (forall j, i <= j < i + Z.of_nat k -> 0 <= block j < 2 ^ 31) ->
  let r := find_block k i block blk in
  i <= r <= i + Z.of_nat k /\
  (r < i + Z.of_nat k -> block r = blk) /\
  (forall j, i <= j < r -> block j <> blk).
Proof.
  revert i. induction k as [|k IH]; intros i Hr; cbn [find_block]; cbv zeta.
  - split; [lia|]. split; [lia|]. intros j Hj. lia.
  - rewrite u32_small by (specialize (Hr i ltac:(lia)); lia).
    destruct (Z.eqb_spec (block i) blk) as [E|E].
    + split; [lia|]. split; [auto|]. intros j Hj. lia.
    + destruct (IH (i + 1)) as (H1 & H2 & H3); [intros j Hj; apply Hr; lia|].
      split; [lia|]. split; [intros Hlt; apply H2; lia|].
      intros j Hj. destruct (decide (j = i)) as [->|]; [exact E | apply H3; lia].
Qed.

(** The in-memory log after logging [blk]. *)
Definition absorb (bs : list Z) (blk : Z) : list Z := if decide (blk ∈ bs) then bs else bs ++ [blk].

Lemma absorb_spec bs blk block :
  NoDup bs -> holds_blocks block bs -> (forall b, b ∈ bs -> 0 <= b < 2 ^ 31) -> 0 <= blk < 2 ^ 31 ->
  let i := find_block (length bs) 0 block blk in
  holds_blocks (<[i := blk]> block) (absorb bs blk) /\
  (i =? Z.of_nat (length bs)) = negb (bool_decide (blk ∈ bs)).
Proof.
  intros Hnd Hb Hr Hblk i.
  assert (Hrng : forall j, 0 <= j < 0 + Z.of_nat (length bs) -> 0 <= block j < 2 ^ 31).
  { intros j Hj. destruct (lookup_lt_is_Some_2 bs (Z.to_nat j) ltac:(lia)) as [b Hj'].
    pose proof (Hb _ _ Hj') as E. rewrite Z2Nat.id in E by lia. rewrite E.
    apply Hr. eapply list_elem_of_lookup_2. exact Hj'. }
  destruct (find_block_spec (length bs) 0 block blk Hrng) as (H1 & H2 & H3). fold i in H1, H2, H3.
  destruct (decide (i < Z.of_nat (length bs))) as [Hlt|Hge].
  - specialize (H2 ltac:(lia)). destruct (lookup_lt_is_Some_2 bs (Z.to_nat i) ltac:(lia)) as [b Hi].
    pose proof (Hb _ _ Hi) as E. rewrite Z2Nat.id in E by lia.
    assert (Hin : blk ∈ bs) by (eapply list_elem_of_lookup_2; rewrite Hi; f_equal; congruence).
    unfold absorb. rewrite decide_True by exact Hin. split.
    + intros j c Hj. destruct (decide (Z.of_nat j = i)) as [Ej|Ej].
      * rewrite <- Ej, fn_lookup_insert. specialize (Hb j c Hj). rewrite Ej in Hb. congruence.
      * rewrite fn_lookup_insert_ne by congruence. apply Hb, Hj.
    + rewrite bool_decide_true by exact Hin. cbn. lia.
  - assert (Ei : i = Z.of_nat (length bs)) by lia.
    assert (Hni : blk ∉ bs).
    { intros (j & Hj)%list_elem_of_lookup_1. pose proof (lookup_lt_Some _ _ _ Hj).
      apply (H3 (Z.of_nat j)); [lia|]. apply Hb. exact Hj. }
    unfold absorb. rewrite decide_False by exact Hni. split.
    + intros j c Hj. apply lookup_app_Some in Hj as [Hj|[Hge' Hj]].
      * pose proof (lookup_lt_Some _ _ _ Hj). rewrite fn_lookup_insert_ne by lia. apply Hb, Hj.
      * apply list_lookup_singleton_Some in Hj as [Hj <-].
        replace (Z.of_nat j) with i by lia. apply fn_lookup_insert.
    + rewrite bool_decide_false by exact Hni. cbn. lia.
Qed.

Section Run.
Context (dev : Z) (Hdev : u32 dev = dev) (start size : Z).
Context (Hgeo : 0 <= start /\ 0 < size <= LOGSIZE /\ start + size < 2 ^ 31).

Lemma log_write_wp s x c bs b blk (Q : unit -> lstate S -> Prop) :
  l_lock s = false -> 1 <= l_outstanding s -> l_size s = size -> l_bc s = x ->
  l_n s = Z.of_nat (length bs) -> Z.of_nat (length bs) < size - 1 ->
  NoDup bs -> holds_blocks (l_block s) bs -> (forall b, b ∈ bs -> 0 <= b < 2 ^ 31) ->
  cache_rel dev x c -> c_held c !! b = Some blk -> 0 <= blk < 2 ^ 31 ->
  default 0 (c_refs c !! blk) < 2 ^ 31 ->
  (forall x' block', cache_rel dev x' (if decide (blk ∈ bs) then c else c_pin blk c) ->
     holds_blocks block' (absorb bs blk) ->
     Q tt (set_bc x' (set_lh (Z.of_nat (length (absorb bs blk))) block' s))) ->
  wp (log_write b) Q s.
Proof.
  intros Hl Ho Hsz Hx Hn Hroom Hnd Hb Hr R Hh Hblk Hd HQ.
  destruct (absorb_spec bs blk (l_block s) Hnd Hb Hr Hblk) as [Hb' Hi].
  unfold log_write, lock_log, unlock_log. apply wp_bind, wp_acquire; [exact Hl|].
  apply wp_bind, wp_get. cbn [l_n l_size l_outstanding set_llock].
  apply wp_bind, wp_panic_if; [rewrite Hn; unfold LOGSIZE, MAXOPBLOCKS in *; lia|].
  apply wp_bind, wp_panic_if; [lia|]. apply wp_bind, wp_gets. cbn [l_bc set_llock].
  rewrite Hx, (proj2 (data_law dev x c b blk R Hh)). cbv zeta. cbn [l_block set_llock]. rewrite Hn, Nat2Z.id.
  set (i := find_block _ _ _ _) in *.
  apply wp_bind, wp_modify. cbn [l_n l_block set_lh set_llock].
  assert (Ei32 : i32 blk = blk) by (rewrite <- (u32_small blk) at 1 by lia; apply i32_u32; lia).
  rewrite Ei32, Hi. apply wp_bind, wp_when; rewrite negb_true_iff || rewrite negb_false_iff; intros Hin.
  - apply bool_decide_eq_false in Hin. apply wp_bind. unfold bio. apply wp_zoom. cbn [l_bc set_lh set_llock].
    rewrite Hx. eapply wp_mono; [exact (bpin_law dev x c b blk R Hh Hd)|]. intros [] x' R'.
    apply wp_modify. apply wp_release; [reflexivity|].
    specialize (HQ x' (<[i := blk]> (l_block s))). rewrite decide_False in HQ by exact Hin.
    specialize (HQ R' Hb'). unfold absorb in HQ. rewrite decide_False, length_app in HQ by exact Hin.
    replace (Z.of_nat (length bs + length [blk])) with (l_n s + 1) in HQ by (cbn [length]; lia).
    clear -HQ Hl. destruct s. cbn in *. subst. exact HQ.
  - apply bool_decide_eq_true in Hin. apply wp_release; [reflexivity|].
    specialize (HQ x (<[i := blk]> (l_block s))). rewrite decide_True in HQ by exact Hin.
    specialize (HQ R Hb'). unfold absorb in HQ. rewrite decide_True, <- Hn in HQ by exact Hin.
    clear -HQ Hl Hx. destruct s. cbn in *. subst. exact HQ.
Qed.

(** An open transaction on the disk [D] that has logged the blocks [bs]. *)
Record open_tx (D : Z -> mem) (ws : list (Z * mem)) (s : lstate S) (c : cache) (bs : list Z) : Prop := {
  ot_rel : cache_rel dev (l_bc s) c;
  ot_dev : l_dev s = dev;
  ot_start : l_start s = start;
  ot_size : l_size s = size;
  ot_lock : l_lock s = false;
  ot_out : 1 <= l_outstanding s;
  ot_com : l_committing s = false;
  ot_n : l_n s = Z.of_nat (length bs);
  ot_block : holds_blocks (l_block s) bs;
  ot_nodup : NoDup bs;
  ot_range : forall b, b ∈ bs -> 0 <= b < 2 ^ 31 /\ ~ in_log start size b;
  ot_held : c_held c = ∅;
  ot_refs : forall k, c_refs c !! k = if decide (k ∈ bs) then Some 1 else None;
  ot_disk : c_disk c = D;
  ot_writes : c_writes c = ws;
  ot_clean : forall k, k ∉ bs -> c_view c k = D k
}.

Lemma pins_size (r : gmap Z Z) bs :
  (forall k, r !! k = if decide (k ∈ bs) then Some 1 else None) -> (base.size r <= length bs)%nat.
Proof.
  intros Hr. assert (Hsub : dom r ⊆ list_to_set bs).
  { intros k [n Hk]%elem_of_dom. rewrite Hr in Hk. case_decide; [|discriminate]. apply elem_of_list_to_set. assumption. }
  apply subseteq_size in Hsub. rewrite size_dom in Hsub.
  assert (Hlen : (base.size (list_to_set bs : gset Z) <= length bs)%nat).
  { clear -bs. induction bs as [|b bs IH]; cbn; [rewrite size_empty; lia|]. rewrite size_union_alt.
    assert (base.size (list_to_set bs ∖ {[b]} : gset Z) <= base.size (list_to_set bs : gset Z))%nat
      by (apply subseteq_size; intros x Hx; apply elem_of_difference in Hx; apply Hx).
    rewrite size_singleton. lia. }
  lia.
Qed.

Lemma absorb_wf bs blk :
  NoDup bs -> (forall b, b ∈ bs -> 0 <= b < 2 ^ 31 /\ ~ in_log start size b) ->
  0 <= blk < 2 ^ 31 /\ ~ in_log start size blk ->
  NoDup (absorb bs blk) /\
  (forall b, b ∈ absorb bs blk <-> b ∈ bs \/ b = blk) /\
  (forall b, b ∈ absorb bs blk -> 0 <= b < 2 ^ 31 /\ ~ in_log start size b) /\
  (length (absorb bs blk) <= Datatypes.S (length bs))%nat.
Proof.
  intros Hnd Hr Hb.
  assert (Hin : forall b, b ∈ absorb bs blk <-> b ∈ bs \/ b = blk).
  { intros b. unfold absorb. case_decide as E; [|rewrite elem_of_app, list_elem_of_singleton; tauto].
    split; [auto|]. intros [?| ->]; assumption. }
  split; [|split; [exact Hin|split]].
  - unfold absorb. case_decide as E; [exact Hnd|]. apply NoDup_app. split; [exact Hnd|].
    split; [|apply NoDup_singleton]. intros x Hx ->%list_elem_of_singleton. contradiction.
  - intros b [H1| ->]%Hin; [apply Hr; exact H1 | exact Hb].
  - unfold absorb. case_decide; [lia|]. rewrite length_app. cbn. lia.
Qed.

Lemma set_bc_id (s : lstate S) : s = set_bc (l_bc s) s.
Proof. destruct s. reflexivity. Qed.

Lemma tx_write_wp D ws s c bs blk m :
  open_tx D ws s c bs -> Z.of_nat (length bs) < size - 1 -> 0 <= blk < 2 ^ 31 -> ~ in_log start size blk ->
  wp (tx_write (blk, m)) (fun _ s' => exists c',
    open_tx D ws s' c' (absorb bs blk) /\ c_view c' = <[blk := m]> (c_view c) /\
    l_outstanding s' = l_outstanding s) s.
Proof.
  intros T Hroom Hblk Hout. destruct T as [R Ed Es Esz Hl Ho Hc Hn Hb Hnd Hr Hh Hrf HD HW Hcl].
  pose proof (rel_ok dev _ c R) as OK.
  destruct (absorb_wf bs blk Hnd Hr (conj Hblk Hout)) as (Hnd' & Hin' & Hr' & _).
  pose proof (pins_size _ _ Hrf) as Hsz.
  assert (Hdef : default 0 (c_refs c !! blk) < 2 ^ 31) by (rewrite Hrf; case_decide; cbn; lia).
  unfold tx_write. cbn [fst snd]. rewrite (set_bc_id s).
  apply (rule_bread dev Hdev s Ed blk _ _ (l_bc s) c R Hblk).
  { intros b. rewrite Hh, lookup_empty. discriminate. }
  { right. unfold LOGSIZE, NBUF, MAXOPBLOCKS in *. lia. }
  { exact Hdef. }
  intros b x1 Hnone R1. set (c1 := c_read blk b c) in *.
  assert (H1 : c_held c1 !! b = Some blk) by apply lookup_insert_eq.
  apply (rule_bstore dev s b blk m _ _ x1 c1 R1 H1). intros x2 R2. apply wp_bind.
  apply (log_write_wp (set_bc x2 s) x2 (c_set blk m c1) bs b blk); try assumption; try reflexivity.
  { intros k Hk. apply Hr. exact Hk. }
  { cbn. rewrite ref_inc_eq. cbn. rewrite Hrf. case_decide; cbn; lia. }
  intros x3 block' R3 Hb'. set (c3 := if decide (blk ∈ bs) then _ else _) in R3.
  unfold bio. apply wp_zoom. cbn [l_bc set_bc].
  assert (H3 : c_held c3 !! b = Some blk) by (unfold c3; case_decide; exact H1).
  assert (Hr3 : c_refs c3 !! blk = Some 2).
  { unfold c3. case_decide as E; cbn.
    - rewrite ref_inc_eq, Hrf, decide_True by exact E. reflexivity.
    - rewrite ref_inc_eq, ref_inc_eq, Hrf, decide_False by exact E. reflexivity. }
  eapply wp_mono; [apply (brelse_law dev x3 c3 b blk R3 H3); rewrite Hr3; discriminate|].
  intros [] x4 R4. exists (c_release blk b c3).
  assert (Ev : c_view (c_release blk b c3) = <[blk := m]> (c_view c)) by (unfold c3; case_decide; reflexivity).
  split; [|split; [exact Ev | reflexivity]]. constructor; try assumption; try reflexivity.
  - unfold c3. case_decide; cbn; rewrite Hh; apply delete_insert_id, lookup_empty.
  - intros k. cbn [c_release c_refs]. destruct (decide (k = blk)) as [->|Hne].
    + rewrite (ref_dec_eq _ _ _ Hr3). rewrite decide_True by (apply Hin'; auto). reflexivity.
    + rewrite ref_dec_ne by exact Hne.
      replace (c_refs c3 !! k) with (c_refs c !! k)
        by (unfold c3; case_decide; cbn; rewrite !ref_inc_ne by exact Hne; reflexivity).
      rewrite Hrf. apply decide_ext. rewrite Hin'. tauto.
  - unfold c3. case_decide; exact HD.
  - unfold c3. case_decide; exact HW.
  - intros k Hk. rewrite Ev. rewrite Hin' in Hk. rewrite fn_lookup_insert_ne by (intros ->; tauto).
    apply Hcl. tauto.
Qed.

(** The contents after the updates. *)
Definition updated (V : Z -> mem) (us : list (Z * mem)) : Z -> mem := foldl (fun v u => <[u.1 := u.2]> v) V us.

Lemma tx_writes_wp us D ws s c bs :
  open_tx D ws s c bs -> Z.of_nat (length bs) + Z.of_nat (length us) < size ->
  (forall u, u ∈ us -> 0 <= u.1 < 2 ^ 31 /\ ~ in_log start size u.1) ->
  wp (tx_writes us) (fun _ s' => exists c' bs', open_tx D ws s' c' bs' /\
    Z.of_nat (length bs') < size /\ c_view c' = updated (c_view c) us /\
    l_outstanding s' = l_outstanding s /\ bs' = foldl absorb bs us.*1) s.
Proof.
  revert s c bs. induction us as [|[blk m] us IH]; intros s c bs T Hroom Hus; cbn [tx_writes].
  { apply wp_ret. exists c, bs. split; [exact T|]. split; [cbn in Hroom; lia | auto]. }
  cbn [length] in Hroom. destruct (Hus (blk, m) ltac:(left)) as [Hb1 Hb2]. cbn [fst] in Hb1, Hb2.
  apply wp_bind. eapply wp_mono; [apply (tx_write_wp D ws s c bs blk m T); [lia | assumption | assumption]|].
  intros [] s1 (c1 & T1 & Ev1 & Eo1).
  destruct (absorb_wf bs blk (ot_nodup _ _ _ _ _ T) (ot_range _ _ _ _ _ T) (conj Hb1 Hb2)) as (_ & _ & _ & Hlen).
  eapply wp_mono.
  - apply (IH s1 c1 (absorb bs blk) T1); [lia|]. intros u Hu. apply Hus. right. exact Hu.
  - intros [] s2 (c2 & bs2 & T2 & Hl2 & Ev2 & Eo2 & Eb2). exists c2, bs2. split; [exact T2|]. split; [exact Hl2|].
    rewrite Ev2, Ev1, Eo2, Eo1. split; [reflexivity|]. split; [reflexivity | exact Eb2].
Qed.

(** The log between transactions. *)
Record idle (s : lstate S) (c : cache) : Prop := {
  id_rel : cache_rel dev (l_bc s) c;
  id_dev : l_dev s = dev;
  id_start : l_start s = start;
  id_size : l_size s = size;
  id_lock : l_lock s = false;
  id_out : l_outstanding s = 0;
  id_com : l_committing s = false;
  id_n : l_n s = 0;
  id_held : c_held c = ∅;
  id_refs : c_refs c = ∅
}.

Lemma begin_op_wp s c :
  idle s c -> wp begin_op (fun _ s' => open_tx (c_disk c) (c_writes c) s' c [] /\ l_outstanding s' = 1) s.
Proof.
  intros [R Ed Es Esz Hl Ho Hc Hn Hh Hr]. unfold begin_op, lock_log, unlock_log.
  apply wp_bind, wp_acquire; [exact Hl|]. apply wp_bind, wp_get.
  cbn [l_committing l_n l_outstanding set_llock]. rewrite Hc, Hn, Ho.
  replace (0 + (0 + 1) * MAXOPBLOCKS >? LOGSIZE) with false by reflexivity.
  apply wp_bind, wp_modify. apply wp_release; [reflexivity|].
  pose proof (rel_ok dev _ c R) as OK. split; [|reflexivity].
  constructor; try assumption; try reflexivity; try (cbn; lia).
  - intros i b Hb. discriminate.
  - apply NoDup_nil_2.
  - intros b Hb. destruct (not_elem_of_nil _ Hb).
  - intros k. rewrite Hr, lookup_empty, decide_False by apply not_elem_of_nil. reflexivity.
  - intros k _. apply (co_clean _ OK). rewrite Hr. apply lookup_empty.
Qed.

Lemma unpinned_all (r : gmap Z Z) bs :
  NoDup bs -> (forall k, r !! k = if decide (k ∈ bs) then Some 1 else None) -> unpinned r bs = ∅.
Proof.
  revert r. induction bs as [|b bs IH]; intros r Hnd Hr.
  - apply map_eq. intros k. cbn. rewrite Hr, lookup_empty, decide_False by apply not_elem_of_nil. reflexivity.
  - apply NoDup_cons in Hnd as [Hb Hnd]. apply (IH (ref_dec b r) Hnd). intros k.
    destruct (decide (k = b)) as [->|Hne].
    + rewrite (ref_dec_eq b r 1) by (rewrite Hr, decide_True by left; reflexivity).
      rewrite decide_False by exact Hb. reflexivity.
    + rewrite ref_dec_ne, Hr by exact Hne. apply decide_ext. rewrite elem_of_cons. tauto.
Qed.

Lemma open_room D ws s c bs :
  open_tx D ws s c bs -> Z.of_nat (length bs) < size -> inst_room bs false c.
Proof.
  intros T Hlen. pose proof (ot_refs _ _ _ _ _ T) as Hrf. split; [apply T|]. split; [|split].
  - intros k n Hk. rewrite Hrf in Hk. case_decide; [|discriminate]. injection Hk as <-. lia.
  - pose proof (pins_size _ _ Hrf). unfold LOGSIZE, NBUF, MAXOPBLOCKS in *. lia.
  - intros b Hb. rewrite Hrf, decide_True by exact Hb. eauto.
Qed.

(** What the disk goes through: the old contents up to the commit point and
    the new ones from then on. *)
Definition atomic_writes (V V' D : Z -> mem) (ws : list (Z * mem)) : Prop :=
  exists p, forall k,
    recovers start size (if (k <=? p)%nat then V else V') (disk_after D (take k ws)).

Lemma wrote_atomic V V' c c1 c' m :
  wrote (recovers start size V) c c1 -> wrote (recovers start size V') (c_put start m c1) c' ->
  exists ws, c_writes c' = c_writes c ++ ws /\ c_disk c' = disk_after (c_disk c) ws /\ atomic_writes V V' (c_disk c) ws.
Proof.
  intros (w1 & E1 & D1 & H1) (w2 & E2 & D2 & H2). exists (w1 ++ (start, m) :: w2).
  split; [rewrite E2; cbn; rewrite E1, <- !app_assoc; reflexivity|].
  split; [rewrite D2; unfold disk_after; rewrite foldl_app; cbn [c_put c_disk foldl]; rewrite D1; reflexivity|].
  exists (length w1). intros k. destruct (Nat.leb_spec k (length w1)) as [Hk|Hk].
  - rewrite take_app_le by exact Hk. apply H1.
  - rewrite take_app_ge by lia. destruct (k - length w1)%nat as [|j] eqn:Ej; [lia|]. cbn [take].
    unfold disk_after. rewrite foldl_app. cbn [foldl fst snd]. cbn [c_put c_disk] in H2. rewrite D1 in H2. apply H2.
Qed.

Lemma recovers_mono V V' d :
  (forall blk, ~ in_log start size blk -> V blk ≡ V' blk) -> recovers start size V d -> recovers start size V' d.
Proof.
  intros HV (bs & W & Hh & Hv). exists bs. split; [exact W|]. split; [exact Hh|]. intros blk Hb.
  rewrite (Hv blk Hb). apply HV, Hb.
Qed.

Lemma end_op_wp V D ws s c bs :
  open_tx D ws s c bs -> l_outstanding s = 1 -> Z.of_nat (length bs) < size -> head_is (D start) [] ->
  (forall blk, ~ in_log start size blk -> D blk ≡ V blk) ->
  wp end_op (fun _ s' => exists c' ws', idle s' c' /\ quiet start size (c_view c) c' /\
    c_writes c' = ws ++ ws' /\ c_disk c' = disk_after D ws' /\ atomic_writes V (c_view c) D ws') s.
Proof.
  intros T Ho Hlen Hh HV. pose proof (open_room D ws s c bs T Hlen) as Hroom.
  destruct T as [R Ed Es Esz Hl _ Hc Hn Hb Hnd Hr Hhd Hrf HD HW Hcl].
  unfold end_op, lock_log, unlock_log. apply wp_bind, wp_acquire; [exact Hl|].
  apply wp_bind, wp_modify. apply wp_bind, wp_get. cbn [l_committing l_outstanding set_outstanding set_llock].
  apply wp_bind, wp_panic_if; [exact Hc|]. cbv zeta. rewrite Ho. cbn [Z.sub Z.add Z.opp Z.eqb Z.pos_sub when].
  apply wp_bind, wp_modify. apply wp_bind, wp_release; [reflexivity|]. apply wp_bind.
  set (s1 := set_llock false _).
  assert (Hfin : forall x' s2, l_dev s2 = dev -> l_start s2 = start -> l_size s2 = size -> l_lock s2 = false ->
     l_outstanding s2 = 0 -> l_n s2 = 0 -> l_bc s2 = x' -> forall c', cache_rel dev x' c' -> c_held c' = ∅ -> c_refs c' = ∅ ->
     quiet start size (c_view c) c' -> forall ws', c_writes c' = ws ++ ws' -> c_disk c' = disk_after D ws' -> atomic_writes V (c_view c) D ws' ->
     wp (acquire l_lock set_llock;; modify (set_committing false);; release l_lock set_llock)
       (fun _ s' => exists c' ws', idle s' c' /\ quiet start size (c_view c) c' /\
          c_writes c' = ws ++ ws' /\ c_disk c' = disk_after D ws' /\ atomic_writes V (c_view c) D ws') s2).
  { intros x' s2 F1 F2 F3 F4 F5 F6 F7 c' Rc Hhc Hrc Hq ws' Ew Edk Hat.
    apply wp_bind, wp_acquire; [exact F4|]. apply wp_bind, wp_modify. apply wp_release; [reflexivity|].
    exists c', ws'. split; [|auto]. constructor; try assumption; try reflexivity. cbn. rewrite F7. exact Rc. }
  destruct (decide (bs = [])) as [->|Hne].
  - unfold commit. apply wp_bind, wp_gets. apply wp_when; intros Hpos; [cbn in Hpos, Hn; rewrite Hn in Hpos; discriminate|].
    assert (Hcl' : forall k, c_view c k = c_disk c k) by (intros k; rewrite HD; apply Hcl, not_elem_of_nil).
    apply (Hfin (l_bc s) s1) with (c' := c) (ws' := []); try assumption; try reflexivity.
    + apply map_eq. intros k. rewrite Hrf, lookup_empty, decide_False by apply not_elem_of_nil. reflexivity.
    + constructor; [rewrite HD; exact Hh|]. intros blk _. rewrite Hcl'. split; reflexivity.
    + rewrite app_nil_r. exact HW.
    + exists O. intros k. rewrite take_nil. change (disk_after D []) with D.
      apply (recovers_empty start size Hgeo); [exact Hh|]. intros blk Hblk.
      case_match; [apply HV; exact Hblk|]. rewrite Hcl', HD. reflexivity.
  - assert (W : log_wf start size bs) by (constructor; assumption).
    rewrite (set_bc_id s1). eapply wp_mono.
    { apply (commit_wp dev Hdev start size Hgeo s1 Ed Es bs W Hn Hb D (c_view c) (l_bc s1) c); try assumption.
      - rewrite HD. exact Hh.
      - reflexivity.
      - intros blk _ Hnb. rewrite Hcl by exact Hnb. reflexivity. }
    intros [] s2 (x2 & c2 & c1 & m & -> & R2 & Hq & Hh2 & Hr2 & Hw1 & Hw2).
    assert (Hw1' : wrote (recovers start size V) c c1).
    { eapply wrote_mono; [|exact Hw1]. intros d. apply recovers_mono. exact HV. }
    destruct (wrote_atomic V (c_view c) c c1 c2 m Hw1' Hw2) as (ws' & Ew & Edk & Hat). rewrite HD in Hat, Edk. rewrite HW in Ew.
    apply (Hfin x2 _) with (c' := c2) (ws' := ws'); try assumption; try reflexivity.
    + rewrite Hr2. apply unpinned_all; assumption.
Qed.
End Run.
End Tx.

Lemma updated_equiv (A B : Z -> mem) us (P : Z -> Prop) :
  (forall k, P k -> A k ≡ B k) -> forall k, P k -> updated A us k ≡ updated B us k.
Proof.
  revert A B. induction us as [|[b m] us IH]; intros A B HAB; cbn; [exact HAB|].
  apply IH. intros k Hk. destruct (decide (b = k)) as [->|Hne].
  - rewrite !fn_lookup_insert. reflexivity.
  - rewrite !fn_lookup_insert_ne by exact Hne. apply HAB, Hk.
Qed.

Lemma quiet_mono start size V V' c :
  (forall blk, ~ in_log start size blk -> V blk ≡ V' blk) -> quiet start size V c -> quiet start size V' c.
Proof.
  intros HV [Hh Hd]. constructor; [exact Hh|]. intros blk Hb. destruct (Hd blk Hb) as [-> ->].
  split; apply HV, Hb.
Qed.

Lemma atomic_mono start size V W W' D ws :
  (forall blk, ~ in_log start size blk -> W blk ≡ W' blk) ->
  atomic_writes start size V W D ws -> atomic_writes start size V W' D ws.
Proof.
  intros HW [p Hp]. exists p. intros k. specialize (Hp k). case_match; [exact Hp|].
  eapply recovers_mono; [exact HW | exact Hp].
Qed.

(** ** The whole transaction *)

Section Whole.
Context {S : Type} `{BC : BufCache S}.
Context (dev : Z) (Hdev : u32 dev = dev) (start size : Z).
Context (Hgeo : 0 <= start /\ MAXOPBLOCKS < size <= LOGSIZE /\ start + size < 2 ^ 31).

Lemma transaction_wp us s c V :
  idle dev start size s c -> quiet start size V c -> Z.of_nat (length us) <= MAXOPBLOCKS ->
  (forall u, u ∈ us -> 0 <= u.1 < 2 ^ 31 /\ ~ in_log start size u.1) ->
  wp (transaction us) (fun _ s' => exists c' ws, idle dev start size s' c' /\
    quiet start size (updated V us) c' /\ c_writes c' = c_writes c ++ ws /\
    atomic_writes start size V (updated V us) (c_disk c) ws) s.
Proof.
  intros Hi Hq Hlen Hus.
  assert (Hgeo' : 0 <= start /\ 0 < size <= LOGSIZE /\ start + size < 2 ^ 31) by (unfold MAXOPBLOCKS in *; lia).
  unfold transaction. apply wp_bind. eapply wp_mono; [exact (begin_op_wp dev start size s c Hi)|].
  intros [] s1 [T1 Ho1]. apply wp_bind. eapply wp_mono.
  { apply (tx_writes_wp dev Hdev start size Hgeo' us _ _ s1 c [] T1); [cbn; lia | exact Hus]. }
  intros [] s2 (c2 & bs & T2 & Hl2 & Ev & Eo & _). eapply wp_mono.
  { apply (end_op_wp dev Hdev start size Hgeo' V _ _ s2 c2 bs T2); [congruence | exact Hl2 | apply Hq |].
    intros blk Hb. apply (q_data _ _ _ _ Hq blk Hb). }
  intros [] s3 (c3 & ws & Hi3 & Hq3 & Ew & _ & Hat). exists c3, ws. split; [exact Hi3|].
  assert (HE : forall blk, ~ in_log start size blk -> c_view c2 blk ≡ updated V us blk).
  { rewrite Ev. apply updated_equiv. intros k Hk. apply (q_data _ _ _ _ Hq k Hk). }
  split; [eapply quiet_mono; eassumption|]. split; [exact Ew|]. eapply atomic_mono; eassumption.
Qed.

(** Rebooting on a disk: a fresh cache, then [initlog]. *)
Lemma reboot_wp sb s V d :
  i32 (sb_logstart sb) = start -> i32 (sb_nlog sb) = size ->
  cache_rel dev (l_bc s) (c_fresh d) -> l_outstanding s = 0 -> l_committing s = false ->
  recovers start size V d ->
  wp (initlog dev sb) (fun _ s' => exists c', idle dev start size s' c' /\ quiet start size V c' /\
    wrote (recovers start size V) (c_fresh d) c') s.
Proof.
  intros Es En R Ho Hc HR.
  assert (Hgeo' : 0 <= start /\ 0 < size <= LOGSIZE /\ start + size < 2 ^ 31) by (unfold MAXOPBLOCKS in *; lia).
  eapply wp_mono; [exact (initlog_wp dev Hdev start size Hgeo' sb s V d (l_bc s) R eq_refl Es En HR)|].
  intros [] s' (c' & R' & F1 & F2 & F3 & F4 & F5 & F6 & F7 & Hq & Hh & Hr & Hw).
  exists c'. split; [|auto]. constructor; congruence || assumption.
Qed.
End Whole.

(** A file-system disk of zeroes and the machine booted on it. *)
Definition sb0 : superblock :=
  {| sb_magic := FSMAGIC; sb_size := FSSIZE; sb_nblocks := 1954; sb_ninodes := 200;
     sb_nlog := LOGSIZE; sb_logstart := 2; sb_inodestart := 32; sb_bmapstart := 45 |}.
Definition lstate0 {S} (x : S) : lstate S := LState false 0 0 0 false 0 0 (fun _ => 0) x.

(** The machine booted on a disk with an empty log. *)
Lemma boot_disk (d : Z -> mem) : head_is (d 2) [] -> exists s c, idle (S := bstate) 1 2 30 s c /\ quiet 2 30 d c.
Proof.
  intros Hd. destruct (proj1 (wp_run _ _ _) (binit_wp 1 d ltac:(lia))) as ([] & x & _ & R & _).
  assert (HR : recovers 2 30 d d).
  { apply recovers_empty; [unfold LOGSIZE, MAXOPBLOCKS; lia | exact Hd | reflexivity]. }
  destruct (proj1 (wp_run _ _ _) (reboot_wp (BC := bio_cache) 1 eq_refl 2 30
    ltac:(unfold MAXOPBLOCKS, LOGSIZE, MAXOPBLOCKS; lia) sb0 (lstate0 x) d d
    eq_refl eq_refl R eq_refl eq_refl HR)) as ([] & s & _ & c & Hi & Hq & _).
  exists s, c. auto.
Qed.

Lemma boot_log : exists s c,
  idle (S := bstate) 1 2 30 s c /\ quiet 2 30 (fun _ => zeroes) c /\ c_disk c 50 ≡ zeroes.
Proof.
  destruct (boot_disk (fun _ => zeroes)) as (s & c & Hi & Hq); [split; [reflexivity|]; intros i b Hb; discriminate|].
  exists s, c. split; [exact Hi|]. split; [exact Hq|]. apply (q_data _ _ _ _ Hq 50). unfold in_log. lia.
Qed.

(** ** The reservation of begin_op exceeds the log *)

Section Overflow.
Context {S : Type} `{BC : BufCache S}.
Context (dev : Z) (Hdev : u32 dev = dev) (start size : Z).
Context (Hgeo : 0 <= start /\ 0 < size <= LOGSIZE /\ start + size < 2 ^ 31).

(** [begin_op] lets a further operation in while [n] and the reservations fit. *)
Lemma begin_op_more D ws s c bs :
  open_tx dev start size D ws s c bs ->
  l_n s + (l_outstanding s + 1) * MAXOPBLOCKS <= LOGSIZE ->
  wp begin_op (fun _ s' => open_tx dev start size D ws s' c bs /\
    l_outstanding s' = l_outstanding s + 1 /\ l_n s' = l_n s) s.
Proof.
  intros [R Ed Es Esz Hl Ho Hc Hn Hb Hnd Hr Hh Hrf HD HW Hcl] Hfit. unfold begin_op, lock_log, unlock_log.
  apply wp_bind, wp_acquire; [exact Hl|]. apply wp_bind, wp_get.
  cbn [l_committing l_n l_outstanding set_llock]. rewrite Hc.
  replace (_ >? _) with false by lia. apply wp_bind, wp_modify. apply wp_release; [reflexivity|].
  split; [|split; reflexivity]. constructor; try assumption; try reflexivity. cbn. lia.
Qed.

(** With [size - 1] blocks in the log any [log_write] panics. *)
Lemma tx_write_full D ws s c bs blk m :
  open_tx dev start size D ws s c bs -> Z.of_nat (length bs) = size - 1 -> 0 <= blk < 2 ^ 31 ->
  tx_write (blk, m) s = Panic "too big a transaction".
Proof.
  intros T Hfull Hblk. destruct T as [R Ed Es Esz Hl Ho Hc Hn Hb Hnd Hr Hh Hrf HD HW Hcl].
  pose proof (pins_size _ _ Hrf) as Hsz.
  assert (Hrun : wp (b ← lbread blk; mret b) (fun b s' => exists x', s' = set_bc x' s) (set_bc (l_bc s) s)).
  { apply (rule_bread dev Hdev s Ed blk _ _ (l_bc s) c R Hblk).
    - intros b. rewrite Hh, lookup_empty. discriminate.
    - right. unfold LOGSIZE, NBUF, MAXOPBLOCKS in *. lia.
    - rewrite Hrf. case_decide; cbn; lia.
    - intros b x' _ _. apply wp_ret. eauto. }
  rewrite <- set_bc_id in Hrun. unfold wp, mbind, M_bind in Hrun.
  unfold tx_write, mbind, M_bind. cbn [fst snd].
  destruct (lbread blk s) as [b s1| | |]; try contradiction. destruct Hrun as [x1 ->].
  unfold bstore, modify, log_write, lock_log, acquire, get, mbind, M_bind.
  cbn [l_lock set_bc]. rewrite Hl. cbn [l_n l_size set_bc set_llock].
  assert (E : (l_n s >=? LOGSIZE) || (l_n s >=? l_size s - 1) = true)
    by (rewrite Hn, Hfull, Esz; unfold LOGSIZE, MAXOPBLOCKS in *; lia).
  rewrite E. reflexivity.
Qed.
End Overflow.

Lemma tx_writes_app {S} `{BufCache S} (us us' : list (Z * mem)) (s s1 : lstate S) :
  tx_writes us s = Ret tt s1 -> tx_writes (us ++ us') s = tx_writes us' s1.
Proof.
  revert s. induction us as [|u us IH]; intros s; cbn [tx_writes app].
  - intros [= <-]. reflexivity.
  - unfold mbind, M_bind. destruct (tx_write u s) as [[] s2| | |]; try discriminate. apply IH.
Qed.

Lemma absorb_distinct bs ks : NoDup (bs ++ ks) -> foldl absorb bs ks = bs ++ ks.
Proof.
  revert bs. induction ks as [|k ks IH]; intros bs Hnd; cbn [foldl]; [rewrite app_nil_r; reflexivity|].
  assert (Hk : k ∉ bs).
  { intros Hin. apply NoDup_app in Hnd as (_ & Hd & _). apply (Hd k Hin). left. }
  unfold absorb at 2. rewrite decide_False by exact Hk. rewrite IH; rewrite <- app_assoc; [reflexivity | exact Hnd].
Qed.

Section Three.
Context {S : Type} `{BC : BufCache S}.

(** Three operations at once, whose updates are [us]. *)
Definition three_ops (us : list (Z * mem)) : M (lstate S) unit :=
  begin_op;; begin_op;; begin_op;; tx_writes us.

Lemma three_ops_run dev start us s c :
  u32 dev = dev -> 0 <= start /\ start + LOGSIZE < 2 ^ 31 ->
  idle dev start LOGSIZE s c -> length us = 29%nat -> NoDup us.*1 ->
  (forall u, u ∈ us -> 0 <= u.1 < 2 ^ 31 /\ ~ in_log start LOGSIZE u.1) ->
  wp (three_ops us) (fun _ s' => exists c' bs, length bs = 29%nat /\
    open_tx dev start LOGSIZE (c_disk c) (c_writes c) s' c' bs) s.
Proof.
  intros Hdev Hgeo Hi Hlen Hnd Hus. unfold three_ops. apply wp_bind.
  eapply wp_mono; [exact (begin_op_wp dev start LOGSIZE s c Hi)|]. intros [] s1 [T1 Ho1].
  pose proof (ot_n _ _ _ _ _ _ _ _ T1) as Hn1. cbn in Hn1. apply wp_bind.
  eapply wp_mono; [apply (begin_op_more dev start LOGSIZE _ _ s1 c [] T1); unfold LOGSIZE, MAXOPBLOCKS; lia|].
  intros [] s2 (T2 & Ho2 & Hn2). apply wp_bind.
  eapply wp_mono; [apply (begin_op_more dev start LOGSIZE _ _ s2 c [] T2); unfold LOGSIZE, MAXOPBLOCKS; lia|].
  intros [] s3 (T3 & _ & _). eapply wp_mono.
  { apply (tx_writes_wp dev Hdev start LOGSIZE ltac:(unfold LOGSIZE, MAXOPBLOCKS in *; lia) us _ _ s3 c [] T3);
      [cbn [length]; unfold LOGSIZE, MAXOPBLOCKS; lia | exact Hus]. }
  intros [] s4 (c4 & bs & T4 & _ & _ & _ & ->). rewrite absorb_distinct in T4 by exact Hnd.
  exists c4, (us.*1). split; [rewrite length_fmap; exact Hlen | exact T4].
Qed.
End Three.

(** ** Properties *)

(** C7: a transaction of at most MAXOPBLOCKS block updates on a quiet log
    returns with every update on disk in its home block and the log quiet
    again; and there is one write (the commit point) such that, wherever the
    machine stops, the disk recovers to the old contents when the write has
    not happened and to the new ones when it has. *)
Theorem transaction_atomic {S} `{BC : BufCache S} dev start size us s c V :
  u32 dev = dev -> 0 <= start /\ MAXOPBLOCKS < size <= LOGSIZE /\ start + size < 2 ^ 31 ->
  idle dev start size s c -> quiet start size V c -> Z.of_nat (length us) <= MAXOPBLOCKS ->
  (forall u, u ∈ us -> 0 <= u.1 < 2 ^ 31 /\ ~ in_log start size u.1) ->
  wp (transaction us) (fun _ s' => exists c' ws, idle dev start size s' c' /\
    quiet start size (updated V us) c' /\ c_writes c' = c_writes c ++ ws /\
    atomic_writes start size V (updated V us) (c_disk c) ws) s.
Proof. intros Hdev Hgeo. apply transaction_wp; assumption. Qed.

Lemma transaction_atomic_witness : exists (s : lstate bstate) s' c',
  transaction [(50, fun _ => x2a); (51, fun _ => x2b)] s = Ret tt s' /\
  idle 1 2 30 s' c' /\ c_disk c' 51 7 = x2b.
Proof.
  destruct boot_log as (s & c & Hi & Hq & _).
  assert (Hus : forall u, u ∈ [(50, fun _ : Z => x2a); (51, fun _ => x2b)] ->
    0 <= u.1 < 2 ^ 31 /\ ~ in_log 2 30 u.1).
  { intros u [->|[->|Hu]%elem_of_cons]%elem_of_cons; [| |destruct (not_elem_of_nil _ Hu)];
      cbn; unfold in_log; lia. }
  destruct (proj1 (wp_run _ _ _) (transaction_atomic 1 2 30
    [(50, fun _ => x2a); (51, fun _ => x2b)] s c (fun _ => zeroes) eq_refl
    ltac:(unfold LOGSIZE, MAXOPBLOCKS; lia) Hi Hq ltac:(cbn; unfold MAXOPBLOCKS; lia) Hus))
    as ([] & s' & E & c' & ws & Hi' & Hq' & _).
  exists s, s', c'. split; [exact E|]. split; [exact Hi'|].
  destruct (q_data _ _ _ _ Hq' 51) as [Hd _]; [unfold in_log; lia|].
  rewrite (Hd 7 ltac:(unfold BSIZE; lia)). reflexivity.
Defined.

(** C8: recovery: on every disk that recovers to the contents [V], booting
    ([initlog] on an empty cache) returns with the home blocks holding [V]
    and an empty log; and every disk a crash during recovery can leave
    recovers to [V] again. *)
Theorem initlog_recovers {S} `{BC : BufCache S} dev start size sb s V d :
  u32 dev = dev -> 0 <= start /\ MAXOPBLOCKS < size <= LOGSIZE /\ start + size < 2 ^ 31 ->
  i32 (sb_logstart sb) = start -> i32 (sb_nlog sb) = size ->
  cache_rel dev (l_bc s) (c_fresh d) -> l_outstanding s = 0 -> l_committing s = false ->
  recovers start size V d ->
  wp (initlog dev sb) (fun _ s' => exists c', idle dev start size s' c' /\ quiet start size V c' /\
    wrote (recovers start size V) (c_fresh d) c') s.
Proof. intros Hdev Hgeo. apply reboot_wp; assumption. Qed.

(** A disk with one committed, not yet installed block. *)
Definition disk_committed : Z -> mem :=
  fun blk => if blk =? 2 then put_head 1 (fun _ => 50) zeroes
             else if blk =? 3 then (fun _ => x2a) else zeroes.

Lemma disk_committed_recovers :
  recovers 2 30 (fun blk => if blk =? 50 then (fun _ => x2a) else zeroes) disk_committed.
Proof.
  apply (recovers_logged 2 30 _ _ [50]).
  - constructor; [apply NoDup_singleton | cbn; lia |]. intros b ->%list_elem_of_singleton. unfold in_log. lia.
  - apply (put_head_is (fun _ => 50) zeroes [50]); [|cbn; lia | intros b ->%list_elem_of_singleton; lia].
    intros i b Hb. apply list_lookup_singleton_Some in Hb as [-> <-]. reflexivity.
  - intros i b Hb. apply list_lookup_singleton_Some in Hb as [-> <-]. reflexivity.
  - intros blk Hb Hn. unfold disk_committed, in_log in *.
    replace (blk =? 2) with false by lia. replace (blk =? 3) with false by lia.
    destruct (Z.eqb_spec blk 50) as [->|]; [|reflexivity]. exfalso. apply Hn. left.
Qed.

Lemma initlog_recovers_witness : exists (s s' : lstate bstate) c',
  initlog 1 sb0 s = Ret tt s' /\ idle 1 2 30 s' c' /\ c_disk c' 50 9 = x2a.
Proof.
  destruct (proj1 (wp_run _ _ _) (binit_wp 1 disk_committed ltac:(lia))) as ([] & x & _ & R & _).
  destruct (proj1 (wp_run _ _ _) (initlog_recovers (BC := bio_cache) 1 2 30 sb0 (lstate0 x) _ disk_committed eq_refl
    ltac:(unfold LOGSIZE, MAXOPBLOCKS; lia) eq_refl eq_refl R eq_refl eq_refl disk_committed_recovers))
    as ([] & s' & E & c' & Hi & Hq & _).
  exists (lstate0 x), s', c'. split; [exact E|]. split; [exact Hi|].
  destruct (q_data _ _ _ _ Hq 50) as [Hd _]; [unfold in_log; lia|].
  rewrite (Hd 9 ltac:(unfold BSIZE; lia)). reflexivity.
Defined.

(** C2: crash atomicity end to end: run a transaction from a quiet state,
    stop the machine after any number [k] of its disk writes, boot again on
    that disk: recovery returns, and the file system holds either all updates
    of the transaction or none of them. *)
Theorem crash_reboot_atomic {S} `{BC : BufCache S} dev start size sb us s c V :
  u32 dev = dev -> 0 <= start /\ MAXOPBLOCKS < size <= LOGSIZE /\ start + size < 2 ^ 31 ->
  i32 (sb_logstart sb) = start -> i32 (sb_nlog sb) = size ->
  idle dev start size s c -> quiet start size V c -> Z.of_nat (length us) <= MAXOPBLOCKS ->
  (forall u, u ∈ us -> 0 <= u.1 < 2 ^ 31 /\ ~ in_log start size u.1) ->
  wp (transaction us) (fun _ s' => exists c' ws,
    cache_rel dev (l_bc s') c' /\ c_writes c' = c_writes c ++ ws /\
    forall k r, cache_rel dev (l_bc r) (c_fresh (disk_after (c_disk c) (take k ws))) ->
      l_outstanding r = 0 -> l_committing r = false ->
      wp (initlog dev sb) (fun _ r' => exists c2, idle dev start size r' c2 /\
        (quiet start size V c2 \/ quiet start size (updated V us) c2)) r) s.
Proof.
  intros Hdev Hgeo Es En Hi Hq Hlen Hus.
  eapply wp_mono; [exact (transaction_wp dev Hdev start size Hgeo us s c V Hi Hq Hlen Hus)|].
  intros [] s' (c' & ws & Hi' & _ & Ew & p & Hp). exists c', ws. split; [apply Hi'|]. split; [exact Ew|].
  intros k r R Ho Hc.
  eapply wp_mono; [exact (reboot_wp dev Hdev start size Hgeo sb r _ _ Es En R Ho Hc (Hp k))|].
  intros [] r' (c2 & Hi2 & Hq2 & _). exists c2. split; [exact Hi2|]. case_match; auto.
Qed.

Lemma crash_reboot_atomic_witness : exists (s s' : lstate bstate) c c' ws,
  transaction [(50, fun _ => x2a)] s = Ret tt s' /\ c_writes c' = c_writes c ++ ws /\
  exists (r r' : lstate bstate) c2,
    cache_rel 1 (l_bc r) (c_fresh (disk_after (c_disk c) (take 1 ws))) /\
    initlog 1 sb0 r = Ret tt r' /\ idle 1 2 30 r' c2.
Proof.
  destruct boot_log as (s & c & Hi & Hq & _).
  assert (Hus : forall u, u ∈ [(50, fun _ : Z => x2a)] -> 0 <= u.1 < 2 ^ 31 /\ ~ in_log 2 30 u.1).
  { intros u ->%list_elem_of_singleton. cbn. unfold in_log. lia. }
  destruct (proj1 (wp_run _ _ _) (crash_reboot_atomic 1 2 30 sb0
    [(50, fun _ => x2a)] s c (fun _ => zeroes) eq_refl
    ltac:(unfold LOGSIZE, MAXOPBLOCKS; lia) eq_refl eq_refl Hi Hq ltac:(cbn; unfold MAXOPBLOCKS; lia) Hus))
    as ([] & s' & E & c' & ws & _ & Ew & Hreb).
  exists s, s', c, c', ws. split; [exact E|]. split; [exact Ew|].
  destruct (proj1 (wp_run _ _ _) (binit_wp 1 (disk_after (c_disk c) (take 1 ws)) ltac:(lia)))
    as ([] & x & _ & R & _).
  destruct (proj1 (wp_run _ _ _) (Hreb 1%nat (lstate0 x) R eq_refl eq_refl)) as ([] & r' & E' & c2 & Hi2 & _).
  exists (lstate0 x), r', c2. split; [exact R|]. split; [exact E' | exact Hi2].
Defined.

(** C37: the reservation made by [begin_op] is not enough: three operations
    are let in together, each entitled to MAXOPBLOCKS blocks, but when they
    log 3*MAXOPBLOCKS distinct blocks the last [log_write] panics, because the
    log of LOGSIZE blocks holds a header and only LOGSIZE-1 data blocks. *)
Theorem reservation_overflow {S} `{BC : BufCache S} dev start us blk m s c :
  u32 dev = dev -> 0 <= start /\ start + LOGSIZE < 2 ^ 31 ->
  idle dev start LOGSIZE s c ->
  Z.of_nat (length (us ++ [(blk, m)])) = 3 * MAXOPBLOCKS -> NoDup (us ++ [(blk, m)]).*1 ->
  (forall u, u ∈ us ++ [(blk, m)] -> 0 <= u.1 < 2 ^ 31 /\ ~ in_log start LOGSIZE u.1) ->
  three_ops (us ++ [(blk, m)]) s = Panic "too big a transaction".
Proof.
  intros Hdev Hgeo Hi Hlen Hnd Hus. rewrite length_app in Hlen. cbn [length] in Hlen.
  rewrite fmap_app in Hnd. apply NoDup_app in Hnd as (Hnd & _ & _).
  pose proof (three_ops_run dev start us s c Hdev Hgeo Hi ltac:(unfold MAXOPBLOCKS in Hlen; lia) Hnd
    ltac:(intros u Hu; apply Hus, elem_of_app; left; exact Hu)) as Hwp.
  destruct (Hus (blk, m)) as [Hb _]; [apply elem_of_app; right; left|].
  unfold wp, three_ops, mbind, M_bind in Hwp. unfold three_ops, mbind, M_bind.
  destruct (begin_op s) as [[] s1| | |]; try contradiction.
  destruct (begin_op s1) as [[] s2| | |]; try contradiction.
  destruct (begin_op s2) as [[] s3| | |]; try contradiction.
  destruct (tx_writes us s3) as [[] s4| | |] eqn:E; try contradiction.
  destruct Hwp as (c' & bs & Hbs & T). rewrite (tx_writes_app us _ s3 s4 E). cbn [tx_writes].
  unfold mbind, M_bind. rewrite (tx_write_full dev Hdev start LOGSIZE
    ltac:(unfold LOGSIZE, MAXOPBLOCKS in *; lia) _ _ s4 c' bs blk m T); [reflexivity | | exact Hb].
  rewrite Hbs. reflexivity.
Qed.

Lemma reservation_overflow_witness : exists s : lstate bstate,
  three_ops ((fun i => (Z.of_nat i, zeroes)) <$> seq 100 30) s = Panic "too big a transaction".
Proof.
  destruct boot_log as (s & c & Hi & _ & _). exists s.
  change ((fun i => (Z.of_nat i, zeroes)) <$> seq 100 30)
    with (((fun i => (Z.of_nat i, zeroes)) <$> seq 100 29) ++ [(129, zeroes)]).
  apply (reservation_overflow 1 2 ((fun i => (Z.of_nat i, zeroes)) <$> seq 100 29) 129 zeroes s c eq_refl);
    [unfold LOGSIZE, MAXOPBLOCKS; lia | exact Hi | reflexivity | |].
  - rewrite fmap_app, <- list_fmap_compose. apply (NoDup_fmap_2 Z.of_nat (seq 100 30)), NoDup_seq.
  - intros u Hu. rewrite elem_of_app, list_elem_of_singleton, list_elem_of_fmap in Hu.
    destruct Hu as [(i & -> & Hi'%elem_of_seq)| ->]; cbn; unfold in_log, LOGSIZE, MAXOPBLOCKS; lia.
Defined.
