(* ===== verification/UserMem.v ===== *)
(** * What the kernel asks of the memory of the running process

    [copyin], [copyout] and [copyinstr] on the page table of the process that
    made the system call.  [uview] is what the process sees at an address, if
    it may access it.  The laws are what the callers rely on: the calls return,
    a copy in delivers what the process sees up to the first address it cannot
    access, a copy out changes exactly the bytes it stored.  [KernelMem]
    discharges the class for the page tables of [Vm]. *)

From S2P Require Import Prelude Memory.

Class UserMem (U : Type) := {
  ucopyout : Z -> list byte -> M U Z;
  ucopyin : Z -> Z -> M U (Z * list byte);
  ucopyinstr : Z -> Z -> M U (Z * list byte);

  um_ok : U -> Prop;
  uview : U -> Z -> option byte;

  ucopyout_law va bs u : um_ok u -> 0 <= va < 2 ^ 64 ->
    wp (ucopyout va bs) (fun r u' => um_ok u' /\ exists k, (k <= length bs)%nat /\
      (forall x, uview u' x = if (va <=? x) && (x <? va + Z.of_nat k) then bs !! Z.to_nat (x - va) else uview u x) /\
      (forall x, va <= x < va + Z.of_nat k -> uview u x <> None) /\
      (r = 0 /\ k = length bs \/ r = -1 /\ (k < length bs)%nat)) u;
  ucopyin_law va n u : um_ok u -> 0 <= va < 2 ^ 64 -> 0 <= n ->
    wp (ucopyin va n) (fun '(r, bs) u' => u' = u /\
      (forall i b, bs !! i = Some b -> uview u (va + Z.of_nat i) = Some b) /\
      (r = 0 /\ Z.of_nat (length bs) = n \/
       r = -1 /\ Z.of_nat (length bs) < n /\ uview u (va + Z.of_nat (length bs)) = None)) u;
  ucopyinstr_law va max u : um_ok u -> 0 <= va < 2 ^ 64 -> 0 <= max ->
    wp (ucopyinstr va max) (fun '(r, bs) u' => u' = u /\
      (forall i b, bs !! i = Some b -> uview u (va + Z.of_nat i) = Some b) /\
      (r = 0 /\ (exists s, bs = s ++ [x00] /\ x00 ∉ s) /\ Z.of_nat (length bs) <= max \/ r = -1)) u
}.

(** A process that may access the addresses below [FLAT]. *)
Section Flat.
Definition FLAT : Z := 65536.
Definition flat_view (m : Z -> byte) (x : Z) : option byte := if x <? FLAT then Some (m x) else None.
Definition flat_out (va : Z) (bs : list byte) : M (Z -> byte) Z := fun m =>
  if (Z.of_nat (length bs) =? 0) || (va + Z.of_nat (length bs) <=? FLAT) then
    Ret 0 (fun x => if (va <=? x) && (x <? va + Z.of_nat (length bs)) then nth (Z.to_nat (x - va)) bs x00 else m x)
  else Ret (-1) m.
(** How many of [n] bytes from [va] are accessible. *)
Definition flat_room (va n : Z) : Z := Z.min n (Z.max 0 (FLAT - va)).
Definition flat_in (va n : Z) : M (Z -> byte) (Z * list byte) := fun m =>
  Ret (if flat_room va n =? n then 0 else -1, bytes_at m va (Z.to_nat (flat_room va n))) m.
Fixpoint flat_str (k : nat) (m : Z -> byte) (va : Z) : Z * list byte :=
  match k with
  | O => (-1, [])
  | S k' => if bool_decide (m va = x00) then (0, [x00]) else let '(r, bs) := flat_str k' m (va + 1) in (r, m va :: bs)
  end.
Definition flat_instr (va max : Z) : M (Z -> byte) (Z * list byte) := fun m =>
  Ret (flat_str (Z.to_nat (flat_room va max)) m va) m.

Lemma flat_str_spec k m va : let '(r, bs) := flat_str k m va in
  (forall i b, bs !! i = Some b -> b = m (va + Z.of_nat i)) /\ (length bs <= k)%nat /\
  (r = 0 /\ (exists s, bs = s ++ [x00] /\ x00 ∉ s) \/ r = -1).
Proof.
  revert va. induction k as [|k IH]; intros va; cbn [flat_str].
  - split; [intros i b Hi; discriminate|]. split; [cbn; lia | auto].
  - case_bool_decide as E.
    + split; [intros [|i] b Hi; [injection Hi as <-; rewrite Z.add_0_r; auto | discriminate]|]. split; [cbn; lia|].
      left. split; [reflexivity|]. exists []. split; [reflexivity | apply not_elem_of_nil].
    + specialize (IH (va + 1)). destruct (flat_str k m (va + 1)) as [r bs]. destruct IH as (H1 & H2 & H3).
      split; [|split; [cbn; lia|]].
      * intros [|i] b Hi; [injection Hi as <-; rewrite Z.add_0_r; reflexivity|]. apply H1 in Hi. rewrite Hi. f_equal. lia.
      * destruct H3 as [[-> (s & -> & Hs)]|H3]; [left|right; exact H3]. split; [reflexivity|]. exists (m va :: s).
        split; [reflexivity|]. apply not_elem_of_cons. split; [congruence | exact Hs].
Qed.

Lemma flat_out_law va bs u : True -> 0 <= va < 2 ^ 64 ->
  wp (flat_out va bs) (fun r u' => True /\ exists k, (k <= length bs)%nat /\
    (forall x, flat_view u' x = if (va <=? x) && (x <? va + Z.of_nat k) then bs !! Z.to_nat (x - va) else flat_view u x) /\
    (forall x, va <= x < va + Z.of_nat k -> flat_view u x <> None) /\
    (r = 0 /\ k = length bs \/ r = -1 /\ (k < length bs)%nat)) u.
Proof.
  intros _ Hva. unfold flat_out, wp. destruct (_ || _) eqn:Eok; (split; [exact I|]).
  - exists (length bs). split; [lia|]. split; [|split; [intros x Hx; unfold flat_view; replace (x <? FLAT) with true by lia; discriminate | auto]].
    intros x. unfold flat_view. destruct ((va <=? x) && (x <? va + Z.of_nat (length bs))) eqn:E; [|reflexivity].
    replace (x <? FLAT) with true by lia.
    assert (Hlt : (Z.to_nat (x - va) < length bs)%nat) by lia. apply lookup_lt_is_Some_2 in Hlt as [b Hb].
    rewrite Hb. f_equal. apply nth_lookup_Some. exact Hb.
  - exists O. split; [lia|]. split; [|split; [lia | right; lia]]. intros x. replace (_ && _) with false by lia. reflexivity.
Qed.

Lemma flat_in_law va n u : True -> 0 <= va < 2 ^ 64 -> 0 <= n ->
  wp (flat_in va n) (fun '(r, bs) u' => u' = u /\
    (forall i b, bs !! i = Some b -> flat_view u (va + Z.of_nat i) = Some b) /\
    (r = 0 /\ Z.of_nat (length bs) = n \/
     r = -1 /\ Z.of_nat (length bs) < n /\ flat_view u (va + Z.of_nat (length bs)) = None)) u.
Proof.
  intros _ Hva Hn. unfold flat_in, wp. split; [reflexivity|]. rewrite length_bytes_at. split.
  - intros i b Hi. pose proof (lookup_lt_Some _ _ _ Hi) as Hl. rewrite length_bytes_at in Hl. rewrite lookup_bytes_at in Hi by exact Hl.
    unfold flat_view. replace (_ <? FLAT) with true by (unfold flat_room in *; lia). exact Hi.
  - unfold flat_view. destruct (Z.eqb_spec (flat_room va n) n) as [E|E]; [left; lia | right].
    split; [reflexivity|]. replace (_ <? FLAT) with false by (unfold flat_room in *; lia). split; [unfold flat_room in *; lia | reflexivity].
Qed.

Lemma flat_instr_law va max u : True -> 0 <= va < 2 ^ 64 -> 0 <= max ->
  wp (flat_instr va max) (fun '(r, bs) u' => u' = u /\
    (forall i b, bs !! i = Some b -> flat_view u (va + Z.of_nat i) = Some b) /\
    (r = 0 /\ (exists s, bs = s ++ [x00] /\ x00 ∉ s) /\ Z.of_nat (length bs) <= max \/ r = -1)) u.
Proof.
  intros _ Hva Hn. unfold flat_instr, wp. pose proof (flat_str_spec (Z.to_nat (flat_room va max)) u va) as H.
  destruct (flat_str (Z.to_nat (flat_room va max)) u va) as [r bs]. destruct H as (H1 & H2 & H3). split; [reflexivity|].
  split.
  { intros i b Hi. unfold flat_view. pose proof (lookup_lt_Some _ _ _ Hi).
    replace (_ <? FLAT) with true by (unfold flat_room in *; lia). f_equal. symmetry. apply H1. exact Hi. }
  destruct H3 as [[-> H3]|H3]; [left; split; [reflexivity|]; split; [exact H3 | unfold flat_room in *; lia] | auto].
Qed.

Definition flat_user : UserMem (Z -> byte) := {|
  ucopyout := flat_out; ucopyin := flat_in; ucopyinstr := flat_instr; um_ok := fun _ => True; uview := flat_view;
  ucopyout_law := flat_out_law; ucopyin_law := flat_in_law; ucopyinstr_law := flat_instr_law |}.
End Flat.
