(* ===== verification/KernelMem.v ===== *)
(** * The memory of a process behind its page table

    The instance of [UserMem] for the functions of kernel/vm.c: the physical
    memory with its free list, and the root of the running process's page
    table. *)

From S2P Require Import Prelude Memory Riscv Kalloc Vm PageTable Uvm UserCopy UserMem.

Definition umem : Type := kstate * Z.

Definition kview (u : umem) (va : Z) : option byte :=
  if (0 <=? va) && user_ok (k_mem u.1) u.2 va then Some (vread (k_mem u.1) u.2 va) else None.

Definition kmem_ok (u : umem) : Prop := exists l P n, aspace u.1 l u.2 P n.

Definition kern {A} (f : Z -> M kstate A) : M umem A :=
  fun u => zoom fst (fun k u => (k, u.2)) (f u.2) u.

Lemma wp_kern {A} (f : Z -> M kstate A) Q s root :
  wp (f root) (fun a s' => Q a (s', root)) s -> wp (kern f) Q (s, root).
Proof. intros H. unfold kern. apply wp_zoom. exact H. Qed.

Lemma user_ok_bound s l root P n va : aspace s l root P n -> 0 <= va -> user_ok (k_mem s) root va = true -> va < n * PGSIZE.
Proof.
  intros HA Hva Hok. unfold user_ok in Hok. apply andb_true_iff in Hok as [Hok Hu]. apply andb_true_iff in Hok as [Hm Hv].
  destruct (Z.lt_ge_cases va (n * PGSIZE)) as [|Hge]; [assumption|]. exfalso.
  destruct (Z.lt_ge_cases va TRAPFRAME) as [Hlt|Hge'].
  - rewrite (as_top _ _ _ _ _ HA va) in Hv by lia. discriminate.
  - rewrite (as_priv _ _ _ _ _ HA va) in Hu by lia. discriminate.
Qed.

Lemma vbytes_lookup m root va k i b : vbytes m root va k !! i = Some b ->
  0 <= Z.of_nat i < k /\ b = vread m root (va + Z.of_nat i).
Proof.
  intros H. pose proof (lookup_lt_Some _ _ _ H) as Hl. rewrite length_vbytes in Hl.
  unfold vbytes in H. rewrite list_lookup_fmap, lookup_seq_lt in H by exact Hl. cbn in H. injection H as <-. split; [lia | reflexivity].
Qed.

Lemma kview_vbytes s root va k : 0 <= va -> (forall i, 0 <= i < k -> user_ok (k_mem s) root (va + i) = true) ->
  forall i b, vbytes (k_mem s) root va k !! i = Some b -> kview (s, root) (va + Z.of_nat i) = Some b.
Proof.
  intros Hva Hok i b H. apply vbytes_lookup in H as [Hi ->]. unfold kview. cbn [fst snd].
  rewrite Hok by lia. replace (0 <=? va + Z.of_nat i) with true by lia. reflexivity.
Qed.

Lemma kcopyin_law va n u : kmem_ok u -> 0 <= va < 2 ^ 64 -> 0 <= n ->
  wp (kern (fun root => copyin root va n)) (fun '(r, bs) u' => u' = u /\
    (forall i b, bs !! i = Some b -> kview u (va + Z.of_nat i) = Some b) /\
    (r = 0 /\ Z.of_nat (length bs) = n \/
     r = -1 /\ Z.of_nat (length bs) < n /\ kview u (va + Z.of_nat (length bs)) = None)) u.
Proof.
  destruct u as [s root]. intros (l & P & c & HA) Hva Hn. apply wp_kern. cbn [fst snd] in HA.
  eapply wp_mono; [apply (copyin_wp s l root P c HA va n Hva Hn)|]. intros [r bs] s' (-> & k & Hk & -> & Hok & Hr).
  split; [reflexivity|]. split; [apply kview_vbytes; [lia | exact Hok]|]. rewrite length_vbytes, Z2Nat.id by lia.
  destruct Hr as [[-> ->]|(-> & Hlt & Hbad)]; [left; auto|]. right. split; [reflexivity|]. split; [lia|].
  unfold kview. cbn [fst snd]. rewrite Hbad, andb_false_r. reflexivity.
Qed.

Lemma kcopyinstr_law va max u : kmem_ok u -> 0 <= va < 2 ^ 64 -> 0 <= max ->
  wp (kern (fun root => copyinstr root va max)) (fun '(r, bs) u' => u' = u /\
    (forall i b, bs !! i = Some b -> kview u (va + Z.of_nat i) = Some b) /\
    (r = 0 /\ (exists s, bs = s ++ [x00] /\ x00 ∉ s) /\ Z.of_nat (length bs) <= max \/ r = -1)) u.
Proof.
  destruct u as [s root]. intros (l & P & c & HA) Hva Hn. apply wp_kern. cbn [fst snd] in HA.
  eapply wp_mono; [apply (copyinstr_wp s l root P c HA va max Hva Hn)|].
  intros [r bs] s' (-> & k & Hk & Hnz & Hok & Hr). split; [reflexivity|].
  destruct Hr as [(-> & Hlt & Hk0 & Hz & ->)|(-> & -> & _)].
  - split.
    + intros i b Hi. apply lookup_app_Some in Hi as [Hi|[Hi1 Hi2]]; [apply (kview_vbytes s root va k); [lia | exact Hok | exact Hi]|].
      rewrite length_vbytes in Hi1, Hi2. apply list_lookup_singleton_Some in Hi2 as [Hi2 <-].
      replace (va + Z.of_nat i) with (va + k) by lia. unfold kview. cbn [fst snd]. rewrite Hk0, Hz.
      replace (0 <=? va + k) with true by lia. reflexivity.
    + left. split; [reflexivity|]. split; [exists (vbytes (k_mem s) root va k); auto|].
      rewrite length_app, length_vbytes. cbn. lia.
  - split; [apply kview_vbytes; [lia | exact Hok] | auto].
Qed.

Lemma kcopyout_law va bs u : kmem_ok u -> 0 <= va < 2 ^ 64 ->
  wp (kern (fun root => copyout root va bs)) (fun r u' => kmem_ok u' /\ exists k, (k <= length bs)%nat /\
    (forall x, kview u' x = if (va <=? x) && (x <? va + Z.of_nat k) then bs !! Z.to_nat (x - va) else kview u x) /\
    (forall x, va <= x < va + Z.of_nat k -> kview u x <> None) /\
    (r = 0 /\ k = length bs \/ r = -1 /\ (k < length bs)%nat)) u.
Proof.
  destruct u as [s root]. intros (l & P & c & HA) Hva. apply wp_kern. cbn [fst snd] in HA.
  eapply wp_mono; [apply (copyout_wp s l root P c va bs HA Hva)|]. intros r s' (k & Hk & Hst & Hok & Hr).
  split; [exists l, P, c; exact (st_space _ _ _ _ _ _ _ _ Hst)|]. exists k. split; [exact Hk|].
  assert (Hok' : forall x, va <= x < va + Z.of_nat k -> user_ok (k_mem s) root x = true).
  { intros x Hx. specialize (Hok (x - va) ltac:(lia)). replace (va + (x - va)) with x in Hok by lia.
    unfold user_wok in Hok. apply andb_true_iff in Hok. tauto. }
  assert (Hsame : forall x, user_ok (k_mem s') root x = user_ok (k_mem s) root x).
  { intros x. unfold user_ok. rewrite (st_leaf _ _ _ _ _ _ _ _ Hst). reflexivity. }
  split; [|split].
  - intros x. unfold kview. cbn [fst snd]. rewrite Hsame. destruct ((0 <=? x) && user_ok (k_mem s) root x) eqn:Hx.
    + apply andb_true_iff in Hx as [Hx0 Hx]. pose proof (user_ok_bound s l root P c x HA ltac:(lia) Hx).
      rewrite (st_read _ _ _ _ _ _ _ _ Hst x) by lia. rewrite length_take, Nat.min_l by lia.
      destruct ((va <=? x) && (x <? va + Z.of_nat k)) eqn:Hin; [|reflexivity].
      assert (Hlt : (Z.to_nat (x - va) < length bs)%nat) by lia. apply lookup_lt_is_Some_2 in Hlt as [b Hb].
      rewrite Hb. f_equal. apply nth_lookup_Some. rewrite lookup_take_lt by lia. exact Hb.
    + destruct ((va <=? x) && (x <? va + Z.of_nat k)) eqn:Hin; [|reflexivity].
      rewrite Hok' in Hx by lia. lia.
  - intros x Hx. unfold kview. cbn [fst snd]. rewrite Hok' by lia. replace (0 <=? x) with true by lia. discriminate.
  - destruct Hr as [Hr|(-> & Hr & _)]; [left; exact Hr | right; auto].
Qed.

#[export] Instance kernel_user_mem : UserMem umem := {|
  ucopyout va bs := kern (fun root => copyout root va bs);
  ucopyin va n := kern (fun root => copyin root va n);
  ucopyinstr va max := kern (fun root => copyinstr root va max);
  um_ok := kmem_ok;
  uview := kview;
  ucopyout_law := kcopyout_law;
  ucopyin_law := kcopyin_law;
  ucopyinstr_law := kcopyinstr_law
|}.
