(* ===== verification/Fs.v ===== *)
(** * The file system: kernel/fs.c

    Blocks, inodes, directories and path names over the log ([Log]) and the
    memory of the calling process ([UserMem]).  An inode pointer is the index
    of its entry in [itable.inode]; a null pointer is [None].  The messages
    printed when the disk is full are not part of the model. *)

From S2P Require Import Prelude Memory FsDefs BufCache Log UserMem.

Section Fs.
Context {S U : Type} `{BufCache S} `{UserMem U}.

(** ** State *)

(** [struct inode] of kernel/file.h *)
Record inode := Inode {
  i_dev : Z;
  i_inum : Z;
  i_ref : Z;
  i_locked : bool;
  i_valid : bool;
  i_type : Z;
  i_major : Z;
  i_minor : Z;
  i_nlink : Z;
  i_size : Z;
  i_addrs : Z -> Z
}.

(** The log and cache, the superblock, [itable], the process's memory and
    current directory. *)
Record fstate := FState {
  f_log : lstate S;
  f_sb : superblock;
  f_ilock : bool;
  f_inode : nat -> inode;
  f_user : U;
  f_cwd : nat
}.

Definition set_log (l : lstate S) (s : fstate) : fstate :=
  FState l (f_sb s) (f_ilock s) (f_inode s) (f_user s) (f_cwd s).
Definition set_sb (sb : superblock) (s : fstate) : fstate :=
  FState (f_log s) sb (f_ilock s) (f_inode s) (f_user s) (f_cwd s).
Definition set_ilock (v : bool) (s : fstate) : fstate :=
  FState (f_log s) (f_sb s) v (f_inode s) (f_user s) (f_cwd s).
Definition upd_inode (i : nat) (f : inode -> inode) (s : fstate) : fstate :=
  FState (f_log s) (f_sb s) (f_ilock s) (<[i := f (f_inode s i)]> (f_inode s)) (f_user s) (f_cwd s).
Definition set_user (u : U) (s : fstate) : fstate :=
  FState (f_log s) (f_sb s) (f_ilock s) (f_inode s) u (f_cwd s).
Definition set_cwd (d : nat) (s : fstate) : fstate :=
  FState (f_log s) (f_sb s) (f_ilock s) (f_inode s) (f_user s) d.

Definition set_iid (d n : Z) (x : inode) : inode :=
  Inode d n (i_ref x) (i_locked x) (i_valid x) (i_type x) (i_major x) (i_minor x) (i_nlink x) (i_size x) (i_addrs x).
Definition set_iref (r : Z) (x : inode) : inode :=
  Inode (i_dev x) (i_inum x) r (i_locked x) (i_valid x) (i_type x) (i_major x) (i_minor x) (i_nlink x) (i_size x) (i_addrs x).
Definition set_ilocked (l : bool) (x : inode) : inode :=
  Inode (i_dev x) (i_inum x) (i_ref x) l (i_valid x) (i_type x) (i_major x) (i_minor x) (i_nlink x) (i_size x) (i_addrs x).
Definition set_ivalid (v : bool) (x : inode) : inode :=
  Inode (i_dev x) (i_inum x) (i_ref x) (i_locked x) v (i_type x) (i_major x) (i_minor x) (i_nlink x) (i_size x) (i_addrs x).
Definition set_itype (t : Z) (x : inode) : inode :=
  Inode (i_dev x) (i_inum x) (i_ref x) (i_locked x) (i_valid x) t (i_major x) (i_minor x) (i_nlink x) (i_size x) (i_addrs x).
Definition set_idevno (ma mi : Z) (x : inode) : inode :=
  Inode (i_dev x) (i_inum x) (i_ref x) (i_locked x) (i_valid x) (i_type x) ma mi (i_nlink x) (i_size x) (i_addrs x).
Definition set_inlink (n : Z) (x : inode) : inode :=
  Inode (i_dev x) (i_inum x) (i_ref x) (i_locked x) (i_valid x) (i_type x) (i_major x) (i_minor x) n (i_size x) (i_addrs x).
Definition set_isize (n : Z) (x : inode) : inode :=
  Inode (i_dev x) (i_inum x) (i_ref x) (i_locked x) (i_valid x) (i_type x) (i_major x) (i_minor x) (i_nlink x) n (i_addrs x).
Definition set_iaddrs (a : Z -> Z) (x : inode) : inode :=
  Inode (i_dev x) (i_inum x) (i_ref x) (i_locked x) (i_valid x) (i_type x) (i_major x) (i_minor x) (i_nlink x) (i_size x) a.

(** ** Calls of the layers below *)

Definition log_ {A} (m : M (lstate S) A) : M fstate A := zoom f_log set_log m.
Definition user_ {A} (m : M U A) : M fstate A := zoom f_user set_user m.
Definition fbread (dev blk : Z) : M fstate nat := log_ (bio (bread (u32 dev) (u32 blk))).
Definition fbrelse (b : nat) : M fstate unit := log_ (bio (brelse b)).
Definition fdata (b : nat) : M fstate mem := log_ (bdata b).
Definition fstore (b : nat) (m : mem) : M fstate unit := log_ (bstore b m).
Definition flog_write (b : nat) : M fstate unit := log_ (log_write b).

Definition lock_itable : M fstate unit := acquire f_ilock set_ilock.
Definition unlock_itable : M fstate unit := release f_ilock set_ilock.
Definition isleep_lock (ip : nat) : M fstate unit := fun s =>
  if i_locked (f_inode s ip) then Block s else Ret tt (upd_inode ip (set_ilocked true) s).
Definition isleep_unlock (ip : nat) : M fstate unit := modify (upd_inode ip (set_ilocked false)).
Definition the_inode (ip : nat) : M fstate inode := gets (fun s => f_inode s ip).

(** ** Super block *)

Definition get_sb (m : mem) : superblock :=
  {| sb_magic := load32 m 0; sb_size := load32 m 4; sb_nblocks := load32 m 8;
     sb_ninodes := load32 m 12; sb_nlog := load32 m 16; sb_logstart := load32 m 20;
     sb_inodestart := load32 m 24; sb_bmapstart := load32 m 28 |}.

Definition readsb (dev : Z) : M fstate unit :=
  bp ← fbread dev 1;
  m ← fdata bp;
  modify (set_sb (get_sb m));;
  fbrelse bp.

Definition fsinit (dev : Z) : M fstate unit :=
  readsb dev;;
  sb ← gets f_sb;
  panic_if (negb (sb_magic sb =? FSMAGIC)) "invalid file system";;
  log_ (initlog dev sb).

(** ** Blocks *)

Definition bzero (dev bno : Z) : M fstate unit :=
  bp ← fbread dev bno;
  m ← fdata bp;
  fstore bp (CString.memset 0 0 BSIZE m);;
  flog_write bp;;
  fbrelse bp.

(** [data[bi/8] & (1 << (bi % 8))] *)
Definition bit_set (m : mem) (bi : Z) : bool :=
  negb (Z.land (b2z (m (bi / 8))) (Z.shiftl 1 (bi mod 8)) =? 0).
(** [data[bi/8] |= 1 << (bi % 8)] and [data[bi/8] &= ~(1 << (bi % 8))] *)
Definition set_bit (m : mem) (bi : Z) : mem :=
  mset m (bi / 8) (z2b (Z.lor (b2z (m (bi / 8))) (Z.shiftl 1 (bi mod 8)))).
Definition clear_bit (m : mem) (bi : Z) : mem :=
  mset m (bi / 8) (z2b (Z.land (b2z (m (bi / 8))) (Z.lnot (Z.shiftl 1 (bi mod 8))))).

(** The scan of one bitmap block for a clear bit: [bi] from 0 while
    [bi < BPB && b + bi < size]. *)
Fixpoint scan_bits (k : nat) (m : mem) (size b bi : Z) : option Z :=
  match k with
  | O => None
  | Datatypes.S k' =>
      if (bi <? BPB) && (b + bi <? size) then
        if bit_set m bi then scan_bits k' m size b (bi + 1) else Some bi
      else None
  end.

Definition balloc_step (dev b : Z) : M fstate (Z + Z) :=
  sb ← gets f_sb;
  if b <? sb_size sb then
    bp ← fbread dev (BBLOCK b sb);
    m ← fdata bp;
    match scan_bits (Z.to_nat BPB) m (sb_size sb) b 0 with
    | Some bi =>
        fstore bp (set_bit m bi);;
        flog_write bp;;
        fbrelse bp;;
        bzero dev (b + bi);;
        mret (inr (b + bi))
    | None =>
        fbrelse bp;;
        mret (inl (b + BPB))
    end
  else mret (inr 0).

Definition balloc (dev : Z) : M fstate Z :=
  sb ← gets f_sb;
  loop (Datatypes.S (Datatypes.S (Z.to_nat (sb_size sb / BPB)))) (balloc_step dev) 0.

Definition bfree (dev b : Z) : M fstate unit :=
  sb ← gets f_sb;
  bp ← fbread dev (BBLOCK b sb);
  let bi := b mod BPB in
  m ← fdata bp;
  panic_if (negb (bit_set m bi)) "freeing free block";;
  fstore bp (clear_bit m bi);;
  flog_write bp;;
  fbrelse bp.

(** ** Inodes *)

Definition iinit : M fstate unit :=
  modify (set_ilock false);;
  modify (fun s => foldl (fun s i => upd_inode i (set_ilocked false) s) s (seq 0 (Z.to_nat NINODE))).

(** The fields of [struct dinode] at offset [a] of a block. *)
Definition dinode_off (inum : Z) : Z := (inum mod IPB) * DINODE_SIZE.

(** [memmove(dip->addrs, ip->addrs, sizeof(ip->addrs))] *)
Fixpoint put_addrs (k : nat) (i : Z) (m : mem) (a : Z) (addrs : Z -> Z) : mem :=
  match k with
  | O => m
  | Datatypes.S k' => put_addrs k' (i + 1) (store32 m (a + 12 + 4 * i) (addrs i)) a addrs
  end.

Definition put_dinode (m : mem) (a : Z) (x : inode) : mem :=
  let m := store16 m a (u16 (i_type x)) in
  let m := store16 m (a + 2) (u16 (i_major x)) in
  let m := store16 m (a + 4) (u16 (i_minor x)) in
  let m := store16 m (a + 6) (u16 (i_nlink x)) in
  let m := store32 m (a + 8) (i_size x) in
  put_addrs (Z.to_nat (NDIRECT + 1)) 0 m a (i_addrs x).

Definition get_dinode (m : mem) (a : Z) (x : inode) : inode :=
  Inode (i_dev x) (i_inum x) (i_ref x) (i_locked x) (i_valid x)
    (i16 (load16 m a)) (i16 (load16 m (a + 2))) (i16 (load16 m (a + 4))) (i16 (load16 m (a + 6)))
    (load32 m (a + 8))
    (fun i => if (0 <=? i) && (i <=? NDIRECT) then load32 m (a + 12 + 4 * i) else i_addrs x i).

(** The search of [iget]: a used entry for the inode, or the first free one. *)
Fixpoint iget_scan (k i : nat) (tbl : nat -> inode) (dev inum : Z) (empty : option nat) : nat + option nat :=
  match k with
  | O => inr empty
  | Datatypes.S k' =>
      let x := tbl i in
      if (i_ref x >? 0) && (i_dev x =? dev) && (i_inum x =? inum) then inl i
      else
        let empty := match empty with
                     | None => if i_ref x =? 0 then Some i else None
                     | e => e
                     end in
        iget_scan k' (Datatypes.S i) tbl dev inum empty
  end.

Definition iget (dev inum : Z) : M fstate nat :=
  lock_itable;;
  tbl ← gets f_inode;
  match iget_scan (Z.to_nat NINODE) 0 tbl dev inum None with
  | inl ip =>
      modify (upd_inode ip (fun x => set_iref (i_ref x + 1) x));;
      unlock_itable;;
      mret ip
  | inr None => panic "iget: no inodes"
  | inr (Some ip) =>
      modify (upd_inode ip (fun x => set_ivalid false (set_iref 1 (set_iid dev inum x))));;
      unlock_itable;;
      mret ip
  end.

Definition ialloc (dev type : Z) : M fstate (option nat) :=
  sb ← gets f_sb;
  loop (Datatypes.S (Z.to_nat (sb_ninodes sb))) (fun inum =>
    if inum <? sb_ninodes sb then
      bp ← fbread dev (IBLOCK inum sb);
      m ← fdata bp;
      let a := dinode_off inum in
      if i16 (load16 m a) =? 0 then
        fstore bp (store16 (CString.memset a 0 DINODE_SIZE m) a (u16 type));;
        flog_write bp;;
        fbrelse bp;;
        ip ← iget dev inum;
        mret (inr (Some ip))
      else
        fbrelse bp;;
        mret (inl (inum + 1))
    else mret (inr None)) 1.

Definition iupdate (ip : nat) : M fstate unit :=
  x ← the_inode ip;
  sb ← gets f_sb;
  bp ← fbread (i_dev x) (IBLOCK (i_inum x) sb);
  m ← fdata bp;
  fstore bp (put_dinode m (dinode_off (i_inum x)) x);;
  flog_write bp;;
  fbrelse bp.

Definition idup (ip : nat) : M fstate nat :=
  lock_itable;;
  modify (upd_inode ip (fun x => set_iref (i_ref x + 1) x));;
  unlock_itable;;
  mret ip.

Definition ilock (ip : option nat) : M fstate unit :=
  match ip with
  | None => panic "ilock"
  | Some ip =>
      x ← the_inode ip;
      panic_if (i_ref x <? 1) "ilock";;
      isleep_lock ip;;
      x ← the_inode ip;
      when (negb (i_valid x))
        (sb ← gets f_sb;
         bp ← fbread (i_dev x) (IBLOCK (i_inum x) sb);
         m ← fdata bp;
         modify (upd_inode ip (get_dinode m (dinode_off (i_inum x))));;
         fbrelse bp;;
         modify (upd_inode ip (set_ivalid true));;
         x ← the_inode ip;
         panic_if (i_type x =? 0) "ilock: no type")
  end.

Definition iunlock (ip : option nat) : M fstate unit :=
  match ip with
  | None => panic "iunlock"
  | Some ip =>
      x ← the_inode ip;
      panic_if (negb (i_locked x) || (i_ref x <? 1)) "iunlock";;
      isleep_unlock ip
  end.

(** ** Inode contents *)

Definition bmap (ip : nat) (bn : Z) : M fstate Z :=
  x ← the_inode ip;
  if bn <? NDIRECT then
    if i_addrs x bn =? 0 then
      addr ← balloc (i_dev x);
      if addr =? 0 then mret 0
      else
        modify (upd_inode ip (fun x => set_iaddrs (<[bn := addr]> (i_addrs x)) x));;
        mret addr
    else mret (i_addrs x bn)
  else
    let bn := bn - NDIRECT in
    if bn <? NINDIRECT then
      addr ← (if i_addrs x NDIRECT =? 0 then
                addr ← balloc (i_dev x);
                when (negb (addr =? 0))
                  (modify (upd_inode ip (fun x => set_iaddrs (<[NDIRECT := addr]> (i_addrs x)) x)));;
                mret addr
              else mret (i_addrs x NDIRECT));
      if addr =? 0 then mret 0
      else
        bp ← fbread (i_dev x) addr;
        m ← fdata bp;
        addr ← (if load32 m (4 * bn) =? 0 then
                  addr ← balloc (i_dev x);
                  when (negb (addr =? 0))
                    (m ← fdata bp;
                     fstore bp (store32 m (4 * bn) addr);;
                     flog_write bp);;
                  mret addr
                else mret (load32 m (4 * bn)));
        fbrelse bp;;
        mret addr
    else panic "bmap: out of range".

Definition itrunc (ip : nat) : M fstate unit :=
  loop (Datatypes.S (Z.to_nat NDIRECT)) (fun i =>
    if i <? NDIRECT then
      x ← the_inode ip;
      when (negb (i_addrs x i =? 0))
        (bfree (i_dev x) (i_addrs x i);;
         modify (upd_inode ip (fun x => set_iaddrs (<[i := 0]> (i_addrs x)) x)));;
      mret (inl (i + 1))
    else mret (inr tt)) 0;;
  x ← the_inode ip;
  when (negb (i_addrs x NDIRECT =? 0))
    (bp ← fbread (i_dev x) (i_addrs x NDIRECT);
     loop (Datatypes.S (Z.to_nat NINDIRECT)) (fun j =>
       if j <? NINDIRECT then
         m ← fdata bp;
         when (negb (load32 m (4 * j) =? 0)) (bfree (i_dev x) (load32 m (4 * j)));;
         mret (inl (j + 1))
       else mret (inr tt)) 0;;
     fbrelse bp;;
     bfree (i_dev x) (i_addrs x NDIRECT);;
     modify (upd_inode ip (fun x => set_iaddrs (<[NDIRECT := 0]> (i_addrs x)) x)));;
  modify (upd_inode ip (set_isize 0));;
  iupdate ip.

Definition iput (ip : nat) : M fstate unit :=
  lock_itable;;
  x ← the_inode ip;
  when ((i_ref x =? 1) && i_valid x && (i_nlink x =? 0))
    (isleep_lock ip;;
     unlock_itable;;
     itrunc ip;;
     modify (upd_inode ip (set_itype 0));;
     iupdate ip;;
     modify (upd_inode ip (set_ivalid false));;
     isleep_unlock ip;;
     lock_itable);;
  modify (upd_inode ip (fun x => set_iref (i_ref x - 1) x));;
  unlock_itable.

Definition iunlockput (ip : nat) : M fstate unit :=
  iunlock (Some ip);;
  iput ip.

(** [struct stat] of kernel/stat.h *)
Record stat := Stat { st_dev : Z; st_ino : Z; st_type : Z; st_nlink : Z; st_size : Z }.

Definition stati (ip : nat) : M fstate stat :=
  x ← the_inode ip;
  mret (Stat (i32 (i_dev x)) (i_inum x) (i_type x) (i_nlink x) (i_size x)).

(** Where [readi] delivers: the process's memory, or a kernel buffer. *)
Inductive rdst := UserDst (va : Z) | KernelDst.

(** [either_copyout] of kernel/proc.c *)
Definition either_copyout (dst : rdst) (bs : list byte) : M fstate Z :=
  match dst with
  | UserDst va => user_ (ucopyout va bs)
  | KernelDst => mret 0
  end.
Definition rdst_add (dst : rdst) (m : Z) : rdst :=
  match dst with UserDst va => UserDst (u64 (va + m)) | KernelDst => KernelDst end.

(** One iteration of [readi]; [acc] are the bytes delivered so far. *)
Definition readi_step (ip : nat) (n : Z) (st : Z * Z * rdst * list byte) :
    M fstate (Z * Z * rdst * list byte + Z * list byte) :=
  let '(tot, off, dst, acc) := st in
  if tot <? n then
    addr ← bmap ip (off / BSIZE);
    if addr =? 0 then mret (inr (tot, acc))
    else
      x ← the_inode ip;
      bp ← fbread (i_dev x) addr;
      let m := Z.min (n - tot) (BSIZE - off mod BSIZE) in
      data ← fdata bp;
      let bs := bytes_at data (off mod BSIZE) (Z.to_nat m) in
      r ← either_copyout dst bs;
      if r =? -1 then
        fbrelse bp;;
        mret (inr (-1, acc))
      else
        fbrelse bp;;
        mret (inl (u32 (tot + m), u32 (off + m), rdst_add dst m, acc ++ bs))
  else mret (inr (tot, acc)).

(** The result and, for a kernel destination, the bytes stored there. *)
Definition readi (ip : nat) (dst : rdst) (off n : Z) : M fstate (Z * list byte) :=
  x ← the_inode ip;
  if (off >? i_size x) || (u32 (off + n) <? off) then mret (0, [])
  else
    let n := if u32 (off + n) >? i_size x then u32 (i_size x - off) else n in
    '(tot, acc) ← loop (Datatypes.S (Datatypes.S (Datatypes.S (Z.to_nat (n / BSIZE)))))
                    (readi_step ip n) (0, off, dst, []);
    mret (i32 tot, acc).

(** Where [writei] takes its bytes from. *)
Inductive wsrc := UserSrc (va : Z) | KernelSrc (bs : list byte).

(** [either_copyin] of kernel/proc.c: the bytes copied come with the result. *)
Definition either_copyin (src : wsrc) (len : Z) : M fstate (Z * list byte) :=
  match src with
  | UserSrc va => user_ (ucopyin va len)
  | KernelSrc bs => mret (0, take (Z.to_nat len) bs)
  end.
Definition wsrc_add (src : wsrc) (m : Z) : wsrc :=
  match src with
  | UserSrc va => UserSrc (u64 (va + m))
  | KernelSrc bs => KernelSrc (drop (Z.to_nat m) bs)
  end.

(** One iteration of [writei]. *)
Definition writei_step (ip : nat) (n : Z) (st : Z * Z * wsrc) : M fstate (Z * Z * wsrc + Z * Z) :=
  let '(tot, off, src) := st in
  if tot <? n then
    addr ← bmap ip (off / BSIZE);
    if addr =? 0 then mret (inr (tot, off))
    else
      x ← the_inode ip;
      bp ← fbread (i_dev x) addr;
      let m := Z.min (n - tot) (BSIZE - off mod BSIZE) in
      '(r, bs) ← either_copyin src m;
      data ← fdata bp;
      fstore bp (put_bytes data (off mod BSIZE) bs);;
      if r =? -1 then
        fbrelse bp;;
        mret (inr (tot, off))
      else
        flog_write bp;;
        fbrelse bp;;
        mret (inl (u32 (tot + m), u32 (off + m), wsrc_add src m))
  else mret (inr (tot, off)).

Definition writei (ip : nat) (src : wsrc) (off n : Z) : M fstate Z :=
  x ← the_inode ip;
  if (off >? i_size x) || (u32 (off + n) <? off) then mret (-1)
  else if u32 (off + n) >? MAXFILE * BSIZE then mret (-1)
  else
    '(tot, off) ← loop (Datatypes.S (Datatypes.S (Datatypes.S (Z.to_nat (n / BSIZE)))))
                    (writei_step ip n) (0, off, src);
    x ← the_inode ip;
    when (off >? i_size x) (modify (upd_inode ip (set_isize off)));;
    iupdate ip;;
    mret (i32 tot).

(** ** Directories *)

(** [struct dirent]: a [ushort] and DIRSIZ characters. *)
Definition DIRENT_SIZE : Z := 2 + DIRSIZ.
Definition de_inum (de : mem) : Z := load16 de 0.

(** The name of an entry starts at offset 2. *)
Definition namecmp (s : mem) (t : mem) (toff : Z) : Z := CString.strncmp s 0 t toff DIRSIZ.

Definition dirlookup (dp : nat) (name : mem) : M fstate (option (nat * Z)) :=
  x ← the_inode dp;
  panic_if (negb (i_type x =? T_DIR)) "dirlookup not DIR";;
  loop (Datatypes.S (Datatypes.S (Z.to_nat (i_size x / DIRENT_SIZE)))) (fun off =>
    x ← the_inode dp;
    if off <? i_size x then
      '(r, bs) ← readi dp KernelDst off DIRENT_SIZE;
      panic_if (negb (r =? DIRENT_SIZE)) "dirlookup read";;
      let de := put_bytes zeroes 0 bs in
      if de_inum de =? 0 then mret (inl (u32 (off + DIRENT_SIZE)))
      else if namecmp name de 2 =? 0 then
        ip ← iget (i_dev x) (de_inum de);
        mret (inr (Some (ip, off)))
      else mret (inl (u32 (off + DIRENT_SIZE)))
    else mret (inr None)) 0.

Definition dirlink (dp : nat) (name : mem) (inum : Z) : M fstate Z :=
  found ← dirlookup dp name;
  match found with
  | Some (ip, _) => iput ip;; mret (-1)
  | None =>
      x ← the_inode dp;
      off ← loop (Datatypes.S (Datatypes.S (Z.to_nat (i_size x / DIRENT_SIZE)))) (fun off =>
        x ← the_inode dp;
        if off <? i_size x then
          '(r, bs) ← readi dp KernelDst off DIRENT_SIZE;
          panic_if (negb (r =? DIRENT_SIZE)) "dirlink read";;
          if de_inum (put_bytes zeroes 0 bs) =? 0 then mret (inr off)
          else mret (inl (i32 (off + DIRENT_SIZE)))
        else mret (inr off)) 0;
      let de := store16 (CString.strncpy zeroes 2 name 0 DIRSIZ) 0 (u16 inum) in
      r ← writei dp (KernelSrc (bytes_at de 0 (Z.to_nat DIRENT_SIZE))) off DIRENT_SIZE;
      if negb (r =? DIRENT_SIZE) then mret (-1) else mret 0
  end.

End Fs.

(** ** Paths

    A path is the list of the bytes of a C string, without its NUL; moving a
    [char *] forward drops bytes from it. *)

Definition SLASH : byte := x2f.

(** [while( *path == '/') path++;] *)
Fixpoint skip_slashes (path : list byte) : list byte :=
  match path with
  | c :: path' => if decide (c = SLASH) then skip_slashes path' else path
  | [] => []
  end.

(** [while( *path != '/' && *path != 0) path++;] : the bytes passed over and
    the rest. *)
Fixpoint span_elem (path : list byte) : list byte * list byte :=
  match path with
  | c :: path' => if decide (c = SLASH) then ([], path)
                  else let '(e, r) := span_elem path' in (c :: e, r)
  | [] => ([], [])
  end.

(** The rest of the path ([None] for the null pointer) and the array [name]. *)
Definition skipelem (path : list byte) (name : mem) : option (list byte) * mem :=
  match skip_slashes path with
  | [] => (None, name)
  | s =>
      let '(elem, rest) := span_elem s in
      let len := Z.of_nat (length elem) in
      let name :=
        if len >=? DIRSIZ then put_bytes name 0 (take (Z.to_nat DIRSIZ) elem)
        else mset (put_bytes name 0 elem) len x00 in
      (Some (skip_slashes rest), name)
  end.

Section Namex.
Context {S U : Type} `{BufCache S} `{UserMem U}.

Definition namex_step (nameiparent : bool) (st : nat * list byte * mem) :
    M (fstate (S := S) (U := U)) (nat * list byte * mem + option nat * mem) :=
  let '(ip, path, name) := st in
  match skipelem path name with
  | (None, name) =>
      if nameiparent then iput ip;; mret (inr (None, name))
      else mret (inr (Some ip, name))
  | (Some path, name) =>
      ilock (Some ip);;
      x ← the_inode ip;
      if negb (i_type x =? T_DIR) then iunlockput ip;; mret (inr (None, name))
      else if nameiparent && bool_decide (path = []) then
        iunlock (Some ip);; mret (inr (Some ip, name))
      else
        found ← dirlookup ip name;
        match found with
        | None => iunlockput ip;; mret (inr (None, name))
        | Some (next, _) => iunlockput ip;; mret (inl (next, path, name))
        end
  end.

Definition namex (path : list byte) (nameiparent : bool) (name : mem) :
    M (fstate (S := S) (U := U)) (option nat * mem) :=
  ip ← (match path with
        | c :: _ => if decide (c = SLASH) then iget ROOTDEV ROOTINO
                    else d ← gets f_cwd; idup d
        | [] => d ← gets f_cwd; idup d
        end);
  loop (Datatypes.S (length path)) (namex_step nameiparent) (ip, path, name).

Definition namei (path : list byte) : M (fstate (S := S) (U := U)) (option nat) :=
  '(ip, _) ← namex path false zeroes;
  mret ip.

Definition nameiparent (path : list byte) (name : mem) : M (fstate (S := S) (U := U)) (option nat * mem) :=
  namex path true name.
End Namex.
Arguments fstate S U : clear implicits.
