(* ===== verification/FsTx.v ===== *)
(** * File-system code inside a transaction

    The rules by which the operations of [Fs] are verified: what a reader
    sees ([V]), the blocks the operation may log ([T]) and the buffers it
    holds ([H]) during an open transaction of the log.  The rules follow the
    idioms of kernel/fs.c: [bread], a look at the data, a change of the data
    together with its [log_write], [brelse]. *)

From S2P Require Import Prelude Memory FsDefs BufCache Bio Log LogCrash LogTx UserMem Fs.

(** The reference counts of a cache in which the blocks [bs] are pinned by
    the log and the buffers [H] are held. *)
Definition count (P : Prop) `{Decision P} : Z := if decide P then 1 else 0.
Definition refs_of (bs : list Z) (H : gmap nat Z) (k : Z) : option Z :=
  let n := count (k ∈ bs) + count (k ∈ (map_img H : gset Z)) in
  if n =? 0 then None else Some n.

Lemma count_true P `{Decision P} : P -> count P = 1.
Proof. intros HP. unfold count. rewrite decide_True by exact HP. reflexivity. Qed.
Lemma count_false P `{Decision P} : ~ P -> count P = 0.
Proof. intros HP. unfold count. rewrite decide_False by exact HP. reflexivity. Qed.
Lemma count_ext P Q `{Decision P} `{Decision Q} : (P <-> Q) -> count P = count Q.
Proof. intros E. unfold count. apply decide_ext. exact E. Qed.
Lemma count_range P `{Decision P} : 0 <= count P <= 1.
Proof. unfold count. case_decide; lia. Qed.

Lemma img_insert (H : gmap nat Z) b blk k :
  H !! b = None -> k ∈ (map_img (<[b := blk]> H) : gset Z) <-> k = blk \/ k ∈ (map_img H : gset Z).
Proof.
  intros Hb. rewrite !elem_of_map_img. split.
  - intros (i & Hi). destruct (decide (i = b)) as [->|Hne].
    + rewrite lookup_insert_eq in Hi. left. congruence.
    + rewrite lookup_insert_ne in Hi by congruence. right. eauto.
  - intros [->|(i & Hi)]; [exists b; apply lookup_insert_eq|]. exists i.
    rewrite lookup_insert_ne by congruence. exact Hi.
Qed.

Lemma img_delete (H : gmap nat Z) b blk k :
  H !! b = Some blk -> (forall b', H !! b' = Some blk -> b' = b) ->
  k ∈ (map_img (delete b H) : gset Z) <-> k <> blk /\ k ∈ (map_img H : gset Z).
Proof.
  intros Hb Hinj. rewrite !elem_of_map_img. split.
  - intros (i & [Hne Hi]%lookup_delete_Some). split; [|eauto]. intros ->. apply Hne. symmetry. auto.
  - intros (Hne & i & Hi). exists i. rewrite lookup_delete_ne by congruence. exact Hi.
Qed.

Lemma refs_size (r : gmap Z Z) bs (H : gmap nat Z) :
  (forall k, r !! k = refs_of bs H k) -> (base.size r <= length bs + base.size H)%nat.
Proof.
  intros Hr. set (l := bs ++ (map_to_list H).*2).
  assert (Hle : (base.size r <= length l)%nat); [|unfold l in Hle; rewrite length_app, length_fmap, length_map_to_list in Hle; exact Hle].
  rewrite <- (size_dom (D := gset Z)). unfold base.size, set_size.
  apply submseteq_length, NoDup_submseteq; [apply NoDup_elements|]. intros k Hk%elem_of_elements.
  apply elem_of_dom in Hk as [n Hk]. rewrite Hr in Hk. unfold l, refs_of in *.
  apply elem_of_app. destruct (decide (k ∈ bs)) as [Hin|Hin]; [auto|right].
  rewrite (count_false (k ∈ bs)) in Hk by exact Hin.
  destruct (decide (k ∈ (map_img H : gset Z))) as [Hi|Hi]; [|rewrite count_false in Hk by exact Hi; discriminate].
  apply elem_of_map_img in Hi as [b Hb]. apply list_elem_of_fmap. exists (b, k).
  split; [reflexivity|]. apply elem_of_map_to_list. exact Hb.
Qed.

Section FsTx.
Context {S U : Type} `{BC : BufCache S} `{UM : UserMem U}.
Context (dev : Z) (Hdev : u32 dev = dev) (start size : Z).
Context (Hgeo : 0 <= start /\ 0 < size <= LOGSIZE /\ start + size < 2 ^ 31).
Context (D : Z -> mem) (ws : list (Z * mem)) (o : Z).

(** Everything but the held buffers is as in [open_tx]; [T] bounds the
    blocks logged so far.  There are [o] operations in progress; with [o = 0]
    it is the state of code that reads outside of a transaction. *)
Record tx_in (V : Z -> mem) (T : list Z) (H : gmap nat Z) (l : lstate S) (c : cache) (bs : list Z) : Prop := {
  ti_rel : cache_rel dev (l_bc l) c;
  ti_dev : l_dev l = dev;
  ti_start : l_start l = start;
  ti_size : l_size l = size;
  ti_lock : l_lock l = false;
  ti_out : l_outstanding l = o;
  ti_com : l_committing l = false;
  ti_n : l_n l = Z.of_nat (length bs);
  ti_block : holds_blocks (l_block l) bs;
  ti_nodup : NoDup bs;
  ti_range : forall b, b ∈ bs -> 0 <= b < 2 ^ 31 /\ ~ in_log start size b;
  ti_sub : forall b, b ∈ bs -> b ∈ T;
  ti_held : c_held c = H;
  ti_refs : forall k, c_refs c !! k = refs_of bs H k;
  ti_view : c_view c = V;
  ti_disk : c_disk c = D;
  ti_writes : c_writes c = ws;
  ti_clean : forall k, k ∉ bs -> V k = D k
}.
Definition tx (V : Z -> mem) (T : list Z) (H : gmap nat Z) (l : lstate S) : Prop :=
  Z.of_nat (length T) < size - 1 /\ exists c bs, tx_in V T H l c bs.

Lemma tx_weaken V T T' H l :
  tx V T H l -> (forall b, b ∈ T -> b ∈ T') -> Z.of_nat (length T') < size - 1 -> tx V T' H l.
Proof.
  intros (_ & c & bs & X) Hsub HT. split; [exact HT|]. exists c, bs. destruct X. constructor; auto.
Qed.

Lemma open_tx_tx s c bs :
  open_tx dev start size D ws s c bs -> l_outstanding s = o -> Z.of_nat (length bs) < size - 1 ->
  tx (c_view c) bs ∅ s.
Proof.
  intros X Ho Hlen. split; [exact Hlen|]. exists c, bs. destruct X. constructor; auto.
  intros k. rewrite ot_refs. unfold refs_of. rewrite (count_false (k ∈ map_img _)) by (rewrite map_img_empty; set_solver).
  unfold count. case_decide; reflexivity.
Qed.

Lemma tx_open_tx V T l :
  1 <= o -> tx V T ∅ l -> exists c bs, open_tx dev start size D ws l c bs /\ c_view c = V /\
    l_outstanding l = o /\ (forall b, b ∈ bs -> b ∈ T) /\ (length bs <= length T)%nat /\ Z.of_nat (length bs) < size.
Proof.
  intros Ho (HT & c & bs & X). destruct X. exists c, bs.
  assert (Hlen : (length bs <= length T)%nat) by (apply submseteq_length, NoDup_submseteq; assumption).
  split; [|repeat split; auto; lia]. constructor; auto; [lia| |intros k Hk; rewrite ti_view0; auto].
  intros k. rewrite ti_refs0. unfold refs_of. rewrite (count_false (k ∈ map_img _)) by (rewrite map_img_empty; set_solver).
  unfold count. case_decide; reflexivity.
Qed.

Lemma tx_len V T H l c bs : tx_in V T H l c bs -> (length bs <= length T)%nat.
Proof. intros []. apply submseteq_length, NoDup_submseteq; assumption. Qed.

(** Two held buffers never hold the same block. *)
Lemma tx_inj V T H l b b' blk : tx V T H l -> H !! b = Some blk -> H !! b' = Some blk -> b' = b.
Proof.
  intros (_ & c & bs & X) H1 H2. pose proof (rel_ok _ _ _ (ti_rel _ _ _ _ _ _ X)) as OK.
  rewrite <- (ti_held _ _ _ _ _ _ X) in H1, H2. exact (co_inj _ OK _ _ _ H2 H1).
Qed.

Lemma refs_le bs H k : default 0 (refs_of bs H k) <= 2.
Proof.
  unfold refs_of. pose proof (count_range (k ∈ bs)). pose proof (count_range (k ∈ (map_img H : gset Z))).
  case_match; cbn; lia.
Qed.

(** ** Rules

    File-system code changes its state only through the log, the inode table
    and the process's memory; the rules below are about states
    [set_log l s]. *)

Local Abbreviation F := (fstate S U).

Lemma wp_last {A} (m : M F A) Q s : wp (m ≫= mret) Q s -> wp m Q s.
Proof. unfold wp, mbind, M_bind, mret, M_ret. destruct (m s); auto. Qed.

Lemma wp_log {A B} (m : M (lstate S) A) (k : A -> M F B) Q l s :
  wp m (fun a l' => wp (k a) Q (set_log l' s)) l -> wp (log_ m ≫= k) Q (set_log l s).
Proof. intros Hm. apply wp_bind, wp_zoom. exact Hm. Qed.

Lemma rule_fbread {B} blk (k : nat -> M F B) Q V T H l s :
  tx V T H l -> 0 <= blk < 2 ^ 31 -> blk ∉ (map_img H : gset Z) -> (base.size H <= 1)%nat ->
  (forall b l', H !! b = None -> tx V T (<[b := blk]> H) l' -> wp (k b) Q (set_log l' s)) ->
  wp (fbread dev blk ≫= k) Q (set_log l s).
Proof.
  intros (HT & c & bs & X) Hblk Himg HH Hk. pose proof (tx_len _ _ _ _ _ _ X) as Hlen. destruct X.
  apply wp_log, wp_zoom. rewrite Hdev, (u32_small blk) by lia.
  pose proof (refs_size _ _ _ ti_refs0) as Hsz. pose proof (refs_le bs H blk) as Hle. rewrite <- ti_refs0 in Hle.
  eapply wp_mono; [apply (bread_law dev blk _ c ti_rel0)|].
  - intros b Hb. apply Himg. rewrite <- ti_held0. apply elem_of_map_img. eauto.
  - right. unfold LOGSIZE, NBUF, MAXOPBLOCKS in *. lia.
  - lia.
  - intros b x' [Hn R']. apply Hk; [rewrite <- ti_held0; exact Hn|]. split; [exact HT|]. exists (c_read blk b c), bs.
    constructor; cbn [l_bc set_bc l_dev l_start l_size l_lock l_outstanding l_committing l_n l_block c_read c_held c_refs c_view c_disk c_writes]; auto.
    + rewrite ti_held0. reflexivity.
    + intros j. rewrite ti_held0 in Hn. unfold refs_of. rewrite (count_ext _ _ (img_insert H b blk j Hn)).
      destruct (decide (j = blk)) as [->|Hne].
      * rewrite ref_inc_eq, ti_refs0. unfold refs_of.
        rewrite (count_false _ Himg), (count_true (blk = blk \/ _)) by auto. unfold count. case_decide; reflexivity.
      * rewrite ref_inc_ne, ti_refs0 by exact Hne. unfold refs_of. rewrite (count_ext (_ = blk \/ _) (j ∈ (map_img H : gset Z))) by tauto.
        reflexivity.
Qed.

Lemma rule_fdata {B} b blk (k : mem -> M F B) Q V T H l s :
  tx V T H l -> H !! b = Some blk -> wp (k (V blk)) Q (set_log l s) -> wp (fdata b ≫= k) Q (set_log l s).
Proof.
  intros (HT & c & bs & []) Hb Hk. apply wp_log, wp_gets. rewrite <- ti_held0 in Hb.
  rewrite (proj1 (data_law dev _ c b blk ti_rel0 Hb)), ti_view0. exact Hk.
Qed.

Lemma rule_fbrelse {B} b blk (k : unit -> M F B) Q V T H l s :
  tx V T H l -> H !! b = Some blk ->
  (forall l', tx V T (delete b H) l' -> wp (k tt) Q (set_log l' s)) -> wp (fbrelse b ≫= k) Q (set_log l s).
Proof.
  intros X Hb Hk. pose proof (fun b' => tx_inj _ _ _ _ b b' blk X Hb) as Hinj.
  destruct X as (HT & c & bs & []). apply wp_log, wp_zoom.
  pose proof Hb as Hb'. rewrite <- ti_held0 in Hb'.
  assert (Himg : blk ∈ (map_img H : gset Z)) by (apply elem_of_map_img; eauto).
  eapply wp_mono; [apply (brelse_law dev _ c b blk ti_rel0 Hb')|].
  - rewrite ti_refs0, ti_view0, ti_disk0. unfold refs_of. rewrite (count_true _ Himg). intros E.
    apply ti_clean0. intros Hin. rewrite (count_true (blk ∈ bs)) in E by exact Hin. discriminate.
  - intros [] x' R'. apply Hk. split; [exact HT|]. exists (c_release blk b c), bs.
    constructor; cbn [l_bc set_bc l_dev l_start l_size l_lock l_outstanding l_committing l_n l_block c_release c_held c_refs c_view c_disk c_writes]; auto.
    + rewrite ti_held0. reflexivity.
    + intros j. unfold refs_of. rewrite (count_ext _ _ (img_delete H b blk j Hb Hinj)). destruct (decide (j = blk)) as [->|Hne].
      * pose proof (ti_refs0 blk) as E. unfold refs_of in E. rewrite (count_true _ Himg) in E.
        rewrite (count_false (blk <> blk /\ _)) by tauto. revert E. unfold count. case_decide; intros E; rewrite (ref_dec_eq _ _ _ E); reflexivity.
      * rewrite ref_dec_ne, ti_refs0 by exact Hne. unfold refs_of. rewrite (count_ext (_ /\ _) (j ∈ (map_img H : gset Z))) by tauto.
        reflexivity.
Qed.

Lemma rule_update {B} b blk m (k : unit -> M F B) Q V T H l s :
  1 <= o -> tx V T H l -> H !! b = Some blk -> blk ∈ T -> 0 <= blk < 2 ^ 31 -> ~ in_log start size blk ->
  (forall l', tx (<[blk := m]> V) T H l' -> wp (k tt) Q (set_log l' s)) ->
  wp (fstore b m;; flog_write b ≫= k) Q (set_log l s).
Proof.
  intros Ho (HT & c & bs & X) Hb HinT Hblk Hout Hk. pose proof (tx_len _ _ _ _ _ _ X) as Hlen. destruct X.
  pose proof Hb as Hb'. rewrite <- ti_held0 in Hb'.
  destruct (absorb_wf start size Hgeo bs blk ti_nodup0 ti_range0 (conj Hblk Hout)) as (Hnd' & Hin' & Hr' & _).
  apply wp_log, wp_modify, wp_log. pose proof (set_data_law dev _ c b blk m ti_rel0 Hb') as R1.
  pose proof (refs_le bs H blk) as Hle. rewrite <- ti_refs0 in Hle.
  apply (log_write_wp dev start size Hgeo _ (set_buf_data b m (l_bc l)) (c_set blk m c) bs b blk); cbn [l_lock l_outstanding l_size l_n l_block l_bc set_bc]; auto; try lia.
  { intros j Hj. apply ti_range0. exact Hj. }
  { cbn. lia. }
  intros x' block' R' Hb2. apply Hk. split; [exact HT|].
  set (c' := if decide (blk ∈ bs) then _ else _) in R'. exists c', (absorb bs blk).
  assert (Himg : blk ∈ (map_img H : gset Z)) by (apply elem_of_map_img; eauto).
  constructor; cbn [l_bc set_bc set_lh l_dev l_start l_size l_lock l_outstanding l_committing l_n l_block]; auto.
  - intros j [Hj| ->]%Hin'; auto.
  - unfold c'. case_decide; exact ti_held0.
  - intros j. unfold refs_of. rewrite (count_ext _ _ (Hin' j)). destruct (decide (j = blk)) as [->|Hne].
    + rewrite (count_true (_ \/ _)), (count_true (blk ∈ (map_img H : gset Z)) Himg) by auto.
      unfold c'. case_decide as Hin; cbn; [|rewrite ref_inc_eq]; rewrite ti_refs0; unfold refs_of; rewrite (count_true _ Himg).
      * rewrite count_true by exact Hin. reflexivity.
      * rewrite count_false by exact Hin. reflexivity.
    + rewrite (count_ext (_ \/ _) (j ∈ bs)) by tauto. fold (refs_of bs H j). rewrite <- ti_refs0.
      unfold c'. case_decide; cbn; [reflexivity|]. apply ref_inc_ne. exact Hne.
  - unfold c'. rewrite <- ti_view0. case_decide; reflexivity.
  - unfold c'. rewrite <- ti_disk0. case_decide; reflexivity.
  - unfold c'. rewrite <- ti_writes0. case_decide; reflexivity.
  - intros j Hj. rewrite Hin' in Hj. rewrite fn_lookup_insert_ne by (intros ->; tauto). apply ti_clean0. tauto.
Qed.

End FsTx.
