(* ===== verification/FsBlocks.v ===== *)
(** * The block allocator of kernel/fs.c

    [bzero], [balloc] and [bfree] inside a transaction, against the free map
    kept in the bitmap blocks: [balloc] finds a free block whenever there is
    one, marks it and only it, and zeroes it; [bfree] clears its mark. *)

From S2P Require Import Prelude Memory FsDefs BufCache Bio Log LogCrash LogTx UserMem Fs FsTx.

(** Arithmetic with the constants of the disk layout. *)
Ltac fsdiv := change IPB with 16 in *; change BPB with 8192 in *; change BSIZE with 1024 in *; zdiv.

(** ** Bits of a bitmap block *)

Lemma land_bit x k : 0 <= k -> negb (Z.land x (Z.shiftl 1 k) =? 0) = Z.testbit x k.
Proof.
  intros Hk. rewrite Z.shiftl_1_l. destruct (Z.testbit x k) eqn:E.
  - apply negb_true_iff, Z.eqb_neq. intros H0.
    assert (Z.testbit (Z.land x (2 ^ k)) k = false) as H1 by (rewrite H0; apply Z.bits_0).
    rewrite Z.land_spec, E, Z.pow2_bits_true in H1 by exact Hk. discriminate.
  - apply negb_false_iff, Z.eqb_eq. apply Z.bits_inj_0. intros n.
    rewrite Z.land_spec, Z.pow2_bits_eqb by exact Hk. destruct (Z.eqb_spec k n) as [->|]; [rewrite E; reflexivity | apply andb_false_r].
Qed.

Lemma bit_set_testbit m bi : bit_set m bi = Z.testbit (b2z (m (bi / 8))) (bi mod 8).
Proof. unfold bit_set. apply land_bit. apply Z.mod_pos_bound. lia. Qed.

Lemma byte_testbit z k : 0 <= k < 8 -> Z.testbit (b2z (z2b z)) k = Z.testbit z k.
Proof. intros Hk. rewrite b2z_z2b. change 256 with (2 ^ 8). apply Z.mod_pow2_bits_low. lia. Qed.

Lemma bit_set_set m bi bj : bit_set (set_bit m bi) bj = (bi =? bj) || bit_set m bj.
Proof.
  rewrite !bit_set_testbit. unfold set_bit. pose proof (Z.mod_pos_bound bj 8 ltac:(lia)) as Hj.
  pose proof (Z.mod_pos_bound bi 8 ltac:(lia)) as Hi.
  destruct (decide (bj / 8 = bi / 8)) as [E|E].
  - rewrite E, mset_eq, byte_testbit, Z.lor_spec, Z.shiftl_1_l, Z.pow2_bits_eqb, orb_comm by lia. f_equal. zdiv.
  - rewrite mset_ne by exact E. replace (bi =? bj) with false; [reflexivity|]. symmetry. apply Z.eqb_neq. congruence.
Qed.

Lemma bit_set_clear m bi bj : bit_set (clear_bit m bi) bj = negb (bi =? bj) && bit_set m bj.
Proof.
  rewrite !bit_set_testbit. unfold clear_bit. pose proof (Z.mod_pos_bound bj 8 ltac:(lia)) as Hj.
  pose proof (Z.mod_pos_bound bi 8 ltac:(lia)) as Hi.
  destruct (decide (bj / 8 = bi / 8)) as [E|E].
  - rewrite E, mset_eq, byte_testbit, Z.land_spec, Z.lnot_spec, Z.shiftl_1_l, Z.pow2_bits_eqb, andb_comm by lia. f_equal. f_equal. zdiv.
  - rewrite mset_ne by exact E. replace (bi =? bj) with false; [reflexivity|]. symmetry. apply Z.eqb_neq. congruence.
Qed.

Lemma bit_set_block m m' bi : m ≡ m' -> 0 <= bi < BPB -> bit_set m bi = bit_set m' bi.
Proof. intros E Hb. rewrite !bit_set_testbit, (E (bi / 8)); [reflexivity|]. fsdiv. Qed.

Lemma scan_bits_spec k m size b bi :
  match scan_bits k m size b bi with
  | Some r => bi <= r < BPB /\ b + r < size /\ bit_set m r = false /\ forall j, bi <= j < r -> bit_set m j = true
  | None => BPB - bi <= Z.of_nat k -> forall j, bi <= j < BPB -> b + j < size -> bit_set m j = true
  end.
Proof.
  revert bi. induction k as [|k IH]; intros bi; cbn [scan_bits]; [lia|].
  destruct ((bi <? BPB) && (b + bi <? size)) eqn:Eg; [|intros; lia].
  destruct (bit_set m bi) eqn:Eb; [|repeat split; auto; lia].
  specialize (IH (bi + 1)). destruct (scan_bits k m size b (bi + 1)) as [r|].
  - destruct IH as (H1 & H2 & H3 & H4). repeat split; auto; try lia. intros j Hj.
    destruct (decide (j = bi)) as [->|]; [exact Eb | apply H4; lia].
  - intros Hk j Hj Hs. destruct (decide (j = bi)) as [->|]; [exact Eb | apply IH; lia].
Qed.

(** ** The layout of the disk *)

(** The first data block: after the boot block, the super block, the log, the
    inodes and the free map. *)
Definition data_start (sb : superblock) : Z := sb_bmapstart sb + sb_size sb / BPB + 1.
Definition bitmaps (sb : superblock) : list Z := seqZ (sb_bmapstart sb) (sb_size sb / BPB + 1).

Record geometry (start size : Z) (sb : superblock) : Prop := {
  geo_log : 0 <= start /\ 0 < size <= LOGSIZE /\ start + size <= sb_inodestart sb;
  geo_inodes : 0 <= sb_ninodes sb /\ sb_inodestart sb + sb_ninodes sb / IPB + 1 <= sb_bmapstart sb;
  geo_data : data_start sb <= sb_size sb < 2 ^ 31
}.

(** The free map: [alloc V sb b] is the bit of block [b]. *)
Definition alloc (V : Z -> mem) (sb : superblock) (b : Z) : bool := bit_set (V (BBLOCK b sb)) (b mod BPB).

(** The blocks before the data are marked, as mkfs does. *)
Definition meta_used (V : Z -> mem) (sb : superblock) : Prop := forall b, 0 <= b < data_start sb -> alloc V sb b = true.

(** The contents after allocating and after freeing block [b]. *)
Definition zeroed (b : Z) (V : Z -> mem) : Z -> mem := <[b := CString.memset 0 0 BSIZE (V b)]> V.
Definition marked_used (sb : superblock) (b : Z) (V : Z -> mem) : Z -> mem :=
  <[BBLOCK b sb := set_bit (V (BBLOCK b sb)) (b mod BPB)]> V.
Definition allocated (sb : superblock) (b : Z) (V : Z -> mem) : Z -> mem := zeroed b (marked_used sb b V).
Definition freed (sb : superblock) (b : Z) (V : Z -> mem) : Z -> mem :=
  <[BBLOCK b sb := clear_bit (V (BBLOCK b sb)) (b mod BPB)]> V.

Lemma zero_block m : CString.memset 0 0 BSIZE m ≡ zeroes.
Proof. intros i Hi. rewrite CString.memset_fill by (unfold BSIZE; lia). rewrite fill_in by lia. reflexivity. Qed.

Section Layout.
Context (start size : Z) (sb : superblock) (G : geometry start size sb).

Lemma size_pos : 0 < data_start sb <= sb_size sb.
Proof. destruct G as [[? ?] [? ?] [? ?]]. unfold data_start in *. fsdiv. Qed.

Lemma geo_ok : 0 <= start /\ 0 < size <= LOGSIZE /\ start + size < 2 ^ 31.
Proof. destruct G as [[? ?] [? ?] [? ?]]. unfold data_start in *. fsdiv. Qed.

Lemma bblock_eq b : 0 <= b <= sb_size sb -> BBLOCK b sb = sb_bmapstart sb + b / BPB.
Proof.
  intros Hb. destruct G as [[? ?] [? ?] [? ?]]. unfold BBLOCK, data_start in *. rewrite u32_small; [lia|].
  fsdiv.
Qed.

Lemma bblock_range b : 0 <= b <= sb_size sb ->
  BBLOCK b sb ∈ bitmaps sb /\ sb_bmapstart sb <= BBLOCK b sb < data_start sb /\ 0 <= BBLOCK b sb < 2 ^ 31 /\
  ~ in_log start size (BBLOCK b sb).
Proof.
  intros Hb. rewrite bblock_eq by exact Hb. destruct G as [[? ?] [? ?] [? ?]].
  unfold bitmaps, data_start, in_log in *. rewrite elem_of_seqZ.
  fsdiv.
Qed.

Lemma data_range b : data_start sb <= b < sb_size sb -> 0 <= b < 2 ^ 31 /\ ~ in_log start size b /\ sb_bmapstart sb < b.
Proof.
  intros Hb. destruct G as [[? ?] [? ?] [? ?]]. unfold in_log, data_start in *.
  fsdiv.
Qed.

Lemma alloc_marked V b b' : 0 <= b < sb_size sb -> 0 <= b' < sb_size sb ->
  alloc (marked_used sb b V) sb b' = (b =? b') || alloc V sb b'.
Proof.
  intros Hb Hb'. unfold alloc, marked_used. destruct (decide (BBLOCK b' sb = BBLOCK b sb)) as [E|E].
  - rewrite E, fn_lookup_insert, bit_set_set. f_equal. rewrite !bblock_eq in E by lia. fsdiv.
  - rewrite fn_lookup_insert_ne by congruence. replace (b =? b') with false; [reflexivity|]. symmetry. apply Z.eqb_neq. congruence.
Qed.

Lemma alloc_zeroed V b b' : data_start sb <= b -> 0 <= b' < sb_size sb -> alloc (zeroed b V) sb b' = alloc V sb b'.
Proof.
  intros Hb Hb'. unfold alloc, zeroed. rewrite fn_lookup_insert_ne; [reflexivity|].
  pose proof (bblock_range b' ltac:(lia)). lia.
Qed.

Lemma alloc_allocated V b b' : data_start sb <= b < sb_size sb -> 0 <= b' < sb_size sb ->
  alloc (allocated sb b V) sb b' = (b =? b') || alloc V sb b'.
Proof.
  intros Hb Hb'. unfold allocated. pose proof (data_range b Hb). rewrite alloc_zeroed, alloc_marked by lia. reflexivity.
Qed.

Lemma alloc_freed V b b' : 0 <= b < sb_size sb -> 0 <= b' < sb_size sb ->
  alloc (freed sb b V) sb b' = negb (b =? b') && alloc V sb b'.
Proof.
  intros Hb Hb'. unfold alloc, freed. destruct (decide (BBLOCK b' sb = BBLOCK b sb)) as [E|E].
  - rewrite E, fn_lookup_insert, bit_set_clear. f_equal. rewrite !bblock_eq in E by lia. fsdiv.
  - rewrite fn_lookup_insert_ne by congruence. replace (b =? b') with false; [reflexivity|]. symmetry. apply Z.eqb_neq. congruence.
Qed.

(** Allocation leaves every data block but the new one alone. *)
Lemma allocated_other V b b' : data_start sb <= b < sb_size sb -> data_start sb <= b' -> b' <> b ->
  allocated sb b V b' = V b'.
Proof.
  intros Hb Hb' Hne. unfold allocated, zeroed, marked_used. rewrite !fn_lookup_insert_ne; [reflexivity| |congruence].
  pose proof (data_range b Hb). pose proof (bblock_range b ltac:(lia)). lia.
Qed.

Lemma allocated_new V b : allocated sb b V b ≡ zeroes.
Proof. unfold allocated, zeroed. rewrite fn_lookup_insert. apply zero_block. Qed.

Lemma meta_allocated V b : data_start sb <= b < sb_size sb -> meta_used V sb -> meta_used (allocated sb b V) sb.
Proof.
  intros Hb HV b' Hb'. rewrite alloc_allocated, HV by (try exact Hb; pose proof (geo_data _ _ _ G); lia). apply orb_true_r.
Qed.

Lemma free_is_data V b : meta_used V sb -> 0 <= b < sb_size sb -> alloc V sb b = false -> data_start sb <= b < sb_size sb.
Proof.
  intros HV Hb Ha. destruct (decide (b < data_start sb)); [|lia]. rewrite HV in Ha by lia. discriminate.
Qed.
End Layout.

(** ** The allocator in a transaction *)

(** The buffers held meanwhile are of data blocks in use. *)
Definition held_ok (sb : superblock) (V : Z -> mem) (H : gmap nat Z) : Prop :=
  (base.size H <= 1)%nat /\
  forall blk, blk ∈ (map_img H : gset Z) -> data_start sb <= blk < sb_size sb /\ alloc V sb blk = true.

Lemma held_none sb V : held_ok sb V ∅.
Proof. split; [rewrite map_size_empty; lia|]. intros blk. rewrite map_img_empty. set_solver. Qed.

Section Blocks.
Context {S U : Type} `{BC : BufCache S} `{UM : UserMem U}.
Context (dev : Z) (Hdev : u32 dev = dev) (start size : Z) (sb : superblock) (G : geometry start size sb).
Context (D : Z -> mem) (ws : list (Z * mem)) (o : Z) (Ho : 1 <= o).
Local Abbreviation F := (fstate S U).
Local Abbreviation ftx := (tx dev start size D ws o).
Local Abbreviation geo := (geo_ok start size sb G).

Lemma rule_bzero {B} b (k : unit -> M F B) Q V T H l s :
  ftx V T H l -> (base.size H <= 1)%nat -> b ∉ (map_img H : gset Z) -> b ∈ T -> data_start sb <= b < sb_size sb ->
  (forall l', ftx (zeroed b V) T H l' -> wp (k tt) Q (set_log l' s)) ->
  wp (bzero dev b ≫= k) Q (set_log l s).
Proof.
  intros X HH Hb HT Hr Hk. destruct (data_range start size sb G b Hr) as (H1 & H2 & _).
  apply wp_bind. unfold bzero. eapply rule_fbread; [exact Hdev | exact geo | exact X | exact H1 | exact Hb | exact HH |].
  intros bp l1 Hn X1. eapply rule_fdata; [exact X1 | apply lookup_insert_eq |].
  eapply rule_update; [exact geo | exact Ho | exact X1 | apply lookup_insert_eq | auto.. |].
  intros l2 X2. apply wp_last.
  eapply rule_fbrelse; [exact geo | exact X2 | apply lookup_insert_eq |].
  intros l3 X3. rewrite delete_insert_id in X3 by exact Hn. apply wp_ret. apply Hk. exact X3.
Qed.

(** What one block of the free map yields. *)
Lemma scan_alloc V b : 0 <= b < sb_size sb -> b mod BPB = 0 ->
  match scan_bits (Z.to_nat BPB) (V (BBLOCK b sb)) (sb_size sb) b 0 with
  | Some bi => 0 <= bi < BPB /\ b + bi < sb_size sb /\ BBLOCK (b + bi) sb = BBLOCK b sb /\ (b + bi) mod BPB = bi /\
      alloc V sb (b + bi) = false
  | None => forall x, b <= x < b + BPB -> x < sb_size sb -> alloc V sb x = true
  end.
Proof.
  intros Hb Hm. assert (Hpos : 0 < BPB) by reflexivity.
  assert (Hsame : forall bi, 0 <= bi < BPB -> b + bi < sb_size sb -> BBLOCK (b + bi) sb = BBLOCK b sb /\ (b + bi) mod BPB = bi).
  { intros bi Hbi Hs. rewrite !(bblock_eq start size sb G) by lia. fsdiv. }
  pose proof (scan_bits_spec (Z.to_nat BPB) (V (BBLOCK b sb)) (sb_size sb) b 0) as Hspec.
  destruct (scan_bits _ _ _ _ _) as [bi|].
  - destruct Hspec as (H1 & H2 & H3 & _). destruct (Hsame bi H1 H2) as [E1 E2]. repeat split; try lia; auto.
    unfold alloc. rewrite E1, E2. exact H3.
  - intros x Hx Hs. specialize (Hspec ltac:(lia) (x - b) ltac:(lia) ltac:(lia)).
    destruct (Hsame (x - b) ltac:(lia) ltac:(lia)) as [E1 E2]. replace (b + (x - b)) with x in * by lia.
    unfold alloc. rewrite E1, E2. exact Hspec.
Qed.

(** One iteration of [balloc]. *)
Lemma balloc_step_wp b V T H l s (Q : Z + Z -> F -> Prop) :
  f_sb s = sb -> ftx V T H l -> held_ok sb V H -> meta_used V sb -> (forall x, x ∈ bitmaps sb -> x ∈ T) ->
  Z.of_nat (length T) + 1 < size - 1 -> 0 <= b < sb_size sb -> b mod BPB = 0 ->
  ((forall x, b <= x < b + BPB -> x < sb_size sb -> alloc V sb x = true) ->
     forall l', ftx V T H l' -> Q (inl (b + BPB)) (set_log l' s)) ->
  (forall r l', data_start sb <= r < sb_size sb -> alloc V sb r = false -> ftx (allocated sb r V) (r :: T) H l' ->
     Q (inr r) (set_log l' s)) ->
  wp (balloc_step dev b) Q (set_log l s).
Proof.
  intros Hsb X [HH Hheld] HV HT Hlen Hb Hm Hnone Hsome. unfold balloc_step. apply wp_bind, wp_gets. cbn [f_sb set_log].
  rewrite Hsb. replace (b <? sb_size sb) with true by lia.
  destruct (bblock_range start size sb G b ltac:(lia)) as (Hbin & Hbr & Hb31 & Hbout).
  assert (Hbimg : BBLOCK b sb ∉ (map_img H : gset Z)) by (intros Hi; apply Hheld in Hi; lia).
  eapply rule_fbread; [exact Hdev | exact geo | exact X | exact Hb31 | exact Hbimg | exact HH |].
  intros bp l1 Hn X1. eapply rule_fdata; [exact X1 | apply lookup_insert_eq |].
  pose proof (scan_alloc V b Hb Hm) as Hscan. destruct (scan_bits _ _ _ _ _) as [bi|].
  - destruct Hscan as (Hbi & Hbs & Ebb & Emod & Hfree).
    pose proof (free_is_data sb V (b + bi) HV ltac:(lia) Hfree) as Hdata.
    eapply rule_update; [exact geo | exact Ho | exact X1 | apply lookup_insert_eq | auto.. |].
    intros l2 X2. eapply rule_fbrelse; [exact geo | exact X2 | apply lookup_insert_eq |].
    intros l3 X3. rewrite delete_insert_id in X3 by exact Hn.
    apply (tx_weaken _ _ _ _ _ _ _ _ ((b + bi) :: T)) in X3; [|intros x Hx; right; exact Hx | cbn [length]; lia].
    apply (rule_bzero (b + bi) _ _ _ _ _ _ s X3 HH); [|left|exact Hdata|].
    + intros [_ Hi]%Hheld. congruence.
    + intros l4 X4. apply wp_ret, Hsome; auto. unfold allocated, marked_used. rewrite Ebb, Emod. exact X4.
  - eapply rule_fbrelse; [exact geo | exact X1 | apply lookup_insert_eq |].
    intros l2 X2. rewrite delete_insert_id in X2 by exact Hn. apply wp_ret. auto.
Qed.

Lemma rule_balloc {B} (k : Z -> M F B) Q V T H l s :
  f_sb s = sb -> ftx V T H l -> held_ok sb V H -> meta_used V sb -> (forall x, x ∈ bitmaps sb -> x ∈ T) ->
  Z.of_nat (length T) + 1 < size - 1 ->
  ((forall x, 0 <= x < sb_size sb -> alloc V sb x = true) ->
     forall l', ftx V T H l' -> wp (k 0) Q (set_log l' s)) ->
  (forall r l', data_start sb <= r < sb_size sb -> alloc V sb r = false -> ftx (allocated sb r V) (r :: T) H l' ->
     wp (k r) Q (set_log l' s)) ->
  wp (balloc dev ≫= k) Q (set_log l s).
Proof.
  intros Hsb X HH HV HT Hlen Hnone Hsome. apply wp_bind. unfold balloc. apply wp_bind, wp_gets. cbn [f_sb set_log]. rewrite Hsb.
  pose proof (size_pos start size sb G) as Hsz. assert (Hbpb : 0 < BPB) by reflexivity.
  apply (wp_loop (fun n b s' => exists l', s' = set_log l' s /\ ftx V T H l' /\ 0 <= b /\ b mod BPB = 0 /\
    (b < sb_size sb + BPB) /\ n = Z.to_nat (sb_size sb / BPB + 1 - b / BPB) /\
    forall x, 0 <= x < b -> x < sb_size sb -> alloc V sb x = true)) with (k := Z.to_nat (sb_size sb / BPB + 1)).
  - intros n b s' (l' & -> & X' & Hb & Hm & Hle & Hn & Hall). destruct (decide (b < sb_size sb)) as [Hlt|Hge].
    + apply (balloc_step_wp b V T H l' s); auto.
      * intros Hmore l2 X2. exists (Z.to_nat (sb_size sb / BPB + 1 - (b + BPB) / BPB)). split; [subst n; fsdiv|].
        exists l2. split; [reflexivity|]. split; [exact X2|]. split; [lia|]. split; [fsdiv|]. split; [lia|]. split; [reflexivity|].
        intros x Hx Hs. destruct (decide (x < b)); [apply Hall | apply Hmore]; lia.
    + unfold balloc_step. apply wp_bind, wp_gets. cbn [f_sb set_log]. rewrite Hsb. replace (b <? sb_size sb) with false by lia.
      apply wp_ret, Hnone; [|exact X']. intros x Hx. apply Hall; lia.
  - exists l. split; [reflexivity|]. split; [exact X|]. split; [lia|]. split; [reflexivity|]. split; [lia|].
    split; [rewrite Z.div_0_l by discriminate; f_equal; lia|]. lia.
  - fsdiv.
Qed.

Lemma rule_bfree {B} b (k : unit -> M F B) Q V T H l s :
  f_sb s = sb -> ftx V T H l -> held_ok sb V H -> (forall x, x ∈ bitmaps sb -> x ∈ T) ->
  data_start sb <= b < sb_size sb -> alloc V sb b = true ->
  (forall l', ftx (freed sb b V) T H l' -> wp (k tt) Q (set_log l' s)) ->
  wp (bfree dev b ≫= k) Q (set_log l s).
Proof.
  intros Hsb X [HH Hheld] HT Hr Ha Hk. apply wp_bind. unfold bfree. apply wp_bind, wp_gets. cbn [f_sb set_log]. rewrite Hsb.
  destruct (data_range start size sb G b Hr) as (H1 & H2 & _).
  destruct (bblock_range start size sb G b ltac:(lia)) as (Hbin & Hbr & Hb31 & Hbout).
  assert (Hbimg : BBLOCK b sb ∉ (map_img H : gset Z)) by (intros Hi; apply Hheld in Hi; lia).
  eapply rule_fbread; [exact Hdev | exact geo | exact X | exact Hb31 | exact Hbimg | exact HH |].
  intros bp l1 Hn X1. eapply rule_fdata; [exact X1 | apply lookup_insert_eq |].
  apply wp_bind, wp_panic_if; [fold (alloc V sb b); rewrite Ha; reflexivity|].
  eapply rule_update; [exact geo | exact Ho | exact X1 | apply lookup_insert_eq | auto.. |].
  intros l2 X2. apply wp_last. eapply rule_fbrelse; [exact geo | exact X2 | apply lookup_insert_eq |].
  intros l3 X3. rewrite delete_insert_id in X3 by exact Hn. apply wp_ret, Hk. exact X3.
Qed.
End Blocks.
