(* ===== verification/FsFile.v ===== *)
(** * Contents of files: bmap, readi, writei and iupdate of kernel/fs.c

    A file is the sequence of bytes found through its inode: [fblock] is the
    block that holds a given part of it and [fbyte] the byte at an offset,
    where a part without a block reads as zero.  [bmap] never changes the
    contents, [readi] delivers them and [writei] changes exactly the bytes
    written. *)

From S2P Require Import Prelude Memory FsDefs BufCache Bio Log LogCrash LogTx UserMem Fs FsTx FsBlocks.

(** ** The abstraction *)

Definition fblock (V : Z -> mem) (x : inode) (bn : Z) : Z :=
  if bn <? NDIRECT then i_addrs x bn
  else if i_addrs x NDIRECT =? 0 then 0
  else load32 (V (i_addrs x NDIRECT)) (4 * (bn - NDIRECT)).

Definition fbyte (V : Z -> mem) (x : inode) (off : Z) : byte :=
  let a := fblock V x (off / BSIZE) in
  if a =? 0 then x00 else V a (off mod BSIZE).

Definition MAXBYTES : Z := MAXFILE * BSIZE.

(** The blocks of an inode: those of the file and, last, the indirect block. *)
Definition islot (V : Z -> mem) (x : inode) (j : Z) : Z :=
  if j =? MAXFILE then i_addrs x NDIRECT else fblock V x j.

(** Every block of the inode is a marked data block with one role only. *)
Definition inode_ok (sb : superblock) (V : Z -> mem) (x : inode) : Prop :=
  forall j, 0 <= j <= MAXFILE -> islot V x j <> 0 ->
    data_start sb <= islot V x j < sb_size sb /\ alloc V sb (islot V x j) = true /\
    forall j', 0 <= j' <= MAXFILE -> islot V x j' = islot V x j -> j' = j.

Lemma islot_block V x j : 0 <= j < MAXFILE -> islot V x j = fblock V x j.
Proof. intros Hj. unfold islot. replace (j =? MAXFILE) with false by lia. reflexivity. Qed.
Lemma islot_ind V x : islot V x MAXFILE = i_addrs x NDIRECT.
Proof. unfold islot. rewrite Z.eqb_refl. reflexivity. Qed.

Section Pure.
Context (start size : Z) (sb : superblock) (G : geometry start size sb).

(** Block [r] becomes the [j0]-th block of the inode. *)
Record grown (V : Z -> mem) (x : inode) (V' : Z -> mem) (x' : inode) (j0 r : Z) : Prop := {
  gr_new : data_start sb <= r < sb_size sb /\ alloc V sb r = false;
  gr_was : 0 <= j0 <= MAXFILE /\ islot V x j0 = 0;
  gr_slot : forall j, 0 <= j <= MAXFILE -> islot V' x' j = if j =? j0 then r else islot V x j;
  gr_zero : V' r ≡ zeroes;
  gr_alloc : forall b, 0 <= b < sb_size sb -> alloc V' sb b = (r =? b) || alloc V sb b;
  gr_data : forall b, data_start sb <= b < sb_size sb -> alloc V sb b = true -> b <> i_addrs x NDIRECT -> V' b = V b
}.

(** What a sequence of such steps keeps. *)
Record extends (V : Z -> mem) (x : inode) (V' : Z -> mem) (x' : inode) : Prop := {
  ex_ok : inode_ok sb V' x';
  ex_meta : meta_used V' sb;
  ex_bytes : forall off, 0 <= off < MAXBYTES -> fbyte V' x' off = fbyte V x off;
  ex_data : forall b, data_start sb <= b < sb_size sb -> alloc V sb b = true -> b <> i_addrs x NDIRECT -> V' b = V b;
  ex_alloc : forall b, 0 <= b < sb_size sb -> alloc V sb b = true -> alloc V' sb b = true;
  ex_ind : i_addrs x' NDIRECT = i_addrs x NDIRECT \/
           i_addrs x NDIRECT = 0 /\ data_start sb <= i_addrs x' NDIRECT < sb_size sb /\ alloc V sb (i_addrs x' NDIRECT) = false;
  ex_slot : forall j, 0 <= j <= MAXFILE -> islot V x j <> 0 -> islot V' x' j = islot V x j;
  ex_fresh : forall j, 0 <= j <= MAXFILE -> islot V x j = 0 -> islot V' x' j <> 0 -> alloc V sb (islot V' x' j) = false;
  ex_fields : exists a, x' = set_iaddrs a x
}.

Lemma set_iaddrs_id x : x = set_iaddrs (i_addrs x) x.
Proof. destruct x. reflexivity. Qed.

Lemma extends_refl V x : inode_ok sb V x -> meta_used V sb -> extends V x V x.
Proof. intros. constructor; auto; [congruence|]. exists (i_addrs x). apply set_iaddrs_id. Qed.

Lemma extends_trans V x V1 x1 V2 x2 : extends V x V1 x1 -> extends V1 x1 V2 x2 -> extends V x V2 x2.
Proof.
  intros E1 E2. pose proof (size_pos start size sb G) as Hsz. destruct E1 as [O1 M1 B1 D1 A1 I1 S1 N1 F1], E2 as [O2 M2 B2 D2 A2 I2 S2 N2 F2]. constructor; auto.
  - intros off Hoff. rewrite B2, B1 by exact Hoff. reflexivity.
  - intros b Hb Ha Hne. rewrite D2, D1; auto; [apply A1; [lia | exact Ha]|].
    destruct I1 as [->|(E0 & Hr & Hf)]; [exact Hne|]. intros ->. congruence.
  - destruct I2 as [->|(E0 & Hr & Hf)]; [exact I1|]. destruct I1 as [E1|(E1 & Hr1 & Hf1)]; [|lia].
    right. split; [congruence|]. split; [exact Hr|]. destruct (alloc V sb _) eqn:E; [|reflexivity].
    rewrite A1 in Hf by (auto; lia). discriminate.
  - intros j Hj Hn. rewrite S2, S1; auto. rewrite S1; auto.
  - intros j Hj H0 Hn. destruct (decide (islot V1 x1 j = 0)) as [E|E].
    + destruct (O2 j Hj Hn) as (Hr & _). specialize (N2 j Hj E Hn). destruct (alloc V sb (islot V2 x2 j)) eqn:Ea; [|reflexivity].
      rewrite A1 in N2 by (auto; lia). discriminate.
    + rewrite S2 in * by assumption. auto.
  - destruct F1 as [a1 ->], F2 as [a2 ->]. exists a2. reflexivity.
Qed.

(** A data block of the file is neither 0 nor the indirect block. *)
Lemma block_data V x bn : inode_ok sb V x -> 0 <= bn < MAXFILE -> fblock V x bn <> 0 ->
  data_start sb <= fblock V x bn < sb_size sb /\ alloc V sb (fblock V x bn) = true /\ fblock V x bn <> i_addrs x NDIRECT.
Proof.
  intros OK Hb Hn. rewrite <- (islot_block V x bn Hb) in *. destruct (OK bn ltac:(lia) Hn) as (H1 & H2 & H3).
  split; [exact H1|]. split; [exact H2|]. rewrite <- islot_ind with (V := V). intros E.
  specialize (H3 MAXFILE ltac:(assert (0 < MAXFILE) by reflexivity; lia) (eq_sym E)). lia.
Qed.

Lemma grown_extends V x V' x' j0 r a :
  inode_ok sb V x -> meta_used V sb -> grown V x V' x' j0 r -> x' = set_iaddrs a x -> extends V x V' x'.
Proof.
  intros OK HM [[Hr Hf] [Hj0 Hw] Hs Hz Ha Hd] Hx. pose proof (size_pos start size sb G) as Hsz.
  assert (Hold : forall j, 0 <= j <= MAXFILE -> islot V x j <> 0 -> islot V x j <> r).
  { intros j Hj Hn E. destruct (OK j Hj Hn) as (_ & Hal & _). congruence. }
  constructor; auto; [| | | |destruct (decide (j0 = MAXFILE)) as [Ej|Ej] | | | eauto].
  - intros j Hj. rewrite (Hs j Hj). destruct (Z.eqb_spec j j0) as [->|Hne]; intros Hn.
    + split; [exact Hr|]. split; [rewrite Ha, Z.eqb_refl by lia; reflexivity|]. intros j' Hj'. rewrite (Hs j' Hj').
      destruct (Z.eqb_spec j' j0) as [->|]; [auto|]. intros E. exfalso. apply (Hold j' Hj'); [lia | exact E].
    + destruct (OK j Hj Hn) as (H1 & H2 & H3). split; [exact H1|]. split; [rewrite Ha, H2 by lia; apply orb_true_r|].
      intros j' Hj'. rewrite (Hs j' Hj'). destruct (Z.eqb_spec j' j0) as [->|]; [|auto].
      intros E. exfalso. apply (Hold j Hj Hn). congruence.
  - intros b Hb. rewrite Ha, (HM b Hb) by lia. apply orb_true_r.
  - intros off Hoff. unfold fbyte, MAXBYTES in *. set (bn := off / BSIZE).
    assert (Hbn : 0 <= bn < MAXFILE) by (unfold bn; revert Hoff; change BSIZE with 1024; intros; zdiv).
    assert (Hom : 0 <= off mod BSIZE < BSIZE) by (apply Z.mod_pos_bound; reflexivity).
    pose proof (Hs bn ltac:(lia)) as E. rewrite !islot_block in E by exact Hbn. rewrite E.
    destruct (Z.eqb_spec bn j0) as [Ebn|Hne].
    + rewrite <- Ebn, islot_block in Hw by exact Hbn. rewrite Hw. cbn [Z.eqb]. replace (r =? 0) with false by lia. apply Hz. exact Hom.
    + destruct (Z.eqb_spec (fblock V x bn) 0) as [_|Hn]; [reflexivity|].
      destruct (block_data V x bn OK Hbn Hn) as (H1 & H2 & H3). rewrite Hd by assumption. reflexivity.
  - intros b Hb Hal. rewrite Ha, Hal by exact Hb. apply orb_true_r.
  - right. pose proof (Hs MAXFILE ltac:(lia)) as E. rewrite islot_ind, Ej, Z.eqb_refl in E.
    rewrite E. rewrite Ej, islot_ind in Hw. auto.
  - left. pose proof (Hs MAXFILE ltac:(lia)) as E. rewrite !islot_ind in E. rewrite E.
    replace (MAXFILE =? j0) with false by lia. reflexivity.
  - intros j Hj Hn. rewrite (Hs j Hj). destruct (Z.eqb_spec j j0) as [->|]; [lia | reflexivity].
  - intros j Hj H0. rewrite (Hs j Hj). destruct (Z.eqb_spec j j0) as [->|]; [auto | lia].
Qed.

(** A direct block, and the indirect block. *)
Lemma grown_direct V x j r :
  inode_ok sb V x -> 0 <= j <= NDIRECT -> i_addrs x j = 0 -> data_start sb <= r < sb_size sb -> alloc V sb r = false ->
  grown V x (allocated sb r V) (set_iaddrs (<[j := r]> (i_addrs x)) x) (if j =? NDIRECT then MAXFILE else j) r.
Proof.
  intros OK Hj H0 Hr Hf. pose proof (size_pos start size sb G) as Hsz.
  assert (Hc : NDIRECT < MAXFILE) by reflexivity. assert (Hd : 0 < NDIRECT) by reflexivity.
  assert (Hind : i_addrs x NDIRECT <> 0 -> allocated sb r V (i_addrs x NDIRECT) = V (i_addrs x NDIRECT)).
  { intros Hn. rewrite <- islot_ind with (V := V) in *. destruct (OK MAXFILE ltac:(lia) Hn) as (H1 & H2 & _).
    apply (allocated_other start size sb G); try lia. congruence. }
  constructor; auto.
  - split; [case_match; lia|]. destruct (Z.eqb_spec j NDIRECT) as [->|]; [rewrite islot_ind; exact H0|].
    rewrite islot_block by lia. unfold fblock. replace (j <? NDIRECT) with true by lia. exact H0.
  - intros k Hk. unfold islot, fblock. cbn [i_addrs set_iaddrs].
    destruct (Z.eqb_spec j NDIRECT) as [->|Hj'].
    + rewrite fn_lookup_insert. destruct (Z.eqb_spec k MAXFILE) as [->|Hk']; [reflexivity|].
      rewrite H0. cbn [Z.eqb]. destruct (Z.ltb_spec k NDIRECT); [rewrite fn_lookup_insert_ne by lia; reflexivity|].
      replace (r =? 0) with false by lia. apply le_load_zero. intros i Hi. rewrite (allocated_new sb V r); [reflexivity|].
      change BSIZE with 1024. change MAXFILE with 268 in *. change NDIRECT with 12 in *. lia.
    + rewrite (fn_lookup_insert_ne _ j NDIRECT) by exact Hj'. destruct (Z.eqb_spec k MAXFILE) as [->|Hk'].
      * replace (MAXFILE =? j) with false by lia. reflexivity.
      * destruct (Z.ltb_spec k NDIRECT).
        -- destruct (Z.eqb_spec k j) as [->|]; [apply fn_lookup_insert | apply fn_lookup_insert_ne; congruence].
        -- replace (k =? j) with false by lia. destruct (Z.eqb_spec (i_addrs x NDIRECT) 0); [reflexivity|].
           rewrite Hind by assumption. reflexivity.
  - apply allocated_new.
  - intros b Hb. apply (alloc_allocated start size sb G); lia.
  - intros b Hb Hal _. apply (allocated_other start size sb G); try lia. congruence.
Qed.

(** An entry of the indirect block. *)
Lemma grown_indirect V x bn r :
  let ind := i_addrs x NDIRECT in
  inode_ok sb V x -> NDIRECT <= bn < MAXFILE -> ind <> 0 -> fblock V x bn = 0 ->
  data_start sb <= r < sb_size sb -> alloc V sb r = false ->
  let V1 := allocated sb r V in
  grown V x (<[ind := store32 (V1 ind) (4 * (bn - NDIRECT)) r]> V1) x bn r.
Proof.
  intros ind OK Hbn Hind H0 Hr Hf V1. pose proof (size_pos start size sb G) as Hsz. pose proof (geo_data _ _ _ G) as Hg.
  assert (Hd : 0 < NDIRECT) by reflexivity.
  pose proof (OK MAXFILE ltac:(lia)) as Hi. rewrite islot_ind in Hi. destruct (Hi Hind) as (Hi1 & Hi2 & _). fold ind in Hi1, Hi2.
  assert (Hir : ind <> r) by (intros E; rewrite E in Hi2; congruence).
  assert (Eind : V1 ind = V ind) by (apply (allocated_other start size sb G); [lia | lia | congruence]).
  constructor; auto.
  - split; [lia|]. rewrite islot_block by lia. exact H0.
  - intros k Hk. unfold islot. destruct (Z.eqb_spec k MAXFILE) as [->|Hk'].
    { replace (MAXFILE =? bn) with false by lia. reflexivity. }
    unfold fblock. fold ind. destruct (Z.ltb_spec k NDIRECT).
    { replace (k =? bn) with false by lia. reflexivity. }
    replace (ind =? 0) with false by lia. rewrite fn_lookup_insert, Eind. destruct (Z.eqb_spec k bn) as [->|Hne].
    + etransitivity; [apply le_load_store_eq|]. apply Z.mod_small. change (8 * Z.of_nat 4) with 32. lia.
    + apply le_load_store_ne. lia.
  - rewrite fn_lookup_insert_ne by exact Hir. apply allocated_new.
  - intros b Hb. rewrite <- (alloc_allocated start size sb G V r b) by lia. unfold alloc.
    rewrite fn_lookup_insert_ne; [reflexivity|]. pose proof (bblock_range start size sb G b ltac:(lia)). lia.
  - intros b Hb Hal Hne. rewrite fn_lookup_insert_ne by (intros E; apply Hne; symmetry; exact E). apply (allocated_other start size sb G); try lia. congruence.
Qed.
End Pure.

(** ** bmap *)

(** The indirect block, if there is one. *)
Definition inds (x : inode) : list Z := if i_addrs x NDIRECT =? 0 then [] else [i_addrs x NDIRECT].

Definition disk_full (sb : superblock) (V : Z -> mem) : Prop := forall b, 0 <= b < sb_size sb -> alloc V sb b = true.

(** Only the log and the inode [ip] differ. *)
Definition same_but {S U} (ip : nat) (s s' : fstate S U) : Prop :=
  f_sb s' = f_sb s /\ f_ilock s' = f_ilock s /\ f_user s' = f_user s /\ f_cwd s' = f_cwd s /\
  forall j, j <> ip -> f_inode s' j = f_inode s j.

Lemma same_but_refl {S U} ip (s : fstate S U) : same_but ip s s.
Proof. repeat split; auto. Qed.
Lemma same_but_trans {S U} ip (s s1 s2 : fstate S U) : same_but ip s s1 -> same_but ip s1 s2 -> same_but ip s s2.
Proof.
  intros (A1 & B1 & C1 & D1 & E1) (A2 & B2 & C2 & D2 & E2). repeat split; try congruence.
  intros j Hj. rewrite E2, E1 by exact Hj. reflexivity.
Qed.
Lemma same_but_upd {S U} ip f (s : fstate S U) : same_but ip s (upd_inode ip f s).
Proof. repeat split; auto. intros j Hj. cbn. apply fn_lookup_insert_ne. congruence. Qed.

Section Bmap.
Context {S U : Type} `{BC : BufCache S} `{UM : UserMem U}.
Context (dev : Z) (Hdev : u32 dev = dev) (start size : Z) (sb : superblock) (G : geometry start size sb).
Context (D : Z -> mem) (ws : list (Z * mem)) (o : Z).
Local Abbreviation F := (fstate S U).
Local Abbreviation ftx := (tx dev start size D ws o).
Local Abbreviation geo := (geo_ok start size sb G).

(** The part of [bmap] that looks up the indirect block [ind]. *)
Definition bmap_entry (ind bn : Z) : M F Z :=
  bp ← fbread dev ind;
  m ← fdata bp;
  addr ← (if load32 m (4 * bn) =? 0 then
            addr ← balloc dev;
            when (negb (addr =? 0))
              (m ← fdata bp;
               fstore bp (store32 m (4 * bn) addr);;
               flog_write bp);;
            mret addr
          else mret (load32 m (4 * bn)));
  fbrelse bp;;
  mret addr.

(** A block that is there is found, without a change. *)
Lemma bmap_mapped ip bn x V T l s (Q : Z -> F -> Prop) :
  f_inode s ip = x -> i_dev x = dev -> ftx V T ∅ l -> inode_ok sb V x -> 0 <= bn < MAXFILE -> fblock V x bn <> 0 ->
  (forall l', ftx V T ∅ l' -> Q (fblock V x bn) (set_log l' s)) -> wp (bmap ip bn) Q (set_log l s).
Proof.
  intros Hx Hd X OK Hbn Hn HQ. unfold bmap, the_inode. apply wp_bind, wp_gets. cbn [f_inode set_log]. rewrite Hx, Hd.
  pose proof (OK MAXFILE ltac:(lia)) as Hi. rewrite islot_ind in Hi. revert Hn HQ. unfold fblock.
  destruct (Z.ltb_spec bn NDIRECT) as [Hlt|Hge].
  { intros Hn HQ. replace (i_addrs x bn =? 0) with false by lia. apply wp_ret. auto. }
  destruct (Z.eqb_spec (i_addrs x NDIRECT) 0) as [E0|E0]; [lia|]. intros Hn HQ. cbv zeta.
  replace (bn - NDIRECT <? NINDIRECT) with true by (change MAXFILE with (NDIRECT + NINDIRECT) in *; lia).
  apply wp_bind, wp_ret. replace (i_addrs x NDIRECT =? 0) with false by lia.
  destruct (Hi E0) as (Hr & _). destruct (data_range start size sb G _ Hr) as (H1 & _).
  eapply rule_fbread; [exact Hdev | exact geo | exact X | exact H1 | rewrite map_img_empty; set_solver | rewrite map_size_empty; lia |].
  intros bp l1 _ X1. eapply rule_fdata; [exact X1 | apply lookup_insert_eq |].
  apply wp_bind. replace (load32 _ _ =? 0) with false by lia. apply wp_ret.
  eapply rule_fbrelse; [exact geo | exact X1 | apply lookup_insert_eq |].
  intros l2 X2. rewrite delete_insert_id in X2 by apply lookup_empty. apply wp_ret. auto.
Qed.

Context (Ho : 1 <= o).

Lemma bmap_entry_wp bn x V T l s (Q : Z -> F -> Prop) :
  let ind := i_addrs x NDIRECT in
  f_sb s = sb -> ftx V T ∅ l -> inode_ok sb V x -> meta_used V sb ->
  (forall b, b ∈ bitmaps sb -> b ∈ T) -> ind ∈ T -> Z.of_nat (length T) + 1 < size - 1 ->
  ind <> 0 -> NDIRECT <= bn < MAXFILE ->
  (forall addr V' l', extends sb V x V' x -> (addr = 0 -> disk_full sb V') -> (addr <> 0 -> fblock V' x bn = addr) ->
     ftx V' (addr :: T) ∅ l' -> Q addr (set_log l' s)) ->
  wp (bmap_entry ind (bn - NDIRECT)) Q (set_log l s).
Proof.
  intros ind Hsb X OK HM HT Hind Hlen Hn Hbn HQ. pose proof (size_pos start size sb G) as Hsz. assert (Hnd : 0 < NDIRECT) by reflexivity.
  pose proof (OK MAXFILE ltac:(lia)) as Hi. rewrite islot_ind in Hi. destruct (Hi Hn) as (Hr & Hal & _). fold ind in Hr, Hal.
  destruct (data_range start size sb G _ Hr) as (H1 & Hout & _).
  assert (Hfb : forall W, fblock W x bn = load32 (W ind) (4 * (bn - NDIRECT))).
  { intros W. unfold fblock. fold ind. replace (bn <? NDIRECT) with false by lia. replace (ind =? 0) with false by lia. reflexivity. }
  unfold bmap_entry.
  eapply rule_fbread; [exact Hdev | exact geo | exact X | exact H1 | rewrite map_img_empty; set_solver | rewrite map_size_empty; lia |].
  intros bp l1 _ X1. eapply rule_fdata; [exact X1 | apply lookup_insert_eq |]. rewrite <- (Hfb V). apply wp_bind.
  assert (Hrel : forall addr V' T' l', ftx V' T' (<[bp := ind]> ∅) l' -> extends sb V x V' x -> (addr = 0 -> disk_full sb V') ->
    (addr <> 0 -> fblock V' x bn = addr) -> (forall b, b ∈ T' -> b ∈ addr :: T) ->
    wp (_ ← fbrelse bp; mret addr) Q (set_log l' s)).
  { intros addr V' T' l' X' HE Hf Ha HT'. eapply rule_fbrelse; [exact geo | exact X' | apply lookup_insert_eq |].
    intros l2 X2. rewrite delete_insert_id in X2 by apply lookup_empty. apply wp_ret, (HQ addr V'); auto.
    eapply tx_weaken; [exact X2 | exact HT' | cbn [length]; lia]. }
  destruct (Z.eqb_spec (fblock V x bn) 0) as [E0|E0].
  - eapply rule_balloc; [exact Hdev | exact G | exact Ho | exact Hsb | exact X1 | | exact HM | exact HT | exact Hlen | |].
    { split; [rewrite map_size_insert, lookup_empty, map_size_empty; cbn; lia|].
      intros blk Hb. apply img_insert in Hb; [|apply lookup_empty]. rewrite map_img_empty in Hb. destruct Hb as [->|Hb]; [auto | set_solver]. }
    + intros Hfull l2 X2. apply wp_bind, wp_ret, wp_ret. apply (Hrel 0 V T l2 X2); auto; [apply extends_refl; assumption | intros b Hb; right; exact Hb].
    + intros r l2 Hr2 Hf2 X2. apply wp_bind, wp_when; [intros _ | lia].
      eapply rule_fdata; [exact X2 | apply lookup_insert_eq |]. apply wp_last.
      eapply rule_update; [exact geo | exact Ho | exact X2 | apply lookup_insert_eq | right; exact Hind | exact H1 | exact Hout |].
      intros l3 X3. apply wp_ret, wp_ret.
      pose proof (grown_indirect start size sb G V x bn r OK Hbn Hn E0 Hr2 Hf2) as Hg. cbv zeta in Hg. fold ind in Hg.
      apply (Hrel r _ _ l3 X3); [| lia | | auto].
      * exact (grown_extends start size sb G V x _ x bn r _ OK HM Hg (set_iaddrs_id x)).
      * intros _. pose proof (gr_slot _ _ _ _ _ _ _ Hg bn ltac:(lia)) as E. rewrite islot_block, Z.eqb_refl in E by lia. exact E.
  - apply wp_ret. apply (Hrel (fblock V x bn) V T l1 X1); [apply extends_refl; assumption | lia | auto | intros b Hb; right; exact Hb].
Qed.
(** The block is found or allocated; the contents stay the same. *)
Record bmap_post (ip : nat) (bn : Z) (V : Z -> mem) (T : list Z) (s : F) (addr : Z) (V' : Z -> mem) (l' : lstate S) (s' : F) : Prop := {
  bp_ext : extends sb V (f_inode s ip) V' (f_inode s' ip);
  bp_full : addr = 0 -> disk_full sb V';
  bp_map : addr <> 0 -> fblock V' (f_inode s' ip) bn = addr;
  bp_same : same_but ip s s';
  bp_tx : ftx V' (addr :: inds (f_inode s' ip) ++ T) ∅ l'
}.

Lemma inds_len x : (length (inds x) <= 1)%nat.
Proof. unfold inds. case_match; cbn; lia. Qed.

Lemma bmap_direct_wp ip bn V T l s (Q : Z -> F -> Prop) :
  let x := f_inode s ip in
  f_sb s = sb -> i_dev x = dev -> ftx V T ∅ l -> inode_ok sb V x -> meta_used V sb ->
  (forall b, b ∈ bitmaps sb -> b ∈ T) -> Z.of_nat (length T) + 2 < size - 1 -> 0 <= bn < NDIRECT ->
  (forall addr V' l' s', bmap_post ip bn V T s addr V' l' s' -> Q addr (set_log l' s')) ->
  wp (bmap ip bn) Q (set_log l s).
Proof.
  intros x Hsb Hd X OK HM HT Hlen Hbn HQ. pose proof (size_pos start size sb G) as Hsz.
  assert (Hc : NDIRECT < MAXFILE) by reflexivity. pose proof (inds_len x) as Hil.
  unfold bmap, the_inode. apply wp_bind, wp_gets. cbn [f_inode set_log]. fold x. rewrite Hd. replace (bn <? NDIRECT) with true by lia.
  assert (Efb : forall W y, fblock W y bn = i_addrs y bn) by (intros; unfold fblock; replace (bn <? NDIRECT) with true by lia; reflexivity).
  destruct (Z.eqb_spec (i_addrs x bn) 0) as [E0|E0].
  - eapply rule_balloc; [exact Hdev | exact G | exact Ho | exact Hsb | exact X | apply held_none | exact HM | exact HT | lia | |].
    + intros Hfull l1 X1. apply wp_ret, (HQ 0 V l1 s). constructor; [apply extends_refl; assumption | auto | lia | apply same_but_refl |].
      eapply tx_weaken; [exact X1 | intros b Hb; right; apply elem_of_app; auto | cbn [length]; rewrite length_app; fold x; lia].
    + intros r l1 Hr Hf X1. replace (r =? 0) with false by lia. apply wp_bind, wp_modify, wp_ret.
      set (x' := set_iaddrs (<[bn := r]> (i_addrs x)) x).
      assert (Ex : f_inode (upd_inode ip (fun x => set_iaddrs (<[bn := r]> (i_addrs x)) x) s) ip = x') by (cbn; apply fn_lookup_insert).
      apply (HQ r (allocated sb r V) l1 (upd_inode ip (fun x => set_iaddrs (<[bn := r]> (i_addrs x)) x) s)).
      pose proof (inds_len x') as Hil'.
      constructor; rewrite ?Ex; [| lia | | apply same_but_upd |].
      * pose proof (grown_direct start size sb G V x bn r OK ltac:(lia) E0 Hr Hf) as Hg. exact (grown_extends start size sb G V x _ x' _ r _ OK HM Hg eq_refl).
      * intros _. rewrite Efb. apply fn_lookup_insert.
      * eapply tx_weaken; [exact X1 | | cbn [length]; rewrite length_app; lia].
        intros b [->|Hb]%elem_of_cons; [left | right; apply elem_of_app; auto].
  - apply wp_ret, (HQ _ V l s). constructor; [apply extends_refl; assumption | lia | intros _; apply Efb | apply same_but_refl |].
    eapply tx_weaken; [exact X | intros b Hb; right; apply elem_of_app; auto | cbn [length]; rewrite length_app; fold x; lia].
Qed.

Lemma bmap_wp ip bn V T l s (Q : Z -> F -> Prop) :
  let x := f_inode s ip in
  f_sb s = sb -> i_dev x = dev -> ftx V T ∅ l -> inode_ok sb V x -> meta_used V sb ->
  (forall b, b ∈ bitmaps sb -> b ∈ T) -> Z.of_nat (length T) + 2 < size - 1 -> 0 <= bn < MAXFILE ->
  (forall addr V' l' s', bmap_post ip bn V T s addr V' l' s' -> Q addr (set_log l' s')) ->
  wp (bmap ip bn) Q (set_log l s).
Proof.
  intros x Hsb Hd X OK HM HT Hlen Hbn HQ. pose proof (size_pos start size sb G) as Hsz.
  destruct (decide (bn < NDIRECT)) as [Hlt|Hge]; [eapply bmap_direct_wp; eauto; lia|].
  assert (Hnd : 0 < NDIRECT) by reflexivity.
  unfold bmap, the_inode. apply wp_bind, wp_gets. cbn [f_inode set_log]. fold x. rewrite Hd.
  replace (bn <? NDIRECT) with false by lia. cbv zeta.
  replace (bn - NDIRECT <? NINDIRECT) with true by (change MAXFILE with (NDIRECT + NINDIRECT) in *; lia).
  apply wp_bind. destruct (Z.eqb_spec (i_addrs x NDIRECT) 0) as [E0|E0].
  - eapply rule_balloc; [exact Hdev | exact G | exact Ho | exact Hsb | exact X | apply held_none | exact HM | exact HT | lia | |].
    + intros Hfull l1 X1. apply wp_bind, wp_ret, wp_ret, wp_ret, (HQ 0 V l1 s).
      pose proof (inds_len x). constructor; [apply extends_refl; assumption | auto | lia | apply same_but_refl |].
      eapply tx_weaken; [exact X1 | intros b Hb; right; apply elem_of_app; auto | cbn [length]; rewrite length_app; fold x; lia].
    + intros r l1 Hr Hf X1. apply wp_bind, wp_when; [intros _|lia]. apply wp_modify, wp_ret. replace (r =? 0) with false by lia.
      set (upd := upd_inode ip _). set (s1 := upd s). change (upd (set_log l1 s)) with (set_log l1 s1).
      set (x1 := f_inode s1 ip).
      assert (Ex : x1 = set_iaddrs (<[NDIRECT := r]> (i_addrs x)) x) by (unfold x1, s1, upd; cbn; apply fn_lookup_insert).
      assert (Eind : i_addrs x1 NDIRECT = r) by (rewrite Ex; apply fn_lookup_insert).
      pose proof (grown_direct start size sb G V x NDIRECT r OK ltac:(lia) E0 Hr Hf) as Hg. rewrite Z.eqb_refl, <- Ex in Hg.
      pose proof (grown_extends start size sb G V x _ x1 _ r _ OK HM Hg Ex) as HE1.
      pose proof (bmap_entry_wp bn x1 (allocated sb r V) (r :: T) l1 s1 Q) as Hent. cbv zeta in Hent. rewrite Eind in Hent.
      apply Hent; clear Hent; auto; [apply HE1 | apply HE1 | intros b Hb; right; auto | left | cbn [length]; lia | lia | lia |].
      intros addr V' l' HE2 Hfull Hmap X2. apply (HQ addr V' l' s1). constructor; auto.
      * fold x x1. exact (extends_trans start size sb G _ _ _ _ _ _ HE1 HE2).
      * apply same_but_upd.
      * fold x1. unfold inds. rewrite Eind. replace (r =? 0) with false by lia. exact X2.
  - apply wp_ret. replace (i_addrs x NDIRECT =? 0) with false by lia.
    apply (bmap_entry_wp bn x V (i_addrs x NDIRECT :: T) l s Q); auto; [ | intros b Hb; right; auto | left | cbn [length]; lia | lia |].
    + eapply tx_weaken; [exact X | intros b Hb; right; exact Hb | cbn [length]; lia].
    + intros addr V' l' HE Hfull Hmap X2. apply (HQ addr V' l' s). constructor; auto; [apply same_but_refl|].
      fold x. unfold inds. replace (i_addrs x NDIRECT =? 0) with false by lia. exact X2.
Qed.
End Bmap.

(** ** readi *)

(** The file has a block for every byte it says it has. *)
Definition mapped (V : Z -> mem) (x : inode) : Prop :=
  0 <= i_size x <= MAXBYTES /\ forall off, 0 <= off < i_size x -> fblock V x (off / BSIZE) <> 0.

(** How many bytes [readi] delivers. *)
Definition read_count (x : inode) (off n : Z) : Z :=
  if (off >? i_size x) || (2 ^ 32 <=? off + n) then 0 else Z.min n (i_size x - off).

(** The bytes one iteration of [readi] or [writei] handles. *)
Definition chunk (rest off : Z) : Z := Z.min rest (BSIZE - off mod BSIZE).
(** How many iterations [rest] bytes from [off] take. *)
Definition chunks (rest off : Z) : Z := if rest <=? 0 then 0 else (off mod BSIZE + rest - 1) / BSIZE + 1.

Lemma chunk_range rest off : 0 < rest -> 0 < chunk rest off <= rest /\ off mod BSIZE + chunk rest off <= BSIZE.
Proof. unfold chunk. intros. fsdiv. Qed.

Lemma chunk_block rest off i : 0 < rest -> 0 <= i < chunk rest off ->
  (off + i) / BSIZE = off / BSIZE /\ (off + i) mod BSIZE = off mod BSIZE + i.
Proof. unfold chunk. intros. fsdiv. Qed.

Lemma chunks_next rest off : 0 < rest ->
  0 <= chunks (rest - chunk rest off) (off + chunk rest off) < chunks rest off.
Proof.
  intros Hr. pose proof (chunk_range rest off Hr) as [H1 H2]. unfold chunks. replace (rest <=? 0) with false by lia.
  revert H1 H2. unfold chunk. destruct (Z.leb_spec (rest - Z.min rest (BSIZE - off mod BSIZE)) 0); intros; fsdiv.
Qed.

Lemma chunks_nonneg rest off : 0 <= chunks rest off.
Proof. unfold chunks. case_match; fsdiv. Qed.

Lemma chunks_le rest off : 0 <= rest -> chunks rest off <= rest / BSIZE + 2.
Proof. intros Hr. unfold chunks. case_match; fsdiv. Qed.

(** The pointer and the memory after [tot] bytes of [f] went to [dst]. *)
Definition dst_at (dst : rdst) (tot : Z) : rdst :=
  match dst with UserDst va => UserDst (u64 (va + tot)) | KernelDst => KernelDst end.
Definition mem_at {U} `{UserMem U} (f : Z -> byte) (dst : rdst) (u0 : U) (tot : Z) (u : U) : Prop :=
  match dst with
  | UserDst va => um_ok u /\
      forall a, uview u a = if (va <=? a) && (a <? va + tot) then Some (f (a - va)) else uview u0 a
  | KernelDst => u = u0
  end.
Definition dst_ok {U} `{UserMem U} (dst : rdst) (n : Z) (u : U) : Prop :=
  match dst with UserDst va => um_ok u /\ 0 <= va /\ va + n < 2 ^ 64 | KernelDst => True end.

Section Readi.
Context {S U : Type} `{BC : BufCache S} `{UM : UserMem U}.
Context (dev : Z) (Hdev : u32 dev = dev) (start size : Z) (sb : superblock) (G : geometry start size sb).
Context (D : Z -> mem) (ws : list (Z * mem)) (o : Z).
Local Abbreviation F := (fstate S U).
Local Abbreviation ftx := (tx dev start size D ws o).
Local Abbreviation geo := (geo_ok start size sb G).

Lemma either_copyout_wp f dst u0 n tot m u (s : F) :
  dst_ok dst n u0 -> mem_at f dst u0 tot u -> 0 <= tot -> 0 <= m -> tot + m <= n ->
  wp (either_copyout (dst_at dst tot) (bytes_at f tot (Z.to_nat m)))
    (fun r s' => exists u', s' = set_user u' s /\
      (r = 0 /\ mem_at f dst u0 (tot + m) u' \/
       r = -1 /\ exists k, 0 <= k < m /\ mem_at f dst u0 (tot + k) u' /\ dst <> KernelDst)) (set_user u s).
Proof.
  intros Hok Hm Ht H0 Hn. destruct dst as [va|]; cbn [dst_ok mem_at] in Hok, Hm; cbn [dst_at either_copyout].
  - destruct Hok as (_ & Hva & Hlim), Hm as [Hu Hv]. apply wp_zoom. cbn [f_user set_user].
    unfold u64. rewrite Z.mod_small by lia.
    eapply wp_mono; [apply (ucopyout_law (va + tot)); [exact Hu | lia]|].
    intros r u' (Hu' & k & Hk & Hview & _ & Hr). rewrite length_bytes_at in Hk, Hr. exists u'. split; [reflexivity|].
    assert (Hmem : mem_at f (UserDst va) u0 (tot + Z.of_nat k) u').
    { split; [exact Hu'|]. intros a. rewrite Hview. destruct ((va + tot <=? a) && (a <? va + tot + Z.of_nat k)) eqn:E.
      - rewrite lookup_bytes_at by lia. replace (_ && _) with true by lia. f_equal. f_equal. lia.
      - rewrite Hv. destruct ((va <=? a) && (a <? va + tot)) eqn:E2; [replace (_ && _) with true by lia | replace (_ && _) with false by lia]; reflexivity. }
    destruct Hr as [[-> ->]|[-> Hlt]]; [left | right].
    + split; [reflexivity|]. rewrite Z2Nat.id in Hmem by lia. exact Hmem.
    + split; [reflexivity|]. exists (Z.of_nat k). split; [lia|]. split; [exact Hmem | discriminate].
  - apply wp_ret. exists u. split; [reflexivity|]. left. auto.
Qed.

(** The outcome of [readi]: everything, or a fault of the process's memory. *)
Definition readi_post (x : inode) (V : Z -> mem) (T : list Z) (dst : rdst) (off cnt : Z) (s : F) (r : Z * list byte) (s' : F) : Prop :=
  exists l' u', s' = set_log l' (set_user u' s) /\ ftx V T ∅ l' /\
    (r = (cnt, bytes_at (fbyte V x) off (Z.to_nat cnt)) /\ mem_at (fun i => fbyte V x (off + i)) dst (f_user s) cnt u' \/
     r.1 = -1 /\ dst <> KernelDst /\ exists k, 0 <= k < cnt /\ mem_at (fun i => fbyte V x (off + i)) dst (f_user s) k u').

Lemma readi_step_wp ip V T dst off cnt tot u l s (Q : _ -> F -> Prop) :
  let x := f_inode s ip in
  i_dev x = dev -> inode_ok sb V x -> mapped V x -> 0 <= off -> off + cnt <= i_size x -> dst_ok dst cnt (f_user s) ->
  0 <= tot < cnt -> ftx V T ∅ l -> mem_at (fun i => fbyte V x (off + i)) dst (f_user s) tot u ->
  let m := chunk (cnt - tot) (off + tot) in
  (forall l' u', ftx V T ∅ l' -> mem_at (fun i => fbyte V x (off + i)) dst (f_user s) (tot + m) u' ->
     Q (inl (tot + m, off + (tot + m), dst_at dst (tot + m), bytes_at (fbyte V x) off (Z.to_nat (tot + m)))) (set_log l' (set_user u' s))) ->
  (forall l' u' acc k, ftx V T ∅ l' -> dst <> KernelDst -> 0 <= k < cnt ->
     mem_at (fun i => fbyte V x (off + i)) dst (f_user s) k u' -> Q (inr (-1, acc)) (set_log l' (set_user u' s))) ->
  wp (readi_step ip cnt (tot, off + tot, dst_at dst tot, bytes_at (fbyte V x) off (Z.to_nat tot))) Q (set_log l (set_user u s)).
Proof.
  intros x Hd OK [Hsz Hmap] Hoff Hcnt Hdst Ht X Hmem m Hok Hbad.
  destruct (chunk_range (cnt - tot) (off + tot) ltac:(lia)) as [Hm1 Hm2]. fold m in Hm1, Hm2.
  assert (Hbn : 0 <= (off + tot) / BSIZE < MAXFILE) by (unfold MAXBYTES in *; fsdiv).
  specialize (Hmap (off + tot) ltac:(lia)).
  unfold readi_step. replace (tot <? cnt) with true by lia. apply wp_bind.
  apply (bmap_mapped dev Hdev start size sb G D ws o ip _ x V T l (set_user u s)); auto. intros l1 X1.
  set (a := fblock V x _) in *. replace (a =? 0) with false by lia.
  unfold the_inode. apply wp_bind, wp_gets. cbn [f_inode set_log set_user]. fold x. rewrite Hd.
  destruct (block_data sb V x _ OK Hbn Hmap) as (Hr & _). fold a in Hr. destruct (data_range start size sb G _ Hr) as (H31 & _).
  eapply rule_fbread; [exact Hdev | exact geo | exact X1 | exact H31 | rewrite map_img_empty; set_solver | rewrite map_size_empty; lia |].
  intros bp l2 _ X2. cbv zeta. fold (chunk (cnt - tot) (off + tot)). fold m.
  eapply rule_fdata; [exact X2 | apply lookup_insert_eq |].
  assert (Ebytes : bytes_at (V a) ((off + tot) mod BSIZE) (Z.to_nat m) = bytes_at (fun i => fbyte V x (off + i)) tot (Z.to_nat m)).
  { apply bytes_at_ext. intros i Hi. unfold fbyte. rewrite Z.add_assoc.
    destruct (chunk_block (cnt - tot) (off + tot) i ltac:(lia) ltac:(fold m; lia)) as [-> ->].
    fold a. replace (a =? 0) with false by lia. reflexivity. }
  rewrite Ebytes. apply wp_bind.
  eapply wp_mono; [apply (either_copyout_wp _ dst (f_user s) cnt tot m u (set_log l2 s) Hdst Hmem); lia|].
  intros r s' (u' & -> & Hr').
  change (set_user u' (set_log l2 s)) with (set_log l2 (set_user u' s)).
  destruct Hr' as [[-> Hmem']|[-> (k & Hk & Hmem' & Hne)]]; cbn [Z.eqb Z.opp].
  - eapply rule_fbrelse; [exact geo | exact X2 | apply lookup_insert_eq |].
    intros l3 X3. rewrite delete_insert_id in X3 by apply lookup_empty. apply wp_ret.
    assert (Hlim : i_size x < 2 ^ 32) by (destruct Hsz as [_ Hsz]; unfold MAXBYTES in Hsz; change (MAXFILE * BSIZE) with 274432 in Hsz; lia).
    rewrite !u32_small by lia. specialize (Hok l3 u' X3 Hmem').
    replace (off + tot + m) with (off + (tot + m)) by lia.
    replace (rdst_add (dst_at dst tot) m) with (dst_at dst (tot + m)).
    + replace (bytes_at (fbyte V x) off (Z.to_nat tot) ++ _) with (bytes_at (fbyte V x) off (Z.to_nat (tot + m))); [exact Hok|].
      rewrite Z2Nat.inj_add, bytes_at_app by lia. f_equal. rewrite Z2Nat.id by lia. apply bytes_at_ext. intros i Hi. f_equal. lia.
    + destruct dst as [va|]; [|reflexivity]. cbn. unfold u64. rewrite Zplus_mod_idemp_l. f_equal. f_equal. lia.
  - eapply rule_fbrelse; [exact geo | exact X2 | apply lookup_insert_eq |].
    intros l3 X3. rewrite delete_insert_id in X3 by apply lookup_empty. apply wp_ret. apply (Hbad l3 u' _ (tot + k)); auto; lia.
Qed.
Lemma readi_loop_wp ip V T dst off cnt l s fuel :
  let x := f_inode s ip in
  i_dev x = dev -> inode_ok sb V x -> mapped V x -> 0 <= off -> 0 <= cnt -> off + cnt <= i_size x ->
  dst_ok dst cnt (f_user s) -> ftx V T ∅ l -> chunks cnt off < Z.of_nat fuel ->
  wp (loop fuel (readi_step ip cnt) (0, off, dst, [])) (readi_post x V T dst off cnt s) (set_log l s).
Proof.
  intros x Hd OK Hmap Hoff Hcnt Hle Hdst X Hfuel.
  apply (wp_loop (fun n st s' => exists tot l' u', 0 <= tot <= cnt /\
    st = (tot, off + tot, dst_at dst tot, bytes_at (fbyte V x) off (Z.to_nat tot)) /\
    s' = set_log l' (set_user u' s) /\ ftx V T ∅ l' /\ mem_at (fun i => fbyte V x (off + i)) dst (f_user s) tot u' /\
    n = Z.to_nat (chunks (cnt - tot) (off + tot)))) with (k := Z.to_nat (chunks cnt off)); [| |pose proof (chunks_nonneg cnt off); lia].
  - intros n st s' (tot & l' & u' & Ht & -> & -> & X' & Hmem & ->). destruct (decide (tot < cnt)) as [Hlt|Hge].
    + apply (readi_step_wp ip V T dst off cnt tot u' l' s); auto; [lia| |].
      * intros l2 u2 X2 Hmem2. pose proof (chunk_range (cnt - tot) (off + tot) ltac:(lia)). pose proof (chunks_next (cnt - tot) (off + tot) ltac:(lia)) as Hnx.
        set (m := chunk (cnt - tot) (off + tot)) in *. replace (cnt - tot - m) with (cnt - (tot + m)) in Hnx by lia. rewrite <- Z.add_assoc in Hnx.
        eexists. split; [|exists (tot + m), l2, u2; split; [lia|]; repeat (split; [first [reflexivity | eassumption]|]); reflexivity]. lia.
      * intros l2 u2 acc k X2 Hne Hk Hmem2. exists l2, u2. split; [reflexivity|]. split; [exact X2|]. right. eauto.
    + replace tot with cnt in * by lia. unfold readi_step. rewrite Z.ltb_irrefl. apply wp_ret.
      exists l', u'. split; [reflexivity|]. split; [exact X'|]. left. auto.
  - exists 0, l, (f_user s). split; [lia|]. rewrite Z.sub_0_r, Z.add_0_r.
    split; [|split; [destruct s; reflexivity|split; [exact X|split; [|reflexivity]]]].
    + f_equal. f_equal. destruct dst as [va|]; [|reflexivity]. cbn in *. unfold u64. rewrite Z.add_0_r, Z.mod_small by lia. reflexivity.
    + destruct dst as [va|]; [|reflexivity]. cbn in *. split; [apply Hdst|]. intros a. replace (_ && _) with false by lia. reflexivity.
Qed.

Lemma readi_wp ip V T dst off n l s :
  let x := f_inode s ip in
  i_dev x = dev -> inode_ok sb V x -> mapped V x -> 0 <= off < 2 ^ 32 -> 0 <= n < 2 ^ 32 ->
  dst_ok dst (read_count x off n) (f_user s) -> ftx V T ∅ l ->
  wp (readi ip dst off n) (readi_post x V T dst off (read_count x off n) s) (set_log l s).
Proof.
  intros x Hd OK Hmap Hoff Hn Hdst X. destruct (Hmap) as [Hsz _].
  assert (Hlim : i_size x < 2 ^ 31) by (destruct Hsz as [_ Hsz]; unfold MAXBYTES in Hsz; change (MAXFILE * BSIZE) with 274432 in Hsz; lia).
  unfold readi, the_inode. apply wp_bind, wp_gets. cbn [f_inode set_log]. fold x.
  assert (Ec : (off >? i_size x) || (u32 (off + n) <? off) = (off >? i_size x) || (2 ^ 32 <=? off + n)).
  { f_equal. unfold u32. destruct (Z.leb_spec (2 ^ 32) (off + n)); zdiv. }
  rewrite Ec. unfold read_count in *. destruct ((off >? i_size x) || (2 ^ 32 <=? off + n)) eqn:E.
  - apply wp_ret. exists l, (f_user s). split; [destruct s; reflexivity|]. split; [exact X|]. left. split; [reflexivity|].
    destruct dst as [va|]; [|reflexivity]. cbn in *. split; [apply Hdst|]. intros a. replace (_ && _) with false by lia. reflexivity.
  - cbv zeta. rewrite (u32_small (off + n)), (u32_small (i_size x - off)) by lia.
    replace (if off + n >? i_size x then i_size x - off else n) with (Z.min n (i_size x - off)) by (case_match; lia).
    set (cnt := Z.min n (i_size x - off)) in *. pose proof (chunks_le cnt off ltac:(lia)) as Hch.
    pose proof (Z.div_pos cnt BSIZE ltac:(lia) eq_refl) as Hq.
    apply wp_bind. eapply wp_mono; [apply (readi_loop_wp ip V T dst off cnt l s); auto; fold x; lia|].
    fold x. intros [tot acc] s' (l' & u' & -> & X' & Hr). apply wp_ret. exists l', u'. split; [reflexivity|]. split; [exact X'|].
    destruct Hr as [[Er Hmem]|[Er Hr]]; [left | right]; cbn [fst] in *.
    + injection Er as -> ->. split; [|exact Hmem]. rewrite i32_small by lia. reflexivity.
    + subst tot. split; [reflexivity | exact Hr].
Qed.
End Readi.
