(* ===== verification/FsWrite.v ===== *)
(** * Writing files: writei and iupdate of kernel/fs.c

    [writei] in a transaction: the bytes written are the source's, every
    other byte of the file, every block of other files and the free map but
    for the new blocks stay as they were, the inode on disk agrees with the
    one in memory, and the blocks logged stay within a bound. *)

From S2P Require Import Prelude Memory FsDefs BufCache Bio Log LogCrash LogTx UserMem Fs FsTx FsBlocks FsFile.

(** ** The inode on disk *)

Definition short (v : Z) : Prop := - 2 ^ 15 <= v < 2 ^ 15.

(** The C types of the fields. *)
Record inode_typed (x : inode) : Prop := {
  it_type : short (i_type x); it_major : short (i_major x); it_minor : short (i_minor x);
  it_nlink : short (i_nlink x); it_size : 0 <= i_size x < 2 ^ 32;
  it_addrs : forall j, 0 <= j <= NDIRECT -> 0 <= i_addrs x j < 2 ^ 32
}.

(** Whoever reads the inode from its block gets the fields of [x]. *)
Definition inode_stored (sb : superblock) (V : Z -> mem) (x : inode) : Prop :=
  forall y, let z := get_dinode (V (IBLOCK (i_inum x) sb)) (dinode_off (i_inum x)) y in
    i_type z = i_type x /\ i_major z = i_major x /\ i_minor z = i_minor x /\ i_nlink z = i_nlink x /\
    i_size z = i_size x /\ forall j, 0 <= j <= NDIRECT -> i_addrs z j = i_addrs x j.

Lemma put_addrs_out k i m a f n b :
  b + Z.of_nat n <= a + 12 + 4 * i -> le_load n (put_addrs k i m a f) b = le_load n m b.
Proof.
  revert i m. induction k as [|k IH]; intros i m Hb; cbn [put_addrs]; [reflexivity|].
  rewrite IH by lia. apply le_load_store_ne. lia.
Qed.

Lemma put_addrs_in k i m a f j :
  (forall j, i <= j < i + Z.of_nat k -> 0 <= f j < 2 ^ 32) -> i <= j < i + Z.of_nat k ->
  load32 (put_addrs k i m a f) (a + 12 + 4 * j) = f j.
Proof.
  revert i m. induction k as [|k IH]; intros i m Hf Hj; cbn [put_addrs]; [lia|].
  destruct (decide (j = i)) as [->|Hne].
  - unfold load32. rewrite put_addrs_out by lia. etransitivity; [apply le_load_store_eq|].
    apply Z.mod_small. apply (Hf i). lia.
  - apply IH; [intros; apply Hf; lia | lia].
Qed.

Lemma i16_u16 v : short v -> i16 (u16 v mod 2 ^ 16) = v.
Proof. unfold short, i16, u16, sext. intros Hv. rewrite Zmod_mod. case_match; zdiv. Qed.

Lemma get_put_dinode m a x y : inode_typed x ->
  let z := get_dinode (put_dinode m a x) a y in
  i_type z = i_type x /\ i_major z = i_major x /\ i_minor z = i_minor x /\ i_nlink z = i_nlink x /\
  i_size z = i_size x /\ forall j, 0 <= j <= NDIRECT -> i_addrs z j = i_addrs x j.
Proof.
  intros [T1 T2 T3 T4 T5 T6]. cbv zeta. unfold get_dinode, put_dinode. cbn [i_type i_major i_minor i_nlink i_size i_addrs].
  unfold load16, store16, store32. change (load32 ?m (a + 8)) with (le_load 4 m (a + 8)).
  rewrite !(put_addrs_out _ _ _ _ _ 2), (put_addrs_out _ _ _ _ _ 4) by (cbn; lia).
  assert (E16 : forall m b v, short v -> i16 (le_load 2 (le_store 2 m b (u16 v)) b) = v) by (intros; rewrite le_load_store_eq; apply i16_u16; assumption).
  assert (Ene : forall n k m b v c, c + Z.of_nat n <= b \/ b + Z.of_nat k <= c -> le_load n (le_store k m b v) c = le_load n m c) by (intros; apply le_load_store_ne; assumption).
  repeat split.
  - rewrite !Ene by (cbn; lia). apply E16, T1.
  - rewrite !Ene by (cbn; lia). apply E16, T2.
  - rewrite !Ene by (cbn; lia). apply E16, T3.
  - rewrite !Ene by (cbn; lia). apply E16, T4.
  - rewrite le_load_store_eq. apply Z.mod_small. exact T5.
  - intros j Hj. replace ((0 <=? j) && (j <=? NDIRECT)) with true by lia. apply put_addrs_in; change NDIRECT with 12 in *; [|cbn; lia].
    intros k Hk. apply T6. cbn in Hk. lia.
Qed.

(** ** Changes of one block *)

Section Pure.
Context (start size : Z) (sb : superblock) (G : geometry start size sb).

Lemma iblock_range inum : 0 <= inum < sb_ninodes sb ->
  sb_inodestart sb <= IBLOCK inum sb < sb_bmapstart sb /\ 0 <= IBLOCK inum sb < 2 ^ 31 /\ ~ in_log start size (IBLOCK inum sb).
Proof.
  intros Hi. destruct G as [[? ?] [? ?] [? ?]]. unfold IBLOCK, in_log, data_start in *. rewrite u32_small; fsdiv.
Qed.

(** A block that is neither a bitmap nor the indirect block of [x] is
    replaced: the blocks of [x] stay. *)
Section Put.
Context (V : Z -> mem) (x : inode) (a : Z) (m : mem).
Context (OK : inode_ok sb V x) (HM : meta_used V sb).
Context (Ha : a < sb_bmapstart sb \/ data_start sb <= a) (Hind : a <> i_addrs x NDIRECT).

Lemma put_alloc b : 0 <= b < sb_size sb -> alloc (<[a := m]> V) sb b = alloc V sb b.
Proof.
  intros Hb. unfold alloc. rewrite fn_lookup_insert_ne; [reflexivity|].
  pose proof (bblock_range start size sb G b ltac:(lia)). lia.
Qed.

Lemma put_fblock bn : fblock (<[a := m]> V) x bn = fblock V x bn.
Proof. unfold fblock. rewrite fn_lookup_insert_ne by exact Hind. reflexivity. Qed.

Lemma put_islot j : islot (<[a := m]> V) x j = islot V x j.
Proof. unfold islot. rewrite put_fblock. reflexivity. Qed.

Lemma put_inode_ok : inode_ok sb (<[a := m]> V) x.
Proof.
  intros j Hj. rewrite put_islot. intros Hn. destruct (OK j Hj Hn) as (H1 & H2 & H3).
  pose proof (size_pos start size sb G). split; [exact H1|]. split; [rewrite put_alloc by lia; exact H2|].
  intros j' Hj'. rewrite put_islot. auto.
Qed.

Lemma put_meta : meta_used (<[a := m]> V) sb.
Proof. intros b Hb. rewrite put_alloc; [apply HM; exact Hb|]. pose proof (size_pos start size sb G). lia. Qed.
End Put.

(** The bytes of the file when its block [bn] is replaced. *)
Lemma put_fbyte V x bn p bs i :
  inode_ok sb V x -> 0 <= bn < MAXFILE -> fblock V x bn <> 0 -> 0 <= p -> p + Z.of_nat (length bs) <= BSIZE -> 0 <= i < MAXBYTES ->
  fbyte (<[fblock V x bn := put_bytes (V (fblock V x bn)) p bs]> V) x i =
  if (bn * BSIZE + p <=? i) && (i <? bn * BSIZE + p + Z.of_nat (length bs)) then nth (Z.to_nat (i - (bn * BSIZE + p))) bs x00
  else fbyte V x i.
Proof.
  intros OK Hbn Hn Hp Hlen Hi. destruct (block_data sb V x bn OK Hbn Hn) as (_ & _ & Hne).
  unfold fbyte. rewrite put_fblock by exact Hne.
  assert (Hin : 0 <= i / BSIZE < MAXFILE) by (unfold MAXBYTES in Hi; fsdiv).
  destruct (decide (i / BSIZE = bn)) as [E|E].
  - rewrite E, fn_lookup_insert. replace (fblock V x bn =? 0) with false by lia.
    destruct ((bn * BSIZE + p <=? i) && (i <? bn * BSIZE + p + Z.of_nat (length bs))) eqn:Ein.
    + rewrite put_bytes_in by (change BSIZE with 1024 in *; zdiv). f_equal. f_equal. fsdiv.
    + apply put_bytes_out. change BSIZE with 1024 in *. zdiv.
  - replace (_ && _) with false by (change BSIZE with 1024 in *; zdiv).
    destruct (Z.eqb_spec (fblock V x (i / BSIZE)) 0) as [_|Hn']; [reflexivity|].
    rewrite fn_lookup_insert_ne; [reflexivity|]. intros Eb. apply E.
    destruct (OK bn ltac:(lia)) as (_ & _ & Hinj); [rewrite islot_block by lia; exact Hn|].
    apply Hinj; [lia|]. rewrite !islot_block by lia. congruence.
Qed.

(** ** What a write does *)

Record written (f : Z -> byte) (off tot : Z) (V : Z -> mem) (x : inode) (V' : Z -> mem) (x' : inode) : Prop := {
  wr_ok : inode_ok sb V' x';
  wr_meta : meta_used V' sb;
  wr_bytes : forall i, 0 <= i < MAXBYTES ->
    fbyte V' x' i = if (off <=? i) && (i <? off + tot) then f (i - off) else fbyte V x i;
  wr_blocks : forall i, off <= i < off + tot -> fblock V' x' (i / BSIZE) <> 0;
  wr_data : forall b, data_start sb <= b < sb_size sb -> alloc V sb b = true ->
    (forall j, 0 <= j <= MAXFILE -> islot V x j <> b) -> V' b ≡ V b;
  wr_alloc : forall b, 0 <= b < sb_size sb -> alloc V sb b = true -> alloc V' sb b = true;
  wr_slot : forall j, 0 <= j <= MAXFILE -> islot V x j <> 0 -> islot V' x' j = islot V x j;
  wr_fresh : forall j, 0 <= j <= MAXFILE -> islot V x j = 0 -> islot V' x' j <> 0 -> alloc V sb (islot V' x' j) = false;
  wr_fields : exists a, x' = set_iaddrs a x
}.

Lemma written_none f off V x : inode_ok sb V x -> meta_used V sb -> written f off 0 V x V x.
Proof.
  intros OK HM. constructor; auto; [| lia | congruence | exists (i_addrs x); apply set_iaddrs_id].
  intros i Hi. replace (_ && _) with false by lia. reflexivity.
Qed.

(** Another file's block is not a block of [x], before or after. *)
Lemma written_apart f off tot V x V' x' b j :
  written f off tot V x V' x' -> data_start sb <= b -> alloc V sb b = true ->
  (forall j, 0 <= j <= MAXFILE -> islot V x j <> b) -> 0 <= j <= MAXFILE -> islot V' x' j <> b.
Proof.
  intros W Hb Ha Hne Hj E. pose proof (size_pos start size sb G). destruct (decide (islot V x j = 0)) as [E0|E0].
  - pose proof (wr_fresh _ _ _ _ _ _ _ W j Hj E0 ltac:(lia)). congruence.
  - rewrite (wr_slot _ _ _ _ _ _ _ W j Hj E0) in E. exact (Hne j Hj E).
Qed.

Lemma written_extends f off tot V x V1 x1 V2 x2 :
  written f off tot V x V1 x1 -> extends sb V1 x1 V2 x2 -> 0 <= off -> off + tot <= MAXBYTES -> written f off tot V x V2 x2.
Proof.
  intros W E Hoff Hlim. pose proof (size_pos start size sb G) as Hsz. pose proof E as []. pose proof W as []. constructor; auto.
  - intros i Hi. rewrite ex_bytes, wr_bytes0 by exact Hi. reflexivity.
  - intros i Hi. assert (Hbn : 0 <= i / BSIZE < MAXFILE) by (unfold MAXBYTES in *; fsdiv). rewrite <- (islot_block V2) by exact Hbn.
    rewrite ex_slot; rewrite ?islot_block by exact Hbn; auto; lia.
  - intros b Hb Ha Hne. rewrite ex_data, wr_data0; auto; [apply wr_alloc0; [lia | exact Ha]|].
    rewrite <- islot_ind with (V := V1). apply not_eq_sym. apply (written_apart f off tot V x V1 x1 b); auto; [lia|]. assert (0 < MAXFILE) by reflexivity. lia.
  - intros j Hj Hn. rewrite ex_slot, wr_slot0; auto. rewrite wr_slot0; auto.
  - intros j Hj H0 Hn. destruct (decide (islot V1 x1 j = 0)) as [E1|E1]; [|rewrite ex_slot in * by assumption; auto].
    specialize (ex_fresh j Hj E1 Hn). destruct (ex_ok j Hj Hn) as (Hr & _). destruct (alloc V sb (islot V2 x2 j)) eqn:Ea; [|reflexivity].
    rewrite wr_alloc0 in ex_fresh by (auto; lia). discriminate.
  - destruct wr_fields0 as [a ->], ex_fields as [a' ->]. exists a'. reflexivity.
Qed.

(** One more chunk. *)
Lemma written_put f off tot m V x V1 x1 :
  let a := fblock V1 x1 ((off + tot) / BSIZE) in let p := (off + tot) mod BSIZE in
  written f off tot V x V1 x1 -> a <> 0 -> 0 <= off -> 0 <= tot -> 0 <= m -> p + m <= BSIZE -> off + tot + m <= MAXBYTES ->
  0 < m -> written f off (tot + m) V x (<[a := put_bytes (V1 a) p (bytes_at f tot (Z.to_nat m))]> V1) x1.
Proof.
  intros a p W Hn Hoff Ht Hm0 Hp Hlim Hm. pose proof (size_pos start size sb G) as Hsz.
  assert (Hbn : 0 <= (off + tot) / BSIZE < MAXFILE) by (unfold MAXBYTES in *; fsdiv).
  pose proof (wr_ok _ _ _ _ _ _ _ W) as OK1. destruct (block_data sb V1 x1 _ OK1 Hbn Hn) as (Hr & Hal & Hne). fold a in Hr, Hal, Hne.
  assert (Ep : (off + tot) / BSIZE * BSIZE + p = off + tot) by (unfold p; fsdiv).
  assert (Hp0 : 0 <= p) by (unfold p; fsdiv).
  pose proof W as []. constructor; auto.
  - apply put_inode_ok; auto; lia.
  - apply put_meta; auto; lia.
  - intros i Hi. unfold a. rewrite put_fbyte by (auto; rewrite length_bytes_at; lia).
    rewrite length_bytes_at, Ep, Z2Nat.id by lia.
    destruct ((off + tot <=? i) && (i <? off + tot + m)) eqn:E.
    + rewrite nth_bytes_at by lia. replace (_ && _) with true by lia. f_equal. lia.
    + rewrite wr_bytes0 by exact Hi. destruct ((off <=? i) && (i <? off + tot)) eqn:E2;
        [replace (_ && _) with true by lia | replace (_ && _) with false by lia]; reflexivity.
  - intros i Hi. rewrite put_fblock by exact Hne. destruct (decide (i < off + tot)); [apply wr_blocks0; lia|].
    destruct (chunk_block m (off + tot) (i - (off + tot)) Hm) as [E _]; [unfold chunk; fold p; lia|].
    replace (off + tot + (i - (off + tot))) with i in E by lia. rewrite E. exact Hn.
  - intros b Hb Ha Hnb. rewrite fn_lookup_insert_ne; [auto|]. unfold a. rewrite <- islot_block by exact Hbn.
    apply (written_apart f off tot V x V1 x1 b); auto; lia.
  - intros b Hb Ha. rewrite put_alloc by (auto; lia). auto.
  - intros j Hj Hn'. rewrite put_islot by exact Hne. auto.
  - intros j Hj. rewrite put_islot by exact Hne. auto.
Qed.

(** A change of an inode block leaves every file's contents alone. *)
Lemma written_inode f off tot V x V1 x1 a m :
  written f off tot V x V1 x1 -> a < sb_bmapstart sb -> written f off tot V x (<[a := m]> V1) x1.
Proof.
  intros W Ha. pose proof (size_pos start size sb G) as Hsz. pose proof (bblock_range start size sb G 0 ltac:(lia)) as Hb0.
  pose proof W as []. assert (Hd : forall b, data_start sb <= b -> b <> a) by lia.
  assert (Hind : i_addrs x1 NDIRECT = a -> i_addrs x1 NDIRECT = 0).
  { intros E. destruct (decide (i_addrs x1 NDIRECT = 0)) as [|Hn]; [assumption|]. rewrite <- islot_ind with (V := V1) in *.
    destruct (wr_ok0 MAXFILE ltac:(split; [discriminate|reflexivity]) Hn) as (Hr & _). lia. }
  assert (Hfb : forall bn, fblock (<[a := m]> V1) x1 bn = fblock V1 x1 bn).
  { intros bn. unfold fblock. destruct (Z.ltb_spec bn NDIRECT); [reflexivity|]. destruct (Z.eqb_spec (i_addrs x1 NDIRECT) 0); [reflexivity|].
    rewrite fn_lookup_insert_ne by (intros E; symmetry in E; auto). reflexivity. }
  assert (Hsl : forall j, islot (<[a := m]> V1) x1 j = islot V1 x1 j) by (intros j; unfold islot; rewrite Hfb; reflexivity).
  assert (Hal : forall b, 0 <= b < sb_size sb -> alloc (<[a := m]> V1) sb b = alloc V1 sb b) by (intros b Hb; apply put_alloc; auto).
  constructor; auto.
  - intros j Hj. rewrite Hsl. intros Hn. destruct (wr_ok0 j Hj Hn) as (H1 & H2 & H3). split; [exact H1|].
    split; [rewrite Hal by lia; exact H2|]. intros j' Hj'. rewrite Hsl. auto.
  - intros b Hb. rewrite Hal by lia. auto.
  - intros i Hi. rewrite <- wr_bytes0 by exact Hi. unfold fbyte. rewrite Hfb.
    destruct (Z.eqb_spec (fblock V1 x1 (i / BSIZE)) 0) as [|Hn]; [reflexivity|]. rewrite fn_lookup_insert_ne; [reflexivity|].
    apply not_eq_sym, Hd. apply (block_data sb V1 x1 _ wr_ok0); [unfold MAXBYTES in Hi; fsdiv | exact Hn].
  - intros i Hi. rewrite Hfb. auto.
  - intros b Hb Ha' Hne. rewrite fn_lookup_insert_ne by lia. auto.
  - intros b Hb Ha'. rewrite Hal by exact Hb. auto.
  - intros j Hj Hn. rewrite Hsl. auto.
  - intros j Hj. rewrite Hsl. auto.
Qed.

Lemma written_typed f off tot V x V' x' : inode_typed x -> written f off tot V x V' x' -> inode_typed x'.
Proof.
  intros [T1 T2 T3 T4 T5 T6] W. destruct (wr_fields _ _ _ _ _ _ _ W) as [a E]. pose proof (geo_data _ _ _ G) as Hg.
  pose proof (size_pos start size sb G) as Hsz.
  constructor; rewrite ?E; auto. intros j Hj. rewrite <- E.
  destruct (decide (i_addrs x' j = 0)) as [->|Hn]; [lia|].
  assert (Es : exists k, 0 <= k <= MAXFILE /\ islot V' x' k = i_addrs x' j).
  { destruct (decide (j = NDIRECT)) as [->|]; [exists MAXFILE; split; [split; [discriminate|reflexivity] | apply islot_ind]|].
    exists j. assert (NDIRECT < MAXFILE) by reflexivity. split; [lia|]. rewrite islot_block by lia. unfold fblock.
    replace (j <? NDIRECT) with true by lia. reflexivity. }
  destruct Es as (k & Hk & Ek). rewrite <- Ek in *. destruct (wr_ok _ _ _ _ _ _ _ W k Hk Hn) as (Hr & _). lia.
Qed.

Lemma written_mapped f off tot V x V' x' :
  mapped V x -> written f off tot V x V' x' -> 0 <= off <= i_size x -> 0 <= tot -> off + tot <= MAXBYTES ->
  mapped V' (set_isize (Z.max (i_size x) (off + tot)) x').
Proof.
  intros [Hsz Hm] W Hoff Ht Hlim. split; [cbn; lia|]. cbn [i_size set_isize]. intros i Hi.
  change (fblock V' (set_isize _ x')) with (fblock V' x').
  destruct (decide (off <= i < off + tot)) as [Hin|Hin]; [apply (wr_blocks _ _ _ _ _ _ _ W); exact Hin|].
  assert (Hbn : 0 <= i / BSIZE < MAXFILE) by (unfold MAXBYTES in *; fsdiv). specialize (Hm i ltac:(lia)).
  rewrite <- islot_block in * by exact Hbn. rewrite (wr_slot _ _ _ _ _ _ _ W) by (auto; lia). exact Hm.
Qed.
End Pure.

(** ** Sources *)

Definition src_at (src : wsrc) (tot : Z) : wsrc :=
  match src with UserSrc va => UserSrc (u64 (va + tot)) | KernelSrc bs => KernelSrc (drop (Z.to_nat tot) bs) end.

(** The [n] bytes at the source are [f], and the process may access them. *)
Definition src_ok {U} `{UserMem U} (src : wsrc) (n : Z) (f : Z -> byte) (u : U) : Prop :=
  match src with
  | UserSrc va => um_ok u /\ 0 <= va /\ va + n < 2 ^ 64 /\ forall i, 0 <= i < n -> uview u (va + i) = Some (f i)
  | KernelSrc bs => forall i, 0 <= i < n -> bs !! Z.to_nat i = Some (f i)
  end.

Section Writei.
Context {S U : Type} `{BC : BufCache S} `{UM : UserMem U}.
Context (dev : Z) (Hdev : u32 dev = dev) (start size : Z) (sb : superblock) (G : geometry start size sb).
Context (D : Z -> mem) (ws : list (Z * mem)) (o : Z) (Ho : 1 <= o).
Local Abbreviation F := (fstate S U).
Local Abbreviation ftx := (tx dev start size D ws o).
Local Abbreviation geo := (geo_ok start size sb G).

Lemma either_copyin_wp f src n tot m (s : F) (Q : Z * list byte -> F -> Prop) :
  src_ok src n f (f_user s) -> 0 <= tot -> 0 <= m -> tot + m <= n ->
  Q (0, bytes_at f tot (Z.to_nat m)) s -> wp (either_copyin (src_at src tot) m) Q s.
Proof.
  intros Hok Ht Hm Hn HQ. destruct src as [va|bs]; cbn [src_ok] in Hok; cbn [src_at either_copyin].
  - destruct Hok as (Hu & Hva & Hlim & Hv). apply wp_zoom. unfold u64. rewrite Z.mod_small by lia.
    eapply wp_mono; [apply (ucopyin_law (va + tot) m _ Hu); lia|]. intros [r bs] u' (-> & Hbs & Hr).
    assert (Hr0 : r = 0 /\ Z.of_nat (length bs) = m).
    { destruct Hr as [Hr|(_ & Hl & Hnone)]; [exact Hr|]. rewrite <- Z.add_assoc, Hv in Hnone by lia. discriminate. }
    destruct Hr0 as [-> Hl]. replace bs with (bytes_at f tot (Z.to_nat m)); [destruct s; exact HQ|].
    apply list_eq_same_length with (length bs); [reflexivity | rewrite length_bytes_at; lia|].
    intros i b c Hi Hb Hc. rewrite lookup_bytes_at in Hb by lia. apply Hbs in Hc. rewrite <- Z.add_assoc, Hv in Hc by lia. congruence.
  - apply wp_ret. replace (take (Z.to_nat m) (drop (Z.to_nat tot) bs)) with (bytes_at f tot (Z.to_nat m)); [exact HQ|].
    apply list_eq. intros i. destruct (decide (i < Z.to_nat m)%nat) as [Hi|Hi].
    + rewrite lookup_bytes_at, lookup_take_lt, lookup_drop by exact Hi. replace (Z.to_nat tot + i)%nat with (Z.to_nat (tot + Z.of_nat i)) by lia.
      rewrite Hok by lia. reflexivity.
    + rewrite lookup_take_ge by lia. apply lookup_ge_None_2. rewrite length_bytes_at. lia.
Qed.

Lemma src_add src tot m : 0 <= tot -> 0 <= m -> wsrc_add (src_at src tot) m = src_at src (tot + m).
Proof.
  intros Ht Hm. destruct src as [va|bs]; cbn.
  - unfold u64. rewrite Zplus_mod_idemp_l. f_equal. f_equal. lia.
  - rewrite drop_drop. f_equal. f_equal. lia.
Qed.

Lemma inds_mono V x V' x' b : extends sb V x V' x' -> b ∈ inds x -> b ∈ inds x'.
Proof.
  intros E. unfold inds. destruct (Z.eqb_spec (i_addrs x NDIRECT) 0) as [E0|E0]; [intros Hb; destruct (not_elem_of_nil _ Hb)|].
  destruct (ex_ind _ _ _ _ _ E) as [->|[E1 _]]; [|contradiction]. replace (_ =? 0) with false by lia. auto.
Qed.

(** The state of the loop of [writei] after [tot] bytes. *)
Record writing (ip : nat) (f : Z -> byte) (off n : Z) (V : Z -> mem) (T : list Z) (s : F) (tot : Z)
    (V' : Z -> mem) (dl : list Z) (l' : lstate S) (s' : F) : Prop := {
  wi_tot : 0 <= tot <= n;
  wi_file : written sb f off tot V (f_inode s ip) V' (f_inode s' ip);
  wi_same : same_but ip s s';
  wi_tx : ftx V' (dl ++ inds (f_inode s' ip) ++ T) ∅ l'
}.

Lemma writei_step_wp ip f src off n V T s tot V1 dl l1 s1 (Q : _ -> F -> Prop) :
  f_sb s = sb -> i_dev (f_inode s ip) = dev -> (forall b, b ∈ bitmaps sb -> b ∈ T) ->
  Z.of_nat (length T) + chunks n off + 2 < size - 1 -> 0 <= off -> off + n <= MAXBYTES -> src_ok src n f (f_user s) ->
  writing ip f off n V T s tot V1 dl l1 s1 -> Z.of_nat (length dl) + chunks (n - tot) (off + tot) <= chunks n off -> tot < n ->
  let m := chunk (n - tot) (off + tot) in
  (forall V2 dl2 l2 s2, disk_full sb V2 -> writing ip f off n V T s tot V2 dl2 l2 s2 ->
     Z.of_nat (length dl2) <= chunks n off -> Q (inr (tot, off + tot)) (set_log l2 s2)) ->
  (forall V2 dl2 l2 s2, writing ip f off n V T s (tot + m) V2 dl2 l2 s2 ->
     Z.of_nat (length dl2) + chunks (n - (tot + m)) (off + (tot + m)) <= chunks n off ->
     chunks (n - (tot + m)) (off + (tot + m)) < chunks (n - tot) (off + tot) ->
     Q (inl (tot + m, off + (tot + m), src_at src (tot + m))) (set_log l2 s2)) ->
  wp (writei_step ip n (tot, off + tot, src_at src tot)) Q (set_log l1 s1).
Proof.
  intros Hsb Hd HT Hroom Hoff Hlim Hsrc [Ht W HS X] Hlen Hlt m Hfull Hgo.
  destruct (chunk_range (n - tot) (off + tot) ltac:(lia)) as [Hm1 Hm2]. fold m in Hm1, Hm2.
  pose proof (chunks_next (n - tot) (off + tot) ltac:(lia)) as Hnx. fold m in Hnx.
  replace (n - tot - m) with (n - (tot + m)) in Hnx by lia. rewrite <- Z.add_assoc in Hnx.
  assert (Hbn : 0 <= (off + tot) / BSIZE < MAXFILE) by (unfold MAXBYTES in *; fsdiv).
  assert (Hd1 : i_dev (f_inode s1 ip) = dev) by (destruct (wr_fields _ _ _ _ _ _ _ _ W) as [a ->]; exact Hd).
  destruct (HS) as (Es1 & _ & Es3 & _). pose proof (inds_len (f_inode s1 ip)) as Hil.
  unfold writei_step. replace (tot <? n) with true by lia. apply wp_bind.
  eapply bmap_wp; [exact Hdev | exact G | exact Ho | congruence | exact Hd1 | exact X | apply W | apply W | | | exact Hbn |].
  { intros b Hb. rewrite !elem_of_app. auto. }
  { rewrite !length_app. lia. }
  intros addr V2 l2 s2 [HE Hf Hmap HS2 X2]. destruct (HS2) as (Es21 & _ & Es23 & _). pose proof (inds_len (f_inode s2 ip)) as Hil2.
  assert (W2 : written sb f off tot V (f_inode s ip) V2 (f_inode s2 ip)) by (apply (written_extends start size sb G _ _ _ _ _ _ _ _ _ W HE); lia).
  assert (X2' : ftx V2 ((addr :: dl) ++ inds (f_inode s2 ip) ++ T) ∅ l2).
  { eapply tx_weaken; [exact X2 | | cbn [length app]; rewrite !length_app; lia].
    intros b. rewrite !elem_of_cons, !elem_of_app. pose proof (inds_mono _ _ _ _ b HE). cbn. rewrite elem_of_cons. tauto. }
  pose proof (same_but_trans _ _ _ _ HS HS2) as HS'.
  destruct (Z.eqb_spec addr 0) as [E0|E0].
  { apply wp_ret, (Hfull V2 (addr :: dl)); [auto | constructor; auto | cbn [length]; lia]. }
  specialize (Hmap E0). set (x2 := f_inode s2 ip) in *.
  destruct (block_data sb V2 x2 _ (wr_ok _ _ _ _ _ _ _ _ W2) Hbn ltac:(congruence)) as (Hr & _). rewrite Hmap in Hr.
  destruct (data_range start size sb G _ Hr) as (H31 & Hout & _).
  assert (Hd2 : i_dev x2 = dev) by (destruct (wr_fields _ _ _ _ _ _ _ _ W2) as [a ->]; exact Hd).
  unfold the_inode. apply wp_bind, wp_gets. cbn [f_inode set_log]. fold x2. rewrite Hd2.
  eapply rule_fbread; [exact Hdev | exact geo | exact X2' | exact H31 | rewrite map_img_empty; set_solver | rewrite map_size_empty; lia |].
  intros bp l3 _ X3. cbv zeta. fold (chunk (n - tot) (off + tot)). fold m.
  apply wp_bind, (either_copyin_wp f src n tot m); [cbn [f_user set_log]; congruence | lia | lia | lia |].
  eapply rule_fdata; [exact X3 | apply lookup_insert_eq |]. cbn [Z.eqb].
  eapply rule_update; [exact geo | exact Ho | exact X3 | apply lookup_insert_eq | left | exact H31 | exact Hout |].
  intros l4 X4. eapply rule_fbrelse; [exact geo | exact X4 | apply lookup_insert_eq |].
  intros l5 X5. rewrite delete_insert_id in X5 by apply lookup_empty. apply wp_ret.
  assert (Hlim32 : off + n < 2 ^ 32) by (unfold MAXBYTES in Hlim; change (MAXFILE * BSIZE) with 274432 in Hlim; lia).
  rewrite !u32_small, src_add by lia. rewrite <- Z.add_assoc. eapply (Hgo _ (addr :: dl)); [|cbn [length]; lia | lia].
  constructor; [lia | | exact HS' | exact X5].
  fold x2. rewrite <- Hmap. apply (written_put start size sb G f off tot m V (f_inode s ip) V2 x2 W2); [congruence | lia..].
Qed.

Lemma rule_iupdate {B} ip (k : unit -> M F B) Q V T l s :
  let x := f_inode s ip in let ib := IBLOCK (i_inum x) sb in
  f_sb s = sb -> i_dev x = dev -> 0 <= i_inum x < sb_ninodes sb -> ib ∈ T -> ftx V T ∅ l ->
  (forall l', ftx (<[ib := put_dinode (V ib) (dinode_off (i_inum x)) x]> V) T ∅ l' -> wp (k tt) Q (set_log l' s)) ->
  wp (iupdate ip ≫= k) Q (set_log l s).
Proof.
  intros x ib Hsb Hd Hi HT X Hk. destruct (iblock_range start size sb G _ Hi) as (_ & H31 & Hout). fold ib in H31, Hout.
  apply wp_bind. unfold iupdate, the_inode. apply wp_bind, wp_gets, wp_bind, wp_gets. cbn [f_inode f_sb set_log].
  fold x. rewrite Hsb, Hd. fold ib.
  eapply rule_fbread; [exact Hdev | exact geo | exact X | exact H31 | rewrite map_img_empty; set_solver | rewrite map_size_empty; lia |].
  intros bp l1 _ X1. eapply rule_fdata; [exact X1 | apply lookup_insert_eq |].
  eapply rule_update; [exact geo | exact Ho | exact X1 | apply lookup_insert_eq | exact HT | exact H31 | exact Hout |].
  intros l2 X2. apply wp_last. eapply rule_fbrelse; [exact geo | exact X2 | apply lookup_insert_eq |].
  intros l3 X3. rewrite delete_insert_id in X3 by apply lookup_empty. apply wp_ret, Hk. exact X3.
Qed.

(** The loop writes everything, or stops when the disk is full. *)
Lemma writei_loop_wp ip f src off n V T l s fuel :
  f_sb s = sb -> i_dev (f_inode s ip) = dev -> (forall b, b ∈ bitmaps sb -> b ∈ T) ->
  Z.of_nat (length T) + chunks n off + 2 < size - 1 -> 0 <= off -> 0 <= n -> off + n <= MAXBYTES -> src_ok src n f (f_user s) ->
  inode_ok sb V (f_inode s ip) -> meta_used V sb -> ftx V T ∅ l -> chunks n off < Z.of_nat fuel ->
  wp (loop fuel (writei_step ip n) (0, off, src))
    (fun r s' => exists tot V' dl l' s1, r = (tot, off + tot) /\ s' = set_log l' s1 /\
       writing ip f off n V T s tot V' dl l' s1 /\ Z.of_nat (length dl) <= chunks n off /\ (tot < n -> disk_full sb V')) (set_log l s).
Proof.
  intros Hsb Hd HT Hroom Hoff Hn Hlim Hsrc OK HM X Hfuel.
  apply (wp_loop (fun k st s' => exists tot V' dl l' s1, st = (tot, off + tot, src_at src tot) /\ s' = set_log l' s1 /\
    writing ip f off n V T s tot V' dl l' s1 /\ Z.of_nat (length dl) + chunks (n - tot) (off + tot) <= chunks n off /\
    k = Z.to_nat (chunks (n - tot) (off + tot)))) with (k := Z.to_nat (chunks n off)); [| |pose proof (chunks_nonneg n off); lia].
  - intros k st s' (tot & V' & dl & l' & s1 & -> & -> & W & Hlen & ->). pose proof (wi_tot _ _ _ _ _ _ _ _ _ _ _ _ W) as Ht.
    destruct (decide (tot < n)) as [Hlt|Hge].
    + eapply writei_step_wp; eauto.
      * intros V2 dl2 l2 s2 Hfull W2 Hlen2. exists tot, V2, dl2, l2, s2. auto.
      * intros V2 dl2 l2 s2 W2 Hlen2 Hdec. eexists. split; [|do 5 eexists; repeat (split; [reflexivity || eassumption|]); reflexivity].
        pose proof (chunks_nonneg (n - (tot + chunk (n - tot) (off + tot))) (off + (tot + chunk (n - tot) (off + tot)))). lia.
    + replace tot with n in * by lia. unfold writei_step. rewrite Z.ltb_irrefl. apply wp_ret.
      exists n, V', dl, l', s1. pose proof (chunks_nonneg (n - n) (off + n)).
      split; [reflexivity|]. split; [reflexivity|]. split; [exact W|]. split; [lia | intros; lia].
  - exists 0, V, [], l, s. rewrite Z.add_0_r, Z.sub_0_r. split; [|split; [reflexivity|split; [|split; [cbn; lia|reflexivity]]]].
    + f_equal. destruct src as [va|bs]; cbn in *; [unfold u64; rewrite Z.add_0_r, Z.mod_small by lia|rewrite drop_0]; reflexivity.
    + constructor; [lia | apply written_none; assumption | apply same_but_refl |]. pose proof (inds_len (f_inode s ip)).
      pose proof (chunks_nonneg n off). eapply tx_weaken; [exact X | intros b Hb; cbn [app]; apply elem_of_app; auto | cbn [app]; rewrite length_app; lia].
Qed.

(** ** writei *)

Record writei_post (ip : nat) (f : Z -> byte) (off n : Z) (V : Z -> mem) (T : list Z) (s : F)
    (tot : Z) (V' : Z -> mem) (dl : list Z) (l' : lstate S) (s' : F) : Prop := {
  wp_tot : 0 <= tot <= n /\ (tot < n -> disk_full sb V');
  wp_file : exists x1, written sb f off tot V (f_inode s ip) V' x1 /\
    f_inode s' ip = set_isize (Z.max (i_size (f_inode s ip)) (off + tot)) x1;
  wp_mapped : mapped V' (f_inode s' ip);
  wp_stored : inode_stored sb V' (f_inode s' ip);
  wp_same : same_but ip s s';
  wp_tx : ftx V' (dl ++ inds (f_inode s' ip) ++ T) ∅ l';
  wp_len : Z.of_nat (length dl) <= chunks n off
}.

Lemma set_isize_id x : x = set_isize (i_size x) x.
Proof. destruct x. reflexivity. Qed.

(** What [writei] does after its loop. *)
Lemma writei_tail_wp ip f off n V T s tot V1 dl l1 s1 (Q : Z -> F -> Prop) :
  let x := f_inode s ip in
  f_sb s = sb -> i_dev x = dev -> 0 <= i_inum x < sb_ninodes sb -> inode_typed x -> mapped V x ->
  IBLOCK (i_inum x) sb ∈ T -> 0 <= off <= i_size x -> off + n <= MAXBYTES ->
  writing ip f off n V T s tot V1 dl l1 s1 -> (tot < n -> disk_full sb V1) -> Z.of_nat (length dl) <= chunks n off ->
  (forall V' l' s', writei_post ip f off n V T s tot V' dl l' s' -> Q tot (set_log l' s')) ->
  wp (x ← the_inode ip;
      when (off + tot >? i_size x) (modify (upd_inode ip (set_isize (off + tot))));;
      iupdate ip;;
      mret (i32 tot)) Q (set_log l1 s1).
Proof.
  intros x Hsb Hd Hi Hty Hmap HT Hoff Hlim [Ht W HS X] Hfull Hlen HQ. pose proof (size_pos start size sb G) as Hsz.
  set (x1 := f_inode s1 ip) in *. destruct (wr_fields _ _ _ _ _ _ _ _ W) as [a Ex1]. fold x in W, Ex1.
  assert (Esz : i_size x1 = i_size x) by (rewrite Ex1; reflexivity).
  unfold the_inode. apply wp_bind, wp_gets. cbn [f_inode set_log]. fold x1. rewrite Esz. apply wp_bind.
  pose proof (written_mapped sb f off tot V x V1 x1 Hmap W ltac:(lia) ltac:(lia) ltac:(lia)) as Hmap1.
  set (sz := Z.max (i_size x) (off + tot)) in *.
  assert (Hgo : forall s2, f_inode s2 ip = set_isize sz x1 -> same_but ip s s2 -> wp (iupdate ip;; mret (i32 tot)) Q (set_log l1 s2)).
  { intros s2 E2 HS2. destruct (HS2) as (Esb & _).
    assert (Hin : i_inum (f_inode s2 ip) = i_inum x) by (rewrite E2, Ex1; reflexivity).
    apply (rule_iupdate ip _ Q V1 (dl ++ inds x1 ++ T) l1 s2); rewrite ?Hin; auto; [congruence | rewrite E2, Ex1; exact Hd | rewrite !elem_of_app; auto |].
    intros l2 X2. apply wp_ret. rewrite i32_small by (unfold MAXBYTES in *; change (MAXFILE * BSIZE) with 274432 in *; lia).
    set (V2 := <[_ := _]> V1) in X2. pose proof (iblock_range start size sb G _ Hi) as (Hib & _).
    pose proof (written_inode start size sb G f off tot V x V1 x1 (IBLOCK (i_inum x) sb) (put_dinode (V1 (IBLOCK (i_inum x) sb)) (dinode_off (i_inum x)) (f_inode s2 ip)) W ltac:(lia) : written sb f off tot V x V2 x1) as W2.
    apply (HQ V2 l2 s2). constructor; auto.
    - split; [lia|]. intros Hlt b Hb. unfold V2. rewrite (put_alloc start size sb G) by (auto; lia). apply Hfull; assumption.
    - exists x1. auto.
    - rewrite E2. exact (written_mapped sb f off tot V x V2 x1 Hmap W2 ltac:(lia) ltac:(lia) ltac:(lia)).
    - intros y. rewrite Hin. unfold V2. rewrite fn_lookup_insert. apply get_put_dinode. rewrite E2.
      destruct (written_typed start size sb G _ _ _ _ _ _ _ Hty W2). constructor; auto. cbn [i_size set_isize].
      destruct Hmap1 as [Hm _]. cbn [i_size set_isize] in Hm. unfold MAXBYTES in *. change (MAXFILE * BSIZE) with 274432 in *. lia.
    - rewrite E2. exact X2. }
  destruct (Z.gtb_spec (off + tot) (i_size x)) as [Hgt|Hle].
  - apply wp_modify. change (upd_inode ip ?g (set_log l1 s1)) with (set_log l1 (upd_inode ip g s1)). apply Hgo.
    + cbn. rewrite fn_lookup_insert. fold x1. f_equal. unfold sz. lia.
    + apply (same_but_trans _ _ _ _ HS). apply same_but_upd.
  - apply wp_ret. apply Hgo; [|exact HS]. fold x1. replace sz with (i_size x1) by lia. apply set_isize_id.
Qed.

Lemma writei_wp ip f src off n V T l s (Q : Z -> F -> Prop) :
  let x := f_inode s ip in
  f_sb s = sb -> i_dev x = dev -> 0 <= i_inum x < sb_ninodes sb -> inode_typed x -> inode_ok sb V x -> mapped V x -> meta_used V sb ->
  (forall b, b ∈ bitmaps sb -> b ∈ T) -> IBLOCK (i_inum x) sb ∈ T -> Z.of_nat (length T) + chunks n off + 2 < size - 1 ->
  0 <= off <= i_size x -> 0 <= n -> off + n <= MAXBYTES -> src_ok src n f (f_user s) -> ftx V T ∅ l ->
  (forall tot V' dl l' s', writei_post ip f off n V T s tot V' dl l' s' -> Q tot (set_log l' s')) ->
  wp (writei ip src off n) Q (set_log l s).
Proof.
  intros x Hsb Hd Hi Hty OK Hmap HM HT HTi Hroom Hoff Hn Hlim Hsrc X HQ.
  assert (Hlim' : off + n <= 274432) by exact Hlim.
  unfold writei. apply wp_bind. unfold the_inode at 1. apply wp_gets. cbn [f_inode set_log]. fold x.
  rewrite (u32_small (off + n)) by lia. replace ((off >? i_size x) || (off + n <? off)) with false by lia.
  fold MAXBYTES. replace (off + n >? MAXBYTES) with false by lia.
  pose proof (chunks_le n off Hn). pose proof (Z.div_pos n BSIZE Hn eq_refl).
  apply wp_bind. eapply wp_mono; [apply (writei_loop_wp ip f src off n V T l s); auto; lia|].
  intros [t o'] s' (tot & V1 & dl & l1 & s1 & Er & -> & W & Hlen & Hfull). injection Er as -> ->.
  eapply writei_tail_wp; eauto.
Qed.

(** The arguments [writei] rejects, before it does anything. *)
Lemma writei_rejects ip src off n (s : F) :
  0 <= off < 2 ^ 32 -> 0 <= n < 2 ^ 32 -> i_size (f_inode s ip) < off \/ MAXBYTES < off + n ->
  writei ip src off n s = Ret (-1) s.
Proof.
  intros Hoff Hn Hbad. unfold writei, the_inode, gets, mbind, M_bind. cbv beta iota. fold MAXBYTES.
  destruct ((off >? i_size (f_inode s ip)) || (u32 (off + n) <? off)) eqn:E; [reflexivity|].
  replace (u32 (off + n) >? MAXBYTES) with true; [reflexivity|]. symmetry. revert E. unfold u32. change MAXBYTES with 274432 in *.
  intros E. apply Z.gtb_lt. zdiv.
Qed.
End Writei.
