(* ===== verification/FsAtomic.v ===== *)
(** * Crash-safe writes: one transaction of filewrite

    The statements of [FsWrite] hold for disks that agree outside of the log;
    successive writes compose; and a write bracketed by [begin_op] and
    [end_op] takes effect as a whole wherever the machine stops. *)

From S2P Require Import Prelude Memory FsDefs BufCache Bio Log LogCrash LogTx UserMem Fs FsTx FsBlocks FsFile FsWrite.

Section Agree.
Context (start size : Z) (sb : superblock) (G : geometry start size sb).

(** The same contents, as far as the file system can see. *)
Definition agree (V V' : Z -> mem) : Prop := forall blk, ~ in_log start size blk -> V blk ≡ V' blk.

Lemma agree_sym V V' : agree V V' -> agree V' V.
Proof. intros H blk Hb. symmetry. auto. Qed.
Lemma agree_trans V V1 V2 : agree V V1 -> agree V1 V2 -> agree V V2.
Proof. intros H1 H2 blk Hb. rewrite (H1 blk Hb). auto. Qed.

Section Two.
Context (V V' : Z -> mem) (E : agree V V').

Lemma agree_alloc b : 0 <= b < sb_size sb -> alloc V' sb b = alloc V sb b.
Proof.
  intros Hb. symmetry. apply bit_set_block; [apply E, (bblock_range start size sb G b); lia|]. apply Z.mod_pos_bound. reflexivity.
Qed.

Lemma agree_meta : meta_used V sb -> meta_used V' sb.
Proof. intros HM b Hb. pose proof (size_pos start size sb G). rewrite agree_alloc by lia. auto. Qed.

Lemma agree_full : disk_full sb V -> disk_full sb V'.
Proof. intros HF b Hb. rewrite agree_alloc by exact Hb. auto. Qed.

Context (x : inode) (OK : inode_ok sb V x).

Lemma agree_fblock bn : 0 <= bn < MAXFILE -> fblock V' x bn = fblock V x bn.
Proof.
  intros Hb. unfold fblock. destruct (Z.ltb_spec bn NDIRECT); [reflexivity|].
  destruct (Z.eqb_spec (i_addrs x NDIRECT) 0) as [|Hn]; [reflexivity|].
  pose proof (OK MAXFILE ltac:(lia)) as Hi. rewrite islot_ind in Hi. destruct (Hi Hn) as (Hr & _).
  destruct (data_range start size sb G _ Hr) as (_ & Hout & _). symmetry. apply load32_block; [auto | lia |].
  change BSIZE with 1024. change MAXFILE with 268 in *. change NDIRECT with 12 in *. lia.
Qed.

Lemma agree_islot j : 0 <= j <= MAXFILE -> islot V' x j = islot V x j.
Proof. intros Hj. unfold islot. destruct (Z.eqb_spec j MAXFILE); [reflexivity|]. apply agree_fblock. lia. Qed.

Lemma agree_fbyte off : 0 <= off < MAXBYTES -> fbyte V' x off = fbyte V x off.
Proof.
  intros Hoff. assert (Hbn : 0 <= off / BSIZE < MAXFILE) by (unfold MAXBYTES in Hoff; fsdiv).
  unfold fbyte. rewrite agree_fblock by exact Hbn. destruct (Z.eqb_spec (fblock V x (off / BSIZE)) 0) as [|Hn]; [reflexivity|].
  destruct (block_data sb V x _ OK Hbn Hn) as (Hr & _). symmetry. apply E; [apply (data_range start size sb G _ Hr)|].
  apply Z.mod_pos_bound. reflexivity.
Qed.

Lemma agree_inode_ok : inode_ok sb V' x.
Proof.
  intros j Hj. rewrite agree_islot by exact Hj. intros Hn. destruct (OK j Hj Hn) as (H1 & H2 & H3).
  pose proof (size_pos start size sb G). split; [exact H1|]. split; [rewrite agree_alloc by lia; exact H2|].
  intros j' Hj'. rewrite agree_islot by exact Hj'. auto.
Qed.

Lemma agree_mapped : mapped V x -> mapped V' x.
Proof.
  intros [Hsz Hm]. split; [exact Hsz|]. intros off Hoff. rewrite agree_fblock; [auto|]. unfold MAXBYTES in *. fsdiv.
Qed.

Lemma agree_stored : 0 <= i_inum x < sb_ninodes sb -> inode_stored sb V x -> inode_stored sb V' x.
Proof.
  intros Hi HS y. destruct (iblock_range start size sb G _ Hi) as (_ & _ & Hout). specialize (E _ Hout).
  assert (Ha : 0 <= dinode_off (i_inum x) /\ dinode_off (i_inum x) + 64 <= BSIZE).
  { unfold dinode_off. change DINODE_SIZE with 64. fsdiv. }
  set (a := dinode_off (i_inum x)) in *. set (m := V _) in *. set (m' := V' _) in *.
  assert (Hl : forall n p, 0 <= p -> p + Z.of_nat n <= 64 -> le_load n m' (a + p) = le_load n m (a + p)).
  { intros n p Hp Hn. apply le_load_ext. intros i Hi'. symmetry. apply E. lia. }
  destruct (HS y) as (S1 & S2 & S3 & S4 & S5 & S6). revert S1 S2 S3 S4 S5 S6. fold m a. unfold get_dinode. cbv zeta.
  cbn [i_type i_major i_minor i_nlink i_size i_addrs]. unfold load16, load32.
  intros S1 S2 S3 S4 S5 S6. pose proof (Hl 2%nat 0 ltac:(lia) ltac:(cbn; lia)) as H0. rewrite Z.add_0_r in H0.
  rewrite H0, !Hl by (cbn; lia). repeat split; auto. intros j Hj. rewrite <- (S6 j Hj).
  replace ((0 <=? j) && (j <=? NDIRECT)) with true by lia. rewrite <- !Z.add_assoc. apply Hl; change NDIRECT with 12 in *; cbn; lia.
Qed.
End Two.

(** [written] on disks that agree. *)
Lemma written_agree f off tot V x V1 x1 V2 : written sb f off tot V x V1 x1 -> agree V1 V2 -> 0 <= off -> off + tot <= MAXBYTES ->
  written sb f off tot V x V2 x1.
Proof.
  intros W E Hoff Hlim. pose proof W as []. constructor; auto.
  - exact (agree_inode_ok V1 V2 E x1 wr_ok).
  - exact (agree_meta V1 V2 E wr_meta).
  - intros i Hi. rewrite (agree_fbyte V1 V2 E x1 wr_ok) by exact Hi. auto.
  - intros i Hi. rewrite (agree_fblock V1 V2 E x1 wr_ok) by (unfold MAXBYTES in *; fsdiv). auto.
  - intros b Hb Ha Hne. rewrite <- (E b) by (apply (data_range start size sb G); exact Hb). auto.
  - intros b Hb Ha. rewrite (agree_alloc V1 V2 E) by exact Hb. auto.
  - intros j Hj Hn. rewrite (agree_islot V1 V2 E x1 wr_ok) by exact Hj. auto.
  - intros j Hj. rewrite (agree_islot V1 V2 E x1 wr_ok) by exact Hj. auto.
Qed.

Lemma written_agree_l f off tot V0 V x V1 x1 : agree V0 V -> inode_ok sb V0 x -> written sb f off tot V x V1 x1 ->
  written sb f off tot V0 x V1 x1.
Proof.
  intros E OK W. pose proof W as []. pose proof (size_pos start size sb G) as Hsz. constructor; auto.
  - intros i Hi. rewrite wr_bytes, (agree_fbyte V0 V E x OK) by exact Hi. reflexivity.
  - intros b Hb Ha Hne. rewrite wr_data; [symmetry; apply E, (data_range start size sb G); exact Hb | exact Hb | |].
    + rewrite (agree_alloc V0 V E) by lia. exact Ha.
    + intros j Hj. rewrite (agree_islot V0 V E x OK) by exact Hj. auto.
  - intros b Hb Ha. apply wr_alloc; [exact Hb|]. rewrite (agree_alloc V0 V E) by exact Hb. exact Ha.
  - intros j Hj Hn. rewrite <- (agree_islot V0 V E x OK) in * by exact Hj. auto.
  - intros j Hj H0 Hn. rewrite <- (agree_alloc V0 V E).
    + apply wr_fresh; auto. rewrite (agree_islot V0 V E x OK) by exact Hj. exact H0.
    + destruct (wr_ok j Hj Hn) as (Hr & _). lia.
Qed.

(** A write followed by a write of what comes next. *)
Lemma written_trans f g off t t' V x V1 x1 z V2 x2 :
  written sb f off t V x V1 x1 -> written sb g (off + t) t' V1 (set_isize z x1) V2 x2 ->
  (forall i, 0 <= i < t' -> g i = f (t + i)) -> 0 <= off -> 0 <= t -> 0 <= t' -> off + t + t' <= MAXBYTES ->
  written sb f off (t + t') V x V2 (set_isize (i_size x) x2).
Proof.
  intros W1 W2 Hg Hoff Ht Ht' Hlim. pose proof (size_pos start size sb G) as Hsz. pose proof W1 as []. pose proof W2 as [].
  change (islot V1 (set_isize z x1)) with (islot V1 x1) in *.
  constructor; auto.
  - intros i Hi. change (fbyte V2 (set_isize _ x2)) with (fbyte V2 x2). rewrite wr_bytes0 by exact Hi.
    change (fbyte V1 (set_isize _ x1)) with (fbyte V1 x1). rewrite wr_bytes by exact Hi.
    destruct ((off + t <=? i) && (i <? off + t + t')) eqn:E1.
    + replace (_ && _) with true by lia. rewrite Hg by lia. f_equal. lia.
    + destruct ((off <=? i) && (i <? off + t)) eqn:E2; [replace (_ && _) with true by lia | replace (_ && _) with false by lia]; reflexivity.
  - intros i Hi. change (fblock V2 (set_isize _ x2)) with (fblock V2 x2).
    assert (Hbn : 0 <= i / BSIZE < MAXFILE) by (unfold MAXBYTES in *; fsdiv).
    destruct (decide (i < off + t)); [|apply wr_blocks0; lia].
    rewrite <- islot_block by exact Hbn. pose proof (wr_blocks i ltac:(lia)) as Hn. rewrite <- islot_block in Hn by exact Hbn.
    rewrite wr_slot0; auto; lia.
  - intros b Hb Ha Hne. transitivity (V1 b); [apply wr_data0 | apply wr_data]; auto; [apply wr_alloc; [lia | exact Ha]|].
    intros j Hj. apply (written_apart start size sb G f off t V x V1 x1 b); auto; lia.
  - intros j Hj Hn. change (islot V2 (set_isize _ x2)) with (islot V2 x2). rewrite wr_slot0, wr_slot; auto. rewrite wr_slot; auto.
  - intros j Hj H0. change (islot V2 (set_isize _ x2)) with (islot V2 x2). intros Hn.
    destruct (decide (islot V1 x1 j = 0)) as [E1|E1]; [|rewrite wr_slot0 in * by assumption; auto].
    specialize (wr_fresh0 j Hj E1 Hn). destruct (wr_ok0 j Hj Hn) as (Hr & _). destruct (alloc V sb (islot V2 x2 j)) eqn:Ea; [|reflexivity].
    rewrite wr_alloc in wr_fresh0 by (auto; lia). discriminate.
  - destruct wr_fields as [a ->], wr_fields0 as [a' ->]. exists a'. destruct x. reflexivity.
Qed.
End Agree.

(** ** Files between operations *)

Section Files.
Context (dev start size : Z) (sb : superblock) (G : geometry start size sb).

(** An inode in use, in memory and on disk, that nobody has locked. *)
Record file_ok (V : Z -> mem) (x : inode) : Prop := {
  fo_dev : i_dev x = dev;
  fo_inum : 0 <= i_inum x < sb_ninodes sb;
  fo_typed : inode_typed x;
  fo_ok : inode_ok sb V x;
  fo_mapped : mapped V x;
  fo_stored : inode_stored sb V x;
  fo_ref : 1 <= i_ref x;
  fo_locked : i_locked x = false;
  fo_valid : i_valid x = true
}.

(** The [tot] bytes [f] have been written at [off], and the size follows. *)
Definition file_written (f : Z -> byte) (off tot : Z) (V : Z -> mem) (x : inode) (V' : Z -> mem) (x' : inode) : Prop :=
  (exists x1, written sb f off tot V x V' x1 /\ x' = set_isize (Z.max (i_size x) (off + tot)) x1) /\ file_ok V' x'.

Lemma file_written_none f off V x :
  file_ok V x -> meta_used V sb -> off <= i_size x -> file_written f off 0 V x V x.
Proof.
  intros OK HM Hoff. split; [|exact OK]. exists x. split; [apply written_none; [apply OK | exact HM]|].
  replace (Z.max (i_size x) (off + 0)) with (i_size x) by lia. apply set_isize_id.
Qed.

Lemma file_written_trans f g off t t' V x V1 x1 V2 x2 :
  file_written f off t V x V1 x1 -> file_written g (off + t) t' V1 x1 V2 x2 ->
  (forall i, 0 <= i < t' -> g i = f (t + i)) -> 0 <= off -> 0 <= t -> 0 <= t' -> off + t + t' <= MAXBYTES ->
  file_written f off (t + t') V x V2 x2.
Proof.
  intros [(y1 & W1 & ->) _] [(y2 & W2 & ->) OK2] Hg Hoff Ht Ht' Hlim. split; [|exact OK2].
  exists (set_isize (i_size x) y2). split; [exact (written_trans start size sb G f g off t t' V x V1 y1 _ V2 y2 W1 W2 Hg Hoff Ht Ht' Hlim)|].
  cbn [i_size set_isize]. destruct y2. unfold set_isize. cbn. f_equal. lia.
Qed.

Lemma file_ok_agree V V' x : agree start size V V' -> file_ok V x -> file_ok V' x.
Proof.
  intros E []. constructor; auto.
  - exact (agree_inode_ok start size sb G V V' E x fo_ok0).
  - exact (agree_mapped start size sb G V V' E x fo_ok0 fo_mapped0).
  - exact (agree_stored start size sb G V V' E x fo_inum0 fo_stored0).
Qed.

Lemma file_written_agree f off tot V x V1 x1 V2 : agree start size V1 V2 -> 0 <= off -> off + tot <= MAXBYTES ->
  file_written f off tot V x V1 x1 -> file_written f off tot V x V2 x1.
Proof.
  intros E Hoff Hlim [(y & W & Ex) OK]. split; [|exact (file_ok_agree V1 V2 x1 E OK)].
  exists y. split; [exact (written_agree start size sb G f off tot V x V1 y V2 W E Hoff Hlim) | exact Ex].
Qed.

Lemma set_ilocked_fields b x : i_locked x = b -> set_ilocked b x = x.
Proof. destruct x. cbn. intros ->. reflexivity. Qed.

(** The effect of [writei] on the locked inode, seen after [iunlock]. *)
Lemma file_written_unlock f off tot V x V' x1 x' :
  file_ok V x -> written sb f off tot V (set_ilocked true x) V' x1 ->
  x' = set_isize (Z.max (i_size x) (off + tot)) x1 -> mapped V' x' -> inode_stored sb V' x' ->
  file_written f off tot V x V' (set_ilocked false x').
Proof.
  intros [] W Ex' Hmap Hst. destruct (wr_fields _ _ _ _ _ _ _ _ W) as [a Ex1].
  assert (Hty : inode_typed (set_ilocked true x)) by (destruct fo_typed0; constructor; assumption).
  pose proof (written_typed start size sb G _ _ _ _ _ _ _ Hty W) as Hty1.
  assert (Ex1' : set_ilocked false x1 = set_iaddrs a x) by (rewrite Ex1; destruct x; cbn in *; subst; reflexivity).
  split.
  - exists (set_ilocked false x1). split; [|subst x'; destruct x1; reflexivity].
    pose proof W as []. constructor; try assumption. exists a. exact Ex1'.
  - assert (Ei : forall A (p : inode -> A), (forall b y, p (set_ilocked b y) = p y) -> (forall z y, p (set_isize z y) = p y) ->
      (forall b y, p (set_iaddrs b y) = p y) -> p (set_ilocked false x') = p x).
    { intros A p P1 P2 P3. rewrite P1, Ex', P2, Ex1, P3, P1. reflexivity. }
    constructor; try assumption; try (rewrite Ei by reflexivity; assumption); try reflexivity.
    + destruct Hty1. subst x'. constructor; try assumption. destruct Hmap as [Hm _]. cbn in Hm |- *. change MAXBYTES with 274432 in Hm. lia.
    + subst x'. apply W.
Qed.
End Files.

(** ** The brackets of an operation *)

Section Brackets.
Context {S U : Type} `{BC : BufCache S} `{UM : UserMem U}.
Context (dev : Z) (Hdev : u32 dev = dev) (start size : Z).
Context (Hgeo : 0 <= start /\ 0 < size <= LOGSIZE /\ start + size < 2 ^ 31).
Local Abbreviation F := (fstate S U).

Lemma begin_op_fs c (Q : unit -> F -> Prop) s :
  idle dev start size (f_log s) c -> 1 < size ->
  (forall l', tx dev start size (c_disk c) (c_writes c) 1 (c_view c) [] ∅ l' -> Q tt (set_log l' s)) ->
  wp (log_ begin_op) Q s.
Proof.
  intros Hi Hsz HQ. apply wp_zoom. eapply wp_mono; [exact (begin_op_wp dev start size _ c Hi)|].
  intros [] l' [X Ho]. apply HQ. eapply open_tx_tx; eauto. cbn. lia.
Qed.

(** Between operations the file system can be read. *)
Lemma idle_tx (l : lstate S) c : idle dev start size l c -> 1 < size ->
  tx dev start size (c_disk c) (c_writes c) 0 (c_view c) [] ∅ l.
Proof.
  intros [R Ed Es Esz Hl Ho Hc Hn Hh Hr] Hsz. split; [cbn; lia|]. exists c, []. constructor; auto.
  - intros i b Hb. discriminate.
  - apply NoDup_nil_2.
  - intros b Hb. destruct (not_elem_of_nil _ Hb).
  - intros k. rewrite Hr, lookup_empty. unfold refs_of. rewrite !count_false; [reflexivity | rewrite map_img_empty; set_solver | apply not_elem_of_nil].
  - intros k _. apply (co_clean _ (rel_ok _ _ _ R)). rewrite Hr. apply lookup_empty.
Qed.

Lemma ilock_fs ip (Q : unit -> F -> Prop) s :
  1 <= i_ref (f_inode s ip) -> i_locked (f_inode s ip) = false -> i_valid (f_inode s ip) = true ->
  Q tt (upd_inode ip (set_ilocked true) s) -> wp (ilock (Some ip)) Q s.
Proof.
  intros Hr Hl Hv HQ. unfold ilock, the_inode. apply wp_bind, wp_gets, wp_bind, wp_panic_if; [lia|].
  apply wp_bind. unfold wp at 1, isleep_lock. rewrite Hl. apply wp_bind, wp_gets. cbn [f_inode upd_inode].
  rewrite fn_lookup_insert. cbn [i_valid set_ilocked]. rewrite Hv. apply wp_when; [discriminate|]. intros _. exact HQ.
Qed.

Lemma iunlock_fs ip (Q : unit -> F -> Prop) s :
  1 <= i_ref (f_inode s ip) -> i_locked (f_inode s ip) = true ->
  Q tt (upd_inode ip (set_ilocked false) s) -> wp (iunlock (Some ip)) Q s.
Proof.
  intros Hr Hl HQ. unfold iunlock, the_inode. apply wp_bind, wp_gets, wp_bind, wp_panic_if; [rewrite Hl; cbn; lia|].
  apply wp_modify. exact HQ.
Qed.

Lemma end_op_fs V D ws V' T l (Q : unit -> F -> Prop) s :
  tx dev start size D ws 1 V' T ∅ l -> head_is (D start) [] -> agree start size D V ->
  (forall l' c' ws', idle dev start size l' c' -> quiet start size V' c' -> c_writes c' = ws ++ ws' ->
     c_disk c' = disk_after D ws' -> atomic_writes start size V V' D ws' -> Q tt (set_log l' s)) ->
  wp (log_ end_op) Q (set_log l s).
Proof.
  intros X Hh HV HQ. destruct (tx_open_tx dev Hdev start size Hgeo D ws 1 V' T l ltac:(lia) X) as (c & bs & X' & Ev & Ho & _ & _ & Hlen).
  apply wp_zoom. cbn [f_log set_log].
  eapply wp_mono; [exact (end_op_wp dev Hdev start size Hgeo V D ws l c bs X' Ho Hlen Hh HV)|].
  intros [] l' (c' & ws' & Hi & Hq & Ew & Ed & Ha). rewrite Ev in Hq, Ha. exact (HQ l' c' ws' Hi Hq Ew Ed Ha).
Qed.
End Brackets.
