(* ===== verification/FsSpec.v ===== *)
(** * What the file system promises

    The properties of the block allocator, of reading files and of the
    inodes on disk, stated for the functions of kernel/fs.c inside a
    transaction, and a small disk on which they are exercised. *)

From S2P Require Import Prelude Memory FsDefs BufCache Bio Log LogCrash LogTx UserMem Fs FsTx FsBlocks FsFile FsWrite FsAtomic.

Lemma set_log_id {S U} (s : fstate S U) : s = set_log (f_log s) s.
Proof. destruct s. reflexivity. Qed.

(** ** A disk with one empty file *)

Section Demo.
Definition demo_inode : inode := Inode 1 1 1 false true T_FILE 0 0 1 0 (fun _ => 0).

(** The bits of the 46 blocks before the data are set; inode 1 is the file. *)
Definition demo_disk : Z -> mem := fun blk =>
  if blk =? 45 then (fun i => if i <? 5 then xff else if i =? 5 then x3f else x00)
  else if blk =? 32 then put_dinode zeroes (dinode_off 1) demo_inode
  else zeroes.

Lemma demo_geometry : geometry 2 30 sb0.
Proof. constructor; repeat split; vm_compute; congruence. Qed.

Lemma demo_meta : meta_used demo_disk sb0.
Proof.
  assert (Hb : forallb (alloc demo_disk sb0) (seqZ 0 46) = true) by (vm_compute; reflexivity).
  intros b Hr. rewrite forallb_forall in Hb. apply Hb. apply list_elem_of_In, elem_of_seqZ. exact Hr.
Qed.

Lemma demo_slots V j : islot V demo_inode j = 0.
Proof. unfold islot, fblock. cbn. repeat case_match; reflexivity. Qed.

Lemma demo_typed : inode_typed demo_inode.
Proof. constructor; unfold short; cbn; unfold T_FILE; lia. Qed.

Lemma demo_file_ok : file_ok 1 sb0 demo_disk demo_inode.
Proof.
  constructor; try reflexivity; [cbn; lia | exact demo_typed | | |].
  - intros j _ Hn. rewrite demo_slots in Hn. congruence.
  - split; [cbn; change MAXBYTES with 274432; lia|]. cbn. lia.
  - intros y. apply get_put_dinode. exact demo_typed.
Qed.

(** The machine booted on it, and an open transaction. *)
Lemma demo_boot : exists (l : lstate bstate) c, idle 1 2 30 l c /\ quiet 2 30 demo_disk c.
Proof. apply boot_disk. split; [reflexivity|]. intros i b Hb. discriminate. Qed.

Definition demo_fstate (l : lstate bstate) (u : Z -> byte) : fstate bstate (Z -> byte) :=
  FState l sb0 false (fun _ => demo_inode) u 0.

Lemma demo_open : exists (l : lstate bstate) V D ws,
  tx 1 2 30 D ws 1 V (IBLOCK 1 sb0 :: bitmaps sb0) ∅ l /\ agree 2 30 demo_disk V.
Proof.
  destruct demo_boot as (l & c & Hi & Hq).
  destruct (proj1 (wp_run _ _ _) (begin_op_wp 1 2 30 l c Hi)) as ([] & l1 & _ & X & Ho).
  exists l1, (c_view c), (c_disk c), (c_writes c). split.
  - eapply tx_weaken with (T := []); [|intros b Hb; destruct (not_elem_of_nil _ Hb) | vm_compute; reflexivity].
    eapply open_tx_tx; eauto; [unfold LOGSIZE, MAXOPBLOCKS; lia | cbn; lia].
  - intros blk Hb. symmetry. apply (q_data _ _ _ _ Hq blk Hb).
Qed.
End Demo.

(** ** Properties *)

(** [balloc] in a transaction returns 0 exactly when every block is in
    use, and otherwise a free data block, which it has zeroed and marked; no
    other mark and no other data block changes. *)
Theorem balloc_correct {S U} `{BC : BufCache S} dev start size sb D ws o V T (s : fstate S U) :
  u32 dev = dev -> geometry start size sb -> 1 <= o -> f_sb s = sb -> tx dev start size D ws o V T ∅ (f_log s) ->
  meta_used V sb -> (forall x, x ∈ bitmaps sb -> x ∈ T) -> Z.of_nat (length T) + 1 < size - 1 ->
  wp (balloc dev) (fun b s' => exists l' V', s' = set_log l' s /\
    (b = 0 /\ disk_full sb V /\ V' = V /\ tx dev start size D ws o V T ∅ l' \/
     data_start sb <= b < sb_size sb /\ alloc V sb b = false /\ V' b ≡ zeroes /\
     (forall x, 0 <= x < sb_size sb -> alloc V' sb x = (b =? x) || alloc V sb x) /\
     (forall x, data_start sb <= x -> x <> b -> V' x = V x) /\
     tx dev start size D ws o V' (b :: T) ∅ l')) s.
Proof.
  intros Hdev G Ho Hsb X HM HT Hlen. rewrite (set_log_id s). apply wp_last.
  eapply rule_balloc; [exact Hdev | exact G | exact Ho | exact Hsb | exact X | apply held_none | exact HM | exact HT | exact Hlen | |].
  - intros Hfull l' X'. apply wp_ret. exists l', V. split; [reflexivity|]. left. auto.
  - intros r l' Hr Hf X'. apply wp_ret. exists l', (allocated sb r V). split; [reflexivity|]. right.
    split; [exact Hr|]. split; [exact Hf|]. split; [apply allocated_new|].
    split; [intros x Hx; apply (alloc_allocated start size sb G); lia|].
    split; [intros x Hx Hne; apply (allocated_other start size sb G); auto; lia | exact X'].
Qed.

Lemma balloc_correct_witness : exists (s s' : fstate bstate (Z -> byte)) b,
  balloc 1 s = Ret b s' /\ 46 <= b < 2000.
Proof.
  destruct demo_open as (l & V & D & ws & X & E).
  destruct (proj1 (wp_run _ _ _) (balloc_correct 1 2 30 sb0 D ws 1 V _ (demo_fstate l zeroes) eq_refl demo_geometry
    ltac:(lia) eq_refl X (agree_meta 2 30 sb0 demo_geometry _ _ E demo_meta) ltac:(intros x Hx; right; exact Hx) ltac:(vm_compute; reflexivity)))
    as (b & s' & Er & l' & V' & _ & Hb).
  exists (demo_fstate l zeroes), s', b. split; [exact Er|]. destruct Hb as [(_ & Hfull & _)|[Hb _]]; [exfalso | exact Hb].
  assert (Hno : alloc demo_disk sb0 46 = false) by (vm_compute; reflexivity).
  rewrite <- (agree_alloc 2 30 sb0 demo_geometry _ _ E), Hfull in Hno; [discriminate | cbn; unfold FSSIZE; lia | cbn; unfold FSSIZE; lia].
Defined.


(** A disk whose inode 1 has its contents in block 50. *)
Definition demo_inode_at (type sz : Z) : inode := Inode 1 1 1 false true type 0 0 1 sz (<[0 := 50]> (fun _ => 0)).
Definition demo_disk_at (m : mem) : Z -> mem := fun blk =>
  if blk =? 45 then (fun i => if i <? 5 then xff else if i =? 5 then x3f else if i =? 6 then x04 else x00)
  else if blk =? 50 then m else zeroes.

Lemma demo_at_slots V type sz j : 0 <= j -> islot V (demo_inode_at type sz) j = if j =? 0 then 50 else 0.
Proof.
  intros Hj. unfold islot, fblock. cbn. destruct (Z.eqb_spec j MAXFILE) as [->|]; [reflexivity|].
  destruct (Z.ltb_spec j NDIRECT); [|destruct (Z.eqb_spec j 0); [change NDIRECT with 12 in *; lia | reflexivity]].
  destruct (Z.eqb_spec j 0) as [->|]; [reflexivity | apply fn_lookup_insert_ne; congruence].
Qed.

Lemma demo_at_ok m type sz : inode_ok sb0 (demo_disk_at m) (demo_inode_at type sz).
Proof.
  intros j Hj. rewrite demo_at_slots by lia. destruct (Z.eqb_spec j 0) as [->|]; [|congruence]. intros _.
  split; [cbn; unfold FSSIZE; change (data_start sb0) with 46; lia|]. split; [vm_compute; reflexivity|].
  intros j' Hj'. rewrite demo_at_slots by lia. destruct (Z.eqb_spec j' 0); [auto | discriminate].
Qed.

Lemma demo_at_mapped m type sz : 0 <= sz <= BSIZE -> mapped (demo_disk_at m) (demo_inode_at type sz).
Proof.
  intros Hsz. split; [cbn; change MAXBYTES with 274432; change BSIZE with 1024 in Hsz; lia|]. cbn [i_size demo_inode_at]. intros off Hoff.
  replace (off / BSIZE) with 0 by fsdiv. discriminate.
Qed.

Lemma demo_at_typed type sz : short type -> 0 <= sz < 2 ^ 32 -> inode_typed (demo_inode_at type sz).
Proof.
  intros Ht Hs. constructor; unfold short in *; cbn [demo_inode_at i_type i_major i_minor i_nlink i_size i_addrs]; try lia.
  intros j Hj. unfold insert, fn_insert. case_decide; lia.
Qed.

Lemma demo_at_meta m : meta_used (demo_disk_at m) sb0.
Proof.
  assert (Hb : forallb (alloc (demo_disk_at m) sb0) (seqZ 0 46) = true) by (vm_compute; reflexivity).
  intros b Hr. rewrite forallb_forall in Hb. apply Hb. apply list_elem_of_In, elem_of_seqZ. exact Hr.
Qed.

Lemma demo_at_boot m : exists (l : lstate bstate) c, idle 1 2 30 l c /\ agree 2 30 (demo_disk_at m) (c_view c).
Proof.
  destruct (boot_disk (demo_disk_at m)) as (l & c & Hi & Hq); [split; [reflexivity|]; intros i b Hb; discriminate|].
  exists l, c. split; [exact Hi|]. intros blk Hb. symmetry. apply (q_data _ _ _ _ Hq blk Hb).
Qed.

Definition hello : mem := put_bytes zeroes 0 [x68; x65; x6c; x6c; x6f].


(** The fields of an inode that live on disk. *)
Definition same_dinode (x y : inode) : Prop :=
  i_type x = i_type y /\ i_major x = i_major y /\ i_minor x = i_minor y /\ i_nlink x = i_nlink y /\
  i_size x = i_size y /\ forall j, 0 <= j <= NDIRECT -> i_addrs x j = i_addrs y j.

(** [ilock] of an entry whose inode is not in memory reads it. *)
Lemma ilock_reads {S U} `{BC : BufCache S} dev start size sb D ws o V T jp x l (s : fstate S U) (Q : unit -> fstate S U -> Prop) :
  let y := f_inode s jp in
  u32 dev = dev -> geometry start size sb -> f_sb s = sb -> tx dev start size D ws o V T ∅ l ->
  0 <= i_inum x < sb_ninodes sb -> inode_stored sb V x -> i_type x <> 0 ->
  i_dev y = dev -> i_inum y = i_inum x -> 1 <= i_ref y -> i_locked y = false -> i_valid y = false ->
  (forall l' s', same_but jp s s' -> same_dinode (f_inode s' jp) x -> i_locked (f_inode s' jp) = true -> i_valid (f_inode s' jp) = true ->
     i_ref (f_inode s' jp) = i_ref y -> i_dev (f_inode s' jp) = dev -> i_inum (f_inode s' jp) = i_inum x ->
     tx dev start size D ws o V T ∅ l' -> Q tt (set_log l' s')) ->
  wp (ilock (Some jp)) Q (set_log l s).
Proof.
  intros y Hdev G Hsb X Hi Hst Hty Hd Hin Href Hl Hv HQ.
  destruct (iblock_range start size sb G _ Hi) as (_ & H31 & _).
  unfold ilock, the_inode. apply wp_bind, wp_gets, wp_bind, wp_panic_if; [cbn [f_inode set_log]; fold y; lia|].
  apply wp_bind. unfold wp at 1, isleep_lock. cbn [f_inode set_log]. fold y. rewrite Hl.
  change (upd_inode jp (set_ilocked true) (set_log l s)) with (set_log l (upd_inode jp (set_ilocked true) s)).
  set (s1 := upd_inode jp (set_ilocked true) s).
  assert (E1 : f_inode s1 jp = set_ilocked true y) by apply fn_lookup_insert.
  apply wp_bind, wp_gets. cbn [f_inode set_log]. rewrite E1. cbn [i_valid i_dev i_inum set_ilocked]. rewrite Hv, Hd, Hin.
  apply wp_when; [intros _|discriminate]. apply wp_bind, wp_gets. change (f_sb (set_log l s1)) with (f_sb s). rewrite Hsb.
  eapply rule_fbread; [exact Hdev | exact (geo_ok start size sb G) | exact X | exact H31 | rewrite map_img_empty; set_solver | rewrite map_size_empty; lia |].
  intros bp l1 _ X1. eapply rule_fdata; [exact X1 | apply lookup_insert_eq |].
  apply wp_bind, wp_modify. set (g := get_dinode _ _).
  change (upd_inode jp g (set_log l1 s1)) with (set_log l1 (upd_inode jp g s1)).
  eapply rule_fbrelse; [exact (geo_ok start size sb G) | exact X1 | apply lookup_insert_eq |].
  intros l2 X2. rewrite delete_insert_id in X2 by apply lookup_empty. apply wp_bind, wp_modify.
  set (s2 := upd_inode jp (set_ivalid true) (upd_inode jp g s1)).
  change (upd_inode jp (set_ivalid true) (set_log l2 (upd_inode jp g s1))) with (set_log l2 s2).
  assert (E2 : f_inode s2 jp = set_ivalid true (g (set_ilocked true y))).
  { unfold s2. cbn [upd_inode f_inode]. rewrite !fn_lookup_insert. fold s1. rewrite E1. reflexivity. }
  destruct (Hst (set_ilocked true y)) as (S1 & S2 & S3 & S4 & S5 & S6). fold g in S1, S2, S3, S4, S5, S6.
  apply wp_bind, wp_gets. cbn [f_inode set_log]. rewrite E2.
  apply wp_panic_if; [change (i_type (set_ivalid true ?z)) with (i_type z); rewrite S1; lia|].
  apply HQ; rewrite ?E2; auto.
  - apply (same_but_trans jp s s1); [apply same_but_upd|]. apply (same_but_trans jp s1 (upd_inode jp g s1)); apply same_but_upd.
  - repeat split; assumption.
Qed.

(** An inode written to disk by [iupdate] is what a later [ilock] finds:
    every field of the in-memory inode survives the round trip through its
    64 bytes of the inode block, for any inode number. *)
Theorem iupdate_ilock {S U} `{BC : BufCache S} dev start size sb D ws o V T ip jp (s : fstate S U) :
  let x := f_inode s ip in let y := f_inode s jp in
  u32 dev = dev -> geometry start size sb -> 1 <= o -> f_sb s = sb -> tx dev start size D ws o V T ∅ (f_log s) ->
  i_dev x = dev -> 0 <= i_inum x < sb_ninodes sb -> inode_typed x -> i_type x <> 0 -> IBLOCK (i_inum x) sb ∈ T ->
  i_dev y = dev -> i_inum y = i_inum x -> 1 <= i_ref y -> i_locked y = false -> i_valid y = false ->
  wp (iupdate ip;; ilock (Some jp)) (fun _ s' => exists l' s1, s' = set_log l' s1 /\ same_but jp s s1 /\
    same_dinode (f_inode s1 jp) x /\ i_valid (f_inode s1 jp) = true /\ i_locked (f_inode s1 jp) = true) s.
Proof.
  intros x y Hdev G Ho Hsb X Hd Hi Hty Htp HT Hdy Hiy Hr Hl Hv. rewrite (set_log_id s).
  eapply rule_iupdate; [exact Hdev | exact G | exact Ho | exact Hsb | exact Hd | exact Hi | exact HT | exact X |].
  intros l1 X1. eapply (ilock_reads dev start size sb D ws o) with (x := x); [exact Hdev | exact G | exact Hsb | exact X1 | exact Hi | | auto.. |].
  - intros z. fold x. rewrite fn_lookup_insert. apply get_put_dinode. exact Hty.
  - intros l2 s2 Hsame Hdi Hlk Hvd _ _ _ _. exists l2, s2. auto.
Qed.

Lemma iupdate_ilock_witness : exists (s s' : fstate bstate (Z -> byte)),
  (iupdate 0;; ilock (Some 1%nat)) s = Ret tt s' /\ i_size (f_inode s' 1) = 5 /\ i_addrs (f_inode s' 1) 0 = 50.
Proof.
  destruct demo_open as (l & V & D & ws & X & _).
  set (s := FState l sb0 false (fun i => if (i =? 0)%nat then demo_inode_at T_FILE 5 else set_ivalid false demo_inode) zeroes 0 : fstate bstate (Z -> byte)).
  pose proof (demo_at_typed T_FILE 5 ltac:(vm_compute; split; congruence) ltac:(lia)) as Hty.
  destruct (proj1 (wp_run _ _ _) (iupdate_ilock 1 2 30 sb0 D ws 1 V _ 0 1 s eq_refl demo_geometry ltac:(lia) eq_refl X
    eq_refl ltac:(cbn; lia) Hty ltac:(cbn; discriminate) ltac:(left) eq_refl eq_refl ltac:(cbn; lia) eq_refl eq_refl))
    as ([] & s' & Er & l' & s1 & -> & _ & (_ & _ & _ & _ & H5 & H6) & _).
  exists s, (set_log l' s1). split; [exact Er|]. split; [exact H5|]. apply (H6 0). change NDIRECT with 12. lia.
Defined.
