(* ===== verification/FsDir.v ===== *)
(** * Names: paths, directory lookup and the inode table

    [skipelem] iterated takes a path apart; [dirlookup] finds the first entry
    of a directory with a name; [iget] finds or makes the table entry of an
    inode (kernel/fs.c). *)

From S2P Require Import Prelude Memory FsDefs BufCache Bio Log LogCrash LogTx UserMem Fs FsTx FsBlocks FsFile FsWrite FsAtomic FsSpec.

(** ** Paths *)

Module Path.

(** The components of a path: its maximal pieces without a slash. *)
Definition flush (cur : list byte) : list (list byte) := match cur with [] => [] | _ => [cur] end.
Fixpoint pieces (cur path : list byte) : list (list byte) :=
  match path with
  | [] => flush cur
  | c :: path' => if decide (c = SLASH) then flush cur ++ pieces [] path' else pieces (cur ++ [c]) path'
  end.
Definition components (path : list byte) : list (list byte) := pieces [] path.

(** What [namex] passes to [dirlookup]: the name after each [skipelem]. *)
Fixpoint elems (fuel : nat) (path : list byte) (name : mem) : option (list (list byte)) :=
  match fuel with
  | O => None
  | S fuel' =>
      match skipelem path name with
      | (None, _) => Some []
      | (Some path, name) => cons (CString.cstr (Z.to_nat DIRSIZ) name 0) <$> elems fuel' path name
      end
  end.

Lemma skip_slashes_pieces path : pieces [] (skip_slashes path) = pieces [] path.
Proof. induction path as [|c path IH]; [reflexivity|]. cbn. case_decide; [exact IH | cbn; rewrite decide_False by assumption; reflexivity]. Qed.

Lemma skip_slashes_len path : (length (skip_slashes path) <= length path)%nat.
Proof. induction path as [|c path IH]; cbn; [lia|]. case_decide; cbn; lia. Qed.

Lemma skip_slashes_head path c rest : skip_slashes path = c :: rest -> c <> SLASH.
Proof. induction path as [|d path IH]; cbn; [discriminate|]. case_decide; [exact IH|]. intros E. injection E as <- _. assumption. Qed.

Lemma skip_slashes_in path b : b ∈ skip_slashes path -> b ∈ path.
Proof. induction path as [|c path IH]; cbn; [auto|]. case_decide; [right; auto | auto]. Qed.

Lemma span_elem_spec path cur e r : span_elem path = (e, r) ->
  pieces cur path = flush (cur ++ e) ++ pieces [] r /\ path = e ++ r.
Proof.
  revert cur e r. induction path as [|c path IH]; intros cur e r; cbn.
  - intros E. injection E as <- <-. cbn. rewrite !app_nil_r. auto.
  - case_decide as Ec.
    + intros E. injection E as <- <-. rewrite app_nil_r. cbn. rewrite decide_True by exact Ec. auto.
    + destruct (span_elem path) as [e' r'] eqn:Es. intros E. injection E as <- <-.
      destruct (IH (cur ++ [c]) e' r' eq_refl) as [H1 H2]. rewrite H1, <- app_assoc. cbn. rewrite <- H2. auto.
Qed.

(** The name [skipelem] leaves. *)
Definition elem_name (elem : list byte) (name : mem) : mem :=
  if Z.of_nat (length elem) >=? DIRSIZ then put_bytes name 0 (take (Z.to_nat DIRSIZ) elem)
  else mset (put_bytes name 0 elem) (Z.of_nat (length elem)) x00.

Lemma elem_name_cstr elem name : x00 ∉ elem ->
  CString.cstr (Z.to_nat DIRSIZ) (elem_name elem name) 0 = take (Z.to_nat DIRSIZ) elem.
Proof.
  intros Hn. unfold elem_name. change (Z.to_nat DIRSIZ) with 14%nat. change DIRSIZ with 14.
  destruct (Z.geb_spec (Z.of_nat (length elem)) 14) as [Hge|Hlt].
  - assert (Hl : length (take 14 elem) = 14%nat) by (rewrite length_take; lia).
    apply CString.cstr_bytes; [intros Hi; apply Hn; rewrite <- (take_drop 14 elem); apply elem_of_app; auto | | lia | lia].
    intros i b Hi. pose proof (lookup_lt_Some _ _ _ Hi). rewrite put_bytes_in by lia. apply nth_lookup_Some. rewrite <- Hi. f_equal. lia.
  - rewrite take_ge by lia. apply CString.cstr_bytes; [exact Hn | | | lia].
    + intros i b Hi. pose proof (lookup_lt_Some _ _ _ Hi). rewrite mset_ne, put_bytes_in by lia. apply nth_lookup_Some. rewrite <- Hi. f_equal. lia.
    + intros _. apply mset_eq.
Qed.

Lemma elems_components fuel path name : x00 ∉ path -> (length path < fuel)%nat ->
  elems fuel path name = Some (take (Z.to_nat DIRSIZ) <$> components path).
Proof.
  revert path name. induction fuel as [|fuel IH]; intros path name Hn Hf; [lia|]. cbn [elems]. unfold components, skipelem.
  rewrite <- skip_slashes_pieces. pose proof (skip_slashes_len path) as Hl. pose proof (skip_slashes_head path) as Hh.
  assert (Hn' : x00 ∉ skip_slashes path) by (intros Hi; apply Hn, skip_slashes_in, Hi).
  destruct (skip_slashes path) as [|c rest]; [reflexivity|]. specialize (Hh c rest eq_refl).
  destruct (span_elem (c :: rest)) as [elem r] eqn:Es. destruct (span_elem_spec _ [] _ _ Es) as [Hp Hc]. rewrite Hp. cbn [app].
  assert (He : elem <> []).
  { intros ->. cbn in Es. rewrite decide_False in Es by exact Hh. destruct (span_elem rest). discriminate. }
  rewrite Hc in Hn', Hl. apply not_elem_of_app in Hn' as [Hne Hnr]. rewrite length_app in Hl.
  fold (elem_name elem name). pose proof (skip_slashes_len r) as Hlr. destruct elem as [|e0 elem]; [congruence|]. cbn [length] in Hl.
  rewrite IH; [|intros Hi; apply Hnr, skip_slashes_in, Hi | lia].
  cbn [fmap option_fmap option_map]. rewrite elem_name_cstr by exact Hne. unfold components. rewrite skip_slashes_pieces. reflexivity.
Qed.

(** Taking a path apart with [skipelem], as [namex] does, ends after at
    most one call more than the path has characters and yields the pieces of
    the path between slashes, empty ones left out and the others cut to
    DIRSIZ characters. *)
Theorem path_elements path name :
  x00 ∉ path -> elems (S (length path)) path name = Some (take (Z.to_nat DIRSIZ) <$> components path).
Proof. intros Hn. apply elems_components; [exact Hn | lia]. Qed.

Lemma path_elements_witness :
  elems 12 (String.list_byte_of_string "//usr///bin") zeroes =
  Some [String.list_byte_of_string "usr"; String.list_byte_of_string "bin"].
Proof.
  assert (Hn : x00 ∉ String.list_byte_of_string "//usr///bin") by (apply (bool_decide_unpack _); vm_compute; exact I).
  exact (path_elements (String.list_byte_of_string "//usr///bin") zeroes Hn).
Defined.
End Path.

(** ** The inode table *)

(** Entry [j] is a reference to the inode. *)
Definition refers (x : inode) (dev inum : Z) : Prop := 0 < i_ref x /\ i_dev x = dev /\ i_inum x = inum.

Lemma iget_scan_spec k i tbl dev inum e :
  match iget_scan k i tbl dev inum e with
  | inl ip => (i <= ip < i + k)%nat /\ refers (tbl ip) dev inum
  | inr r => (forall j, (i <= j < i + k)%nat -> ~ refers (tbl j) dev inum) /\
      match e with
      | Some _ => r = e
      | None => match r with
                | Some ip => (i <= ip < i + k)%nat /\ i_ref (tbl ip) = 0
                | None => forall j, (i <= j < i + k)%nat -> i_ref (tbl j) <> 0
                end
      end
  end.
Proof.
  revert i e. induction k as [|k IH]; intros i e; cbn [iget_scan].
  { split; [lia|]. destruct e; [reflexivity | lia]. }
  destruct ((i_ref (tbl i) >? 0) && (i_dev (tbl i) =? dev) && (i_inum (tbl i) =? inum)) eqn:Em.
  { split; [lia|]. unfold refers. lia. }
  assert (Hi : ~ refers (tbl i) dev inum) by (unfold refers; lia).
  set (e' := match e with None => _ | e0 => e0 end). specialize (IH (S i) e').
  destruct (iget_scan k (S i) tbl dev inum e') as [ip|r].
  - destruct IH as [H1 H2]. split; [lia | exact H2].
  - destruct IH as [H1 H2]. split; [intros j Hj; destruct (decide (j = i)) as [->|]; [exact Hi | apply H1; lia]|].
    unfold e' in H2. destruct e as [ie|]; [exact H2|]. destruct (Z.eqb_spec (i_ref (tbl i)) 0) as [E0|E0].
    + subst r. split; [lia | exact E0].
    + destruct r as [ip|]; [destruct H2 as [H2 H3]; split; [lia | exact H3]|].
      intros j Hj. destruct (decide (j = i)) as [->|]; [exact E0 | apply H2; lia].
Qed.

(** There is room for the inode, or it is there. *)
Definition table_room (tbl : nat -> inode) (dev inum : Z) : Prop :=
  exists j, (j < Z.to_nat NINODE)%nat /\ (refers (tbl j) dev inum \/ i_ref (tbl j) = 0).

(** The caller's new reference [ip] to the inode. *)
Definition got (dev inum : Z) (ip : nat) {S U} (s s' : fstate S U) : Prop :=
  same_but ip s s' /\ f_log s' = f_log s /\
  (refers (f_inode s ip) dev inum /\ f_inode s' ip = set_iref (i_ref (f_inode s ip) + 1) (f_inode s ip) \/
   (forall j, (j < Z.to_nat NINODE)%nat -> ~ refers (f_inode s j) dev inum) /\ i_ref (f_inode s ip) = 0 /\
   f_inode s' ip = set_ivalid false (set_iref 1 (set_iid dev inum (f_inode s ip)))).

Lemma iget_wp {S U} dev inum (s : fstate S U) (Q : nat -> fstate S U -> Prop) :
  f_ilock s = false -> table_room (f_inode s) dev inum ->
  (forall ip s', got dev inum ip s s' -> Q ip s') -> wp (iget dev inum) Q s.
Proof.
  intros Hl (j & Hj & Hroom) HQ. unfold iget, lock_itable, unlock_itable. apply wp_bind, wp_acquire; [exact Hl|].
  apply wp_bind, wp_gets. cbn [f_inode set_ilock].
  pose proof (iget_scan_spec (Z.to_nat NINODE) 0 (f_inode s) dev inum None) as Hs.
  destruct (iget_scan _ _ _ _ _ _) as [ip|[ip|]].
  - destruct Hs as [_ Hr]. apply wp_bind, wp_modify, wp_bind, wp_release; [reflexivity|]. apply wp_ret, HQ.
    split; [|split; [reflexivity|left; split; [exact Hr | apply fn_lookup_insert]]].
    repeat split; auto. intros m Hm. cbn. apply fn_lookup_insert_ne. congruence.
  - destruct Hs as (Hno & _ & H0). apply wp_bind, wp_modify, wp_bind, wp_release; [reflexivity|]. apply wp_ret, HQ.
    split; [|split; [reflexivity|right; split; [intros m Hm; apply Hno; lia | split; [exact H0 | apply fn_lookup_insert]]]].
    repeat split; auto. intros m Hm. cbn. apply fn_lookup_insert_ne. congruence.
  - exfalso. destruct Hs as [Hno Hz]. destruct Hroom as [Hr|Hr]; [apply (Hno j); [lia | exact Hr] | apply (Hz j); [lia | exact Hr]].
Qed.

(** ** Directories *)

(** The entry at offset [off] of a directory: inode number and name. *)
Definition dirent (V : Z -> mem) (x : inode) (off : Z) : mem := put_bytes zeroes 0 (bytes_at (fbyte V x) off (Z.to_nat DIRENT_SIZE)).
Definition ent_inum (V : Z -> mem) (x : inode) (off : Z) : Z := de_inum (dirent V x off).
Definition ent_name (V : Z -> mem) (x : inode) (off : Z) : list byte := CString.cstr (Z.to_nat DIRSIZ) (dirent V x off) 2.
(** The entry is in use for this name. *)
Definition ent_is (V : Z -> mem) (x : inode) (name : list byte) (off : Z) : Prop :=
  ent_inum V x off <> 0 /\ ent_name V x off = name.

Section Dir.
Context {S U : Type} `{BC : BufCache S} `{UM : UserMem U}.
Context (dev : Z) (Hdev : u32 dev = dev) (start size : Z) (sb : superblock) (G : geometry start size sb).
Context (D : Z -> mem) (ws : list (Z * mem)) (o : Z).
Local Abbreviation F := (fstate S U).
Local Abbreviation ftx := (tx dev start size D ws o).

(** Reading one entry. *)
Lemma read_dirent_wp dp V T off l (s : F) (Q : Z * list byte -> F -> Prop) :
  let x := f_inode s dp in
  i_dev x = dev -> inode_ok sb V x -> mapped V x -> 0 <= off -> off + DIRENT_SIZE <= i_size x -> ftx V T ∅ l ->
  (forall l', ftx V T ∅ l' -> Q (DIRENT_SIZE, bytes_at (fbyte V x) off (Z.to_nat DIRENT_SIZE)) (set_log l' s)) ->
  wp (readi dp KernelDst off DIRENT_SIZE) Q (set_log l s).
Proof.
  intros x Hd OK Hm Hoff Hle X HQ. pose proof (proj1 Hm) as Hsz. change MAXBYTES with 274432 in Hsz. change DIRENT_SIZE with 16 in *.
  assert (Ec : read_count x off 16 = 16) by (unfold read_count; replace (_ || _) with false by lia; lia).
  eapply wp_mono; [apply (readi_wp dev Hdev start size sb G D ws o dp V T KernelDst off 16 l s Hd OK Hm); [lia | lia | exact I | exact X]|].
  fold x. rewrite Ec. intros r s' (l' & u' & -> & X' & [[-> Hu]|(_ & Hno & _)]); [|congruence].
  cbn [mem_at] in Hu. subst u'. replace (set_user (f_user s) s) with s by (destruct s; reflexivity). auto.
Qed.

Lemma namecmp_ent V x name off : (namecmp name (dirent V x off) 2 =? 0) = bool_decide (CString.cstr (Z.to_nat DIRSIZ) name 0 = ent_name V x off).
Proof.
  unfold namecmp, CString.strncmp, ent_name. case_bool_decide as E.
  - apply Z.eqb_eq. apply CString.strncmp_loop_zero. exact E.
  - apply Z.eqb_neq. intros H. apply E. apply CString.strncmp_loop_zero. exact H.
Qed.

Lemma dirlookup_wp dp name V T l (s : F) :
  let x := f_inode s dp in let nm := CString.cstr (Z.to_nat DIRSIZ) name 0 in
  i_dev x = dev -> i_type x = T_DIR -> inode_ok sb V x -> mapped V x -> i_size x mod DIRENT_SIZE = 0 ->
  f_ilock s = false -> (forall inum, table_room (f_inode s) dev inum) -> ftx V T ∅ l ->
  wp (dirlookup dp name) (fun r s' => exists l' s1, s' = set_log l' s1 /\ ftx V T ∅ l' /\
    match r with
    | None => s1 = s /\ forall i, 0 <= i < i_size x / DIRENT_SIZE -> ~ ent_is V x nm (i * DIRENT_SIZE)
    | Some (ip, off) => exists i, off = i * DIRENT_SIZE /\ 0 <= i < i_size x / DIRENT_SIZE /\ ent_is V x nm off /\
        (forall j, 0 <= j < i -> ~ ent_is V x nm (j * DIRENT_SIZE)) /\
        same_but ip s s1 /\ got dev (ent_inum V x off) ip (set_log l' s) (set_log l' s1)
    end) (set_log l s).
Proof.
  intros x nm Hd Hty OK Hm Hmod Hlk Hroom X. pose proof (proj1 Hm) as Hsz. change MAXBYTES with 274432 in Hsz.
  unfold dirlookup, the_inode. apply wp_bind, wp_gets. cbn [f_inode set_log]. fold x.
  apply wp_bind, wp_panic_if; [rewrite Hty; reflexivity|].
  apply (wp_loop (fun k off s' => exists i l', off = i * DIRENT_SIZE /\ 0 <= i <= i_size x / DIRENT_SIZE /\
    s' = set_log l' s /\ ftx V T ∅ l' /\ (forall j, 0 <= j < i -> ~ ent_is V x nm (j * DIRENT_SIZE)) /\
    k = Z.to_nat (i_size x / DIRENT_SIZE - i))) with (k := Z.to_nat (i_size x / DIRENT_SIZE)).
  - intros k off s' (i & l' & -> & Hi & -> & X' & Hprev & ->). change DIRENT_SIZE with 16 in *.
    apply wp_bind, wp_gets. cbn [f_inode set_log]. fold x. destruct (Z.ltb_spec (i * 16) (i_size x)) as [Hlt|Hge].
    + apply wp_bind, (read_dirent_wp dp V T (i * 16) l' s); auto; [lia | fold x; change DIRENT_SIZE with 16; zdiv|].
      intros l2 X2. change DIRENT_SIZE with 16. apply wp_bind, wp_panic_if; [reflexivity|]. cbv zeta. fold x.
      change (put_bytes zeroes 0 (bytes_at (fbyte V x) (i * 16) (Z.to_nat 16))) with (dirent V x (i * 16)).
      assert (Hnext : ~ ent_is V x nm (i * 16) -> exists k', (k' < Z.to_nat (i_size x / 16 - i))%nat /\
        exists i0 l0, u32 (i * 16 + 16) = i0 * 16 /\ 0 <= i0 <= i_size x / 16 /\ set_log l2 s = set_log l0 s /\ ftx V T ∅ l0 /\
        (forall j, 0 <= j < i0 -> ~ ent_is V x nm (j * 16)) /\ k' = Z.to_nat (i_size x / 16 - i0)).
      { intros Hno. exists (Z.to_nat (i_size x / 16 - (i + 1))). split; [zdiv|]. exists (i + 1), l2. rewrite u32_small by lia.
        split; [lia|]. split; [zdiv|]. split; [reflexivity|]. split; [exact X2|]. split; [|reflexivity].
        intros j Hj. destruct (decide (j = i)) as [->|]; [exact Hno | apply Hprev; lia]. }
      rewrite namecmp_ent. fold nm. destruct (Z.eqb_spec (de_inum (dirent V x (i * 16))) 0) as [E0|E0].
      { apply wp_ret, Hnext. unfold ent_is, ent_inum. tauto. }
      case_bool_decide as En; [|apply wp_ret, Hnext; unfold ent_is; intros [_ H]; congruence].
      rewrite Hd. apply wp_bind, iget_wp; [exact Hlk | apply Hroom |]. intros ip s1 Hg. apply wp_ret.
      assert (Es1 : s1 = set_log l2 s1) by (destruct Hg as (_ & El & _); cbn [f_log set_log] in El; rewrite <- El; apply set_log_id).
      exists l2, s1. split; [exact Es1|]. split; [exact X2|]. exists i. split; [reflexivity|]. split; [zdiv|].
      split; [split; [exact E0 | symmetry; exact En]|]. split; [exact Hprev|]. split; [exact (proj1 Hg)|]. rewrite <- Es1. exact Hg.
    + apply wp_ret. exists l', s. split; [reflexivity|]. split; [exact X'|]. split; [reflexivity|]. intros j Hj. apply Hprev. zdiv.
  - exists 0, l. split; [reflexivity|]. split; [pose proof (Z.div_pos (i_size x) DIRENT_SIZE ltac:(lia) eq_refl); lia|]. split; [reflexivity|]. split; [exact X|]. split; [lia|].
    f_equal. lia.
  - lia.
Qed.
End Dir.

(** ** A new entry *)

(** The bytes [dirlink] writes. *)
Definition new_dirent (name : mem) (inum : Z) : mem := store16 (CString.strncpy zeroes 2 name 0 DIRSIZ) 0 (u16 inum).

Lemma cstr_no_nul k m p : x00 ∉ CString.cstr k m p.
Proof.
  revert p. induction k as [|k IH]; intros p; cbn [CString.cstr]; [apply not_elem_of_nil|].
  destruct (Z.eqb_spec (b2z (m p)) 0) as [|E]; [apply not_elem_of_nil|]. apply not_elem_of_cons. split; [|apply IH].
  intros E0. apply E. rewrite <- E0. reflexivity.
Qed.

Lemma cstr_ext k m m' p p' : (forall i, 0 <= i < Z.of_nat k -> m (p + i) = m' (p' + i)) -> CString.cstr k m p = CString.cstr k m' p'.
Proof.
  revert p p'. induction k as [|k IH]; intros p p' H; cbn [CString.cstr]; [reflexivity|].
  pose proof (H 0 ltac:(lia)) as H0. rewrite !Z.add_0_r in H0. rewrite H0. case_match; [reflexivity|]. f_equal.
  apply IH. intros i Hi. rewrite <- !Z.add_assoc. apply H. lia.
Qed.

Lemma new_dirent_name name inum : CString.cstr (Z.to_nat DIRSIZ) (new_dirent name inum) 2 = CString.cstr (Z.to_nat DIRSIZ) name 0.
Proof.
  change (Z.to_nat DIRSIZ) with 14%nat. set (l := CString.cstr 14 name 0). pose proof (CString.cstr_length 14 name 0 : (length l <= 14)%nat) as Hl.
  assert (Hb : forall i, 0 <= i < 14 -> new_dirent name inum (2 + i) = nth (Z.to_nat i) l x00).
  { intros i Hi. unfold new_dirent, store16. rewrite le_store_out by (cbn; lia). unfold CString.strncpy. rewrite CString.strncpy_loop_spec.
    change (Z.to_nat DIRSIZ) with 14%nat. replace (_ && _) with true by lia. fold l. f_equal. lia. }
  apply CString.cstr_bytes; [apply cstr_no_nul | | | exact Hl].
  - intros i b Hi. pose proof (lookup_lt_Some _ _ _ Hi). rewrite Hb, Nat2Z.id by lia. apply nth_lookup_Some. exact Hi.
  - intros Hlt. rewrite Hb, Nat2Z.id by lia. apply nth_overflow. lia.
Qed.

(** The directory after the entry at [off] was written. *)
Lemma written_dirent V x V' x' name inum off :
  (forall i, 0 <= i < MAXBYTES -> fbyte V' x' i = if (off <=? i) && (i <? off + DIRENT_SIZE) then new_dirent name inum (i - off) else fbyte V x i) ->
  0 <= off -> off + DIRENT_SIZE <= MAXBYTES ->
  ent_inum V' x' off = u16 inum /\ ent_name V' x' off = CString.cstr (Z.to_nat DIRSIZ) name 0 /\
  forall off', 0 <= off' -> off' + DIRENT_SIZE <= MAXBYTES -> off' + DIRENT_SIZE <= off \/ off + DIRENT_SIZE <= off' ->
    dirent V' x' off' = dirent V x off'.
Proof.
  intros Hb Hoff Hlim. change DIRENT_SIZE with 16 in *.
  assert (Hd : forall i, 0 <= i < 16 -> dirent V' x' off i = new_dirent name inum i).
  { intros i Hi. unfold dirent. change (Z.to_nat DIRENT_SIZE) with 16%nat. rewrite put_bytes_in by (rewrite length_bytes_at; lia).
    rewrite nth_bytes_at by lia. rewrite Hb by lia. replace (_ && _) with true by lia. f_equal. lia. }
  split; [|split].
  - unfold ent_inum, de_inum, load16. rewrite (le_load_ext 2 _ (new_dirent name inum) 0 0) by (intros i Hi; apply Hd; cbn in Hi; lia).
    unfold new_dirent, store16. rewrite le_load_store_eq. unfold u16. apply Zmod_mod.
  - unfold ent_name. rewrite <- new_dirent_name with (inum := inum). apply cstr_ext. intros i Hi. apply Hd. change DIRSIZ with 14 in Hi. lia.
  - intros off' H0 H1 H2. unfold dirent. f_equal. apply bytes_at_ext. intros i Hi. change (Z.to_nat DIRENT_SIZE) with 16%nat in Hi.
    rewrite Hb by lia. replace (_ && _) with false by lia. reflexivity.
Qed.

Section Link.
Context {S U : Type} `{BC : BufCache S} `{UM : UserMem U}.
Context (dev : Z) (Hdev : u32 dev = dev) (start size : Z) (sb : superblock) (G : geometry start size sb).
Context (D : Z -> mem) (ws : list (Z * mem)) (o : Z) (Ho : 1 <= o).
Local Abbreviation F := (fstate S U).
Local Abbreviation ftx := (tx dev start size D ws o).

(** [iput] of a reference that is not the last one to a file without links. *)
Lemma iput_simple ip (s : F) (Q : unit -> F -> Prop) :
  let x := f_inode s ip in
  f_ilock s = false -> 1 < i_ref x \/ i_valid x = false \/ i_nlink x <> 0 ->
  Q tt (upd_inode ip (fun x => set_iref (i_ref x - 1) x) s) -> wp (iput ip) Q s.
Proof.
  intros x Hl Hx HQ. unfold iput, lock_itable, unlock_itable, the_inode. apply wp_bind, wp_acquire; [exact Hl|].
  apply wp_bind, wp_gets. cbn [f_inode set_ilock]. fold x.
  replace ((i_ref x =? 1) && i_valid x && (i_nlink x =? 0)) with false by (destruct Hx as [H|[H|H]]; [lia | rewrite H; cbn; lia | lia]).
  apply wp_bind, wp_ret, wp_bind, wp_modify, wp_release; [reflexivity|].
  replace (set_ilock false _) with (upd_inode ip (fun x => set_iref (i_ref x - 1) x) s); [exact HQ|].
  destruct s. cbn in *. subst. reflexivity.
Qed.

(** The search of [dirlink] for an unused entry. *)
Lemma free_slot_wp dp V T l (s : F) :
  let x := f_inode s dp in
  i_dev x = dev -> inode_ok sb V x -> mapped V x -> i_size x mod DIRENT_SIZE = 0 -> ftx V T ∅ l ->
  wp (loop (Datatypes.S (Datatypes.S (Z.to_nat (i_size x / DIRENT_SIZE)))) (fun off =>
        x ← the_inode dp;
        if off <? i_size x then
          '(r, bs) ← readi dp KernelDst off DIRENT_SIZE;
          panic_if (negb (r =? DIRENT_SIZE)) "dirlink read";;
          if de_inum (put_bytes zeroes 0 bs) =? 0 then mret (inr off)
          else mret (inl (i32 (off + DIRENT_SIZE)))
        else mret (inr off)) 0)
     (fun off s' => exists l' i, s' = set_log l' s /\ ftx V T ∅ l' /\ off = i * DIRENT_SIZE /\
        0 <= i <= i_size x / DIRENT_SIZE /\ (i < i_size x / DIRENT_SIZE -> ent_inum V x off = 0)) (set_log l s).
Proof.
  intros x Hd OK Hm Hmod X. pose proof (proj1 Hm) as Hsz. change MAXBYTES with 274432 in Hsz.
  apply (wp_loop (fun k off s' => exists i l', off = i * DIRENT_SIZE /\ 0 <= i <= i_size x / DIRENT_SIZE /\
    s' = set_log l' s /\ ftx V T ∅ l' /\ k = Z.to_nat (i_size x / DIRENT_SIZE - i))) with (k := Z.to_nat (i_size x / DIRENT_SIZE)).
  - intros k off s' (i & l' & -> & Hi & -> & X' & ->). change DIRENT_SIZE with 16 in *. unfold the_inode.
    apply wp_bind, wp_gets. cbn [f_inode set_log]. fold x. destruct (Z.ltb_spec (i * 16) (i_size x)) as [Hlt|Hge].
    + apply wp_bind, (read_dirent_wp dev Hdev start size sb G D ws o dp V T (i * 16) l' s); auto; [lia | fold x; change DIRENT_SIZE with 16; zdiv|].
      intros l2 X2. change DIRENT_SIZE with 16. apply wp_bind, wp_panic_if; [reflexivity|]. fold x.
      change (put_bytes zeroes 0 (bytes_at (fbyte V x) (i * 16) (Z.to_nat 16))) with (dirent V x (i * 16)).
      destruct (Z.eqb_spec (de_inum (dirent V x (i * 16))) 0) as [E0|E0]; apply wp_ret.
      * exists l2, i. auto.
      * exists (Z.to_nat (i_size x / 16 - (i + 1))). split; [zdiv|]. exists (i + 1), l2. rewrite i32_small by lia.
        split; [lia|]. split; [zdiv|]. auto.
    + apply wp_ret. exists l', i. split; [reflexivity|]. split; [exact X'|]. split; [reflexivity|]. split; [lia|]. intros Hlt. zdiv.
  - exists 0, l. split; [reflexivity|]. split; [pose proof (Z.div_pos (i_size x) DIRENT_SIZE ltac:(lia) eq_refl); lia|].
    split; [reflexivity|]. split; [exact X|]. f_equal. lia.
  - lia.
Qed.

(** The directory [x] with the entry [i] for the new name. *)
Record linked (V : Z -> mem) (x : inode) (name : mem) (inum : Z) (V' : Z -> mem) (x' : inode) (i : Z) : Prop := {
  lk_index : 0 <= i <= i_size x / DIRENT_SIZE;
  lk_unused : i < i_size x / DIRENT_SIZE -> ent_inum V x (i * DIRENT_SIZE) = 0;
  lk_inum : ent_inum V' x' (i * DIRENT_SIZE) = u16 inum;
  lk_name : ent_name V' x' (i * DIRENT_SIZE) = CString.cstr (Z.to_nat DIRSIZ) name 0;
  lk_others : forall j, 0 <= j < i_size x / DIRENT_SIZE -> j <> i -> dirent V' x' (j * DIRENT_SIZE) = dirent V x (j * DIRENT_SIZE);
  lk_size : i_size x' = Z.max (i_size x) ((i + 1) * DIRENT_SIZE)
}.

(** [dirlink] after the name was not found. *)
Lemma dirlink_write_wp dp name inum V T l (s : F) i :
  let x := f_inode s dp in
  f_sb s = sb -> i_dev x = dev -> 0 <= i_inum x < sb_ninodes sb -> inode_typed x -> inode_ok sb V x -> mapped V x -> meta_used V sb ->
  i_size x mod DIRENT_SIZE = 0 -> i_size x + DIRENT_SIZE <= MAXBYTES ->
  (forall b, b ∈ bitmaps sb -> b ∈ T) -> IBLOCK (i_inum x) sb ∈ T -> Z.of_nat (length T) + 4 < size - 1 -> ftx V T ∅ l ->
  0 <= i <= i_size x / DIRENT_SIZE -> (i < i_size x / DIRENT_SIZE -> ent_inum V x (i * DIRENT_SIZE) = 0) ->
  wp (r ← writei dp (KernelSrc (bytes_at (new_dirent name inum) 0 (Z.to_nat DIRENT_SIZE))) (i * DIRENT_SIZE) DIRENT_SIZE;
      if negb (r =? DIRENT_SIZE) then mret (-1) else mret 0)
    (fun r s' => exists l' s1 V' T', s' = set_log l' s1 /\ ftx V' T' ∅ l' /\ same_but dp s s1 /\
       inode_ok sb V' (f_inode s1 dp) /\ mapped V' (f_inode s1 dp) /\ inode_stored sb V' (f_inode s1 dp) /\
       (r = -1 /\ disk_full sb V' \/ r = 0 /\ linked V x name inum V' (f_inode s1 dp) i)) (set_log l s).
Proof.
  intros x Hsb Hd Hi Hty OK Hm HM Hmod Hlim HT HTi Hroom X Hix Hfree. change DIRENT_SIZE with 16 in *.
  assert (Hle : i * 16 + 16 <= MAXBYTES /\ i * 16 <= i_size x) by zdiv.
  pose proof (chunks_le 16 (i * 16) ltac:(lia)) as Hch. change (16 / BSIZE + 2) with 2 in Hch.
  apply wp_bind. eapply (writei_wp dev Hdev start size sb G D ws o Ho dp (new_dirent name inum)); eauto; try lia.
  - fold x. lia.
  - intros j Hj. rewrite lookup_bytes_at by lia. f_equal. f_equal. lia.
  - intros tot V' dl l' s1 [Ht (x1 & W & Ex) Hm' Hst Hsame X' _]. fold x in W, Ex.
    assert (OK' : inode_ok sb V' (f_inode s1 dp)) by (rewrite Ex; apply W).
    destruct (Z.eqb_spec tot 16) as [->|Hne]; cbn [negb]; apply wp_ret; exists l', s1, V', (dl ++ inds (f_inode s1 dp) ++ T);
      (split; [reflexivity|]; split; [exact X'|]; split; [exact Hsame|]; split; [exact OK'|]; split; [exact Hm'|]; split; [exact Hst|]).
    + right. split; [reflexivity|].
      destruct (written_dirent V x V' (f_inode s1 dp) name inum (i * 16)) as (H1 & H2 & H3); [| lia | change DIRENT_SIZE with 16; lia |].
      { intros j Hj. rewrite Ex. change (fbyte V' (set_isize _ x1) j) with (fbyte V' x1 j). exact (wr_bytes _ _ _ _ _ _ _ _ W j Hj). }
      change DIRENT_SIZE with 16 in *. constructor; change DIRENT_SIZE with 16; auto.
      * intros j Hj Hne. apply H3; [lia | |]; destruct Hm as [Hsz _]; zdiv.
      * rewrite Ex. cbn [i_size set_isize]. lia.
    + left. split; [reflexivity|]. apply Ht. lia.
Qed.

Lemma dirlink_wp dp name inum V T l (s : F) :
  let x := f_inode s dp in let nm := CString.cstr (Z.to_nat DIRSIZ) name 0 in
  f_sb s = sb -> i_dev x = dev -> 0 <= i_inum x < sb_ninodes sb -> inode_typed x -> inode_ok sb V x -> mapped V x -> meta_used V sb ->
  i_type x = T_DIR -> i_size x mod DIRENT_SIZE = 0 -> i_size x + DIRENT_SIZE <= MAXBYTES ->
  f_ilock s = false -> (forall inum, table_room (f_inode s) dev inum) ->
  (forall b, b ∈ bitmaps sb -> b ∈ T) -> IBLOCK (i_inum x) sb ∈ T -> Z.of_nat (length T) + 4 < size - 1 -> ftx V T ∅ l ->
  wp (dirlink dp name inum) (fun r s' => exists l' s1 V' T', s' = set_log l' s1 /\ ftx V' T' ∅ l' /\
    (r = -1 /\ V' = V /\ (exists i, 0 <= i < i_size x / DIRENT_SIZE /\ ent_is V x nm (i * DIRENT_SIZE)) \/
     (forall i, 0 <= i < i_size x / DIRENT_SIZE -> ~ ent_is V x nm (i * DIRENT_SIZE)) /\ same_but dp s s1 /\
     inode_ok sb V' (f_inode s1 dp) /\ mapped V' (f_inode s1 dp) /\ inode_stored sb V' (f_inode s1 dp) /\
     (r = -1 /\ disk_full sb V' \/ r = 0 /\ exists i, linked V x name inum V' (f_inode s1 dp) i))) (set_log l s).
Proof.
  intros x nm Hsb Hd Hi Hty OK Hm HM Htp Hmod Hlim Hlk Htr HT HTi Hroom X.
  unfold dirlink. apply wp_bind. eapply wp_mono; [apply (dirlookup_wp dev Hdev start size sb G D ws o dp name V T l s); auto|].
  fold x nm. intros [[ip off]|] s' (l1 & s1 & -> & X1 & Hr).
  - destruct Hr as (i & -> & Hix & He & _ & Hs1 & (_ & _ & Hg)). cbn [f_inode set_log] in Hg. destruct (Hs1) as (_ & El & _).
    apply wp_bind, iput_simple; [cbn; congruence | |].
    + cbn [f_inode set_log]. destruct Hg as [((Hp & _) & Eg)|(_ & _ & Eg)]; rewrite Eg; [left; cbn; lia | right; left; reflexivity].
    + apply wp_ret. exists l1, (upd_inode ip (fun x => set_iref (i_ref x - 1) x) s1), V, T.
      split; [reflexivity|]. split; [exact X1|]. left. eauto.
  - destruct Hr as [-> Hno]. unfold the_inode at 1. apply wp_bind, wp_gets. cbn [f_inode set_log]. fold x. apply wp_bind.
    eapply wp_mono; [apply (free_slot_wp dp V T l1 s); auto|]. fold x.
    intros off s' (l2 & i & -> & X2 & -> & Hix & Hfree). cbv zeta. fold (new_dirent name inum).
    eapply wp_mono; [apply (dirlink_write_wp dp name inum V T l2 s i); auto|]. fold x.
    intros r s' (l3 & s3 & V' & T' & -> & X3 & Hs & OK' & Hm' & Hst & Hr). exists l3, s3, V', T'. split; [reflexivity|]. split; [exact X3|].
    right. split; [exact Hno|]. split; [exact Hs|]. split; [exact OK'|]. split; [exact Hm'|]. split; [exact Hst|].
    destruct Hr as [Hr|[-> Hr]]; [left; exact Hr | right; eauto].
Qed.
End Link.

(** ** A directory with the entry "a" for inode 2 *)

Section Demo.
Definition demo_name (t : string) : mem := put_bytes zeroes 0 (String.list_byte_of_string t).
Definition demo_dir : inode := demo_inode_at T_DIR 16.
Definition demo_dir_disk : Z -> mem := demo_disk_at (new_dirent (demo_name "a") 2).
Definition demo_dir_state (l : lstate bstate) : fstate bstate (Z -> byte) :=
  FState l sb0 false (fun i => if (i =? 0)%nat then demo_dir else set_iref 0 demo_inode) zeroes 0.

Lemma demo_dir_room l inum : table_room (f_inode (demo_dir_state l)) 1 inum.
Proof. exists 1%nat. split; [vm_compute; lia|]. right. reflexivity. Qed.

Lemma demo_dir_entry V : agree 2 30 demo_dir_disk V -> ent_is V demo_dir (String.list_byte_of_string "a") 0.
Proof.
  intros E. assert (Ed : dirent V demo_dir 0 = dirent demo_dir_disk demo_dir 0).
  { unfold dirent. f_equal. apply bytes_at_ext. intros i Hi. apply (agree_fbyte 2 30 sb0 demo_geometry _ _ E _ (demo_at_ok _ _ _)).
    change (Z.to_nat DIRENT_SIZE) with 16%nat in Hi. change MAXBYTES with 274432. lia. }
  unfold ent_is, ent_inum, ent_name. rewrite Ed. split; [vm_compute; discriminate | vm_compute; reflexivity].
Qed.
End Demo.

(** ** Properties *)

(** [dirlookup] in a directory finds exactly the first entry in use with
    the given name (names compare up to DIRSIZ characters): it returns its
    offset and a new reference to its inode in the inode table, and a null
    pointer when there is none; the file system is unchanged. *)
Theorem dirlookup_correct {S U} `{BC : BufCache S} `{UM : UserMem U} dev start size sb D ws o V T dp name (s : fstate S U) :
  let x := f_inode s dp in let nm := CString.cstr (Z.to_nat DIRSIZ) name 0 in
  u32 dev = dev -> geometry start size sb ->
  i_dev x = dev -> i_type x = T_DIR -> inode_ok sb V x -> mapped V x -> i_size x mod DIRENT_SIZE = 0 ->
  f_ilock s = false -> (forall inum, table_room (f_inode s) dev inum) -> tx dev start size D ws o V T ∅ (f_log s) ->
  wp (dirlookup dp name) (fun r s' => exists l' s1, s' = set_log l' s1 /\ tx dev start size D ws o V T ∅ l' /\
    match r with
    | None => s1 = s /\ forall i, 0 <= i < i_size x / DIRENT_SIZE -> ~ ent_is V x nm (i * DIRENT_SIZE)
    | Some (ip, off) => exists i, off = i * DIRENT_SIZE /\ 0 <= i < i_size x / DIRENT_SIZE /\ ent_is V x nm off /\
        (forall j, 0 <= j < i -> ~ ent_is V x nm (j * DIRENT_SIZE)) /\
        same_but ip s s1 /\ got dev (ent_inum V x off) ip (set_log l' s) (set_log l' s1)
    end) s.
Proof.
  intros x nm Hdev G Hd Hty OK Hm Hmod Hlk Hroom X.
  pose proof (dirlookup_wp dev Hdev start size sb G D ws o dp name V T (f_log s) s Hd Hty OK Hm Hmod Hlk Hroom X) as H.
  rewrite <- (set_log_id s) in H. exact H.
Qed.

Lemma dirlookup_correct_witness : exists (s s' : fstate bstate (Z -> byte)) ip,
  dirlookup (H0 := flat_user) 0 (demo_name "a") s = Ret (Some (ip, 0)) s'.
Proof.
  destruct (demo_at_boot (new_dirent (demo_name "a") 2)) as (l & c & Hi & E). set (s := demo_dir_state l).
  pose proof (demo_at_ok (new_dirent (demo_name "a") 2) T_DIR 16) as OK.
  pose proof (demo_at_mapped (new_dirent (demo_name "a") 2) T_DIR 16 ltac:(change BSIZE with 1024; lia)) as Hm.
  assert (X : tx 1 2 30 (c_disk c) (c_writes c) 0 (c_view c) [] ∅ l) by (apply (idle_tx 1 eq_refl 2 30 (geo_ok 2 30 sb0 demo_geometry) l c Hi); lia).
  destruct (proj1 (wp_run _ _ _) (dirlookup_correct (UM := flat_user) 1 2 30 sb0 (c_disk c) (c_writes c) 0 (c_view c) [] 0 (demo_name "a") s eq_refl demo_geometry
    eq_refl eq_refl (agree_inode_ok 2 30 sb0 demo_geometry _ _ E _ OK) (agree_mapped 2 30 sb0 demo_geometry _ _ E _ OK Hm)
    eq_refl eq_refl (demo_dir_room l) X)) as (r & s' & Er & l' & s1 & _ & _ & Hr).
  exists s, s'. change (i_size (f_inode s 0) / DIRENT_SIZE) with 1 in Hr. destruct r as [[ip off]|].
  - exists ip. destruct Hr as (i & -> & Hix & _). assert (i = 0) as -> by lia. exact Er.
  - exfalso. destruct Hr as [_ Hno]. exact (Hno 0 ltac:(lia) (demo_dir_entry _ E)).
Defined.

(** C14: [dirlink] refuses a name the directory already has, leaving the
    contents as they were; otherwise it puts the name and the inode number
    into an unused entry or a new one at the end, leaving every other entry as
    it was and the directory's inode consistent in memory and on disk; it
    fails only when the disk is full. *)
Theorem dirlink_correct {S U} `{BC : BufCache S} `{UM : UserMem U} dev start size sb D ws o V T dp name inum (s : fstate S U) :
  let x := f_inode s dp in let nm := CString.cstr (Z.to_nat DIRSIZ) name 0 in
  u32 dev = dev -> geometry start size sb -> 1 <= o ->
  f_sb s = sb -> i_dev x = dev -> 0 <= i_inum x < sb_ninodes sb -> inode_typed x -> inode_ok sb V x -> mapped V x -> meta_used V sb ->
  i_type x = T_DIR -> i_size x mod DIRENT_SIZE = 0 -> i_size x + DIRENT_SIZE <= MAXBYTES ->
  f_ilock s = false -> (forall inum, table_room (f_inode s) dev inum) ->
  (forall b, b ∈ bitmaps sb -> b ∈ T) -> IBLOCK (i_inum x) sb ∈ T -> Z.of_nat (length T) + 4 < size - 1 ->
  tx dev start size D ws o V T ∅ (f_log s) ->
  wp (dirlink dp name inum) (fun r s' => exists l' s1 V' T', s' = set_log l' s1 /\ tx dev start size D ws o V' T' ∅ l' /\
    (r = -1 /\ V' = V /\ (exists i, 0 <= i < i_size x / DIRENT_SIZE /\ ent_is V x nm (i * DIRENT_SIZE)) \/
     (forall i, 0 <= i < i_size x / DIRENT_SIZE -> ~ ent_is V x nm (i * DIRENT_SIZE)) /\ same_but dp s s1 /\
     inode_ok sb V' (f_inode s1 dp) /\ mapped V' (f_inode s1 dp) /\ inode_stored sb V' (f_inode s1 dp) /\
     (r = -1 /\ disk_full sb V' \/ r = 0 /\ exists i, linked V x name inum V' (f_inode s1 dp) i))) s.
Proof.
  intros x nm Hdev G Ho Hsb Hd Hi Hty OK Hm HM Htp Hmod Hlim Hlk Htr HT HTi Hroom X.
  pose proof (dirlink_wp dev Hdev start size sb G D ws o Ho dp name inum V T (f_log s) s Hsb Hd Hi Hty OK Hm HM Htp Hmod Hlim Hlk Htr HT HTi Hroom X) as H.
  rewrite <- (set_log_id s) in H. exact H.
Qed.

Lemma dirlink_correct_witness : exists (s s' : fstate bstate (Z -> byte)),
  dirlink (H0 := flat_user) 0 (demo_name "a") 3 s = Ret (-1) s'.
Proof.
  destruct (demo_at_boot (new_dirent (demo_name "a") 2)) as (l & c & Hi & E).
  pose proof (demo_at_ok (new_dirent (demo_name "a") 2) T_DIR 16) as OK.
  pose proof (demo_at_mapped (new_dirent (demo_name "a") 2) T_DIR 16 ltac:(change BSIZE with 1024; lia)) as Hm.
  pose proof (demo_at_typed T_DIR 16 ltac:(vm_compute; split; congruence) ltac:(lia)) as Hty.
  destruct (proj1 (wp_run _ _ _) (begin_op_wp 1 2 30 l c Hi)) as ([] & l1 & _ & X0 & Ho1).
  assert (X : tx 1 2 30 (c_disk c) (c_writes c) 1 (c_view c) (IBLOCK 1 sb0 :: bitmaps sb0) ∅ l1).
  { eapply tx_weaken with (T := []); [|intros b Hb; destruct (not_elem_of_nil _ Hb) | vm_compute; reflexivity].
    eapply open_tx_tx; eauto; [exact (geo_ok 2 30 sb0 demo_geometry) | cbn; lia]. }
  set (s := demo_dir_state l1).
  destruct (proj1 (wp_run _ _ _) (dirlink_correct (UM := flat_user) 1 2 30 sb0 (c_disk c) (c_writes c) 1 (c_view c) _ 0 (demo_name "a") 3 s eq_refl demo_geometry
    ltac:(lia) eq_refl eq_refl ltac:(cbn; lia) Hty (agree_inode_ok 2 30 sb0 demo_geometry _ _ E _ OK) (agree_mapped 2 30 sb0 demo_geometry _ _ E _ OK Hm)
    (agree_meta 2 30 sb0 demo_geometry _ _ E (demo_at_meta _)) eq_refl eq_refl ltac:(vm_compute; congruence) eq_refl (demo_dir_room l1)
    ltac:(intros b Hb; right; exact Hb) ltac:(left) ltac:(vm_compute; reflexivity) X)) as (r & s' & Er & l' & s1 & V' & T' & _ & _ & Hr).
  exists s, s'. destruct Hr as [[-> _]|[Hno _]]; [exact Er|]. exfalso. exact (Hno 0 ltac:(vm_compute; split; congruence) (demo_dir_entry _ E)).
Defined.
