(* ===== verification/Mkfs.v ===== *)
(** * Building the disk image: mkfs/mkfs.c

    The host program that makes the file system the kernel boots on.  The
    image is the file [fsfd], an array of sectors with a length; a failed
    [assert] and [die], which end the program, are [Panic].  The host is
    little-endian; its [read] may deliver a file in any number of pieces, so
    an input file is the list of the pieces the calls return. *)

From S2P Require Import Prelude Memory FsDefs Fs.

Definition NINODES : Z := 200.

Definition nbitmap : Z := FSSIZE / BPB + 1.
Definition ninodeblocks : Z := NINODES / IPB + 1.
Definition nlog : Z := LOGSIZE.

(** The image and its length in sectors, [freeinode], [freeblock], [sb]. *)
Record image := Image {
  im_sect : Z -> mem;
  im_len : Z;
  im_freeinode : Z;
  im_freeblock : Z;
  im_sb : superblock
}.

Definition set_sect (d : Z -> mem) (n : Z) (s : image) : image :=
  Image d n (im_freeinode s) (im_freeblock s) (im_sb s).
Definition set_freeinode (n : Z) (s : image) : image :=
  Image (im_sect s) (im_len s) n (im_freeblock s) (im_sb s).
Definition set_freeblock (n : Z) (s : image) : image :=
  Image (im_sect s) (im_len s) (im_freeinode s) n (im_sb s).
Definition set_imsb (sb : superblock) (s : image) : image :=
  Image (im_sect s) (im_len s) (im_freeinode s) (im_freeblock s) sb.

Definition assert (b : bool) : M image unit := panic_if (negb b) "assert".
Definition die {A} (why : string) : M image A := panic why.

(** ** Byte order *)

Definition xshort (x : Z) : Z :=
  let a := mset zeroes 0 (z2b x) in
  let a := mset a 1 (z2b (Z.shiftr x 8)) in
  load16 a 0.

Definition xint (x : Z) : Z :=
  let a := mset zeroes 0 (z2b x) in
  let a := mset a 1 (z2b (Z.shiftr x 8)) in
  let a := mset a 2 (z2b (Z.shiftr x 16)) in
  let a := mset a 3 (z2b (Z.shiftr x 24)) in
  load32 a 0.

(** ** Sectors *)

(** The sector at the file offset [sec * BSIZE], a 32-bit product. *)
Definition sector (sec : Z) : Z := u32 (sec * BSIZE) / BSIZE.

Definition wsect (sec : Z) (buf : mem) : M image unit :=
  modify (fun s => set_sect (<[sector sec := buf]> (im_sect s)) (Z.max (im_len s) (sector sec + 1)) s).

(** Reading at or after the end of the file returns 0 bytes. *)
Definition rsect (sec : Z) : M image mem :=
  len ← gets im_len;
  if sector sec <? len then gets (fun s => im_sect s (sector sec)) else die "read".

(** ** Inodes: a [struct dinode] is an array of [DINODE_SIZE] bytes *)

Definition winode (inum : Z) (ip : mem) : M image unit :=
  sb ← gets im_sb;
  let bn := IBLOCK inum sb in
  buf ← rsect bn;
  wsect bn (blit buf (dinode_off inum) ip 0 DINODE_SIZE).

Definition rinode (inum : Z) : M image mem :=
  sb ← gets im_sb;
  let bn := IBLOCK inum sb in
  buf ← rsect bn;
  mret (blit zeroes 0 buf (dinode_off inum) DINODE_SIZE).

(** The fields the program uses. *)
Definition din_size (din : mem) : Z := load32 din 8.
Definition set_din_size (v : Z) (din : mem) : mem := store32 din 8 v.
Definition din_addr (din : mem) (i : Z) : Z := load32 din (12 + 4 * i).
Definition set_din_addr (i v : Z) (din : mem) : mem := store32 din (12 + 4 * i) v.

Definition ialloc (type : Z) : M image Z :=
  inum ← gets im_freeinode;
  modify (set_freeinode (u32 (inum + 1)));;
  let din := store16 zeroes 0 (xshort type) in
  let din := store16 din 6 (xshort 1) in
  let din := set_din_size (xint 0) din in
  winode inum din;;
  mret inum.

(** [freeblock++] *)
Definition next_block : M image Z :=
  b ← gets im_freeblock;
  modify (set_freeblock (u32 (b + 1)));;
  mret b.

(** ** Appending to a file *)

(** The block that entry [i] of the indirect block [ind] names, allocated
    when there is none. *)
Definition iappend_entry (ind i : Z) : M image Z :=
  indirect ← rsect ind;
  indirect ← (if load32 indirect (4 * i) =? 0 then
                b ← next_block;
                let indirect := store32 indirect (4 * i) (xint b) in
                wsect ind indirect;;
                mret indirect
              else mret indirect);
  mret (xint (load32 indirect (4 * i))).

(** The block that holds file block [fbn], allocated when it is not there. *)
Definition iappend_block (fbn : Z) (din : mem) : M image (Z * mem) :=
  if fbn <? NDIRECT then
    din ← (if xint (din_addr din fbn) =? 0 then
             b ← next_block; mret (set_din_addr fbn (xint b) din)
           else mret din);
    mret (xint (din_addr din fbn), din)
  else
    din ← (if xint (din_addr din NDIRECT) =? 0 then
             b ← next_block; mret (set_din_addr NDIRECT (xint b) din)
           else mret din);
    x ← iappend_entry (xint (din_addr din NDIRECT)) (fbn - NDIRECT);
    mret (x, din).

Definition iappend_step (l : Z * list byte * mem) : M image (Z * list byte * mem + Z * mem) :=
  let '(off, p, din) := l in
  let n := Z.of_nat (length p) in
  if n >? 0 then
    let fbn := off / BSIZE in
    assert (fbn <? MAXFILE);;
    '(x, din) ← iappend_block fbn din;
    let n1 := Z.min n (u32 ((fbn + 1) * BSIZE - off)) in
    buf ← rsect x;
    wsect x (put_bytes buf (off - fbn * BSIZE) (take (Z.to_nat n1) p));;
    mret (inl (u32 (off + n1), drop (Z.to_nat n1) p, din))
  else mret (inr (off, din)).

(** Every iteration takes a byte at least. *)
Definition iappend (inum : Z) (xp : list byte) : M image unit :=
  din ← rinode inum;
  let off := xint (din_size din) in
  '(off, din) ← loop (S (length xp)) iappend_step (off, xp, din);
  winode inum (set_din_size (xint off) din).

(** ** The free map *)

Fixpoint mark_used (k : nat) (i : Z) (buf : mem) : mem :=
  match k with
  | O => buf
  | S k' => mark_used k' (i + 1) (set_bit buf i)
  end.

Definition balloc (used : Z) : M image unit :=
  assert (used <? BPB);;
  sb ← gets im_sb;
  wsect (sb_bmapstart sb) (mark_used (Z.to_nat used) 0 zeroes).

(** ** main *)

Fixpoint zero_sectors (k : nat) (i : Z) : M image unit :=
  match k with
  | O => mret tt
  | S k' => wsect i zeroes;; zero_sectors k' (i + 1)
  end.

Definition put_sb (buf : mem) (sb : superblock) : mem :=
  let buf := store32 buf 0 (sb_magic sb) in
  let buf := store32 buf 4 (sb_size sb) in
  let buf := store32 buf 8 (sb_nblocks sb) in
  let buf := store32 buf 12 (sb_ninodes sb) in
  let buf := store32 buf 16 (sb_nlog sb) in
  let buf := store32 buf 20 (sb_logstart sb) in
  let buf := store32 buf 24 (sb_inodestart sb) in
  store32 buf 28 (sb_bmapstart sb).

(** A directory entry: [strncpy(de.name, name, DIRSIZ)] into zeroes.  (For
    "." and ".." the program uses [strcpy], which leaves the same bytes.) *)
Definition mk_dirent (inum : Z) (name : list byte) : list byte :=
  let de := store16 zeroes 0 (xshort inum) in
  bytes_at (CString.strncpy de 2 (put_bytes zeroes 0 name) 0 DIRSIZ) 0 (Z.to_nat DIRENT_SIZE).

(** The name without "user/". *)
Definition strip_dir (arg : list byte) : list byte :=
  if bool_decide (take 5 arg = String.list_byte_of_string "user/") then drop 5 arg else arg.
(** The name without a leading underscore. *)
Definition strip_mark (name : list byte) : list byte :=
  match name with x5f :: rest => rest | _ => name end.

(** The pieces [read] returns until it returns 0. *)
Fixpoint append_pieces (inum : Z) (cs : list (list byte)) : M image unit :=
  match cs with
  | [] => mret tt
  | cc :: cs' => if Z.of_nat (length cc) >? 0 then iappend inum cc;; append_pieces inum cs' else mret tt
  end.

(** One argument: its text, and the file's pieces when it can be opened. *)
Definition add_file (rootino : Z) (arg : list byte * option (list (list byte))) : M image unit :=
  let shortname := strip_dir arg.1 in
  assert (negb (bool_decide (x2f ∈ shortname)));;
  match arg.2 with
  | None => die "open"
  | Some cs =>
      let shortname := strip_mark shortname in
      assert (Z.of_nat (length shortname) <=? DIRSIZ);;
      inum ← ialloc T_FILE;
      iappend rootino (mk_dirent inum shortname);;
      append_pieces inum cs
  end.

Fixpoint add_files (rootino : Z) (args : list (list byte * option (list (list byte)))) : M image unit :=
  match args with
  | [] => mret tt
  | arg :: rest => add_file rootino arg;; add_files rootino rest
  end.

(** fix size of root inode dir *)
Definition fix_root (rootino : Z) : M image unit :=
  din ← rinode rootino;
  let off := xint (din_size din) in
  let off := u32 ((off / BSIZE + 1) * BSIZE) in
  winode rootino (set_din_size (xint off) din).

Definition dot : list byte := String.list_byte_of_string ".".
Definition dotdot : list byte := String.list_byte_of_string "..".

Definition main (args : list (list byte * option (list (list byte)))) : M image unit :=
  let nmeta := 2 + nlog + ninodeblocks + nbitmap in
  let nblocks := FSSIZE - nmeta in
  let sb := {| sb_magic := FSMAGIC; sb_size := xint FSSIZE; sb_nblocks := xint nblocks;
               sb_ninodes := xint NINODES; sb_nlog := xint nlog; sb_logstart := xint 2;
               sb_inodestart := xint (2 + nlog); sb_bmapstart := xint (2 + nlog + ninodeblocks) |} in
  modify (set_imsb sb);;
  modify (set_freeblock nmeta);;
  zero_sectors (Z.to_nat FSSIZE) 0;;
  wsect 1 (put_sb zeroes sb);;
  rootino ← ialloc T_DIR;
  assert (rootino =? ROOTINO);;
  iappend rootino (mk_dirent rootino dot);;
  iappend rootino (mk_dirent rootino dotdot);;
  add_files rootino args;;
  fix_root rootino;;
  used ← gets im_freeblock;
  balloc (i32 used).

(** The program starts with an empty file; [freeinode] is 1. *)
Definition image0 : image :=
  Image (fun _ => zeroes) 0 1 0
    {| sb_magic := 0; sb_size := 0; sb_nblocks := 0; sb_ninodes := 0; sb_nlog := 0;
       sb_logstart := 0; sb_inodestart := 0; sb_bmapstart := 0 |}.
