(* ===== verification/MkfsImage.v ===== *)
(** * What mkfs writes: the contents of the image

    [laid V A fi fb C] says that on the sectors [V] the inodes below [fi],
    whose block addresses are [A], hold the byte strings [C] in blocks of
    their own below [fb], and that everything from [fb] on is still zero.
    Every step of [iappend] keeps it. *)

From S2P Require Import Prelude Memory FsDefs BufCache Log LogCrash LogTx UserMem Fs FsTx FsBlocks FsFile FsWrite Mkfs.

(** ** Byte order and sectors *)

Lemma xshort_u16 x : xshort x = u16 x.
Proof.
  cbv [xshort load16 le_load]. change (0 + 1) with 1.
  repeat first [rewrite mset_eq | rewrite mset_ne by lia]. rewrite !b2z_z2b, Z.shiftr_div_pow2 by lia. unfold u16. change (2 ^ 8) with 256. zdiv.
Qed.

Lemma xint_u32 x : xint x = u32 x.
Proof.
  cbv [xint load32 le_load]. change (0 + 1 + 1 + 1) with 3. change (0 + 1 + 1) with 2. change (0 + 1) with 1.
  repeat first [rewrite mset_eq | rewrite mset_ne by lia].
  rewrite !b2z_z2b, !Z.shiftr_div_pow2 by lia. unfold u32. change (2 ^ 8) with 256. change (2 ^ 16) with 65536.
  change (2 ^ 24) with 16777216. zdiv.
Qed.

Lemma xint_load m a : xint (load32 m a) = load32 m a.
Proof. rewrite xint_u32, u32_small; [reflexivity|]. apply (le_load_range 4). Qed.

Lemma sector_small sec : 0 <= sec < FSSIZE -> sector sec = sec.
Proof. intros H. unfold sector, FSSIZE in *. rewrite u32_small by (change BSIZE with 1024; lia). fsdiv. Qed.

(** The image file of full length. *)
Definition full (V : Z -> mem) (fi fb : Z) : image := Image V FSSIZE fi fb sb0.

Lemma wsect_wp sec m V fi fb (Q : unit -> image -> Prop) :
  0 <= sec < FSSIZE -> Q tt (full (<[sec := m]> V) fi fb) -> wp (wsect sec m) Q (full V fi fb).
Proof.
  intros Hs HQ. unfold wsect. apply wp_modify. unfold set_sect, full. cbn [im_sect im_len im_freeinode im_freeblock im_sb].
  rewrite sector_small by exact Hs. replace (Z.max FSSIZE (sec + 1)) with FSSIZE by lia. exact HQ.
Qed.

Lemma rsect_wp sec V fi fb (Q : mem -> image -> Prop) :
  0 <= sec < FSSIZE -> Q (V sec) (full V fi fb) -> wp (rsect sec) Q (full V fi fb).
Proof.
  intros Hs HQ. unfold rsect. apply wp_bind, wp_gets. cbn [im_len full]. rewrite sector_small by exact Hs.
  replace (sec <? FSSIZE) with true by lia. apply wp_gets. exact HQ.
Qed.

Lemma next_block_wp V fi fb (Q : Z -> image -> Prop) :
  0 <= fb < FSSIZE -> Q fb (full V fi (fb + 1)) -> wp next_block Q (full V fi fb).
Proof.
  intros Hb HQ. unfold next_block. apply wp_bind, wp_gets, wp_bind, wp_modify. cbn [im_freeblock full].
  rewrite u32_small by (unfold FSSIZE in Hb; lia). apply wp_ret. exact HQ.
Qed.

(** ** Files in blocks *)

(** An inode with these block addresses, to speak about its blocks. *)
Definition at_ (a : Z -> Z) : inode := Inode 1 0 0 false false 0 0 0 0 0 a.

Lemma islot_cong V x y j : (forall k, 0 <= k <= NDIRECT -> i_addrs x k = i_addrs y k) -> 0 <= j -> islot V x j = islot V y j.
Proof.
  intros E Hj. unfold islot, fblock. rewrite (E NDIRECT) by (change NDIRECT with 12; lia).
  destruct (j =? MAXFILE); [reflexivity|]. destruct (Z.ltb_spec j NDIRECT); [apply E; lia | reflexivity].
Qed.

Lemma fblock_cong V x y j : (forall k, 0 <= k <= NDIRECT -> i_addrs x k = i_addrs y k) -> 0 <= j < MAXFILE -> fblock V x j = fblock V y j.
Proof. intros E Hj. rewrite <- !islot_block by exact Hj. apply islot_cong; [exact E | lia]. Qed.

Lemma fbyte_cong V x y off : (forall k, 0 <= k <= NDIRECT -> i_addrs x k = i_addrs y k) -> 0 <= off < MAXBYTES -> fbyte V x off = fbyte V y off.
Proof. intros E Ho. unfold fbyte. rewrite (fblock_cong V x y); [reflexivity | exact E | unfold MAXBYTES in Ho; fsdiv]. Qed.

Section Laid.
Context (fi : Z).

Record laid (V : Z -> mem) (A : Z -> Z -> Z) (fb : Z) (C : Z -> list byte) : Prop := {
  la_fb : data_start sb0 <= fb <= FSSIZE;
  la_slot : forall i j, 1 <= i < fi -> 0 <= j <= MAXFILE -> islot V (at_ (A i)) j <> 0 ->
    data_start sb0 <= islot V (at_ (A i)) j < fb;
  la_inj : forall i j i' j', 1 <= i < fi -> 0 <= j <= MAXFILE -> 1 <= i' < fi -> 0 <= j' <= MAXFILE ->
    islot V (at_ (A i)) j <> 0 -> islot V (at_ (A i')) j' = islot V (at_ (A i)) j -> i' = i /\ j' = j;
  la_bytes : forall i off, 1 <= i < fi -> 0 <= off < MAXBYTES -> fbyte V (at_ (A i)) off = nth (Z.to_nat off) (C i) x00;
  la_zero : forall b, fb <= b < FSSIZE -> V b ≡ zeroes
}.

(** The blocks below the length [L], and no others, are there. *)
Definition exact_blocks (V : Z -> mem) (a : Z -> Z) (L : Z) : Prop :=
  (forall bn, 0 <= bn < MAXFILE -> fblock V (at_ a) bn <> 0 <-> bn * BSIZE < L) /\
  (a NDIRECT <> 0 <-> NDIRECT * BSIZE < L).

Lemma laid_cong V A A' fb C : (forall i k, 1 <= i < fi -> 0 <= k <= NDIRECT -> A' i k = A i k) -> laid V A fb C -> laid V A' fb C.
Proof.
  intros E [L1 L2 L3 L4 L5].
  assert (Es : forall i j, 1 <= i < fi -> 0 <= j <= MAXFILE -> islot V (at_ (A' i)) j = islot V (at_ (A i)) j)
    by (intros i j Hi Hj; apply islot_cong; [intros k Hk; apply E; assumption | lia]).
  constructor; auto.
  - intros i j Hi Hj. rewrite Es by assumption. auto.
  - intros i j i' j' Hi Hj Hi' Hj'. rewrite !Es by assumption. auto.
  - intros i off Hi Ho. rewrite <- L4 by assumption. apply fbyte_cong; [intros k Hk; apply E; assumption | exact Ho].
Qed.

Lemma laid_contents V A fb C C' : (forall i, 1 <= i < fi -> C' i = C i) -> laid V A fb C -> laid V A fb C'.
Proof. intros E [L1 L2 L3 L4 L5]. constructor; auto. intros i off Hi Ho. rewrite E by exact Hi. auto. Qed.

(** Block [fb] becomes the block [j0] of inode [i0]. *)
Lemma laid_grow V A fb C V' A' i0 j0 :
  laid V A fb C -> fb < FSSIZE -> 1 <= i0 < fi -> 0 <= j0 <= MAXFILE -> islot V (at_ (A i0)) j0 = 0 ->
  (forall i j, 1 <= i < fi -> 0 <= j <= MAXFILE ->
     islot V' (at_ (A' i)) j = if (i =? i0) && (j =? j0) then fb else islot V (at_ (A i)) j) ->
  (forall i bn, 1 <= i < fi -> 0 <= bn < MAXFILE -> islot V (at_ (A i)) bn <> 0 -> V' (islot V (at_ (A i)) bn) = V (islot V (at_ (A i)) bn)) ->
  (forall b, fb <= b < FSSIZE -> V' b = V b) ->
  laid V' A' (fb + 1) C.
Proof.
  intros [L1 L2 L3 L4 L5] Hlt Hi0 Hj0 H0 Hs Hd Hz. constructor.
  - lia.
  - intros i j Hi Hj. rewrite Hs by assumption. destruct ((i =? i0) && (j =? j0)); [lia|]. intros Hn. specialize (L2 i j Hi Hj Hn). lia.
  - intros i j i' j' Hi Hj Hi' Hj'. rewrite !Hs by assumption.
    destruct ((i =? i0) && (j =? j0)) eqn:E; destruct ((i' =? i0) && (j' =? j0)) eqn:E'; intros Hn Heq.
    + lia.
    + exfalso. assert (Hn' : islot V (at_ (A i')) j' <> 0) by congruence. specialize (L2 i' j' Hi' Hj' Hn'). lia.
    + exfalso. specialize (L2 i j Hi Hj Hn). lia.
    + exact (L3 i j i' j' Hi Hj Hi' Hj' Hn Heq).
  - intros i off Hi Ho. rewrite <- L4 by assumption. assert (Hb : 0 <= off / BSIZE < MAXFILE) by (unfold MAXBYTES in Ho; fsdiv).
    unfold fbyte. rewrite <- !islot_block by exact Hb. rewrite Hs by lia. destruct ((i =? i0) && (off / BSIZE =? j0)) eqn:E.
    + replace (fb =? 0) with false by (change (data_start sb0) with 46 in L1; lia). rewrite Hz by lia.
      assert (i = i0 /\ off / BSIZE = j0) as [-> ->] by lia. rewrite H0, Z.eqb_refl. apply L5; [lia|]. apply Z.mod_pos_bound. reflexivity.
    + destruct (Z.eqb_spec (islot V (at_ (A i)) (off / BSIZE)) 0); [reflexivity|]. rewrite Hd by assumption. reflexivity.
  - intros b Hb. rewrite Hz by lia. apply L5. lia.
Qed.

(** No indirect block is a block of a file. *)
Lemma indirect_apart V A fb C i bn i' : laid V A fb C -> 1 <= i < fi -> 0 <= bn < MAXFILE -> 1 <= i' < fi ->
  islot V (at_ (A i)) bn <> 0 -> islot V (at_ (A i)) bn <> A i' NDIRECT.
Proof.
  intros L Hi Hb Hi' Hn E. change (A i' NDIRECT) with (i_addrs (at_ (A i')) NDIRECT) in E. rewrite <- (islot_ind V) in E.
  destruct (la_inj _ _ _ _ L i bn i' MAXFILE) as [_ Hj]; auto; lia.
Qed.

(** Writing into block [bn] of inode [i0] changes its bytes only. *)
Lemma laid_write V A fb C i0 bn m :
  laid V A fb C -> 1 <= i0 < fi -> 0 <= bn < MAXFILE -> islot V (at_ (A i0)) bn <> 0 ->
  forall C', (forall i off, 1 <= i < fi -> 0 <= off < MAXBYTES ->
    nth (Z.to_nat off) (C' i) x00 = if (i =? i0) && (off / BSIZE =? bn) then m (off mod BSIZE) else nth (Z.to_nat off) (C i) x00) ->
  let V' := <[islot V (at_ (A i0)) bn := m]> V in
  laid V' A fb C' /\ forall i j, 1 <= i < fi -> 0 <= j <= MAXFILE -> islot V' (at_ (A i)) j = islot V (at_ (A i)) j.
Proof.
  intros L Hi0 Hbn Hn C' HC V'. pose proof L as [L1 L2 L3 L4 L5].
  assert (Hs : forall i j, 1 <= i < fi -> 0 <= j <= MAXFILE -> islot V' (at_ (A i)) j = islot V (at_ (A i)) j).
  { intros i j Hi Hj. unfold islot, fblock. destruct (j =? MAXFILE); [reflexivity|]. destruct (j <? NDIRECT); [reflexivity|].
    destruct (_ =? 0); [reflexivity|]. unfold V'. rewrite fn_lookup_insert_ne; [reflexivity|].
    exact (indirect_apart V A fb C i0 bn i L Hi0 Hbn Hi Hn). }
  split; [|exact Hs]. constructor; auto.
  - intros i j Hi Hj. rewrite Hs by assumption. auto.
  - intros i j i' j' Hi Hj Hi' Hj'. rewrite !Hs by assumption. auto.
  - intros i off Hi Ho. rewrite HC by assumption. assert (Hb : 0 <= off / BSIZE < MAXFILE) by (unfold MAXBYTES in Ho; fsdiv).
    rewrite <- L4 by assumption. unfold fbyte. rewrite <- !islot_block by exact Hb. rewrite Hs by lia.
    destruct ((i =? i0) && (off / BSIZE =? bn)) eqn:E.
    + assert (i = i0 /\ off / BSIZE = bn) as [-> ->] by lia. replace (_ =? 0) with false by lia. unfold V'. rewrite fn_lookup_insert. reflexivity.
    + destruct (Z.eqb_spec (islot V (at_ (A i)) (off / BSIZE)) 0) as [|Hn']; [reflexivity|]. unfold V'.
      rewrite fn_lookup_insert_ne; [reflexivity|]. intros Heq.
      destruct (L3 i (off / BSIZE) i0 bn) as [-> ->]; auto; lia.
  - intros b Hb. unfold V'. rewrite fn_lookup_insert_ne; [apply L5, Hb|]. specialize (L2 i0 bn Hi0 ltac:(lia) Hn). lia.
Qed.

(** The block addresses with those of inode [i0] replaced. *)
Lemma insert_addrs (A : Z -> Z -> Z) i0 a i : <[i0 := a]> A i = if i =? i0 then a else A i.
Proof. unfold insert, fn_insert. destruct (Z.eqb_spec i i0) as [->|Hn]; case_decide; congruence. Qed.

(** An address in the inode becomes [fb]. *)
Lemma laid_address V A fb C i0 a a' k :
  laid V (<[i0 := a]> A) fb C -> fb < FSSIZE -> 1 <= i0 < fi -> 0 <= k <= NDIRECT -> a k = 0 ->
  (forall k', 0 <= k' <= NDIRECT -> a' k' = if k' =? k then fb else a k') ->
  let j0 := if k =? NDIRECT then MAXFILE else k in
  laid V (<[i0 := a']> A) (fb + 1) C /\
  forall j, 0 <= j <= MAXFILE -> islot V (at_ a') j = if j =? j0 then fb else islot V (at_ a) j.
Proof.
  intros L Hlt Hi0 Hk H0 Ha j0. pose proof L as [L1 L2 L3 L4 L5]. change (data_start sb0) with 46 in L1.
  assert (Hs : forall j, 0 <= j <= MAXFILE -> islot V (at_ a') j = if j =? j0 then fb else islot V (at_ a) j).
  { intros j Hj. unfold j0, islot, fblock. cbn [at_ i_addrs]. rewrite (Ha NDIRECT) by (change NDIRECT with 12; lia).
    change MAXFILE with 268 in *. change NDIRECT with 12 in *. destruct (Z.eqb_spec j 268) as [->|Hj1].
    { destruct (Z.eqb_spec 12 k) as [<-|]; [reflexivity|]. replace (k =? 12) with false by lia. replace (268 =? k) with false by lia. reflexivity. }
    destruct (Z.ltb_spec j 12) as [Hj2|Hj2].
    { rewrite Ha by lia. destruct (Z.eqb_spec k 12) as [->|]; [|reflexivity]. replace (j =? 12) with false by lia. replace (j =? 268) with false by lia. reflexivity. }
    destruct (Z.eqb_spec 12 k) as [<-|Hk12].
    - change (12 =? 12) with true. cbv iota. replace (j =? 268) with false by lia. replace (fb =? 0) with false by lia. rewrite H0. cbn [Z.eqb].
      rewrite (load32_block _ zeroes) by (try apply L5; change BSIZE with 1024; lia). apply le_load_zero. intros; reflexivity.
    - replace (k =? 12) with false by lia. replace (j =? k) with false by lia. reflexivity. }
  assert (Hj0 : 0 <= j0 <= MAXFILE) by (unfold j0; change MAXFILE with 268; change NDIRECT with 12 in *; destruct (k =? 12); lia).
  split; [|exact Hs]. apply (laid_grow V (<[i0 := a]> A) fb C V _ i0 j0); auto.
  - rewrite insert_addrs, Z.eqb_refl. unfold j0, islot, fblock. cbn [at_ i_addrs]. change MAXFILE with 268 in *. change NDIRECT with 12 in *.
    destruct (Z.eqb_spec k 12) as [->|]; [exact H0|]. replace (k =? 268) with false by lia. replace (k <? 12) with true by lia. exact H0.
  - intros i j Hi Hj. rewrite !insert_addrs. destruct (Z.eqb_spec i i0); [apply Hs, Hj | reflexivity].
Qed.

(** An entry of the indirect block becomes [fb]. *)
Lemma laid_entry V A fb C i0 bn :
  let ind := A i0 NDIRECT in let V' := <[ind := store32 (V ind) (4 * (bn - NDIRECT)) fb]> V in
  laid V A fb C -> fb < FSSIZE -> 1 <= i0 < fi -> NDIRECT <= bn < MAXFILE -> ind <> 0 -> islot V (at_ (A i0)) bn = 0 ->
  laid V' A (fb + 1) C /\
  forall i j, 1 <= i < fi -> 0 <= j <= MAXFILE -> islot V' (at_ (A i)) j = if (i =? i0) && (j =? bn) then fb else islot V (at_ (A i)) j.
Proof.
  intros ind V' L Hlt Hi0 Hbn Hind H0. pose proof L as [L1 L2 L3 L4 L5]. change (data_start sb0) with 46 in L1.
  assert (Hir : 46 <= ind < fb).
  { pose proof (L2 i0 MAXFILE Hi0 ltac:(change MAXFILE with 268; lia)) as H. rewrite islot_ind in H. exact (H Hind). }
  assert (Hs : forall i j, 1 <= i < fi -> 0 <= j <= MAXFILE -> islot V' (at_ (A i)) j = if (i =? i0) && (j =? bn) then fb else islot V (at_ (A i)) j).
  { intros i j Hi Hj. unfold islot, fblock. cbn [at_ i_addrs]. change MAXFILE with 268 in *. change NDIRECT with 12 in *.
    destruct (Z.eqb_spec j 268) as [->|Hj1]; [replace (268 =? bn) with false by lia; rewrite andb_false_r; reflexivity|].
    destruct (Z.ltb_spec j 12) as [Hj2|Hj2]; [replace (j =? bn) with false by lia; rewrite andb_false_r; reflexivity|].
    destruct (Z.eqb_spec (A i 12) 0) as [Ez|En].
    { replace (i =? i0) with false; [reflexivity|]. symmetry. apply Z.eqb_neq. intros ->. exact (Hind Ez). }
    destruct (Z.eqb_spec i i0) as [->|Hne]; cbn [andb].
    - fold ind. unfold V'. rewrite fn_lookup_insert. destruct (Z.eqb_spec j bn) as [->|Hnb].
      + unfold load32, store32. rewrite le_load_store_eq, Z.mod_small; [reflexivity|]. unfold FSSIZE in Hlt. cbn. lia.
      + unfold load32, store32. apply le_load_store_ne. cbn. lia.
    - unfold V'. rewrite fn_lookup_insert_ne; [reflexivity|]. intros Heq. apply Hne.
      assert (Hii : islot V (at_ (A i0)) 268 = islot V (at_ (A i)) 268) by exact Heq.
      destruct (L3 i 268 i0 268 Hi ltac:(lia) Hi0 ltac:(lia) En Hii) as [E _]. congruence. }
  split; [|exact Hs]. apply (laid_grow V A fb C V' A i0 bn); auto; [change NDIRECT with 12 in *; lia | |].
  - intros i b Hi Hb Hn. unfold V'. apply fn_lookup_insert_ne. intros E. exact (indirect_apart V A fb C i b i0 L Hi Hb Hi0 Hn (eq_sym E)).
  - intros b Hb. unfold V'. apply fn_lookup_insert_ne. lia.
Qed.
End Laid.

(** How many blocks a file of [L] bytes takes. *)
Definition nblk (L : Z) : Z := (L + BSIZE - 1) / BSIZE + (if NDIRECT * BSIZE <? L then 1 else 0).

Lemma din_addr_set din k v k' : 0 <= k -> 0 <= k' -> 0 <= v < FSSIZE ->
  din_addr (set_din_addr k v din) k' = if k' =? k then v else din_addr din k'.
Proof.
  intros Hk Hk' Hv. unfold din_addr, set_din_addr, load32, store32. destruct (Z.eqb_spec k' k) as [->|Hne].
  - rewrite le_load_store_eq. apply Z.mod_small. unfold FSSIZE in Hv. cbn. lia.
  - apply le_load_store_ne. cbn. lia.
Qed.

Lemma din_head_set din k v n p : 0 <= k -> p + Z.of_nat n <= 12 -> le_load n (set_din_addr k v din) p = le_load n din p.
Proof. intros Hk Hp. unfold set_din_addr, store32. apply le_load_store_ne. lia. Qed.

Section Append.
Context (fi : Z) (i0 : Z) (Hi0 : 1 <= i0 < fi) (A : Z -> Z -> Z).

(** The block for the byte at [L] is there: what [iappend_block] leaves. *)
Record placed (C : Z -> list byte) (L : Z) (V : Z -> mem) (din : mem) (V' : Z -> mem) (fb' : Z) (din' : mem) : Prop := {
  pl_laid : laid fi V' (<[i0 := din_addr din']> A) fb' C;
  pl_exact : exact_blocks V' (din_addr din') (L + 1);
  pl_other : forall i j, 1 <= i < fi -> i <> i0 -> 0 <= j <= MAXFILE -> islot V' (at_ (A i)) j = islot V (at_ (A i)) j;
  pl_meta : forall b, b < data_start sb0 -> V' b = V b;
  pl_head : forall n p, p + Z.of_nat n <= 12 -> le_load n din' p = le_load n din p
}.

(** The blocks up to that of byte [L], from those below [L]. *)
Lemma exact_next V a V' a' L :
  0 <= L -> exact_blocks V a L ->
  (forall bn, 0 <= bn < MAXFILE -> fblock V' (at_ a') bn <> 0 <-> fblock V (at_ a) bn <> 0 \/ bn = L / BSIZE) ->
  (a' NDIRECT <> 0 <-> a NDIRECT <> 0 \/ NDIRECT <= L / BSIZE) ->
  exact_blocks V' a' (L + 1).
Proof.
  intros HL [E1 E2] H1 H2. split.
  - intros bn Hb. rewrite H1, E1 by exact Hb. fsdiv.
  - rewrite H2, E2. change NDIRECT with 12. fsdiv.
Qed.

Lemma nblk_same L : 0 <= L -> L mod BSIZE <> 0 -> nblk (L + 1) = nblk L.
Proof.
  intros HL Hm. unfold nblk. change (NDIRECT * BSIZE) with 12288. change BSIZE with 1024 in *.
  destruct (Z.ltb_spec 12288 L); destruct (Z.ltb_spec 12288 (L + 1)); zdiv.
Qed.

Lemma nblk_new L : 0 <= L -> L mod BSIZE = 0 -> nblk (L + 1) = nblk L + (if L =? NDIRECT * BSIZE then 2 else 1).
Proof.
  intros HL Hm. unfold nblk. change (NDIRECT * BSIZE) with 12288. change BSIZE with 1024 in *.
  destruct (Z.ltb_spec 12288 L); destruct (Z.ltb_spec 12288 (L + 1)); destruct (Z.eqb_spec L 12288); zdiv.
Qed.

(** The block is there when [L] is inside of it, and not when it begins there. *)
Lemma exact_at V a L : 0 <= L < MAXBYTES -> exact_blocks V a L -> fblock V (at_ a) (L / BSIZE) <> 0 <-> L mod BSIZE <> 0.
Proof. intros HL [E _]. rewrite E by (unfold MAXBYTES in HL; fsdiv). fsdiv. Qed.

Lemma xint_addr din k : xint (din_addr din k) = din_addr din k.
Proof. apply xint_load. Qed.
Lemma xint_block b : 0 <= b < FSSIZE -> xint b = b.
Proof. intros Hb. rewrite xint_u32. apply u32_small. unfold FSSIZE in Hb. lia. Qed.
Lemma fblock_direct V a bn : bn < NDIRECT -> fblock V (at_ a) bn = a bn.
Proof. intros Hb. unfold fblock. replace (bn <? NDIRECT) with true by lia. reflexivity. Qed.
Lemma fblock_indirect V a bn : NDIRECT <= bn -> a NDIRECT <> 0 -> fblock V (at_ a) bn = load32 (V (a NDIRECT)) (4 * (bn - NDIRECT)).
Proof.
  intros Hb Hn. unfold fblock. cbn [at_ i_addrs]. replace (bn <? NDIRECT) with false by lia. replace (a NDIRECT =? 0) with false by lia. reflexivity.
Qed.

(** Nothing to allocate. *)
Lemma placed_same C L V fb din : 0 <= L < MAXBYTES ->
  laid fi V (<[i0 := din_addr din]> A) fb C -> exact_blocks V (din_addr din) L -> fblock V (at_ (din_addr din)) (L / BSIZE) <> 0 ->
  fb + (nblk (L + 1) - nblk L) = fb /\ placed C L V din V fb din.
Proof.
  intros HL La Ex Hn. pose proof (proj1 (exact_at V _ L HL Ex) Hn) as Hm. rewrite nblk_same by (assumption || lia).
  split; [lia|]. constructor; auto. apply (exact_next V (din_addr din) V (din_addr din) L); [lia | exact Ex | |].
  - intros bn Hb. split; [auto|]. intros [H| ->]; assumption.
  - destruct Ex as [_ E2]. rewrite E2. change NDIRECT with 12. fsdiv.
Qed.

Lemma iappend_direct_wp C L V fb din (Q : Z * mem -> image -> Prop) :
  laid fi V (<[i0 := din_addr din]> A) fb C -> exact_blocks V (din_addr din) L -> 0 <= L < NDIRECT * BSIZE ->
  fb + (nblk (L + 1) - nblk L) <= FSSIZE ->
  (forall V' din', placed C L V din V' (fb + (nblk (L + 1) - nblk L)) din' ->
     Q (fblock V' (at_ (din_addr din')) (L / BSIZE), din') (full V' fi (fb + (nblk (L + 1) - nblk L)))) ->
  wp (iappend_block (L / BSIZE) din) Q (full V fi fb).
Proof.
  intros La Ex HL Hfb HQ. assert (HM : 0 <= L < MAXBYTES) by (change MAXBYTES with 274432; change (NDIRECT * BSIZE) with 12288 in HL; lia).
  set (fbn := L / BSIZE) in *. assert (Hbn : 0 <= fbn < NDIRECT) by (unfold fbn; change NDIRECT with 12 in *; fsdiv).
  pose proof (la_fb _ _ _ _ _ La) as Hf. change (data_start sb0) with 46 in Hf. pose proof (exact_at V _ L HM Ex) as Hat. fold fbn in Hat.
  rewrite fblock_direct in Hat by lia. unfold iappend_block. replace (fbn <? NDIRECT) with true by lia.
  rewrite xint_addr. apply wp_bind. destruct (Z.eqb_spec (din_addr din fbn) 0) as [E0|E0].
  - assert (Hm : L mod BSIZE = 0) by (destruct (decide (L mod BSIZE = 0)); [assumption | exfalso; tauto]).
    rewrite (nblk_new L), (proj2 (Z.eqb_neq L (NDIRECT * BSIZE))) in * by lia.
    replace (fb + (nblk L + 1 - nblk L)) with (fb + 1) in * by lia.
    apply wp_bind, next_block_wp; [lia|]. apply wp_ret, wp_ret. rewrite xint_addr, xint_block by lia.
    set (din' := set_din_addr fbn fb din).
    assert (Ha : forall k', 0 <= k' <= NDIRECT -> din_addr din' k' = if k' =? fbn then fb else din_addr din k') by (intros k' Hk; apply din_addr_set; lia).
    destruct (laid_address fi V A fb C i0 (din_addr din) (din_addr din') fbn La ltac:(lia) Hi0 ltac:(lia) E0 Ha) as [La' Hs].
    replace (fbn =? NDIRECT) with false in Hs by lia.
    rewrite <- (fblock_direct V (din_addr din') fbn) by lia. apply HQ. constructor; auto.
    + apply (exact_next V (din_addr din) V (din_addr din') L); [lia | exact Ex | |].
      * intros bn Hb. rewrite <- !islot_block by exact Hb. rewrite Hs by lia. fold fbn. destruct (Z.eqb_spec bn fbn); split; intros; try lia; tauto.
      * rewrite Ha by lia. replace (NDIRECT =? fbn) with false by lia. fold fbn. split; [auto|]. intros [H1|H1]; [exact H1 | lia].
    + intros n p Hp. apply din_head_set; lia.
  - destruct (placed_same C L V fb din HM La Ex) as [Efb P]; [rewrite fblock_direct by (fold fbn; lia); exact E0|].
    rewrite Efb in HQ. apply wp_ret, wp_ret. rewrite xint_addr, <- (fblock_direct V (din_addr din) fbn) by lia. apply HQ, P.
Qed.

(** The entry of the indirect block for [L]; its blocks, and those of the
    other inodes, with the new one when there was none. *)
Lemma iappend_entry_wp C L V fb din (Q : Z -> image -> Prop) :
  let a := din_addr din in let bn := L / BSIZE in
  laid fi V (<[i0 := a]> A) fb C -> NDIRECT <= bn < MAXFILE -> a NDIRECT <> 0 ->
  (fblock V (at_ a) bn <> 0 -> Q (fblock V (at_ a) bn) (full V fi fb)) ->
  (fblock V (at_ a) bn = 0 -> fb < FSSIZE /\ forall V', laid fi V' (<[i0 := a]> A) (fb + 1) C ->
     (forall j, 0 <= j <= MAXFILE -> islot V' (at_ a) j = if j =? bn then fb else islot V (at_ a) j) ->
     (forall i j, 1 <= i < fi -> i <> i0 -> 0 <= j <= MAXFILE -> islot V' (at_ (A i)) j = islot V (at_ (A i)) j) ->
     (forall b, b < data_start sb0 -> V' b = V b) -> Q (fblock V' (at_ a) bn) (full V' fi (fb + 1))) ->
  wp (iappend_entry (a NDIRECT) (bn - NDIRECT)) Q (full V fi fb).
Proof.
  intros a bn La Hbn Hind HQ HQ'. pose proof (la_fb _ _ _ _ _ La) as Hf. pose proof La as [_ L2 _ _ _].
  assert (Ei : <[i0 := a]> A i0 = a) by (rewrite insert_addrs, Z.eqb_refl; reflexivity).
  assert (Hir : data_start sb0 <= a NDIRECT < fb).
  { pose proof (L2 i0 MAXFILE Hi0 ltac:(change MAXFILE with 268; lia)) as H. rewrite islot_ind, Ei in H. exact (H Hind). }
  change (data_start sb0) with 46 in *. rewrite fblock_indirect in HQ, HQ' by lia.
  unfold iappend_entry. apply wp_bind, rsect_wp; [lia|]. apply wp_bind.
  destruct (Z.eqb_spec (load32 (V (a NDIRECT)) (4 * (bn - NDIRECT))) 0) as [E0|E0].
  - destruct (HQ' E0) as [Hlt HQ2]. clear HQ HQ'.
    destruct (laid_entry fi V (<[i0 := a]> A) fb C i0 bn La Hlt Hi0 Hbn) as [La' Hs]; [rewrite Ei; exact Hind | |].
    { rewrite Ei, islot_block by (change NDIRECT with 12 in *; lia). rewrite fblock_indirect by lia. exact E0. }
    rewrite Ei in La', Hs. set (V' := <[a NDIRECT := _]> V) in *.
    apply wp_bind, next_block_wp; [lia|]. rewrite xint_block by lia. cbv zeta. apply wp_bind, wsect_wp; [lia|]. fold V'. apply wp_ret, wp_ret.
    replace (xint _) with (fblock V' (at_ a) bn); [apply HQ2; auto|].
    + intros j Hj. specialize (Hs i0 j Hi0 Hj). rewrite Ei, Z.eqb_refl in Hs. exact Hs.
    + intros i j Hi Hne Hj. specialize (Hs i j Hi Hj). rewrite insert_addrs, (proj2 (Z.eqb_neq i i0) Hne) in Hs. exact Hs.
    + intros b Hb. unfold V'. apply fn_lookup_insert_ne. lia.
    + rewrite xint_load, fblock_indirect by lia. unfold V'. rewrite fn_lookup_insert. reflexivity.
  - apply wp_ret, wp_ret. rewrite xint_load. apply HQ, E0.
Qed.

Lemma iappend_block_wp C L V fb din (Q : Z * mem -> image -> Prop) :
  laid fi V (<[i0 := din_addr din]> A) fb C -> exact_blocks V (din_addr din) L -> 0 <= L < MAXBYTES ->
  fb + (nblk (L + 1) - nblk L) <= FSSIZE ->
  (forall V' din', placed C L V din V' (fb + (nblk (L + 1) - nblk L)) din' ->
     Q (fblock V' (at_ (din_addr din')) (L / BSIZE), din') (full V' fi (fb + (nblk (L + 1) - nblk L)))) ->
  wp (iappend_block (L / BSIZE) din) Q (full V fi fb).
Proof.
  intros La Ex HL Hfb HQ. destruct (decide (L < NDIRECT * BSIZE)) as [Hd|Hd]; [eapply iappend_direct_wp; eauto; lia|].
  assert (Hbn : NDIRECT <= L / BSIZE < MAXFILE) by (unfold MAXBYTES in *; change NDIRECT with 12 in *; fsdiv).
  pose proof (la_fb _ _ _ _ _ La) as Hf. change (data_start sb0) with 46 in Hf. pose proof (exact_at V _ L HL Ex) as Hat.
  unfold iappend_block. replace (L / BSIZE <? NDIRECT) with false by lia. rewrite xint_addr. apply wp_bind.
  destruct (Z.eqb_spec (din_addr din NDIRECT) 0) as [E0|E0].
  - assert (EL : L = NDIRECT * BSIZE) by (destruct Ex as [_ E2]; lia).
    assert (Em : L mod BSIZE = 0) by (rewrite EL; reflexivity). rewrite (nblk_new L), (proj2 (Z.eqb_eq L _) EL) in * by lia.
    replace (fb + (nblk L + 2 - nblk L)) with (fb + 1 + 1) in * by lia.
    apply wp_bind, next_block_wp; [lia|]. apply wp_ret. rewrite xint_addr, xint_block by lia.
    set (din1 := set_din_addr NDIRECT fb din).
    assert (Ha : forall k', 0 <= k' <= NDIRECT -> din_addr din1 k' = if k' =? NDIRECT then fb else din_addr din k')
      by (intros k' Hk; apply din_addr_set; change NDIRECT with 12; lia).
    destruct (laid_address fi V A fb C i0 (din_addr din) (din_addr din1) NDIRECT La ltac:(lia) Hi0 ltac:(change NDIRECT with 12; lia) E0 Ha) as [La1 Hs1].
    rewrite Z.eqb_refl in Hs1. assert (E1 : din_addr din1 NDIRECT = fb) by (rewrite Ha, Z.eqb_refl by (change NDIRECT with 12; lia); reflexivity).
    assert (Hz1 : fblock V (at_ (din_addr din1)) (L / BSIZE) = 0).
    { rewrite <- islot_block by (change NDIRECT with 12 in *; lia). rewrite Hs1 by (change NDIRECT with 12 in *; lia).
      rewrite (proj2 (Z.eqb_neq (L / BSIZE) MAXFILE)), islot_block by (change NDIRECT with 12 in *; lia). destruct Ex as [E _]. 
      destruct (decide (fblock V (at_ (din_addr din)) (L / BSIZE) = 0)) as [|Hn]; [assumption | exfalso; tauto]. }
    apply wp_bind, (iappend_entry_wp C L V (fb + 1) din1); auto; [lia | tauto |]. intros _. split; [lia|].
    intros V' La' Hs Ho Hm. apply wp_ret, HQ. constructor; auto; [|intros n p Hp; apply din_head_set; [change NDIRECT with 12|]; lia].
    apply (exact_next V (din_addr din) V' (din_addr din1) L); [lia | exact Ex | |].
    + intros bn Hb. rewrite <- !islot_block by exact Hb. rewrite Hs, Hs1 by lia.
      destruct (Z.eqb_spec bn (L / BSIZE)); [split; intros; [auto | lia]|]. rewrite (proj2 (Z.eqb_neq bn MAXFILE)) by lia. tauto.
    + rewrite E1. split; [intros _; right; lia | lia].
  - apply wp_ret, wp_bind. rewrite xint_addr. apply (iappend_entry_wp C L V fb din); auto.
    + intros Hn. apply wp_ret. destruct (placed_same C L V fb din HL La Ex Hn) as [Efb P]. rewrite Efb in HQ. apply HQ, P.
    + intros Hz. assert (Em : L mod BSIZE = 0) by (destruct (decide (L mod BSIZE = 0)); [assumption | exfalso; tauto]).
      assert (Hne : L <> NDIRECT * BSIZE) by (intros ->; destruct Ex as [_ E2]; tauto || lia).
      rewrite (nblk_new L), (proj2 (Z.eqb_neq L _) Hne) in * by lia. replace (fb + (nblk L + 1 - nblk L)) with (fb + 1) in * by lia.
      split; [lia|]. intros V' La' Hs Ho Hm. apply wp_ret, HQ. constructor; auto.
      apply (exact_next V (din_addr din) V' (din_addr din) L); [lia | exact Ex | |].
      * intros bn Hb. rewrite <- !islot_block by exact Hb. rewrite Hs by lia. destruct (Z.eqb_spec bn (L / BSIZE)); [split; intros; [auto | lia] | tauto].
      * split; [auto | intros _; exact E0].
Qed.
End Append.

Lemma nblk_mono L L' : 0 <= L <= L' -> nblk L <= nblk L'.
Proof.
  intros H. unfold nblk. change (NDIRECT * BSIZE) with 12288. destruct (Z.ltb_spec 12288 L); destruct (Z.ltb_spec 12288 L'); fsdiv.
Qed.

(** Within a block the number of blocks does not change. *)
Lemma nblk_block L n : 0 <= L -> 0 < n -> L mod BSIZE + n <= BSIZE -> nblk (L + n) = nblk (L + 1).
Proof.
  intros HL Hn Hb. unfold nblk. change (NDIRECT * BSIZE) with 12288. change BSIZE with 1024 in *.
  destruct (Z.ltb_spec 12288 (L + n)); destruct (Z.ltb_spec 12288 (L + 1)); zdiv.
Qed.

Lemma exact_block V a L n : 0 <= L -> 0 < n -> L mod BSIZE + n <= BSIZE -> exact_blocks V a (L + 1) -> exact_blocks V a (L + n).
Proof.
  intros HL Hn Hb [E1 E2]. split.
  - intros bn Hbn. rewrite E1 by exact Hbn. fsdiv.
  - rewrite E2. change (NDIRECT * BSIZE) with 12288. fsdiv.
Qed.

(** ** The inode table *)

(** Field of [n] bytes at offset [p] of the inode [i] on disk. *)
Definition field (n : nat) (p : Z) (V : Z -> mem) (i : Z) : Z := le_load n (V (IBLOCK i sb0)) (dinode_off i + p).
Definition disk_addr (V : Z -> mem) (i k : Z) : Z := field 4 (12 + 4 * k) V i.
Definition stored (V : Z -> mem) (i : Z) (din : mem) : Z -> mem :=
  <[IBLOCK i sb0 := blit (V (IBLOCK i sb0)) (dinode_off i) din 0 DINODE_SIZE]> V.

Lemma iblock_sb0 i : 0 <= i < NINODES -> IBLOCK i sb0 = 32 + i / 16 /\ dinode_off i = 64 * (i mod 16).
Proof.
  intros Hi. unfold IBLOCK, dinode_off, NINODES in *. change (sb_inodestart sb0) with 32. change IPB with 16. change DINODE_SIZE with 64.
  rewrite u32_small by zdiv. lia.
Qed.

Lemma field_stored n p V i din i' : 0 <= i < NINODES -> 0 <= i' < NINODES -> 0 <= p -> p + Z.of_nat n <= 64 ->
  field n p (stored V i din) i' = if i' =? i then le_load n din p else field n p V i'.
Proof.
  intros Hi Hi' Hp Hn. unfold field, stored. destruct (iblock_sb0 i Hi) as [E1 E2], (iblock_sb0 i' Hi') as [E1' E2'].
  change DINODE_SIZE with 64. destruct (decide (IBLOCK i' sb0 = IBLOCK i sb0)) as [E|E].
  - rewrite E, fn_lookup_insert. destruct (Z.eqb_spec i' i) as [->|Hne].
    + apply le_load_ext. intros k Hk. rewrite blit_in by lia. f_equal. lia.
    + apply le_load_ext. intros k Hk. rewrite blit_out; [reflexivity|]. zdiv.
  - rewrite fn_lookup_insert_ne by congruence. replace (i' =? i) with false; [reflexivity|]. symmetry. apply Z.eqb_neq. congruence.
Qed.

Lemma stored_other V i din b : 0 <= i < NINODES -> b < 32 \/ 45 <= b -> stored V i din b = V b.
Proof. intros Hi Hb. unfold stored. apply fn_lookup_insert_ne. destruct (iblock_sb0 i Hi) as [-> _]. unfold NINODES in Hi. zdiv. Qed.

Lemma winode_wp i din V fi fb (Q : unit -> image -> Prop) :
  0 <= i < NINODES -> Q tt (full (stored V i din) fi fb) -> wp (winode i din) Q (full V fi fb).
Proof.
  intros Hi HQ. destruct (iblock_sb0 i Hi) as [E _]. assert (Hr : 0 <= IBLOCK i sb0 < FSSIZE) by (rewrite E; unfold NINODES, FSSIZE in *; zdiv).
  unfold winode. apply wp_bind, wp_gets. cbn [im_sb full]. apply wp_bind, rsect_wp; [exact Hr|]. apply wsect_wp; [exact Hr | exact HQ].
Qed.

Lemma rinode_wp i V fi fb (Q : mem -> image -> Prop) :
  0 <= i < NINODES ->
  (forall din, (forall n p, 0 <= p -> p + Z.of_nat n <= 64 -> le_load n din p = field n p V i) -> Q din (full V fi fb)) ->
  wp (rinode i) Q (full V fi fb).
Proof.
  intros Hi HQ. destruct (iblock_sb0 i Hi) as [E _]. assert (Hr : 0 <= IBLOCK i sb0 < FSSIZE) by (rewrite E; unfold NINODES, FSSIZE in *; zdiv).
  unfold rinode. apply wp_bind, wp_gets. cbn [im_sb full]. apply wp_bind, rsect_wp; [exact Hr|]. apply wp_ret, HQ.
  intros n p Hp Hn. apply le_load_ext. intros k Hk. rewrite blit_in by (change DINODE_SIZE with 64; lia). f_equal. lia.
Qed.

(** The blocks before the data do not matter to the files. *)
Lemma laid_meta fi V A fb C V' : laid fi V A fb C -> (forall b, data_start sb0 <= b -> V' b = V b) ->
  laid fi V' A fb C /\ forall i j, 1 <= i < fi -> 0 <= j <= MAXFILE -> islot V' (at_ (A i)) j = islot V (at_ (A i)) j.
Proof.
  intros [L1 L2 L3 L4 L5] HV.
  assert (Hs : forall i j, 1 <= i < fi -> 0 <= j <= MAXFILE -> islot V' (at_ (A i)) j = islot V (at_ (A i)) j).
  { intros i j Hi Hj. unfold islot, fblock. destruct (j =? MAXFILE); [reflexivity|]. destruct (j <? NDIRECT); [reflexivity|].
    destruct (Z.eqb_spec (i_addrs (at_ (A i)) NDIRECT) 0) as [|Hn]; [reflexivity|]. rewrite HV; [reflexivity|].
    pose proof (L2 i MAXFILE Hi ltac:(lia)) as H. rewrite islot_ind in H. apply H, Hn. }
  split; [|exact Hs]. constructor; auto.
  - intros i j Hi Hj. rewrite Hs by assumption. auto.
  - intros i j i' j' Hi Hj Hi' Hj'. rewrite !Hs by assumption. auto.
  - intros i off Hi Ho. rewrite <- L4 by assumption. assert (Hb : 0 <= off / BSIZE < MAXFILE) by (unfold MAXBYTES in Ho; fsdiv).
    unfold fbyte. rewrite <- !islot_block by exact Hb. rewrite Hs by lia.
    destruct (Z.eqb_spec (islot V (at_ (A i)) (off / BSIZE)) 0) as [|Hn]; [reflexivity|]. rewrite HV; [reflexivity|].
    apply (L2 i (off / BSIZE) Hi ltac:(lia) Hn).
  - intros b Hb. rewrite HV by lia. auto.
Qed.

Lemma exact_cong V a V' a' L : (forall j, 0 <= j <= MAXFILE -> islot V' (at_ a') j = islot V (at_ a) j) -> exact_blocks V a L -> exact_blocks V' a' L.
Proof.
  intros Hs [E1 E2]. split.
  - intros bn Hb. rewrite <- islot_block, Hs, islot_block by lia. apply E1, Hb.
  - pose proof (Hs MAXFILE ltac:(change MAXFILE with 268; lia)) as H. rewrite !islot_ind in H. cbn in H. rewrite H. exact E2.
Qed.

(** ** The image between two steps of the program *)

Record disk_ok (V : Z -> mem) (fi fb : Z) (C : Z -> list byte) (T : Z -> Z) : Prop := {
  dk_fi : 1 <= fi <= NINODES;
  dk_laid : laid fi V (disk_addr V) fb C;
  dk_exact : forall i, 1 <= i < fi -> exact_blocks V (disk_addr V i) (Z.of_nat (length (C i)));
  dk_size : forall i, 1 <= i < fi -> field 4 8 V i = Z.of_nat (length (C i)) /\ Z.of_nat (length (C i)) <= MAXBYTES;
  dk_head : forall i, 1 <= i < fi -> field 2 0 V i = T i /\ field 2 2 V i = 0 /\ field 2 4 V i = 0 /\ field 2 6 V i = 1;
  dk_unused : forall i, fi <= i < NINODES -> field 2 0 V i = 0;
  dk_sb : get_sb (V 1) = sb0;
  dk_log : V 2 ≡ zeroes
}.

(** Bytes put at the end of a file, in one block. *)
Lemma laid_append fi i0 V A fb C bs :
  let L := Z.of_nat (length (C i0)) in let n := Z.of_nat (length bs) in
  laid fi V A fb C -> 1 <= i0 < fi -> 0 < n -> L mod BSIZE + n <= BSIZE -> L < MAXBYTES -> fblock V (at_ (A i0)) (L / BSIZE) <> 0 ->
  let V' := <[fblock V (at_ (A i0)) (L / BSIZE) := put_bytes (V (fblock V (at_ (A i0)) (L / BSIZE))) (L - L / BSIZE * BSIZE) bs]> V in
  laid fi V' A fb (<[i0 := C i0 ++ bs]> C) /\
  forall i j, 1 <= i < fi -> 0 <= j <= MAXFILE -> islot V' (at_ (A i)) j = islot V (at_ (A i)) j.
Proof.
  intros L n La Hi0 Hn Hb HL Hx. assert (Hbn : 0 <= L / BSIZE < MAXFILE) by (unfold L, MAXBYTES in *; fsdiv).
  assert (HL0 : 0 <= L) by (unfold L; lia).
  rewrite <- islot_block in * by exact Hbn. cbv zeta. set (bn := L / BSIZE) in *. eapply laid_write; eauto.
  intros i off Hi Ho. unfold insert, fn_insert. case_decide as E.
  - subst i. rewrite Z.eqb_refl. cbn [andb]. destruct (Z.eqb_spec (off / BSIZE) bn) as [Eb|Eb].
    + destruct (decide (L <= off)) as [Hlo|Hlo].
      * rewrite app_nth2 by (unfold L in Hlo; lia). destruct (decide (off < L + n)) as [Hhi|Hhi].
        -- rewrite put_bytes_in by (unfold bn in *; fold n; fsdiv). f_equal. unfold L, bn in *. fsdiv.
        -- rewrite nth_overflow by (unfold L, n in *; lia). rewrite put_bytes_out by (unfold bn in *; fold n; fsdiv).
           assert (Ef : fbyte V (at_ (A i0)) off = x00) by (rewrite (la_bytes _ _ _ _ _ La i0 off Hi Ho); apply nth_overflow; unfold L in *; lia).
           unfold fbyte in Ef. rewrite Eb, <- islot_block, (proj2 (Z.eqb_neq _ 0) Hx) in Ef by exact Hbn. symmetry. exact Ef.
      * rewrite app_nth1 by (unfold L in Hlo; lia). rewrite put_bytes_out by (unfold bn in *; fold n; fsdiv).
        rewrite <- (la_bytes _ _ _ _ _ La i0 off Hi Ho). unfold fbyte. rewrite Eb, <- islot_block, (proj2 (Z.eqb_neq _ 0) Hx) by exact Hbn. reflexivity.
    + destruct (decide (Z.to_nat off < length (C i0))%nat) as [Hlt|Hge]; [apply app_nth1, Hlt|].
      rewrite !nth_overflow; [reflexivity | lia | rewrite length_app; unfold L, n, bn in *; fsdiv].
  - rewrite (proj2 (Z.eqb_neq i i0)) by congruence. reflexivity.
Qed.

Section Loop.
Context (fi i0 fb0 : Z) (V0 : Z -> mem) (C : Z -> list byte) (T : Z -> Z).
Context (DK : disk_ok V0 fi fb0 C T) (Hi0 : 1 <= i0 < fi).
Local Abbreviation L := (Z.of_nat (length (C i0))).

(** Inside of [iappend], with the bytes [done] in the file. *)
Record appending (done : list byte) (V : Z -> mem) (din : mem) (fb : Z) : Prop := {
  ap_laid : laid fi V (<[i0 := din_addr din]> (disk_addr V0)) fb (<[i0 := C i0 ++ done]> C);
  ap_exact : exact_blocks V (din_addr din) (L + Z.of_nat (length done));
  ap_fb : fb = fb0 + (nblk (L + Z.of_nat (length done)) - nblk L);
  ap_other : forall i j, 1 <= i < fi -> i <> i0 -> 0 <= j <= MAXFILE -> islot V (at_ (disk_addr V0 i)) j = islot V0 (at_ (disk_addr V0 i)) j;
  ap_meta : forall b, b < data_start sb0 -> V b = V0 b;
  ap_head : forall n p, 0 <= p -> p + Z.of_nat n <= 12 -> le_load n din p = field n p V0 i0
}.

Lemma iappend_step_wp done V din fb p (Q : Z * list byte * mem + Z * mem -> image -> Prop) :
  appending done V din fb -> p <> [] -> L + Z.of_nat (length done) + Z.of_nat (length p) <= MAXBYTES ->
  fb0 + (nblk (L + Z.of_nat (length done) + Z.of_nat (length p)) - nblk L) <= FSSIZE ->
  (forall bs p' V' din' fb', p = bs ++ p' -> bs <> [] -> appending (done ++ bs) V' din' fb' ->
     Q (inl (L + Z.of_nat (length (done ++ bs)), p', din')) (full V' fi fb')) ->
  wp (iappend_step (L + Z.of_nat (length done), p, din)) Q (full V fi fb).
Proof.
  intros [A1 A2 A3 A4 A5 A6] Hp Hmax Hfs HQ. set (off := L + Z.of_nat (length done)) in *.
  assert (Hn : 0 < Z.of_nat (length p)) by (destruct p; [congruence | cbn; lia]).
  unfold iappend_step. replace (Z.of_nat (length p) >? 0) with true by lia.
  assert (Hoff : 0 <= off < MAXBYTES) by (unfold off; lia). assert (Hbn : 0 <= off / BSIZE < MAXFILE) by (unfold MAXBYTES in Hoff; fsdiv).
  apply wp_bind, wp_panic_if; [rewrite (proj2 (Z.ltb_lt _ _)) by lia; reflexivity|].
  set (n1 := Z.min (Z.of_nat (length p)) (BSIZE - off mod BSIZE)).
  assert (Hn1 : 0 < n1 /\ off mod BSIZE + n1 <= BSIZE) by (unfold n1; fsdiv).
  assert (En1 : Z.min (Z.of_nat (length p)) (u32 ((off / BSIZE + 1) * BSIZE - off)) = n1).
  { change MAXBYTES with 274432 in Hoff. rewrite u32_small by fsdiv. unfold n1. f_equal. fsdiv. }
  set (bs := take (Z.to_nat n1) p). assert (Hbs : Z.of_nat (length bs) = n1) by (unfold bs; rewrite length_take; unfold n1; lia).
  assert (Hdb : Z.of_nat (length (done ++ bs)) = Z.of_nat (length done) + n1) by (rewrite length_app; lia).
  pose proof (nblk_mono (off + 1) (off + Z.of_nat (length p)) ltac:(lia)) as Hmono.
  apply wp_bind, (iappend_block_wp fi i0 Hi0 (disk_addr V0) (<[i0 := C i0 ++ done]> C) off V fb din); [exact A1 | exact A2 | exact Hoff | lia |].
  intros V1 din1 [P1 P2 P3 P4 P5]. set (fb1 := fb + _) in *. set (x := fblock V1 (at_ (din_addr din1)) (off / BSIZE)) in *.
  assert (Hx : x <> 0) by (destruct P2 as [P2 _]; apply P2; fsdiv).
  assert (Ei : forall a, <[i0 := a]> (disk_addr V0) i0 = a) by (intros a; rewrite insert_addrs, Z.eqb_refl; reflexivity).
  assert (EC : (<[i0 := C i0 ++ done]> C) i0 = C i0 ++ done) by apply fn_lookup_insert.
  destruct (laid_append fi i0 V1 (<[i0 := din_addr din1]> (disk_addr V0)) fb1 (<[i0 := C i0 ++ done]> C) bs P1 Hi0) as [La Hs];
    rewrite ?EC, ?Ei, ?length_app, ?Nat2Z.inj_add; fold off x; try lia.
  rewrite EC, Ei, length_app, Nat2Z.inj_add in La, Hs. fold off x in La, Hs. rewrite En1. fold bs.
  assert (Hxr : data_start sb0 <= x < FSSIZE).
  { pose proof (la_slot _ _ _ _ _ P1 i0 (off / BSIZE) Hi0 ltac:(lia)) as H. rewrite Ei, islot_block in H by exact Hbn. fold x in H.
    pose proof (la_fb _ _ _ _ _ P1). specialize (H Hx). lia. }
  change (data_start sb0) with 46 in *.
  apply wp_bind, rsect_wp; [lia|]. apply wp_bind, wsect_wp; [lia|]. set (V2 := <[x := _]> V1) in *. apply wp_ret.
  rewrite u32_small by (change MAXBYTES with 274432 in *; unfold n1; lia).
  replace (off + n1) with (L + Z.of_nat (length (done ++ bs))) by (rewrite Hdb; unfold off; lia).
  apply HQ; [symmetry; apply take_drop | intros ->; cbn in Hbs; lia |].
  assert (Ef : L + Z.of_nat (length (done ++ bs)) = off + n1) by (rewrite Hdb; unfold off; lia).
  constructor; rewrite ?Ef.
  - eapply laid_contents; [|exact La]. intros i _. unfold insert, fn_insert. case_decide; [rewrite app_assoc|]; reflexivity.
  - eapply exact_block; [lia | lia | lia |]. eapply exact_cong; [|exact P2]. intros j Hj. specialize (Hs i0 j Hi0 Hj). rewrite Ei in Hs. exact Hs.
  - rewrite (nblk_block off n1) by lia. unfold fb1. lia.
  - intros i j Hi Hne Hj. rewrite <- A4, <- P3 by assumption. specialize (Hs i j Hi Hj).
    rewrite insert_addrs, (proj2 (Z.eqb_neq i i0) Hne) in Hs. exact Hs.
  - intros b Hb. change (data_start sb0) with 46 in Hb. rewrite <- A5, <- P4 by exact Hb. unfold V2. apply fn_lookup_insert_ne. lia.
  - intros n q Hq Hnq. rewrite P5 by exact Hnq. apply A6; assumption.
Qed.

(** After the loop, with the inode written back. *)
Lemma appending_stored done V din fb :
  appending done V din fb -> L + Z.of_nat (length done) <= MAXBYTES ->
  disk_ok (stored V i0 (set_din_size (L + Z.of_nat (length done)) din)) fi fb (<[i0 := C i0 ++ done]> C) T.
Proof.
  intros [A1 A2 A3 A4 A5 A6] Hmax. destruct DK as [D1 D2 D3 D4 D5 D6 D7 D8]. set (sz := L + Z.of_nat (length done)) in *.
  set (din2 := set_din_size sz din). set (V' := stored V i0 din2).
  assert (HV' : forall b, data_start sb0 <= b -> V' b = V b) by (intros b Hb; apply stored_other; [lia | change (data_start sb0) with 46 in Hb; lia]).
  assert (Hf : forall n p i, 1 <= i < NINODES -> 0 <= p -> p + Z.of_nat n <= 64 -> field n p V' i = if i =? i0 then le_load n din2 p else field n p V0 i).
  { intros n p i Hi Hp Hn. unfold V'. rewrite field_stored by lia. destruct (i =? i0); [reflexivity|]. unfold field. rewrite A5; [reflexivity|].
    destruct (iblock_sb0 i ltac:(lia)) as [-> _]. change (data_start sb0) with 46. unfold NINODES in Hi. zdiv. }
  assert (Hd2 : forall n p, 0 <= p -> p + Z.of_nat n <= 8 -> le_load n din2 p = field n p V0 i0).
  { intros n p Hp Hn. unfold din2, set_din_size, store32. rewrite le_load_store_ne by lia. apply A6; lia. }
  assert (Hsz : le_load 4 din2 8 = sz).
  { unfold din2, set_din_size, store32. rewrite le_load_store_eq. apply Z.mod_small. change MAXBYTES with 274432 in Hmax. unfold sz in *. cbn. lia. }
  assert (Hlen : forall i, Z.of_nat (length ((<[i0 := C i0 ++ done]> C) i)) = if i =? i0 then sz else Z.of_nat (length (C i))).
  { intros i. unfold insert, fn_insert. destruct (Z.eqb_spec i i0) as [->|Hne]; case_decide; try congruence. rewrite length_app. unfold sz. lia. }
  assert (Ha : forall i k, 1 <= i < fi -> 0 <= k <= NDIRECT -> disk_addr V' i k = (<[i0 := din_addr din]> (disk_addr V0)) i k).
  { intros i k Hi Hk. unfold disk_addr at 1. change NDIRECT with 12 in Hk. rewrite Hf by (cbn; lia). rewrite insert_addrs. destruct (i =? i0); [|reflexivity].
    unfold din2, set_din_size, store32. apply le_load_store_ne. cbn. lia. }
  destruct (laid_meta fi V _ fb _ V' A1 HV') as [La Hs].
  assert (Hs' : forall i j, 1 <= i < fi -> 0 <= j <= MAXFILE -> islot V' (at_ (disk_addr V' i)) j = islot V (at_ ((<[i0 := din_addr din]> (disk_addr V0)) i)) j).
  { intros i j Hi Hj. rewrite <- Hs by assumption. apply islot_cong; [intros k Hk; apply Ha; assumption | lia]. }
  constructor; auto.
  - eapply laid_cong; [|exact La]. exact Ha.
  - intros i Hi. rewrite Hlen. destruct (Z.eqb_spec i i0) as [->|Hne].
    + eapply exact_cong; [|exact A2]. intros j Hj. rewrite (Hs' i0 j Hi0 Hj), insert_addrs, Z.eqb_refl. reflexivity.
    + eapply exact_cong; [|exact (D3 i Hi)]. intros j Hj. rewrite Hs', insert_addrs by assumption. rewrite (proj2 (Z.eqb_neq i i0) Hne). apply A4; assumption.
  - intros i Hi. rewrite Hlen, Hf by (cbn; lia). destruct (Z.eqb_spec i i0); [split; [exact Hsz | exact Hmax] | apply D4, Hi].
  - intros i Hi. rewrite !Hf by (cbn; lia). destruct (Z.eqb_spec i i0) as [->|]; [|apply D5, Hi]. rewrite !Hd2 by (cbn; lia). apply D5, Hi.
  - intros i Hi. rewrite Hf by (cbn; lia). replace (i =? i0) with false by lia. apply D6, Hi.
  - unfold V'. rewrite stored_other, A5 by (change (data_start sb0) with 46; lia). exact D7.
  - unfold V'. rewrite stored_other, A5 by (change (data_start sb0) with 46; lia). exact D8.
Qed.

Lemma iappend_wp xp (Q : unit -> image -> Prop) :
  L + Z.of_nat (length xp) <= MAXBYTES -> fb0 + (nblk (L + Z.of_nat (length xp)) - nblk L) <= FSSIZE ->
  (forall V', disk_ok V' fi (fb0 + (nblk (L + Z.of_nat (length xp)) - nblk L)) (<[i0 := C i0 ++ xp]> C) T ->
     Q tt (full V' fi (fb0 + (nblk (L + Z.of_nat (length xp)) - nblk L)))) ->
  wp (iappend i0 xp) Q (full V0 fi fb0).
Proof.
  intros Hmax Hfs HQ. pose proof DK as [D1 D2 D3 D4 D5 D6 D7 D8]. unfold iappend. apply wp_bind, rinode_wp; [lia|]. intros din Hdin. cbv zeta.
  assert (Esz : xint (din_size din) = L).
  { unfold din_size, load32. rewrite xint_u32, Hdin by (cbn; lia). destruct (D4 i0 Hi0) as [E1 E2]. change MAXBYTES with 274432 in E2.
    rewrite E1. apply u32_small. lia. }
  rewrite Esz. apply wp_bind.
  assert (Ha : forall k, 0 <= k <= NDIRECT -> din_addr din k = disk_addr V0 i0 k).
  { intros k Hk. change NDIRECT with 12 in Hk. unfold din_addr, load32, disk_addr. apply Hdin; cbn; lia. }
  assert (H0 : appending [] V0 din fb0).
  { constructor; auto; rewrite ?app_nil_r, ?Z.add_0_r; try (cbn; lia).
    - eapply laid_contents with (C := C); [intros i _; unfold insert, fn_insert; case_decide; congruence|].
      eapply laid_cong; [|exact D2]. intros i k Hi Hk. rewrite insert_addrs. destruct (Z.eqb_spec i i0) as [->|]; [apply Ha, Hk | reflexivity].
    - eapply exact_cong; [|exact (D3 i0 Hi0)]. intros j Hj. apply islot_cong; [exact Ha | lia].
    - intros n p Hp Hn. apply Hdin; lia. }
  apply (wp_loop (fun k l s => exists done p V din fb, l = (L + Z.of_nat (length done), p, din) /\ xp = done ++ p /\ k = length p /\
    s = full V fi fb /\ appending done V din fb)) with (k := length xp).
  - intros k l s (done & p & V & d & fb & -> & E & -> & -> & Ap). destruct (decide (p = [])) as [->|Hp].
    + unfold iappend_step. cbn [length]. apply wp_ret. rewrite app_nil_r in E. subst done. rewrite xint_u32, u32_small by (change MAXBYTES with 274432 in Hmax; lia).
      apply winode_wp; [lia|]. pose proof (ap_fb _ _ _ _ Ap) as Efb. subst fb. apply HQ. apply appending_stored; assumption.
    + rewrite E, length_app, Nat2Z.inj_add, Z.add_assoc in Hmax, Hfs. apply (iappend_step_wp done V d fb p); auto.
      intros bs p' V' d' fb' -> Hbs Ap'. exists (length p'). split; [rewrite length_app; destruct bs; [congruence | cbn; lia]|].
      exists (done ++ bs), p', V', d', fb'. split; [reflexivity|]. split; [rewrite <- app_assoc; exact E|]. auto.
  - exists [], xp, V0, din, fb0. cbn [length]. rewrite Z.add_0_r. auto.
  - lia.
Qed.
End Loop.
