(* ===== verification/MkfsBoot.v ===== *)
(** * The image mkfs makes is a file system the kernel can use

    [main] of mkfs terminates with an image on which the free map, every
    inode, every file and the root directory are as the kernel expects them;
    the kernel booted on it finds each file by its name and reads its bytes. *)

From S2P Require Import Prelude Memory FsDefs BufCache Bio Log LogCrash LogTx UserMem Fs FsTx FsBlocks FsFile FsWrite FsAtomic FsSpec FsDir Mkfs MkfsImage.

(** ** Allocating an inode *)

Lemma exact_none V a : (forall k, 0 <= k <= NDIRECT -> a k = 0) -> (forall j, 0 <= j -> islot V (at_ a) j = 0) /\ exact_blocks V a 0.
Proof.
  intros Ha. assert (Hs : forall j, 0 <= j -> islot V (at_ a) j = 0).
  { intros j Hj. unfold islot, fblock. cbn [at_ i_addrs]. rewrite (Ha NDIRECT) by (change NDIRECT with 12; lia).
    destruct (j =? MAXFILE); [reflexivity|]. destruct (Z.ltb_spec j NDIRECT); [apply Ha; lia | reflexivity]. }
  split; [exact Hs|]. split.
  - intros bn Hb. rewrite <- islot_block, Hs by lia. change BSIZE with 1024. lia.
  - rewrite Ha by (change NDIRECT with 12; lia). change (NDIRECT * BSIZE) with 12288. lia.
Qed.

(** A new inode without blocks. *)
Lemma laid_new fi V A fb C :
  laid fi V A fb C -> (forall k, 0 <= k <= NDIRECT -> A fi k = 0) -> C fi = [] -> laid (fi + 1) V A fb C.
Proof.
  intros [L1 L2 L3 L4 L5] Ha HC. destruct (exact_none V (A fi) Ha) as [Hz _].
  assert (Hc : forall i, 1 <= i < fi + 1 -> i = fi \/ 1 <= i < fi) by lia. constructor; auto.
  - intros i j Hi Hj Hn. destruct (Hc i Hi) as [->|Hi']; [rewrite Hz in Hn by lia; congruence | auto].
  - intros i j i' j' Hi Hj Hi' Hj' Hn E. destruct (Hc i Hi) as [->|Hi2]; [rewrite Hz in Hn by lia; congruence|].
    destruct (Hc i' Hi') as [->|Hi2']; [rewrite Hz in E by lia; congruence | eauto].
  - intros i off Hi Ho. destruct (Hc i Hi) as [->|Hi2]; [|auto]. rewrite HC. unfold fbyte.
    assert (Hb : 0 <= off / BSIZE < MAXFILE) by (unfold MAXBYTES in Ho; fsdiv).
    rewrite <- islot_block, Hz by lia. symmetry. apply nth_overflow. cbn. lia.
Qed.

Lemma ialloc_wp V fi fb C T type (Q : Z -> image -> Prop) :
  disk_ok V fi fb C T -> fi < NINODES -> 0 <= type < 2 ^ 16 ->
  (forall V', disk_ok V' (fi + 1) fb (<[fi := []]> C) (<[fi := type]> T) -> Q fi (full V' (fi + 1) fb)) ->
  wp (Mkfs.ialloc type) Q (full V fi fb).
Proof.
  intros [D1 D2 D3 D4 D5 D6 D7 D8] Hfi Hty HQ. unfold Mkfs.ialloc. apply wp_bind, wp_gets, wp_bind, wp_modify. cbn [im_freeinode full].
  rewrite u32_small by (unfold NINODES in *; lia). cbv zeta. rewrite !xshort_u16, xint_u32.
  change (u16 1) with 1. change (u32 0) with 0. replace (u16 type) with type by (symmetry; apply Z.mod_small; lia). set (din := set_din_size _ _).
  apply wp_bind. change (set_freeinode (fi + 1) (full V fi fb)) with (full V (fi + 1) fb). apply winode_wp; [lia|]. apply wp_ret, HQ.
  set (V' := stored V fi din).
  assert (Hdz : forall n p, 12 <= p -> le_load n din p = 0).
  { intros n p Hp. unfold din, set_din_size, store32, store16. rewrite !le_load_store_ne by lia. apply le_load_zero. reflexivity. }
  assert (Hf : forall n p i, 1 <= i < NINODES -> 0 <= p -> p + Z.of_nat n <= 64 -> field n p V' i = if i =? fi then le_load n din p else field n p V i).
  { intros n p i Hi Hp Hn. apply field_stored; lia. }
  assert (Ha : forall i k, 1 <= i < fi + 1 -> 0 <= k <= NDIRECT -> disk_addr V' i k = if i =? fi then 0 else disk_addr V i k).
  { intros i k Hi Hk. change NDIRECT with 12 in Hk. unfold disk_addr. rewrite Hf by (cbn; lia). rewrite Hdz by lia. reflexivity. }
  assert (HV' : forall b, data_start sb0 <= b -> V' b = V b) by (intros b Hb; apply stored_other; [lia | change (data_start sb0) with 46 in Hb; lia]).
  destruct (laid_meta fi V _ fb _ V' D2 HV') as [La Hs].
  assert (Hc : forall i, 1 <= i < fi + 1 -> i = fi \/ 1 <= i < fi) by lia.
  constructor; try lia.
  - apply laid_new; [|intros k Hk; rewrite Ha, Z.eqb_refl by lia; reflexivity | apply fn_lookup_insert].
    eapply laid_contents; [|eapply laid_cong; [|exact La]].
    + intros i Hi. apply fn_lookup_insert_ne. lia.
    + intros i k Hi Hk. rewrite Ha by lia. replace (i =? fi) with false by lia. reflexivity.
  - intros i Hi. destruct (Hc i Hi) as [->|Hi'].
    + rewrite fn_lookup_insert. apply exact_none. intros k Hk. rewrite Ha, Z.eqb_refl by lia. reflexivity.
    + rewrite fn_lookup_insert_ne by lia. eapply exact_cong; [|exact (D3 i Hi')]. intros j Hj. rewrite <- Hs by assumption.
      apply islot_cong; [|lia]. intros k Hk. cbn [at_ i_addrs]. rewrite Ha by lia. replace (i =? fi) with false by lia. reflexivity.
  - intros i Hi. rewrite Hf by (cbn; lia). destruct (Hc i Hi) as [->|Hi'].
    + rewrite Z.eqb_refl, fn_lookup_insert. split; [|cbn; discriminate]. unfold din, set_din_size, store32. rewrite le_load_store_eq. reflexivity.
    + replace (i =? fi) with false by lia. rewrite fn_lookup_insert_ne by lia. apply D4, Hi'.
  - intros i Hi. rewrite !Hf by (cbn; lia). destruct (Hc i Hi) as [->|Hi'].
    + rewrite Z.eqb_refl, fn_lookup_insert. unfold din, set_din_size, store32, store16.
      rewrite (le_load_store_ne 2 4 _ 8 0 0), (le_load_store_ne 2 4 _ 8 0 2), (le_load_store_ne 2 4 _ 8 0 4), (le_load_store_ne 2 4 _ 8 0 6) by (cbn; lia).
      rewrite (le_load_store_ne 2 2 _ 6 1 0), (le_load_store_ne 2 2 _ 6 1 2), (le_load_store_ne 2 2 _ 6 1 4), !le_load_store_eq by (cbn; lia).
      rewrite !(le_load_store_ne 2 2 _ 0) by (cbn; lia). rewrite !le_load_zero by reflexivity. repeat split. apply Z.mod_small. cbn. lia.
    + replace (i =? fi) with false by lia. rewrite fn_lookup_insert_ne by lia. apply D5, Hi'.
  - intros i Hi. rewrite Hf by (cbn; lia). replace (i =? fi) with false by lia. apply D6. lia.
  - unfold V'. rewrite stored_other by lia. exact D7.
  - unfold V'. rewrite stored_other by lia. exact D8.
Qed.

(** ** Adding the files *)

Lemma disk_contents V fi fb C C' T T' :
  (forall i, 1 <= i < fi -> C' i = C i /\ T' i = T i) -> disk_ok V fi fb C T -> disk_ok V fi fb C' T'.
Proof.
  intros E [D1 D2 D3 D4 D5 D6 D7 D8].
  constructor; auto; [eapply laid_contents; [|exact D2]; intros i Hi; apply E, Hi|..]; intros i Hi; destruct (E i Hi) as [EC ET]; rewrite ?EC, ?ET; auto.
Qed.

(** The cost in blocks of appending [n] bytes to a file of [L]. *)
Definition cost (L n : Z) : Z := nblk (L + n) - nblk L.

Lemma cost_nonneg L n : 0 <= L -> 0 <= n -> 0 <= cost L n.
Proof. intros HL Hn. unfold cost. pose proof (nblk_mono L (L + n)). lia. Qed.

Lemma append_pieces_wp fi i0 cs V fb C T (Q : unit -> image -> Prop) :
  disk_ok V fi fb C T -> 1 <= i0 < fi -> Forall (fun c => c <> []) cs ->
  Z.of_nat (length (C i0)) + Z.of_nat (length (concat cs)) <= MAXBYTES ->
  fb + cost (Z.of_nat (length (C i0))) (Z.of_nat (length (concat cs))) <= FSSIZE ->
  (forall V', disk_ok V' fi (fb + cost (Z.of_nat (length (C i0))) (Z.of_nat (length (concat cs)))) (<[i0 := C i0 ++ concat cs]> C) T ->
     Q tt (full V' fi (fb + cost (Z.of_nat (length (C i0))) (Z.of_nat (length (concat cs)))))) ->
  wp (append_pieces i0 cs) Q (full V fi fb).
Proof.
  intros DK Hi0 Hcs. revert V fb C DK. induction Hcs as [|c cs Hc Hcs IH]; intros V fb C DK Hmax Hfs HQ; cbn [append_pieces concat].
  - apply wp_ret. cbn [concat length] in HQ. unfold cost in HQ. rewrite Z.add_0_r, app_nil_r, Z.sub_diag, Z.add_0_r in HQ. apply HQ.
    eapply disk_contents; [|exact DK]. intros i Hi. split; [|reflexivity]. unfold insert, fn_insert. case_decide; congruence.
  - assert (Hn : 0 < Z.of_nat (length c)) by (destruct c; [congruence | cbn; lia]). replace (_ >? 0) with true by lia.
    cbn [concat] in *. rewrite length_app, Nat2Z.inj_add in *. set (L := Z.of_nat (length (C i0))) in *. unfold cost in *.
    pose proof (nblk_mono (L + Z.of_nat (length c)) (L + (Z.of_nat (length c) + Z.of_nat (length (concat cs)))) ltac:(lia)) as Hm.
    apply wp_bind, (iappend_wp fi i0 fb V C T DK Hi0); fold L; [lia | lia |]. intros V1 DK1.
    assert (E1 : (<[i0 := C i0 ++ c]> C) i0 = C i0 ++ c) by apply fn_lookup_insert.
    apply (IH V1 _ _ DK1); rewrite E1, length_app, Nat2Z.inj_add; fold L; [lia | |].
    + rewrite <- (Z.add_assoc L). lia.
    + intros V2 DK2. rewrite <- (Z.add_assoc L) in *.
      replace (fb + (nblk (L + Z.of_nat (length c)) - nblk L) + (nblk (L + (Z.of_nat (length c) + Z.of_nat (length (concat cs)))) - nblk (L + Z.of_nat (length c))))
        with (fb + (nblk (L + (Z.of_nat (length c) + Z.of_nat (length (concat cs)))) - nblk L)) in * by lia.
      apply HQ. eapply disk_contents; [|exact DK2]. intros i Hi. split; [|reflexivity]. unfold insert, fn_insert.
      repeat case_decide; try congruence. apply app_assoc.
Qed.

(** The name of an argument in the root directory, and the file's bytes. *)
Definition file_arg : Type := list byte * option (list (list byte)).
Definition file_name (a : file_arg) : list byte := strip_mark (strip_dir a.1).
Definition file_data (a : file_arg) : list byte := concat (default [] a.2).

(** A file that can be opened and whose name fits. *)
Definition arg_ok (a : file_arg) : Prop :=
  (x2f ∉ strip_dir (a.1)) /\ Z.of_nat (length (file_name a)) <= DIRSIZ /\ (x00 ∉ a.1) /\
  (exists cs, a.2 = Some cs /\ Forall (fun c => c <> []) cs) /\ Z.of_nat (length (file_data a)) <= MAXBYTES.

(** The entries of the root directory for these arguments, from inode [fi]. *)
Fixpoint entries (fi : Z) (args : list file_arg) : list byte :=
  match args with
  | [] => []
  | a :: rest => mk_dirent fi (file_name a) ++ entries (fi + 1) rest
  end.
Definition data_blocks (args : list file_arg) : Z := foldr (fun a n => nblk (Z.of_nat (length (file_data a))) + n) 0 args.

Lemma mk_dirent_length inum name : length (mk_dirent inum name) = 16%nat.
Proof. unfold mk_dirent. rewrite length_bytes_at. reflexivity. Qed.
Lemma entries_length fi args : Z.of_nat (length (entries fi args)) = 16 * Z.of_nat (length args).
Proof. revert fi. induction args as [|a args IH]; intros fi; cbn [entries length]; [reflexivity|]. rewrite length_app, Nat2Z.inj_add, IH, mk_dirent_length. lia. Qed.
Lemma data_blocks_nonneg args : 0 <= data_blocks args.
Proof. induction args as [|a args IH]; cbn [data_blocks foldr]; [lia|]. fold (data_blocks args). pose proof (nblk_mono 0 (Z.of_nat (length (file_data a)))). change (nblk 0) with 0 in *. lia. Qed.

Lemma add_file_wp fi a V fb C T (Q : unit -> image -> Prop) :
  let R := Z.of_nat (length (C 1)) in let N := Z.of_nat (length (file_data a)) in
  disk_ok V fi fb C T -> 1 < fi < NINODES -> arg_ok a -> R + 16 <= MAXBYTES -> fb + cost R 16 + nblk N <= FSSIZE ->
  (forall V', disk_ok V' (fi + 1) (fb + cost R 16 + nblk N) (<[1 := C 1 ++ mk_dirent fi (file_name a)]> (<[fi := file_data a]> C)) (<[fi := T_FILE]> T) ->
     Q tt (full V' (fi + 1) (fb + cost R 16 + nblk N))) ->
  wp (add_file 1 a) Q (full V fi fb).
Proof.
  intros R N DK Hfi (Hsl & Hlen & _ & (cs & Ecs & Hcs) & Hmax) HR Hfs HQ.
  assert (HN : file_data a = concat cs) by (unfold file_data; rewrite Ecs; reflexivity).
  pose proof (nblk_mono 0 N ltac:(lia)) as Hn0. change (nblk 0) with 0 in Hn0. pose proof (cost_nonneg R 16 ltac:(lia) ltac:(lia)) as Hc0.
  unfold add_file. apply wp_bind, wp_panic_if; [rewrite bool_decide_eq_false_2 by exact Hsl; reflexivity|]. rewrite Ecs. cbv zeta.
  fold (file_name a). apply wp_bind, wp_panic_if; [rewrite (proj2 (Z.leb_le _ _) Hlen); reflexivity|].
  apply wp_bind, (ialloc_wp V fi fb C T); [exact DK | lia | unfold T_FILE; lia |]. intros V1 DK1.
  assert (E1 : (<[fi := []]> C) 1 = C 1) by (apply fn_lookup_insert_ne; lia).
  apply wp_bind, (iappend_wp (fi + 1) 1 fb V1 _ _ DK1 ltac:(lia)); rewrite E1, mk_dirent_length; fold R; change (Z.of_nat 16) with 16; fold (cost R 16); [lia | lia |].
  intros V2 DK2. set (C2 := <[1 := C 1 ++ mk_dirent fi (file_name a)]> (<[fi := []]> C)) in *. assert (E2 : C2 fi = []) by (unfold C2; rewrite fn_lookup_insert_ne, fn_lookup_insert by lia; reflexivity).
  assert (EN : Z.of_nat (length (concat cs)) = N) by (unfold N; rewrite HN; reflexivity).
  assert (Ec : cost 0 N = nblk N) by (unfold cost; rewrite Z.add_0_l; change (nblk 0) with 0; lia).
  apply (append_pieces_wp (fi + 1) fi cs V2 _ C2 _ _ DK2 ltac:(lia) Hcs); rewrite E2, EN; change (Z.of_nat (length [])) with 0; rewrite ?Ec; [lia | lia |].
  intros V3 DK3.
  apply HQ. eapply disk_contents; [|exact DK3]. intros i Hi. split; [|reflexivity]. unfold C2, insert, fn_insert. rewrite HN.
  repeat case_decide; first [congruence | lia | reflexivity].
Qed.

(** The files [args] are in the inodes from [fi] on and in the directory. *)
Record added (fi : Z) (args : list file_arg) (C C' : Z -> list byte) (T T' : Z -> Z) : Prop := {
  ad_root : C' 1 = C 1 ++ entries fi args;
  ad_old : forall i, 1 < i < fi -> C' i = C i;
  ad_oldtype : forall i, 1 <= i < fi -> T' i = T i;
  ad_new : forall k a, args !! k = Some a -> C' (fi + Z.of_nat k) = file_data a /\ T' (fi + Z.of_nat k) = T_FILE
}.

Lemma add_files_wp args fi V fb C T (Q : unit -> image -> Prop) :
  let R := Z.of_nat (length (C 1)) in let n := Z.of_nat (length args) in
  disk_ok V fi fb C T -> 1 < fi -> fi + n <= NINODES -> Forall arg_ok args -> R + 16 * n <= MAXBYTES ->
  fb + cost R (16 * n) + data_blocks args <= FSSIZE ->
  (forall V' C' T', disk_ok V' (fi + n) (fb + cost R (16 * n) + data_blocks args) C' T' -> added fi args C C' T T' ->
     Q tt (full V' (fi + n) (fb + cost R (16 * n) + data_blocks args))) ->
  wp (add_files 1 args) Q (full V fi fb).
Proof.
  intros R n DK Hfi Hn Hok. revert fi V fb C T R n DK Hfi Hn. induction Hok as [|a args Ha Hok IH]; intros fi V fb C T R n DK Hfi Hn HR Hfs HQ; cbn [add_files].
  - apply wp_ret. unfold n in *. cbn [length data_blocks foldr] in *. change (Z.of_nat 0) with 0 in *. unfold cost in HQ.
    rewrite Z.mul_0_r, !Z.add_0_r, Z.sub_diag, Z.add_0_r in HQ. apply (HQ V C T DK). constructor; auto; [rewrite app_nil_r; reflexivity | discriminate].
  - cbn [data_blocks foldr] in *. fold (data_blocks args) in *. unfold n in *. cbn [length] in *. rewrite Nat2Z.inj_succ in *.
    set (N := nblk (Z.of_nat (length (file_data a)))) in *. set (m := Z.of_nat (length args)) in *.
    pose proof (cost_nonneg (R + 16) (16 * m) ltac:(lia) ltac:(lia)) as H1. pose proof (data_blocks_nonneg args) as H2.
    assert (Hc : cost R (16 * Z.succ m) = cost R 16 + cost (R + 16) (16 * m)).
    { unfold cost. replace (R + 16 * Z.succ m) with (R + 16 + 16 * m) by lia. lia. }
    rewrite Hc in *. apply wp_bind, (add_file_wp fi a V fb C T); fold R N; auto; [lia | lia | lia |].
    intros V1 DK1. set (C1 := <[1 := C 1 ++ mk_dirent fi (file_name a)]> (<[fi := file_data a]> C)) in *.
    assert (E1 : C1 1 = C 1 ++ mk_dirent fi (file_name a)) by apply fn_lookup_insert.
    assert (ER : Z.of_nat (length (C1 1)) = R + 16) by (rewrite E1, length_app, mk_dirent_length; unfold R; lia).
    replace (fi + Z.succ m) with (fi + 1 + m) in * by lia.
    replace (fb + (cost R 16 + cost (R + 16) (16 * m)) + (N + data_blocks args)) with (fb + cost R 16 + N + cost (R + 16) (16 * m) + data_blocks args) in * by lia.
    apply (IH (fi + 1) V1 _ C1 _ DK1); rewrite ?ER; fold m; [lia | lia | lia | lia |].
    intros V2 C2 T2 DK2 [A1 A2 A3 A4]. apply (HQ V2 C2 T2 DK2). constructor.
    + rewrite A1, E1. cbn [entries]. symmetry. apply app_assoc.
    + intros i Hi. rewrite A2 by lia. unfold C1. rewrite !fn_lookup_insert_ne by lia. reflexivity.
    + intros i Hi. rewrite A3 by lia. apply fn_lookup_insert_ne. lia.
    + intros [|k] b Hb; cbn in Hb.
      * injection Hb as <-. rewrite Z.add_0_r. split; [rewrite A2 by lia; unfold C1; rewrite fn_lookup_insert_ne, fn_lookup_insert by lia; reflexivity|].
        rewrite A3 by lia. apply fn_lookup_insert.
      * destruct (A4 k b Hb) as [B1 B2]. replace (fi + Z.of_nat (S k)) with (fi + 1 + Z.of_nat k) by lia. auto.
Qed.

(** ** The whole program *)

Lemma zero_sectors_wp k i V n fi fb sb (Q : unit -> image -> Prop) :
  0 <= i -> i + Z.of_nat k <= FSSIZE -> (forall b, V b = zeroes) -> i <= n ->
  (forall V', (forall b, V' b = zeroes) -> Q tt (Image V' (Z.max n (i + Z.of_nat k)) fi fb sb)) ->
  wp (zero_sectors k i) Q (Image V n fi fb sb).
Proof.
  revert i V n. induction k as [|k IH]; intros i V n Hi Hk HV Hn HQ; cbn [zero_sectors].
  - apply wp_ret. specialize (HQ V HV). replace (Z.max n (i + Z.of_nat 0)) with n in HQ by lia. exact HQ.
  - apply wp_bind. unfold wsect. apply wp_modify. unfold set_sect. cbn [im_sect im_len im_freeinode im_freeblock im_sb].
    rewrite sector_small by lia. apply IH; [lia | lia | | lia |].
    + intros b. unfold insert, fn_insert. case_decide; [reflexivity | apply HV].
    + intros V' HV'. replace (Z.max _ _) with (Z.max n (i + Z.of_nat (S k))) by lia. apply HQ, HV'.
Qed.

Lemma mark_used_spec k i m b : 0 <= i -> bit_set (mark_used k i m) b = ((i <=? b) && (b <? i + Z.of_nat k)) || bit_set m b.
Proof.
  revert i m. induction k as [|k IH]; intros i m Hi; cbn [mark_used].
  - replace ((i <=? b) && (b <? i + Z.of_nat 0)) with false by lia. reflexivity.
  - rewrite IH, bit_set_set by lia. destruct (bit_set m b); [rewrite !orb_true_r; reflexivity|]. rewrite !orb_false_r. lia.
Qed.

(** Nothing but the superblock written. *)
Lemma disk_empty V : (forall b, V b = zeroes) -> disk_ok (<[1 := put_sb zeroes sb0]> V) 1 (data_start sb0) (fun _ => []) (fun _ => 0).
Proof.
  intros HV. assert (Hz : forall b, b <> 1 -> (<[1 := put_sb zeroes sb0]> V) b = zeroes) by (intros b Hb; rewrite fn_lookup_insert_ne by congruence; apply HV).
  constructor; try (intros; lia).
  - unfold NINODES. lia.
  - constructor; try (intros; lia); [change (data_start sb0) with 46; unfold FSSIZE; lia|].
    intros b Hb. rewrite Hz by (change (data_start sb0) with 46 in Hb; lia). reflexivity.
  - intros i Hi. unfold field. destruct (iblock_sb0 i ltac:(lia)) as [-> _]. rewrite Hz by (unfold NINODES in Hi; zdiv). apply le_load_zero. reflexivity.
  - rewrite fn_lookup_insert. vm_compute. reflexivity.
  - rewrite Hz by lia. reflexivity.
Qed.

Definition root_data (args : list file_arg) : list byte := mk_dirent 1 dot ++ mk_dirent 1 dotdot ++ entries 2 args.
Definition used_blocks (args : list file_arg) : Z := data_start sb0 + nblk (16 * (2 + Z.of_nat (length args))) + data_blocks args.

(** There are inodes and blocks enough. *)
Definition fits (args : list file_arg) : Prop :=
  Forall arg_ok args /\ 2 + Z.of_nat (length args) <= NINODES /\ used_blocks args <= FSSIZE.

Lemma root_length args : Z.of_nat (length (root_data args)) = 16 * (2 + Z.of_nat (length args)).
Proof. unfold root_data. rewrite !length_app, !mk_dirent_length, !Nat2Z.inj_add, entries_length. lia. Qed.

(** The files before the size of the root directory is rounded. *)
Definition contents_of (args : list file_arg) (C : Z -> list byte) (T : Z -> Z) : Prop :=
  C 1 = root_data args /\ T 1 = T_DIR /\
  forall k a, args !! k = Some a -> C (2 + Z.of_nat k) = file_data a /\ T (2 + Z.of_nat k) = T_FILE.

Definition padded (args : list file_arg) : Z := (16 * (2 + Z.of_nat (length args)) / BSIZE + 1) * BSIZE.

Lemma main_wp args (Q : unit -> image -> Prop) :
  fits args ->
  (forall V C T din, let fi := 2 + Z.of_nat (length args) in let used := used_blocks args in
     disk_ok V fi used C T -> contents_of args C T ->
     (forall n p, 0 <= p -> p + Z.of_nat n <= 64 -> le_load n din p = field n p V 1) ->
     Q tt (full (<[45 := mark_used (Z.to_nat used) 0 zeroes]> (stored V 1 (set_din_size (padded args) din))) fi used)) ->
  wp (main args) Q image0.
Proof.
  intros (Hok & Hn & Hu) HQ. unfold main. cbv zeta.
  set (sb := {| sb_magic := FSMAGIC; sb_size := _ |}). assert (Esb : sb = sb0) by (vm_compute; reflexivity). rewrite Esb. clear sb Esb.
  change (2 + nlog + ninodeblocks + nbitmap) with (data_start sb0).
  apply wp_bind, wp_modify, wp_bind, wp_modify, wp_bind. unfold image0, set_freeblock, set_imsb. cbn [im_sect im_len im_freeinode im_freeblock im_sb].
  apply zero_sectors_wp; [lia | rewrite Z2Nat.id by discriminate; lia | reflexivity | lia |]. intros V0 HV0. rewrite Z2Nat.id by discriminate.
  replace (Z.max 0 (0 + FSSIZE)) with FSSIZE by reflexivity. change (Image V0 FSSIZE 1 (data_start sb0) sb0) with (full V0 1 (data_start sb0)).
  apply wp_bind, wsect_wp; [unfold FSSIZE; lia|]. pose proof (disk_empty V0 HV0) as DK0.
  apply wp_bind, (ialloc_wp _ _ _ _ _ _ _ DK0); [reflexivity | unfold T_DIR; lia |]. intros V1 DK1. change (1 + 1) with 2 in *.
  apply wp_bind, wp_panic_if; [reflexivity|].
  set (n := Z.of_nat (length args)) in *. unfold used_blocks in *. fold n in Hu, HQ. set (used := data_start sb0 + _ + _) in *.
  pose proof (data_blocks_nonneg args) as Hd. assert (H1 : 1 <= nblk (16 * (2 + n))) by (change 1 with (nblk 16); apply nblk_mono; unfold n; lia).
  assert (Hfb : data_start sb0 + 1 <= FSSIZE) by (vm_compute; congruence).
  apply wp_bind, (iappend_wp 2 1 _ _ _ _ DK1); rewrite ?fn_lookup_insert, ?mk_dirent_length; [lia | vm_compute; congruence | vm_compute; congruence |].
  change (data_start sb0 + _) with (data_start sb0 + 1). intros V2 DK2.
  apply wp_bind, (iappend_wp 2 1 _ _ _ _ DK2); rewrite ?fn_lookup_insert, ?length_app, ?mk_dirent_length; [lia | vm_compute; congruence | vm_compute; congruence |].
  change (data_start sb0 + 1 + _) with (data_start sb0 + 1). intros V3 DK3.
  set (C3 := <[1 := _ ++ mk_dirent 1 dotdot]> _) in *. set (T3 := <[1 := T_DIR]> _) in *.
  assert (E3 : C3 1 = mk_dirent 1 dot ++ mk_dirent 1 dotdot) by apply fn_lookup_insert.
  assert (EL : Z.of_nat (length (C3 1)) = 32) by (rewrite E3, length_app, !mk_dirent_length; reflexivity).
  assert (Eu : data_start sb0 + 1 + cost 32 (16 * n) + data_blocks args = used).
  { unfold cost, used. change (nblk 32) with 1. replace (32 + 16 * n) with (16 * (2 + n)) by lia. lia. }
  apply wp_bind, (add_files_wp args 2 V3 (data_start sb0 + 1) C3 T3); rewrite ?EL; fold n; rewrite ?Eu; auto; [lia | change MAXBYTES with 274432; unfold NINODES in Hn; lia|].
  intros V4 C4 T4 DK4 [A1 A2 A3 A4].
  assert (Hc : contents_of args C4 T4).
  { split; [rewrite A1, E3; unfold root_data; rewrite <- app_assoc; reflexivity|]. split; [rewrite A3 by lia; apply fn_lookup_insert | exact A4]. }
  apply wp_bind. unfold fix_root. apply wp_bind, rinode_wp; [unfold NINODES; lia|]. intros din Hdin. cbv zeta.
  assert (Esz : xint (din_size din) = 16 * (2 + n)).
  { unfold din_size, load32. rewrite xint_u32, Hdin by (cbn; lia). destruct (dk_size _ _ _ _ _ DK4 1 ltac:(lia)) as [-> _].
    destruct Hc as [-> _]. rewrite root_length. apply u32_small. unfold n, NINODES in *. lia. }
  rewrite Esz. replace (u32 ((16 * (2 + n) / BSIZE + 1) * BSIZE)) with (padded args) by (unfold padded; fold n; symmetry; apply u32_small; unfold NINODES in Hn; fsdiv).
  rewrite xint_u32, u32_small by (unfold padded; fold n; unfold NINODES in Hn; fsdiv).
  apply winode_wp; [unfold NINODES; lia|]. apply wp_bind, wp_gets. cbn [im_freeblock full]. unfold Mkfs.balloc.
  rewrite i32_small by (unfold FSSIZE in Hu; change (data_start sb0) with 46 in *; lia).
  apply wp_bind, wp_panic_if; [rewrite (proj2 (Z.ltb_lt _ _)) by (change BPB with 8192; unfold FSSIZE in Hu; lia); reflexivity|].
  apply wp_bind, wp_gets. cbn [im_sb full]. apply wsect_wp; [vm_compute; split; congruence|]. apply HQ with (C := C4) (T := T4); assumption.
Qed.

(** ** The image as the kernel sees it *)

(** The inode [i] as [ilock] reads it. *)
Definition node (V : Z -> mem) (i : Z) : inode :=
  get_dinode (V (IBLOCK i sb0)) (dinode_off i) (Inode 1 i 0 false false 0 0 0 0 0 (fun _ => 0)).

Lemma node_addrs V i k : 0 <= k <= NDIRECT -> i_addrs (node V i) k = disk_addr V i k.
Proof.
  intros Hk. unfold node, get_dinode, disk_addr, field. cbn [i_addrs]. replace ((0 <=? k) && (k <=? NDIRECT)) with true by lia.
  unfold load32. f_equal. lia.
Qed.

Lemma node_stored V i : inode_stored sb0 V (node V i).
Proof.
  intros y. cbv zeta. change (i_inum (node V i)) with i. unfold node, get_dinode. cbn [i_type i_major i_minor i_nlink i_size i_addrs].
  repeat split. intros j Hj. replace ((0 <=? j) && (j <=? NDIRECT)) with true by lia. reflexivity.
Qed.

(** Inode [i] is a file of this type and these bytes, in blocks of its own. *)
Record file_on (V : Z -> mem) (i ty : Z) (data : list byte) : Prop := {
  fo_type : i_type (node V i) = ty;
  fo_nlink : i_nlink (node V i) = 1;
  fo_dev : i_major (node V i) = 0 /\ i_minor (node V i) = 0;
  fo_ok : inode_ok sb0 V (node V i);
  fo_bytes : forall off, 0 <= off < MAXBYTES -> fbyte V (node V i) off = nth (Z.to_nat off) data x00
}.

Record built (V : Z -> mem) (args : list file_arg) : Prop := {
  bu_sb : get_sb (V 1) = sb0;
  bu_log : head_is (V 2) [];
  bu_alloc : forall b, 0 <= b < FSSIZE -> alloc V sb0 b = (b <? used_blocks args);
  bu_root : file_on V 1 T_DIR (root_data args);
  bu_root_size : i_size (node V 1) = padded args;
  bu_root_mapped : mapped V (node V 1) <-> (2 + Z.of_nat (length args)) mod 64 <> 0;
  bu_file : forall k a, args !! k = Some a -> let i := 2 + Z.of_nat k in
    file_on V i T_FILE (file_data a) /\ i_size (node V i) = Z.of_nat (length (file_data a)) /\ mapped V (node V i);
  bu_unused : forall i, 2 + Z.of_nat (length args) <= i < NINODES -> i_type (node V i) = 0;
  bu_disjoint : forall i j i' j', 1 <= i < 2 + Z.of_nat (length args) -> 1 <= i' < 2 + Z.of_nat (length args) ->
    0 <= j <= MAXFILE -> 0 <= j' <= MAXFILE -> islot V (node V i) j <> 0 -> islot V (node V i') j' = islot V (node V i) j -> i' = i /\ j' = j
}.

Section Built.
Context (args : list file_arg) (V0 : Z -> mem) (C : Z -> list byte) (T : Z -> Z) (din : mem).
Context (DK : disk_ok V0 (2 + Z.of_nat (length args)) (used_blocks args) C T) (HC : contents_of args C T).
Context (Hdin : forall n p, 0 <= p -> p + Z.of_nat n <= 64 -> le_load n din p = field n p V0 1).
Local Abbreviation fi := (2 + Z.of_nat (length args)).
Local Abbreviation used := (used_blocks args).
Definition final : Z -> mem := <[45 := mark_used (Z.to_nat used) 0 zeroes]> (stored V0 1 (set_din_size (padded args) din)).

Lemma padded_range : 0 < padded args <= 4096.
Proof. destruct DK as [D1 _ _ _ _ _ _ _]. unfold padded, NINODES in *. fsdiv. Qed.

Lemma final_field n p i : 1 <= i < NINODES -> 0 <= p -> p + Z.of_nat n <= 64 -> p + Z.of_nat n <= 8 \/ 12 <= p ->
  field n p final i = field n p V0 i.
Proof.
  intros Hi Hp Hn Ho. assert (E : field n p final i = field n p (stored V0 1 (set_din_size (padded args) din)) i).
  { unfold field, final. destruct (iblock_sb0 i ltac:(lia)) as [-> _]. rewrite fn_lookup_insert_ne; [reflexivity|]. unfold NINODES in Hi. zdiv. }
  rewrite E, field_stored by (unfold NINODES in *; lia). destruct (Z.eqb_spec i 1) as [->|]; [|reflexivity].
  unfold set_din_size, store32. rewrite le_load_store_ne by (cbn; lia). apply Hdin; lia.
Qed.

Lemma final_size i : 1 <= i < fi -> field 4 8 final i = if i =? 1 then padded args else Z.of_nat (length (C i)).
Proof.
  intros Hi. pose proof (dk_fi _ _ _ _ _ DK) as Hfi. pose proof padded_range as Hp.
  assert (E : field 4 8 final i = field 4 8 (stored V0 1 (set_din_size (padded args) din)) i).
  { unfold field, final. destruct (iblock_sb0 i ltac:(lia)) as [-> _]. rewrite fn_lookup_insert_ne; [reflexivity|]. unfold NINODES in Hfi. zdiv. }
  rewrite E, field_stored by (unfold NINODES in *; cbn; lia). destruct (Z.eqb_spec i 1) as [->|].
  - unfold set_din_size, store32. rewrite le_load_store_eq. apply Z.mod_small. cbn. lia.
  - apply (dk_size _ _ _ _ _ DK i Hi).
Qed.

Lemma final_addr i k : 1 <= i < fi -> 0 <= k <= NDIRECT -> i_addrs (node final i) k = disk_addr V0 i k.
Proof.
  intros Hi Hk. pose proof (dk_fi _ _ _ _ _ DK) as Hfi. rewrite node_addrs by exact Hk. change NDIRECT with 12 in Hk. unfold disk_addr.
  apply final_field; [lia | cbn; lia ..].
Qed.

Lemma final_data b : data_start sb0 <= b -> final b = V0 b.
Proof.
  intros Hb. change (data_start sb0) with 46 in Hb. unfold final. rewrite fn_lookup_insert_ne by lia. apply stored_other; unfold NINODES; lia.
Qed.

Lemma final_slot i j : 1 <= i < fi -> 0 <= j <= MAXFILE -> islot final (node final i) j = islot V0 (at_ (disk_addr V0 i)) j.
Proof.
  intros Hi Hj. destruct (laid_meta _ _ _ _ _ final (dk_laid _ _ _ _ _ DK) final_data) as [_ Hs]. rewrite <- Hs by assumption.
  apply islot_cong; [|lia]. intros k Hk. apply final_addr; assumption.
Qed.

Lemma final_byte i off : 1 <= i < fi -> 0 <= off < MAXBYTES -> fbyte final (node final i) off = nth (Z.to_nat off) (C i) x00.
Proof.
  intros Hi Ho. destruct (laid_meta _ _ _ _ _ final (dk_laid _ _ _ _ _ DK) final_data) as [La _].
  rewrite <- (la_bytes _ _ _ _ _ La i off Hi Ho). apply fbyte_cong; [|exact Ho]. intros k Hk. apply final_addr; assumption.
Qed.

Lemma final_alloc b : 0 <= b < FSSIZE -> alloc final sb0 b = (b <? used).
Proof.
  intros Hb. pose proof (la_fb _ _ _ _ _ (dk_laid _ _ _ _ _ DK)) as Hu. unfold alloc. unfold FSSIZE in *. change (data_start sb0) with 46 in Hu.
  assert (EB : BBLOCK b sb0 = 45) by (unfold BBLOCK; change (sb_bmapstart sb0) with 45; change BPB with 8192; rewrite Z.div_small, u32_small by lia; lia).
  rewrite EB. unfold final. rewrite fn_lookup_insert, mark_used_spec by lia. change BPB with 8192. rewrite Z.mod_small by lia.
  replace (bit_set zeroes b) with false; [rewrite orb_false_r; lia|]. symmetry. rewrite bit_set_testbit. apply Z.bits_0.
Qed.

Lemma final_inode_ok i : 1 <= i < fi -> inode_ok sb0 final (node final i).
Proof.
  intros Hi j Hj. pose proof (dk_laid _ _ _ _ _ DK) as La. pose proof (la_fb _ _ _ _ _ La) as Hu. rewrite final_slot by assumption. intros Hn.
  pose proof (la_slot _ _ _ _ _ La i j Hi Hj Hn) as Hr. unfold FSSIZE in *. change (data_start sb0) with 46 in *.
  split; [change (sb_size sb0) with 2000; lia|]. split; [rewrite final_alloc by (unfold FSSIZE; lia); lia|].
  intros j' Hj'. rewrite final_slot by assumption. intros E. apply (la_inj _ _ _ _ _ La i j i j'); auto.
Qed.

Lemma final_mapped i L : 1 <= i < fi -> i_size (node final i) = L -> 0 <= L <= MAXBYTES ->
  mapped final (node final i) <-> (L <= 0 \/ (L - 1) / BSIZE * BSIZE < Z.of_nat (length (C i))).
Proof.
  intros Hi Hsz HL. destruct (dk_exact _ _ _ _ _ DK i Hi) as [Ex _].
  assert (Hf : forall bn, 0 <= bn < MAXFILE -> fblock final (node final i) bn <> 0 <-> bn * BSIZE < Z.of_nat (length (C i))).
  { intros bn Hb. rewrite <- Ex by exact Hb. rewrite <- !islot_block, final_slot by lia. reflexivity. }
  unfold mapped. rewrite Hsz. split.
  - intros [_ Hm]. destruct (decide (L <= 0)); [left; assumption|right]. apply Hf; [unfold MAXBYTES in *; fsdiv|]. apply Hm. lia.
  - intros Hc. split; [exact HL|]. intros off Ho. apply Hf; [unfold MAXBYTES in *; fsdiv|]. destruct Hc as [Hc|Hc]; [lia|]. fsdiv.
Qed.

Lemma final_file i : 1 <= i < fi -> 0 <= T i < 2 ^ 15 -> file_on final i (T i) (C i).
Proof.
  intros Hi HT. pose proof (dk_fi _ _ _ _ _ DK) as Hfi. destruct (dk_head _ _ _ _ _ DK i Hi) as (H1 & H2 & H3 & H4).
  rewrite <- (final_field 2 0) in H1 by (cbn; lia). rewrite <- (final_field 2 2) in H2 by (cbn; lia).
  rewrite <- (final_field 2 4) in H3 by (cbn; lia). rewrite <- (final_field 2 6) in H4 by (cbn; lia).
  unfold field in H1, H2, H3, H4. rewrite Z.add_0_r in H1.
  constructor; [| | split | apply final_inode_ok, Hi | intros off Ho; apply final_byte; assumption];
    unfold node, get_dinode; cbn [i_type i_nlink i_major i_minor]; unfold load16; rewrite ?H1, ?H2, ?H3, ?H4; try reflexivity.
  unfold i16, sext. rewrite Z.mod_small by lia. zcases.
Qed.

Lemma final_built : built final args.
Proof.
  pose proof DK as [D1 D2 D3 D4 D5 D6 D7 D8]. destruct HC as (C1 & T1 & CF). pose proof padded_range as Hpad.
  assert (Hsz : forall i, 1 <= i < fi -> i_size (node final i) = if i =? 1 then padded args else Z.of_nat (length (C i)))
    by (intros i Hi; exact (final_size i Hi)).
  constructor.
  - unfold final. rewrite fn_lookup_insert_ne, stored_other by (unfold NINODES; lia). exact D7.
  - unfold final. rewrite fn_lookup_insert_ne, stored_other by (unfold NINODES; lia).
    split; [|intros k b Hb; discriminate]. cbn [length]. change (Z.of_nat 0) with 0. rewrite (load32_block _ zeroes _ D8) by (change BSIZE with 1024; lia).
    reflexivity.
  - apply final_alloc.
  - rewrite <- C1, <- T1. apply final_file; [lia|]. rewrite T1. unfold T_DIR. lia.
  - rewrite Hsz, Z.eqb_refl by lia. reflexivity.
  - rewrite (final_mapped 1 (padded args)); [|lia | rewrite Hsz, Z.eqb_refl by lia; reflexivity | change MAXBYTES with 274432; lia].
    rewrite C1, root_length. unfold padded. change BSIZE with 1024. clear. zdiv.
  - intros k a Hk i. assert (Hi : 1 <= i < fi /\ i <> 1) by (apply lookup_lt_Some in Hk; unfold i; lia). destruct (CF k a Hk) as [EC ET]. fold i in EC, ET.
    assert (Es : i_size (node final i) = Z.of_nat (length (file_data a))) by (rewrite Hsz, (proj2 (Z.eqb_neq i 1)), EC by lia; reflexivity).
    split; [rewrite <- EC, <- ET; apply final_file; [lia | rewrite ET; unfold T_FILE; lia]|]. split; [exact Es|].
    apply (final_mapped i _ ltac:(lia) Es); [rewrite <- EC; destruct (D4 i ltac:(lia)); lia|]. rewrite EC. fsdiv.
  - intros i Hi. unfold node, get_dinode, load16. cbn [i_type]. rewrite <- (Z.add_0_r (dinode_off i)).
    change (le_load 2 (final (IBLOCK i sb0)) (dinode_off i + 0)) with (field 2 0 final i). rewrite final_field, D6 by (cbn; lia). reflexivity.
  - intros i j i' j' Hi Hi' Hj Hj'. rewrite !final_slot by assumption. apply (la_inj _ _ _ _ _ D2); assumption.
Qed.
End Built.
