(* ===== verification/FsBoot.v ===== *)
(** * Booting on an image of mkfs

    [fsinit] on the image finds its superblock and an empty log; [namei] of
    a name mkfs was given finds the inode of that file, and [ilock] and
    [readi] deliver the bytes mkfs was given. *)

From S2P Require Import Prelude Memory FsDefs BufCache Bio Log LogCrash LogTx UserMem Fs FsTx FsBlocks FsFile FsWrite FsAtomic FsSpec FsDir Mkfs MkfsImage MkfsBoot.

(** ** The entries of the root directory *)

Lemma cstr_put name : x00 ∉ name -> Z.of_nat (length name) <= DIRSIZ -> CString.cstr (Z.to_nat DIRSIZ) (put_bytes zeroes 0 name) 0 = name.
Proof.
  change (Z.to_nat DIRSIZ) with 14%nat. change DIRSIZ with 14. intros Hn Hl. apply CString.cstr_bytes; [exact Hn | | | lia].
  - intros i b Hi. pose proof (lookup_lt_Some _ _ _ Hi). rewrite put_bytes_in by lia. apply nth_lookup_Some. rewrite <- Hi. f_equal. lia.
  - intros _. rewrite put_bytes_out by lia. reflexivity.
Qed.

Lemma mk_dirent_entry V x off inum name :
  (forall k, 0 <= k < 16 -> fbyte V x (off + k) = nth (Z.to_nat k) (mk_dirent inum name) x00) ->
  0 <= inum < 2 ^ 16 -> x00 ∉ name -> Z.of_nat (length name) <= DIRSIZ -> ent_inum V x off = inum /\ ent_name V x off = name.
Proof.
  intros Hb Hi Hn Hl. set (m := CString.strncpy (store16 zeroes 0 (xshort inum)) 2 (put_bytes zeroes 0 name) 0 DIRSIZ).
  assert (Hd : forall k, 0 <= k < 16 -> dirent V x off k = m k).
  { intros k Hk. unfold dirent. change (Z.to_nat DIRENT_SIZE) with 16%nat. rewrite put_bytes_in by (rewrite length_bytes_at; lia).
    rewrite nth_bytes_at by lia. rewrite Z.sub_0_r, Z2Nat.id, Hb by lia. unfold mk_dirent. fold m. change (Z.to_nat DIRENT_SIZE) with 16%nat.
    rewrite nth_bytes_at by lia. f_equal. lia. }
  assert (Hm : forall k, m k = if (2 <=? k) && (k <? 16) then nth (Z.to_nat (k - 2)) name x00 else store16 zeroes 0 (xshort inum) k).
  { intros k. unfold m, CString.strncpy. rewrite CString.strncpy_loop_spec, cstr_put by assumption. reflexivity. }
  split.
  - unfold ent_inum, de_inum, load16. rewrite (le_load_ext 2 _ (store16 zeroes 0 (xshort inum)) 0 0).
    + unfold store16. rewrite le_load_store_eq, xshort_u16. unfold u16. rewrite Zmod_mod. apply Z.mod_small. lia.
    + intros k Hk. cbn in Hk. rewrite Hd, Hm by lia. replace (_ && _) with false by lia. reflexivity.
  - unfold ent_name. change (Z.to_nat DIRSIZ) with 14%nat. change DIRSIZ with 14 in Hl. apply CString.cstr_bytes; [exact Hn | | | lia].
    + intros i b Hib. pose proof (lookup_lt_Some _ _ _ Hib). rewrite Hd, Hm by lia. replace (_ && _) with true by lia.
      apply nth_lookup_Some. rewrite <- Hib. f_equal. lia.
    + intros Hlt. rewrite Hd, Hm by lia. replace (_ && _) with true by lia. apply nth_overflow. lia.
Qed.

(** The name and the inode number of entry [k]. *)
Definition root_names (args : list file_arg) : list (list byte) := dot :: dotdot :: (file_name <$> args).
Definition root_inum (k : Z) : Z := if k <? 2 then 1 else k.

Lemma entries_nth args fi k name j : (file_name <$> args) !! k = Some name -> (j < 16)%nat ->
  nth (16 * k + j) (entries fi args) x00 = nth j (mk_dirent (fi + Z.of_nat k) name) x00.
Proof.
  revert fi k. induction args as [|a args IH]; intros fi k Hk Hj; [discriminate|]. destruct k as [|k]; cbn [entries].
  - injection Hk as <-. rewrite Z.add_0_r. apply app_nth1. rewrite mk_dirent_length. lia.
  - rewrite app_nth2; rewrite mk_dirent_length; [|lia]. replace (fi + Z.of_nat (S k)) with (fi + 1 + Z.of_nat k) by lia.
    rewrite <- (IH (fi + 1) k Hk Hj). f_equal. lia.
Qed.

Lemma file_name_nul a : x00 ∉ a.1 -> x00 ∉ file_name a.
Proof.
  intros Hn. unfold file_name, strip_dir, strip_mark. assert (H5 : x00 ∉ drop 5 (a.1)).
  { intros Hi. apply Hn. rewrite <- (take_drop 5 (a.1)). apply elem_of_app. auto. }
  set (l := if bool_decide _ then _ else _). assert (Hl : x00 ∉ l) by (unfold l; case_bool_decide; assumption).
  destruct l as [|c rest]; [exact Hl|]. destruct c; try exact Hl. intros Hi. apply Hl. right. exact Hi.
Qed.

Section Root.
Context (V : Z -> mem) (args : list file_arg) (B : built V args) (Hfit : fits args).
Local Abbreviation root := (node V 1).
Local Abbreviation n := (Z.of_nat (length args)).

Lemma root_bytes off : 0 <= off < MAXBYTES -> fbyte V root off = nth (Z.to_nat off) (root_data args) x00.
Proof. apply (fo_bytes _ _ _ _ (bu_root _ _ B)). Qed.

Lemma names_nul k name : root_names args !! k = Some name -> (x00 ∉ name) /\ Z.of_nat (length name) <= DIRSIZ.
Proof.
  intros Hk. destruct Hfit as (Hok & _). destruct k as [|[|k]].
  - injection Hk as <-. split; [apply (bool_decide_unpack _); vm_compute; exact I | vm_compute; congruence].
  - injection Hk as <-. split; [apply (bool_decide_unpack _); vm_compute; exact I | vm_compute; congruence].
  - change ((file_name <$> args) !! k = Some name) in Hk. rewrite list_lookup_fmap in Hk. destruct (args !! k) as [a|] eqn:Ea; [|discriminate]. injection Hk as <-.
    destruct (proj1 (Forall_lookup _ _) Hok k a Ea) as (_ & Hl & Hn & _). split; [apply file_name_nul, Hn | exact Hl].
Qed.

(** The first entries are those of ".", ".." and the files, in order. *)
Lemma root_entry k name : root_names args !! k = Some name ->
  ent_inum V root (Z.of_nat k * DIRENT_SIZE) = root_inum (Z.of_nat k) /\ ent_name V root (Z.of_nat k * DIRENT_SIZE) = name.
Proof.
  intros Hk. destruct (names_nul k name Hk) as [Hn Hl]. pose proof Hfit as (_ & Hfi & _). unfold NINODES in Hfi.
  assert (Hlt : (k < 2 + length args)%nat) by (apply lookup_lt_Some in Hk; cbn [root_names length] in Hk; rewrite length_fmap in Hk; lia).
  apply mk_dirent_entry; auto; [|unfold root_inum; destruct (_ <? 2); lia]. intros j Hj. change DIRENT_SIZE with 16.
  rewrite root_bytes by (change MAXBYTES with 274432; lia). unfold root_data, root_inum.
  replace (Z.to_nat (Z.of_nat k * 16 + j)) with (16 * k + Z.to_nat j)%nat by lia.
  destruct k as [|[|k]].
  - injection Hk as <-. rewrite app_nth1 by (rewrite mk_dirent_length; lia). reflexivity.
  - injection Hk as <-. rewrite app_nth2, mk_dirent_length, app_nth1 by (rewrite mk_dirent_length; lia). f_equal. lia.
  - change ((file_name <$> args) !! k = Some name) in Hk. replace (Z.of_nat (S (S k)) <? 2) with false by lia.
    rewrite app_nth2, mk_dirent_length, app_nth2, mk_dirent_length by (rewrite ?mk_dirent_length; lia).
    replace (16 * S (S k) + Z.to_nat j - 16 - 16)%nat with (16 * k + Z.to_nat j)%nat by lia.
    rewrite (entries_nth _ _ _ name) by (assumption || lia). replace (2 + Z.of_nat k) with (Z.of_nat (S (S k))) by lia. reflexivity.
Qed.

(** Looking a name up by its entry. *)
Lemma root_lookup k name j : NoDup (root_names args) -> root_names args !! k = Some name -> 0 <= j < Z.of_nat k ->
  ~ ent_is V root name (j * DIRENT_SIZE).
Proof.
  intros Hnd Hk Hj [_ He]. destruct (lookup_lt_is_Some_2 (root_names args) (Z.to_nat j)) as [name' Hj']; [apply lookup_lt_Some in Hk; lia|].
  destruct (root_entry _ _ Hj') as [_ En]. rewrite Z2Nat.id in En by lia. rewrite En in He. subst name'.
  pose proof (NoDup_lookup _ _ _ _ Hnd Hk Hj'). lia.
Qed.
End Root.

(** ** fsinit *)

Lemma fsinit_wp {S U} `{BC : BufCache S} (V : Z -> mem) (s : fstate S U) (Q : unit -> fstate S U -> Prop) :
  get_sb (V 1) = sb0 -> head_is (V 2) [] ->
  cache_rel 1 (l_bc (f_log s)) (c_fresh V) -> l_outstanding (f_log s) = 0 -> l_committing (f_log s) = false ->
  (forall l c, idle 1 2 30 l c -> quiet 2 30 V c -> Q tt (set_log l (set_sb sb0 s))) ->
  wp (fsinit 1) Q s.
Proof.
  intros Hsb Hh R Ho Hc HQ. unfold fsinit, readsb. apply wp_bind, wp_bind. unfold fbread, log_, bio.
  apply wp_zoom, wp_zoom. change (u32 1) with 1. eapply wp_mono.
  { apply (bread_law 1 1 _ (c_fresh V) R); [intros b; cbn; rewrite lookup_empty; discriminate | right; cbn; rewrite map_size_empty; reflexivity | cbn; rewrite lookup_empty; cbn; lia]. }
  intros b x (_ & R1). assert (Hh1 : c_held (c_read 1 b (c_fresh V)) !! b = Some 1) by apply lookup_insert_eq.
  apply wp_bind. unfold fdata, log_, bdata. apply wp_zoom, wp_gets. cbn [set_log set_bc f_log l_bc].
  destruct (data_law 1 x _ b 1 R1 Hh1) as [-> _]. cbn [c_view c_read c_fresh]. rewrite Hsb. apply wp_bind, wp_modify.
  unfold fbrelse, log_, bio. apply wp_zoom, wp_zoom. cbn [set_log set_bc f_log l_bc set_sb].
  eapply wp_mono; [apply (brelse_law 1 x _ b 1 R1 Hh1); reflexivity|]. intros [] x2 R2.
  replace (c_release 1 b (c_read 1 b (c_fresh V))) with (c_fresh V) in R2
    by (unfold c_release, c_read, c_fresh; cbn [c_disk c_view c_refs c_held c_writes]; rewrite ref_dec_inc, delete_insert_id by (intros; rewrite lookup_empty in *; congruence || reflexivity); reflexivity).
  apply wp_bind, wp_gets. cbn [set_log set_bc f_log l_bc set_sb f_sb]. apply wp_bind, wp_panic_if; [reflexivity|]. apply wp_zoom.
  eapply wp_mono.
  { apply (reboot_wp (BC := BC) 1 eq_refl 2 30 ltac:(unfold MAXOPBLOCKS, LOGSIZE, MAXOPBLOCKS; lia) sb0 (set_bc x2 (f_log s)) V V eq_refl eq_refl R2 Ho Hc).
    apply recovers_empty; [unfold LOGSIZE, MAXOPBLOCKS; lia | exact Hh | reflexivity]. }
  intros [] l (c & Hi & Hq & _). exact (HQ l c Hi Hq).
Qed.

(** ** Opening a file and reading it *)

Lemma inode_ok_same sb V x y : same_dinode x y -> inode_ok sb V y -> inode_ok sb V x.
Proof.
  intros (_ & _ & _ & _ & _ & Ha) OK j Hj. rewrite (islot_cong V x y j Ha) by lia. intros Hn. destruct (OK j Hj Hn) as (H1 & H2 & H3).
  split; [exact H1|]. split; [exact H2|]. intros j' Hj'. rewrite (islot_cong V x y j' Ha) by lia. auto.
Qed.

Lemma mapped_same V x y : same_dinode x y -> mapped V y -> mapped V x.
Proof.
  intros (_ & _ & _ & _ & Es & Ha) [H1 H2]. split; rewrite Es; [exact H1|]. intros off Ho.
  rewrite (fblock_cong V x y _ Ha); [auto | unfold MAXBYTES in *; fsdiv].
Qed.

Lemma ent_is_same V x y name off : same_dinode x y -> 0 <= off -> off + DIRENT_SIZE <= MAXBYTES ->
  (ent_is V x name off <-> ent_is V y name off) /\ ent_inum V x off = ent_inum V y off.
Proof.
  intros (_ & _ & _ & _ & _ & Ha) H0 H1. assert (E : dirent V x off = dirent V y off).
  { unfold dirent. f_equal. apply bytes_at_ext. intros i Hi. change (Z.to_nat DIRENT_SIZE) with 16%nat in Hi. change DIRENT_SIZE with 16 in H1.
    apply fbyte_cong; [exact Ha | lia]. }
  unfold ent_is, ent_inum, ent_name. rewrite E. auto.
Qed.

Lemma skipelem_one name m : x2f ∉ name -> name <> [] -> skipelem (SLASH :: name) m = (Some [], Path.elem_name name m).
Proof.
  intros Hn Hne. unfold skipelem. cbn [skip_slashes]. rewrite decide_True by reflexivity.
  assert (Hs : skip_slashes name = name).
  { destruct name as [|c rest]; [congruence|]. cbn. rewrite decide_False; [reflexivity|]. intros ->. apply Hn. left. }
  rewrite Hs. assert (Hp : span_elem name = (name, [])).
  { clear Hne Hs. induction name as [|c rest IH]; cbn; [reflexivity|]. apply not_elem_of_cons in Hn as [Hc Hr].
    rewrite decide_False by (unfold SLASH; congruence). rewrite IH by exact Hr. reflexivity. }
  destruct name as [|c rest]; [congruence|]. rewrite Hp. reflexivity.
Qed.

(** [namei("/name")], [ilock] and [readi] from the start of the file. *)
Definition open_read {S U} `{BufCache S} `{UserMem U} (name : list byte) (len : Z) : M (fstate S U) (option (Z * list byte)) :=
  ip ← namei (SLASH :: name);
  match ip with
  | None => mret None
  | Some ip => ilock (Some ip);; r ← readi ip KernelDst 0 len; mret (Some r)
  end.

Section Open.
Context {S U : Type} `{BC : BufCache S} `{UM : UserMem U}.
Context (V : Z -> mem) (args : list file_arg) (B : built V args) (Hfit : fits args).
Context (D : Z -> mem) (ws : list (Z * mem)) (W : Z -> mem) (E : agree 2 30 V W).
Local Abbreviation F := (fstate S U).
Local Abbreviation ftx := (tx 1 2 30 D ws 0 W []).
Local Abbreviation G := demo_geometry.

(** The inode table of a machine that has not used an inode. *)
Definition unused_table (tbl : nat -> inode) : Prop := forall j, i_ref (tbl j) = 0 /\ i_locked (tbl j) = false.

(** A freshly taken entry, before and after [ilock]. *)
Definition fresh_entry (x : inode) (inum : Z) : Prop :=
  i_dev x = 1 /\ i_inum x = inum /\ i_ref x = 1 /\ i_locked x = false /\ i_valid x = false.
Definition locked_entry (x : inode) (inum : Z) : Prop :=
  i_dev x = 1 /\ i_inum x = inum /\ i_ref x = 1 /\ i_locked x = true /\ i_valid x = true /\ same_dinode x (node V inum).

Lemma ilock_node ip inum l (s : F) (Q : unit -> F -> Prop) :
  f_sb s = sb0 -> 0 <= inum < NINODES -> i_type (node V inum) <> 0 -> fresh_entry (f_inode s ip) inum -> ftx ∅ l ->
  (forall l' s', same_but ip s s' -> locked_entry (f_inode s' ip) inum -> ftx ∅ l' -> Q tt (set_log l' s')) ->
  wp (ilock (Some ip)) Q (set_log l s).
Proof.
  intros Hsb Hi Hty (F1 & F2 & F3 & F4 & F5) X HQ.
  apply (ilock_reads 1 2 30 sb0 D ws 0 W [] ip (node V inum)); auto; [exact G | | lia |].
  - apply (agree_stored 2 30 sb0 G V W E (node V inum)); [exact Hi | apply node_stored].
  - intros l' s' H1 H2 H3 H4 H5 H6 H7 X'. apply HQ; auto. repeat split; auto; try apply H2. congruence.
Qed.

Lemma iunlockput_entry ip inum (s : F) (Q : unit -> F -> Prop) :
  f_ilock s = false -> locked_entry (f_inode s ip) inum -> i_nlink (node V inum) <> 0 ->
  (forall s', same_but ip s s' -> f_log s' = f_log s -> i_ref (f_inode s' ip) = 0 -> Q tt s') ->
  wp (iunlockput ip) Q s.
Proof.
  intros Hl (L1 & L2 & L3 & L4 & L5 & L6) Hn HQ. unfold iunlockput, iunlock, the_inode.
  apply wp_bind, wp_bind, wp_gets, wp_bind, wp_panic_if; [rewrite L3, L4; reflexivity|]. unfold isleep_unlock. apply wp_modify.
  assert (E1 : f_inode (upd_inode ip (set_ilocked false) s) ip = set_ilocked false (f_inode s ip)) by apply fn_lookup_insert.
  apply iput_simple; [exact Hl | rewrite E1; right; right; cbn; destruct L6 as (_ & _ & _ & -> & _); exact Hn |].
  apply HQ; [|reflexivity|].
  - apply (same_but_trans ip s (upd_inode ip (set_ilocked false) s)); apply same_but_upd.
  - cbn [upd_inode f_inode]. rewrite !fn_lookup_insert. cbn. rewrite L3. reflexivity.
Qed.

Context (Hnd : NoDup (root_names args)) (Hmod : (2 + Z.of_nat (length args)) mod 64 <> 0).

(** [dirlookup] of a file's name in the root directory. *)
Lemma dirlookup_root dp k a name l (s : F) (Q : option (nat * Z) -> F -> Prop) :
  args !! k = Some a -> CString.cstr (Z.to_nat DIRSIZ) name 0 = file_name a ->
  f_ilock s = false -> locked_entry (f_inode s dp) 1 -> (forall j, j <> dp -> i_ref (f_inode s j) = 0 /\ i_locked (f_inode s j) = false) ->
  ftx ∅ l ->
  (forall ip off l' s', ip <> dp -> same_but ip s s' -> fresh_entry (f_inode s' ip) (2 + Z.of_nat k) -> ftx ∅ l' -> Q (Some (ip, off)) (set_log l' s')) ->
  wp (dirlookup dp name) Q (set_log l s).
Proof.
  intros Hk Hname Hlk (L1 & L2 & L3 & L4 & L5 & L6) Hfree X HQ. set (x := f_inode s dp) in *.
  pose proof (bu_root _ _ B) as [R1 R2 R3 R4 R5]. pose proof (bu_root_size _ _ B) as Rsz.
  pose proof (proj2 (bu_root_mapped _ _ B) Hmod) as Rm. pose proof Hfit as (_ & Hfi & _). unfold NINODES in Hfi.
  pose proof (lookup_lt_Some _ _ _ Hk) as Hlt.
  assert (OK : inode_ok sb0 W x) by (apply (inode_ok_same sb0 W x _ L6), (agree_inode_ok 2 30 sb0 G V W E), R4).
  assert (Hm : mapped W x) by (apply (mapped_same W x _ L6), (agree_mapped 2 30 sb0 G V W E _ R4), Rm).
  assert (Esz : i_size x = padded args) by (destruct L6 as (_ & _ & _ & _ & Es & _); congruence).
  assert (Hpad : 16 * (2 + Z.of_nat (length args)) <= padded args <= 4096 /\ padded args mod 16 = 0) by (unfold padded; fsdiv).
  assert (Hent : forall i nm, 0 <= i < padded args / 16 -> ent_is W x nm (i * DIRENT_SIZE) <-> ent_is V (node V 1) nm (i * DIRENT_SIZE)).
  { intros i nm Hi. change DIRENT_SIZE with 16. destruct (ent_is_same W x (node V 1) nm (i * 16) L6) as [-> _]; [lia | change DIRENT_SIZE with 16; change MAXBYTES with 274432; zdiv|].
    unfold ent_is, ent_inum, ent_name. replace (dirent W (node V 1) (i * 16)) with (dirent V (node V 1) (i * 16)); [reflexivity|].
    unfold dirent. f_equal. apply bytes_at_ext. intros q Hq. change (Z.to_nat DIRENT_SIZE) with 16%nat in Hq. symmetry.
    apply (agree_fbyte 2 30 sb0 G V W E _ R4). change MAXBYTES with 274432. zdiv. }
  assert (Hroot : root_names args !! (2 + k)%nat = Some (file_name a))
    by (change ((file_name <$> args) !! k = Some (file_name a)); rewrite list_lookup_fmap, Hk; reflexivity).
  destruct (root_entry V args B Hfit _ _ Hroot) as [Hin Hnm]. 
  assert (Hi : root_inum (Z.of_nat (2 + k)) = 2 + Z.of_nat k) by (unfold root_inum; replace (_ <? 2) with false by lia; lia). rewrite Hi in Hin.
  eapply wp_mono; [apply (dirlookup_wp 1 eq_refl 2 30 sb0 G D ws 0 dp name W [] l s); auto|].
  - fold x. destruct L6 as (-> & _). exact R1.
  - fold x. rewrite Esz. apply Hpad.
  - intros inum. exists (if decide (dp = 0%nat) then 1%nat else 0%nat). split; [case_decide; vm_compute; lia|]. right. apply Hfree. case_decide; congruence.
  - fold x. rewrite Hname, Esz. intros r s' (l' & s1 & -> & X' & Hr). change DIRENT_SIZE with 16 in *.
    assert (Hyes : ent_is V (node V 1) (file_name a) (Z.of_nat (2 + k) * 16)) by (split; [rewrite Hin; lia | exact Hnm]).
    destruct r as [[ip off]|].
    + destruct Hr as (i & -> & Hir & Hie & Hprev & Hs & (_ & _ & Hg)). cbn [f_inode set_log] in Hg.
      assert (i = Z.of_nat (2 + k)) as ->.
      { destruct (Z.lt_trichotomy i (Z.of_nat (2 + k))) as [Hc|[Hc|Hc]]; [exfalso | exact Hc | exfalso].
        - apply (root_lookup V args B Hfit (2 + k) _ i Hnd Hroot); [lia|]. apply Hent; [lia | exact Hie].
        - apply (Hprev (Z.of_nat (2 + k))); [lia|]. apply Hent; [zdiv | exact Hyes]. }
      assert (Ein : ent_inum W x (Z.of_nat (2 + k) * 16) = 2 + Z.of_nat k).
      { destruct (ent_is_same W x (node V 1) [] (Z.of_nat (2 + k) * 16) L6) as [_ ->]; [lia | change DIRENT_SIZE with 16; change MAXBYTES with 274432; lia|].
        rewrite <- Hin. unfold ent_inum. f_equal. unfold dirent. f_equal. apply bytes_at_ext. intros q Hq. change (Z.to_nat DIRENT_SIZE) with 16%nat in Hq.
        apply (agree_fbyte 2 30 sb0 G V W E _ R4). change MAXBYTES with 274432. lia. }
      rewrite Ein in Hg. destruct Hg as [((Hg1 & Hg2 & Hg3) & _)|(_ & Hg0 & Hg)].
      { exfalso. destruct (decide (ip = dp)) as [->|Hne]; [fold x in Hg3; lia|]. destruct (Hfree ip Hne). lia. }
      assert (Hne : ip <> dp) by (intros ->; fold x in Hg0; lia).
      apply HQ; auto. rewrite Hg. repeat split. apply Hfree, Hne.
    + exfalso. destruct Hr as [_ Hno]. apply (Hno (Z.of_nat (2 + k))); [zdiv|]. apply Hent; [zdiv | exact Hyes].
Qed.

Lemma file_name_slash a : x2f ∉ strip_dir (a.1) -> x2f ∉ file_name a.
Proof.
  intros Hn. unfold file_name, strip_mark. destruct (strip_dir (a.1)) as [|c rest]; [exact Hn|]. destruct c; try exact Hn.
  intros Hi. apply Hn. right. exact Hi.
Qed.

(** [namei] of the absolute name of a file. *)
Lemma namei_root k a l (s : F) (Q : option nat -> F -> Prop) :
  args !! k = Some a -> file_name a <> [] -> f_sb s = sb0 -> f_ilock s = false -> unused_table (f_inode s) -> ftx ∅ l ->
  (forall ip l' s', f_sb s' = sb0 -> f_ilock s' = false -> fresh_entry (f_inode s' ip) (2 + Z.of_nat k) -> ftx ∅ l' -> Q (Some ip) (set_log l' s')) ->
  wp (namei (SLASH :: file_name a)) Q (set_log l s).
Proof.
  intros Hk Hne Hsb Hlk Hun X HQ. pose proof Hfit as (Hok & Hfi & _). destruct (proj1 (Forall_lookup _ _) Hok k a Hk) as (Hsl & Hlen & Hnul & _).
  pose proof (file_name_slash a Hsl) as Hsl'. pose proof (file_name_nul a Hnul) as Hnul'. pose proof (bu_root _ _ B) as [R1 R2 _ _ _].
  unfold namei, namex. rewrite decide_True by reflexivity. apply wp_bind, wp_bind.
  apply iget_wp; [exact Hlk | exists 0%nat; split; [vm_compute; lia | right; apply Hun]|]. intros dp s1 (Hs1 & El & Hg). cbn [f_inode f_log set_log] in El, Hg.
  destruct Hg as [((Hg & _) & _)|(_ & _ & Hg)]; [exfalso; destruct (Hun dp); lia|].
  destruct Hs1 as (Hb1 & Hb2 & _ & _ & Hb5). cbn [f_sb f_ilock f_inode set_log] in Hb1, Hb2, Hb5.
  rewrite (set_log_id s1), El. cbn [length]. set (fuel := length (file_name a)). cbn [loop]. apply wp_bind. unfold namex_step at 1.
  rewrite (skipelem_one _ zeroes Hsl' Hne). apply wp_bind.
  apply (ilock_node dp 1 l s1); [congruence | unfold NINODES; lia | rewrite R1; discriminate | rewrite Hg; repeat split; apply Hun | exact X |].
  intros l2 s2 (Hc1 & Hc2 & _ & _ & Hc5) HL X2. unfold the_inode. apply wp_bind, wp_gets. cbn [f_inode set_log].
  pose proof HL as (_ & _ & _ & _ & _ & (L6 & _)). rewrite L6, R1. cbn [negb Z.eqb T_DIR]. change (1 =? T_DIR) with true. cbn [negb andb].
  apply wp_bind. eapply (dirlookup_root dp k a _ l2 s2 _ Hk); [| congruence | exact HL | | exact X2 |].
  { rewrite Path.elem_name_cstr by exact Hnul'. apply take_ge. change (Z.to_nat DIRSIZ) with 14%nat. change DIRSIZ with 14 in Hlen. lia. }
  { intros j Hj. rewrite Hc5, Hb5 by exact Hj. apply Hun. }
  intros ip off l3 s3 Hip (Hd1 & Hd2 & _ & _ & Hd5) Hfr X3. apply wp_bind.
  apply (iunlockput_entry dp 1); [cbn; congruence | cbn [f_inode set_log]; rewrite Hd5 by congruence; exact HL | rewrite R2; discriminate |].
  intros s4 (He1 & He2 & _ & _ & He5) El4 _. cbn [f_sb f_ilock f_inode f_log set_log] in *. rewrite (set_log_id s4), El4. apply wp_ret. cbn iota.
  apply wp_bind. cbn [namex_step]. change (skipelem [] ?m) with (@None (list byte), m). cbn iota. apply wp_ret, wp_ret, wp_ret.
  apply HQ; [congruence | congruence | rewrite He5 by exact Hip; exact Hfr | exact X3].
Qed.

Lemma open_read_wp k a len l (s : F) :
  args !! k = Some a -> file_name a <> [] -> 0 <= len < 2 ^ 32 -> f_sb s = sb0 -> f_ilock s = false -> unused_table (f_inode s) -> ftx ∅ l ->
  wp (open_read (file_name a) len) (fun r _ => r = Some (Z.min len (Z.of_nat (length (file_data a))), take (Z.to_nat len) (file_data a))) (set_log l s).
Proof.
  intros Hk Hne Hlen Hsb Hlk Hun X. destruct (bu_file _ _ B k a Hk) as ([R1 R2 _ R4 R5] & Rsz & Rm).
  pose proof Hfit as (_ & Hfi & _). pose proof (lookup_lt_Some _ _ _ Hk) as Hlt. set (i := 2 + Z.of_nat k) in *.
  unfold open_read. apply wp_bind, (namei_root k a l s); auto. intros ip l1 s1 Hsb1 Hlk1 Hfr X1. fold i in Hfr.
  apply wp_bind, (ilock_node ip i l1 s1); auto; [unfold i, NINODES in *; lia | rewrite R1; discriminate |].
  intros l2 s2 _ (L1 & _ & _ & _ & _ & L6) X2. set (x := f_inode s2 ip) in *.
  assert (OK : inode_ok sb0 W x) by (apply (inode_ok_same sb0 W x _ L6), (agree_inode_ok 2 30 sb0 G V W E), R4).
  assert (Hm : mapped W x) by (apply (mapped_same W x _ L6), (agree_mapped 2 30 sb0 G V W E _ R4), Rm).
  assert (Esz : i_size x = Z.of_nat (length (file_data a))) by (destruct L6 as (_ & _ & _ & _ & Es & _); congruence).
  assert (Hcnt : read_count x 0 len = Z.min len (Z.of_nat (length (file_data a)))) by (unfold read_count; replace (_ || _) with false by lia; lia).
  apply wp_bind. eapply wp_mono; [apply (readi_wp 1 eq_refl 2 30 sb0 G D ws 0 ip W [] KernelDst 0 len l2 s2); auto; [lia | exact I]|].
  fold x. rewrite Hcnt. intros r s' (l3 & u & -> & _ & [[-> _]|(_ & Hno & _)]); [|congruence]. apply wp_ret. f_equal. f_equal.
  destruct Rm as [Hsz _]. rewrite Rsz in Hsz. apply list_eq. intros q. destruct (decide (q < Z.to_nat (Z.min len (Z.of_nat (length (file_data a)))))%nat) as [Hq|Hq].
  - rewrite lookup_bytes_at by exact Hq. rewrite lookup_take_lt, Z.add_0_l by lia.
    rewrite (fbyte_cong W x (node V i)) by (try apply L6; lia). rewrite (agree_fbyte 2 30 sb0 G V W E _ R4) by lia.
    rewrite R5, Nat2Z.id, nth_lookup by lia. destruct (lookup_lt_is_Some_2 (file_data a) q ltac:(lia)) as [b ->]. reflexivity.
  - rewrite !lookup_ge_None_2; [reflexivity | rewrite length_take; lia | rewrite length_bytes_at; lia].
Qed.
End Open.

Lemma main_built args : fits args -> wp (main args) (fun _ im => im_len im = FSSIZE /\ built (im_sect im) args) image0.
Proof.
  intros Hf. apply main_wp; [exact Hf|]. intros V C T din fi used DK HC Hdin. split; [reflexivity|].
  exact (final_built args V C T din DK HC Hdin).
Qed.

(** ** A run with one file, read in two pieces *)

Definition demo_arg : file_arg := (String.list_byte_of_string "user/_cat", Some [[x41; x42]; [x43]]).
Definition demo_args : list file_arg := [demo_arg].

Lemma demo_fits : fits demo_args.
Proof.
  split; [|vm_compute; split; congruence]. apply Forall_singleton. split; [apply (bool_decide_unpack _); vm_compute; exact I|].
  split; [vm_compute; congruence|]. split; [apply (bool_decide_unpack _); vm_compute; exact I|].
  split; [|vm_compute; congruence]. exists [[x41; x42]; [x43]]. split; [reflexivity|]. repeat constructor; discriminate.
Qed.

Lemma demo_main : exists im, main demo_args image0 = Ret tt im.
Proof.
  destruct (proj1 (wp_run _ _ _) (main_wp demo_args (fun _ _ => True) demo_fits ltac:(intros; exact I))) as ([] & im & Er & _). exists im. exact Er.
Qed.

Lemma demo_names : NoDup (root_names demo_args) /\ (2 + Z.of_nat (length demo_args)) mod 64 <> 0 /\ file_name demo_arg <> [].
Proof. split; [apply (bool_decide_unpack _); vm_compute; exact I|]. split; vm_compute; congruence. Qed.

(** ** Properties *)

(** C9: mkfs, given files that fit, terminates with an image of FSSIZE
    sectors that is a consistent file system: the superblock and an empty log
    are in place, exactly the blocks used are marked, the inode of each file
    holds its bytes in blocks no other inode has, the root directory lists
    them, and the other inodes are free.  The root directory, whose size is
    rounded up past its last entry, has a block for every byte of that size
    exactly when its entries do not fill whole blocks. *)
Theorem mkfs_image args : fits args -> wp (main args) (fun _ im => im_len im = FSSIZE /\ built (im_sect im) args) image0.
Proof.
  exact (main_built args).
Qed.

Lemma mkfs_image_witness : exists im, main demo_args image0 = Ret tt im /\ i_size (node (im_sect im) 2) = 3.
Proof.
  destruct (proj1 (wp_run _ _ _) (mkfs_image demo_args demo_fits)) as ([] & im & Er & _ & B).
  exists im. split; [exact Er|]. destruct (bu_file _ _ B 0 demo_arg eq_refl) as (_ & H & _). exact H.
Defined.

(** C4: a machine booted on the image mkfs made finds each file by name and
    reads the bytes mkfs was given: [fsinit], [namei], [ilock] and [readi]
    return the first [len] bytes of the file. *)
Theorem mkfs_boot_read {S U} `{BC : BufCache S} `{UM : UserMem U} args k a len (s : fstate S U) im :
  fits args -> main args image0 = Ret tt im -> NoDup (root_names args) -> (2 + Z.of_nat (length args)) mod 64 <> 0 ->
  args !! k = Some a -> file_name a <> [] -> 0 <= len < 2 ^ 32 ->
  cache_rel 1 (l_bc (f_log s)) (c_fresh (im_sect im)) -> l_outstanding (f_log s) = 0 -> l_committing (f_log s) = false ->
  f_ilock s = false -> unused_table (f_inode s) ->
  wp (fsinit 1;; open_read (file_name a) len)
     (fun r _ => r = Some (Z.min len (Z.of_nat (length (file_data a))), take (Z.to_nat len) (file_data a))) s.
Proof.
  intros Hf Hrun Hnd Hmod Hk Hne Hlen R Ho Hc Hlk Hun.
  assert (B : built (im_sect im) args).
  { destruct (proj1 (wp_run _ _ _) (main_built args Hf)) as (r & im' & Er & _ & B). rewrite Hrun in Er. injection Er as <- <-. exact B. }
  apply wp_bind, (fsinit_wp (im_sect im)); [apply B | apply B | exact R | exact Ho | exact Hc |]. intros l c Hi Hq.
  eapply (open_read_wp (im_sect im) args B Hf (c_disk c) (c_writes c) (c_view c)); eauto.
  - intros blk Hb. symmetry. apply (q_data _ _ _ _ Hq blk Hb).
  - apply (idle_tx 1 eq_refl 2 30 (geo_ok 2 30 sb0 demo_geometry) l c Hi). lia.
Qed.

Lemma mkfs_boot_read_witness : exists (s s' : fstate bstate (Z -> byte)),
  (fsinit 1;; open_read (H0 := flat_user) (String.list_byte_of_string "cat") 100) s = Ret (Some (3, [x41; x42; x43])) s'.
Proof.
  destruct demo_main as [im Er].
  destruct (proj1 (wp_run _ _ _) (binit_wp 1 (im_sect im) ltac:(lia))) as ([] & x & _ & R & _).
  set (s := FState (lstate0 x) sb0 false (fun _ => set_iref 0 demo_inode) zeroes 0 : fstate bstate (Z -> byte)).
  destruct demo_names as (H1 & H2 & H3).
  destruct (proj1 (wp_run _ _ _) (mkfs_boot_read (BC := bio_cache) (UM := flat_user) demo_args 0 demo_arg 100 s im demo_fits Er
    H1 H2 eq_refl H3 ltac:(lia) R eq_refl eq_refl eq_refl (fun j => conj eq_refl eq_refl))) as (r & s' & Er' & ->).
  exists s, s'. exact Er'.
Defined.
