(* ===== verification/Grep.v ===== *)
(** * user/grep.c

    The regular-expression matcher against a denotation of patterns, and the
    line loop of [grep] against "the matching lines of the input", for every
    way [read] cuts the input.

    A C string is the list of its bytes without the NUL. *)

From S2P Require Import Prelude Memory.

Module Grep.

Definition STAR : byte := x2a.
Definition DOT : byte := x2e.
Definition CARET : byte := x5e.
Definition DOLLAR : byte := x24.
Definition NL : byte := x0a.

(** ** The matcher *)

(** [matchstar(c, re, text)], with [matchhere(re, .)] given. *)
Fixpoint matchstar (here : list byte -> bool) (c : byte) (text : list byte) : bool :=
  if here text then true
  else match text with
       | t :: text' => if bool_decide (t = c) || bool_decide (c = DOT) then matchstar here c text' else false
       | [] => false
       end.

Fixpoint matchhere (re text : list byte) : bool :=
  match re with
  | [] => true
  | c :: re1 =>
      match re1 with
      | d :: re2 =>
          if bool_decide (d = STAR) then matchstar (matchhere re2) c text
          else match text with
               | t :: text' =>
                   if bool_decide (c = DOT) || bool_decide (c = t) then matchhere re1 text' else false
               | [] => false
               end
      | [] =>
          if bool_decide (c = DOLLAR) then bool_decide (text = [])
          else match text with
               | t :: text' =>
                   if bool_decide (c = DOT) || bool_decide (c = t) then matchhere re1 text' else false
               | [] => false
               end
      end
  end.

(** The [do ... while( *text++ != 0)] of [match]. *)
Fixpoint match_from (re text : list byte) : bool :=
  if matchhere re text then true
  else match text with _ :: text' => match_from re text' | [] => false end.

Definition match_ (re text : list byte) : bool :=
  match re with
  | c :: re' => if bool_decide (c = CARET) then matchhere re' text else match_from re text
  | [] => match_from re text
  end.

(** ** grep

    The input is the sequence of chunks [read] has available; [read] returns
    at most [k] bytes of the first one. *)

Definition read (k : nat) (chunks : list (list byte)) : list byte * list (list byte) :=
  match chunks with
  | [] => ([], [])
  | c :: cs => if (length c <=? k)%nat then (c, cs) else (take k c, drop k c :: cs)
  end.

(** [strchr(p, '\n')] on the NUL-terminated buffer [p]: the bytes before the
    newline and those after it. *)
Fixpoint find_nl (p : list byte) : option (list byte * list byte) :=
  match p with
  | [] => None
  | c :: p' =>
      if bool_decide (c = x00) then None
      else if bool_decide (c = NL) then Some ([], p')
      else match find_nl p' with Some (l, r) => Some (c :: l, r) | None => None end
  end.

(** The inner loop: the output and the bytes from [p] on.  Every iteration
    consumes a newline, so the buffer length bounds them. *)
Fixpoint grep_lines (fuel : nat) (pattern p : list byte) : list byte * list byte :=
  match fuel with
  | O => ([], p)
  | S fuel' =>
      match find_nl p with
      | None => ([], p)
      | Some (line, rest) =>
          let '(out, p') := grep_lines fuel' pattern rest in
          ((if match_ pattern line then line ++ [NL] else []) ++ out, p')
      end
  end.

Definition BUFSZ : nat := 1024.

(** The outer loop; [m] is the length of [buf]. *)
Fixpoint grep_loop (fuel : nat) (pattern buf : list byte) (chunks : list (list byte)) : option (list byte) :=
  match fuel with
  | O => None
  | S fuel' =>
      let '(bs, chunks') := read (BUFSZ - length buf - 1) chunks in
      match bs with
      | [] => Some []
      | _ =>
          let buf := buf ++ bs in
          let '(out, rest) := grep_lines (S (length buf)) pattern buf in
          (fun out' => out ++ out') <$> grep_loop fuel' pattern rest chunks'
      end
  end.

Definition grep (pattern : list byte) (chunks : list (list byte)) : option (list byte) :=
  grep_loop (S (length (concat chunks))) pattern [] chunks.

(** ** What a pattern denotes *)

Record atom := Atom { a_char : byte; a_star : bool }.

(** The atoms of a pattern and whether it is anchored at the end. *)
Fixpoint parse (re : list byte) : list atom * bool :=
  match re with
  | [] => ([], false)
  | c :: re1 =>
      match re1 with
      | d :: re2 =>
          if bool_decide (d = STAR) then let '(l, e) := parse re2 in (Atom c true :: l, e)
          else let '(l, e) := parse re1 in (Atom c false :: l, e)
      | [] => if bool_decide (c = DOLLAR) then ([], true) else ([Atom c false], false)
      end
  end.

Definition char_ok (c t : byte) : Prop := c = DOT \/ c = t.

(** The strings a sequence of atoms denotes. *)
Fixpoint denotes (l : list atom) (s : list byte) : Prop :=
  match l with
  | [] => s = []
  | Atom c false :: l' => exists t s', s = t :: s' /\ char_ok c t /\ denotes l' s'
  | Atom c true :: l' => exists s1 s2, s = s1 ++ s2 /\ Forall (char_ok c) s1 /\ denotes l' s2
  end.

(** A prefix of [text] (all of it when anchored) is denoted. *)
Definition matches_here (re text : list byte) : Prop :=
  let '(l, e) := parse re in
  exists mid post, text = mid ++ post /\ (e = true -> post = []) /\ denotes l mid.

Definition strip_caret (re : list byte) : list byte * bool :=
  match re with
  | c :: re' => if bool_decide (c = CARET) then (re', true) else (re, false)
  | [] => ([], false)
  end.

Definition matches (re text : list byte) : Prop :=
  let '(re, caret) := strip_caret re in
  exists pre rest, text = pre ++ rest /\ (caret = true -> pre = []) /\ matches_here re rest.

Lemma char_ok_true c t : bool_decide (t = c) || bool_decide (c = DOT) = true <-> char_ok c t.
Proof.
  unfold char_ok. rewrite orb_true_iff, !bool_decide_eq_true. split; intros [?|?]; subst; auto.
Qed.

Lemma char_ok_true' c t : bool_decide (c = DOT) || bool_decide (c = t) = true <-> char_ok c t.
Proof. unfold char_ok. rewrite orb_true_iff, !bool_decide_eq_true. tauto. Qed.

Lemma matchstar_spec here (P : list byte -> Prop) c text :
  (forall t, here t = true <-> P t) ->
  matchstar here c text = true <->
  exists s1 s2, text = s1 ++ s2 /\ Forall (char_ok c) s1 /\ P s2.
Proof.
  intros HP. induction text as [|t text IH]; cbn [matchstar].
  - destruct (here []) eqn:E; split; try discriminate.
    + intros _. exists [], []. split; [reflexivity|]. split; [apply Forall_nil_2 | apply HP; exact E].
    + reflexivity.
    + intros (s1 & s2 & E2 & _ & H2). symmetry in E2. apply app_nil in E2 as [-> ->].
      apply HP in H2. congruence.
  - destruct (here (t :: text)) eqn:E.
    + split; [|reflexivity]. intros _. exists [], (t :: text). split; [reflexivity|].
      split; [apply Forall_nil_2 | apply HP; exact E].
    + destruct (bool_decide (t = c) || bool_decide (c = DOT)) eqn:Ec.
      * apply char_ok_true in Ec. rewrite IH. split.
        -- intros (s1 & s2 & -> & H1 & H2). exists (t :: s1), s2. split; [reflexivity|]. auto using Forall_cons_2.
        -- intros (s1 & s2 & E2 & H1 & H2). destruct s1 as [|x s1]; cbn in E2.
           ++ subst s2. apply HP in H2. congruence.
           ++ injection E2 as -> ->. apply Forall_cons in H1 as [_ H1]. eauto.
      * split; [discriminate|]. intros (s1 & s2 & E2 & H1 & H2). destruct s1 as [|x s1]; cbn in E2.
        -- subst s2. apply HP in H2. congruence.
        -- injection E2 as -> ->. apply Forall_cons in H1 as [H1 _]. apply char_ok_true in H1. congruence.
Qed.

Lemma matchhere_cons c re text :
  (match re with d :: _ => d <> STAR | [] => c <> DOLLAR end) ->
  matchhere (c :: re) text =
  match text with
  | t :: text' => if bool_decide (c = DOT) || bool_decide (c = t) then matchhere re text' else false
  | [] => false
  end.
Proof.
  intros H. destruct re as [|d re]; cbn [matchhere]; rewrite bool_decide_false by exact H; reflexivity.
Qed.

Lemma parse_cons c re :
  (match re with d :: _ => d <> STAR | [] => c <> DOLLAR end) ->
  parse (c :: re) = let '(l, e) := parse re in (Atom c false :: l, e).
Proof.
  intros H. destruct re as [|d re]; cbn [parse]; rewrite bool_decide_false by exact H; reflexivity.
Qed.

Lemma matches_here_char c re text :
  (match re with d :: _ => d <> STAR | [] => c <> DOLLAR end) ->
  matches_here (c :: re) text <-> exists t text', text = t :: text' /\ char_ok c t /\ matches_here re text'.
Proof.
  intros H. unfold matches_here. rewrite parse_cons by exact H. destruct (parse re) as [l e]. cbn [denotes]. split.
  - intros (mid & post & -> & He & t & s' & -> & Hc & Hd). exists t, (s' ++ post). split; [reflexivity|].
    split; [exact Hc|]. eauto.
  - intros (t & text' & -> & Hc & mid & post & -> & He & Hd). exists (t :: mid), post. split; [reflexivity|].
    split; [exact He|]. eauto.
Qed.

Lemma matches_here_star c re text :
  matches_here (c :: STAR :: re) text <->
  exists s1 s2, text = s1 ++ s2 /\ Forall (char_ok c) s1 /\ matches_here re s2.
Proof.
  unfold matches_here. cbn [parse]. rewrite bool_decide_true by reflexivity.
  destruct (parse re) as [l e]. cbn [denotes]. split.
  - intros (mid & post & -> & He & s1 & s2 & -> & H1 & H2). exists s1, (s2 ++ post).
    rewrite app_assoc. eauto 8.
  - intros (s1 & s2 & -> & H1 & mid & post & -> & He & Hd). exists (s1 ++ mid), post.
    rewrite app_assoc. split; [reflexivity|]. split; [exact He|]. eauto.
Qed.

(** Patterns by their structure. *)
Lemma re_ind (P : list byte -> Prop) :
  P [] -> P [DOLLAR] ->
  (forall c re, P re -> P (c :: STAR :: re)) ->
  (forall c re, (match re with d :: _ => d <> STAR | [] => c <> DOLLAR end) -> P re -> P (c :: re)) ->
  forall re, P re.
Proof.
  intros H0 H1 H2 H3 re. remember (length re) as n eqn:E. revert re E.
  induction n as [n IH] using lt_wf_ind. intros [|c [|d re]] ->.
  - exact H0.
  - destruct (decide (c = DOLLAR)) as [->|Hc]; [exact H1 | exact (H3 c [] Hc H0)].
  - destruct (decide (d = STAR)) as [->|Hd].
    + apply H2. apply (IH (length re)); [cbn; lia | reflexivity].
    + apply (H3 c (d :: re) Hd). apply (IH (length (d :: re))); [cbn; lia | reflexivity].
Qed.

Lemma matchhere_spec re : forall text, matchhere re text = true <-> matches_here re text.
Proof.
  induction re as [| |c re IH|c re Hc IH] using re_ind; intros text.
  - split; [|reflexivity]. intros _. exists [], text. split; [reflexivity|]. split; [discriminate | reflexivity].
  - change (matchhere [DOLLAR] text) with (bool_decide (text = [])). rewrite bool_decide_eq_true. split.
    + intros ->. exists [], []. split; [reflexivity|]. split; reflexivity.
    + intros (mid & post & -> & Hp & ->). rewrite Hp; reflexivity.
  - rewrite matches_here_star. cbn [matchhere]. rewrite bool_decide_true by reflexivity.
    apply matchstar_spec. exact IH.
  - rewrite matchhere_cons, matches_here_char by exact Hc. destruct text as [|t text].
    + split; [discriminate|]. intros (t & text' & E & _). discriminate.
    + destruct (_ || _) eqn:Ec.
      * apply char_ok_true' in Ec. rewrite IH. split; [eauto|].
        intros (t' & text' & [= <- <-] & _ & H). exact H.
      * split; [discriminate|]. intros (t' & text' & [= <- <-] & Hk & _).
        apply char_ok_true' in Hk. congruence.
Qed.

Lemma match_from_spec re text :
  match_from re text = true <-> exists pre rest, text = pre ++ rest /\ matches_here re rest.
Proof.
  induction text as [|t text IH]; cbn [match_from].
  - destruct (matchhere re []) eqn:E; split; try discriminate; intros H.
    + exists [], []. split; [reflexivity|]. apply matchhere_spec. exact E.
    + reflexivity.
    + destruct H as (pre & rest & E2 & H). symmetry in E2. apply app_nil in E2 as [-> ->].
      apply matchhere_spec in H. congruence.
  - destruct (matchhere re (t :: text)) eqn:E.
    + split; [|reflexivity]. intros _. exists [], (t :: text). split; [reflexivity|]. apply matchhere_spec. exact E.
    + rewrite IH. split.
      * intros (pre & rest & -> & H). exists (t :: pre), rest. auto.
      * intros ([|x pre] & rest & E2 & H); cbn in E2; [subst rest; apply matchhere_spec in H; congruence|].
        injection E2 as -> ->. eauto.
Qed.

Lemma match_spec re text : match_ re text = true <-> matches re text.
Proof.
  unfold match_, matches, strip_caret. destruct re as [|c re].
  - rewrite match_from_spec. split; intros (pre & rest & H); exists pre, rest; intuition discriminate.
  - destruct (bool_decide (c = CARET)).
    + rewrite matchhere_spec. split.
      * intros H. exists [], text. auto.
      * intros (pre & rest & -> & Hp & H). rewrite Hp; auto.
    + rewrite match_from_spec. split; intros (pre & rest & H); exists pre, rest; intuition discriminate.
Qed.

(** ** What grep prints *)

(** The newline-terminated lines of the input and the bytes after the last
    newline. *)
Fixpoint lines_of (s : list byte) : list (list byte) * list byte :=
  match s with
  | [] => ([], [])
  | c :: s' =>
      let '(ls, tl) := lines_of s' in
      if bool_decide (c = NL) then ([] :: ls, tl)
      else match ls with
           | [] => ([], c :: tl)
           | l :: ls' => ((c :: l) :: ls', tl)
           end
  end.

Definition matching (pattern s : list byte) : list byte :=
  concat ((fun l => if match_ pattern l then l ++ [NL] else []) <$> (lines_of s).1).

Lemma lines_of_app a b :
  lines_of (a ++ b) =
  ((lines_of a).1 ++ (lines_of ((lines_of a).2 ++ b)).1, (lines_of ((lines_of a).2 ++ b)).2).
Proof.
  induction a as [|c a IH]; cbn [lines_of app fst snd]; [destruct (lines_of b); reflexivity|].
  rewrite IH. destruct (lines_of a) as [ls tl]. cbn [fst snd].
  destruct (bool_decide (c = NL)) eqn:Ec; [reflexivity|].
  destruct ls as [|l ls]; cbn [app fst snd lines_of]; [|reflexivity].
  rewrite Ec. destruct (lines_of (tl ++ b)) as [[|l2 ls2] t2]; reflexivity.
Qed.

Lemma lines_tail s : (lines_of s).2 = s /\ (lines_of s).1 = [] \/ NL ∈ s.
Proof.
  induction s as [|c s IH]; cbn [lines_of]; [auto|].
  destruct (decide (c = NL)) as [->|Hc]; [right; left|].
  destruct IH as [[H1 H2]|H]; [|right; right; exact H]. left.
  destruct (lines_of s) as [ls tl]. cbn [fst snd] in *. subst.
  rewrite bool_decide_false by exact Hc. auto.
Qed.

Lemma lines_no_nl s : NL ∉ s -> lines_of s = ([], s).
Proof.
  intros Hs. destruct (lines_tail s) as [[H1 H2]|H]; [|contradiction].
  destruct (lines_of s). cbn in *. subst. reflexivity.
Qed.

Lemma tail_no_nl s : NL ∉ (lines_of s).2.
Proof.
  induction s as [|c s IH]; cbn [lines_of]; [apply not_elem_of_nil|].
  destruct (lines_of s) as [ls tl]. cbn [snd] in IH. case_bool_decide as Hc; [exact IH|].
  destruct ls; cbn [snd]; [|exact IH]. apply not_elem_of_cons. auto.
Qed.

Lemma tail_in c s : c ∈ (lines_of s).2 -> c ∈ s.
Proof.
  induction s as [|d s IH]; cbn [lines_of]; [auto|].
  destruct (lines_of s) as [ls tl]. cbn [snd] in *. case_bool_decide; cbn [snd]; [right; auto|].
  destruct ls; cbn [snd]; [|right; auto]. intros [->|Hin]%elem_of_cons; [left | right; auto].
Qed.

Lemma lines_line l r : NL ∉ l -> lines_of (l ++ NL :: r) = (l :: (lines_of r).1, (lines_of r).2).
Proof.
  induction l as [|c l IH]; cbn [app lines_of].
  - intros _. destruct (lines_of r). rewrite bool_decide_true by reflexivity. reflexivity.
  - intros [Hc Hl]%not_elem_of_cons. rewrite IH by exact Hl.
    rewrite bool_decide_false by congruence. reflexivity.
Qed.

Lemma find_nl_some p l r : x00 ∉ p -> find_nl p = Some (l, r) -> p = l ++ NL :: r /\ NL ∉ l.
Proof.
  revert l. induction p as [|c p IH]; intros l Hp; cbn [find_nl]; [discriminate|].
  apply not_elem_of_cons in Hp as [Hc Hp]. rewrite (bool_decide_false (c = x00)) by congruence.
  case_bool_decide as Hn.
  - intros [= <- <-]. subst. split; [reflexivity | apply not_elem_of_nil].
  - destruct (find_nl p) as [[l' r']|]; [|discriminate]. intros [= <- <-].
    destruct (IH l' Hp eq_refl) as [-> H]. split; [reflexivity|]. apply not_elem_of_cons. auto.
Qed.

Lemma find_nl_none p : x00 ∉ p -> find_nl p = None -> NL ∉ p.
Proof.
  induction p as [|c p IH]; intros Hp; cbn [find_nl]; [intros _; apply not_elem_of_nil|].
  apply not_elem_of_cons in Hp as [Hc Hp]. rewrite (bool_decide_false (c = x00)) by congruence.
  case_bool_decide as Hn; [discriminate|]. destruct (find_nl p) as [[l' r']|]; [discriminate|].
  intros _. apply not_elem_of_cons. auto.
Qed.

Lemma matching_cons pattern l r :
  NL ∉ l -> matching pattern (l ++ NL :: r) =
  (if match_ pattern l then l ++ [NL] else []) ++ matching pattern r.
Proof. intros Hl. unfold matching. rewrite lines_line by exact Hl. reflexivity. Qed.

Lemma matching_app pattern a b :
  matching pattern (a ++ b) = matching pattern a ++ matching pattern ((lines_of a).2 ++ b).
Proof. unfold matching. rewrite lines_of_app. cbn [fst]. rewrite fmap_app, concat_app. reflexivity. Qed.

Lemma grep_lines_spec fuel pattern p :
  x00 ∉ p -> (length p < fuel)%nat ->
  grep_lines fuel pattern p = (matching pattern p, (lines_of p).2).
Proof.
  revert p. induction fuel as [|fuel IH]; intros p Hp Hf; [lia|]. cbn [grep_lines].
  destruct (find_nl p) as [[l r]|] eqn:E.
  - destruct (find_nl_some p l r Hp E) as [-> Hl]. rewrite not_elem_of_app, not_elem_of_cons in Hp.
    rewrite IH; [| apply Hp | rewrite length_app in Hf; cbn in Hf; lia].
    rewrite matching_cons by exact Hl. rewrite lines_line by exact Hl. reflexivity.
  - apply find_nl_none in E; [|exact Hp]. unfold matching. rewrite lines_no_nl by exact E. reflexivity.
Qed.

Lemma no_long_line pattern buf r :
  NL ∉ buf -> (forall l, l ∈ (lines_of (buf ++ r)).1 -> (length l < length buf)%nat) ->
  matching pattern (buf ++ r) = [].
Proof.
  intros Hb Hl. destruct (lines_tail r) as [[Ht Hn]|Hin].
  - unfold matching. destruct (lines_of r) as [ls tl] eqn:E. cbn in Ht, Hn. subst.
    rewrite lines_no_nl; [reflexivity|]. rewrite not_elem_of_app. split; [exact Hb|].
    pose proof (tail_no_nl r) as H. rewrite E in H. exact H.
  - exfalso. apply list_elem_of_split in Hin as (r1 & r2 & ->).
    assert (Hx : exists l l2, r1 ++ NL :: r2 = l ++ NL :: l2 /\ NL ∉ l).
    { clear. induction r1 as [|c r1 (l & l2 & E & H)]; [exists [], r2; split; [reflexivity | apply not_elem_of_nil]|].
      destruct (decide (c = NL)) as [->|Hc]; [exists [], (r1 ++ NL :: r2); split; [reflexivity | apply not_elem_of_nil]|].
      exists (c :: l), l2. cbn. rewrite E. split; [reflexivity|]. apply not_elem_of_cons. auto. }
    destruct Hx as (l & l2 & E & Hln). rewrite E, app_assoc, lines_line in Hl
      by (rewrite not_elem_of_app; auto).
    specialize (Hl (buf ++ l) ltac:(left)). rewrite length_app in Hl. lia.
Qed.

Lemma read_spec k chunks :
  Forall (fun c => c <> []) chunks ->
  let '(bs, chunks') := read k chunks in
  concat chunks = bs ++ concat chunks' /\ Forall (fun c => c <> []) chunks' /\
  (bs = [] -> chunks = [] \/ k = O) /\ (length bs <= k)%nat.
Proof.
  intros Hc. destruct chunks as [|c cs]; cbn [read].
  - cbn. repeat split; auto; lia.
  - apply Forall_cons in Hc as [Hne Hc]. destruct (Nat.leb_spec (length c) k) as [Hle|Hgt].
    + cbn [concat]. repeat split; auto. intros ->. contradiction.
    + cbn [concat]. rewrite app_assoc, take_drop. split; [reflexivity|]. split; [|split].
      * apply Forall_cons. split; [|exact Hc]. intros E. apply (f_equal length) in E.
        rewrite length_drop in E. cbn in E. lia.
      * intros E. right. apply (f_equal length) in E. rewrite length_take in E. cbn in E. lia.
      * rewrite length_take. lia.
Qed.

Lemma grep_loop_spec fuel pattern buf chunks :
  Forall (fun c => c <> []) chunks -> NL ∉ buf -> x00 ∉ buf ++ concat chunks ->
  (length (concat chunks) < fuel)%nat ->
  (forall l, l ∈ (lines_of (buf ++ concat chunks)).1 -> (length l < BUFSZ - 1)%nat) ->
  grep_loop fuel pattern buf chunks = Some (matching pattern (buf ++ concat chunks)).
Proof.
  revert buf chunks. induction fuel as [|fuel IH]; intros buf chunks Hc Hb Hz Hf Hl; [lia|].
  cbn [grep_loop]. pose proof (read_spec (BUFSZ - length buf - 1) chunks Hc) as Hr.
  destruct (read (BUFSZ - length buf - 1) chunks) as [bs chunks']. destruct Hr as (E & Hc' & Hnil & _).
  destruct bs as [|b bs].
  - f_equal. symmetry. destruct (Hnil eq_refl) as [->|Hk].
    + cbn. rewrite app_nil_r. unfold matching. rewrite lines_no_nl by exact Hb. reflexivity.
    + apply no_long_line; [exact Hb|]. intros l Hin. specialize (Hl l Hin). unfold BUFSZ in *. lia.
  - set (bs' := b :: bs) in *. rewrite E in Hz, Hl, Hf |- *. rewrite app_assoc in Hz, Hl |- *.
    rewrite grep_lines_spec; [| intros Hin; apply Hz, elem_of_app; left; exact Hin | lia].
    assert (Hz' : x00 ∉ (lines_of (buf ++ bs')).2 ++ concat chunks').
    { intros Hin. apply Hz. rewrite elem_of_app in Hin. rewrite elem_of_app.
      destruct Hin as [Hin|Hin]; [left; apply tail_in; exact Hin | right; exact Hin]. }
    rewrite (IH (lines_of (buf ++ bs')).2 chunks' Hc' (tail_no_nl _) Hz').
    + cbn. rewrite (matching_app pattern (buf ++ bs')). reflexivity.
    + rewrite length_app in Hf. subst bs'. cbn [length] in Hf. lia.
    + intros l Hin. apply Hl. rewrite lines_of_app. cbn [fst]. apply elem_of_app. right. exact Hin.
Qed.

(** ** Properties *)

(** C30: the matcher decides exactly the language of the pattern: [match]
    returns 1 if and only if some substring of the text (a prefix after [^],
    a suffix before [$]) is denoted by the pattern's atoms. *)
Theorem match_denotes re text : match_ re text = true <-> matches re text.
Proof. apply match_spec. Qed.

(** C31: [grep] returns, and prints exactly the newline-terminated lines that
    match, in order, however [read] splits the input, for inputs without NUL
    bytes whose lines fit the buffer. *)
Theorem grep_prints_matching pattern chunks :
  Forall (fun c => c <> []) chunks -> x00 ∉ concat chunks ->
  (forall l, l ∈ (lines_of (concat chunks)).1 -> (length l < BUFSZ - 1)%nat) ->
  grep pattern chunks = Some (matching pattern (concat chunks)).
Proof.
  intros Hc Hz Hl. apply (grep_loop_spec _ pattern [] chunks Hc); [apply not_elem_of_nil | exact Hz | lia | exact Hl].
Qed.

(** The lines "ab\n", "b\n" in chunks "a", "b\nb", "\n", pattern "^b". *)
Lemma grep_prints_matching_witness :
  grep [CARET; x62] [[x61]; [x62; NL; x62]; [NL]] = Some [x62; NL].
Proof.
  rewrite (grep_prints_matching [CARET; x62] [[x61]; [x62; NL; x62]; [NL]]).
  - reflexivity.
  - repeat constructor; discriminate.
  - apply (bool_decide_unpack _). vm_compute. exact I.
  - intros l Hl. repeat (apply elem_of_cons in Hl as [->|Hl]; [vm_compute; lia|]). destruct (not_elem_of_nil _ Hl).
Defined.
End Grep.
