(* ===== verification/Printf.v ===== *)
(** * Formatted output: user/printf.c and kernel/printf.c

    Both files have a [printint] with a 16-byte buffer, a [printptr] and an
    interpreter of format strings.  Output is the list of bytes written;
    [None] stands for a store outside the 16-byte buffer. *)

From S2P Require Import Prelude Memory.

Module Printf.

Definition ch (s : string) : byte := match String.list_byte_of_string s with c :: _ => c | [] => x00 end.
Definition str (s : string) : list byte := String.list_byte_of_string s.

Definition upper_digits : list byte := str "0123456789ABCDEF".
Definition lower_digits : list byte := str "0123456789abcdef".
Definition digit (digits : list byte) (d : Z) : byte := nth (Z.to_nat d) digits x00.

(** [do { buf[i++] = digits[x % base]; } while((x /= base) != 0);] *)
Fixpoint put_digits (fuel : nat) (digits : list byte) (x base : Z) : list byte :=
  match fuel with
  | O => []
  | S fuel' => digit digits (x mod base) ::
               if x / base =? 0 then [] else put_digits fuel' digits (x / base) base
  end.

(** The size of [buf] in both versions. *)
Definition PRINTBUF : nat := 16.

(** [while(--i >= 0) putc(buf[i]);] after the stores stayed inside [buf]. *)
Definition print_buf (buf : list byte) : option (list byte) :=
  if (length buf <=? PRINTBUF)%nat then Some (rev buf) else None.

(** user/printf.c: [int xx], [uint x] *)
Definition printint (xx base : Z) (sgn : bool) : option (list byte) :=
  let neg := sgn && (xx <? 0) in
  let x := if neg then u32 (- xx) else u32 xx in
  print_buf (put_digits 32 upper_digits x base ++ if neg then [ch "-"] else []).

(** kernel/printf.c: [long long xx], [unsigned long long x] *)
Definition kprintint (xx base : Z) (sign : bool) : option (list byte) :=
  let neg := sign && (xx <? 0) in
  let x := if neg then u64 (- xx) else u64 xx in
  print_buf (put_digits 64 lower_digits x base ++ if neg then [ch "-"] else []).

(** [for (i = 0; i < 16; i++, x <<= 4) putc(digits[x >> 60]);] *)
Fixpoint hex_digits (k : nat) (digits : list byte) (x : Z) : list byte :=
  match k with
  | O => []
  | S k' => digit digits (Z.shiftr x 60) :: hex_digits k' digits (u64 (Z.shiftl x 4))
  end.
Definition printptr (x : Z) : list byte := str "0x" ++ hex_digits 16 upper_digits x.
Definition kprintptr (x : Z) : list byte := str "0x" ++ hex_digits 16 lower_digits x.

(** ** Format strings *)

(** A variable argument: a 64-bit slot, or a string ([None]: null pointer). *)
Inductive va := Slot (x : Z) | Str (s : option (list byte)).

(** [va_arg(ap, int)], [va_arg(ap, uint64)], [va_arg(ap, char* )] *)
Definition va_int (a : va) : Z := match a with Slot x => i32 x | Str _ => 0 end.
Definition va_u64 (a : va) : Z := match a with Slot x => u64 x | Str _ => 0 end.
Definition va_str (a : va) : list byte :=
  match a with Str (Some s) => s | Str None => str "(null)" | Slot _ => [] end.
Definition va_next (ap : list va) : va * list va :=
  match ap with a :: ap' => (a, ap') | [] => (Slot 0, []) end.

(** A conversion: how many further format bytes it takes, the arguments left
    and what is printed.  [pint] is the file's [printint], [cast] the
    conversion of a 64-bit argument to its parameter type. *)
Definition conversion (pint : Z -> Z -> bool -> option (list byte)) (cast : Z -> Z)
    (pptr : Z -> list byte) (c0 c1 c2 : byte) (ap : list va) : nat * list va * option (list byte) :=
  let '(a, ap') := va_next ap in
  let eqc (c d : byte) := bool_decide (c = d) in
  if eqc c0 (ch "d") then (0%nat, ap', pint (va_int a) 10 true)
  else if eqc c0 (ch "l") && eqc c1 (ch "d") then (1%nat, ap', pint (cast (va_u64 a)) 10 true)
  else if eqc c0 (ch "l") && eqc c1 (ch "l") && eqc c2 (ch "d") then (2%nat, ap', pint (cast (va_u64 a)) 10 true)
  else if eqc c0 (ch "u") then (0%nat, ap', pint (va_int a) 10 false)
  else if eqc c0 (ch "l") && eqc c1 (ch "u") then (1%nat, ap', pint (cast (va_u64 a)) 10 false)
  else if eqc c0 (ch "l") && eqc c1 (ch "l") && eqc c2 (ch "u") then (2%nat, ap', pint (cast (va_u64 a)) 10 false)
  else if eqc c0 (ch "x") then (0%nat, ap', pint (va_int a) 16 false)
  else if eqc c0 (ch "l") && eqc c1 (ch "x") then (1%nat, ap', pint (cast (va_u64 a)) 16 false)
  else if eqc c0 (ch "l") && eqc c1 (ch "l") && eqc c2 (ch "x") then (2%nat, ap', pint (cast (va_u64 a)) 16 false)
  else if eqc c0 (ch "p") then (0%nat, ap', Some (pptr (va_u64 a)))
  else if eqc c0 (ch "s") then (0%nat, ap', Some (va_str a))
  else if eqc c0 (ch "%") then (0%nat, ap, Some [ch "%"])
  else (0%nat, ap, Some [ch "%"; c0]).

Definition peek (fmt : list byte) (i : nat) : byte := nth i fmt x00.

(** user/printf.c, [vprintf]: [state] is 0 or '%'. *)
Fixpoint vprintf_loop (fuel : nat) (fmt : list byte) (percent : bool) (ap : list va) : option (list byte) :=
  match fuel with
  | O => Some []
  | S fuel' =>
      match fmt with
      | [] => Some []
      | c0 :: fmt' =>
          if negb percent then
            if bool_decide (c0 = ch "%") then vprintf_loop fuel' fmt' true ap
            else o ← vprintf_loop fuel' fmt' false ap; Some (c0 :: o)
          else
            let c1 := peek fmt 1 in
            let c2 := if bool_decide (c1 = x00) then x00 else peek fmt 2 in
            let '(skip, ap', out) := conversion printint i32 printptr c0 c1 c2 ap in
            o1 ← out;
            o2 ← vprintf_loop fuel' (drop skip fmt') false ap';
            Some (o1 ++ o2)
      end
  end.
Definition vprintf (fmt : list byte) (ap : list va) : option (list byte) :=
  vprintf_loop (S (length fmt)) fmt false ap.

(** kernel/printf.c, [printf]; the console lock is not part of the output. *)
Fixpoint kprintf_loop (fuel : nat) (fmt : list byte) (ap : list va) : option (list byte) :=
  match fuel with
  | O => Some []
  | S fuel' =>
      match fmt with
      | [] => Some []
      | cx :: fmt' =>
          if negb (bool_decide (cx = ch "%")) then
            o ← kprintf_loop fuel' fmt' ap; Some (cx :: o)
          else
            match fmt' with
            | [] => Some []
            | c0 :: fmt'' =>
                let c1 := peek fmt' 1 in
                let c2 := if bool_decide (c1 = x00) then x00 else peek fmt' 2 in
                let '(skip, ap', out) := conversion kprintint i64 kprintptr c0 c1 c2 ap in
                o1 ← out;
                o2 ← kprintf_loop fuel' (drop skip fmt'') ap';
                Some (o1 ++ o2)
            end
      end
  end.
Definition kprintf (fmt : list byte) (ap : list va) : option (list byte) :=
  kprintf_loop (S (length fmt)) fmt ap.

(** ** Numerals *)

(** The value of a digit, in either case. *)
Definition digit_val (c : byte) : Z :=
  let z := b2z c in
  if (48 <=? z) && (z <=? 57) then z - 48
  else if (65 <=? z) && (z <=? 70) then z - 55
  else if (97 <=? z) && (z <=? 102) then z - 87
  else -1.

(** The value of a numeral, most significant digit first. *)
Definition numval (base : Z) (l : list byte) : Z := foldl (fun acc c => acc * base + digit_val c) 0 l.

(** ... with an optional sign. *)
Definition signed_val (base : Z) (l : list byte) : Z :=
  match l with c :: l' => if bool_decide (c = ch "-") then - numval base l' else numval base l | [] => 0 end.

Definition is_digits (digits : list byte) : Prop := digits = upper_digits \/ digits = lower_digits.

Lemma digit_val_digit digits d :
  is_digits digits -> 0 <= d < 16 -> digit_val (digit digits d) = d /\ digit digits d <> ch "-".
Proof.
  intros Hd H. assert (Hc : d = 0 \/ d = 1 \/ d = 2 \/ d = 3 \/ d = 4 \/ d = 5 \/ d = 6 \/ d = 7 \/
    d = 8 \/ d = 9 \/ d = 10 \/ d = 11 \/ d = 12 \/ d = 13 \/ d = 14 \/ d = 15) by lia.
  destruct Hd as [-> | ->]; repeat (destruct Hc as [->|Hc]; [split; [reflexivity | discriminate]|]);
    subst d; (split; [reflexivity | discriminate]).
Qed.

Lemma numval_snoc base l c : numval base (l ++ [c]) = numval base l * base + digit_val c.
Proof. unfold numval. rewrite foldl_app. reflexivity. Qed.

Lemma put_digits_value fuel digits x base :
  is_digits digits -> 2 <= base <= 16 -> 0 <= x < base ^ Z.of_nat fuel ->
  numval base (rev (put_digits fuel digits x base)) = x.
Proof.
  intros Hd Hb. revert x. induction fuel as [|fuel IH]; intros x Hx; [cbn in *; lia|].
  cbn [put_digits rev]. rewrite numval_snoc.
  pose proof (Z.mod_pos_bound x base ltac:(lia)) as Hm.
  rewrite (proj1 (digit_val_digit digits (x mod base) Hd ltac:(lia))).
  destruct (Z.eqb_spec (x / base) 0) as [E|E].
  - cbn. pose proof (Z.div_mod x base ltac:(lia)). rewrite E in *. lia.
  - rewrite IH; [pose proof (Z.div_mod x base ltac:(lia)); lia|].
    rewrite Nat2Z.inj_succ, Z.pow_succ_r in Hx by lia.
    split; [apply Z.div_pos; lia|]. apply Z.div_lt_upper_bound; lia.
Qed.

Lemma put_digits_length fuel digits x base (k : nat) :
  2 <= base -> (0 < k)%nat -> 0 <= x < base ^ Z.of_nat k -> (length (put_digits fuel digits x base) <= k)%nat.
Proof.
  intros Hb. revert x k. induction fuel as [|fuel IH]; intros x k Hk Hx; cbn [put_digits length]; [lia|].
  destruct (Z.eqb_spec (x / base) 0) as [E|E]; [cbn; lia|].
  destruct k as [|[|k]]; [lia | |].
  - exfalso. apply E. apply Z.div_small. rewrite Z.pow_1_r in Hx. exact Hx.
  - assert (Hlt : 0 <= x / base < base ^ Z.of_nat (S k)).
    { rewrite (Nat2Z.inj_succ (S k)), Z.pow_succ_r in Hx by lia.
      split; [apply Z.div_pos; lia | apply Z.div_lt_upper_bound; lia]. }
    specialize (IH (x / base) (S k) ltac:(lia) Hlt). lia.
Qed.

Lemma put_digits_head fuel digits x base :
  is_digits digits -> 2 <= base <= 16 -> 0 <= x -> (0 < fuel)%nat ->
  exists c l, rev (put_digits fuel digits x base) = c :: l /\ c <> ch "-".
Proof.
  intros Hd Hb. revert x. induction fuel as [|fuel IH]; intros x Hx Hf; [lia|]. cbn [put_digits rev].
  pose proof (Z.mod_pos_bound x base ltac:(lia)) as Hm.
  destruct (Z.eqb_spec (x / base) 0) as [E|E].
  - eexists _, []. split; [reflexivity|]. apply digit_val_digit; [exact Hd | lia].
  - destruct fuel as [|fuel].
    + eexists _, []. split; [reflexivity|]. apply digit_val_digit; [exact Hd | lia].
    + destruct (IH (x / base)) as (c & l & -> & Hc); [apply Z.div_pos; lia | lia |].
      eexists c, _. split; [reflexivity | exact Hc].
Qed.

Lemma signed_val_digits base fuel digits x :
  is_digits digits -> 2 <= base <= 16 -> 0 <= x < base ^ Z.of_nat fuel -> (0 < fuel)%nat ->
  signed_val base (rev (put_digits fuel digits x base)) = x /\
  signed_val base (ch "-" :: rev (put_digits fuel digits x base)) = - x.
Proof.
  intros Hd Hb Hx Hf. pose proof (put_digits_value fuel digits x base Hd Hb Hx) as Hv.
  destruct (put_digits_head fuel digits x base Hd Hb (proj1 Hx) Hf) as (c & l & E & Hc).
  rewrite E in *. unfold signed_val. rewrite bool_decide_false by exact Hc.
  rewrite bool_decide_true by reflexivity. lia.
Qed.

(** A printed number fits and reads back, given that its magnitude does. *)
Lemma print_number fuel digits x base (neg : bool) (k : nat) :
  is_digits digits -> 2 <= base <= 16 -> 0 <= x < base ^ Z.of_nat k -> (0 < k <= fuel)%nat ->
  (k + (if neg then 1 else 0) <= PRINTBUF)%nat ->
  exists out, print_buf (put_digits fuel digits x base ++ (if neg then [ch "-"] else [])) = Some out /\
    signed_val base out = if neg then - x else x.
Proof.
  intros Hd Hb Hx Hk Hfit.
  pose proof (put_digits_length fuel digits x base k ltac:(lia) ltac:(lia) Hx) as Hlen.
  assert (Hx' : 0 <= x < base ^ Z.of_nat fuel).
  { split; [lia|]. eapply Z.lt_le_trans; [apply Hx|]. apply Z.pow_le_mono_r; lia. }
  destruct (signed_val_digits base fuel digits x Hd Hb Hx' ltac:(lia)) as [H1 H2].
  unfold print_buf. rewrite length_app.
  replace (_ <=? PRINTBUF)%nat with true by (destruct neg; cbn [length]; symmetry; apply Nat.leb_le; lia).
  eexists. split; [reflexivity|]. rewrite rev_app_distr. destruct neg; [exact H2 | exact H1].
Qed.

(** Reading back a pointer. *)
Lemma hex_digits_value k digits x :
  is_digits digits -> (k <= 16)%nat -> 0 <= x < 2 ^ 64 ->
  numval 16 (hex_digits k digits x) = x / 2 ^ (64 - 4 * Z.of_nat k).
Proof.
  intros Hd. revert x.
  assert (G : forall x acc, (k <= 16)%nat -> 0 <= x < 2 ^ 64 ->
     foldl (fun acc c => acc * 16 + digit_val c) acc (hex_digits k digits x) =
     acc * 16 ^ Z.of_nat k + x / 2 ^ (64 - 4 * Z.of_nat k)).
  { induction k as [|k IH]; intros x acc Hk Hx.
    - cbn [hex_digits foldl]. rewrite Z.mul_0_r, Z.sub_0_r, Z.div_small by lia. cbn. lia.
    - cbn [hex_digits foldl].
      assert (Hs : 0 <= Z.shiftr x 60 < 16) by (rewrite Z.shiftr_div_pow2 by lia; zdiv).
      rewrite (proj1 (digit_val_digit digits _ Hd Hs)). unfold u64. rewrite IH; [|lia | apply Z.mod_pos_bound; lia].
      rewrite Z.shiftr_div_pow2, Z.shiftl_mul_pow2 by lia.
      rewrite Nat2Z.inj_succ, Z.pow_succ_r by lia.
      set (p := 16 ^ Z.of_nat k).
      assert (Hp : 2 ^ (64 - 4 * Z.succ (Z.of_nat k)) * p = 2 ^ 60).
      { unfold p. change 16 with (2 ^ 4). rewrite <- Z.pow_mul_r, <- Z.pow_add_r by lia. f_equal. lia. }
      assert (H0 : 0 < 2 ^ (64 - 4 * Z.succ (Z.of_nat k))) by (apply Z.pow_pos_nonneg; lia).
      replace (64 - 4 * Z.of_nat k) with (4 + (64 - 4 * Z.succ (Z.of_nat k))) by lia.
      set (q := 2 ^ (64 - 4 * Z.succ (Z.of_nat k))) in *.
      rewrite Z.pow_add_r by lia. fold q.
      replace ((x * 2 ^ 4) mod 2 ^ 64) with ((x mod 2 ^ 60) * 2 ^ 4)
        by (replace (2 ^ 64) with (2 ^ 60 * 2 ^ 4) by reflexivity; rewrite Z.mul_mod_distr_r by lia; reflexivity).
      rewrite Z.mul_comm with (n := x mod 2 ^ 60), Z.div_mul_cancel_l by lia.
      assert (Hx2 : x / q = x / 2 ^ 60 * p + (x mod 2 ^ 60) / q).
      { rewrite (Z.div_mod x (2 ^ 60)) at 1 by lia. rewrite <- Hp at 1.
        replace (q * p * (x / 2 ^ 60) + x mod 2 ^ 60) with (x mod 2 ^ 60 + (x / 2 ^ 60 * p) * q) by lia.
        rewrite Z.div_add by lia. lia. }
      rewrite Hx2. lia. }
  intros x Hk Hx. unfold numval. rewrite G by assumption. lia.
Qed.

Lemma put_digits_long fuel digits x base (k : nat) :
  2 <= base -> (k < fuel)%nat -> base ^ Z.of_nat k <= x -> (k < length (put_digits fuel digits x base))%nat.
Proof.
  intros Hb. revert x k. induction fuel as [|fuel IH]; intros x k Hk Hx; [lia|]. cbn [put_digits length].
  destruct k as [|k]; [lia|]. rewrite Nat2Z.inj_succ, Z.pow_succ_r in Hx by lia.
  assert (Hq : base ^ Z.of_nat k <= x / base) by (apply Z.div_le_lower_bound; lia).
  assert (0 < base ^ Z.of_nat k) by (apply Z.pow_pos_nonneg; lia).
  replace (x / base =? 0) with false by lia. specialize (IH (x / base) k ltac:(lia) Hq). lia.
Qed.

(** ** Properties *)

(** User [printint] never leaves its buffer and what it prints reads back
    as the number: as the signed [int] for %d, as the unsigned one for %u and
    %x, INT_MIN included. *)
Theorem printint_reads_back xx base (sgn : bool) :
  - 2 ^ 31 <= xx < 2 ^ 31 -> base = 10 \/ base = 16 ->
  exists out, printint xx base sgn = Some out /\ signed_val base out = if sgn then xx else u32 xx.
Proof.
  intros Hx Hb. unfold printint.
  assert (Hu : 0 <= u32 xx < 2 ^ 32) by (apply Z.mod_pos_bound; lia).
  assert (Hneg : xx < 0 -> u32 (- xx) = - xx) by (intros; apply u32_small; lia).
  set (neg := sgn && (xx <? 0)). set (x := if neg then u32 (- xx) else u32 xx).
  assert (Hxr : 0 <= x < 2 ^ 32) by (unfold x; destruct neg; [apply Z.mod_pos_bound; lia | exact Hu]).
  destruct (print_number 32 upper_digits x base neg 10) as (out & -> & Hv).
  - left. reflexivity.
  - lia.
  - split; [lia|]. destruct Hb as [-> | ->]; (eapply Z.lt_trans; [apply Hxr | reflexivity]).
  - lia.
  - unfold PRINTBUF. destruct neg; lia.
  - exists out. split; [reflexivity|]. rewrite Hv. unfold x, neg.
    destruct sgn; cbn [andb]; [|reflexivity]. destruct (Z.ltb_spec xx 0) as [Hn|Hn].
    + rewrite Hneg by exact Hn. lia.
    + apply u32_small. lia.
Qed.

Lemma printint_reads_back_witness : exists out,
  printint (- 2 ^ 31) 10 true = Some out /\ signed_val 10 out = - 2 ^ 31.
Proof. apply (printint_reads_back (- 2 ^ 31) 10 true); [lia | left; reflexivity]. Defined.

(** Both [printptr] print "0x" and the 16 hexadecimal digits of the
    pointer. *)
Theorem printptr_reads_back x :
  0 <= x < 2 ^ 64 ->
  numval 16 (drop 2 (printptr x)) = x /\ numval 16 (drop 2 (kprintptr x)) = x.
Proof.
  intros Hx. unfold printptr, kprintptr. split; change (drop 2 (str "0x" ++ ?l)) with l.
  - rewrite (hex_digits_value 16 upper_digits x) by (first [left; reflexivity | lia]). apply Z.div_1_r.
  - rewrite (hex_digits_value 16 lower_digits x) by (first [right; reflexivity | lia]). apply Z.div_1_r.
Qed.

(** Kernel [printf] of an unsigned [int] of at least 2^31 with %u writes
    past the end of the 16-byte buffer of [printint]: the argument is read as
    a signed [int], so that 20 digits are stored. *)
Theorem kprintf_u_overflow x :
  2 ^ 31 <= u32 x -> kprintf (str "%u") [Slot x] = None.
Proof.
  intros Hx. change (kprintf (str "%u") [Slot x]) with
    (match kprintint (i32 x) 10 false with Some o => Some (o ++ []) | None => None end).
  assert (E : kprintint (i32 x) 10 false = None); [|rewrite E; reflexivity].
  unfold kprintint, print_buf. cbn [andb].
  assert (Hi : - 2 ^ 31 <= i32 x < 0).
  { unfold i32, sext, u32 in *. pose proof (Z.mod_pos_bound x (2 ^ 32) ltac:(lia)).
    replace (_ <? _) with false by lia. lia. }
  assert (Hu : u64 (i32 x) = i32 x + 2 ^ 64) by (symmetry; apply Zmod_unique with (-1); lia).
  rewrite Hu, app_nil_r.
  pose proof (put_digits_long 64 lower_digits (i32 x + 2 ^ 64) 10 16 ltac:(lia) ltac:(lia)
    ltac:(change (10 ^ Z.of_nat 16) with 10000000000000000; lia)) as Hl.
  replace (_ <=? PRINTBUF)%nat with false by (symmetry; apply Nat.leb_gt; exact Hl). reflexivity.
Qed.

Lemma kprintf_u_overflow_witness : kprintf (str "%u") [Slot 4294967295] = None.
Proof. apply (kprintf_u_overflow 4294967295). vm_compute. discriminate. Defined.

(** User [printf] prints only the low 32 bits of the 64-bit conversions:
    %lu, %ld and %lx print what %u, %d and %x print. *)
Theorem vprintf_long_truncates x :
  vprintf (str "%lu") [Slot x] = vprintf (str "%u") [Slot x] /\
  vprintf (str "%ld") [Slot x] = vprintf (str "%d") [Slot x] /\
  vprintf (str "%lx") [Slot x] = vprintf (str "%x") [Slot x].
Proof.
  assert (E : i32 (u64 x) = i32 x).
  { unfold i32, sext, u64. replace ((x mod 2 ^ 64) mod 2 ^ 32) with (x mod 2 ^ 32) by zdiv. reflexivity. }
  repeat split; cbn; rewrite E; reflexivity.
Qed.
End Printf.
