(* ===== verification/Ulib.v ===== *)
(** * The user C library: user/ulib.c, and user/wc.c

    Strings and buffers live in one byte memory.  Loops over a string take
    fuel; the theorems give the result for every fuel larger than the
    distance to the NUL. *)

From S2P Require Import Prelude Memory Printf.

Module Ulib.
Import Printf.

(** ** user/ulib.c *)

(** [while(( *s++ = *t++) != 0);] *)
Fixpoint strcpy (fuel : nat) (m : mem) (s t : Z) : option mem :=
  match fuel with
  | O => None
  | S fuel' =>
      let m' := mset m s (m t) in
      if b2z (m t) =? 0 then Some m' else strcpy fuel' m' (s + 1) (t + 1)
  end.

(** [while( *p && *p == *q) p++, q++; return (uchar) *p - (uchar) *q;] *)
Fixpoint strcmp (fuel : nat) (m : mem) (p q : Z) : option Z :=
  match fuel with
  | O => None
  | S fuel' =>
      if negb (b2z (m p) =? 0) && (b2z (m p) =? b2z (m q)) then strcmp fuel' m (p + 1) (q + 1)
      else Some (b2z (m p) - b2z (m q))
  end.

Fixpoint strlen_from (fuel : nat) (m : mem) (s n : Z) : option Z :=
  match fuel with
  | O => None
  | S fuel' => if b2z (m (s + n)) =? 0 then Some (u32 n) else strlen_from fuel' m s (n + 1)
  end.
Definition strlen (fuel : nat) (m : mem) (s : Z) : option Z := strlen_from fuel m s 0.

Fixpoint memset_from (k : nat) (m : mem) (dst c : Z) : mem :=
  match k with
  | O => m
  | S k' => memset_from k' (mset m dst (z2b c)) (dst + 1) c
  end.
Definition memset (m : mem) (dst c n : Z) : mem := memset_from (Z.to_nat n) m dst c.

(** The outer option is fuel; 0 is the null pointer. *)
Fixpoint strchr (fuel : nat) (m : mem) (s : Z) (c : byte) : option Z :=
  match fuel with
  | O => None
  | S fuel' =>
      if b2z (m s) =? 0 then Some 0
      else if bool_decide (m s = c) then Some s
      else strchr fuel' m (s + 1) c
  end.

(** [gets(buf, max)] with the bytes still to be read from the standard input;
    a read of one byte at the end of the input returns 0. *)
Fixpoint gets_from (fuel : nat) (m : mem) (buf max i : Z) (input : list byte) : mem * list byte :=
  match fuel with
  | O => (mset m (buf + i) x00, input)
  | S fuel' =>
      if i + 1 <? max then
        match input with
        | [] => (mset m (buf + i) x00, input)
        | c :: input' =>
            let m' := mset m (buf + i) c in
            if bool_decide (c = x0a) || bool_decide (c = x0d)
            then (mset m' (buf + (i + 1)) x00, input')
            else gets_from fuel' m' buf max (i + 1) input'
        end
      else (mset m (buf + i) x00, input)
  end.
Definition gets (m : mem) (buf max : Z) (input : list byte) : mem * list byte :=
  gets_from (Z.to_nat max) m buf max 0 input.

(** [while('0' <= *s && *s <= '9') n = n*10 + *s++ - '0';] *)
Fixpoint atoi_from (fuel : nat) (m : mem) (s n : Z) : option Z :=
  match fuel with
  | O => None
  | S fuel' =>
      let c := b2z (m s) in
      if (48 <=? c) && (c <=? 57) then atoi_from fuel' m (s + 1) (i32 (n * 10 + c - 48)) else Some n
  end.
Definition atoi (fuel : nat) (m : mem) (s : Z) : option Z := atoi_from fuel m s 0.

Fixpoint copy_fwd (k : nat) (m : mem) (dst src : Z) : mem :=
  match k with
  | O => m
  | S k' => copy_fwd k' (mset m dst (m src)) (dst + 1) (src + 1)
  end.
Fixpoint copy_bwd (k : nat) (m : mem) (dst src : Z) : mem :=
  match k with
  | O => m
  | S k' => copy_bwd k' (mset m (dst - 1) (m (src - 1))) (dst - 1) (src - 1)
  end.
Definition memmove (m : mem) (dst src n : Z) : mem :=
  if src >? dst then copy_fwd (Z.to_nat n) m dst src
  else copy_bwd (Z.to_nat n) m (dst + n) (src + n).

Fixpoint memcmp_from (k : nat) (m : mem) (s1 s2 : Z) : Z :=
  match k with
  | O => 0
  | S k' => if negb (b2z (m s1) =? b2z (m s2)) then b2z (m s1) - b2z (m s2)
            else memcmp_from k' m (s1 + 1) (s2 + 1)
  end.
Definition memcmp (m : mem) (s1 s2 n : Z) : Z := memcmp_from (Z.to_nat n) m s1 s2.

Definition memcpy (m : mem) (dst src n : Z) : mem := memmove m dst src n.

(** ** user/wc.c *)

Record counts := Counts { c_lines : Z; c_words : Z; c_chars : Z; c_inword : bool }.

Definition is_space (c : byte) : bool := bool_decide (c ∈ [x20; x0d; x09; x0a; x0b]).

(** The body of the inner loop of [wc]. *)
Definition wc_byte (k : counts) (c : byte) : counts :=
  let chars := i32 (c_chars k + 1) in
  let lines := if bool_decide (c = x0a) then i32 (c_lines k + 1) else c_lines k in
  if is_space c then Counts lines (c_words k) chars false
  else if negb (c_inword k) then Counts lines (i32 (c_words k + 1)) chars true
  else Counts lines (c_words k) chars (c_inword k).

(** Reads return chunks of the input; an empty one ends it. *)
Fixpoint wc_loop (k : counts) (chunks : list (list byte)) : counts :=
  match chunks with
  | [] => k
  | [] :: _ => k
  | c :: chunks' => wc_loop (foldl wc_byte k c) chunks'
  end.
Definition wc (chunks : list (list byte)) : counts := wc_loop (Counts 0 0 0 false) chunks.

(** ** Specifications *)

(** [m] holds the C string [l] at [s]. *)
Definition string_at (m : mem) (s : Z) (l : list byte) : Prop :=
  (x00 ∉ l) /\ bytes_at m s (length l) = l /\ m (s + Z.of_nat (length l)) = x00.

Lemma string_at_cons m s c l :
  string_at m s (c :: l) <-> c <> x00 /\ m s = c /\ string_at m (s + 1) l.
Proof.
  unfold string_at. cbn [length]. rewrite not_elem_of_cons.
  replace (bytes_at m s (S (length l))) with (m s :: bytes_at m (s + 1) (length l)).
  2:{ change (S (length l)) with (1 + length l)%nat. rewrite bytes_at_app.
      cbn. rewrite Z.add_0_r. reflexivity. }
  replace (s + 1 + Z.of_nat (length l)) with (s + Z.of_nat (S (length l))) by lia. split.
  - intros ([H1 H2] & [= H3 H4] & H5). auto.
  - intros (H1 & H2 & H3 & H4 & H5). split; [auto|]. split; [congruence | exact H5].
Qed.

Lemma string_at_nil m s : string_at m s [] <-> m s = x00.
Proof.
  unfold string_at. cbn. rewrite Z.add_0_r. split; [tauto|]. intros ->.
  split; [apply not_elem_of_nil | auto].
Qed.

Lemma b2z_zero c : (b2z c =? 0) = bool_decide (c = x00).
Proof.
  case_bool_decide as E; [subst; reflexivity|]. apply Z.eqb_neq. intros H. apply E, b2z_inj. exact H.
Qed.

Lemma strlen_from_spec l : forall fuel m s n,
  string_at m (s + n) l -> (length l < fuel)%nat -> strlen_from fuel m s n = Some (u32 (n + Z.of_nat (length l))).
Proof.
  induction l as [|c l IH]; intros fuel m s n Hs Hf; (destruct fuel as [|fuel]; [cbn in Hf; lia|]);
    cbn [strlen_from]; rewrite b2z_zero.
  - apply string_at_nil in Hs. rewrite bool_decide_true by exact Hs. rewrite Z.add_0_r. reflexivity.
  - apply string_at_cons in Hs as (Hc & Em & Hs). rewrite bool_decide_false by congruence.
    rewrite (IH fuel m s (n + 1)); [|rewrite Z.add_assoc; exact Hs | cbn in Hf; lia].
    do 2 f_equal. cbn [length]. lia.
Qed.

Lemma strcmp_spec l l' : forall fuel m p q,
  string_at m p l -> string_at m q l' -> (length l < fuel)%nat ->
  exists r, strcmp fuel m p q = Some r /\ (r = 0 <-> l = l').
Proof.
  revert l'. induction l as [|c l IH]; intros l' fuel m p q Hp Hq Hf; (destruct fuel as [|fuel]; [cbn in Hf; lia|]);
    cbn [strcmp]; rewrite (b2z_zero (m p)).
  - apply string_at_nil in Hp. rewrite bool_decide_true by exact Hp. cbn [negb andb].
    eexists. split; [reflexivity|]. rewrite Hp. change (b2z x00) with 0. destruct l' as [|d l'].
    + apply string_at_nil in Hq. rewrite Hq. cbn. tauto.
    + apply string_at_cons in Hq as (Hd & Em & _). pose proof (b2z_range (m q)).
      assert (b2z (m q) <> 0) by (intros E; apply Hd; rewrite <- Em; apply b2z_inj; exact E).
      split; [lia | discriminate].
  - apply string_at_cons in Hp as (Hc & Em & Hp). rewrite bool_decide_false by congruence. cbn [negb andb].
    destruct (Z.eqb_spec (b2z (m p)) (b2z (m q))) as [E|E].
    + apply b2z_inj in E. destruct l' as [|d l'].
      * apply string_at_nil in Hq. congruence.
      * apply string_at_cons in Hq as (Hd & Eq & Hq).
        destruct (IH l' fuel m (p + 1) (q + 1) Hp Hq ltac:(cbn in Hf; lia)) as (r & -> & Hr).
        exists r. split; [reflexivity|]. rewrite Hr. split; [intros ->; congruence | congruence].
    + eexists. split; [reflexivity|]. split; [lia|]. intros <-. exfalso. apply E.
      apply string_at_cons in Hq as (_ & Eq & _). congruence.
Qed.

Lemma copy_fwd_spec k m d s x :
  d <= s -> copy_fwd k m d s x = blit m d m s (Z.of_nat k) x.
Proof.
  intros Hd. replace (copy_fwd k m d s) with (CString.copy_up k m d s); [apply CString.copy_up_spec; lia|].
  revert m d s Hd. induction k as [|k IH]; intros m d s Hd; cbn; [reflexivity | apply IH; lia].
Qed.

Lemma copy_bwd_spec k m d s x :
  s <= d -> copy_bwd k m d s x = blit m (d - Z.of_nat k) m (s - Z.of_nat k) (Z.of_nat k) x.
Proof.
  intros Hd. replace (copy_bwd k m d s) with (CString.copy_down k m d s); [apply CString.copy_down_spec; lia|].
  revert m d s Hd. induction k as [|k IH]; intros m d s Hd; cbn; [reflexivity | apply IH; lia].
Qed.

Lemma memmove_spec m dst src n x :
  0 <= n -> memmove m dst src n x = blit m dst m src n x.
Proof.
  intros Hn. unfold memmove. destruct (Z.gtb_spec src dst).
  - rewrite copy_fwd_spec, Z2Nat.id by lia. reflexivity.
  - rewrite copy_bwd_spec, Z2Nat.id by lia. f_equal; lia.
Qed.

(** Decimal strings. *)
Definition is_decimal (c : byte) : Prop := 48 <= b2z c <= 57.

Lemma atoi_from_spec l : forall fuel m s n,
  Forall is_decimal l -> bytes_at m s (length l) = l -> ~ is_decimal (m (s + Z.of_nat (length l))) ->
  (length l < fuel)%nat -> 0 <= n ->
  foldl (fun acc c => acc * 10 + digit_val c) n l < 2 ^ 31 ->
  atoi_from fuel m s n = Some (foldl (fun acc c => acc * 10 + digit_val c) n l).
Proof.
  induction l as [|c l IH]; intros fuel m s n Hd Hm He Hf Hn Hlt; (destruct fuel as [|fuel]; [cbn in Hf; lia|]);
    cbn [atoi_from].
  - unfold is_decimal in He. cbn [length] in He. rewrite Z.add_0_r in He.
    replace ((48 <=? b2z (m s)) && (b2z (m s) <=? 57)) with false by lia. reflexivity.
  - apply Forall_cons in Hd as [Hc Hd]. cbn [length] in Hm.
    change (S (length l)) with (1 + length l)%nat in Hm. rewrite bytes_at_app in Hm. cbn in Hm.
    rewrite Z.add_0_r in Hm. injection Hm as Hm1 Hm2. rewrite Hm1.
    unfold is_decimal in Hc. replace ((48 <=? b2z c) && (b2z c <=? 57)) with true by lia.
    assert (Ev : digit_val c = b2z c - 48) by (unfold digit_val; replace (_ && _) with true by lia; reflexivity).
    cbn [foldl] in Hlt |- *. rewrite Ev in *.
    assert (Hmono : forall l a, 0 <= a -> Forall is_decimal l -> a <= foldl (fun acc c => acc * 10 + digit_val c) a l).
    { clear. induction l as [|c l IH]; intros a Ha Hl; cbn; [lia|]. apply Forall_cons in Hl as [Hc Hl].
      unfold is_decimal in Hc. assert (digit_val c = b2z c - 48) as -> by (unfold digit_val; replace (_ && _) with true by lia; reflexivity).
      etrans; [|apply IH; [lia | exact Hl]]. lia. }
    pose proof (Hmono l (n * 10 + (b2z c - 48)) ltac:(lia) Hd).
    replace (n * 10 + b2z c - 48) with (n * 10 + (b2z c - 48)) by lia.
    replace (i32 (n * 10 + (b2z c - 48))) with (n * 10 + (b2z c - 48)).
    2:{ symmetry. apply i32_small. lia. }
    apply IH; try assumption; try lia.
    + cbn [length] in He. replace (s + 1 + Z.of_nat (length l)) with (s + Z.of_nat (S (length l))) by lia. exact He.
    + cbn in Hf. lia.
Qed.

Lemma digit_decimal d : 0 <= d < 10 -> is_decimal (digit upper_digits d).
Proof.
  intros H. assert (Hc : d = 0 \/ d = 1 \/ d = 2 \/ d = 3 \/ d = 4 \/ d = 5 \/ d = 6 \/ d = 7 \/ d = 8 \/ d = 9) by lia.
  unfold is_decimal. repeat (destruct Hc as [->|Hc]; [vm_compute; intuition discriminate|]).
  subst. vm_compute. intuition discriminate.
Qed.

Lemma put_digits_decimal fuel x : 0 <= x -> Forall is_decimal (put_digits fuel upper_digits x 10).
Proof.
  revert x. induction fuel as [|fuel IH]; intros x Hx; cbn [put_digits]; [apply Forall_nil_2|].
  apply Forall_cons. split.
  - apply digit_decimal. apply Z.mod_pos_bound. lia.
  - case_match; [apply Forall_nil_2 | apply IH; apply Z.div_pos; lia].
Qed.

(** ** The words of a text *)

(** Maximal runs of non-space bytes. *)
Fixpoint words_from (inword : bool) (s : list byte) : nat :=
  match s with
  | [] => 0
  | c :: s' =>
      if is_space c then words_from false s'
      else ((if inword then 0 else 1) + words_from true s')%nat
  end.

Fixpoint count_nl (s : list byte) : nat :=
  match s with [] => 0 | c :: s' => ((if bool_decide (c = x0a) then 1 else 0) + count_nl s')%nat end.

Lemma words_le b s : (words_from b s <= length s)%nat.
Proof.
  revert b. induction s as [|c s IH]; intros b; cbn [words_from length]; [lia|].
  pose proof (IH false). pose proof (IH true). destruct (is_space c), b; lia.
Qed.

Lemma count_nl_le s : (count_nl s <= length s)%nat.
Proof. induction s as [|c s IH]; cbn [count_nl length]; [lia|]. destruct (bool_decide (c = x0a)); lia. Qed.

Lemma wc_bytes_spec s : forall k,
  0 <= c_lines k <= c_chars k -> 0 <= c_words k <= c_chars k -> c_chars k + Z.of_nat (length s) < 2 ^ 31 ->
  let k' := foldl wc_byte k s in
  c_lines k' = c_lines k + Z.of_nat (count_nl s) /\
  c_words k' = c_words k + Z.of_nat (words_from (c_inword k) s) /\
  c_chars k' = c_chars k + Z.of_nat (length s).
Proof.
  induction s as [|c s IH]; intros k Hl Hw Hc; cbn [foldl count_nl words_from length]; [lia|].
  cbn [length] in Hc.
  assert (E : exists l w b, wc_byte k c = Counts l w (c_chars k + 1) b /\
    l = c_lines k + (if bool_decide (c = x0a) then 1 else 0) /\
    w = c_words k + (if is_space c then 0 else if c_inword k then 0 else 1) /\
    b = negb (is_space c)).
  { unfold wc_byte. rewrite (i32_small (c_chars k + 1)) by lia. rewrite (i32_small (c_lines k + 1)) by lia.
    rewrite (i32_small (c_words k + 1)) by lia.
    destruct (is_space c), (c_inword k); cbn [negb]; eexists _, _, _;
      (split; [reflexivity|]); destruct (bool_decide (c = x0a)); repeat split; lia. }
  destruct E as (l & w & b & -> & -> & -> & ->).
  specialize (IH (Counts (c_lines k + (if bool_decide (c = x0a) then 1 else 0))
    (c_words k + (if is_space c then 0 else if c_inword k then 0 else 1)) (c_chars k + 1) (negb (is_space c)))).
  cbn [c_lines c_words c_chars c_inword] in IH. cbv zeta in IH.
  destruct IH as (H1 & H2 & H3).
  - destruct (bool_decide (c = x0a)); lia.
  - destruct (is_space c), (c_inword k); lia.
  - lia.
  - rewrite H1, H2, H3. destruct (bool_decide (c = x0a)), (is_space c), (c_inword k); cbn [negb]; lia.
Qed.

Lemma wc_loop_concat k chunks :
  Forall (fun c => c <> []) chunks -> wc_loop k chunks = foldl wc_byte k (concat chunks).
Proof.
  revert k. induction chunks as [|c chunks IH]; intros k Hc; cbn [wc_loop concat]; [reflexivity|].
  apply Forall_cons in Hc as [Hne Hc]. rewrite foldl_app. destruct c as [|b c]; [congruence|]. apply IH. exact Hc.
Qed.

(** ** Properties *)

(** [atoi] reads back what [printint] prints: for every non-negative
    [int], wherever its numeral lies in memory, provided a byte that is no
    digit follows it. *)
Theorem atoi_printint n fuel m s out :
  0 <= n < 2 ^ 31 -> printint n 10 true = Some out ->
  bytes_at m s (length out) = out -> ~ is_decimal (m (s + Z.of_nat (length out))) -> (length out < fuel)%nat ->
  atoi fuel m s = Some n.
Proof.
  intros Hn Hp Hm He Hf. unfold printint in Hp. replace (n <? 0) with false in Hp by lia. cbn [andb] in Hp.
  rewrite u32_small in Hp by lia. rewrite app_nil_r in Hp.
  assert (Hd : Forall is_decimal (put_digits 32 upper_digits n 10)) by (apply put_digits_decimal; lia).
  assert (Hv : numval 10 (rev (put_digits 32 upper_digits n 10)) = n).
  { apply put_digits_value; [left; reflexivity | lia |]. split; [lia|].
    eapply Z.lt_trans; [apply Hn | reflexivity]. }
  revert Hp Hd Hv. generalize (put_digits 32 upper_digits n 10). intros l Hp Hd%Forall_rev Hv.
  unfold print_buf in Hp. destruct (_ <=? _)%nat in Hp; [|discriminate]. injection Hp as <-.
  unfold numval in Hv. unfold atoi. rewrite (atoi_from_spec _ fuel m s 0 Hd Hm He Hf); rewrite ?Hv; [reflexivity | lia..].
Qed.

Lemma atoi_printint_witness :
  atoi 10 (fun z => nth (Z.to_nat z) (str "2147483647") x00) 0 = None /\
  atoi 11 (fun z => nth (Z.to_nat z) (str "2147483647") x00) 0 = Some 2147483647.
Proof.
  split; [reflexivity|].
  apply (atoi_printint 2147483647 11 _ 0 (str "2147483647")).
  - lia.
  - reflexivity.
  - reflexivity.
  - intros [H _]. exact (H eq_refl).
  - cbn. lia.
Defined.

(** [wc] counts the newlines, the maximal runs of non-space bytes and the
    bytes of its input, however the reads split it, also in the middle of a
    word. *)
Theorem wc_counts chunks :
  Forall (fun c => c <> []) chunks -> Z.of_nat (length (concat chunks)) < 2 ^ 31 ->
  let text := concat chunks in
  c_lines (wc chunks) = Z.of_nat (count_nl text) /\
  c_words (wc chunks) = Z.of_nat (words_from false text) /\
  c_chars (wc chunks) = Z.of_nat (length text).
Proof.
  intros Hc Hl text. unfold wc. rewrite wc_loop_concat by exact Hc.
  apply (wc_bytes_spec text (Counts 0 0 0 false)); cbn [c_lines c_words c_chars]; unfold text; lia.
Qed.

Lemma wc_counts_witness : c_words (wc [str "one tw"; str "o  three"]) = 3.
Proof.
  destruct (wc_counts [str "one tw"; str "o  three"]) as (_ & -> & _); [| cbn; lia | reflexivity].
  repeat (apply Forall_cons; split; [discriminate|]). apply Forall_nil_2.
Defined.
End Ulib.
