(* ===== verification/Umalloc.v ===== *)
(** * The user-level allocator: user/umalloc.c

    Headers are the 16-byte units of the source, addressed by byte; the two
    fields of a header are functions of its address.  [sbrk] is the system
    call as kernel/sysproc.c and [growproc] implement it, seen from the
    process; whether the kernel finds the memory is the parameter [avail]. *)

From Stdlib Require Import Sorting.Sorted.
From stdpp Require Import sorting.
From S2P Require Import Prelude.

Module Umalloc.

(** [sizeof(Header)] *)
Definition HDR : Z := 16.

Record heap := Heap {
  hptr : Z -> Z;      (** [s.ptr] of the header at an address *)
  hsize : Z -> Z;     (** [s.size] *)
  freep : Z;          (** 0 before the first call of [malloc] *)
  brk : Z             (** the size of the process *)
}.

Definition set_ptr (a v : Z) (h : heap) : heap := Heap (<[a:=v]> (hptr h)) (hsize h) (freep h) (brk h).
Definition set_size (a v : Z) (h : heap) : heap := Heap (hptr h) (<[a:=v]> (hsize h)) (freep h) (brk h).
Definition set_freep (a : Z) (h : heap) : heap := Heap (hptr h) (hsize h) a (brk h).
Definition set_brk (a : Z) (h : heap) : heap := Heap (hptr h) (hsize h) (freep h) a.

Section Model.
(** The address of the static header [base], and whether the kernel can grow
    a process of a given size by a given number of bytes. *)
Context (base : Z) (avail : Z -> Z -> bool).

(** [sbrk(int n)]: [growproc] grows by [uvmalloc] or shrinks by [uvmdealloc],
    which ignores a new size above the old one. *)
Definition sbrk (n : Z) : M heap Z :=
  addr ← gets brk;
  let n := i32 n in
  if n >? 0 then
    if avail addr n then modify (set_brk (u64 (addr + n)));; mret addr else mret (u64 (-1))
  else if n <? 0 then
    let newsz := u64 (addr + n) in
    when (negb (newsz >=? addr)) (modify (set_brk newsz));; mret addr
  else mret addr.

(** The [for] of [free]: the list position after which [bp] belongs. *)
Definition free_step (bp p : Z) : M heap (Z + Z) :=
  nxt ← gets (fun h => hptr h p);
  if (bp >? p) && (bp <? nxt) then mret (inr p)
  else if (p >=? nxt) && ((bp >? p) || (bp <? nxt)) then mret (inr p)
  else mret (inl nxt).

Definition free (fuel : nat) (ap : Z) : M heap unit :=
  let bp := ap - HDR in
  p0 ← gets freep;
  p ← loop fuel (free_step bp) p0;
  h ← get;
  (if bp + HDR * hsize h bp =? hptr h p then
     modify (set_size bp (u32 (hsize h bp + hsize h (hptr h p))));;
     modify (fun h => set_ptr bp (hptr h (hptr h p)) h)
   else modify (set_ptr bp (hptr h p)));;
  h ← get;
  (if p + HDR * hsize h p =? bp then
     modify (set_size p (u32 (hsize h p + hsize h bp)));;
     modify (fun h => set_ptr p (hptr h bp) h)
   else modify (set_ptr p bp));;
  modify (set_freep p).

Definition morecore (fuel : nat) (nu : Z) : M heap Z :=
  let nu := if nu <? 4096 then 4096 else nu in
  p ← sbrk (u64 (nu * HDR));
  if p =? u64 (-1) then mret 0
  else
    modify (set_size p nu);;
    free fuel (p + HDR);;
    gets freep.

(** One iteration of the [for] of [malloc], on [(prevp, p)]. *)
Definition malloc_step (fuel : nat) (nunits : Z) (l : Z * Z) : M heap (Z * Z + Z) :=
  let '(prevp, p) := l in
  h ← get;
  if hsize h p >=? nunits then
    (if hsize h p =? nunits then
       modify (set_ptr prevp (hptr h p));;
       modify (set_freep prevp);;
       mret (inr (p + HDR))
     else
       let rest := u32 (hsize h p - nunits) in
       modify (set_size p rest);;
       let p := p + HDR * rest in
       modify (set_size p nunits);;
       modify (set_freep prevp);;
       mret (inr (p + HDR)))
  else if p =? freep h then
    p ← morecore fuel nunits;
    if p =? 0 then mret (inr 0)
    else h ← get; mret (inl (p, hptr h p))
  else mret (inl (p, hptr h p)).

Definition nunits_of (nbytes : Z) : Z := u32 ((u32 nbytes + HDR - 1) / HDR + 1).

Definition malloc (fuel : nat) (nbytes : Z) : M heap Z :=
  let nunits := nunits_of nbytes in
  f ← gets freep;
  when (f =? 0)
    (modify (set_freep base);; modify (set_ptr base base);; modify (set_size base 0));;
  prevp ← gets freep;
  p ← gets (fun h => hptr h prevp);
  loop fuel (malloc_step fuel nunits) (prevp, p).
End Model.

(** ** Clients *)

(** A program that allocates, and frees pointers it got and has not freed. *)
Inductive op := Malloc (nbytes : Z) | Free (p : Z).

(** The live allocations, with the number of bytes that were asked for. *)
Definition client_step base avail (fuel : nat) (live : gmap Z Z) (o : op) : M heap (gmap Z Z) :=
  match o with
  | Malloc n => p ← malloc base avail fuel n; mret (if p =? 0 then live else <[p:=n]> live)
  | Free p => match live !! p with
              | Some _ => free fuel p;; mret (delete p live)
              | None => mret live
              end
  end.

Fixpoint client base avail (fuel : nat) (live : gmap Z Z) (ops : list op) : M heap (gmap Z Z) :=
  match ops with
  | [] => mret live
  | o :: ops' => live' ← client_step base avail fuel live o; client base avail fuel live' ops'
  end.

(** ** Circular lists *)

(** The headers of [l] are linked in order and the last one points to [t]. *)
Fixpoint chain (f : Z -> Z) (l : list Z) (t : Z) : Prop :=
  match l with
  | [] => True
  | a :: l' => f a = hd t l' /\ chain f l' t
  end.

Lemma hd_app {A} (d : A) l l' : hd d (l ++ l') = hd (hd d l') l.
Proof. destruct l; reflexivity. Qed.

Lemma chain_app f l l' t : chain f (l ++ l') t <-> chain f l (hd t l') /\ chain f l' t.
Proof.
  induction l as [|a l IH]; cbn [app chain]; [tauto|]. rewrite IH, hd_app. tauto.
Qed.

Lemma chain_ptr_ext f g l t : (forall a, a ∈ l -> f a = g a) -> chain f l t -> chain g l t.
Proof.
  induction l as [|a l IH]; cbn [chain]; [auto|]. intros E [H1 H2]. split.
  - rewrite <- E by constructor. exact H1.
  - apply IH; [|exact H2]. intros b Hb. apply E. constructor. exact Hb.
Qed.

Lemma chain_insert f k v l t : k ∉ l -> chain f l t -> chain (<[k:=v]> f) l t.
Proof.
  intros Hk. apply chain_ptr_ext. intros a Ha. rewrite fn_lookup_insert_ne; [reflexivity |]. intros ->. exact (Hk Ha).
Qed.

(** Walking along a chain. *)
Lemma chain_iter f l t i a : chain f l t -> (l ++ [t]) !! i = Some a -> Nat.iter i f (hd t l) = a.
Proof.
  revert l. induction i as [|i IH]; intros l Hl Hi.
  - destruct l; injection Hi as ->; reflexivity.
  - destruct l as [|b l]; [destruct i; discriminate|]. cbn in Hi, Hl. destruct Hl as [Hb Hl].
    cbn [hd]. rewrite Nat.iter_succ_r, Hb. apply IH; assumption.
Qed.

Lemma chain_rotate f x y t : chain f (x ++ y) (hd t (x ++ y)) -> y <> [] -> chain f (y ++ x) (hd t (y ++ x)).
Proof.
  intros H Hy. destruct x as [|a x]; [rewrite app_nil_r; exact H|]. destruct y as [|b y]; [congruence|].
  apply chain_app in H as [H1 H2]. apply chain_app. split; assumption.
Qed.

(** From any element of a ring every element is reached within one round,
    before the walk comes back. *)
Lemma ring_reach f t l p a : chain f (t :: l) t -> NoDup (t :: l) -> p ∈ t :: l -> a ∈ t :: l ->
  exists k, (0 < k <= length (t :: l))%nat /\ Nat.iter k f p = a /\
    forall j, (0 < j < k)%nat -> Nat.iter j f p <> p.
Proof.
  intros Hc Hn Hp Ha. apply list_elem_of_split in Hp as (x & y & E).
  assert (Hr : chain f ((p :: y) ++ x) p).
  { apply (chain_rotate f x (p :: y) t); [|discriminate]. rewrite <- E. exact Hc. }
  assert (HP : t :: l ≡ₚ p :: y ++ x) by (rewrite E, <- Permutation_middle, Permutation_app_comm; reflexivity).
  rewrite HP in Hn, Ha. rewrite (Permutation_length HP). clear HP E Hc. cbn [app] in Hr. set (g := y ++ x) in *.
  assert (Hrun : forall k b, ((p :: g) ++ [p]) !! k = Some b -> Nat.iter k f p = b) by
    (intros k b; apply (chain_iter f (p :: g) p k b Hr)).
  assert (Hback : forall k j, (k <= length (p :: g))%nat -> (0 < j < k)%nat -> Nat.iter j f p <> p).
  { intros k j Hk Hj Ej. destruct (lookup_lt_is_Some_2 (p :: g) j ltac:(lia)) as [b Hb].
    rewrite (Hrun j b) in Ej by (apply lookup_app_l_Some; exact Hb). subst b.
    pose proof (NoDup_lookup _ j 0%nat p Hn Hb eq_refl). lia. }
  apply list_elem_of_lookup_1 in Ha as [i Hi]. destruct i as [|i].
  - exists (length (p :: g)). split; [cbn; lia|]. injection Hi as ->. split; [|intros j; apply Hback; lia].
    apply Hrun. apply list_lookup_middle. reflexivity.
  - exists (Datatypes.S i). pose proof (lookup_lt_Some _ _ _ Hi).
    split; [lia|]. split; [|intros j; apply Hback; lia]. apply Hrun. apply lookup_app_l_Some. exact Hi.
Qed.

(** The predecessor in a ring is unique. *)
Lemma pred_unique f t l x q q' a y :
  chain f (t :: l) t -> NoDup (t :: l) -> t :: l = x ++ q :: a :: y -> q' ∈ t :: l -> f q' = a -> q' = q.
Proof.
  intros Hc Hn E Hq' Hf. apply list_elem_of_split in Hq' as (u & v & E').
  rewrite E' in Hc. apply chain_app in Hc as [_ [Hh _]]. rewrite Hf in Hh. destruct v as [|b v]; cbn in Hh.
  - subst a. exfalso. rewrite E in Hn. destruct x as [|c x].
    + injection E as <- _. apply NoDup_cons in Hn as [Hn _]. apply Hn. constructor.
    + injection E as <- _. apply NoDup_cons in Hn as [Hn _]. apply Hn. apply elem_of_app. right. constructor. constructor.
  - subst b. assert (Hlen : length (u ++ [q']) = length (x ++ [q])).
    { apply (NoDup_lookup (t :: l) _ _ a Hn).
      - rewrite E'. replace (u ++ q' :: a :: v) with ((u ++ [q']) ++ a :: v) by (rewrite <- app_assoc; reflexivity).
        apply list_lookup_middle. reflexivity.
      - rewrite E. replace (x ++ q :: a :: y) with ((x ++ [q]) ++ a :: y) by (rewrite <- app_assoc; reflexivity).
        apply list_lookup_middle. reflexivity. }
    rewrite !length_app in Hlen. cbn in Hlen. rewrite E in E'.
    apply app_inj_1 in E' as [_ E']; [congruence | lia].
Qed.

(** ** The layout invariant *)

(** Blocks [(address, units)] in address order between [lo] and [hi], with a
    gap between two neighbours: adjacent free blocks have been merged. *)
Fixpoint blocks (lo : Z) (l : list (Z * Z)) (hi : Z) : Prop :=
  match l with
  | [] => lo <= hi
  | (a, s) :: l' => lo < a /\ 0 <= s /\ blocks (a + HDR * s) l' hi
  end.

Lemma blocks_mono lo lo' l hi hi' : lo' <= lo -> hi <= hi' -> blocks lo l hi -> blocks lo' l hi'.
Proof.
  revert lo lo'. induction l as [|[a s] l IH]; intros lo lo' H1 H2; cbn [blocks]; [lia|].
  intros (Ha & Hs & Hl). split; [lia|]. split; [lia|]. apply (IH (a + HDR * s)); [lia | lia | exact Hl].
Qed.

Lemma blocks_app lo l l' hi : blocks lo (l ++ l') hi <-> exists m, blocks lo l m /\ blocks m l' hi.
Proof.
  revert lo. induction l as [|[a s] l IH]; intros lo; cbn [app blocks].
  - split; [intros H; exists lo; auto with lia|]. intros (m & Hm & H). apply (blocks_mono m _ _ hi); [lia | lia | exact H].
  - rewrite IH. split.
    + intros (H1 & H2 & m & H3 & H4). exists m. auto.
    + intros (m & (H1 & H2 & H3) & H4). eauto.
Qed.

Lemma blocks_le lo l hi : blocks lo l hi -> lo <= hi.
Proof.
  revert lo. induction l as [|[a s] l IH]; intros lo; cbn [blocks]; [auto|]. intros (H1 & H2 & H3).
  apply IH in H3. unfold HDR in *. lia.
Qed.

Lemma blocks_in lo l hi a s : blocks lo l hi -> (a, s) ∈ l -> lo < a /\ 0 <= s /\ a + HDR * s <= hi.
Proof.
  intros Hb Hin. apply list_elem_of_split in Hin as (x & y & ->).
  apply blocks_app in Hb as (m & Hx & Hm & Hs & Hy). apply blocks_le in Hx, Hy. auto with lia.
Qed.

Lemma blocks_sorted lo l hi : blocks lo l hi -> StronglySorted Z.lt l.*1.
Proof.
  revert lo. induction l as [|[a s] l IH]; intros lo; cbn [blocks]; [constructor|]. intros (H1 & H2 & H3).
  cbn. constructor; [eapply IH; exact H3|]. apply Forall_forall. intros b Hb.
  apply list_elem_of_fmap in Hb as ([b' t] & -> & Hb). apply (blocks_in _ _ _ _ _ H3) in Hb. unfold HDR in *. cbn. lia.
Qed.

Lemma sorted_nodup l : StronglySorted Z.lt l -> NoDup l.
Proof.
  induction 1 as [|a l Hl IH Ha]; [constructor|]. apply NoDup_cons. split; [|exact IH].
  intros Hin. rewrite Forall_forall in Ha. specialize (Ha a Hin). lia.
Qed.

(** Two blocks do not overlap. *)
Definition apart (a s b t : Z) : Prop := a + HDR * s <= b \/ b + HDR * t <= a.

Section Proofs.
Context (base heap0 : Z) (avail : Z -> Z -> bool).
Context (base_pos : 0 < base) (base_low : base + HDR <= heap0).
(** The kernel never gives a process more memory than the machine has. *)
Context (avail_ram : forall b n, avail b n = true -> b + n <= 2 ^ 31).

(** The free list: the static header and the free blocks, linked in address
    order into a ring. *)
Record ring_ok (h : heap) (T : list (Z * Z)) : Prop := RingOk {
  ok_ring : chain (hptr h) (base :: T.*1) base;
  ok_blocks : blocks (base - 1) ((base, 0) :: T) (brk h);
  ok_low : forall a s, (a, s) ∈ (base, 0) :: T -> (a, s) = (base, 0) \/ (heap0 <= a /\ 1 <= s);
  ok_sizes : forall a s, (a, s) ∈ (base, 0) :: T -> hsize h a = s;
  ok_brk : heap0 <= brk h <= 2 ^ 31
}.

(** The live blocks: inside the heap, apart from each other and from the free
    blocks. *)
Record live_ok (h : heap) (T : list (Z * Z)) (A : gmap Z Z) : Prop := LiveOk {
  lv_block : forall a s, A !! a = Some s -> hsize h a = s /\ 1 <= s /\ heap0 <= a /\ a + HDR * s <= brk h;
  lv_apart : forall a s b t, A !! a = Some s -> A !! b = Some t -> a <> b -> apart a s b t;
  lv_free : forall a s b t, A !! a = Some s -> (b, t) ∈ T -> apart a s b t
}.

Definition heap_ok (h : heap) (T : list (Z * Z)) (A : gmap Z Z) : Prop :=
  ring_ok h T /\ live_ok h T A /\ freep h ∈ base :: T.*1.

Lemma ring_sorted h T : ring_ok h T -> StronglySorted Z.lt (base :: T.*1).
Proof. intros H. exact (blocks_sorted _ _ _ (ok_blocks h T H)). Qed.

Lemma ring_nodup h T : ring_ok h T -> NoDup (base :: T.*1).
Proof. intros H. apply sorted_nodup, (ring_sorted h). exact H. Qed.

Lemma ring_low h T a s : ring_ok h T -> (a, s) ∈ T -> heap0 <= a /\ 1 <= s.
Proof.
  intros Hr Ha. destruct (ok_low h T Hr a s) as [[= -> ->]|H]; [right; exact Ha | | exact H].
  pose proof (ring_nodup h T Hr) as Hn. apply NoDup_cons in Hn as [Hn _]. destruct Hn.
  apply (list_elem_of_fmap_2 fst _ _ Ha).
Qed.

(** The successor of an element: the next address, or the static header. *)
Lemma ring_next f l q : chain f (base :: l) base -> StronglySorted Z.lt (base :: l) -> q ∈ base :: l ->
  (f q = base /\ forall x, x ∈ base :: l -> x <= q) \/
  (f q ∈ l /\ q < f q /\ forall x, x ∈ base :: l -> x <= q \/ f q <= x).
Proof.
  intros Hc Hs Hq. apply list_elem_of_split in Hq as (x & y & E). rewrite E in Hc, Hs.
  apply chain_app in Hc as [_ [Hq _]].
  assert (Hx : forall a, a ∈ x -> a < q).
  { intros a Ha. apply (StronglySorted_app_1_elem_of Z.lt x (q :: y)); [exact Hs | exact Ha | constructor]. }
  apply StronglySorted_app_1_r in Hs. apply StronglySorted_inv in Hs as [Hs Hy]. rewrite Forall_forall in Hy.
  destruct y as [|b y]; cbn [hd] in Hq.
  - left. split; [exact Hq|]. intros a Ha. rewrite E in Ha. apply elem_of_app in Ha as [Ha|Ha]; [apply Hx in Ha; lia|].
    apply list_elem_of_singleton in Ha. lia.
  - right. rewrite Hq. assert (Hqb : q < b) by (apply Hy; constructor). split; [|split; [exact Hqb|]].
    + destruct x as [|c x]; injection E as E1 E2; subst l; [constructor|]. apply elem_of_app. right. right. left.
    + intros a Ha. rewrite E in Ha. apply elem_of_app in Ha as [Ha|Ha]; [apply Hx in Ha; lia|].
      apply elem_of_cons in Ha as [->|Ha]; [lia|]. right. apply elem_of_cons in Ha as [->|Ha]; [lia|].
      apply StronglySorted_inv in Hs as [_ Hs]. rewrite Forall_forall in Hs. specialize (Hs a Ha). lia.
Qed.

(** The search loop of [free] terminates at the element below [bp]. *)
Lemma free_walk h T bp p fuel :
  ring_ok h T -> p ∈ base :: T.*1 -> base < bp -> p < bp ->
  (forall x, x ∈ base :: T.*1 -> x <= p \/ bp < x) ->
  freep h ∈ base :: T.*1 -> (length T + 1 < fuel)%nat ->
  wp (loop fuel (free_step bp) (freep h)) (fun q h' => q = p /\ h' = h) h.
Proof.
  intros Hr Hp Hb Hpb Hgap Hf Hfuel.
  destruct (ring_reach _ _ _ (freep h) p (ok_ring h T Hr) (ring_nodup h T Hr) Hf Hp) as (k & Hk & Hreach & _).
  apply (wp_loop (fun k q h' => h' = h /\ q ∈ base :: T.*1 /\ Nat.iter k (hptr h) q = p)) with (k := k);
    [|auto | cbn [length] in Hk; rewrite length_fmap in Hk; lia].
  clear k Hk Hreach. intros k q h' (-> & Hq & Hk). unfold free_step. wp_steps.
  pose proof (ring_next _ _ q (ok_ring h T Hr) (ring_sorted h T Hr) Hq) as Hn.
  destruct (decide (q = p)) as [->|Hne].
  - destruct Hn as [[E _]|(Hin & Hlt & _)].
    + rewrite E. replace ((bp >? p) && (bp <? base)) with false by lia.
      replace ((p >=? base) && ((bp >? p) || (bp <? base))) with true; [apply wp_ret; auto|].
      destruct (Hgap base) as [H|H]; [constructor | lia | lia].
    + replace ((bp >? p) && (bp <? hptr h p)) with true; [apply wp_ret; auto|].
      destruct (Hgap (hptr h p)); [constructor; exact Hin | lia | lia].
  - assert (Hcont : ((bp >? q) && (bp <? hptr h q)) || ((q >=? hptr h q) && ((bp >? q) || (bp <? hptr h q))) = false).
    { destruct (Hgap q Hq), Hn as [[E Hmax]|(_ & Hlt & Hg)].
      - specialize (Hmax p Hp). lia.
      - destruct (Hg p Hp); lia.
      - lia.
      - lia. }
    apply orb_false_iff in Hcont as [-> ->]. apply wp_ret. destruct k as [|k]; [cbn in Hk; congruence|].
    exists k. split; [lia|]. split; [reflexivity|]. split; [|rewrite <- Nat.iter_succ_r; exact Hk].
    destruct Hn as [[-> _]|[Hin _]]; [constructor | constructor; exact Hin].
Qed.

(** Replacing a segment of the free list. *)
Lemma ring_replace h h' T T' X D M Y p m :
  ring_ok h T -> (base, 0) :: T = X ++ D ++ Y -> (base, 0) :: T' = X ++ M ++ Y ->
  hd_error D.*1 = Some p -> hd_error M.*1 = Some p -> brk h' = brk h ->
  (forall a, a ∈ X.*1 \/ a ∈ Y.*1 -> hptr h' a = hptr h a /\ hsize h' a = hsize h a) ->
  chain (hptr h') M.*1 (hd base Y.*1) -> (forall a s, (a, s) ∈ M -> hsize h' a = s) ->
  blocks (p - 1) M m -> blocks m Y (brk h) -> (forall a s, (a, s) ∈ M -> (a, s) = (base, 0) \/ (heap0 <= a /\ 1 <= s)) ->
  ring_ok h' T'.
Proof.
  intros Hr ED EM HD HM Hbrk Hsame Hch Hsz Hbl HY Hlow.
  destruct D as [|[p' d] D]; [discriminate|]. injection HD as ->.
  destruct M as [|[p' e] M]; [discriminate|]. injection HM as ->.
  assert (Hring : chain (hptr h) (X.*1 ++ (p :: D.*1) ++ Y.*1) base).
  { pose proof (ok_ring h T Hr) as Hc. change (base :: T.*1) with (((base, 0) :: T).*1) in Hc.
    rewrite ED, !fmap_app in Hc. exact Hc. }
  apply chain_app in Hring as [HcX HcY]. apply chain_app in HcY as [_ HcY].
  pose proof (ok_blocks h T Hr) as Hb. rewrite ED in Hb. apply blocks_app in Hb as (m0 & HbX & Hm0 & _).
  constructor.
  - change (base :: T'.*1) with (((base, 0) :: T').*1). rewrite EM, !fmap_app.
    apply chain_app. split; [|apply chain_app; split; [exact Hch|]].
    + eapply chain_ptr_ext; [|exact HcX]. intros a Ha. symmetry. apply Hsame. left. exact Ha.
    + eapply chain_ptr_ext; [|exact HcY]. intros a Ha. symmetry. apply Hsame. right. exact Ha.
  - rewrite EM, Hbrk. apply blocks_app. exists (p - 1). split; [|apply blocks_app; eauto].
    eapply blocks_mono; [reflexivity | | exact HbX]. lia.
  - intros a s Ha. rewrite EM, !elem_of_app in Ha. destruct Ha as [Ha|[Ha|Ha]]; [|apply Hlow; exact Ha|];
      apply (ok_low h T Hr); rewrite ED, !elem_of_app; auto.
  - intros a s Ha. rewrite EM in Ha. apply elem_of_app in Ha as [Ha|Ha]; [|apply elem_of_app in Ha as [Ha|Ha]].
    + rewrite (proj2 (Hsame a (or_introl (list_elem_of_fmap_2 fst _ _ Ha)))).
      apply (ok_sizes h T Hr). rewrite ED. apply elem_of_app. left. exact Ha.
    + apply Hsz. exact Ha.
    + rewrite (proj2 (Hsame a (or_intror (list_elem_of_fmap_2 fst _ _ Ha)))).
      apply (ok_sizes h T Hr). rewrite ED. rewrite !elem_of_app. right. right. exact Ha.
  - rewrite Hbrk. apply (ok_brk h T Hr).
Qed.

(** The free-list position of an address. *)
Lemma split_at lo b s T hi bp : blocks lo ((b, s) :: T) hi -> b < bp -> bp ∉ T.*1 ->
  exists X p ps Y, (b, s) :: T = X ++ (p, ps) :: Y /\ p < bp /\ (forall a t, (a, t) ∈ X -> a < p) /\
    (forall a t, (a, t) ∈ Y -> bp < a).
Proof.
  revert lo b s. induction T as [|[c t] T IH]; intros lo b s Hb Hlt Hn.
  - exists [], b, s, []. split; [reflexivity|]. split; [exact Hlt|].
    split; intros ? ? H; apply elem_of_nil in H; contradiction.
  - cbn in Hn. apply not_elem_of_cons in Hn as [Hne Hn]. destruct Hb as (H1 & H2 & Hb).
    destruct (Z.lt_ge_cases c bp) as [Hc|Hc].
    + destruct (IH _ c t Hb Hc Hn) as (X & p & ps & Y & E & Hp & HX & HY).
      exists ((b, s) :: X), p, ps, Y. split; [rewrite E; reflexivity|]. split; [exact Hp|]. split; [|exact HY].
      intros a u Ha. apply elem_of_cons in Ha as [[= -> ->]|Ha]; [|apply (HX a u Ha)].
      assert (Hin : (p, ps) ∈ (c, t) :: T) by (rewrite E; apply elem_of_app; right; constructor).
      apply (blocks_in _ _ _ _ _ Hb) in Hin. unfold HDR in *. lia.
    + exists [], b, s, ((c, t) :: T). split; [reflexivity|]. split; [exact Hlt|].
      split; [intros ? ? H; apply elem_of_nil in H; contradiction|].
      intros a u Ha. destruct Hb as (H3 & H4 & Hb). apply elem_of_cons in Ha as [[= -> ->]|Ha]; [lia|].
      apply (blocks_in _ _ _ _ _ Hb) in Ha. unfold HDR in *. lia.
Qed.

(** What [free] does with a block of [bs] units at [bp] that is apart from the
    free ones. *)
Definition freed (h : heap) (T : list (Z * Z)) (bp bs : Z) (h' : heap) (T' : list (Z * Z)) : Prop :=
  ring_ok h' T' /\ freep h' ∈ base :: T'.*1 /\ brk h' = brk h /\
  (forall a, a ∉ base :: T.*1 -> a <> bp -> hsize h' a = hsize h a) /\
  (exists c t, (c, t) ∈ T' /\ bs <= t) /\ (length T' <= length T + 1)%nat /\
  (forall a s, 1 <= s -> apart a s bp bs -> (forall b t, (b, t) ∈ T -> apart a s b t) ->
     forall b t, (b, t) ∈ T' -> apart a s b t).

(** The second half of [free]: linking the block, already merged with its
    upper neighbour [N] if that is adjacent, behind [p]. *)
Definition link_prev (p bp : Z) (h : heap) : heap :=
  set_freep p (if p + HDR * hsize h p =? bp
               then set_ptr p (hptr h bp) (set_size p (u32 (hsize h p + hsize h bp)) h)
               else set_ptr p bp h).

Lemma freed_ring h h1 T X p ps N Y bp bs' :
  ring_ok h T -> (base, 0) :: T = X ++ ((p, ps) :: N) ++ Y ->
  base < bp -> heap0 <= bp -> 1 <= bs' -> p + HDR * ps <= bp -> bp ∉ base :: T.*1 ->
  blocks (bp + HDR * bs') Y (brk h) ->
  brk h1 = brk h -> hsize h1 bp = bs' -> hptr h1 bp = hd base Y.*1 ->
  (forall a, a <> bp -> hptr h1 a = hptr h a /\ hsize h1 a = hsize h a) ->
  exists T', ring_ok (link_prev p bp h1) T' /\
    (base, 0) :: T' = X ++ (if p + HDR * ps =? bp then [(p, ps + bs')] else [(p, ps); (bp, bs')]) ++ Y.
Proof.
  intros Hr E Hb Hb0 Hbs Hend Hn HY Hbrk Hs1 Hp1 Hsame.
  assert (Hpin : (p, ps) ∈ (base, 0) :: T) by (rewrite E; rewrite !elem_of_app; right; left; constructor).
  assert (Hp : hsize h p = ps) by (apply (ok_sizes h T Hr); exact Hpin).
  assert (Hpb : p <> bp).
  { intros ->. apply Hn. change (base :: T.*1) with (((base, 0) :: T).*1). apply (list_elem_of_fmap_2 fst _ (bp, ps)). exact Hpin. }
  destruct (blocks_in _ _ _ _ _ (ok_blocks h T Hr) Hpin) as (Hbp & Hps & Hpe).
  assert (Hnd : NoDup (X.*1 ++ (p :: N.*1) ++ Y.*1)).
  { replace (X.*1 ++ (p :: N.*1) ++ Y.*1) with (((base, 0) :: T).*1); [exact (ring_nodup h T Hr)|].
    rewrite E, !fmap_app. reflexivity. }
  assert (Hoff : forall a, a ∈ X.*1 \/ a ∈ Y.*1 -> a <> bp /\ a <> p).
  { intros a Ha. split.
    - intros ->. apply Hn. change (base :: T.*1) with (((base, 0) :: T).*1). rewrite E, !fmap_app, !elem_of_app. tauto.
    - intros ->. apply NoDup_app in Hnd as (_ & Hx & Hnd). destruct Ha as [Ha|Ha].
      + apply (Hx p Ha). left.
      + apply NoDup_cons in Hnd as [Hnd _]. apply Hnd. apply elem_of_app. right. exact Ha. }
  set (M := if p + HDR * ps =? bp then [(p, ps + bs')] else [(p, ps); (bp, bs')]).
  assert (Hhead : exists T', (base, 0) :: T' = X ++ M ++ Y).
  { destruct X as [|c X]; [|injection E as <- _; exists (X ++ M ++ Y); reflexivity].
    injection E as <- <- _. unfold M. replace (base + HDR * 0 =? bp) with false by lia. eexists. reflexivity. }
  destruct Hhead as [T' ET']. exists T'. split; [|exact ET'].
  pose proof (blocks_le _ _ _ HY) as HbY. pose proof (ok_brk h T Hr) as Hbr.
  eapply (ring_replace h _ T T' X ((p, ps) :: N) M Y p); [exact Hr | exact E | exact ET' | reflexivity | | | | | | | exact HY |].
  - unfold M. destruct (_ =? _); reflexivity.
  - unfold link_prev. destruct (p + HDR * hsize h1 p =? bp); exact Hbrk.
  - intros a Ha. destruct (Hoff a Ha) as [H1 H2]. destruct (Hsame a H1) as [<- <-]. unfold link_prev.
    destruct (p + HDR * hsize h1 p =? bp); cbn; rewrite ?fn_lookup_insert_ne by congruence; auto.
  - unfold link_prev, M. rewrite (proj2 (Hsame p Hpb)), Hp. destruct (p + HDR * ps =? bp); cbn.
    + rewrite fn_lookup_insert. auto.
    + rewrite fn_lookup_insert, fn_lookup_insert_ne by congruence. auto.
  - unfold link_prev, M. rewrite (proj2 (Hsame p Hpb)), Hp, Hs1. intros a s Ha.
    destruct (Z.eqb_spec (p + HDR * ps) bp) as [Ee|Ee]; cbn.
    + apply list_elem_of_singleton in Ha. injection Ha as -> ->. rewrite fn_lookup_insert. apply u32_small. unfold HDR in *. lia.
    + apply elem_of_cons in Ha as [Ha|Ha]; [|apply list_elem_of_singleton in Ha]; injection Ha as -> ->.
      * rewrite <- Hp. apply Hsame. exact Hpb.
      * exact Hs1.
  - unfold M. destruct (Z.eqb_spec (p + HDR * ps) bp) as [Ee|Ee]; cbn; unfold HDR in *; lia.
  - intros a s. unfold M. pose proof (ok_low h T Hr p ps Hpin) as Hlow.
    destruct (Z.eqb_spec (p + HDR * ps) bp) as [Ee|Ee]; intros Ha.
    + apply list_elem_of_singleton in Ha. injection Ha as -> ->. right.
      destruct Hlow as [[= -> ->]|Hlow]; unfold HDR in *; lia.
    + apply elem_of_cons in Ha as [Ha|Ha]; [|apply list_elem_of_singleton in Ha]; injection Ha as -> ->; auto.
Qed.

(** The first half: merging with the upper neighbour. *)
Definition link_next (p bp : Z) (h : heap) : heap :=
  if bp + HDR * hsize h bp =? hptr h p
  then set_ptr bp (hptr h (hptr h p)) (set_size bp (u32 (hsize h bp + hsize h (hptr h p))) h)
  else set_ptr bp (hptr h p) h.

Lemma free_run h bp p fuel :
  wp (loop fuel (free_step bp) (freep h)) (fun q h' => q = p /\ h' = h) h ->
  free fuel (bp + HDR) h = Ret tt (link_prev p bp (link_next p bp h)).
Proof.
  intros Hw. apply wp_run in Hw as (q & h' & E & -> & ->). unfold free.
  replace (bp + HDR - HDR) with bp by lia. unfold mbind, M_bind, gets, get, modify. rewrite E.
  unfold link_prev, link_next. destruct (bp + HDR * hsize h bp =? hptr h p); cbn;
  match goal with |- context [if ?b then _ else _] => destruct b; reflexivity end.
Qed.

(** A block and the room it has behind [p], after the first half. *)
Lemma link_next_ring h T X p ps Y bp bs :
  ring_ok h T -> (base, 0) :: T = X ++ (p, ps) :: Y -> base < bp -> 1 <= bs -> bp + HDR * bs <= brk h ->
  hsize h bp = bs -> (forall b t, (b, t) ∈ T -> apart bp bs b t) -> (forall a t, (a, t) ∈ Y -> bp < a) ->
  exists N Y' bs', Y = N ++ Y' /\ bs' = bs + foldr (fun b acc => b.2 + acc) 0 N /\ (length N <= 1)%nat /\
    (forall b t, (b, t) ∈ N -> bp + HDR * bs = b) /\ bs <= bs' /\
    blocks (bp + HDR * bs') Y' (brk h) /\ hsize (link_next p bp h) bp = bs' /\
    hptr (link_next p bp h) bp = hd base Y'.*1.
Proof.
  intros Hr E Hb Hbs Hend Hs Hap HY.
  assert (Hnx : hptr h p = hd base Y.*1).
  { pose proof (ok_ring h T Hr) as Hc. change (base :: T.*1) with (((base, 0) :: T).*1) in Hc.
    rewrite E, fmap_app in Hc. apply chain_app in Hc as [_ [Hc _]]. exact Hc. }
  pose proof (ok_blocks h T Hr) as Hbl. rewrite E in Hbl. apply blocks_app in Hbl as (m & _ & Hm & Hps & HbY).
  pose proof (ok_brk h T Hr) as Hbrk. unfold link_next. rewrite Hs, Hnx.
  destruct Y as [|[nx ns] Y]; cbn [hd fmap list_fmap fst].
  - replace (bp + HDR * bs =? base) with false by (unfold HDR in *; lia).
    exists [], [], bs. split; [reflexivity|]. split; [cbn; lia|]. split; [cbn; lia|].
    split; [intros ? ? Hbt; apply elem_of_nil in Hbt; contradiction|]. split; [lia|]. split; [exact Hend|].
    split; [exact Hs|]. apply fn_lookup_insert.
  - assert (Hin : (nx, ns) ∈ (base, 0) :: T) by (rewrite E; apply elem_of_app; right; right; constructor).
    assert (HinT : (nx, ns) ∈ T).
    { apply elem_of_cons in Hin as [[= -> ->]|Hin]; [|exact Hin]. specialize (HY base 0 ltac:(constructor)). lia. }
    pose proof (HY nx ns ltac:(constructor)). specialize (Hap nx ns HinT). pose proof (ring_low h T nx ns Hr HinT) as [_ Hns].
    rewrite (ok_sizes h T Hr nx ns Hin). destruct HbY as (Hb1 & Hb2 & Hb3). pose proof (blocks_le _ _ _ Hb3).
    destruct (Z.eqb_spec (bp + HDR * bs) nx) as [Ee|Ee]; cbn.
    + exists [(nx, ns)], Y, (bs + ns). split; [reflexivity|]. split; [cbn; lia|]. split; [cbn; lia|].
      split; [intros b t Hbt; apply list_elem_of_singleton in Hbt; congruence|]. split; [lia|].
      split; [replace (bp + HDR * (bs + ns)) with (nx + HDR * ns) by (unfold HDR in *; lia); exact Hb3|].
      rewrite !fn_lookup_insert. split; [apply u32_small; unfold HDR in *; lia|].
      pose proof (ok_ring h T Hr) as Hc. change (base :: T.*1) with (((base, 0) :: T).*1) in Hc.
      rewrite E, fmap_app in Hc. apply chain_app in Hc as [_ [_ [Hc _]]]. exact Hc.
    + exists [], ((nx, ns) :: Y), bs. split; [reflexivity|]. split; [cbn; lia|]. split; [cbn; lia|].
      split; [intros ? ? Hbt; apply elem_of_nil in Hbt; contradiction|]. split; [lia|].
      split; [cbn; unfold apart, HDR in *; split; [lia|]; split; [lia | exact Hb3]|].
      split; [exact Hs|]. apply fn_lookup_insert.
Qed.

Lemma freed_intro h T X p ps N Y bp bs bs' T' :
  ring_ok h T -> (base, 0) :: T = X ++ ((p, ps) :: N) ++ Y -> base < bp -> 1 <= bs -> bs <= bs' ->
  bs' = bs + foldr (fun b acc => b.2 + acc) 0 N -> (length N <= 1)%nat ->
  (forall b t, (b, t) ∈ N -> bp + HDR * bs = b) ->
  ring_ok (link_prev p bp (link_next p bp h)) T' ->
  (base, 0) :: T' = X ++ (if p + HDR * ps =? bp then [(p, ps + bs')] else [(p, ps); (bp, bs')]) ++ Y ->
  freed h T bp bs (link_prev p bp (link_next p bp h)) T'.
Proof.
  intros Hr E Hb Hbs Hle Ebs HN1 HN Hr' ET'. unfold freed.
  assert (Hpin : (p, ps) ∈ (base, 0) :: T) by (rewrite E; rewrite !elem_of_app; right; left; constructor).
  destruct (blocks_in _ _ _ _ _ (ok_blocks h T Hr) Hpin) as (_ & Hps & _).
  split; [exact Hr'|]. split; [|split; [|split; [|split; [|split]]]].
  - change (base :: T'.*1) with (((base, 0) :: T').*1). rewrite ET'. change (freep _) with p.
    rewrite !fmap_app, !elem_of_app. right. left. destruct (_ =? _); constructor.
  - unfold link_prev, link_next. repeat match goal with |- context [if ?b then _ else _] => destruct b end; reflexivity.
  - intros a Ha Hne. assert (a <> p).
    { intros ->. apply Ha. change (base :: T.*1) with (((base, 0) :: T).*1). apply (list_elem_of_fmap_2 fst _ _ Hpin). }
    unfold link_prev, link_next. repeat match goal with |- context [if ?b then _ else _] => destruct b end;
      cbn; rewrite ?fn_lookup_insert_ne by congruence; reflexivity.
  - assert (Hex : exists c t, (c, t) ∈ (base, 0) :: T' /\ bs <= t).
    { rewrite ET'. destruct (_ =? _).
      - exists p, (ps + bs'). split; [|lia]. rewrite !elem_of_app. right. left. constructor.
      - exists bp, bs'. split; [|lia]. rewrite !elem_of_app. right. left. right. constructor. }
    destruct Hex as (c & t & Hin & Hbt). exists c, t. split; [|exact Hbt].
    apply elem_of_cons in Hin as [[= -> ->]|Hin]; [lia | exact Hin].
  - apply (f_equal length) in E, ET'. rewrite !length_app in E, ET'. cbn [length] in E, ET'.
    destruct (_ =? _) in ET'; cbn [length] in ET'; lia.
  - intros a s Hs Hap HT b t Hbt. assert (Hbt' : (b, t) ∈ (base, 0) :: T') by (right; exact Hbt).
    pose proof (ring_low _ T' b t Hr' Hbt) as [Hb0 _].
    assert (HT0 : forall c u, (c, u) ∈ X ++ ((p, ps) :: N) ++ Y -> c <> base -> apart a s c u).
    { intros c u Hc Hne. rewrite <- E in Hc. apply elem_of_cons in Hc as [[= -> ->]|Hc]; [congruence | auto]. }
    rewrite ET', !elem_of_app in Hbt'. destruct Hbt' as [Hin|[Hin|Hin]].
    + apply HT0; [rewrite !elem_of_app; auto | unfold HDR in *; lia].
    + assert (Hbp : b + HDR * t <= a \/ a + HDR * s <= b); [|unfold apart; tauto].
      assert (HNa : apart a s bp bs').
      { destruct N as [|[nx ns] [|? ?]]; cbn in Ebs, HN1; [|..|lia].
        - replace bs' with bs by lia. exact Hap.
        - specialize (HN nx ns ltac:(constructor)). pose proof (HT0 nx ns) as Ha.
          specialize (Ha ltac:(rewrite !elem_of_app; right; left; right; constructor) ltac:(unfold HDR in *; lia)).
          unfold apart, HDR in *. lia. }
      destruct (Z.eqb_spec (p + HDR * ps) bp) as [Ee|Ee].
      * apply list_elem_of_singleton in Hin. injection Hin as -> ->.
        pose proof (HT0 p ps ltac:(rewrite !elem_of_app; right; left; constructor) ltac:(unfold HDR in *; lia)).
        unfold apart, HDR in *. lia.
      * apply elem_of_cons in Hin as [Hin|Hin]; [|apply list_elem_of_singleton in Hin]; injection Hin as -> ->.
        -- pose proof (HT0 p ps ltac:(rewrite !elem_of_app; right; left; constructor) ltac:(unfold HDR in *; lia)).
           unfold apart in *. lia.
        -- unfold apart in *. lia.
    + apply HT0; [rewrite !elem_of_app; auto | unfold HDR in *; lia].
Qed.

Lemma free_wp h T bp bs fuel :
  ring_ok h T -> freep h ∈ base :: T.*1 -> heap0 <= bp -> 1 <= bs -> bp + HDR * bs <= brk h ->
  hsize h bp = bs -> (forall b t, (b, t) ∈ T -> apart bp bs b t) -> (length T + 1 < fuel)%nat ->
  wp (free fuel (bp + HDR)) (fun _ h' => exists T', freed h T bp bs h' T') h.
Proof.
  intros Hr Hf Hlo Hbs Hend Hs Hap Hfuel.
  assert (Hb : base < bp) by (unfold HDR in *; lia).
  assert (HnT : bp ∉ T.*1).
  { intros Hin. apply list_elem_of_fmap in Hin as ([b t] & -> & Hin). cbn in *.
    specialize (Hap b t Hin). pose proof (ring_low h T b t Hr Hin). unfold apart, HDR in *. lia. }
  assert (Hn : bp ∉ base :: T.*1) by (apply not_elem_of_cons; split; [lia | exact HnT]).
  destruct (split_at _ _ _ _ _ bp (ok_blocks h T Hr) Hb HnT) as (X & p & ps & Y & E & Hp & HX & HY).
  assert (Hpin : (p, ps) ∈ (base, 0) :: T) by (rewrite E; apply elem_of_app; right; constructor).
  assert (Hpe : p + HDR * ps <= bp).
  { apply elem_of_cons in Hpin as [[= -> ->]|Hin]; [lia|]. specialize (Hap p ps Hin). unfold apart, HDR in *. lia. }
  assert (Hrun : free fuel (bp + HDR) h = Ret tt (link_prev p bp (link_next p bp h))).
  { apply free_run. apply (free_walk h T); try assumption.
    - change (base :: T.*1) with (((base, 0) :: T).*1). apply (list_elem_of_fmap_2 fst _ (p, ps)). exact Hpin.
    - intros x Hx. change (base :: T.*1) with (((base, 0) :: T).*1) in Hx. apply list_elem_of_fmap in Hx as ([y t] & -> & Hx).
      rewrite E in Hx. apply elem_of_app in Hx as [Hx|Hx]; [apply HX in Hx; cbn; lia|].
      apply elem_of_cons in Hx as [[= -> ->]|Hx]; [cbn; lia|]. right. apply (HY y t). exact Hx. }
  destruct (link_next_ring h T X p ps Y bp bs Hr E Hb Hbs Hend Hs Hap HY)
    as (N & Y' & bs' & -> & Ebs & HN1 & HN & Hle & HbY & Hs1 & Hp1).
  destruct (freed_ring h (link_next p bp h) T X p ps N Y' bp bs') as (T' & Hr' & ET'); try assumption.
  { lia. } { unfold link_next. destruct (_ =? _); reflexivity. }
  { intros a Ha. unfold link_next. destruct (_ =? _); cbn; rewrite ?fn_lookup_insert_ne by congruence; auto. }
  unfold wp. rewrite Hrun. exists T'.
  apply (freed_intro h T X p ps N Y' bp bs bs' T'); try assumption.
Qed.

Lemma live_not_ring h T A a s : ring_ok h T -> live_ok h T A -> A !! a = Some s -> a ∉ base :: T.*1.
Proof.
  intros Hr Hl Ha Hin. destruct (lv_block h T A Hl a s Ha) as (_ & Hs & Ha0 & _).
  apply elem_of_cons in Hin as [->|Hin]; [unfold HDR in *; lia|].
  apply list_elem_of_fmap in Hin as ([b t] & -> & Hin). cbn in *.
  pose proof (lv_free h T A Hl b s b t Ha Hin). pose proof (ring_low h T b t Hr Hin). unfold apart, HDR in *. lia.
Qed.

(** [free] of a live block. *)
Lemma free_live_wp h T A bp bs fuel :
  heap_ok h T A -> A !! bp = Some bs -> (length T + 1 < fuel)%nat ->
  wp (free fuel (bp + HDR)) (fun _ h' => exists T', heap_ok h' T' (delete bp A) /\ brk h' = brk h /\
    (length T' <= length T + 1)%nat /\ exists c t, (c, t) ∈ T' /\ bs <= t) h.
Proof.
  intros (Hr & Hl & Hf) Ha Hfuel. destruct (lv_block h T A Hl bp bs Ha) as (Hs & Hbs & Hlo & Hend).
  eapply wp_mono; [apply (free_wp h T bp bs fuel Hr Hf Hlo Hbs Hend Hs); [intros b t; apply (lv_free h T A Hl); exact Ha | exact Hfuel]|].
  intros _ h' (T' & Hr' & Hf' & Hbrk & Hsz & Hex & Hlen & Hap). exists T'.
  split; [|auto]. split; [exact Hr'|]. split; [|exact Hf']. constructor.
  - intros a s Has. apply lookup_delete_Some in Has as [Hne Has]. destruct (lv_block h T A Hl a s Has) as (H1 & H2 & H3 & H4).
    rewrite Hsz, Hbrk; [auto | apply (live_not_ring h T A a s Hr Hl Has) | congruence].
  - intros a s b t Has Hbt. apply lookup_delete_Some in Has as [_ Has], Hbt as [_ Hbt]. apply (lv_apart h T A Hl); assumption.
  - intros a s b t Has Hbt. apply lookup_delete_Some in Has as [Hne Has].
    apply (Hap a s (proj1 (proj2 (lv_block h T A Hl a s Has)))); [|intros c u; apply (lv_free h T A Hl); exact Has | exact Hbt].
    apply (lv_apart h T A Hl); [exact Has | exact Ha | congruence].
Qed.

(** Growing the heap adds a live block at the old end. *)
Lemma grow_ok h T A nu :
  heap_ok h T A -> 1 <= nu -> brk h + HDR * nu <= 2 ^ 31 ->
  heap_ok (set_size (brk h) nu (set_brk (brk h + HDR * nu) h)) T (<[brk h := nu]> A).
Proof.
  intros (Hr & Hl & Hf) Hnu Hmax. pose proof (ok_brk h T Hr) as Hbrk.
  assert (Hin : forall a s, (a, s) ∈ (base, 0) :: T -> a <> brk h /\ a + HDR * s <= brk h).
  { intros a s Ha. pose proof (blocks_in _ _ _ _ _ (ok_blocks h T Hr) Ha). apply elem_of_cons in Ha as [[= -> ->]|Ha].
    - unfold HDR in *; lia.
    - pose proof (ring_low h T a s Hr Ha). unfold HDR in *. lia. }
  split; [|split; [|exact Hf]]; constructor; cbn -[blocks chain].
  - apply (ok_ring h T Hr).
  - eapply blocks_mono; [reflexivity | | apply (ok_blocks h T Hr)]. unfold HDR in *. lia.
  - apply (ok_low h T Hr).
  - intros a s Ha. rewrite fn_lookup_insert_ne by (apply not_eq_sym, (Hin a s Ha)). apply (ok_sizes h T Hr). exact Ha.
  - unfold HDR in *. lia.
  - intros a s [[<- <-]|[Hne Has]]%lookup_insert_Some.
    + rewrite fn_lookup_insert. unfold HDR in *. lia.
    + destruct (lv_block h T A Hl a s Has) as (H1 & H2 & H3 & H4). rewrite fn_lookup_insert_ne by congruence.
      unfold HDR in *. lia.
  - intros a s b t [[<- <-]|[Hne Has]]%lookup_insert_Some [[<- <-]|[Hne' Hbt]]%lookup_insert_Some Hab.
    + congruence.
    + pose proof (lv_block h T A Hl b t Hbt). unfold apart. lia.
    + pose proof (lv_block h T A Hl a s Has). unfold apart. lia.
    + apply (lv_apart h T A Hl); assumption.
  - intros a s b t [[<- <-]|[Hne Has]]%lookup_insert_Some Hbt.
    + destruct (Hin b t ltac:(right; exact Hbt)). unfold apart. lia.
    + apply (lv_free h T A Hl); assumption.
Qed.

Definition core_units (nu : Z) : Z := if nu <? 4096 then 4096 else nu.

Lemma morecore_wp h T A nu fuel :
  heap_ok h T A -> 1 <= nu -> HDR * nu < 2 ^ 31 -> (length T + 1 < fuel)%nat ->
  wp (morecore avail fuel nu) (fun r h' =>
    (r = 0 /\ h' = h /\ avail (brk h) (HDR * core_units nu) = false) \/
    (r = freep h' /\ exists T', heap_ok h' T' A /\ brk h <= brk h' /\ (length T' <= length T + 1)%nat /\
       exists c t, (c, t) ∈ T' /\ nu <= t)) h.
Proof.
  intros Hok Hnu Hmax Hfuel. pose proof (ok_brk h T (proj1 Hok)) as Hbrk. unfold morecore. fold (core_units nu).
  assert (Hcu : nu <= core_units nu /\ 1 <= HDR * core_units nu < 2 ^ 31).
  { unfold core_units, HDR in *. destruct (Z.ltb_spec nu 4096); lia. }
  replace (u64 (core_units nu * HDR)) with (HDR * core_units nu) by (unfold u64; rewrite Z.mod_small by lia; lia).
  assert (Esb : sbrk avail (HDR * core_units nu) h =
    if avail (brk h) (HDR * core_units nu) then Ret (brk h) (set_brk (brk h + HDR * core_units nu) h) else Ret (u64 (-1)) h).
  { unfold sbrk, mbind, M_bind, gets. replace (i32 (HDR * core_units nu)) with (HDR * core_units nu).
    2:{ symmetry. apply i32_small. lia. }
    replace (_ >? 0) with true by lia. destruct (avail _ _) eqn:Ea; [|reflexivity]. cbn.
    unfold u64. rewrite Z.mod_small by (apply avail_ram in Ea; unfold HDR in *; lia). reflexivity. }
  apply wp_bind. unfold wp at 1. rewrite Esb. destruct (avail _ _) eqn:Ea.
  - apply avail_ram in Ea. replace (brk h =? u64 (-1)) with false by (change (u64 (-1)) with (2 ^ 64 - 1); lia).
    wp_steps. pose proof (grow_ok h T A (core_units nu) Hok ltac:(lia) Ea) as Hok'.
    eapply wp_mono; [apply (free_live_wp _ T _ (brk h) (core_units nu) fuel Hok'); [apply lookup_insert_eq | exact Hfuel]|].
    intros _ h' (T' & Hok2 & Hbrk' & Hlen & c & t & Hin & Ht). wp_steps. right. split; [reflexivity|].
    exists T'. split.
    + rewrite delete_insert_id in Hok2; [exact Hok2|]. destruct (A !! brk h) eqn:E; [|reflexivity].
      apply (lv_block h T A (proj1 (proj2 Hok))) in E. unfold HDR in *. lia.
    + split; [rewrite Hbrk'; cbn; lia|]. split; [exact Hlen|]. exists c, t. split; [exact Hin | lia].
  - rewrite Z.eqb_refl. apply wp_ret. left. auto.
Qed.

(** Carving a live block out of a free one. *)
Lemma take_live h h' T T' A p s a n :
  ring_ok h T -> live_ok h T A -> (p, s) ∈ T -> 1 <= n -> p <= a -> a + HDR * n = p + HDR * s ->
  brk h' = brk h -> (forall x, A !! x <> None -> hsize h' x = hsize h x) -> hsize h' a = n ->
  (forall b t, (b, t) ∈ T' -> ((b, t) ∈ T /\ b <> p) \/ (b = p /\ p + HDR * t = a)) ->
  A !! a = None /\ live_ok h' T' (<[a := n]> A).
Proof.
  intros Hr Hl Hp Hn Hpa Hend Hbrk Hsz Hsa HT'.
  destruct (ring_low h T p s Hr Hp) as [Hp0 Hs].
  assert (Hpe : p + HDR * s <= brk h) by (apply (blocks_in _ _ _ _ _ (ok_blocks h T Hr)); right; exact Hp).
  assert (Hap : forall b t, A !! b = Some t -> apart b t a n /\ b <> a).
  { intros b t Hb. pose proof (lv_free h T A Hl b t p s Hb Hp). pose proof (lv_block h T A Hl b t Hb).
    unfold apart, HDR in *. lia. }
  split; [destruct (A !! a) as [t|] eqn:E; [destruct (Hap a t E); congruence | reflexivity]|].
  assert (Hfree : forall b t, (b, t) ∈ T -> b <> p -> apart b t p s).
  { intros b t Hb Hne. pose proof (ok_blocks h T Hr) as Hbl. assert (Hb' : (b, t) ∈ (base, 0) :: T) by (right; exact Hb).
    assert (Hp' : (p, s) ∈ (base, 0) :: T) by (right; exact Hp). apply list_elem_of_split in Hp' as (x & y & E). rewrite E in Hbl, Hb'.
    apply blocks_app in Hbl as (m & Hx & Hm & Hs0 & Hy). apply elem_of_app in Hb' as [Hin|Hin].
    - apply (blocks_in _ _ _ _ _ Hx) in Hin. unfold apart. lia.
    - apply elem_of_cons in Hin as [[= -> ->]|Hin]; [congruence|]. apply (blocks_in _ _ _ _ _ Hy) in Hin. unfold apart. lia. }
  constructor.
  - intros b t [[<- <-]|[Hne Hb]]%lookup_insert_Some; [unfold HDR in *; lia|].
    rewrite Hsz, Hbrk by congruence. apply (lv_block h T A Hl). exact Hb.
  - intros b t c u [[<- <-]|[Hne Hb]]%lookup_insert_Some [[<- <-]|[Hne' Hc]]%lookup_insert_Some Hbc; [congruence | | |].
    + destruct (Hap c u Hc) as [H _]. unfold apart in *. lia.
    + apply (Hap b t Hb).
    + apply (lv_apart h T A Hl); assumption.
  - intros b t c u [[<- <-]|[Hne Hb]]%lookup_insert_Some Hc; apply HT' in Hc as [[Hc Hcp]|[-> Hc]].
    + specialize (Hfree c u Hc Hcp). unfold apart, HDR in *. lia.
    + unfold apart. lia.
    + apply (lv_free h T A Hl); assumption.
    + pose proof (lv_free h T A Hl b t p s Hb Hp). unfold apart, HDR in *. lia.
Qed.

(** Exact fit: the block leaves the list. *)
Lemma take_exact_ok h T A p n prevp :
  heap_ok h T A -> (p, n) ∈ T -> 1 <= n -> prevp ∈ base :: T.*1 -> hptr h prevp = p ->
  let h' := set_freep prevp (set_ptr prevp (hptr h p) h) in
  exists T', heap_ok h' T' (<[p := n]> A) /\ A !! p = None /\ (length T' <= length T)%nat /\ brk h' = brk h.
Proof.
  intros (Hr & Hl & Hf) Hp Hn Hprev Hnext. cbv zeta.
  assert (Hp' : (p, n) ∈ (base, 0) :: T) by (right; exact Hp). pose proof (ok_sizes h T Hr p n Hp') as Es.
  apply list_elem_of_split in Hp as (x & y & E).
  assert (HE : exists X q qs, (base, 0) :: T = X ++ ([(q, qs)] ++ [(p, n)]) ++ y /\ (base, 0) :: x = X ++ [(q, qs)]).
  { destruct (exists_last (l := (base, 0) :: x) ltac:(discriminate)) as (X & [q qs] & EX). exists X, q, qs.
    split; [|exact EX]. rewrite E. change ((base, 0) :: x ++ (p, n) :: y) with (((base, 0) :: x) ++ (p, n) :: y).
    rewrite EX, <- !app_assoc. reflexivity. }
  destruct HE as (X & q & qs & ET & EX).
  assert (Eq : prevp = q).
  { apply (pred_unique (hptr h) base T.*1 X.*1 q prevp p y.*1 (ok_ring h T Hr) (ring_nodup h T Hr)); try assumption.
    change (base :: T.*1) with (((base, 0) :: T).*1). rewrite ET, !fmap_app. reflexivity. }
  subst q. assert (Hq : (prevp, qs) ∈ (base, 0) :: T) by (rewrite ET, !elem_of_app; right; left; left; constructor).
  pose proof (ring_nodup h T Hr) as Hnd. change (base :: T.*1) with (((base, 0) :: T).*1) in Hnd. rewrite ET, !fmap_app in Hnd.
  pose proof (ok_blocks h T Hr) as Hbl. rewrite ET in Hbl. apply blocks_app in Hbl as (m & HbX & Hbl).
  destruct Hbl as (Hm1 & Hm2 & Hm3 & _ & Hby).
  assert (Hoff : forall a, a ∈ X.*1 \/ a ∈ y.*1 -> a <> prevp).
  { intros a Ha ->. apply NoDup_app in Hnd as (_ & Hx & Hnd). destruct Ha as [Ha|Ha]; [apply (Hx prevp Ha); left|].
    apply NoDup_cons in Hnd as [Hnd _]. apply Hnd. right. exact Ha. }
  exists (x ++ y). assert (Hr' : ring_ok (set_freep prevp (set_ptr prevp (hptr h p) h)) (x ++ y)).
  { apply (ring_replace h _ T (x ++ y) X ([(prevp, qs)] ++ [(p, n)]) [(prevp, qs)] y prevp (prevp + HDR * qs));
      [exact Hr | exact ET | | reflexivity | reflexivity | reflexivity | | | | | |].
    - change ((base, 0) :: x ++ y) with (((base, 0) :: x) ++ y). rewrite EX, <- app_assoc. reflexivity.
    - intros a Ha. cbn. rewrite fn_lookup_insert_ne by (apply not_eq_sym, Hoff; exact Ha). auto.
    - cbn. rewrite fn_lookup_insert. split; [|exact I].
      pose proof (ok_ring h T Hr) as Hc. change (base :: T.*1) with (((base, 0) :: T).*1) in Hc.
      rewrite ET, !fmap_app in Hc. apply chain_app in Hc as [_ [_ [Hc _]]]. exact Hc.
    - intros a s Ha. apply list_elem_of_singleton in Ha. injection Ha as -> ->. apply (ok_sizes h T Hr). exact Hq.
    - cbn. lia.
    - eapply blocks_mono; [| reflexivity | exact Hby]. unfold HDR in *. lia.
    - intros a s Ha. apply list_elem_of_singleton in Ha. injection Ha as -> ->. apply (ok_low h T Hr). exact Hq. }
  destruct (take_live h (set_freep prevp (set_ptr prevp (hptr h p) h)) T (x ++ y) A p n p n) as [HA Hl'];
    try assumption; try reflexivity; try lia.
  { rewrite E. apply elem_of_app. right. constructor. }
  { intros b t Hb. left. rewrite E. split; [rewrite elem_of_app in Hb |- *; destruct Hb; [auto | right; right; assumption]|].
    pose proof (ring_nodup h T Hr) as Hnd'. rewrite E in Hnd'. cbn in Hnd'. rewrite fmap_app in Hnd'. cbn in Hnd'.
    intros ->. apply NoDup_cons in Hnd' as [_ Hnd']. apply NoDup_app in Hnd' as (_ & Hx & Hnd').
    apply elem_of_app in Hb as [Hb|Hb]; [apply (Hx p (list_elem_of_fmap_2 fst _ _ Hb)); left|].
    apply NoDup_cons in Hnd' as [Hnd' _]. apply Hnd'. apply (list_elem_of_fmap_2 fst _ _ Hb). }
  split; [|split; [exact HA|]; split; [rewrite E, !length_app; cbn; lia | reflexivity]].
  split; [exact Hr'|]. split; [exact Hl'|]. cbn. change (base :: (x ++ y).*1) with (((base, 0) :: x ++ y).*1).
  replace ((base, 0) :: x ++ y) with (X ++ [(prevp, qs)] ++ y); [rewrite !fmap_app, !elem_of_app; right; left; constructor|].
  change ((base, 0) :: x ++ y) with (((base, 0) :: x) ++ y). rewrite EX, <- app_assoc. reflexivity.
Qed.

(** The tail of a larger block. *)
Lemma take_part_ok h T A p s prevp n :
  heap_ok h T A -> (p, s) ∈ T -> 1 <= n < s -> prevp ∈ base :: T.*1 ->
  let h' := set_freep prevp (set_size (p + HDR * (s - n)) n (set_size p (s - n) h)) in
  exists T', heap_ok h' T' (<[p + HDR * (s - n) := n]> A) /\ A !! (p + HDR * (s - n)) = None /\
    (length T' <= length T)%nat /\ brk h' = brk h.
Proof.
  intros (Hr & Hl & Hf) Hp Hn Hprev. cbv zeta. set (a := p + HDR * (s - n)).
  destruct (ring_low h T p s Hr Hp) as [Hp0 _].
  assert (Hpa : p < a) by (unfold a, HDR; lia).
  apply list_elem_of_split in Hp as (x & y & E).
  pose proof (ring_nodup h T Hr) as Hnd. rewrite E in Hnd. cbn in Hnd. rewrite fmap_app in Hnd. cbn in Hnd.
  apply NoDup_cons in Hnd as [Hnb Hnd]. apply NoDup_app in Hnd as (_ & Hx & Hnd). apply NoDup_cons in Hnd as [Hy _].
  pose proof (ok_blocks h T Hr) as Hbl. rewrite E in Hbl.
  change ((base, 0) :: x ++ (p, s) :: y) with (((base, 0) :: x) ++ (p, s) :: y) in Hbl.
  apply blocks_app in Hbl as (m & HbX & Hm & _ & HbY).
  assert (Hoff : forall c, c ∈ ((base, 0) :: x).*1 \/ c ∈ y.*1 -> c <> p /\ c <> a).
  { intros c [Hc|Hc]; apply list_elem_of_fmap in Hc as ([c' t] & -> & Hc).
    - apply (blocks_in _ _ _ _ _ HbX) in Hc. cbn. unfold HDR in *. lia.
    - apply (blocks_in _ _ _ _ _ HbY) in Hc. unfold a, HDR in *. cbn. lia. }
  set (h' := set_freep prevp (set_size a n (set_size p (s - n) h))).
  assert (Hr' : ring_ok h' (x ++ (p, s - n) :: y)).
  { apply (ring_replace h h' T (x ++ (p, s - n) :: y) ((base, 0) :: x) [(p, s)] [(p, s - n)] y p a);
      [exact Hr | rewrite E; reflexivity | reflexivity | reflexivity | reflexivity | reflexivity | | | | | |].
    - intros c Hc. destruct (Hoff c Hc). unfold h'. cbn. rewrite !fn_lookup_insert_ne by congruence. auto.
    - cbn. split; [|exact I]. pose proof (ok_ring h T Hr) as Hc. rewrite E in Hc. cbn [chain] in Hc.
      rewrite fmap_app in Hc. destruct Hc as [_ Hc]. apply chain_app in Hc as [_ [Hc _]]. exact Hc.
    - intros c t Hc. apply list_elem_of_singleton in Hc. injection Hc as -> ->. unfold h'. cbn.
      rewrite fn_lookup_insert_ne by lia. apply fn_lookup_insert.
    - cbn. unfold a. lia.
    - eapply blocks_mono; [| reflexivity | exact HbY]. unfold a, HDR. lia.
    - intros c t Hc. apply list_elem_of_singleton in Hc. injection Hc as -> ->. right. lia. }
  exists (x ++ (p, s - n) :: y).
  destruct (take_live h h' T (x ++ (p, s - n) :: y) A p s a n) as [HA Hl']; try assumption; try reflexivity; try lia.
  { rewrite E. apply elem_of_app. right. constructor. }
  { intros c Hc. destruct (A !! c) as [t|] eqn:Ec; [|congruence].
    pose proof (lv_free h T A Hl c t p s Ec ltac:(rewrite E; apply elem_of_app; right; constructor)).
    pose proof (lv_block h T A Hl c t Ec). unfold h'. cbn.
    rewrite !fn_lookup_insert_ne; [reflexivity | unfold apart, HDR in *; lia | unfold a, apart, HDR in *; lia]. }
  { unfold h'. cbn. apply fn_lookup_insert. }
  { intros b t Hb. apply elem_of_app in Hb as [Hb|Hb].
    - left. split; [rewrite E; apply elem_of_app; auto|]. apply Hoff. left. right. apply (list_elem_of_fmap_2 fst _ _ Hb).
    - apply elem_of_cons in Hb as [[= -> ->]|Hb]; [right; auto|]. left. split; [rewrite E; apply elem_of_app; right; right; exact Hb|].
      apply Hoff. right. apply (list_elem_of_fmap_2 fst _ _ Hb). }
  split; [|split; [exact HA|]; split; [rewrite E, !length_app; cbn; lia | reflexivity]].
  split; [exact Hr'|]. split; [exact Hl'|]. unfold h'. cbn [freep set_freep]. rewrite E in Hprev. rewrite fmap_app in Hprev |- *. exact Hprev.
Qed.

(** The outcome of [malloc]. *)
Definition malloc_post (h : heap) (A : gmap Z Z) (T : list (Z * Z)) (n r : Z) (h' : heap) : Prop :=
  exists T', (length T' <= length T + 1)%nat /\
    ((r = 0 /\ T' = T /\ h' = h /\ avail (brk h) (HDR * core_units n) = false) \/
     (exists a, r = a + HDR /\ A !! a = None /\ heap_ok h' T' (<[a := n]> A) /\ brk h <= brk h')).

Lemma ring_elem T p : p ∈ base :: T.*1 -> exists s, (p, s) ∈ (base, 0) :: T.
Proof.
  intros Hp. change (base :: T.*1) with (((base, 0) :: T).*1) in Hp.
  apply list_elem_of_fmap in Hp as ([q s] & -> & Hq). exists s. exact Hq.
Qed.

Lemma ring_closed h T p : ring_ok h T -> p ∈ base :: T.*1 -> hptr h p ∈ base :: T.*1.
Proof.
  intros Hr Hp. destruct (ring_next _ _ p (ok_ring h T Hr) (ring_sorted h T Hr) Hp) as [[-> _]|[H _]]; [left | right; exact H].
Qed.

(** A block that is large enough is taken. *)
Lemma malloc_hit fuel h T A prevp p s n :
  heap_ok h T A -> 1 <= n <= s -> (p, s) ∈ (base, 0) :: T -> prevp ∈ base :: T.*1 -> hptr h prevp = p ->
  wp (malloc_step avail fuel n (prevp, p)) (fun r h' => exists a T', r = inr (a + HDR) /\ A !! a = None /\
    heap_ok h' T' (<[a := n]> A) /\ (length T' <= length T)%nat /\ brk h' = brk h) h.
Proof.
  intros Hok Hn Hp Hprev Hnext. pose proof (ok_sizes h T (proj1 Hok) p s Hp) as Es.
  destruct (blocks_in _ _ _ _ _ (ok_blocks h T (proj1 Hok)) Hp) as (Hbp & _ & Hpe). pose proof (ok_brk h T (proj1 Hok)).
  assert (HpT : (p, s) ∈ T) by (apply elem_of_cons in Hp as [[= -> ->]|Hp]; [lia | exact Hp]).
  unfold malloc_step. wp_steps. rewrite Es. replace (s >=? n) with true by lia.
  destruct (Z.eqb_spec s n) as [->|Hne]; wp_steps.
  - destruct (take_exact_ok h T A p n prevp Hok HpT ltac:(lia) Hprev Hnext) as (T' & H1 & H2 & H3 & H4).
    exists p, T'. auto.
  - replace (u32 (s - n)) with (s - n) by (symmetry; apply u32_small; unfold HDR in *; lia).
    destruct (take_part_ok h T A p s prevp n Hok HpT ltac:(lia) Hprev) as (T' & H1 & H2 & H3 & H4).
    exists (p + HDR * (s - n)), T'. auto.
Qed.

(** The search: [k] bounds the rounds that are left.  Before [morecore] the
    walk is [k1] elements away from [freep]; after it, [k] elements away from
    a block that is large enough. *)
Definition scanning (h : heap) (T : list (Z * Z)) (A : gmap Z Z) (n : Z) (k : nat) (l : Z * Z) (h' : heap) : Prop :=
  l.1 ∈ base :: T.*1 /\ hptr h l.1 = l.2 /\ h' = h /\
    (exists k1, (k = k1 + length T + 3)%nat /\ Nat.iter k1 (hptr h) l.2 = freep h) \/
  exists T', heap_ok h' T' A /\ (length T' <= length T + 1)%nat /\ brk h <= brk h' /\
    l.1 ∈ base :: T'.*1 /\ hptr h' l.1 = l.2 /\
    exists c t, (c, t) ∈ T' /\ n <= t /\ Nat.iter k (hptr h') l.2 = c /\
      forall j, (j < k)%nat -> Nat.iter j (hptr h') l.2 <> freep h'.

Lemma malloc_search fuel h T A n k l h' :
  heap_ok h T A -> 1 <= n -> HDR * n < 2 ^ 31 -> (length T + 1 < fuel)%nat -> scanning h T A n k l h' ->
  wp (malloc_step avail fuel n l) (fun r h'' => match r with
    | inl l' => exists k', (k' < k)%nat /\ scanning h T A n k' l' h''
    | inr x => malloc_post h A T n x h'' end) h'.
Proof.
  intros Hok Hn Hmax Hfuel Hinv. destruct l as [prevp p]. unfold scanning in Hinv. cbn [fst snd] in Hinv.
  assert (Hcur : exists T', heap_ok h' T' A /\ (length T' <= length T + 1)%nat /\ brk h <= brk h' /\
    prevp ∈ base :: T'.*1 /\ hptr h' prevp = p).
  { destruct Hinv as [(H1 & H2 & -> & _)|(T' & H1 & H2 & H3 & H4 & H5 & _)]; [exists T; auto with lia | exists T'; auto]. }
  destruct Hcur as (T' & Hok' & Hlen & Hbrk & Hprev & Hnext).
  assert (Hp : p ∈ base :: T'.*1) by (rewrite <- Hnext; apply (ring_closed h' T' prevp (proj1 Hok') Hprev)).
  destruct (ring_elem T' p Hp) as [s Hs]. pose proof (ok_sizes h' T' (proj1 Hok') p s Hs) as Es.
  destruct (Z.le_gt_cases n s) as [Hfit|Hfit].
  { eapply wp_mono; [apply (malloc_hit fuel h' T' A prevp p s n Hok' ltac:(lia) Hs Hprev Hnext)|].
    intros r h'' (a & T'' & -> & HA & Hok'' & Hl'' & Hb''). exists T''. split; [lia|]. right. exists a. auto with lia. }
  unfold malloc_step. wp_steps. rewrite Es. replace (s >=? n) with false by lia.
  clear T' Hok' Hlen Hbrk Hprev Hnext Hp Hs. destruct (Z.eqb_spec p (freep h')) as [Ep|Ep].
  - (* back at [freep]: ask for more memory *)
    destruct Hinv as [(Hprev & Hnext & -> & k1 & -> & Hk1)|(T' & Hok' & Hlen & Hbrk & Hprev & Hnext & c & t & Hc & Ht & Hk & Hj)].
    2:{ exfalso. destruct k as [|k]; [|apply (Hj O); [lia | exact Ep]]. cbn in Hk. subst c.
        pose proof (ok_sizes h' T' (proj1 Hok') p t ltac:(right; exact Hc)). lia. }
    wp_steps. eapply wp_mono; [apply (morecore_wp h T A n fuel Hok Hn Hmax Hfuel)|].
    intros r h'' [(-> & -> & Hav)|(-> & T' & Hok' & Hbrk & Hlen & c & t & Hc & Ht)].
    + apply wp_ret. exists T. split; [lia|]. left. auto.
    + destruct Hok' as (Hr' & Hl' & Hf'). pose proof (ring_elem T' _ Hf') as [sf Hsf].
      apply (blocks_in _ _ _ _ _ (ok_blocks h'' T' Hr')) in Hsf. replace (freep h'' =? 0) with false by lia.
      wp_steps. assert (Hc' : c ∈ base :: T'.*1) by (right; apply (list_elem_of_fmap_2 fst _ _ Hc)).
      destruct (ring_reach _ _ _ (freep h'') c (ok_ring h'' T' Hr') (ring_nodup h'' T' Hr') Hf' Hc') as (k & Hk & Hkc & Hkj).
      cbn [length] in Hk. rewrite length_fmap in Hk. destruct k as [|k]; [lia|]. exists k. split; [lia|].
      right. exists T'. cbn [fst snd]. split; [exact (conj Hr' (conj Hl' Hf'))|]. do 4 (split; [first [lia | assumption | reflexivity]|]).
      exists c, t. split; [exact Hc|]. split; [exact Ht|]. rewrite Nat.iter_succ_r in Hkc. split; [exact Hkc|].
      intros j Hj. rewrite <- Nat.iter_succ_r. apply Hkj. lia.
  - (* one element further *)
    wp_steps. destruct Hinv as [(Hprev & Hnext & -> & k1 & -> & Hk1)|(T' & Hok' & Hlen & Hbrk & Hprev & Hnext & c & t & Hc & Ht & Hk & Hj)].
    + destruct k1 as [|k1]; [cbn in Hk1; congruence|]. exists (k1 + length T + 3)%nat. split; [lia|]. left. cbn [fst snd].
      split; [rewrite <- Hnext; apply (ring_closed h T prevp (proj1 Hok) Hprev)|]. split; [reflexivity|]. split; [reflexivity|].
      exists k1. split; [reflexivity|]. rewrite <- Nat.iter_succ_r. exact Hk1.
    + destruct k as [|k].
      { cbn in Hk. subst c. pose proof (ok_sizes h' T' (proj1 Hok') p t ltac:(right; exact Hc)). lia. }
      exists k. split; [lia|]. right. exists T'. cbn [fst snd]. split; [exact Hok'|]. split; [exact Hlen|]. split; [exact Hbrk|].
      split; [rewrite <- Hnext; apply (ring_closed h' T' prevp (proj1 Hok') Hprev)|]. split; [reflexivity|].
      exists c, t. split; [exact Hc|]. split; [exact Ht|]. rewrite Nat.iter_succ_r in Hk. split; [exact Hk|].
      intros j Hj'. rewrite <- Nat.iter_succ_r. apply Hj. lia.
Qed.

(** Before the first call, or after it. *)
Definition umalloc_ok (h : heap) (T : list (Z * Z)) (A : gmap Z Z) : Prop :=
  heap_ok h T A \/ (freep h = 0 /\ T = [] /\ A = ∅ /\ heap0 <= brk h <= 2 ^ 31).

Definition init_base (h : heap) : heap := set_size base 0 (set_ptr base base (set_freep base h)).

Lemma init_base_ok h : heap0 <= brk h <= 2 ^ 31 -> heap_ok (init_base h) [] ∅.
Proof.
  intros Hb. split; [|split; [|left]]; constructor; cbn -[blocks].
  - split; [apply fn_lookup_insert | exact I].
  - cbn. unfold HDR in *. lia.
  - intros a s Ha. apply list_elem_of_singleton in Ha. auto.
  - intros a s Ha. apply list_elem_of_singleton in Ha. injection Ha as -> ->. apply fn_lookup_insert.
  - exact Hb.
  - intros a s Ha. rewrite lookup_empty in Ha. discriminate.
  - intros a s b t Ha. rewrite lookup_empty in Ha. discriminate.
  - intros a s b t Ha. rewrite lookup_empty in Ha. discriminate.
Qed.

(** The largest request whose size in bytes is a positive [int]. *)
Definition MAXREQ : Z := 2 ^ 31 - 48.

Lemma nunits_of_spec nbytes : 0 <= nbytes <= MAXREQ ->
  1 <= nunits_of nbytes /\ HDR * nunits_of nbytes < 2 ^ 31 /\ HDR + nbytes <= HDR * nunits_of nbytes.
Proof.
  unfold MAXREQ, nunits_of, HDR. intros H. rewrite (u32_small nbytes) by lia.
  rewrite u32_small; zdiv.
Qed.

Lemma malloc_wp h T A nbytes fuel :
  umalloc_ok h T A -> 0 <= nbytes <= MAXREQ -> (2 * length T + 5 < fuel)%nat ->
  wp (malloc base avail fuel nbytes) (fun r h' => exists T', (length T' <= length T + 1)%nat /\
    ((r = 0 /\ umalloc_ok h' T' A /\ brk h' = brk h /\ avail (brk h) (HDR * core_units (nunits_of nbytes)) = false) \/
     (exists a, r = a + HDR /\ A !! a = None /\ umalloc_ok h' T' (<[a := nunits_of nbytes]> A) /\ brk h <= brk h'))) h.
Proof.
  intros Hok Hn Hfuel. destruct (nunits_of_spec nbytes Hn) as (Hn1 & Hn2 & _). unfold malloc. wp_steps.
  assert (Hstart : forall h1, heap_ok h1 T A -> brk h1 = brk h ->
    wp (loop fuel (malloc_step avail fuel (nunits_of nbytes)) (freep h1, hptr h1 (freep h1)))
      (fun r h' => exists T', (length T' <= length T + 1)%nat /\
    ((r = 0 /\ umalloc_ok h' T' A /\ brk h' = brk h /\ avail (brk h) (HDR * core_units (nunits_of nbytes)) = false) \/
     (exists a, r = a + HDR /\ A !! a = None /\ umalloc_ok h' T' (<[a := nunits_of nbytes]> A) /\ brk h <= brk h'))) h1).
  { intros h1 Hok1 Hbrk1. pose proof Hok1 as (Hr1 & _ & Hf1).
    destruct (ring_reach _ _ _ _ _ (ok_ring h1 T Hr1) (ring_nodup h1 T Hr1) Hf1 Hf1) as (k & Hk & Hkf & _).
    cbn [length] in Hk. rewrite length_fmap in Hk. destruct k as [|k]; [lia|]. rewrite Nat.iter_succ_r in Hkf.
    eapply wp_mono; [apply (wp_loop (scanning h1 T A (nunits_of nbytes)) _ (malloc_post h1 A T (nunits_of nbytes))) with (k := (k + length T + 3)%nat)|].
    - intros k' l h' Hi. apply malloc_search; try assumption. lia.
    - left. cbn [fst snd]. split; [exact Hf1|]. split; [reflexivity|]. split; [reflexivity|]. exists k. auto.
    - lia.
    - intros r h' (T' & Hlen & Hres). exists T'. split; [exact Hlen|].
      destruct Hres as [(-> & -> & -> & Hav)|(a & -> & HA & Hok' & Hb)]; rewrite <- Hbrk1.
      + left. split; [reflexivity|]. split; [left; exact Hok1|]. auto.
      + right. exists a. split; [reflexivity|]. split; [exact HA|]. split; [left; exact Hok' | exact Hb]. }
  destruct Hok as [Hok|(Hf & -> & -> & Hb)].
  - assert (Hf : freep h <> 0).
    { destruct (ring_elem T (freep h) (proj2 (proj2 Hok))) as [s Hs].
      apply (blocks_in _ _ _ _ _ (ok_blocks h T (proj1 Hok))) in Hs. lia. }
    replace (freep h =? 0) with false by lia. cbn [when]. wp_steps. apply Hstart; auto.
  - rewrite Hf. cbn [when Z.eqb]. wp_steps. apply (Hstart (init_base h) (init_base_ok h Hb)). reflexivity.
Qed.

Definition tracks (live A : gmap Z Z) : Prop := forall p n, live !! p = Some n ->
  A !! (p - HDR) = Some (nunits_of n) /\ 0 <= n <= MAXREQ.

Definition request_ok (o : op) : Prop := match o with Malloc n => 0 <= n <= MAXREQ | Free _ => True end.

Lemma client_step_wp h T A live o fuel :
  umalloc_ok h T A -> tracks live A -> request_ok o -> (2 * length T + 5 < fuel)%nat ->
  wp (client_step base avail fuel live o) (fun live' h' => exists T' A',
    umalloc_ok h' T' A' /\ tracks live' A' /\ (length T' <= length T + 1)%nat) h.
Proof.
  intros Hok Ht Ho Hfuel. destruct o as [n|p]; cbn [client_step request_ok] in *.
  - wp_steps. eapply wp_mono; [apply (malloc_wp h T A n fuel Hok Ho Hfuel)|].
    intros r h' (T' & Hlen & [(-> & Hok' & _)|(a & -> & HA & Hok' & _)]); apply wp_ret; exists T'.
    + exists A. auto.
    + exists (<[a := nunits_of n]> A). split; [exact Hok'|]. split; [|exact Hlen].
      assert (Ha : heap0 <= a).
      { destruct Hok' as [(_ & Hl & _)|(_ & _ & E & _)].
        - apply (lv_block _ _ _ Hl a (nunits_of n)). apply lookup_insert_eq.
        - apply (f_equal (fun m : gmap Z Z => m !! a)) in E. rewrite lookup_insert_eq, lookup_empty in E. discriminate. }
      replace (a + HDR =? 0) with false by (unfold HDR in *; lia).
      intros q m [[<- <-]|[Hne Hq]]%lookup_insert_Some.
      * replace (a + HDR - HDR) with a by lia. rewrite lookup_insert_eq. auto.
      * destruct (Ht q m Hq) as [Hq1 Hq2]. split; [|exact Hq2]. rewrite lookup_insert_ne; [exact Hq1 | congruence].
  - destruct (live !! p) as [n|] eqn:Hp; [|apply wp_ret; exists T, A; auto with lia].
    destruct (Ht p n Hp) as [HA Hn]. destruct Hok as [Hok|(_ & _ & -> & _)]; [|rewrite lookup_empty in HA; discriminate].
    wp_steps. replace p with (p - HDR + HDR) at 1 by lia.
    eapply wp_mono; [apply (free_live_wp h T A (p - HDR) _ fuel Hok HA ltac:(lia))|].
    intros _ h' (T' & Hok' & _ & Hlen & _). apply wp_ret. exists T', (delete (p - HDR) A).
    split; [left; exact Hok'|]. split; [|exact Hlen]. intros q m [Hne Hq]%lookup_delete_Some.
    rewrite lookup_delete_ne by lia. apply Ht. exact Hq.
Qed.

Lemma client_wp ops h T A live fuel :
  umalloc_ok h T A -> tracks live A -> Forall request_ok ops -> (2 * (length T + length ops) + 5 < fuel)%nat ->
  wp (client base avail fuel live ops) (fun live' h' => exists T' A', umalloc_ok h' T' A' /\ tracks live' A') h.
Proof.
  revert h T A live. induction ops as [|o ops IH]; intros h T A live Hok Ht Ho Hfuel; cbn [client].
  - apply wp_ret. exists T, A. auto.
  - apply Forall_cons in Ho as [Ho Hos]. wp_steps. cbn [length] in Hfuel.
    eapply wp_mono; [apply (client_step_wp h T A live o fuel Hok Ht Ho); lia|].
    intros live' h' (T' & A' & Hok' & Ht' & Hlen). apply (IH h' T' A'); try assumption. lia.
Qed.

End Proofs.


(** A request of 2^31 bytes or more makes [sbrk] see a negative [int]: it
    returns the old break without growing the process, and [malloc] returns
    memory the process does not have, whatever the kernel could give. *)
Theorem malloc_huge avail :
  exists h', malloc 0x2000 avail 3 (2 ^ 31) (Heap (fun _ => 0) (fun _ => 0) 0 0x6000) = Ret 0x6010 h' /\ brk h' = 0x6000.
Proof. eexists. split; [reflexivity|]. reflexivity. Qed.
End Umalloc.
