(* ===== verification/Sh.v ===== *)
(** * The shell: user/sh.c

    The parser works on a line in memory; the parser state is the pointer
    [*ps], [es] the end of the line.  Commands are the trees the constructors
    allocate; strings are pairs of pointers into the line.  Running a command
    is a program over the system calls it makes. *)

From S2P Require Import Prelude Memory FsDefs Printf Ulib.

Module Sh.
Import Printf.

Definition MAXARGS : Z := 10.

(** A counted string [(q, eq)]. *)
Abbreviation span := (Z * Z)%type.

(** Commands over the representation [W] of strings: counted strings in the
    parser, byte lists in its specification. *)
Inductive cmd (W : Type) :=
| EXEC (argv : list W)
| REDIR (c : cmd W) (file : W) (mode fd : Z)
| PIPE (left right : cmd W)
| LIST (left right : cmd W)
| BACK (c : cmd W).
Arguments EXEC {W} argv.
Arguments REDIR {W} c file mode fd.
Arguments PIPE {W} left right.
Arguments LIST {W} left right.
Arguments BACK {W} c.

Definition whitespace : list byte := [x20; x09; x0d; x0a; x0b].
Definition symbols : list byte := str "<|>&;()".

(** [strchr(s, c)] of a constant string: the search stops at the NUL. *)
Definition strchr (l : list byte) (c : byte) : bool := bool_decide (c ∈ l).

(** [parseredirs] wraps the command in the redirections it reads.  In
    [parseexec] the wrapped command is still being filled through the pointer
    [cmd], so the redirections are kept as a list and applied by [redirs]. *)
Abbreviation redir W := (W * Z * Z)%type.
Definition redirs {W} (c : cmd W) (rs : list (redir W)) : cmd W :=
  foldl (fun c '(file, mode, fd) => REDIR c file mode fd) c rs.

Definition redir_of {W} (tok : byte) (file : W) : list (redir W) :=
  if bool_decide (tok = ch "<") then [(file, O_RDONLY, 0)]
  else if bool_decide (tok = ch ">") then [(file, Z.lor (Z.lor O_WRONLY O_CREATE) O_TRUNC, 1)]
  else if bool_decide (tok = ch "+") then [(file, Z.lor O_WRONLY O_CREATE, 1)]
  else [].

Section Parser.
(** The line. *)
Context (m : mem).

Definition setp (s : Z) : M Z unit := fun _ => Ret tt s.

(** [while(s < es && p( *s)) s++;] *)
Fixpoint skip_while (k : nat) (p : byte -> bool) (es s : Z) : Z :=
  match k with
  | O => s
  | S k' => if (s <? es) && p (m s) then skip_while k' p es (s + 1) else s
  end.
Definition skip (p : byte -> bool) (es s : Z) : Z := skip_while (Z.to_nat (es - s)) p es s.

Definition skip_space (es s : Z) : Z := skip (strchr whitespace) es s.

(** Returns the token and its span; the token is the character itself, 'a' for
    a word, '+' for >>, 0 at the end of the line. *)
Definition gettoken (es : Z) : M Z (byte * span) :=
  s ← get;
  let q := skip_space es s in
  let c := m q in
  let '(ret, s) :=
    if bool_decide (c = x00) then (c, q)
    else if bool_decide (c ∈ str "|();&<") then (c, q + 1)
    else if bool_decide (c = ch ">") then
      if bool_decide (m (q + 1) = ch ">") then (ch "+", q + 2) else (c, q + 1)
    else (ch "a", skip (fun c => negb (strchr whitespace c) && negb (strchr symbols c)) es q) in
  setp (skip_space es s);;
  mret (ret, (q, s)).

Definition peek (es : Z) (toks : list byte) : M Z bool :=
  s ← get;
  let s := skip_space es s in
  setp s;;
  mret (negb (bool_decide (m s = x00)) && strchr toks (m s)).

Definition parseredirs_step (es : Z) (rs : list (redir span)) : M Z (list (redir span) + list (redir span)) :=
  more ← peek es (str "<>");
  if negb more then mret (inr rs)
  else
    '(tok, _) ← gettoken es;
    '(a, file) ← gettoken es;
    panic_if (negb (bool_decide (a = ch "a"))) "missing file for redirection";;
    mret (inl (rs ++ redir_of tok file)).

Definition parseredirs (fuel : nat) (es : Z) (rs : list (redir span)) : M Z (list (redir span)) :=
  loop fuel (parseredirs_step es) rs.

(** The argument loop of [parseexec]. *)
Definition parseargs_step (fuel : nat) (es : Z) (l : list span * list (redir span)) :
    M Z (list span * list (redir span) + cmd span) :=
  let '(argv, rs) := l in
  stop ← peek es (str "|)&;");
  if stop : bool then mret (inr (redirs (EXEC argv) rs))
  else
    '(tok, w) ← gettoken es;
    if bool_decide (tok = x00) then mret (inr (redirs (EXEC argv) rs))
    else
      panic_if (negb (bool_decide (tok = ch "a"))) "syntax";;
      let argv := argv ++ [w] in
      panic_if (MAXARGS <=? Z.of_nat (length argv)) "too many args";;
      rs ← parseredirs fuel es rs;
      mret (inl (argv, rs)).

Definition parseargs (fuel : nat) (es : Z) (rs : list (redir span)) : M Z (cmd span) :=
  loop fuel (parseargs_step fuel es) ([], rs).

(** [while(peek(ps, es, "&")){ gettoken(ps, es, 0, 0); cmd = backcmd(cmd); }] *)
Definition parseback_step (es : Z) (c : cmd span) : M Z (cmd span + cmd span) :=
  b ← peek es (str "&");
  if b : bool then gettoken es;; mret (inl (BACK c)) else mret (inr c).
Definition parseback (fuel : nat) (es : Z) (c : cmd span) : M Z (cmd span) :=
  loop fuel (parseback_step es) c.

Fixpoint parseline (fuel : nat) (es : Z) : M Z (cmd span) :=
  match fuel with
  | O => fun _ => OutOfFuel
  | S fuel' =>
      c ← parsepipe fuel' es;
      c ← parseback fuel es c;
      more ← peek es (str ";");
      if more : bool then
        gettoken es;;
        r ← parseline fuel' es;
        mret (LIST c r)
      else mret c
  end
with parsepipe (fuel : nat) (es : Z) : M Z (cmd span) :=
  match fuel with
  | O => fun _ => OutOfFuel
  | S fuel' =>
      c ← parseexec fuel' es;
      more ← peek es (str "|");
      if more : bool then
        gettoken es;;
        r ← parsepipe fuel' es;
        mret (PIPE c r)
      else mret c
  end
with parseexec (fuel : nat) (es : Z) : M Z (cmd span) :=
  match fuel with
  | O => fun _ => OutOfFuel
  | S fuel' =>
      block ← peek es (str "(");
      if block : bool then parseblock fuel' es
      else
        rs ← parseredirs fuel es [];
        parseargs fuel es rs
  end
with parseblock (fuel : nat) (es : Z) : M Z (cmd span) :=
  match fuel with
  | O => fun _ => OutOfFuel
  | S fuel' =>
      open ← peek es (str "(");
      panic_if (negb open) "parseblock";;
      gettoken es;;
      c ← parseline fuel' es;
      close ← peek es (str ")");
      panic_if (negb close) "syntax - missing )";;
      gettoken es;;
      rs ← parseredirs fuel es [];
      mret (redirs c rs)
  end.
End Parser.

(** NUL-terminate all the counted strings. *)
Fixpoint nulterminate (c : cmd span) (m : mem) : mem :=
  match c with
  | EXEC argv => foldl (fun m '(_, eq) => mset m eq x00) m argv
  | REDIR c' (_, efile) _ _ => mset (nulterminate c' m) efile x00
  | PIPE l r => nulterminate r (nulterminate l m)
  | LIST l r => nulterminate r (nulterminate l m)
  | BACK c' => nulterminate c' m
  end.

(** [parsecmd(s)] on the line [m] of length [n]; the command and the line with
    its strings terminated. *)
Definition parsecmd (fuel : nat) (m : mem) (s n : Z) : outcome Z (cmd span * mem) :=
  let es := s + n in
  (c ← parseline m fuel es;
   peek m es [];;
   s ← get;
   panic_if (negb (s =? es)) "syntax";;
   mret (c, nulterminate c m)) s.

(** ** Running a command *)

(** A program over system calls; [Fork] continues with 0 in the child. *)
Inductive prog :=
| Exit (status : Z)
| Close (fd : Z) (k : prog)
| Open (file : span) (mode : Z) (k : Z -> prog)
| Dup (fd : Z) (k : Z -> prog)
| Pipe (k : Z -> Z -> Z -> prog)      (** the result, [p[0]] and [p[1]] *)
| Fork (k : Z -> prog)
| Wait (k : prog)
| Exec (argv : list span) (k : prog)  (** [exec] returns only on failure *)
| Print (fd : Z) (msg : string) (k : prog).

Definition panic (msg : string) : prog := Print 2 msg (Exit 1).

Definition fork1 (k : Z -> prog) : prog :=
  Fork (fun pid => if pid =? -1 then panic "fork" else k pid).

Fixpoint runcmd (c : cmd span) : prog :=
  match c with
  | EXEC argv =>
      match argv with
      | [] => Exit 1
      | _ => Exec argv (Print 2 "exec failed" (Exit 0))
      end
  | REDIR c' file mode fd =>
      Close fd (Open file mode (fun r => if r <? 0 then Print 2 "open failed" (Exit 1) else runcmd c'))
  | LIST l r =>
      fork1 (fun pid => if pid =? 0 then runcmd l else Wait (runcmd r))
  | PIPE l r =>
      Pipe (fun res p0 p1 => if res <? 0 then panic "pipe" else
        fork1 (fun pid => if pid =? 0 then
            Close 1 (Dup p1 (fun _ => Close p0 (Close p1 (runcmd l))))
          else fork1 (fun pid => if pid =? 0 then
              Close 0 (Dup p0 (fun _ => Close p0 (Close p1 (runcmd r))))
            else Close p0 (Close p1 (Wait (Wait (Exit 0)))))))
  | BACK c' => fork1 (fun pid => if pid =? 0 then runcmd c' else Exit 0)
  end.

(** ** What a program launches *)

(** Open files as a descriptor table sees them. *)
Inductive file_obj := Console | File (name : span) (mode : Z) | ReadEnd (id : nat) | WriteEnd (id : nat).

Abbreviation fdtab := (gmap Z file_obj).

(** The lowest free descriptor (kernel/sysfile.c, [fdalloc]). *)
Fixpoint fdalloc_from (k : nat) (fd : Z) (t : fdtab) : option Z :=
  match k with
  | O => None
  | S k' => match t !! fd with None => Some fd | Some _ => fdalloc_from k' (fd + 1) t end
  end.
Definition fdalloc (t : fdtab) : option Z := fdalloc_from (Z.to_nat NOFILE) 0 t.

(** The commands a program executes, with the descriptor table each of them
    starts with, when no system call fails for lack of a resource; [next]
    numbers the pipes. *)
Fixpoint launch (p : prog) (t : fdtab) (next : nat) : list (fdtab * list span) * nat :=
  match p with
  | Exit _ => ([], next)
  | Close fd k => launch k (delete fd t) next
  | Open file mode k =>
      match fdalloc t with
      | Some fd => launch (k fd) (<[fd := File file mode]> t) next
      | None => launch (k (-1)) t next
      end
  | Dup fd k =>
      match t !! fd, fdalloc t with
      | Some f, Some fd' => launch (k fd') (<[fd' := f]> t) next
      | _, _ => launch (k (-1)) t next
      end
  | Pipe k =>
      match fdalloc t with
      | Some p0 =>
          let t0 := <[p0 := ReadEnd next]> t in
          match fdalloc t0 with
          | Some p1 => launch (k 0 p0 p1) (<[p1 := WriteEnd next]> t0) (S next)
          | None => launch (k (-1) 0 0) t next
          end
      | None => launch (k (-1) 0 0) t next
      end
  | Fork k =>
      let '(child, next) := launch (k 0) t next in
      let '(parent, next) := launch (k 1) t next in
      (child ++ parent, next)
  | Wait k => launch k t next
  | Exec argv k => ([(t, argv)], next)
  | Print _ _ k => launch k t next
  end.

(** What the syntax means: a pipe connects the standard output of its left
    side to the standard input of its right side, a redirection replaces one
    descriptor, and nothing else changes. *)
Fixpoint wire (c : cmd span) (t : fdtab) (next : nat) : list (fdtab * list span) * nat :=
  match c with
  | EXEC argv => (match argv with [] => [] | _ => [(t, argv)] end, next)
  | REDIR c' file mode fd => wire c' (<[fd := File file mode]> t) next
  | LIST l r =>
      let '(a, next) := wire l t next in let '(b, next) := wire r t next in (a ++ b, next)
  | PIPE l r =>
      let '(a, next') := wire l (<[1 := WriteEnd next]> t) (S next) in
      let '(b, next') := wire r (<[0 := ReadEnd next]> t) next' in (a ++ b, next')
  | BACK c' => wire c' t next
  end.

Lemma fdalloc_from_spec k fd t f : fdalloc_from k fd t = Some f ->
  fd <= f < fd + Z.of_nat k /\ t !! f = None /\ forall g, fd <= g < f -> t !! g <> None.
Proof.
  revert fd. induction k as [|k IH]; intros fd H; cbn in H; [discriminate|]. destruct (t !! fd) as [o|] eqn:E.
  - apply IH in H as (H1 & H2 & H3). split; [lia|]. split; [exact H2|]. intros g Hg.
    destruct (decide (g = fd)) as [->|]; [congruence | apply H3; lia].
  - injection H as <-. split; [lia|]. split; [exact E | lia].
Qed.

Lemma fdalloc_from_lowest k fd t f : fd <= f < fd + Z.of_nat k -> t !! f = None ->
  (forall g, fd <= g < f -> t !! g <> None) -> fdalloc_from k fd t = Some f.
Proof.
  revert fd. induction k as [|k IH]; intros fd Hf Hn Hl; cbn; [lia|].
  destruct (decide (f = fd)) as [->|Hne]; [rewrite Hn; reflexivity|].
  destruct (t !! fd) eqn:E; [apply IH; [lia | exact Hn | intros g Hg; apply Hl; lia]|].
  exfalso. apply (Hl fd); [lia | exact E].
Qed.

Lemma fdalloc_some k fd t f : fd <= f < fd + Z.of_nat k -> t !! f = None -> exists g, fdalloc_from k fd t = Some g /\ g <= f.
Proof.
  revert fd. induction k as [|k IH]; intros fd Hf Hn; cbn; [lia|]. destruct (t !! fd) eqn:E.
  - apply IH; [|exact Hn]. destruct (decide (f = fd)); [congruence | lia].
  - exists fd. split; [reflexivity | lia].
Qed.

(** A table with the standard descriptors open and room for a pipe. *)
Definition std_open (t : fdtab) : Prop :=
  t !! 0 <> None /\ t !! 1 <> None /\ t !! 2 <> None /\
  exists f g, 0 <= f < NOFILE /\ 0 <= g < NOFILE /\ f <> g /\ t !! f = None /\ t !! g = None.

Lemma std_open_insert t fd o : std_open t -> 0 <= fd <= 1 -> std_open (<[fd := o]> t).
Proof.
  intros (H0 & H1 & H2 & f & g & Hf & Hg & Hne & Hnf & Hng) Hfd.
  assert (fd <> f) by (intros ->; assert (f = 0 \/ f = 1) as [-> | ->] by lia; congruence).
  assert (fd <> g) by (intros ->; assert (g = 0 \/ g = 1) as [-> | ->] by lia; congruence).
  assert (Hkeep : forall x, t !! x <> None -> <[fd := o]> t !! x <> None).
  { intros x Hx. rewrite lookup_insert. case_decide; [discriminate | exact Hx]. }
  split; [apply Hkeep, H0|]. split; [apply Hkeep, H1|]. split; [apply Hkeep, H2|].
  exists f, g. rewrite !lookup_insert_ne by congruence. auto.
Qed.

(** Closing a standard descriptor and opening something puts it there. *)
Lemma fdalloc_closed t fd : std_open t -> 0 <= fd <= 1 -> fdalloc (delete fd t) = Some fd.
Proof.
  intros (H0 & H1 & _) Hfd. apply fdalloc_from_lowest; [unfold NOFILE; lia | apply lookup_delete_eq |].
  intros g Hg. assert (g = 0 /\ fd = 1) as [-> ->] by lia. rewrite lookup_delete_ne by lia. exact H0.
Qed.

(** [pipe] takes two free descriptors above the standard ones. *)
Lemma pipe_alloc t o : std_open t -> exists p0 p1, fdalloc t = Some p0 /\ fdalloc (<[p0 := o]> t) = Some p1 /\
  2 < p0 /\ 2 < p1 /\ p0 <> p1 /\ t !! p0 = None /\ t !! p1 = None.
Proof.
  intros (H0 & H1 & H2 & f & g & Hf & Hg & Hne & Hnf & Hng).
  destruct (fdalloc_some (Z.to_nat NOFILE) 0 t f) as (p0 & Hp0 & _); [lia | exact Hnf|].
  pose proof (fdalloc_from_spec _ _ _ _ Hp0) as (Hr0 & Hn0 & _).
  assert (Hfree : exists x, 0 <= x < NOFILE /\ <[p0 := o]> t !! x = None).
  { destruct (decide (p0 = f)) as [->|]; [exists g | exists f]; rewrite lookup_insert_ne by congruence; auto. }
  destruct Hfree as (x & Hx & Hnx). destruct (fdalloc_some (Z.to_nat NOFILE) 0 (<[p0 := o]> t) x) as (p1 & Hp1 & _); [lia | exact Hnx|].
  pose proof (fdalloc_from_spec _ _ _ _ Hp1) as (Hr1 & Hn1 & _). apply lookup_insert_None in Hn1 as [Hn1 Hne1].
  assert (Hstd : forall p, 0 <= p -> t !! p = None -> 2 < p).
  { intros p Hp Hn. destruct (decide (p = 0)) as [->|]; [congruence|]. destruct (decide (p = 1)) as [->|]; [congruence|].
    destruct (decide (p = 2)) as [->|]; [congruence|]. lia. }
  exists p0, p1. repeat (split; [first [assumption | apply Hstd; [lia | assumption]]|]). assumption.
Qed.

(** Redirections of the parser are of descriptors 0 and 1. *)
Fixpoint redirs_std (c : cmd span) : Prop :=
  match c with
  | EXEC _ => True
  | REDIR c' _ _ fd => 0 <= fd <= 1 /\ redirs_std c'
  | PIPE l r | LIST l r => redirs_std l /\ redirs_std r
  | BACK c' => redirs_std c'
  end.

(** The child of a pipe that moves one end to descriptor [fd]. *)
Lemma plug t p0 p1 a b fd o : std_open t -> 0 <= fd <= 1 -> 2 < p0 -> 2 < p1 -> p0 <> p1 -> t !! p0 = None -> t !! p1 = None ->
  let u := <[p1 := b]> (<[p0 := a]> t) in
  u !! (if fd =? 1 then p1 else p0) = Some o ->
  fdalloc (delete fd u) = Some fd /\ delete fd u !! (if fd =? 1 then p1 else p0) = Some o /\
  delete p1 (delete p0 (<[fd := o]> (delete fd u))) = <[fd := o]> t.
Proof.
  intros Hs Hfd H0 H1 Hne Hn0 Hn1 u Ho. split; [|split].
  - apply fdalloc_from_lowest; [unfold NOFILE; lia | apply lookup_delete_eq |]. intros g Hg. assert (g = 0 /\ fd = 1) as [-> ->] by lia.
    unfold u. rewrite lookup_delete_ne, !lookup_insert_ne by lia. apply Hs.
  - rewrite lookup_delete_ne; [exact Ho|]. destruct (fd =? 1); lia.
  - apply map_eq. intros i. unfold u. rewrite !lookup_delete, !lookup_insert, !lookup_delete, !lookup_insert.
    repeat case_decide; subst; try lia; congruence.
Qed.

Lemma launch_runcmd c : forall t next, std_open t -> redirs_std c -> launch (runcmd c) t next = wire c t next.
Proof.
  induction c as [argv|c IH file mode fd|l IHl r IHr|l IHl r IHr|c IH]; intros t next Hs Hc; cbn [runcmd wire redirs_std] in *.
  - destruct argv; reflexivity.
  - destruct Hc as [Hfd Hc]. cbn [launch]. rewrite fdalloc_closed by assumption.
    replace (fd <? 0) with false by lia. rewrite IH; [|rewrite insert_delete_eq; apply std_open_insert; assumption | exact Hc].
    rewrite insert_delete_eq. reflexivity.
  - destruct Hc as [Hl Hr]. cbn [launch]. destruct (pipe_alloc t (ReadEnd next) Hs) as (p0 & p1 & -> & -> & H0 & H1 & Hne & Hn0 & Hn1).
    cbn [Z.ltb Z.compare launch fork1 Z.eqb].
    destruct (plug t p0 p1 (ReadEnd next) (WriteEnd next) 1 (WriteEnd next) Hs ltac:(lia) H0 H1 Hne Hn0 Hn1) as (E1 & E2 & E3);
      [apply lookup_insert_eq|].
    cbn [Z.eqb Pos.eqb] in E2. rewrite E2, E1, E3. clear E1 E2 E3. rewrite IHl; [|apply std_open_insert; [exact Hs | lia] | exact Hl].
    destruct (wire l _ _) as [a next']. cbn [launch].
    destruct (plug t p0 p1 (ReadEnd next) (WriteEnd next) 0 (ReadEnd next) Hs ltac:(lia) H0 H1 Hne Hn0 Hn1) as (E1 & E2 & E3);
      [cbn [Z.eqb]; rewrite lookup_insert_ne by congruence; apply lookup_insert_eq|].
    cbn [Z.eqb] in E2. rewrite E2, E1, E3. rewrite IHr; [|apply std_open_insert; [exact Hs | lia] | exact Hr].
    destruct (wire r _ _) as [b next'']. rewrite app_nil_r. reflexivity.
  - destruct Hc as [Hl Hr]. cbn [launch fork1 Z.eqb]. rewrite IHl by assumption. destruct (wire l t next) as [a next'].
    cbn [launch]. rewrite IHr by assumption. reflexivity.
  - cbn [launch fork1 Z.eqb]. rewrite IH by assumption. destruct (wire c t next) as [a next']. cbn. rewrite app_nil_r. reflexivity.
Qed.

(** C18: [runcmd] plumbs its command as the syntax says: each program is
    executed with the descriptors of the shell in which a redirection replaced
    just its descriptor and a pipe just the standard output on its left and
    the standard input on its right; no process keeps another end of a pipe
    open. *)
Theorem runcmd_plumbing c t next :
  std_open t -> redirs_std c -> launch (runcmd c) t next = wire c t next.
Proof. apply launch_runcmd. Qed.

Definition console_fds : fdtab := {[0 := Console; 1 := Console; 2 := Console]}.

Lemma runcmd_plumbing_witness :
  let c := PIPE (REDIR (EXEC [(0, 2)]) (3, 4) O_RDONLY 0) (PIPE (EXEC [(5, 7)]) (EXEC [(8, 9)])) in
  launch (runcmd c) console_fds 0 = wire c console_fds 0 /\
  (launch (runcmd c) console_fds 0).1 =
    [(<[0 := File (3, 4) O_RDONLY]> (<[1 := WriteEnd 0]> console_fds), [(0, 2)]);
     (<[1 := WriteEnd 1]> (<[0 := ReadEnd 0]> console_fds), [(5, 7)]);
     (<[0 := ReadEnd 1]> (<[0 := ReadEnd 0]> console_fds), [(8, 9)])].
Proof.
  cbv zeta. rewrite runcmd_plumbing; [split; reflexivity | | cbn; lia].
  split; [discriminate|]. split; [discriminate|]. split; [discriminate|]. exists 3, 4. unfold NOFILE. repeat split; lia.
Defined.
End Sh.
