(* ===== verification/ShParse.v ===== *)
(** * The parser of the shell inverts its grammar

    A grammar of command lines, their token sequences, and every way to write
    those in bytes: the parser of [Sh] returns the tree the grammar means, and
    [nulterminate] leaves each of its strings as a C string. *)

From S2P Require Import Prelude Memory FsDefs Printf Ulib Sh.

Module ShParse.
Import Printf Ulib Sh.

(** ** Tokens *)

Definition is_ws (c : byte) : Prop := c ∈ whitespace.
Definition word_char (c : byte) : bool :=
  negb (bool_decide (c = x00)) && negb (strchr whitespace c) && negb (strchr symbols c).

Inductive tok := TSym (c : byte) | TApp | TWord (w : list byte).

Definition tok_bytes (t : tok) : list byte :=
  match t with TSym c => [c] | TApp => str ">>" | TWord w => w end.

Definition tok_ok (t : tok) : Prop :=
  match t with
  | TSym c => c ∈ symbols
  | TApp => True
  | TWord w => w <> [] /\ Forall (fun c => word_char c = true) w
  end.

(** What may follow a token without changing it. *)
Definition follows (t : tok) (b : list byte) : Prop :=
  match t, b with
  | TWord _, c :: _ => strchr whitespace c || strchr symbols c = true
  | TSym c, d :: _ => c = ch ">" -> d <> ch ">"
  | _, _ => True
  end.

(** The bytes [b] are a way to write the tokens [ts]. *)
Inductive lexed : list byte -> list tok -> Prop :=
| lexed_nil ws : Forall is_ws ws -> lexed ws []
| lexed_cons ws t b ts : Forall is_ws ws -> tok_ok t -> follows t b -> lexed b ts ->
    lexed (ws ++ tok_bytes t ++ b) (t :: ts).

Definition tok_code (t : tok) : byte :=
  match t with TSym c => c | TApp => ch "+" | TWord _ => ch "a" end.
Definition tok_head (t : tok) : byte := hd x00 (tok_bytes t).

(** ** The grammar *)

Inductive rkind := RIn | ROut | RApp.
Abbreviation word := (list byte).
(** Arguments, each followed by redirections. *)
Abbreviation arg := (word * list (rkind * word))%type.

Inductive line := LEnd (p : pipe) (nb : nat) | LSeq (p : pipe) (nb : nat) (l : line)
with pipe := PEnd (e : exec) | PPipe (e : exec) (p : pipe)
with exec := Block (l : line) (rs : list (rkind * word)) | Simple (rs : list (rkind * word)) (args : list arg).

Scheme line_mind := Induction for line Sort Prop
with pipe_mind := Induction for pipe Sort Prop
with exec_mind := Induction for exec Sort Prop.
Combined Scheme grammar_ind from line_mind, pipe_mind, exec_mind.

(** Its tokens. *)
Definition rtok (k : rkind) : tok := match k with RIn => TSym (ch "<") | ROut => TSym (ch ">") | RApp => TApp end.
Definition rd_toks (r : rkind * word) : list tok := [rtok r.1; TWord r.2].
Definition rds_toks (rs : list (rkind * word)) : list tok := concat (rd_toks <$> rs).
Definition arg_toks (a : arg) : list tok := TWord a.1 :: rds_toks a.2.
Definition args_toks (args : list arg) : list tok := concat (arg_toks <$> args).

Fixpoint line_toks (l : line) : list tok :=
  match l with
  | LEnd p nb => pipe_toks p ++ repeat (TSym (ch "&")) nb
  | LSeq p nb l' => pipe_toks p ++ repeat (TSym (ch "&")) nb ++ TSym (ch ";") :: line_toks l'
  end
with pipe_toks (p : pipe) : list tok :=
  match p with
  | PEnd e => exec_toks e
  | PPipe e p' => exec_toks e ++ TSym (ch "|") :: pipe_toks p'
  end
with exec_toks (e : exec) : list tok :=
  match e with
  | Block l rs => TSym (ch "(") :: line_toks l ++ TSym (ch ")") :: rds_toks rs
  | Simple rs args => rds_toks rs ++ args_toks args
  end.

(** Its meaning: < reads, > truncates, >> does not. *)
Definition rd_mean (r : rkind * word) : redir word :=
  match r.1 with
  | RIn => (r.2, O_RDONLY, 0)
  | ROut => (r.2, Z.lor (Z.lor O_WRONLY O_CREATE) O_TRUNC, 1)
  | RApp => (r.2, Z.lor O_WRONLY O_CREATE, 1)
  end.

Fixpoint line_mean (l : line) : cmd word :=
  match l with
  | LEnd p nb => Nat.iter nb BACK (pipe_mean p)
  | LSeq p nb l' => LIST (Nat.iter nb BACK (pipe_mean p)) (line_mean l')
  end
with pipe_mean (p : pipe) : cmd word :=
  match p with
  | PEnd e => exec_mean e
  | PPipe e p' => PIPE (exec_mean e) (pipe_mean p')
  end
with exec_mean (e : exec) : cmd word :=
  match e with
  | Block l rs => redirs (line_mean l) (rd_mean <$> rs)
  | Simple rs args => redirs (EXEC args.*1) (rd_mean <$> (rs ++ concat args.*2))
  end.

(** Commands have fewer than MAXARGS arguments. *)
Fixpoint line_ok (l : line) : Prop :=
  match l with
  | LEnd p _ => pipe_ok p
  | LSeq p _ l' => pipe_ok p /\ line_ok l'
  end
with pipe_ok (p : pipe) : Prop :=
  match p with PEnd e => exec_ok e | PPipe e p' => exec_ok e /\ pipe_ok p' end
with exec_ok (e : exec) : Prop :=
  match e with Block l _ => line_ok l | Simple _ args => Z.of_nat (length args) < MAXARGS end.

(** ** The scanner *)

Section Scan.
Context (m : mem) (es : Z) (es_nul : m es = x00).

Definition rest (s : Z) : list byte := bytes_at m s (Z.to_nat (es - s)).

Lemma rest_cons s : s < es -> rest s = m s :: rest (s + 1).
Proof.
  intros H. unfold rest. replace (Z.to_nat (es - s)) with (1 + Z.to_nat (es - (s + 1)))%nat by lia.
  rewrite bytes_at_app. cbn. rewrite Z.add_0_r. reflexivity.
Qed.

Lemma rest_end s : es <= s -> rest s = [].
Proof. intros H. unfold rest. replace (Z.to_nat (es - s)) with 0%nat by lia. reflexivity. Qed.

Lemma rest_app s l l' : rest s = l ++ l' -> s <= es -> rest (s + Z.of_nat (length l)) = l' /\ s + Z.of_nat (length l) <= es.
Proof.
  revert s. induction l as [|c l IH]; intros s E Hs; cbn [length].
  - rewrite Z.add_0_r. auto.
  - destruct (Z.lt_ge_cases s es) as [Hlt|Hge]; [|rewrite rest_end in E by lia; discriminate].
    rewrite rest_cons in E by exact Hlt. injection E as _ E.
    replace (s + Z.of_nat (S (length l))) with (s + 1 + Z.of_nat (length l)) by lia. apply IH; [exact E | lia].
Qed.

Lemma rest_head s : s <= es -> m s = hd x00 (rest s).
Proof.
  intros H. destruct (Z.eq_dec s es) as [->|Hne]; [rewrite rest_end by lia; exact es_nul|].
  rewrite rest_cons by lia. reflexivity.
Qed.

Lemma rest_bytes s l l' : rest s = l ++ l' -> s <= es -> bytes_at m s (length l) = l.
Proof.
  intros E Hs. assert (Hl : (length l <= Z.to_nat (es - s))%nat).
  { apply (f_equal length) in E. unfold rest in E. rewrite length_app, length_bytes_at in E. lia. }
  unfold rest in E. replace (Z.to_nat (es - s)) with (length l + (Z.to_nat (es - s) - length l))%nat in E by lia.
  rewrite bytes_at_app in E. apply app_inj_1 in E as [E _]; [exact E | apply length_bytes_at].
Qed.

Lemma skip_spec p s l l' : rest s = l ++ l' -> s <= es -> Forall (fun c => p c = true) l ->
  match l' with [] => True | c :: _ => p c = false end -> skip m p es s = s + Z.of_nat (length l).
Proof.
  unfold skip. intros E Hs Hl Hl'.
  assert (Hk : (length l <= Z.to_nat (es - s))%nat).
  { apply (f_equal length) in E. unfold rest in E. rewrite length_app, length_bytes_at in E. lia. }
  remember (Z.to_nat (es - s)) as k eqn:Ek. clear Ek. revert k s E Hs Hk.
  induction l as [|c l IH]; intros k s E Hs Hk; cbn [length] in *.
  - rewrite Z.add_0_r. destruct k as [|k]; [reflexivity|]. cbn [skip_while]. destruct (Z.ltb_spec s es) as [Hlt|]; [|reflexivity].
    rewrite rest_cons in E by exact Hlt. cbn in E. subst l'. rewrite Hl'. reflexivity.
  - destruct k as [|k]; [lia|]. destruct (Z.lt_ge_cases s es) as [Hlt|Hge]; [|rewrite rest_end in E by lia; discriminate].
    rewrite rest_cons in E by exact Hlt. injection E as Ec E. apply Forall_cons in Hl as [Hc Hl].
    cbn [skip_while]. replace (s <? es) with true by lia. rewrite Ec, Hc. cbn [andb].
    rewrite (IH Hl k (s + 1) E); lia.
Qed.

Lemma is_ws_strchr c : is_ws c <-> strchr whitespace c = true.
Proof. unfold is_ws, strchr. rewrite bool_decide_eq_true. reflexivity. Qed.

Lemma ws_skip l : Forall is_ws l -> Forall (fun c => strchr whitespace c = true) l.
Proof. intros H. eapply Forall_impl; [exact H|]. intros c. apply is_ws_strchr. Qed.

Lemma sym_not_ws c : c ∈ symbols -> strchr whitespace c = false.
Proof.
  intros H. repeat (apply elem_of_cons in H as [->|H]; [reflexivity|]). apply elem_of_nil in H. contradiction.
Qed.

Lemma tok_head_not_ws t : tok_ok t -> strchr whitespace (tok_head t) = false.
Proof.
  destruct t as [c| |w]; cbn [tok_ok tok_head]; intros Hok.
  - apply sym_not_ws. exact Hok.
  - reflexivity.
  - destruct Hok as [Hne Hw]. destruct w as [|c w]; [congruence|]. apply Forall_cons in Hw as [Hc _].
    unfold word_char in Hc. cbn. destruct (strchr whitespace c); [|reflexivity]. cbn in Hc. rewrite andb_false_r in Hc. discriminate.
Qed.

Lemma tok_bytes_cons t : tok_ok t -> exists l, tok_bytes t = tok_head t :: l.
Proof.
  destruct t as [c| |w]; cbn; intros Hok; [eexists; reflexivity.. |]. destruct Hok as [Hne _]. destruct w; [congruence|].
  eexists. reflexivity.
Qed.

(** Skipping white space leads to the first token or to the end. *)
Lemma skip_space_spec s ts : s <= es -> lexed (rest s) ts ->
  let q := skip_space m es s in
  s <= q <= es /\ match ts with
  | [] => q = es
  | t :: ts' => tok_ok t /\ exists b, rest q = tok_bytes t ++ b /\ follows t b /\ lexed b ts'
  end.
Proof.
  intros Hs Hlex q. inversion Hlex as [ws Hws E1 E2 | ws t b ts' Hws Hok Hfol Hb E1 E2]; subst.
  - assert (Eq : q = s + Z.of_nat (length (rest s))).
    { apply (skip_spec _ s (rest s) []); [rewrite app_nil_r; reflexivity | exact Hs | apply ws_skip; exact Hws | exact I]. }
    unfold rest in Eq. rewrite length_bytes_at in Eq. split; lia.
  - symmetry in E1. assert (Eq : q = s + Z.of_nat (length ws)).
    { apply (skip_spec _ s ws (tok_bytes t ++ b) E1 Hs (ws_skip _ Hws)).
      destruct (tok_bytes_cons t Hok) as [l El]. rewrite El. apply tok_head_not_ws. exact Hok. }
    destruct (rest_app s _ _ E1 Hs) as [Er Hle]. rewrite <- Eq in Er, Hle. split; [lia|]. split; [exact Hok|].
    exists b. auto.
Qed.

Lemma lexed_skip s ts : s <= es -> lexed (rest s) ts ->
  lexed (rest (skip_space m es s)) ts /\ s <= skip_space m es s <= es.
Proof.
  intros Hs Hlex. destruct (skip_space_spec s ts Hs Hlex) as [Hq Hts]. split; [|exact Hq]. destruct ts as [|t ts].
  - rewrite Hts, rest_end by lia. apply lexed_nil. apply Forall_nil_2.
  - destruct Hts as (Hok & b & -> & Hf & Hb). apply (lexed_cons [] t b ts); [apply Forall_nil_2 | assumption..].
Qed.

(** A state of the parser: the tokens [ts] are ahead. *)
Definition ahead (ts : list tok) (s : Z) : Prop := s <= es /\ lexed (rest s) ts.

(** A counted string is the word [w], followed by no word character. *)
Definition spells (sp : span) (w : list byte) : Prop :=
  sp.2 = sp.1 + Z.of_nat (length w) /\ bytes_at m sp.1 (length w) = w /\
  Forall (fun c => word_char c = true) w /\ word_char (m sp.2) = false.

(** The first token starts with one of [toks]. *)
Definition starts (toks : list byte) (ts : list tok) : bool :=
  match ts with [] => false | t :: _ => negb (bool_decide (tok_head t = x00)) && strchr toks (tok_head t) end.

Lemma peek_wp toks ts s : ahead ts s ->
  wp (peek m es toks) (fun b s' => ahead ts s' /\ b = starts toks ts) s.
Proof.
  intros [Hs Hlex]. unfold peek. wp_steps. unfold setp, wp. destruct (lexed_skip s ts Hs Hlex) as [Hl Hq].
  split; [split; [lia | exact Hl]|]. destruct (skip_space_spec s ts Hs Hlex) as [_ Hts].
  rewrite rest_head by lia. destruct ts as [|t ts].
  - rewrite Hts, rest_end by lia. reflexivity.
  - destruct Hts as (Hok & b & -> & _). destruct (tok_bytes_cons t Hok) as [l ->]. reflexivity.
Qed.

Lemma word_char_false_nul : word_char x00 = false.
Proof. reflexivity. Qed.

Lemma word_char_inv c : word_char c = true -> c <> x00 /\ strchr whitespace c = false /\ strchr symbols c = false.
Proof.
  unfold word_char. rewrite !andb_true_iff, !negb_true_iff, bool_decide_eq_false. tauto.
Qed.

Lemma sym_cases c : c ∈ symbols -> c = ch ">" \/ (c <> x00 /\ c ∈ str "|();&<").
Proof.
  intros H. repeat (apply elem_of_cons in H as [->|H];
    [first [left; reflexivity | right; split; [discriminate | apply (bool_decide_unpack _); reflexivity]]|]).
  apply elem_of_nil in H. contradiction.
Qed.

(** The token at [q]: its code and the end of its bytes. *)
Lemma scan_token t b q : q <= es -> tok_ok t -> rest q = tok_bytes t ++ b -> follows t b ->
  (if bool_decide (m q = x00) then (m q, q)
   else if bool_decide (m q ∈ str "|();&<") then (m q, q + 1)
   else if bool_decide (m q = ch ">") then
     if bool_decide (m (q + 1) = ch ">") then (ch "+", q + 2) else (m q, q + 1)
   else (ch "a", skip m (fun c => negb (strchr whitespace c) && negb (strchr symbols c)) es q)) =
  (tok_code t, q + Z.of_nat (length (tok_bytes t))).
Proof.
  intros Hq Hok E Hfol. pose proof (rest_head q Hq) as Hm. rewrite E in Hm.
  destruct t as [c| |w]; cbn [tok_bytes tok_code tok_ok follows] in *.
  - cbn in Hm. rewrite Hm. destruct (sym_cases c Hok) as [->|[Hc Hin]].
    + destruct (rest_app q [ch ">"] b E Hq) as [Er Hle]. cbn [length] in Er, Hle. change (Z.of_nat 1) with 1 in Er, Hle.
      assert (Hn : m (q + 1) <> ch ">").
      { rewrite (rest_head (q + 1)) by lia. rewrite Er. destruct b as [|d b]; [discriminate | apply Hfol; reflexivity]. }
      rewrite (bool_decide_false (m (q + 1) = ch ">")) by exact Hn. reflexivity.
    + rewrite (bool_decide_false (c = x00)) by exact Hc. rewrite (bool_decide_true (c ∈ _)) by exact Hin. reflexivity.
  - cbn in Hm. rewrite Hm. assert (Hm1 : m (q + 1) = ch ">").
    { destruct (rest_app q [ch ">"] (ch ">" :: b) E Hq) as [Er Hle]. cbn [length] in Er, Hle. change (Z.of_nat 1) with 1 in Er, Hle.
      rewrite (rest_head (q + 1)) by lia. rewrite Er. reflexivity. }
    rewrite Hm1. reflexivity.
  - destruct Hok as [Hne Hw]. destruct w as [|c w]; [congruence|]. cbn in Hm. rewrite Hm.
    pose proof Hw as Hw'. apply Forall_cons in Hw' as [Hc _]. destruct (word_char_inv c Hc) as (H0 & H1 & H2).
    rewrite (bool_decide_false (c = x00)) by exact H0.
    assert (Hns : c ∉ symbols) by (unfold strchr in H2; apply bool_decide_eq_false in H2; exact H2).
    rewrite (bool_decide_false (c ∈ _)); [rewrite (bool_decide_false (c = ch ">"))|].
    + f_equal. apply (skip_spec _ q (c :: w) b E Hq).
      * eapply Forall_impl; [exact Hw|]. intros d Hd. destruct (word_char_inv d Hd) as (_ & -> & ->). reflexivity.
      * destruct b as [|d b]; [exact I|]. apply orb_true_iff in Hfol as [-> | ->]; [reflexivity | apply andb_false_r].
    + intros ->. apply Hns. apply (bool_decide_unpack _). reflexivity.
    + intros Hin. apply Hns. repeat (apply elem_of_cons in Hin as [->|Hin]; [apply (bool_decide_unpack _); reflexivity|]).
      apply elem_of_nil in Hin. contradiction.
Qed.

Lemma gettoken_wp t ts s : ahead (t :: ts) s ->
  wp (gettoken m es) (fun r s' => ahead ts s' /\ r.1 = tok_code t /\ forall w, t = TWord w -> spells r.2 w) s.
Proof.
  intros [Hs Hlex]. unfold gettoken. wp_steps.
  destruct (skip_space_spec s (t :: ts) Hs Hlex) as [Hq (Hok & b & Er & Hfol & Hb)]. set (q := skip_space m es s) in *.
  rewrite (scan_token t b q) by (first [assumption | lia]).
  destruct (rest_app q _ _ Er ltac:(lia)) as [Er' Hle]. set (e := q + Z.of_nat (length (tok_bytes t))) in *.
  wp_steps. unfold setp, wp. cbn [fst snd]. rewrite <- Er' in Hb. destruct (lexed_skip e ts Hle Hb) as [Hl Hq'].
  split; [split; [lia | exact Hl]|]. split; [reflexivity|]. intros w ->. destruct Hok as [_ Hw].
  split; [reflexivity|]. split; [apply (rest_bytes q w b Er); lia|]. split; [exact Hw|].
  cbn [snd]. rewrite (rest_head e Hle), Er'. destruct b as [|c b]; [reflexivity|]. cbn [follows hd] in Hfol |- *.
  unfold word_char. apply orb_true_iff in Hfol as [-> | ->]; cbn [negb]; rewrite ?andb_false_r; reflexivity.
Qed.

Lemma gettoken_end s : ahead [] s -> wp (gettoken m es) (fun r s' => ahead [] s' /\ r.1 = x00) s.
Proof.
  intros [Hs Hlex]. unfold gettoken. wp_steps. destruct (skip_space_spec s [] Hs Hlex) as [Hq Eq]. rewrite Eq, es_nul.
  cbn. wp_steps. unfold setp, wp. cbn [fst]. assert (Hnil : lexed (rest es) []) by (rewrite rest_end by lia; apply lexed_nil, Forall_nil_2).
  destruct (lexed_skip es [] ltac:(lia) Hnil) as [Hl Hq']. split; [split; [lia | exact Hl] | reflexivity].
Qed.

(** ** The parsers *)

(** The counted strings of a tree spell the words of another. *)
Fixpoint cmd_rel {V W} (R : V -> W -> Prop) (c : cmd V) (a : cmd W) : Prop :=
  match c, a with
  | EXEC v, EXEC w => Forall2 R v w
  | REDIR c f mode fd, REDIR a g mode' fd' => cmd_rel R c a /\ R f g /\ mode = mode' /\ fd = fd'
  | PIPE l r, PIPE l' r' => cmd_rel R l l' /\ cmd_rel R r r'
  | LIST l r, LIST l' r' => cmd_rel R l l' /\ cmd_rel R r r'
  | BACK c, BACK a => cmd_rel R c a
  | _, _ => False
  end.

Definition redir_rel {V W} (R : V -> W -> Prop) (x : redir V) (y : redir W) : Prop :=
  let '(f, mode, fd) := x in let '(g, mode', fd') := y in R f g /\ mode = mode' /\ fd = fd'.

Lemma cmd_rel_redirs {V W} (R : V -> W -> Prop) rs rs' c a :
  cmd_rel R c a -> Forall2 (redir_rel R) rs rs' -> cmd_rel R (redirs c rs) (redirs a rs').
Proof.
  intros Hc Hrs. revert c a Hc. induction Hrs as [|[[f mode] fd] [[g mode'] fd'] rs rs' (H1 & H2 & H3) Hrs IH]; intros c a Hc.
  - exact Hc.
  - unfold redirs in *. cbn [foldl]. apply IH. cbn. auto.
Qed.

Lemma parseredirs_wp rs ts acc s fuel :
  ahead (rds_toks rs ++ ts) s -> starts (str "<>") ts = false -> (length rs < fuel)%nat ->
  wp (parseredirs m fuel es acc) (fun r s' => ahead ts s' /\
    exists new, r = acc ++ new /\ Forall2 (redir_rel spells) new (rd_mean <$> rs)) s.
Proof.
  unfold parseredirs. revert acc s fuel. induction rs as [|[k w] rs IH]; intros acc s fuel Ha Hts Hf;
    (destruct fuel as [|fuel]; [cbn in Hf; lia|]); apply wp_loop_S; unfold parseredirs_step; apply wp_bind.
  - eapply wp_mono; [apply (peek_wp _ ts); exact Ha|]. intros b s' [Ha' ->]. rewrite Hts. cbn [negb]. apply wp_ret.
    split; [exact Ha'|]. exists []. rewrite app_nil_r. split; [reflexivity | constructor].
  - change (rds_toks ((k, w) :: rs) ++ ts) with (rtok k :: TWord w :: rds_toks rs ++ ts) in Ha.
    eapply wp_mono; [apply peek_wp; exact Ha|]. intros b s1 [Ha1 ->].
    replace (starts _ _) with true by (destruct k; reflexivity). cbn [negb]. apply wp_bind.
    eapply wp_mono; [apply gettoken_wp; exact Ha1|]. intros [tok sp] s2 (Ha2 & Htok & _). cbn [fst] in Htok. apply wp_bind.
    eapply wp_mono; [apply gettoken_wp; exact Ha2|]. intros [a file] s3 (Ha3 & Hword & Hsp). cbn [fst snd] in Hword, Hsp.
    subst a. apply wp_bind, wp_panic_if; [reflexivity|]. apply wp_ret.
    eapply wp_mono; [apply (IH (acc ++ redir_of tok file) s3 fuel Ha3 Hts); cbn in Hf; lia|].
    intros r s4 (Ha4 & new & -> & Hnew). split; [exact Ha4|]. exists (redir_of tok file ++ new).
    rewrite app_assoc. split; [reflexivity|]. specialize (Hsp w eq_refl). subst tok.
    destruct k; cbn; (constructor; [cbn; auto | exact Hnew]).
Qed.

(** What may follow a simple command. *)
Definition ends (ts : list tok) : Prop := ts = [] \/ starts (str "|)&;") ts = true.

Lemma ends_no_redir ts : ends ts -> starts (str "<>") ts = false.
Proof.
  intros [->|H]; [reflexivity|]. destruct ts as [|t ts]; [discriminate|]. unfold starts in *.
  apply andb_true_iff in H as [H1 H2]. rewrite H1. cbn [andb]. unfold strchr in *. apply bool_decide_eq_true in H2.
  repeat (apply elem_of_cons in H2 as [->|H2]; [reflexivity|]). apply elem_of_nil in H2. contradiction.
Qed.

Lemma word_starts toks w ts : tok_ok (TWord w) -> Forall (fun c => c ∈ symbols) toks -> starts toks (TWord w :: ts) = false.
Proof.
  intros [Hne Hw] Htoks. destruct w as [|c w]; [congruence|]. apply Forall_cons in Hw as [Hc _].
  destruct (word_char_inv c Hc) as (_ & _ & Hsym). unfold starts. cbn [tok_head tok_bytes hd].
  replace (strchr toks c) with false; [apply andb_false_r|]. symmetry. apply bool_decide_eq_false. intros Hin. unfold strchr in Hsym. apply bool_decide_eq_false in Hsym.
  apply Hsym. rewrite Forall_forall in Htoks. apply Htoks. exact Hin.
Qed.

Lemma syms_ok l : forallb (strchr symbols) l = true -> Forall (fun c => c ∈ symbols) l.
Proof.
  induction l as [|c l IH]; cbn; intros H; [apply Forall_nil_2|]. apply andb_true_iff in H as [H1 H2].
  apply Forall_cons. split; [apply bool_decide_eq_true in H1; exact H1 | auto].
Qed.

Lemma args_no_redir args ts : ends ts -> Forall (fun a : arg => tok_ok (TWord a.1)) args ->
  starts (str "<>") (args_toks args ++ ts) = false.
Proof.
  intros He Hw. destruct args as [|[w rs] args]; [apply ends_no_redir; exact He|].
  apply Forall_cons in Hw as [Hw _]. change (args_toks ((w, rs) :: args) ++ ts) with (TWord w :: (rds_toks rs ++ args_toks args) ++ ts).
  apply word_starts; [exact Hw | apply syms_ok; reflexivity].
Qed.

Lemma parseargs_wp args ts argv rs s fuel fuel0 :
  ahead (args_toks args ++ ts) s -> ends ts -> Forall (fun a : arg => tok_ok (TWord a.1)) args ->
  Z.of_nat (length argv + length args) < MAXARGS -> (length args < fuel)%nat ->
  Forall (fun a : arg => (length a.2 < fuel0)%nat) args ->
  wp (loop fuel (parseargs_step m fuel0 es) (argv, rs)) (fun c s' => ahead ts s' /\
    exists argv' rs', c = redirs (EXEC (argv ++ argv')) (rs ++ rs') /\
      Forall2 spells argv' args.*1 /\ Forall2 (redir_rel spells) rs' (rd_mean <$> concat args.*2)) s.
Proof.
  intros Ha He Hw Hmax Hf Hf0. revert argv rs s fuel Ha Hmax Hf.
  induction args as [|[w wr] args IH]; intros argv rs s fuel Ha Hmax Hf; (destruct fuel as [|fuel]; [cbn in Hf; lia|]);
    apply wp_loop_S; unfold parseargs_step; apply wp_bind.
  - assert (Hres : exists argv' rs', redirs (EXEC argv) rs = redirs (EXEC (argv ++ argv')) (rs ++ rs') /\
      Forall2 spells argv' [] /\ Forall2 (redir_rel spells) rs' (@nil (redir word))).
    { exists [], []. rewrite !app_nil_r. repeat split; constructor. }
    cbn in Ha. eapply wp_mono; [apply peek_wp; exact Ha|]. intros b s1 [Ha1 ->]. destruct He as [->|Hst].
    + cbn [starts]. apply wp_bind. eapply wp_mono; [apply gettoken_end; exact Ha1|].
      intros [tok sp] s2 (Ha2 & Ht). cbn in Ht. subst tok. apply wp_ret. split; [exact Ha2 | exact Hres].
    + rewrite Hst. apply wp_ret. split; [exact Ha1 | exact Hres].
  - apply Forall_cons in Hw as [Hw0 Hw]. apply Forall_cons in Hf0 as [Hr0 Hf0]. cbn [fst snd length] in *.
    assert (E : args_toks ((w, wr) :: args) ++ ts = TWord w :: rds_toks wr ++ args_toks args ++ ts).
    { cbn. rewrite <- app_assoc. reflexivity. }
    rewrite E in Ha. eapply wp_mono; [apply peek_wp; exact Ha|]. intros b s1 [Ha1 ->].
    rewrite word_starts by (first [exact Hw0 | apply syms_ok; reflexivity]). apply wp_bind.
    eapply wp_mono; [apply gettoken_wp; exact Ha1|]. intros [tok sp] s2 (Ha2 & Ht & Hsp). cbn [fst snd] in Ht, Hsp. subst tok.
    cbn [tok_code]. change (bool_decide (ch "a" = x00)) with false. cbv iota. apply wp_bind, wp_panic_if; [reflexivity|].
    apply wp_bind, wp_panic_if; [rewrite length_app; cbn; lia|]. apply wp_bind.
    eapply wp_mono; [apply (parseredirs_wp wr (args_toks args ++ ts)); [exact Ha2 | apply args_no_redir; assumption | exact Hr0]|].
    intros r s3 (Ha3 & new & -> & Hnew). apply wp_ret.
    eapply wp_mono; [apply (IH Hw Hf0 (argv ++ [sp]) (rs ++ new) s3 fuel Ha3); [rewrite length_app; cbn; lia | lia]|].
    intros c s4 (Ha4 & argv' & rs' & -> & H1 & H2). split; [exact Ha4|]. exists (sp :: argv'), (new ++ rs').
    rewrite <- !app_assoc. split; [reflexivity|]. split.
    + constructor; [apply Hsp; reflexivity | exact H1].
    + cbn. rewrite fmap_app. apply Forall2_app; assumption.
Qed.

Lemma lexed_tok_ok b ts : lexed b ts -> Forall tok_ok ts.
Proof. induction 1; [apply Forall_nil_2 | apply Forall_cons; auto]. Qed.

Lemma ahead_tok_ok ts s : ahead ts s -> Forall tok_ok ts.
Proof. intros [_ H]. exact (lexed_tok_ok _ _ H). Qed.

(** What follows decides nothing it should not: a token that starts with one
    of [l] starts with none of [l'] when the two have nothing in common. *)
Lemma starts_disjoint l l' ts : starts l ts = true -> forallb (fun c => negb (strchr l' c)) l = true -> starts l' ts = false.
Proof.
  destruct ts as [|t ts]; [reflexivity|]. unfold starts. intros [_ H]%andb_true_iff Hd.
  unfold strchr at 1 in H. apply bool_decide_eq_true in H. rewrite forallb_forall in Hd.
  specialize (Hd (tok_head t)). rewrite <- list_elem_of_In in Hd. specialize (Hd H).
  destruct (strchr l' (tok_head t)); [discriminate | apply andb_false_r].
Qed.

Lemma starts_weaken l l' ts : starts l ts = true -> forallb (strchr l') l = true -> starts l' ts = true.
Proof.
  destruct ts as [|t ts]; [discriminate|]. unfold starts. intros [H0 H]%andb_true_iff Hd. rewrite H0.
  unfold strchr at 1 in H. apply bool_decide_eq_true in H. rewrite forallb_forall in Hd.
  apply Hd. apply list_elem_of_In. exact H.
Qed.

(** [l] or the end comes next. *)
Definition next_in (l : string) (ts : list tok) : Prop := ts = [] \/ starts (str l) ts = true.

Lemma next_not l l' ts : next_in l ts -> forallb (fun c => negb (strchr (str l') c)) (str l) = true -> starts (str l') ts = false.
Proof. intros [->|H] Hd; [reflexivity | exact (starts_disjoint _ _ _ H Hd)]. Qed.

Lemma next_weaken l l' ts : next_in l ts -> forallb (strchr (str l')) (str l) = true -> next_in l' ts.
Proof. intros [->|H] Hd; [left; reflexivity | right; exact (starts_weaken _ _ _ H Hd)]. Qed.

Lemma next_back nb tl : next_in ");" tl -> next_in "&);" (repeat (TSym (ch "&")) nb ++ tl).
Proof. intros H. destruct nb; [apply (next_weaken _ _ _ H); reflexivity | right; reflexivity]. Qed.

Lemma parseback_wp nb tl c a s fuel :
  ahead (repeat (TSym (ch "&")) nb ++ tl) s -> next_in ");" tl -> cmd_rel spells c a -> (nb < fuel)%nat ->
  wp (parseback m fuel es c) (fun c' s' => ahead tl s' /\ cmd_rel spells c' (Nat.iter nb BACK a)) s.
Proof.
  unfold parseback. revert c a s fuel. induction nb as [|nb IH]; intros c a s fuel Ha Hn Hc Hf;
    (destruct fuel as [|fuel]; [lia|]); apply wp_loop_S; unfold parseback_step; apply wp_bind;
    (eapply wp_mono; [apply peek_wp; exact Ha|]); intros b s1 [Ha1 ->].
  - cbn [repeat app] in *. rewrite (next_not _ "&" _ Hn) by reflexivity. apply wp_ret. auto.
  - cbn [repeat app] in Ha1. apply wp_bind. eapply wp_mono; [apply gettoken_wp; exact Ha1|].
    intros r s2 (Ha2 & _). apply wp_ret. rewrite Nat.iter_succ_r. apply IH; [exact Ha2 | exact Hn | exact Hc | lia].
Qed.

Lemma simple_no_block rs args ts : ends ts -> Forall (fun a : arg => tok_ok (TWord a.1)) args ->
  starts (str "(") (rds_toks rs ++ args_toks args ++ ts) = false.
Proof.
  intros He Hw. destruct rs as [|[k w] rs]; [|destruct k; reflexivity]. destruct args as [|[w wr] args].
  - exact (next_not "|)&;" "(" ts He eq_refl).
  - apply Forall_cons in Hw as [Hw _]. apply (word_starts _ w); [exact Hw | apply syms_ok; reflexivity].
Qed.

Lemma rds_length (rs : list (rkind * word)) : (length rs <= length (rds_toks rs))%nat.
Proof.
  induction rs as [|r rs IH]; [cbn; lia|]. change (rds_toks (r :: rs)) with (rd_toks r ++ rds_toks rs).
  rewrite length_app. cbn [length rd_toks]. lia.
Qed.

Lemma args_lengths args :
  (length args <= length (args_toks args))%nat /\ Forall (fun a : arg => (length a.2 <= length (args_toks args))%nat) args.
Proof.
  induction args as [|[w rs] args [IH1 IH2]]; [split; [cbn; lia | apply Forall_nil_2]|].
  change (args_toks ((w, rs) :: args)) with ((TWord w :: rds_toks rs) ++ args_toks args).
  rewrite length_app. cbn [length]. pose proof (rds_length rs). split; [lia|].
  apply Forall_cons. split; [cbn; lia|]. eapply Forall_impl; [exact IH2|]. intros a Ha. cbn in Ha |- *. lia.
Qed.

Definition line_goal (l : line) : Prop := forall ts s fuel,
  ahead (line_toks l ++ ts) s -> next_in ")" ts -> line_ok l -> (4 * length (line_toks l) + 4 <= fuel)%nat ->
  wp (parseline m fuel es) (fun c s' => ahead ts s' /\ cmd_rel spells c (line_mean l)) s.
Definition pipe_goal (p : pipe) : Prop := forall ts s fuel,
  ahead (pipe_toks p ++ ts) s -> next_in "&);" ts -> pipe_ok p -> (4 * length (pipe_toks p) + 3 <= fuel)%nat ->
  wp (parsepipe m fuel es) (fun c s' => ahead ts s' /\ cmd_rel spells c (pipe_mean p)) s.
Definition exec_goal (e : exec) : Prop := forall ts s fuel,
  ahead (exec_toks e ++ ts) s -> ends ts -> exec_ok e -> (4 * length (exec_toks e) + 2 <= fuel)%nat ->
  wp (parseexec m fuel es) (fun c s' => ahead ts s' /\ cmd_rel spells c (exec_mean e)) s.

(** The common part of the two forms of a line. *)
Lemma line_start p nb tl s fuel : pipe_goal p ->
  ahead (pipe_toks p ++ repeat (TSym (ch "&")) nb ++ tl) s -> next_in ");" tl -> pipe_ok p ->
  (4 * (length (pipe_toks p) + nb) + 3 <= fuel)%nat ->
  wp (c ← parsepipe m fuel es; c ← parseback m (S fuel) es c; more ← peek m es (str ";"); mret (c, more))
    (fun r s' => ahead tl s' /\ cmd_rel spells r.1 (Nat.iter nb BACK (pipe_mean p)) /\ r.2 = starts (str ";") tl) s.
Proof.
  intros Hp Ha Hn Hok Hf. apply wp_bind. eapply wp_mono; [apply (Hp _ s fuel Ha); [apply next_back; exact Hn | exact Hok | lia]|].
  intros c s1 [Ha1 Hc]. apply wp_bind. eapply wp_mono; [apply (parseback_wp nb tl c _ s1 (S fuel) Ha1 Hn Hc); lia|].
  intros c2 s2 [Ha2 Hc2]. apply wp_bind. eapply wp_mono; [apply peek_wp; exact Ha2|]. intros b s3 [Ha3 ->]. apply wp_ret. auto.
Qed.

Lemma parseline_S fuel : parseline m (S fuel) es =
  ('(c, more) ← (c ← parsepipe m fuel es; c ← parseback m (S fuel) es c; more ← peek m es (str ";"); mret (c, more));
   if more : bool then gettoken m es;; r ← parseline m fuel es; mret (LIST c r) else mret c).
Proof.
  extensionality s. cbn [parseline]. unfold mbind, M_bind. destruct (parsepipe m fuel es s) as [c s1| | |]; [|reflexivity..].
  destruct (parseback m (S fuel) es c s1) as [c2 s2| | |]; [|reflexivity..].
  destruct (peek m es (str ";") s2) as [b s3| | |]; reflexivity.
Qed.

Lemma line_end_case p nb : pipe_goal p -> line_goal (LEnd p nb).
Proof.
  intros Hp ts s fuel Ha Hn Hok Hf. cbn [line_toks line_mean line_ok] in *. rewrite length_app, repeat_length in Hf.
  rewrite <- app_assoc in Ha. destruct fuel as [|fuel]; [lia|]. rewrite parseline_S. apply wp_bind.
  eapply wp_mono; [apply (line_start p nb ts s fuel Hp Ha); [apply (next_weaken _ _ _ Hn); reflexivity | exact Hok | lia]|].
  intros [c b] s1 (Ha1 & Hc & Hb). cbn [fst snd] in *. rewrite (next_not _ ";" _ Hn) in Hb by reflexivity. subst b.
  apply wp_ret. auto.
Qed.

Lemma line_seq_case p nb l : pipe_goal p -> line_goal l -> line_goal (LSeq p nb l).
Proof.
  intros Hp Hl ts s fuel Ha Hn [Hok Hokl] Hf. cbn [line_toks line_mean] in *.
  rewrite !length_app, repeat_length in Hf. cbn [length] in Hf. rewrite <- !app_assoc in Ha. cbn [app] in Ha.
  destruct fuel as [|fuel]; [lia|]. rewrite parseline_S. apply wp_bind.
  eapply wp_mono; [apply (line_start p nb _ s fuel Hp Ha); [right; reflexivity | exact Hok | lia]|].
  intros [c b] s1 (Ha1 & Hc & Hb). cbn [fst snd] in *. change (b = true) in Hb. subst b. apply wp_bind.
  eapply wp_mono; [apply gettoken_wp; exact Ha1|]. intros r s2 (Ha2 & _). apply wp_bind.
  eapply wp_mono; [apply (Hl ts s2 fuel Ha2 Hn Hokl); lia|]. intros c2 s3 [Ha3 Hc2]. apply wp_ret. cbn. auto.
Qed.

Lemma pipe_end_case e : exec_goal e -> pipe_goal (PEnd e).
Proof.
  intros He ts s fuel Ha Hn Hok Hf. cbn [pipe_toks pipe_mean pipe_ok] in *. destruct fuel as [|fuel]; [lia|].
  cbn [parsepipe]. apply wp_bind. eapply wp_mono; [apply (He ts s fuel Ha); [apply (next_weaken _ _ _ Hn); reflexivity | exact Hok | lia]|].
  intros c s1 [Ha1 Hc]. apply wp_bind. eapply wp_mono; [apply peek_wp; exact Ha1|]. intros b s2 [Ha2 ->].
  rewrite (next_not _ "|" _ Hn) by reflexivity. apply wp_ret. auto.
Qed.

Lemma pipe_seq_case e p : exec_goal e -> pipe_goal p -> pipe_goal (PPipe e p).
Proof.
  intros He Hp ts s fuel Ha Hn [Hok Hokp] Hf. cbn [pipe_toks pipe_mean] in *. rewrite length_app in Hf. cbn [length] in Hf.
  rewrite <- app_assoc in Ha. cbn [app] in Ha. destruct fuel as [|fuel]; [lia|].
  cbn [parsepipe]. apply wp_bind. eapply wp_mono; [apply (He _ s fuel Ha); [right; reflexivity | exact Hok | lia]|].
  intros c s1 [Ha1 Hc]. apply wp_bind. eapply wp_mono; [apply peek_wp; exact Ha1|]. intros b s2 [Ha2 ->].
  change (starts _ _) with true. cbv iota. apply wp_bind. eapply wp_mono; [apply gettoken_wp; exact Ha2|]. intros r s3 (Ha3 & _).
  apply wp_bind. eapply wp_mono; [apply (Hp ts s3 fuel Ha3 Hn Hokp); lia|]. intros c2 s4 [Ha4 Hc2]. apply wp_ret. cbn. auto.
Qed.

Lemma block_case l rs : line_goal l -> exec_goal (Block l rs).
Proof.
  intros Hl ts s fuel Ha He Hok Hf. cbn [exec_toks exec_mean exec_ok] in *. cbn [length] in Hf. rewrite length_app in Hf.
  cbn [length] in Hf. cbn [app] in Ha. rewrite <- app_assoc in Ha. cbn [app] in Ha. pose proof (rds_length rs).
  destruct fuel as [|[|fuel]]; [lia..|]. cbn [parseexec]. apply wp_bind. eapply wp_mono; [apply peek_wp; exact Ha|]. intros b s1 [Ha1 ->].
  change (starts _ _) with true. cbv iota. cbn [parseblock]. apply wp_bind. eapply wp_mono; [apply peek_wp; exact Ha1|]. intros b s2 [Ha2 ->].
  apply wp_bind, wp_panic_if; [reflexivity|]. apply wp_bind. eapply wp_mono; [apply gettoken_wp; exact Ha2|]. intros r s3 (Ha3 & _).
  apply wp_bind. eapply wp_mono; [apply (Hl _ s3 fuel Ha3); [right; reflexivity | exact Hok | lia]|]. intros c s4 [Ha4 Hc].
  apply wp_bind. eapply wp_mono; [apply peek_wp; exact Ha4|]. intros b s5 [Ha5 ->]. apply wp_bind, wp_panic_if; [reflexivity|].
  apply wp_bind. eapply wp_mono; [apply gettoken_wp; exact Ha5|]. intros r2 s6 (Ha6 & _). apply wp_bind.
  eapply wp_mono; [apply (parseredirs_wp rs ts [] s6 (S fuel) Ha6 (ends_no_redir ts He)); lia|].
  intros r3 s7 (Ha7 & new & -> & Hnew). apply wp_ret. split; [exact Ha7|]. apply cmd_rel_redirs; assumption.
Qed.

Lemma simple_case rs args : exec_goal (Simple rs args).
Proof.
  intros ts s fuel Ha He Hok Hf. cbn [exec_toks exec_mean exec_ok] in *. rewrite length_app in Hf. rewrite <- app_assoc in Ha.
  pose proof (rds_length rs). destruct (args_lengths args) as [Hlen Hlens].
  assert (Hw : Forall (fun a : arg => tok_ok (TWord a.1)) args).
  { pose proof (ahead_tok_ok _ _ Ha) as Htok. apply Forall_app in Htok as [_ Htok]. apply Forall_app in Htok as [Htok _].
    clear - Htok. induction args as [|[w wr] args IH]; [apply Forall_nil_2|]. cbn in Htok. apply Forall_cons in Htok as [H1 H2].
    apply Forall_app in H2 as [_ H2]. apply Forall_cons. auto. }
  destruct fuel as [|fuel]; [lia|]. cbn [parseexec]. apply wp_bind. eapply wp_mono; [apply peek_wp; exact Ha|]. intros b s1 [Ha1 ->].
  rewrite simple_no_block by assumption. apply wp_bind.
  eapply wp_mono; [apply (parseredirs_wp rs (args_toks args ++ ts) [] s1 (S fuel) Ha1 (args_no_redir args ts He Hw)); lia|].
  intros r s2 (Ha2 & new & -> & Hnew). unfold parseargs.
  eapply wp_mono; [apply (parseargs_wp args ts [] ([] ++ new) s2 (S fuel) (S fuel) Ha2 He Hw); [cbn; lia | lia |]|].
  { eapply Forall_impl; [exact Hlens|]. intros a0 Ha0. cbn in Ha0 |- *. lia. }
  intros c s3 (Ha3 & argv' & rs' & -> & H1 & H2). split; [exact Ha3|]. apply cmd_rel_redirs; [exact H1|].
  rewrite fmap_app. apply Forall2_app; assumption.
Qed.

Lemma parse_grammar : (forall l, line_goal l) /\ (forall p, pipe_goal p) /\ (forall e, exec_goal e).
Proof.
  apply grammar_ind; intros; [apply line_end_case | apply line_seq_case | apply pipe_end_case | apply pipe_seq_case | apply block_case | apply simple_case];
    assumption.
Qed.
End Scan.

(** ** Terminating the strings *)

Fixpoint ends_of (c : cmd span) : list Z :=
  match c with
  | EXEC argv => argv.*2
  | REDIR c' (_, efile) _ _ => efile :: ends_of c'
  | PIPE l r | LIST l r => ends_of l ++ ends_of r
  | BACK c' => ends_of c'
  end.

Lemma mem_cons (x e : Z) l : bool_decide (x ∈ e :: l) = (x =? e) || bool_decide (x ∈ l).
Proof.
  destruct (Z.eqb_spec x e) as [->|Hne]; [apply bool_decide_true; constructor|].
  apply bool_decide_ext. rewrite elem_of_cons. tauto.
Qed.

Lemma mem_app (x : Z) l l' : bool_decide (x ∈ l ++ l') = bool_decide (x ∈ l) || bool_decide (x ∈ l').
Proof. induction l as [|e l IH]; [reflexivity|]. cbn [app]. rewrite !mem_cons, IH. apply orb_assoc. Qed.

Lemma nulterminate_spec c m x : nulterminate c m x = if bool_decide (x ∈ ends_of c) then x00 else m x.
Proof.
  revert m. induction c as [argv|c IH [q e] mode fd|l IHl r IHr|l IHl r IHr|c IH]; intros m; cbn [nulterminate ends_of].
  - revert m. induction argv as [|[q e] argv IH]; intros m; [reflexivity|]. cbn [foldl fmap list_fmap snd].
    rewrite IH, mem_cons. unfold mset. destruct (x =? e), (bool_decide _); reflexivity.
  - unfold mset. rewrite IH, mem_cons. destruct (x =? e); reflexivity.
  - rewrite IHr, IHl, mem_app. destruct (bool_decide (x ∈ ends_of l)), (bool_decide (x ∈ ends_of r)); reflexivity.
  - rewrite IHr, IHl, mem_app. destruct (bool_decide (x ∈ ends_of l)), (bool_decide (x ∈ ends_of r)); reflexivity.
  - apply IH.
Qed.

(** Every end of a string of the tree is no word character. *)
Lemma ends_spell m c a : cmd_rel (spells m) c a -> forall e, e ∈ ends_of c -> word_char (m e) = false.
Proof.
  revert a. induction c as [argv|c IH [q e] mode fd|l IHl r IHr|l IHl r IHr|c IH]; intros [argv'|a g mode' fd'|l' r'|l' r'|a];
    cbn [cmd_rel ends_of]; try tauto; intros Hc e0 He.
  - apply list_elem_of_fmap in He as ([q e] & -> & He). induction Hc as [|x y l l' Hx _ IHl]; [apply elem_of_nil in He; contradiction|].
    apply elem_of_cons in He as [<-|He]; [apply Hx | apply IHl; exact He].
  - destruct Hc as (Hc & Hf & _). apply elem_of_cons in He as [->|He]; [apply Hf | apply (IH a Hc); exact He].
  - destruct Hc as [Hl Hr]. apply elem_of_app in He as [He|He]; [apply (IHl _ Hl) | apply (IHr _ Hr)]; exact He.
  - destruct Hc as [Hl Hr]. apply elem_of_app in He as [He|He]; [apply (IHl _ Hl) | apply (IHr _ Hr)]; exact He.
  - apply (IH a Hc). exact He.
Qed.

Lemma cmd_rel_ends {W} (R R' : span -> W -> Prop) (E : list Z) c a :
  (forall x y, R x y -> x.2 ∈ E -> R' x y) -> (forall e, e ∈ ends_of c -> e ∈ E) -> cmd_rel R c a -> cmd_rel R' c a.
Proof.
  intros HR. revert a. induction c as [argv|c IH [q e] mode fd|l IHl r IHr|l IHl r IHr|c IH]; intros [argv'|a g mode' fd'|l' r'|l' r'|a];
    cbn [cmd_rel ends_of]; try tauto; intros HE.
  - intros H. induction H as [|x y l l' Hx Hl IH]; constructor.
    + apply HR; [exact Hx|]. apply HE. constructor.
    + apply IH. intros e He. apply HE. constructor. exact He.
  - intros (H1 & H2 & H3). split; [apply IH; [|exact H1]; intros e' He; apply HE; constructor; exact He|].
    split; [|exact H3]. apply HR; [exact H2|]. apply HE. constructor.
  - intros [H1 H2]. split; [apply IHl; [|exact H1] | apply IHr; [|exact H2]]; intros e' He; apply HE; apply elem_of_app; auto.
  - intros [H1 H2]. split; [apply IHl; [|exact H1] | apply IHr; [|exact H2]]; intros e' He; apply HE; apply elem_of_app; auto.
  - apply IH. exact HE.
Qed.

Lemma word_no_nul w : Forall (fun c => word_char c = true) w -> x00 ∉ w.
Proof. intros H Hin. rewrite Forall_forall in H. specialize (H _ Hin). discriminate. Qed.

(** [nulterminate] makes every counted string a C string. *)
Lemma nulterminate_strings m c a : cmd_rel (spells m) c a ->
  cmd_rel (fun sp w => string_at (nulterminate c m) sp.1 w) c a.
Proof.
  intros Hc. apply (cmd_rel_ends (spells m) _ (ends_of c) c a); [|auto | exact Hc].
  intros [q e] w (He & Hb & Hw & Hn) Hin. cbn [fst snd] in *. split; [apply word_no_nul; exact Hw|]. split.
  - transitivity (bytes_at m q (length w)); [|exact Hb]. apply bytes_at_ext. intros i Hi. rewrite nulterminate_spec.
    rewrite bool_decide_false; [reflexivity|]. intros Hx. pose proof (ends_spell m c a Hc _ Hx) as Hf.
    assert (Hl : w !! Z.to_nat i = Some (m (q + i))).
    { rewrite <- Hb, lookup_bytes_at by lia. do 2 f_equal. lia. }
    rewrite Forall_lookup in Hw. specialize (Hw _ _ Hl). congruence.
  - rewrite nulterminate_spec, <- He, bool_decide_true by exact Hin. reflexivity.
Qed.

Lemma lexed_length b ts : lexed b ts -> (length ts <= length b)%nat.
Proof.
  induction 1 as [|ws t b ts Hws Hok Hf Hb IH]; cbn; [lia|]. rewrite !length_app.
  destruct (tok_bytes_cons t Hok) as [l ->]. cbn. lia.
Qed.

(** C17: the shell parses every line of its grammar, in every way of writing
    its tokens with white space, to the tree it means (lists, pipes,
    background, blocks, redirections in their order); it terminates within a
    fuel of four times the length, does not panic, and every string of the
    tree is then NUL-terminated in the line. *)
Theorem parsecmd_parses l m s n fuel :
  m (s + Z.of_nat n) = x00 -> lexed (bytes_at m s n) (line_toks l) -> line_ok l -> (4 * n + 4 <= fuel)%nat ->
  exists c m' s', parsecmd fuel m s (Z.of_nat n) = Ret (c, m') s' /\
    cmd_rel (fun sp w => string_at m' sp.1 w) c (line_mean l).
Proof.
  intros Hnul Hlex Hok Hf. set (es := s + Z.of_nat n) in *.
  assert (Hrest : rest m es s = bytes_at m s n) by (unfold rest, es; f_equal; lia).
  pose proof (lexed_length _ _ Hlex) as Hlen. rewrite length_bytes_at in Hlen.
  assert (Hw : wp (c ← parseline m fuel es; peek m es [];; s ← get; panic_if (negb (s =? es)) "syntax";; mret (c, nulterminate c m))
    (fun r _ => cmd_rel (fun sp w => string_at r.2 sp.1 w) r.1 (line_mean l)) s).
  { apply wp_bind. eapply wp_mono; [apply (proj1 (parse_grammar m es Hnul) l [] s fuel); [|left; reflexivity | exact Hok | lia]|].
    - rewrite app_nil_r. split; [unfold es; lia|]. rewrite Hrest. exact Hlex.
    - intros c s1 [[Hs1 Hl1] Hc]. apply wp_bind. unfold peek. wp_steps. unfold setp, wp at 1. cbv beta.
      destruct (skip_space_spec m es s1 [] Hs1 Hl1) as [_ ->]. wp_steps.
      apply wp_panic_if; [rewrite Z.eqb_refl; reflexivity|]. apply wp_ret. cbn [fst snd]. apply nulterminate_strings. exact Hc. }
  apply wp_run in Hw as ([c m'] & s' & E & Hc). exists c, m', s'. split; [exact E | exact Hc].
Qed.

Definition demo_line : line :=
  LSeq (PPipe (Simple [] [(str "ls", [(ROut, str "f")])]) (PEnd (Simple [] [(str "wc", [])]))) 1
       (LEnd (PEnd (Block (LEnd (PEnd (Simple [] [(str "a", [])])) 0) [])) 0).

Ltac lex_tok ws t b := refine (lexed_cons ws t b _ _ _ _ _);
  [repeat (apply Forall_cons; split; [apply (bool_decide_unpack _); reflexivity|]); apply Forall_nil_2
  | cbn; first [exact I | apply (bool_decide_unpack _); reflexivity
               | split; [discriminate | repeat (apply Forall_cons; split; [reflexivity|]); apply Forall_nil_2]]
  | cbn; first [exact I | reflexivity | intros; discriminate] |].

Lemma parsecmd_parses_witness : exists c m' s',
  parsecmd 80 (fun z => nth (Z.to_nat z) (str "ls>f |wc&; (a)") x00) 0 14 = Ret (c, m') s' /\
  cmd_rel (fun sp w => string_at m' sp.1 w) c (line_mean demo_line).
Proof.
  apply (parsecmd_parses demo_line _ 0 14 80); [reflexivity | | repeat split; reflexivity | lia].
  lex_tok (@nil byte) (TWord (str "ls")) (str ">f |wc&; (a)").
  lex_tok (@nil byte) (TSym (ch ">")) (str "f |wc&; (a)").
  lex_tok (@nil byte) (TWord (str "f")) (str " |wc&; (a)").
  lex_tok (str " ") (TSym (ch "|")) (str "wc&; (a)").
  lex_tok (@nil byte) (TWord (str "wc")) (str "&; (a)").
  lex_tok (@nil byte) (TSym (ch "&")) (str "; (a)").
  lex_tok (@nil byte) (TSym (ch ";")) (str " (a)").
  lex_tok (str " ") (TSym (ch "(")) (str "a)").
  lex_tok (@nil byte) (TWord (str "a")) (str ")").
  lex_tok (@nil byte) (TSym (ch ")")) (@nil byte).
  apply lexed_nil, Forall_nil_2.
Defined.
End ShParse.
