(* ===== verification/ShMain.v ===== *)
(** * The command loop of the shell: [getcmd] and [main] of user/sh.c

    What the shell does with each line of its input: [Run] is the child that
    parses and executes it ([Sh], [ShParse]), which the shell waits for. *)

From S2P Require Import Prelude Memory Printf Ulib.
Import Ulib.

Module ShMain.

Inductive event := Prompt | Chdir (path : list byte) | Run (line : list byte) | Fork_failed.

Record shell := Shell { sbuf : mem; input : list byte; trace : list event }.

Definition set_buf (m : mem) (s : shell) : shell := Shell m (input s) (trace s).
Definition emit (e : event) (s : shell) : shell := Shell (sbuf s) (input s) (trace s ++ [e]).

(** Ensure that three descriptors are open: [open] returns the lowest free
    one; [fds] says which are in use. *)
Fixpoint lowest_free (fds : list bool) : option nat :=
  match fds with [] => None | false :: _ => Some O | true :: fds' => S <$> lowest_free fds' end.
Fixpoint open_consoles (fuel : nat) (fds : list bool) : list bool :=
  match fuel with
  | O => fds
  | S fuel' =>
      match lowest_free fds with
      | None => fds
      | Some fd => if (3 <=? fd)%nat then fds else open_consoles fuel' (<[fd := true]> fds)
      end
  end.

Definition getcmd (nbuf : Z) : M shell Z :=
  modify (emit Prompt);;
  modify (fun s => set_buf (memset (sbuf s) 0 0 nbuf) s);;
  modify (fun s => let '(m, rest) := Ulib.gets (sbuf s) 0 nbuf (input s) in Shell m rest (trace s));;
  m ← Prelude.gets sbuf;
  mret (if b2z (m 0) =? 0 then -1 else 0).

Section Main.
(** Whether the fork after these events succeeds. *)
Context (fork_ok : list event -> bool).

(** One iteration of the loop; [inr] is the exit status. *)
Definition sh_line (_ : unit) : M shell (unit + Z) :=
  r ← getcmd 100;
  if r >=? 0 then
    m ← Prelude.gets sbuf;
    if bool_decide (m 0 = x63) && bool_decide (m 1 = x64) && bool_decide (m 2 = x20) then
      modify (fun s => set_buf (mset (sbuf s) (default 0 (strlen 100 (sbuf s) 0) - 1) x00) s);;
      m ← Prelude.gets sbuf;
      modify (emit (Chdir (CString.cstr 97 m 3)));;
      mret (inl tt)
    else
      tr ← Prelude.gets trace;
      if fork_ok tr then modify (emit (Run (CString.cstr 100 m 0)));; mret (inl tt)
      else modify (emit Fork_failed);; mret (inr 1)
  else mret (inr 0).

(** Every line takes a byte of the input. *)
Definition sh_main : M shell Z :=
  s ← get;
  loop (S (length (input s))) sh_line tt.

(** ** What it does with lines that fit *)

Definition good_line (l : list byte) : Prop :=
  Forall (fun c => c <> x0a /\ c <> x0d /\ c <> x00) l /\ (length l <= 97)%nat.

(** Lines that begin with [cd ] change the directory. *)
Definition event_of (l : list byte) : event :=
  if bool_decide (take 3 l = [x63; x64; x20]) then Chdir (drop 3 l) else Run (l ++ [x0a]).

Lemma gets_line l rest max : forall fuel m i, Forall (fun c => c <> x0a /\ c <> x0d /\ c <> x00) l -> (length l < fuel)%nat -> i + Z.of_nat (length l) + 1 < max ->
  exists m', gets_from fuel m 0 max i (l ++ x0a :: rest) = (m', rest) /\ string_at m' i (l ++ [x0a]) /\ forall x, x < i -> m' x = m x.
Proof.
  induction l as [|c l IH]; intros fuel m i Hl Hf Hi; (destruct fuel as [|fuel]; [cbn in Hf; lia|]); cbn [gets_from app length] in *.
  - replace (i + 1 <? max) with true by lia. cbn [bool_decide orb]. rewrite bool_decide_eq_true_2 by reflexivity. cbn [orb].
    eexists. split; [reflexivity|]. split; [|intros x Hx; rewrite !mset_ne by lia; reflexivity].
    apply string_at_cons. split; [discriminate|]. rewrite mset_ne, mset_eq by lia. split; [reflexivity|]. apply string_at_nil. rewrite Z.add_0_l. apply mset_eq.
  - inversion Hl as [|? ? (H1 & H2 & H3) Hl']; subst. replace (i + 1 <? max) with true by lia.
    rewrite (bool_decide_eq_false_2 (c = x0a)), (bool_decide_eq_false_2 (c = x0d)) by assumption. cbn [orb]. rewrite Z.add_0_l.
    destruct (IH fuel (mset m i c) (i + 1) Hl' ltac:(lia) ltac:(lia)) as (m' & E & Hs & Ho). exists m'. split; [exact E|]. split.
    + apply string_at_cons. split; [exact H3|]. split; [rewrite Ho by lia; apply mset_eq | exact Hs].
    + intros x Hx. rewrite Ho by lia. apply mset_ne. lia.
Qed.

Lemma cstr_string k m a l : string_at m a l -> (length l <= k)%nat -> CString.cstr k m a = l.
Proof.
  intros (Hn & Hb & Hz) Hl. apply CString.cstr_bytes; [exact Hn | | intros _; exact Hz | exact Hl].
  intros i b Hi. pose proof (lookup_lt_Some _ _ _ Hi) as Hlt. rewrite <- Hb, lookup_bytes_at in Hi by exact Hlt. congruence.
Qed.

Lemma string_at_lookup m a l i b : string_at m a l -> l !! i = Some b -> m (a + Z.of_nat i) = b.
Proof. intros (_ & Hb & _) Hi. pose proof (lookup_lt_Some _ _ _ Hi) as Hlt. rewrite <- Hb, lookup_bytes_at in Hi by exact Hlt. congruence. Qed.

Lemma string_at_drop m l1 l2 a : string_at m a (l1 ++ l2) -> string_at m (a + Z.of_nat (length l1)) l2.
Proof.
  revert a. induction l1 as [|c l1 IH]; intros a Hs; [rewrite Z.add_0_r; exact Hs|]. apply string_at_cons in Hs as (_ & _ & Hs).
  apply IH in Hs. cbn [length]. replace (a + Z.of_nat (S (length l1))) with (a + 1 + Z.of_nat (length l1)) by lia. exact Hs.
Qed.

(** Chopping the newline. *)
Lemma string_at_chop m l a c : string_at m a (l ++ [c]) -> string_at (mset m (a + Z.of_nat (length l)) x00) a l.
Proof.
  intros (Hn & Hb & Hz). split; [intros Hin; apply Hn, elem_of_app; auto|]. split; [|apply mset_eq].
  rewrite length_app, bytes_at_app in Hb. apply app_inj_1 in Hb as [Hb _]; [|apply length_bytes_at]. transitivity (bytes_at m a (length l)); [|exact Hb].
  apply bytes_at_ext. intros i Hi. apply mset_ne. lia.
Qed.

(** The test for [cd ]. *)
Lemma is_cd m l : string_at m 0 (l ++ [x0a]) ->
  bool_decide (m 0 = x63) && bool_decide (m 1 = x64) && bool_decide (m 2 = x20) = bool_decide (take 3 l = [x63; x64; x20]).
Proof.
  intros Hs. pose proof (fun i b => string_at_lookup m 0 _ i b Hs) as Hl. destruct Hs as (_ & _ & Hz).
  destruct l as [|a [|b [|c l]]]; cbn [length app take] in *.
  - assert (E0 : m 0 = x0a) by exact (Hl 0%nat x0a eq_refl). rewrite E0. reflexivity.
  - assert (E0 : m 0 = a) by exact (Hl 0%nat a eq_refl). assert (E1 : m 1 = x0a) by exact (Hl 1%nat x0a eq_refl). rewrite E0, E1.
    repeat case_bool_decide; first [reflexivity | discriminate].
  - assert (E2 : m 2 = x0a) by exact (Hl 2%nat x0a eq_refl). rewrite E2. repeat case_bool_decide; first [reflexivity | discriminate].
  - assert (E0 : m 0 = a) by exact (Hl 0%nat a eq_refl). assert (E1 : m 1 = b) by exact (Hl 1%nat b eq_refl). assert (E2 : m 2 = c) by exact (Hl 2%nat c eq_refl). rewrite E0, E1, E2.
    rewrite take_0. apply eq_true_iff_eq. rewrite !andb_true_iff, !bool_decide_eq_true. split; [intros [[-> ->] ->]; reflexivity | intros [= -> -> ->]; auto].
Qed.

Lemma sh_line_wp l rest s : good_line l -> input s = l ++ x0a :: rest -> (forall tr, fork_ok tr = true) ->
  wp (sh_line tt) (fun r s' => r = inl tt /\ input s' = rest /\ trace s' = trace s ++ [Prompt; event_of l]) s.
Proof.
  intros [Hl Hlen] Ein Hfork. unfold sh_line, getcmd. wp_steps. cbn [sbuf input emit set_buf].
  destruct (gets_line l rest 100 (Z.to_nat 100) (memset (sbuf s) 0 0 100) 0 Hl ltac:(lia) ltac:(lia)) as (m & E & Hs & _).
  unfold Ulib.gets. rewrite Ein. rewrite E. cbn [sbuf input trace]. unfold event_of.
  assert (Hne : (b2z (m 0) =? 0) = false).
  { rewrite b2z_zero. apply bool_decide_eq_false. destruct l as [|c l]; apply string_at_cons in Hs as (Hc & -> & _); exact Hc. }
  rewrite Hne. cbn [Z.geb Z.compare]. wp_steps. cbn [sbuf]. rewrite (is_cd m l Hs). case_bool_decide as Ecd.
  - wp_steps. cbn [sbuf set_buf emit trace input]. split; [reflexivity|]. split; [reflexivity|]. rewrite <- app_assoc. cbn [app]. do 4 f_equal.
    unfold strlen. rewrite (strlen_from_spec (l ++ [x0a])) by (rewrite ?length_app; cbn [length]; first [exact Hs | lia]).
    rewrite length_app. cbn [length default]. unfold id. rewrite u32_small by lia.
    replace (0 + Z.of_nat (length l + 1) - 1) with (0 + Z.of_nat (length l)) by lia. pose proof (string_at_chop _ _ _ _ Hs) as Hs'.
    rewrite <- (take_drop 3 l) in Hs' at 2. apply string_at_drop in Hs'. rewrite Ecd in Hs'. cbn in Hs'.
    apply cstr_string; [exact Hs' | rewrite length_drop; lia].
  - wp_steps. cbn [trace]. rewrite Hfork. wp_steps. cbn [input trace emit set_buf]. split; [reflexivity|]. split; [reflexivity|].
    rewrite <- app_assoc. cbn [app]. do 4 f_equal.
    apply cstr_string; [exact Hs | rewrite length_app; cbn; lia].
Qed.

(** The shell treats its lines in order, then exits with status 0. *)
Lemma sh_main_lines ls s : Forall good_line ls -> input s = concat ((fun l => l ++ [x0a]) <$> ls) -> (forall tr, fork_ok tr = true) ->
  wp sh_main (fun r s' => r = 0 /\ trace s' = trace s ++ concat ((fun l => [Prompt; event_of l]) <$> ls) ++ [Prompt]) s.
Proof.
  intros Hls Ein Hfork. unfold sh_main. wp_steps. assert (Hf : (length ls < S (length (input s)))%nat).
  { rewrite Ein. clear. induction ls as [|l ls IH]; [cbn; lia|]. cbn [fmap list_fmap concat]. rewrite !length_app. cbn [length] in *. lia. }
  revert Hf. generalize (S (length (input s))) as fuel. intros fuel. revert fuel s Ein. induction Hls as [|l ls Hl _ IH]; intros fuel s Ein Hf; (destruct fuel as [|fuel]; [cbn in Hf; lia|]); apply wp_loop_S.
  - unfold sh_line, getcmd. wp_steps. cbn [sbuf input emit set_buf]. rewrite Ein. cbn [fmap list_fmap concat].
    change (Ulib.gets ?m 0 100 []) with (mset m 0 x00, @nil byte). cbn [sbuf]. rewrite mset_eq. cbn. wp_steps. cbn. rewrite ?app_nil_l. auto.
  - cbn [fmap list_fmap concat] in Ein. rewrite <- app_assoc in Ein. eapply wp_mono; [apply (sh_line_wp l _ s Hl Ein Hfork)|].
    intros r s1 (-> & E1 & E2). eapply wp_mono; [apply (IH fuel s1 E1); cbn in Hf; lia|]. intros r s2 [-> E3]. split; [reflexivity|].
    rewrite E3, E2. cbn [fmap list_fmap concat]. rewrite <- !app_assoc. reflexivity.
Qed.
End Main.
End ShMain.
