(* ===== verification/Spinlock.v ===== *)
(** * Spinlocks: kernel/spinlock.c on many harts

    One lock, shared by the harts; every access of the lock's fields is a step
    of its own and the harts interleave freely.  [acquire] and [release] are
    the paths of the step relation from [Outside] to [Inside] and back. *)

From S2P Require Import Prelude.

Module Spinlock.

(** ** Interrupt nesting *)

(** The [struct cpu] fields of one hart and its interrupt-enable bit. *)
Record cpu := Cpu { noff : Z; intena : bool; intr : bool }.

Definition push_off (c : cpu) : cpu :=
  let old := intr c in
  Cpu (noff c + 1) (if noff c =? 0 then old else intena c) false.

(** [None] is a panic. *)
Definition pop_off (c : cpu) : option cpu :=
  if intr c then None
  else if noff c <? 1 then None
  else
    let n := noff c - 1 in
    Some (Cpu n (intena c) (if (n =? 0) && intena c then true else intr c)).

(** ** The lock and the program points *)

Record spinlock := Lock { locked : bool; lk_cpu : option nat }.

Definition initlock : spinlock := Lock false None.

Inductive pc :=
| Outside
| AcqHolding1       (** [holding]: reads lk->locked *)
| AcqHolding2       (** ... and lk->cpu *)
| AcqSwap           (** the test-and-set *)
| AcqCpu            (** lk->cpu = mycpu() *)
| Inside
| RelHolding1
| RelHolding2
| RelCpu            (** lk->cpu = 0 *)
| RelSwap           (** the lock release *)
| RelPop            (** pop_off *)
| Panicked (why : string).

Record state := State { lk : spinlock; cpus : nat -> cpu; pcs : nat -> pc }.

Definition goto (h : nat) (p : pc) (s : state) : state := State (lk s) (cpus s) (<[h:=p]> (pcs s)).
Definition set_lk (l : spinlock) (s : state) : state := State l (cpus s) (pcs s).
Definition set_cpu (h : nat) (c : cpu) (s : state) : state := State (lk s) (<[h:=c]> (cpus s)) (pcs s).

(** One step of hart [h]; [None] when it has nothing to do in this file. *)
Definition advance (h : nat) (s : state) : option state :=
  match pcs s h with
  | Outside => Some (goto h AcqHolding1 (set_cpu h (push_off (cpus s h)) s))
  | AcqHolding1 => Some (goto h (if locked (lk s) then AcqHolding2 else AcqSwap) s)
  | AcqHolding2 => Some (goto h (if bool_decide (lk_cpu (lk s) = Some h) then Panicked "acquire" else AcqSwap) s)
  | AcqSwap =>
      if locked (lk s) then Some s
      else Some (goto h AcqCpu (set_lk (Lock true (lk_cpu (lk s))) s))
  | AcqCpu => Some (goto h Inside (set_lk (Lock (locked (lk s)) (Some h)) s))
  | Inside => Some (goto h RelHolding1 s)
  | RelHolding1 => Some (goto h (if locked (lk s) then RelHolding2 else Panicked "release") s)
  | RelHolding2 => Some (goto h (if bool_decide (lk_cpu (lk s) = Some h) then RelCpu else Panicked "release") s)
  | RelCpu => Some (goto h RelSwap (set_lk (Lock (locked (lk s)) None) s))
  | RelSwap => Some (goto h RelPop (set_lk (Lock false (lk_cpu (lk s))) s))
  | RelPop =>
      match pop_off (cpus s h) with
      | Some c => Some (goto h Outside (set_cpu h c s))
      | None => Some (goto h (Panicked "pop_off") s)
      end
  | Panicked _ => None
  end.

(** Outside and inside the critical section a hart nests other locks; the
    nesting this lock added is not undone by them.  Outside any lock it may
    turn its interrupts on and off. *)
Inductive step : state -> state -> Prop :=
| step_code h s s' : advance h s = Some s' -> step s s'
| step_push h s : pcs s h = Outside \/ pcs s h = Inside -> step s (set_cpu h (push_off (cpus s h)) s)
| step_pop h s c : pcs s h = Outside \/ (pcs s h = Inside /\ 1 < noff (cpus s h)) -> 0 < noff (cpus s h) ->
    pop_off (cpus s h) = Some c -> step s (set_cpu h c s)
| step_intr h s b : pcs s h = Outside -> noff (cpus s h) = 0 ->
    step s (set_cpu h (Cpu 0 (intena (cpus s h)) b) s).

Definition init (on : nat -> bool) : state :=
  State initlock (fun h => Cpu 0 false (on h)) (fun _ => Outside).

(** ** The invariant *)

(** The hart owns the lock word ... *)
Definition owns (p : pc) : bool :=
  match p with AcqCpu | Inside | RelHolding1 | RelHolding2 | RelCpu | RelSwap => true | _ => false end.
(** ... and is recorded as its owner. *)
Definition recorded (p : pc) : bool :=
  match p with Inside | RelHolding1 | RelHolding2 | RelCpu => true | _ => false end.
(** ... and is between push_off and pop_off. *)
Definition nested (p : pc) : bool := match p with Outside | Panicked _ => false | _ => true end.

Record inv (s : state) : Prop := Inv {
  i_unique h h' : owns (pcs s h) = true -> owns (pcs s h') = true -> h = h';
  i_locked h : owns (pcs s h) = true -> locked (lk s) = true;
  i_cpu h : lk_cpu (lk s) = Some h <-> recorded (pcs s h) = true;
  i_noff h : 0 <= noff (cpus s h) /\ (nested (pcs s h) = true -> 0 < noff (cpus s h)) /\
             (0 < noff (cpus s h) -> intr (cpus s h) = false);
  i_safe h w : pcs s h <> Panicked w
}.

Lemma init_inv on : inv (init on).
Proof.
  split; cbn; try discriminate.
  - intros h. split; discriminate.
  - intros h. lia.
Qed.

Lemma recorded_owns p : recorded p = true -> owns p = true.
Proof. destruct p; cbn; auto. Qed.

(** A hart that moves without touching the lock. *)
Lemma goto_inv h p s : inv s -> owns p = owns (pcs s h) -> recorded p = recorded (pcs s h) ->
  (nested p = true -> 0 < noff (cpus s h)) -> (forall w, p <> Panicked w) -> inv (goto h p s).
Proof.
  intros [H1 H2 H3 H4 H5] Ho Hr Hn Hp.
  assert (E : forall h', owns (pcs (goto h p s) h') = owns (pcs s h')).
  { intros h'. cbn. destruct (decide (h' = h)) as [->|]; [rewrite fn_lookup_insert; exact Ho | rewrite fn_lookup_insert_ne by congruence; reflexivity]. }
  assert (E' : forall h', recorded (pcs (goto h p s) h') = recorded (pcs s h')).
  { intros h'. cbn. destruct (decide (h' = h)) as [->|]; [rewrite fn_lookup_insert; exact Hr | rewrite fn_lookup_insert_ne by congruence; reflexivity]. }
  split.
  - intros a b. rewrite !E. apply H1.
  - intros a. rewrite E. apply H2.
  - intros a. rewrite E'. apply H3.
  - intros a. cbn. destruct (H4 a) as (H6 & H7 & H8). split; [exact H6|]. split; [|exact H8].
    destruct (decide (a = h)) as [->|]; [rewrite fn_lookup_insert; auto | rewrite fn_lookup_insert_ne by congruence; exact H7].
  - intros a w. cbn. destruct (decide (a = h)) as [->|]; [rewrite fn_lookup_insert; apply Hp | rewrite fn_lookup_insert_ne by congruence; apply H5].
Qed.

Lemma push_off_noff c : 0 <= noff c -> 0 < noff (push_off c) /\ intr (push_off c) = false.
Proof. unfold push_off. cbn. lia. Qed.

Lemma pop_off_some c : 0 < noff c -> intr c = false ->
  exists c', pop_off c = Some c' /\ noff c' = noff c - 1 /\ (0 < noff c' -> intr c' = false).
Proof.
  intros H Hi. unfold pop_off. rewrite Hi. replace (noff c <? 1) with false by lia. eexists. split; [reflexivity|].
  cbn. split; [reflexivity|]. intros H'. replace (noff c - 1 =? 0) with false by lia. reflexivity.
Qed.

(** A change of one hart's nesting. *)
Lemma set_cpu_inv h c s : inv s -> 0 <= noff c -> (nested (pcs s h) = true -> 0 < noff c) ->
  (0 < noff c -> intr c = false) -> inv (set_cpu h c s).
Proof.
  intros [H1 H2 H3 H4 H5] Hc1 Hc2 Hc3. split; try assumption. intros a. cbn.
  destruct (decide (a = h)) as [->|]; [rewrite fn_lookup_insert; auto | rewrite fn_lookup_insert_ne by congruence; apply H4].
Qed.

(** The three writes of the lock. *)
Lemma take_inv h s : inv s -> pcs s h = AcqSwap -> locked (lk s) = false ->
  inv (goto h AcqCpu (set_lk (Lock true (lk_cpu (lk s))) s)).
Proof.
  intros [H1 H2 H3 H4 H5] Hp Hl.
  assert (Hfree : forall a, owns (pcs s a) = false).
  { intros a. destruct (owns (pcs s a)) eqn:E; [|reflexivity]. apply H2 in E. congruence. }
  split; cbn.
  - intros a b. unfold goto. cbn. destruct (decide (a = h)) as [->|Ha], (decide (b = h)) as [->|Hb]; try reflexivity;
      rewrite ?fn_lookup_insert, ?fn_lookup_insert_ne by congruence; rewrite ?Hfree; congruence.
  - reflexivity.
  - intros a. rewrite H3. destruct (decide (a = h)) as [->|Ha].
    + rewrite fn_lookup_insert, Hp. reflexivity.
    + rewrite fn_lookup_insert_ne by congruence. reflexivity.
  - intros a. destruct (H4 a) as (H6 & H7 & H8). split; [exact H6|]. split; [|exact H8]. destruct (decide (a = h)) as [->|Ha].
    + rewrite Hp in H7. intros _. apply H7. reflexivity.
    + rewrite fn_lookup_insert_ne by congruence. exact H7.
  - intros a w. destruct (decide (a = h)) as [->|Ha]; [rewrite fn_lookup_insert; discriminate | rewrite fn_lookup_insert_ne by congruence; apply H5].
Qed.

Lemma owner_write_inv h s p l : inv s -> owns (pcs s h) = true -> nested p = true ->
  locked l = owns p -> (lk_cpu l = if recorded p then Some h else None) -> inv (goto h p (set_lk l s)).
Proof.
  intros [H1 H2 H3 H4 H5] Ho Hn Hl Hc.
  assert (Hother : forall a, a <> h -> owns (pcs s a) = false).
  { intros a Ha. destruct (owns (pcs s a)) eqn:E; [|reflexivity]. destruct Ha. apply H1; assumption. }
  assert (Hother' : forall a, a <> h -> recorded (pcs s a) = false).
  { intros a Ha. destruct (recorded (pcs s a)) eqn:E; [|reflexivity]. apply recorded_owns in E. rewrite Hother in E; congruence. }
  split; cbn.
  - intros a b. destruct (decide (a = h)) as [->|Ha], (decide (b = h)) as [->|Hb]; try reflexivity;
      rewrite ?fn_lookup_insert, ?fn_lookup_insert_ne by congruence; rewrite ?Hother by assumption; congruence.
  - intros a. destruct (decide (a = h)) as [->|Ha].
    + rewrite fn_lookup_insert, Hl. auto.
    + rewrite fn_lookup_insert_ne, Hother by congruence. discriminate.
  - intros a. rewrite Hc. destruct (decide (a = h)) as [->|Ha].
    + rewrite fn_lookup_insert. destruct (recorded p); split; congruence.
    + rewrite fn_lookup_insert_ne, Hother' by congruence. destruct (recorded p); split; congruence.
  - intros a. destruct (H4 a) as (H6 & H7 & H8). split; [exact H6|]. split; [|exact H8]. destruct (decide (a = h)) as [->|Ha].
    + intros _. apply H7. destruct (pcs s h); cbn in Ho; try discriminate; reflexivity.
    + rewrite fn_lookup_insert_ne by congruence. exact H7.
  - intros a w. destruct (decide (a = h)) as [->|Ha].
    + rewrite fn_lookup_insert. intros ->. discriminate.
    + rewrite fn_lookup_insert_ne by congruence. apply H5.
Qed.

Lemma nested_noff h s : inv s -> nested (pcs s h) = true -> 0 < noff (cpus s h) /\ intr (cpus s h) = false.
Proof. intros Hi Hn. destruct (i_noff s Hi h) as (H1 & H2 & H3). auto. Qed.

(** Steps that only move the program counter. *)
Ltac pc_move Hp := apply goto_inv; rewrite ?Hp; try reflexivity; try discriminate; try assumption;
  try (intros _; apply nested_noff; [assumption | rewrite Hp; reflexivity]).

Lemma advance_inv h s s' : inv s -> advance h s = Some s' -> inv s'.
Proof.
  intros Hi. unfold advance. destruct (pcs s h) eqn:Hp; intros Hs; try (injection Hs as <-).
  - destruct (push_off_noff (cpus s h) (proj1 (i_noff s Hi h))) as [Hn1 Hn2].
    apply goto_inv; cbn; rewrite ?Hp, ?fn_lookup_insert; try reflexivity; try discriminate; try (intros _; exact Hn1).
    apply set_cpu_inv; [exact Hi | lia | auto..].
  - destruct (locked (lk s)); pc_move Hp.
  - rewrite bool_decide_false; [pc_move Hp|]. intros Hc. apply (i_cpu s Hi) in Hc. rewrite Hp in Hc. discriminate.
  - destruct (locked (lk s)) eqn:Hl; injection Hs as <-; [exact Hi | apply take_inv; assumption].
  - apply owner_write_inv; rewrite ?Hp; try reflexivity; try assumption.
    cbn. apply (i_locked s Hi h). rewrite Hp. reflexivity.
  - pc_move Hp.
  - rewrite (i_locked s Hi h) by (rewrite Hp; reflexivity). pc_move Hp.
  - rewrite bool_decide_true by (apply (i_cpu s Hi); rewrite Hp; reflexivity). pc_move Hp.
  - apply owner_write_inv; rewrite ?Hp; try reflexivity; try assumption.
    cbn. apply (i_locked s Hi h). rewrite Hp. reflexivity.
  - apply owner_write_inv; rewrite ?Hp; try reflexivity; try assumption.
    cbn. destruct (lk_cpu (lk s)) as [a|] eqn:Ec; [|reflexivity]. apply (i_cpu s Hi) in Ec. pose proof (recorded_owns _ Ec) as Eo.
    assert (a = h) by (apply (i_unique s Hi); [exact Eo | rewrite Hp; reflexivity]). subst a. rewrite Hp in Ec. discriminate.
  - destruct (nested_noff h s Hi ltac:(rewrite Hp; reflexivity)) as [Hn1 Hn2].
    destruct (pop_off_some (cpus s h) Hn1 Hn2) as (c & E & Hc1 & Hc2). rewrite E in Hs. injection Hs as <-.
    change (inv (set_cpu h c (goto h Outside s))). apply set_cpu_inv; cbn; rewrite ?fn_lookup_insert; try discriminate; try lia.
    pc_move Hp.
  - discriminate.
Qed.

Lemma step_inv s s' : inv s -> step s s' -> inv s'.
Proof.
  intros Hi Hs. revert Hi. destruct Hs as [h s1 s2 H|h s1 H|h s1 c H Hn E|h s1 b H Hn]; intros Hi.
  - exact (advance_inv h s1 s2 Hi H).
  - destruct (push_off_noff (cpus s1 h) (proj1 (i_noff s1 Hi h))) as [Hn1 Hn2]. apply set_cpu_inv; auto with lia.
  - destruct (pop_off_some (cpus s1 h) Hn (proj2 (proj2 (i_noff s1 Hi h)) Hn)) as (c' & E' & Hc1 & Hc2).
    rewrite E in E'. injection E' as <-. apply set_cpu_inv; [exact Hi | lia | | exact Hc2].
    destruct H as [-> | [-> H]]; [discriminate | intros _; lia].
  - apply set_cpu_inv; cbn; try assumption; try lia. rewrite H. discriminate.
Qed.

Lemma reachable_inv on s : rtc step (init on) s -> inv s.
Proof. intros H. exact (rtc_invariant step inv _ _ step_inv H (init_inv on)). Qed.

(** [holding], evaluated by hart [h]. *)
Definition holding (h : nat) (l : spinlock) : bool := locked l && bool_decide (lk_cpu l = Some h).

(** ** Matched nesting *)

(** A run of push_off ([true]) and pop_off ([false]). *)
Fixpoint nest (w : list bool) (c : cpu) : option cpu :=
  match w with
  | [] => Some c
  | true :: w' => nest w' (push_off c)
  | false :: w' => match pop_off c with Some c' => nest w' c' | None => None end
  end.

Inductive balanced : list bool -> Prop :=
| bal_nil : balanced []
| bal_nest w w' : balanced w -> balanced w' -> balanced (true :: w ++ false :: w').

Lemma nest_app w w' c : nest (w ++ w') c = match nest w c with Some c' => nest w' c' | None => None end.
Proof.
  revert c. induction w as [|[] w IH]; intros c; cbn; [reflexivity | apply IH|].
  destruct (pop_off c); [apply IH | reflexivity].
Qed.

(** Inside a nesting nothing but the depth can change. *)
Lemma nest_inner w c : balanced w -> 0 < noff c -> intr c = false ->
  exists c', nest w c = Some c' /\ noff c' = noff c /\ intr c' = false /\ intena c' = intena c.
Proof.
  intros Hw. revert c. induction Hw as [|w w' _ IH1 _ IH2]; intros c Hn Hi; [exists c; auto|].
  cbn [nest]. rewrite nest_app. destruct (IH1 (push_off c)) as (c1 & -> & H1 & H2 & H3); [cbn; lia | reflexivity|].
  cbn in H1, H3. replace (noff c =? 0) with false in H3 by lia. cbn [nest].
  unfold pop_off. rewrite H2, H1. replace (noff c + 1 <? 1) with false by lia.
  replace (noff c + 1 - 1 =? 0) with false by lia. cbn [andb].
  destruct (IH2 (Cpu (noff c + 1 - 1) (intena c1) false)) as (c2 & E & H4 & H5 & H6); [cbn; lia | reflexivity|].
  exists c2. cbn in *. split; [exact E|]. split; [lia|]. split; [exact H5 | congruence].
Qed.

(** ** Properties *)

(** C27: on any number of harts, in every interleaving of their accesses to
    the lock, at most one hart is in the critical section, [acquire] and
    [release] never panic, and the hart inside runs with interrupts off and
    is the one [holding] reports. *)
Theorem spinlock_exclusive on s :
  rtc step (init on) s ->
  (forall h h', pcs s h = Inside -> pcs s h' = Inside -> h = h') /\
  (forall h w, pcs s h <> Panicked w) /\
  (forall h, pcs s h = Inside -> holding h (lk s) = true /\ intr (cpus s h) = false /\
     forall h', h' <> h -> holding h' (lk s) = false).
Proof.
  intros H. pose proof (reachable_inv on s H) as Hi. split; [|split; [exact (i_safe s Hi)|]].
  - intros h h' E E'. apply (i_unique s Hi); [rewrite E | rewrite E']; reflexivity.
  - intros h E. unfold holding. rewrite (i_locked s Hi h) by (rewrite E; reflexivity).
    assert (Hc : lk_cpu (lk s) = Some h) by (apply (i_cpu s Hi); rewrite E; reflexivity). rewrite Hc.
    split; [apply bool_decide_true; reflexivity|]. split; [apply (nested_noff h s Hi); rewrite E; reflexivity|].
    intros h' Hne. apply bool_decide_false. congruence.
Qed.

Lemma spinlock_exclusive_witness :
  exists s, rtc step (init (fun _ => true)) s /\ pcs s 0%nat = Inside /\ intr (cpus s 0%nat) = false.
Proof.
  assert (Hrun : forall s l, foldl (fun os h => os ≫= advance h) (Some (init (fun _ => true))) l = Some s -> rtc step (init (fun _ => true)) s).
  { intros s l. revert s. induction l as [|h l IH] using rev_ind; intros s E; [injection E as <-; constructor|].
    rewrite foldl_app in E. cbn in E. destruct (foldl _ _ l) as [s1|] eqn:E1; [|discriminate].
    eapply rtc_r; [apply IH; reflexivity | apply (step_code h); exact E]. }
  destruct (foldl (fun os h => os ≫= advance h) (Some (init (fun _ => true))) [0; 0; 1; 0; 0]%nat) as [s|] eqn:E; [|discriminate].
  exists s. specialize (Hrun s _ E). split; [exact Hrun|].
  assert (Hp : pcs s 0%nat = Inside) by (injection E as <-; reflexivity). split; [exact Hp|].
  destruct (spinlock_exclusive (fun _ => true) s Hrun) as (_ & _ & H3). apply (H3 0%nat Hp).
Defined.

(** matched push_off and pop_off, however deep, never panic and leave the
    nesting depth and the interrupt-enable bit as they were. *)
Theorem push_pop_restores w c :
  balanced w -> 0 <= noff c -> (0 < noff c -> intr c = false) ->
  exists c', nest w c = Some c' /\ noff c' = noff c /\ intr c' = intr c.
Proof.
  intros Hw Hn Hi. destruct (Z.eq_dec (noff c) 0) as [H0|H0].
  - clear Hn Hi. revert c H0. induction Hw as [|w w' Hw _ _ IH]; intros c H0; [exists c; auto|].
    cbn [nest]. rewrite nest_app. destruct (nest_inner w (push_off c) Hw) as (c1 & -> & H1 & H2 & H3); [cbn; lia | reflexivity|].
    cbn in H1, H3. rewrite H0 in H1, H3. cbn in H1, H3. cbn [nest]. unfold pop_off. rewrite H1, H2, H3. cbn.
    destruct (IH (Cpu 0 (intr c) (if intr c then true else false)) eq_refl) as (c2 & E & H4 & H5). exists c2. split; [exact E|].
    cbn in H4, H5. split; [lia|]. rewrite H5. destruct (intr c); reflexivity.
  - destruct (nest_inner w c Hw ltac:(lia) (Hi ltac:(lia))) as (c' & E & H1 & H2 & _). exists c'.
    split; [exact E|]. split; [exact H1|]. rewrite H2, Hi by lia. reflexivity.
Qed.

Lemma push_pop_restores_witness :
  exists c', nest [true; true; false; false; true; false] (Cpu 0 false true) = Some c' /\ noff c' = 0 /\ intr c' = true.
Proof.
  apply (push_pop_restores [true; true; false; false; true; false] (Cpu 0 false true)).
  - apply (bal_nest [true; false] [true; false]); apply (bal_nest [] []); constructor.
  - cbn. lia.
  - cbn. lia.
Defined.
End Spinlock.
