(* ===== verification/ProcDefs.v ===== *)
(** * Process states and the trap frame: kernel/proc.h *)

From S2P Require Import Prelude.

(** [enum procstate] *)
Inductive procstate := UNUSED | USED | SLEEPING | RUNNABLE | RUNNING | ZOMBIE.

#[export] Instance procstate_eq_dec : EqDecision procstate.
Proof. solve_decision. Defined.

(** The offsets in [struct trapframe] the kernel's C code uses; the argument
    registers are [a0] to [a7]. *)
Definition TF_SATP : Z := 0.
Definition TF_KSP : Z := 8.
Definition TF_TRAP : Z := 16.
Definition TF_EPC : Z := 24.
Definition TF_HARTID : Z := 32.
Definition TF_SP : Z := 48.
Definition TF_A (n : Z) : Z := 112 + 8 * n.
Definition TF_SIZE : Z := 288.
