(* ===== verification/Sleeplock.v ===== *)
(** * Sleep locks: kernel/sleeplock.c, with sleep() and wakeup() of
    kernel/proc.c

    The processes that use one sleep lock, interleaved at the granularity of
    spinlock operations and of the writes the spinlocks protect.  A spinlock is
    its holder here ([Spinlock] proves that there is at most one); a process
    blocks at an [acquire] of a held one. *)

From S2P Require Import Prelude ProcDefs.

Module Sleeplock.

(** [acquiresleep], inlining [sleep(lk, &lk->lk)]; [releasesleep], inlining
    [wakeup(lk)]. *)
Inductive pc :=
| Out
| AcqLk             (** acquire(&lk->lk) *)
| AcqTest           (** while (lk->locked) *)
| AcqSet            (** lk->locked = 1; lk->pid = myproc()->pid *)
| AcqRel            (** release(&lk->lk) *)
| SleepLock         (** acquire(&p->lock) *)
| SleepRel          (** release(lk) *)
| SleepMark         (** p->chan = chan; p->state = SLEEPING *)
| SleepSched        (** sched(): the scheduler releases p->lock *)
| Asleep            (** until the scheduler picks the process again *)
| SleepTidy         (** p->chan = 0 *)
| SleepDone         (** release(&p->lock), then acquire(lk) again *)
| Held              (** acquiresleep has returned *)
| RelLk             (** acquire(&lk->lk) *)
| RelSet            (** lk->locked = 0; lk->pid = 0 *)
| WakeScan (k : nat)   (** acquire(&proc[k].lock) *)
| WakeTest (k : nat)   (** the test and the release(&proc[k].lock) *)
| RelRel.           (** release(&lk->lk) *)

Record state := State {
  lk : option nat;                (** holder of lk->lk *)
  locked : bool;
  pid : option nat;               (** the process recorded in lk->pid *)
  plock : nat -> option nat;      (** holder of proc[k].lock *)
  pstate : nat -> procstate;
  chan : nat -> bool;             (** proc[k].chan == lk *)
  pcs : nat -> pc
}.

Definition goto (p : nat) (c : pc) (s : state) : state :=
  State (lk s) (locked s) (pid s) (plock s) (pstate s) (chan s) (<[p:=c]> (pcs s)).
Definition set_lk (o : option nat) (s : state) : state :=
  State o (locked s) (pid s) (plock s) (pstate s) (chan s) (pcs s).
Definition set_owner (b : bool) (o : option nat) (s : state) : state :=
  State (lk s) b o (plock s) (pstate s) (chan s) (pcs s).
Definition set_plock (k : nat) (o : option nat) (s : state) : state :=
  State (lk s) (locked s) (pid s) (<[k:=o]> (plock s)) (pstate s) (chan s) (pcs s).
Definition set_pstate (k : nat) (x : procstate) (s : state) : state :=
  State (lk s) (locked s) (pid s) (plock s) (<[k:=x]> (pstate s)) (chan s) (pcs s).
Definition set_chan (k : nat) (b : bool) (s : state) : state :=
  State (lk s) (locked s) (pid s) (plock s) (pstate s) (<[k:=b]> (chan s)) (pcs s).

Section Procs.
(** The size of the process table. *)
Context (NPROC : nat).

(** One step of process [p]; [None] while it has to wait. *)
Definition advance (p : nat) (s : state) : option state :=
  match pcs s p with
  | Out => Some (goto p AcqLk s)
  | AcqLk => match lk s with None => Some (goto p AcqTest (set_lk (Some p) s)) | Some _ => None end
  | AcqTest => Some (goto p (if locked s then SleepLock else AcqSet) s)
  | AcqSet => Some (goto p AcqRel (set_owner true (Some p) s))
  | AcqRel => Some (goto p Held (set_lk None s))
  | SleepLock => match plock s p with None => Some (goto p SleepRel (set_plock p (Some p) s)) | Some _ => None end
  | SleepRel => Some (goto p SleepMark (set_lk None s))
  | SleepMark => Some (goto p SleepSched (set_pstate p SLEEPING (set_chan p true s)))
  | SleepSched => Some (goto p Asleep (set_plock p None s))
  | Asleep =>
      match plock s p, pstate s p with
      | None, RUNNABLE => Some (goto p SleepTidy (set_pstate p RUNNING (set_plock p (Some p) s)))
      | _, _ => None
      end
  | SleepTidy => Some (goto p SleepDone (set_chan p false s))
  | SleepDone => Some (goto p AcqLk (set_plock p None s))
  | Held => Some (goto p RelLk s)
  | RelLk => match lk s with None => Some (goto p RelSet (set_lk (Some p) s)) | Some _ => None end
  | RelSet => Some (goto p (WakeScan 0) (set_owner false None s))
  | WakeScan k =>
      if (k <? NPROC)%nat then
        if (k =? p)%nat then Some (goto p (WakeScan (S k)) s)
        else match plock s k with None => Some (goto p (WakeTest k) (set_plock k (Some p) s)) | Some _ => None end
      else Some (goto p RelRel s)
  | WakeTest k =>
      let s1 := if bool_decide (pstate s k = SLEEPING) && chan s k then set_pstate k RUNNABLE s else s in
      Some (goto p (WakeScan (S k)) (set_plock k None s1))
  | RelRel => Some (goto p Out (set_lk None s))
  end.

(** Besides, [kill] makes any sleeping process runnable under its lock. *)
Inductive step : state -> state -> Prop :=
| step_code p s s' : (p < NPROC)%nat -> advance p s = Some s' -> step s s'
| step_kill p s : plock s p = None -> pstate s p = SLEEPING -> step s (set_pstate p RUNNABLE s).

Definition init : state :=
  State None false None (fun _ => None) (fun _ => RUNNING) (fun _ => false) (fun _ => Out).

(** ** The invariant *)

(** holds lk->lk *)
Definition has_lk (c : pc) : bool :=
  match c with
  | AcqTest | AcqSet | AcqRel | SleepLock | SleepRel | RelSet | WakeScan _ | WakeTest _ | RelRel => true
  | _ => false
  end.
(** holds its own p->lock *)
Definition has_plock (c : pc) : bool :=
  match c with SleepRel | SleepMark | SleepSched | SleepTidy | SleepDone => true | _ => false end.
(** holds the sleep lock *)
Definition has_sleep (c : pc) : bool :=
  match c with AcqRel | Held | RelLk | RelSet => true | _ => false end.
(** has decided to sleep *)
Definition sleeper (c : pc) : bool :=
  match c with SleepLock | SleepRel | SleepMark | SleepSched | Asleep => true | _ => false end.
(** a wakeup that has not passed process [p] *)
Definition will_wake (c : pc) (p : nat) : bool :=
  match c with WakeScan k | WakeTest k => (k <=? p)%nat | _ => false end.

(** who may hold proc[k].lock *)
Definition holds_plock (q : nat) (c : pc) (k : nat) : Prop :=
  (q = k /\ has_plock c = true) \/ c = WakeTest k.

Record inv (s : state) : Prop := Inv {
  i_lk p : lk s = Some p <-> has_lk (pcs s p) = true;
  i_plock k q : plock s k = Some q <-> holds_plock q (pcs s q) k;
  i_pid p : pid s = Some p <-> has_sleep (pcs s p) = true;
  i_locked : locked s = true <-> pid s <> None;
  i_decided p : pcs s p = SleepLock \/ pcs s p = SleepRel -> locked s = true;
  i_free p : pcs s p = AcqSet -> locked s = false;
  i_state p : pcs s p = Asleep \/ pcs s p = SleepSched -> chan s p = true /\ (pstate s p = SLEEPING \/ pstate s p = RUNNABLE);
  i_wake p : sleeper (pcs s p) = true -> (pcs s p = Asleep -> pstate s p = SLEEPING) ->
    locked s = true \/ exists q, will_wake (pcs s q) p = true;
  i_table p : (NPROC <= p)%nat -> pcs s p = Out
}.

Lemma sleep_init_inv : inv init.
Proof.
  split; cbn; try (intros; split; discriminate); try discriminate; try reflexivity; try (intros; intuition discriminate).
  intros k q. unfold holds_plock. split; [discriminate|]. intros [[_ H]|H]; discriminate.
Qed.

(** [pcs] of a state after process [p] moved. *)
Lemma pcs_goto p c s q : pcs (goto p c s) q = if decide (q = p) then c else pcs s q.
Proof.
  cbn. destruct (decide (q = p)) as [->|Hne]; [apply fn_lookup_insert | apply fn_lookup_insert_ne; congruence].
Qed.

(** The two kinds of exclusive ownership, of lk->lk and of the sleep lock,
    follow a move of [p] the same way. *)
Lemma owner_move (f : pc -> bool) p c s (o o' : option nat) :
  (forall q, o = Some q <-> f (pcs s q) = true) ->
  (o' = o /\ f c = f (pcs s p) \/ o = None /\ o' = Some p /\ f c = true \/ o = Some p /\ o' = None /\ f c = false) ->
  forall q, o' = Some q <-> f (pcs (goto p c s) q) = true.
Proof.
  intros H Hcase q. rewrite pcs_goto. destruct (decide (q = p)) as [->|Hne].
  - destruct Hcase as [[-> ->]|[(-> & -> & ->)|(-> & -> & ->)]]; [apply H | tauto | split; discriminate].
  - rewrite <- H. destruct Hcase as [[-> _]|[(-> & -> & _)|(-> & -> & _)]]; [reflexivity | split; congruence | split; congruence].
Qed.

(** ... and the locks of the table: [p] takes or releases the one of [k]. *)
Lemma plock_same p c s : (forall k q, plock s k = Some q <-> holds_plock q (pcs s q) k) ->
  (forall k, holds_plock p c k <-> holds_plock p (pcs s p) k) ->
  forall k q, plock s k = Some q <-> holds_plock q (pcs (goto p c s) q) k.
Proof.
  intros H Hc k q. rewrite pcs_goto, H. destruct (decide (q = p)) as [->|Hne]; [symmetry; apply Hc | reflexivity].
Qed.

Lemma plock_take p c s k0 : (forall k q, plock s k = Some q <-> holds_plock q (pcs s q) k) -> plock s k0 = None ->
  (forall k, holds_plock p c k <-> k = k0 \/ holds_plock p (pcs s p) k) ->
  forall k q, plock (set_plock k0 (Some p) s) k = Some q <-> holds_plock q (pcs (goto p c s) q) k.
Proof.
  intros H Hfree Hc k q. rewrite pcs_goto. cbn. destruct (decide (k = k0)) as [->|Hk].
  - rewrite fn_lookup_insert. destruct (decide (q = p)) as [->|Hne].
    + rewrite Hc. tauto.
    + rewrite <- H, Hfree. split; congruence.
  - rewrite fn_lookup_insert_ne, H by congruence. destruct (decide (q = p)) as [->|Hne]; [rewrite Hc; tauto | reflexivity].
Qed.

Lemma plock_drop p c s k0 : (forall k q, plock s k = Some q <-> holds_plock q (pcs s q) k) -> plock s k0 = Some p ->
  (forall k, holds_plock p c k <-> k <> k0 /\ holds_plock p (pcs s p) k) ->
  forall k q, plock (set_plock k0 None s) k = Some q <-> holds_plock q (pcs (goto p c s) q) k.
Proof.
  intros H Hheld Hc k q. rewrite pcs_goto. cbn. destruct (decide (k = k0)) as [->|Hk].
  - rewrite fn_lookup_insert. destruct (decide (q = p)) as [->|Hne].
    + rewrite Hc. split; [discriminate | tauto].
    + rewrite <- H, Hheld. split; congruence.
  - rewrite fn_lookup_insert_ne, H by congruence. destruct (decide (q = p)) as [->|Hne]; [rewrite Hc; tauto | reflexivity].
Qed.

(** A move of [p] that keeps its promises to wake. *)
Lemma wake_move p c s s' : inv s -> (forall q, pcs s' q = pcs (goto p c s) q) -> locked s' = locked s ->
  (forall q, q <> p -> pcs s q = Asleep -> pstate s' q = SLEEPING -> pstate s q = SLEEPING) ->
  (forall q, q <> p -> sleeper (pcs s q) = true -> (pcs s q = Asleep -> pstate s' q = SLEEPING) ->
     will_wake (pcs s p) q = true -> will_wake c q = true) ->
  (sleeper c = true -> locked s = true \/ (will_wake (pcs s p) p = false /\ sleeper (pcs s p) = true /\ (pcs s p = Asleep -> pstate s p = SLEEPING))) ->
  forall q, sleeper (pcs s' q) = true -> (pcs s' q = Asleep -> pstate s' q = SLEEPING) ->
    locked s' = true \/ exists r, will_wake (pcs s' r) q = true.
Proof.
  intros Hi Epc Eloc Hst Hkeep Hself q. rewrite Epc, Eloc, pcs_goto.
  assert (Hfwd : forall r x, (r = p -> will_wake (pcs s p) x = true -> will_wake c x = true) ->
    will_wake (pcs s r) x = true -> will_wake (pcs s' r) x = true).
  { intros r x Hk Hr. rewrite Epc, pcs_goto. destruct (decide (r = p)) as [->|]; auto. }
  destruct (decide (q = p)) as [->|Hne]; intros Hq Hs.
  - destruct (Hself Hq) as [->|(Hnw & Hsl & Has)]; [left; reflexivity|]. destruct (i_wake s Hi p Hsl Has) as [->|[r Hr]]; [left; reflexivity|].
    right. exists r. apply Hfwd; [|exact Hr]. intros ->. congruence.
  - destruct (i_wake s Hi q Hq) as [->|[r Hr]]; [intros Ha; apply (Hst q Hne Ha); auto | left; reflexivity|].
    right. exists r. apply Hfwd; [|exact Hr]. intros -> Hw. apply (Hkeep q Hne Hq Hs Hw).
Qed.

Ltac at_pc p := let q := fresh "q" in intros q; cbn [pcs goto set_lk set_owner set_plock set_pstate set_chan];
  change (<[p:=?c]> (pcs ?s) q) with (pcs (goto p c s) q); rewrite ?pcs_goto; destruct (decide (q = p)) as [->|?].

(** The fields of the invariant that only depend on program counters. *)
Lemma table_move p c s : (p < NPROC)%nat -> inv s -> forall q, (NPROC <= q)%nat -> pcs (goto p c s) q = Out.
Proof. intros Hp Hi q Hq. rewrite pcs_goto. destruct (decide (q = p)) as [->|]; [lia | apply (i_table s Hi); exact Hq]. Qed.

(** Steps that touch at most lk->lk. *)
Lemma lk_move p c s o : (p < NPROC)%nat -> inv s ->
  (o = lk s /\ has_lk c = has_lk (pcs s p) \/ lk s = None /\ o = Some p /\ has_lk c = true \/ lk s = Some p /\ o = None /\ has_lk c = false) ->
  (forall k, holds_plock p c k <-> holds_plock p (pcs s p) k) -> has_sleep c = has_sleep (pcs s p) ->
  (c = SleepLock \/ c = SleepRel -> locked s = true) -> (c = AcqSet -> locked s = false) -> c <> Asleep -> c <> SleepSched ->
  (forall q, q <> p -> (q < NPROC)%nat -> will_wake (pcs s p) q = true -> will_wake c q = true) ->
  (sleeper c = true -> locked s = true \/ (will_wake (pcs s p) p = false /\ sleeper (pcs s p) = true /\ (pcs s p = Asleep -> pstate s p = SLEEPING))) ->
  inv (goto p c (set_lk o s)).
Proof.
  intros Hp Hi Hlk Hpl Hsl Hdec Hfree Hn1 Hn2 Hkeep Hself. split.
  - refine (owner_move has_lk p c s (lk s) o (i_lk s Hi) _). exact Hlk.
  - exact (plock_same p c s (i_plock s Hi) Hpl).
  - refine (owner_move has_sleep p c s (pid s) (pid s) (i_pid s Hi) _). left. auto.
  - exact (i_locked s Hi).
  - at_pc p; [exact Hdec | apply (i_decided s Hi)].
  - at_pc p; [exact Hfree | apply (i_free s Hi)].
  - at_pc p; [intros [H|H]; congruence | apply (i_state s Hi)].
  - apply (wake_move p c s); try assumption; try reflexivity; auto.
    intros q Hne Hq _ Hw. apply Hkeep; [exact Hne | | exact Hw].
    destruct (Nat.lt_ge_cases q NPROC) as [|Hge]; [assumption|]. apply (i_table s Hi) in Hge. rewrite Hge in Hq. discriminate.
  - exact (table_move p c s Hp Hi).
Qed.

(** The sleep lock is taken, or released before a wakeup. *)
Lemma owner_step p c s b o : (p < NPROC)%nat -> inv s ->
  (pcs s p = AcqSet /\ c = AcqRel /\ b = true /\ o = Some p \/ pcs s p = RelSet /\ c = WakeScan 0 /\ b = false /\ o = None) ->
  inv (goto p c (set_owner b o s)).
Proof.
  intros Hp Hi Hcase.
  assert (Hlkp : lk s = Some p) by (apply (i_lk s Hi); destruct Hcase as [(-> & _)|(-> & _)]; reflexivity).
  assert (Hothers : forall q, has_lk (pcs s q) = true -> q = p) by (intros q Hq; apply (i_lk s Hi) in Hq; congruence).
  split.
  - refine (owner_move has_lk p c s (lk s) (lk s) (i_lk s Hi) _). left.
    destruct Hcase as [(-> & -> & _)|(-> & -> & _)]; auto.
  - refine (plock_same p c s (i_plock s Hi) _). intros k. unfold holds_plock.
    destruct Hcase as [(-> & -> & _)|(-> & -> & _)]; cbn; intuition discriminate.
  - refine (owner_move has_sleep p c s (pid s) o (i_pid s Hi) _). destruct Hcase as [(E & -> & -> & ->)|(E & -> & -> & ->)].
    + right. left. split; [|auto]. pose proof (i_free s Hi p E) as Hf. destruct (pid s) eqn:Epid; [|reflexivity].
      assert (locked s = true) by (apply (i_locked s Hi); congruence). congruence.
    + right. right. split; [apply (i_pid s Hi); rewrite E; reflexivity | auto].
  - cbn. destruct Hcase as [(_ & _ & -> & ->)|(_ & _ & -> & ->)]; split; congruence.
  - at_pc p; [destruct Hcase as [(_ & -> & _)|(_ & -> & _)]; intuition discriminate|].
    intros H. assert (q = p) by (apply Hothers; destruct H as [-> | ->]; reflexivity). congruence.
  - at_pc p; [destruct Hcase as [(_ & -> & _)|(_ & -> & _)]; discriminate|].
    intros H. assert (q = p) by (apply Hothers; rewrite H; reflexivity). congruence.
  - at_pc p; [destruct Hcase as [(_ & -> & _)|(_ & -> & _)]; intuition discriminate | apply (i_state s Hi)].
  - destruct Hcase as [(_ & _ & -> & _)|(_ & -> & -> & _)]; [intros; left; reflexivity|].
    intros q _ _. right. exists p. change (will_wake (pcs (goto p (WakeScan 0) s) p) q = true). rewrite pcs_goto.
    destruct (decide (p = p)); [reflexivity | congruence].
  - exact (table_move p c s Hp Hi).
Qed.

(** Steps of a process on its own entry of the table: [c] is no scan and
    neither takes nor drops lk->lk or the sleep lock. *)
Lemma entry_move p c s s' : (p < NPROC)%nat -> inv s ->
  lk s' = lk s -> locked s' = locked s -> pid s' = pid s -> (forall q, pcs s' q = pcs (goto p c s) q) ->
  (forall q, q <> p -> pstate s' q = pstate s q /\ chan s' q = chan s q) ->
  (forall k q, plock s' k = Some q <-> holds_plock q (pcs (goto p c s) q) k) ->
  has_lk c = has_lk (pcs s p) -> has_sleep c = has_sleep (pcs s p) ->
  (c = SleepLock \/ c = SleepRel -> pcs s p = SleepLock) -> c <> AcqSet ->
  (c = Asleep \/ c = SleepSched -> chan s' p = true /\ (pstate s' p = SLEEPING \/ pstate s' p = RUNNABLE)) ->
  (forall x, will_wake (pcs s p) x = true -> will_wake c x = true) ->
  (sleeper c = true -> sleeper (pcs s p) = true /\ (pcs s p <> Asleep)) ->
  inv s'.
Proof.
  intros Hp Hi Elk Eloc Epid Epc Eoth Hpl H1 H2 H3 H4 H5 H6 H7. split.
  - intros q. rewrite Epc, Elk. apply (owner_move has_lk p c s (lk s) (lk s) (i_lk s Hi)). left. auto.
  - intros k q. rewrite Epc. apply Hpl.
  - intros q. rewrite Epc, Epid. apply (owner_move has_sleep p c s (pid s) (pid s) (i_pid s Hi)). left. auto.
  - rewrite Eloc, Epid. exact (i_locked s Hi).
  - intros q. rewrite Epc, Eloc, pcs_goto. destruct (decide (q = p)) as [->|]; [|apply (i_decided s Hi)].
    intros H. apply (i_decided s Hi p). left. auto.
  - intros q. rewrite Epc, Eloc, pcs_goto. destruct (decide (q = p)) as [->|]; [congruence | apply (i_free s Hi)].
  - intros q. rewrite Epc, pcs_goto. destruct (decide (q = p)) as [->|Hne]; [exact H5|].
    destruct (Eoth q Hne) as [-> ->]. apply (i_state s Hi).
  - apply (wake_move p c s s' Hi Epc Eloc).
    + intros q Hne _ H. destruct (Eoth q Hne) as [<- _]. exact H.
    + intros q _ _ _. apply H6.
    + intros Hs. destruct (H7 Hs) as [Hs1 Hs2]. right. split; [|split; [exact Hs1 | congruence]].
      destruct (pcs s p); cbn in Hs1 |- *; try discriminate; reflexivity.
  - intros q Hq. rewrite Epc. exact (table_move p c s Hp Hi q Hq).
Qed.

(** The scan of [wakeup] at entry [k]. *)
Lemma scan_take p k s : (p < NPROC)%nat -> inv s -> pcs s p = WakeScan k -> k <> p -> plock s k = None ->
  inv (goto p (WakeTest k) (set_plock k (Some p) s)).
Proof.
  intros Hp Hi E Hkp Hfree.
  apply (entry_move p (WakeTest k) s); try assumption; try reflexivity; rewrite ?E; try reflexivity; try discriminate.
  - auto.
  - apply plock_take; [exact (i_plock s Hi) | exact Hfree|]. intros k'. rewrite E. unfold holds_plock. cbn.
    split; [intros [[_ H]|H]; [discriminate | left; congruence] | intros [->|[[_ H]|H]]; [right; reflexivity | discriminate | discriminate]].
  - intuition discriminate.
  - intuition discriminate.
  - auto.
Qed.

Lemma scan_test p k s : (p < NPROC)%nat -> inv s -> pcs s p = WakeTest k ->
  inv (goto p (WakeScan (S k)) (set_plock k None
    (if bool_decide (pstate s k = SLEEPING) && chan s k then set_pstate k RUNNABLE s else s))).
Proof.
  intros Hp Hi E. set (s1 := if bool_decide (pstate s k = SLEEPING) && chan s k then set_pstate k RUNNABLE s else s).
  assert (Hheld : plock s k = Some p) by (apply (i_plock s Hi); right; exact E).
  assert (Hk : k <> p \/ sleeper (pcs s k) = false) by (destruct (decide (k = p)) as [->|]; [right; rewrite E; reflexivity | left; assumption]).
  assert (Hs1 : lk s1 = lk s /\ locked s1 = locked s /\ pid s1 = pid s /\ pcs s1 = pcs s /\ plock s1 = plock s /\ chan s1 = chan s /\
    (forall q, pstate s1 q = if decide (q = k) then (if bool_decide (pstate s k = SLEEPING) && chan s k then RUNNABLE else pstate s k) else pstate s q)).
  { unfold s1. destruct (bool_decide (pstate s k = SLEEPING) && chan s k); repeat (split; [reflexivity|]); intros q; cbn;
      destruct (decide (q = k)) as [->|]; try reflexivity; [apply fn_lookup_insert | apply fn_lookup_insert_ne; congruence]. }
  destruct Hs1 as (E1 & E2 & E3 & E4 & E5 & E6 & E7). clearbody s1.
  (* the entry it tests cannot be about to sleep, and leaves the wait *)
  assert (Hcond : forall q, sleeper (pcs s q) = true -> (pcs s q = Asleep -> pstate s1 q = SLEEPING) -> q <> k).
  { intros q Hq Hst ->. destruct (pcs s k) eqn:Ek; try discriminate.
    - assert (lk s = Some k) by (apply (i_lk s Hi); rewrite Ek; reflexivity).
      assert (lk s = Some p) by (apply (i_lk s Hi); rewrite E; reflexivity). assert (k = p) by congruence. congruence.
    - assert (plock s k = Some k) by (apply (i_plock s Hi); left; rewrite Ek; auto). congruence.
    - assert (plock s k = Some k) by (apply (i_plock s Hi); left; rewrite Ek; auto). congruence.
    - assert (plock s k = Some k) by (apply (i_plock s Hi); left; rewrite Ek; auto). congruence.
    - specialize (Hst eq_refl). rewrite E7 in Hst. destruct (decide (k = k)); [|congruence].
      destruct (i_state s Hi k (or_introl Ek)) as [Hc [Hps|Hps]]; rewrite Hc, Hps in Hst; discriminate. }
  split.
  - intros q. cbn. rewrite E1, E4. exact (owner_move has_lk p (WakeScan (S k)) s (lk s) (lk s) (i_lk s Hi) ltac:(left; rewrite E; auto) q).
  - intros k' q. cbn. rewrite E4, E5. apply (plock_drop p (WakeScan (S k)) s k (i_plock s Hi) Hheld).
    intros k2. rewrite E. unfold holds_plock. cbn. split; [intros [[_ H]|H]; discriminate | intros [Hne [[_ H]|H]]; [discriminate | congruence]].
  - intros q. cbn. rewrite E3, E4. exact (owner_move has_sleep p (WakeScan (S k)) s (pid s) (pid s) (i_pid s Hi) ltac:(left; rewrite E; auto) q).
  - cbn. rewrite E2, E3. exact (i_locked s Hi).
  - intros q. cbn. rewrite E2, E4. change (<[p:=?c]> (pcs s) q) with (pcs (goto p c s) q). rewrite pcs_goto.
    destruct (decide (q = p)); [intuition discriminate | apply (i_decided s Hi)].
  - intros q. cbn. rewrite E2, E4. change (<[p:=?c]> (pcs s) q) with (pcs (goto p c s) q). rewrite pcs_goto.
    destruct (decide (q = p)); [discriminate | apply (i_free s Hi)].
  - intros q. cbn. rewrite E4, E6, E7. change (<[p:=?c]> (pcs s) q) with (pcs (goto p c s) q). rewrite pcs_goto.
    destruct (decide (q = p)); [intuition discriminate|]. intros H. destruct (i_state s Hi q H) as [Hc Hps]. split; [exact Hc|].
    destruct (decide (q = k)) as [->|]; [|exact Hps]. destruct (_ && _); [right; reflexivity | exact Hps].
  - apply (wake_move p (WakeScan (S k)) s); try assumption; try discriminate.
    + intros q. cbn. rewrite E4. reflexivity.
    + intros q Hne Ha. cbn. rewrite E7. destruct (decide (q = k)) as [->|]; [|auto].
      destruct (bool_decide (pstate s k = SLEEPING)) eqn:Eb; [intros _; apply bool_decide_eq_true in Eb; exact Eb | cbn; auto].
    + intros q Hne Hq Hst. rewrite E. cbn [will_wake]. intros Hle. assert (q <> k) by (apply Hcond; [exact Hq | exact Hst]).
      apply Nat.leb_le. apply Nat.leb_le in Hle. lia.
  - intros q Hq. cbn. rewrite E4. exact (table_move p _ s Hp Hi q Hq).
Qed.

Lemma set_lk_id s : set_lk (lk s) s = s.
Proof. destruct s; reflexivity. Qed.

Lemma same_plock p c s : (has_plock c = has_plock (pcs s p)) -> (forall k, c <> WakeTest k) -> (forall k, pcs s p <> WakeTest k) ->
  forall k, holds_plock p c k <-> holds_plock p (pcs s p) k.
Proof. intros E H1 H2 k. unfold holds_plock. rewrite E. split; (intros [H|H]; [left; exact H | exfalso; first [apply (H1 k); exact H | apply (H2 k); exact H]]). Qed.

(** The side conditions of a move between two known program points. *)
Ltac lk_side E Hi := try (apply same_plock; rewrite ?E; [reflexivity | discriminate | discriminate]);
  rewrite ?E; try reflexivity; try discriminate; try assumption; try (intuition discriminate);
  try (left; split; reflexivity); try (right; left; split; [assumption | split; reflexivity]); try (intros; assumption).

Lemma lk_step p s s' : (p < NPROC)%nat -> inv s -> advance p s = Some s' ->
  match pcs s p with Out | AcqLk | AcqTest | AcqRel | SleepRel | Held | RelLk | RelRel => True | _ => False end -> inv s'.
Proof.
  intros Hp Hi Hs Hc. unfold advance in Hs. destruct (pcs s p) eqn:E; try contradiction; clear Hc.
  - injection Hs as <-. rewrite <- (set_lk_id s). apply lk_move; lk_side E Hi.
  - destruct (lk s) eqn:El; [discriminate|]. injection Hs as <-. apply lk_move; lk_side E Hi.
  - destruct (locked s) eqn:El; injection Hs as <-.
    + rewrite <- (set_lk_id s). apply lk_move; lk_side E Hi; intros _; left; exact El.
    + rewrite <- (set_lk_id s). apply lk_move; lk_side E Hi.
  - injection Hs as <-. apply lk_move; lk_side E Hi. right. right. split; [apply (i_lk s Hi); rewrite E; reflexivity | auto].
  - injection Hs as <-. apply lk_move; lk_side E Hi.
    right. right. split; [apply (i_lk s Hi); rewrite E; reflexivity | auto].
  - injection Hs as <-. rewrite <- (set_lk_id s). apply lk_move; lk_side E Hi.
  - destruct (lk s) eqn:El; [discriminate|]. injection Hs as <-. apply lk_move; lk_side E Hi.
  - injection Hs as <-. apply lk_move; lk_side E Hi. right. right. split; [apply (i_lk s Hi); rewrite E; reflexivity | auto].
Qed.

Lemma own_plock p s : inv s -> has_plock (pcs s p) = true -> plock s p = Some p.
Proof. intros Hi H. apply (i_plock s Hi). left. auto. Qed.

(** Taking and dropping one's own entry lock. *)
Lemma plock_enter p c s : inv s -> plock s p = None -> has_plock c = true -> has_plock (pcs s p) = false -> (forall k, pcs s p <> WakeTest k) ->
  forall k q, plock (set_plock p (Some p) s) k = Some q <-> holds_plock q (pcs (goto p c s) q) k.
Proof.
  intros Hi Hf Hc H1 H2. apply plock_take; [exact (i_plock s Hi) | exact Hf|]. intros k. unfold holds_plock. rewrite H1.
  assert (c <> WakeTest k) by (intros ->; discriminate). specialize (H2 k). split.
  - intros [[<- _]|H']; [left; reflexivity | contradiction].
  - intros [->|[[_ H']|H']]; [left; auto | discriminate | contradiction].
Qed.

Lemma plock_leave p c s : inv s -> has_plock (pcs s p) = true -> has_plock c = false -> (forall k, c <> WakeTest k) ->
  forall k q, plock (set_plock p None s) k = Some q <-> holds_plock q (pcs (goto p c s) q) k.
Proof.
  intros Hi H1 Hc H2. apply plock_drop; [exact (i_plock s Hi) | apply own_plock; assumption|]. intros k. unfold holds_plock. rewrite Hc.
  assert (pcs s p <> WakeTest k) by (intros E; rewrite E in H1; discriminate). specialize (H2 k). split.
  - intros [[_ H']|H']; [discriminate | contradiction].
  - intros [Hne [[-> _]|H']]; [congruence | contradiction].
Qed.

Ltac entry_side E Hp := try exact Hp; try reflexivity; rewrite ?E; try reflexivity; try discriminate; try (intuition discriminate); auto.
Ltac others := intros q Hne; cbn; rewrite ?fn_lookup_insert_ne by congruence; auto.

Lemma entry_step p s s' : (p < NPROC)%nat -> inv s -> advance p s = Some s' ->
  match pcs s p with SleepLock | SleepMark | SleepSched | Asleep | SleepTidy | SleepDone => True | _ => False end -> inv s'.
Proof.
  intros Hp Hi Hs Hc. unfold advance in Hs. destruct (pcs s p) eqn:E; try contradiction; clear Hc.
  - destruct (plock s p) eqn:El; [discriminate|]. injection Hs as <-.
    apply (entry_move p SleepRel s); entry_side E Hp. apply plock_enter; rewrite ?E; auto; discriminate.
  - injection Hs as <-. apply (entry_move p SleepSched s); entry_side E Hp.
    + others.
    + apply (plock_same p SleepSched s (i_plock s Hi)). apply same_plock; rewrite ?E; [reflexivity | discriminate..].
    + intros _. cbn. rewrite !fn_lookup_insert. auto.
  - injection Hs as <-. apply (entry_move p Asleep s); entry_side E Hp.
    + apply plock_leave; rewrite ?E; auto; discriminate.
    + intros _. apply (i_state s Hi p). right. exact E.
  - destruct (plock s p) eqn:El; [discriminate|]. destruct (pstate s p) eqn:Est; try discriminate. injection Hs as <-.
    apply (entry_move p SleepTidy s); entry_side E Hp; [others|]. apply plock_enter; rewrite ?E; auto; discriminate.
  - injection Hs as <-. apply (entry_move p SleepDone s); entry_side E Hp; [others|].
    apply (plock_same p SleepDone s (i_plock s Hi)). apply same_plock; rewrite ?E; [reflexivity | discriminate..].
  - injection Hs as <-. apply (entry_move p AcqLk s); entry_side E Hp. apply plock_leave; rewrite ?E; auto; discriminate.
Qed.

Lemma scan_step p k s s' : (p < NPROC)%nat -> inv s -> advance p s = Some s' -> pcs s p = WakeScan k -> inv s'.
Proof.
  intros Hp Hi Hs E. unfold advance in Hs. rewrite E in Hs. destruct (Nat.ltb_spec k NPROC) as [Hk|Hk].
  - destruct (Nat.eqb_spec k p) as [->|Hne].
    + injection Hs as <-. rewrite <- (set_lk_id s). apply lk_move; lk_side E Hi.
      intros q Hne _. cbn [will_wake]. rewrite !Nat.leb_le. lia.
    + destruct (plock s k) eqn:El; [discriminate|]. injection Hs as <-. apply scan_take; assumption.
  - injection Hs as <-. rewrite <- (set_lk_id s). apply lk_move; lk_side E Hi.
    intros q _ Hq. cbn [will_wake]. rewrite Nat.leb_le. lia.
Qed.

Lemma kill_inv p s : inv s -> pstate s p = SLEEPING -> inv (set_pstate p RUNNABLE s).
Proof.
  intros [H1 H2 H3 H4 H5 H6 H7 H8 H9] Hs. split; try assumption.
  - intros q Hq. cbn. destruct (H7 q Hq) as [Hc Hps]. split; [exact Hc|].
    destruct (decide (q = p)) as [->|]; [rewrite fn_lookup_insert; auto | rewrite fn_lookup_insert_ne by congruence; exact Hps].
  - intros q Hq Hst. apply (H8 q Hq). intros Ha. specialize (Hst Ha). cbn in Hst.
    destruct (decide (q = p)) as [->|]; [exact Hs | rewrite fn_lookup_insert_ne in Hst by congruence; exact Hst].
Qed.

Lemma sleep_step_inv s s' : inv s -> step s s' -> inv s'.
Proof.
  intros Hi Hst. revert Hi. destruct Hst as [p s s' Hp Hs|p s Hf Hs]; intros Hi; [|apply kill_inv; assumption].
  destruct (pcs s p) eqn:E;
    try (apply (lk_step p s s' Hp Hi Hs); rewrite E; exact I); try (apply (entry_step p s s' Hp Hi Hs); rewrite E; exact I).
  - unfold advance in Hs. rewrite E in Hs. injection Hs as <-. apply owner_step; auto.
  - unfold advance in Hs. rewrite E in Hs. injection Hs as <-. apply owner_step; auto.
  - apply (scan_step p k s s' Hp Hi Hs E).
  - unfold advance in Hs. rewrite E in Hs. injection Hs as <-. apply scan_test; assumption.
Qed.

Lemma sleep_reachable_inv s : rtc step init s -> inv s.
Proof. intros H. exact (rtc_invariant step inv _ _ sleep_step_inv H sleep_init_inv). Qed.

(** A process that holds an entry lock can move. *)
Lemma plock_moves s k q : inv s -> plock s k = Some q -> exists s', advance q s = Some s'.
Proof.
  intros Hi H. apply (i_plock s Hi) in H as [[_ H]|H]; unfold advance.
  - destruct (pcs s q); try discriminate; eexists; reflexivity.
  - rewrite H. eexists. reflexivity.
Qed.

(** A holder of lk->lk, or whoever it waits for, can move. *)
Lemma lk_moves s p : inv s -> has_lk (pcs s p) = true -> exists q s', advance q s = Some s' /\ pcs s q <> Out.
Proof.
  intros Hi H.
  assert (Hpl : forall k q, plock s k = Some q -> exists q s', advance q s = Some s' /\ pcs s q <> Out).
  { intros k q Hq. destruct (plock_moves s k q Hi Hq) as [s' Hs']. exists q, s'. split; [exact Hs'|].
    apply (i_plock s Hi) in Hq as [[_ Hq]|Hq]; intros E; rewrite E in Hq; discriminate. }
  destruct (pcs s p) eqn:E; try discriminate;
    try (exists p; unfold advance; rewrite E; eexists; split; [reflexivity | discriminate]).
  - destruct (plock s p) as [q|] eqn:Ep; [apply (Hpl p q Ep)|]. exists p. unfold advance. rewrite E, Ep. eexists. split; [reflexivity | discriminate].
  - destruct (plock s k) as [q|] eqn:Ek; [apply (Hpl k q Ek)|]. exists p. unfold advance. rewrite E, Ek.
    destruct (k <? NPROC)%nat, (k =? p)%nat; eexists; (split; [reflexivity | discriminate]).
Qed.

(** A waiting process, when lk->lk is free. *)
Lemma asleep_waits s p : inv s -> lk s = None -> pcs s p = Asleep -> pstate s p = SLEEPING -> exists h, pid s = Some h.
Proof.
  intros Hi Hlk E Hs. destruct (i_wake s Hi p) as [Hl|[q Hq]]; [rewrite E; reflexivity | auto | |].
  - apply (i_locked s Hi) in Hl. destruct (pid s) as [h|]; [exists h; reflexivity | congruence].
  - assert (Hh : lk s = Some q) by (apply (i_lk s Hi); destruct (pcs s q); cbn in Hq; try discriminate; reflexivity). congruence.
Qed.

(** ** Properties *)

(** In every interleaving at most one process is between [acquiresleep]
    and [releasesleep], and the lock records it. *)
Theorem sleeplock_exclusive s :
  rtc step init s ->
  (forall p q, pcs s p = Held -> pcs s q = Held -> p = q) /\
  (forall p, pcs s p = Held -> locked s = true /\ pid s = Some p).
Proof.
  intros H. pose proof (sleep_reachable_inv s H) as Hi.
  assert (Hpid : forall p, pcs s p = Held -> pid s = Some p) by (intros p E; apply (i_pid s Hi); rewrite E; reflexivity).
  split; [intros p q Ep Eq; apply Hpid in Ep, Eq; congruence|]. intros p E. specialize (Hpid p E).
  split; [apply (i_locked s Hi); congruence | exact Hpid].
Qed.

(** C28: no wakeup is lost: when the sleep lock is free and nobody is working
    on it, every process waiting for it has been made runnable, whatever the
    interleaving of [sleep], [wakeup] and [kill]. *)
Theorem no_lost_wakeup s p :
  rtc step init s -> lk s = None -> locked s = false -> pcs s p = Asleep -> pstate s p = RUNNABLE.
Proof.
  intros H Hlk Hfree E. pose proof (sleep_reachable_inv s H) as Hi.
  destruct (i_state s Hi p (or_introl E)) as [_ [Hs|Hs]]; [|exact Hs]. exfalso.
  destruct (asleep_waits s p Hi Hlk E Hs) as [h Hh]. assert (locked s = true) by (apply (i_locked s Hi); congruence). congruence.
Qed.


(** A run of the code. *)
Definition run (l : list nat) : option state := foldl (fun os p => os ≫= advance p) (Some init) l.

Lemma run_reachable l s : Forall (fun p => (p < NPROC)%nat) l -> run l = Some s -> rtc step init s.
Proof.
  unfold run. revert s. induction l as [|p l IH] using rev_ind; intros s Hl E; [injection E as <-; constructor|].
  apply Forall_app in Hl as [Hl Hp]. apply Forall_cons in Hp as [Hp _]. rewrite foldl_app in E. cbn in E.
  destruct (foldl _ _ l) as [s1|] eqn:E1; [|discriminate]. eapply rtc_r; [apply IH; [exact Hl | reflexivity]|].
  apply (step_code p); [exact Hp | exact E].
Qed.
End Procs.

Lemma run_fact {A} n (f : state -> A) l s v : run n l = Some s -> f <$> run n l = Some v -> f s = v.
Proof. intros ->. cbn. congruence. Qed.

(** Process 0 takes the lock, process 1 goes to sleep, process 0 releases. *)
Definition demo_run : list nat :=
  (repeat 0 5 ++ repeat 1 7 ++ repeat 0 8)%nat.

Lemma demo_reachable s : run 2 demo_run = Some s -> rtc (step 2) init s.
Proof. apply run_reachable. repeat (apply Forall_cons; split; [lia|]). apply Forall_nil_2. Qed.

Lemma sleeplock_exclusive_witness : exists s, run 2 (repeat 0 5)%nat = Some s /\ locked s = true /\ pid s = Some 0%nat.
Proof.
  destruct (run 2 (repeat 0 5)%nat) as [s|] eqn:E; [|discriminate]. exists s. split; [reflexivity|].
  assert (Hp : pcs s 0%nat = Held) by (apply (run_fact 2 (fun s => pcs s 0%nat) _ s _ E); vm_compute; reflexivity).
  refine (proj2 (sleeplock_exclusive 2 s _) 0%nat Hp). apply (run_reachable 2 (repeat 0 5)%nat s); [|exact E].
  repeat (apply Forall_cons; split; [lia|]). apply Forall_nil_2.
Defined.

Lemma no_lost_wakeup_witness : exists s, run 2 demo_run = Some s /\ pstate s 1%nat = RUNNABLE.
Proof.
  destruct (run 2 demo_run) as [s|] eqn:E; [|discriminate]. exists s. split; [reflexivity|].
  apply (no_lost_wakeup 2 s 1%nat); [exact (demo_reachable s E) | | |].
  - apply (run_fact 2 lk _ s _ E). vm_compute. reflexivity.
  - apply (run_fact 2 locked _ s _ E). vm_compute. reflexivity.
  - apply (run_fact 2 (fun s => pcs s 1%nat) _ s _ E). vm_compute. reflexivity.
Defined.

End Sleeplock.
