(* ===== verification/Pipe.v ===== *)
(** * Pipes: kernel/pipe.c

    A pipe is a ring buffer under its own lock.  A call runs under that lock
    until it returns or sleeps; a call that sleeps continues at the same place
    with the lock held again.  So the executions of a pipe are the sequences
    of such runs, and the theorems are about all of them. *)

From S2P Require Import Prelude Memory UserMem.

Module Pipe.

Definition PIPESIZE : Z := 512.

Record pipe := Pipe {
  p_lock : bool;
  data : Z -> byte;
  nread : Z;
  nwrite : Z;
  readopen : bool;
  writeopen : bool
}.

(** What [pipealloc] makes of its page. *)
Definition pipeinit (data0 : Z -> byte) : pipe := Pipe false data0 0 0 true true.

(** A run ends with the result of the call, or asleep: a writer with [i]
    bytes written. *)
Inductive ended := Slept (i : Z) | Returned (r : Z).

Section Pipe.
Context {U : Type} `{UserMem U}.

(** The pipe, the memory of the calling process, and whether it was killed. *)
Record pstate := PState { pi : pipe; user : U; killed : bool }.

Definition set_pi (f : pipe -> pipe) (s : pstate) : pstate := PState (f (pi s)) (user s) (killed s).
Definition set_user (u : U) (s : pstate) : pstate := PState (pi s) u (killed s).
Definition set_lock (b : bool) (s : pstate) : pstate :=
  set_pi (fun p => Pipe b (data p) (nread p) (nwrite p) (readopen p) (writeopen p)) s.
Definition push (c : byte) (p : pipe) : pipe :=
  Pipe (p_lock p) (<[nwrite p mod PIPESIZE := c]> (data p)) (nread p) (u32 (nwrite p + 1)) (readopen p) (writeopen p).
Definition pop (p : pipe) : pipe :=
  Pipe (p_lock p) (data p) (u32 (nread p + 1)) (nwrite p) (readopen p) (writeopen p).

Definition lock_pipe : M pstate unit := acquire (fun s => p_lock (pi s)) set_lock.
Definition unlock_pipe : M pstate unit := release (fun s => p_lock (pi s)) set_lock.

(** The body of the loop of [pipewrite]. *)
Definition pipewrite_step (addr n i : Z) : M pstate (Z + ended) :=
  if i <? n then
    p ← gets pi;
    k ← gets killed;
    if negb (readopen p) || k then mret (inr (Returned (-1)))
    else if nwrite p =? u32 (nread p + PIPESIZE) then mret (inr (Slept i))
    else
      '(r, bs) ← zoom user set_user (ucopyin (u64 (addr + i)) 1);
      if r =? -1 then mret (inr (Returned i))
      else
        modify (set_pi (push (default x00 (head bs))));;
        mret (inl (i + 1))
  else mret (inr (Returned i)).

(** [pipewrite(pi, addr, n)], from index [i]. *)
Definition pipewrite (addr n i : Z) : M pstate ended :=
  lock_pipe;;
  r ← loop (S (Z.to_nat (n - i))) (pipewrite_step addr n) i;
  unlock_pipe;;
  mret r.

(** The body of the copy loop of [piperead]. *)
Definition piperead_step (addr n i : Z) : M pstate (Z + Z) :=
  if i <? n then
    p ← gets pi;
    if nread p =? nwrite p then mret (inr i)
    else
      let ch := data p (nread p mod PIPESIZE) in
      modify (set_pi pop);;
      r ← zoom user set_user (ucopyout (u64 (addr + i)) [ch]);
      if r =? -1 then mret (inr i) else mret (inl (i + 1))
  else mret (inr i).

Definition piperead (addr n : Z) : M pstate ended :=
  lock_pipe;;
  p ← gets pi;
  k ← gets killed;
  r ← (if (nread p =? nwrite p) && writeopen p then
         mret (if k : bool then Returned (-1) else Slept 0)
       else
         i ← loop (S (Z.to_nat n)) (piperead_step addr n) 0;
         mret (Returned i));
  unlock_pipe;;
  mret r.

(** Returns whether the page of the pipe is to be freed. *)
Definition pipeclose (writable : bool) : M pstate bool :=
  lock_pipe;;
  modify (set_pi (fun p => if writable
    then Pipe (p_lock p) (data p) (nread p) (nwrite p) (readopen p) false
    else Pipe (p_lock p) (data p) (nread p) (nwrite p) false (writeopen p)));;
  p ← gets pi;
  unlock_pipe;;
  mret (negb (readopen p) && negb (writeopen p)).

(** ** The contents of a pipe *)

(** The bytes in the buffer, oldest first. *)
Record holds (p : pipe) (buf : list byte) : Prop := Holds {
  h_range : 0 <= nread p < 2 ^ 32;
  h_len : Z.of_nat (length buf) <= PIPESIZE;
  h_nwrite : nwrite p = u32 (nread p + Z.of_nat (length buf));
  h_data : forall i b, buf !! i = Some b -> data p ((nread p + Z.of_nat i) mod PIPESIZE) = b
}.

Lemma pipeinit_holds d : holds (pipeinit d) [].
Proof. split; cbn; [lia | unfold PIPESIZE; lia | reflexivity | intros i b Hi; discriminate]. Qed.

Lemma mod_wrap z : u32 z mod PIPESIZE = z mod PIPESIZE.
Proof. unfold u32, PIPESIZE. zdiv. Qed.

Lemma full_iff p buf : holds p buf -> (nwrite p =? u32 (nread p + PIPESIZE)) = (Z.of_nat (length buf) =? PIPESIZE).
Proof. intros [H1 H2 H3 _]. rewrite H3. unfold u32, PIPESIZE in *. zdiv. Qed.

Lemma empty_iff p buf : holds p buf -> (nread p =? nwrite p) = (Z.of_nat (length buf) =? 0).
Proof. intros [H1 H2 H3 _]. rewrite H3. unfold u32, PIPESIZE in *. zdiv. Qed.

Lemma push_holds p buf c : holds p buf -> Z.of_nat (length buf) < PIPESIZE -> holds (push c p) (buf ++ [c]).
Proof.
  intros [H1 H2 H3 H4] Hlt. split; cbn.
  - exact H1.
  - rewrite length_app. cbn. lia.
  - rewrite length_app, H3. cbn. unfold u32. zdiv.
  - intros i b Hi. assert (E : nwrite p mod PIPESIZE = (nread p + Z.of_nat (length buf)) mod PIPESIZE) by (rewrite H3; apply mod_wrap).
    rewrite E. apply lookup_app_Some in Hi as [Hi|[Hi1 Hi2]].
    + pose proof (lookup_lt_Some _ _ _ Hi). rewrite fn_lookup_insert_ne; [apply H4; exact Hi|]. unfold PIPESIZE in *. zdiv.
    + apply list_lookup_singleton_Some in Hi2 as [Hi2 <-]. replace i with (length buf) by lia. apply fn_lookup_insert.
Qed.

Lemma pop_holds p c buf : holds p (c :: buf) -> data p (nread p mod PIPESIZE) = c /\ holds (pop p) buf.
Proof.
  intros [H1 H2 H3 H4]. cbn [length] in *. split.
  - specialize (H4 O c eq_refl). rewrite Z.add_0_r in H4. exact H4.
  - split; cbn.
    + apply Z.mod_pos_bound. lia.
    + lia.
    + rewrite H3. unfold u32. zdiv.
    + intros i b Hi. specialize (H4 (S i) b Hi). rewrite <- H4. f_equal. unfold u32, PIPESIZE. zdiv.
Qed.

(** ** Runs *)

(** [k] bytes the process sees from [a]. *)
Definition seen (u : U) (a : Z) (k : nat) : list byte :=
  (fun j => default x00 (uview u (a + Z.of_nat j))) <$> seq 0 k.

Lemma seen_snoc u a k : seen u a (S k) = seen u a k ++ [default x00 (uview u (a + Z.of_nat k))].
Proof. unfold seen. rewrite seq_S, fmap_app. reflexivity. Qed.

Lemma length_seen u a k : length (seen u a k) = k.
Proof. unfold seen. rewrite length_fmap, length_seq. reflexivity. Qed.

Lemma seen_ext u u' a k : (forall x, a <= x < a + Z.of_nat k -> uview u x = uview u' x) -> seen u a k = seen u' a k.
Proof.
  intros E. unfold seen. apply list_fmap_ext. intros j x Hj. apply lookup_seq in Hj as [-> Hj]. rewrite E by lia. reflexivity.
Qed.

(** The fields a run of [pipewrite] or [piperead] leaves alone. *)
Definition same_ends (p p' : pipe) : Prop := readopen p' = readopen p /\ writeopen p' = writeopen p /\ p_lock p' = p_lock p.

(** What a run of [pipewrite] from [i] did: it stored the bytes the process
    sees at [addr + i], in order, and stopped for a reason. *)
Definition wrote (addr n i : Z) (buf : list byte) (s : pstate) (r : ended) (s' : pstate) : Prop :=
  exists k, holds (pi s') (buf ++ seen (user s) (addr + i) k) /\ same_ends (pi s) (pi s') /\
    nread (pi s') = nread (pi s) /\ user s' = user s /\ killed s' = killed s /\
    match r with
    | Slept j => j = i + Z.of_nat k /\ j < n /\ Z.of_nat (length buf + k) = PIPESIZE /\ readopen (pi s) = true /\ killed s = false
    | Returned r => r = -1 /\ (readopen (pi s) = false \/ killed s = true) \/
        r = i + Z.of_nat k /\ (r = n \/ r < n /\ uview (user s) (addr + r) = None)
    end.

Lemma pipewrite_loop_wp addr n i buf s :
  holds (pi s) buf -> um_ok (user s) -> 0 <= i <= n -> 0 <= addr -> addr + n <= 2 ^ 64 ->
  wp (loop (S (Z.to_nat (n - i))) (pipewrite_step addr n) i) (wrote addr n i buf s) s.
Proof.
  intros Hh Hu Hi Ha Han.
  apply (wp_loop (fun m j s' => exists k, j = i + Z.of_nat k /\ j <= n /\ m = Z.to_nat (n - j) /\
    holds (pi s') (buf ++ seen (user s) (addr + i) k) /\ same_ends (pi s) (pi s') /\
    nread (pi s') = nread (pi s) /\ user s' = user s /\ killed s' = killed s)) with (k := Z.to_nat (n - i)).
  2:{ exists O. cbn. rewrite app_nil_r. unfold same_ends. repeat (split; [first [lia | assumption | reflexivity | auto]|]). auto. }
  2:{ lia. }
  intros m j s' (k & -> & Hj & -> & Hh' & Hse & Hnr & Eu & Ek). 
  unfold pipewrite_step. destruct (Z.ltb_spec (i + Z.of_nat k) n) as [Hlt|Hge].
  2:{ apply wp_ret. exists k. repeat (split; [auto|]). right. split; [lia | left; lia]. }
  wp_steps. rewrite (proj1 Hse), Ek. destruct (negb (readopen (pi s)) || killed s) eqn:Estop.
  { apply wp_ret. exists k. repeat (split; [auto|]). left. split; [reflexivity|].
    apply orb_true_iff in Estop as [E|E]; [left; destruct (readopen (pi s)); [discriminate | reflexivity] | right; exact E]. }
  apply orb_false_iff in Estop as [Ero%negb_false_iff Ekl]. rewrite (full_iff _ _ Hh'), length_app, length_seen.
  destruct (Z.eqb_spec (Z.of_nat (length buf + k)) PIPESIZE) as [Hfull|Hroom].
  { apply wp_ret. exists k. auto 20. }
  assert (Hroom' : Z.of_nat (length (buf ++ seen (user s) (addr + i) k)) < PIPESIZE).
  { pose proof (h_len _ _ Hh') as Hl. rewrite length_app, length_seen in Hl |- *. lia. }
  wp_steps. rewrite Eu. replace (u64 (addr + (i + Z.of_nat k))) with (addr + (i + Z.of_nat k)) by (unfold u64; rewrite Z.mod_small; lia).
  eapply wp_mono; [apply (ucopyin_law (addr + (i + Z.of_nat k)) 1 (user s) Hu); lia|].
  intros [r bs] u' (-> & Hbs & Hr). destruct Hr as [[-> Hlen]|(-> & Hlen & Hnone)].
  - destruct bs as [|c [|? ?]]; cbn [length] in Hlen; try lia. specialize (Hbs O c eq_refl). cbn [Z.eqb].
    wp_steps. exists (Z.to_nat (n - (i + Z.of_nat k) - 1)). split; [lia|]. exists (S k). cbn [head default].
    split; [lia|]. split; [lia|]. split; [lia|]. split; [|split; [exact Hse | auto]].
    rewrite seen_snoc, app_assoc. replace (default x00 (uview (user s) (addr + i + Z.of_nat k))) with c.
    + cbn. apply push_holds; assumption.
    + rewrite Z.add_0_r in Hbs. replace (addr + i + Z.of_nat k) with (addr + (i + Z.of_nat k)) by lia. rewrite Hbs. reflexivity.
  - apply wp_ret. exists k. cbn [pi user killed set_user]. repeat (split; [auto|]). right. split; [reflexivity|]. right. split; [lia|].
    replace (Z.of_nat (length bs)) with 0 in Hnone by lia. rewrite Z.add_0_r in Hnone. exact Hnone.
Qed.

Lemma pipewrite_wp addr n i buf s :
  holds (pi s) buf -> p_lock (pi s) = false -> um_ok (user s) -> 0 <= i <= n -> 0 <= addr -> addr + n <= 2 ^ 64 ->
  wp (pipewrite addr n i) (wrote addr n i buf s) s.
Proof.
  intros Hh Hl Hu Hi Ha Han. unfold pipewrite. apply wp_bind. apply wp_acquire; [exact Hl|]. apply wp_bind.
  assert (Hh1 : forall b (s1 : pstate) l, holds (pi s1) l -> holds (pi (set_lock b s1)) l) by (intros b s1 l [? ? ? ?]; split; assumption).
  eapply wp_mono; [apply (pipewrite_loop_wp addr n i buf (set_lock true s)); auto|].
  intros r s' (k & Hh' & (H1 & H2 & H3) & Hnr & Eu & Ek & Hr). apply wp_bind. apply wp_release; [exact H3|]. apply wp_ret.
  exists k. split; [apply Hh1; exact Hh'|]. unfold same_ends. cbn in *. auto.
Qed.

(** What a run of [piperead] did: it took the oldest bytes and the process sees
    them at [addr]; a byte that could not be copied out is lost. *)
Definition delivered (addr : Z) (w : list byte) (r : Z) (u u' : U) : Prop :=
  (forall x, uview u' x = if (addr <=? x) && (x <? addr + r) then w !! Z.to_nat (x - addr) else uview u x) /\
  (forall x, addr <= x < addr + r -> uview u x <> None).

Definition took_bytes (addr n : Z) (buf : list byte) (s : pstate) (r : Z) (s' : pstate) : Prop :=
  0 <= r <= n /\ exists w rest, buf = w ++ rest /\ holds (pi s') rest /\ delivered addr w r (user s) (user s') /\
    nread (pi s') = u32 (nread (pi s) + Z.of_nat (length w)) /\
    (r = Z.of_nat (length w) /\ (r = n \/ rest = []) \/ Z.of_nat (length w) = r + 1).

Definition took (addr n : Z) (buf : list byte) (s : pstate) (r : ended) (s' : pstate) : Prop :=
  same_ends (pi s) (pi s') /\ killed s' = killed s /\ um_ok (user s') /\
  match r with
  | Slept _ => pi s' = pi s /\ user s' = user s /\ buf = [] /\ writeopen (pi s) = true /\ killed s = false
  | Returned r => (r = -1 /\ pi s' = pi s /\ user s' = user s /\ buf = [] /\ killed s = true) \/ took_bytes addr n buf s r s'
  end.

Lemma piperead_loop_wp addr n buf s :
  holds (pi s) buf -> um_ok (user s) -> 0 <= n -> 0 <= addr -> addr + n <= 2 ^ 64 ->
  wp (loop (S (Z.to_nat n)) (piperead_step addr n) 0) (fun r s' => same_ends (pi s) (pi s') /\ killed s' = killed s /\ um_ok (user s') /\ took_bytes addr n buf s r s') s.
Proof.
  intros Hh Hu Hn Ha Han.
  apply (wp_loop (fun m j s' => exists w rest, buf = w ++ rest /\ holds (pi s') rest /\ j = Z.of_nat (length w) /\ j <= n /\
    m = Z.to_nat (n - j) /\ same_ends (pi s) (pi s') /\ killed s' = killed s /\ um_ok (user s') /\
    delivered addr w j (user s) (user s') /\ nread (pi s') = u32 (nread (pi s) + j))) with (k := Z.to_nat n).
  2:{ exists [], buf. unfold same_ends. repeat (split; [first [reflexivity | assumption | cbn; lia | solve [auto]]|]).
      split; [|destruct (h_range _ _ Hh); rewrite Z.add_0_r; symmetry; apply u32_small; lia].
      split; [|cbn; lia]. intros x. cbn [length]. destruct ((addr <=? x) && (x <? addr + 0)) eqn:E; [lia | reflexivity]. }
  2:{ lia. }
  intros m j s' (w & rest & -> & Hr & -> & Hj & -> & Hse & Hk & Hu' & [Hd Hd'] & Hnr). unfold piperead_step.
  assert (Hdone : (Z.of_nat (length w) = n \/ rest = []) ->
    same_ends (pi s) (pi s') /\ killed s' = killed s /\ um_ok (user s') /\ took_bytes addr n (w ++ rest) s (Z.of_nat (length w)) s').
  { intros Hstop. split; [exact Hse|]. split; [exact Hk|]. split; [exact Hu'|]. split; [lia|].
    exists w, rest. split; [reflexivity|]. split; [exact Hr|]. split; [exact (conj Hd Hd')|]. split; [exact Hnr|]. left. auto. }
  destruct (Z.ltb_spec (Z.of_nat (length w)) n) as [Hlt|Hge]; [|apply wp_ret, Hdone; left; lia].
  wp_steps. rewrite (empty_iff _ _ Hr). destruct (Z.eqb_spec (Z.of_nat (length rest)) 0) as [He|Hne].
  { apply wp_ret, Hdone. right. destruct rest; [reflexivity | cbn in He; lia]. }
  destruct rest as [|c rest]; [cbn in Hne; lia|]. destruct (pop_holds _ _ _ Hr) as [Ec Hpop]. rewrite Ec.
  wp_steps. cbn [user set_pi]. replace (u64 (addr + Z.of_nat (length w))) with (addr + Z.of_nat (length w)) by (unfold u64; rewrite Z.mod_small; lia).
  eapply wp_mono; [apply (ucopyout_law (addr + Z.of_nat (length w)) [c] (user s') Hu'); lia|].
  intros r u' (Hok & k & Hkl & Hview & Hacc & Hres). cbn [length] in Hkl, Hres.
  assert (Hnr' : nread (pop (pi s')) = u32 (nread (pi s) + Z.of_nat (length (w ++ [c])))).
  { rewrite length_app. cbn. rewrite Hnr. unfold u32. zdiv. }
  destruct Hres as [[-> ->]|[-> Hk0]]; cbn [Z.eqb].
  - apply wp_ret. exists (Z.to_nat (n - Z.of_nat (length w) - 1)). split; [lia|]. exists (w ++ [c]), rest.
    rewrite <- app_assoc. split; [reflexivity|]. split; [exact Hpop|]. rewrite length_app in *. cbn [length] in *.
    split; [lia|]. split; [lia|]. split; [lia|]. split; [exact Hse|]. split; [exact Hk|]. split; [exact Hok|].
    split; [|replace (Z.of_nat (length w) + 1) with (Z.of_nat (length w + 1)) by lia; exact Hnr'].
    split.
    2:{ intros x Hx. destruct (Z.lt_ge_cases x (addr + Z.of_nat (length w))) as [Hx1|Hx1]; [apply Hd'; lia|].
        specialize (Hacc x ltac:(lia)). rewrite Hd in Hacc. replace (_ && _) with false in Hacc by lia. exact Hacc. }
    intros x. cbn [user set_user]. rewrite Hview, Hd.
    destruct (Z.lt_trichotomy x (addr + Z.of_nat (length w))) as [Hx|[Hx|Hx]].
    + replace ((addr + Z.of_nat (length w) <=? x) && (x <? addr + Z.of_nat (length w) + Z.of_nat 1)) with false by lia.
      replace (x <? addr + (Z.of_nat (length w) + 1)) with (x <? addr + Z.of_nat (length w)) by lia.
      destruct ((addr <=? x) && (x <? addr + Z.of_nat (length w))) eqn:Ein; [|reflexivity]. rewrite lookup_app_l by lia. reflexivity.
    + replace (_ && _) with true by lia. replace ((addr <=? x) && (x <? addr + (Z.of_nat (length w) + 1))) with true by lia.
      replace (Z.to_nat (x - (addr + Z.of_nat (length w)))) with O by lia. replace (Z.to_nat (x - addr)) with (length w + 0)%nat by lia.
      rewrite lookup_app_r by lia. replace (length w + 0 - length w)%nat with O by lia. reflexivity.
    + replace ((addr + Z.of_nat (length w) <=? x) && (x <? addr + Z.of_nat (length w) + Z.of_nat 1)) with false by lia.
      replace ((addr <=? x) && (x <? addr + Z.of_nat (length w))) with false by lia.
      replace ((addr <=? x) && (x <? addr + (Z.of_nat (length w) + 1))) with false by lia. reflexivity.
  - apply wp_ret. split; [exact Hse|]. split; [exact Hk|]. split; [exact Hok|]. split; [lia|].
    exists (w ++ [c]), rest. rewrite <- app_assoc. split; [reflexivity|]. split; [exact Hpop|]. split.
    + split; [|exact Hd']. intros x. cbn [user set_user]. rewrite Hview, Hd. replace (_ && _) with false by lia.
      destruct ((addr <=? x) && (x <? addr + Z.of_nat (length w))) eqn:Ein; [|reflexivity]. rewrite lookup_app_l by lia. reflexivity.
    + split; [exact Hnr'|]. right. rewrite length_app. cbn. lia.
Qed.

Lemma piperead_wp addr n buf s :
  holds (pi s) buf -> p_lock (pi s) = false -> um_ok (user s) -> 0 <= n -> 0 <= addr -> addr + n <= 2 ^ 64 ->
  wp (piperead addr n) (took addr n buf s) s.
Proof.
  intros Hh Hl Hu Hn Ha Han. unfold piperead. apply wp_bind. apply wp_acquire; [exact Hl|].
  assert (Hh1 : forall b (s1 : pstate) l, holds (pi s1) l -> holds (pi (set_lock b s1)) l) by (intros b s1 l [? ? ? ?]; split; assumption).
  wp_steps. change (nread (pi (set_lock true s)) =? nwrite (pi (set_lock true s))) with (nread (pi s) =? nwrite (pi s)).
  change (writeopen (pi (set_lock true s))) with (writeopen (pi s)). change (killed (set_lock true s)) with (killed s).
  rewrite (empty_iff _ _ Hh).
  assert (Hback : set_lock false (set_lock true s) = s).
  { destruct s as [[? ? ? ? ? ?] ? ?]. cbn in Hl. subst. reflexivity. }
  destruct ((Z.of_nat (length buf) =? 0) && writeopen (pi s)) eqn:E.
  - apply andb_true_iff in E as [E Ew]. assert (buf = []) as -> by (destruct buf; [reflexivity | cbn in E; lia]).
    wp_steps. apply wp_release; [reflexivity|]. apply wp_ret. rewrite Hback. unfold took, same_ends.
    split; [auto|]. split; [reflexivity|]. split; [exact Hu|]. destruct (killed s) eqn:Ek; [left; auto | auto].
  - wp_steps. eapply wp_mono; [apply (piperead_loop_wp addr n buf (set_lock true s)); auto|].
    intros r s' (Hse & Hk & Hu' & Hr). wp_steps. apply wp_release; [apply Hse|]. apply wp_ret.
    split; [destruct Hse as (? & ? & ?); unfold same_ends; cbn in *; auto|]. split; [exact Hk|]. split; [exact Hu'|].
    destruct Hr as (Hr & w & rest & -> & Hh' & Hrest).
    right. split; [exact Hr|]. exists w, rest. split; [reflexivity|]. split; [apply Hh1; exact Hh' | exact Hrest].
Qed.

(** ** Executions *)

(** The runs of a pipe by any processes: [W] is what writers put in, [R] what
    readers got. *)
Inductive exec : pipe -> list byte -> list byte -> Prop :=
| exec_init d : exec (pipeinit d) [] []
| exec_write p W R u k addr n i r s' : exec p W R -> um_ok u -> 0 <= i <= n -> 0 <= addr -> addr + n <= 2 ^ 64 ->
    pipewrite addr n i (PState p u k) = Ret r s' ->
    exec (pi s') (W ++ seen u (addr + i) (Z.to_nat (u32 (nwrite (pi s') - nwrite p)))) R
| exec_read p W R u k addr n r s' : exec p W R -> um_ok u -> 0 <= n -> 0 <= addr -> addr + n <= 2 ^ 64 ->
    piperead addr n (PState p u k) = Ret (Returned r) s' -> 0 <= r -> u32 (nread (pi s') - nread p) = r ->
    exec (pi s') W (R ++ seen (user s') addr (Z.to_nat r))
| exec_read_none p W R u k addr n e s' : exec p W R -> um_ok u -> 0 <= n -> 0 <= addr -> addr + n <= 2 ^ 64 ->
    piperead addr n (PState p u k) = Ret e s' -> (e = Returned (-1) \/ e = Slept 0) -> exec (pi s') W R
| exec_close p W R u k w f s' : exec p W R -> pipeclose w (PState p u k) = Ret f s' -> exec (pi s') W R.

Lemma seen_delivered addr w r u u' : delivered addr w r u u' -> 0 <= r -> r = Z.of_nat (length w) ->
  seen u' addr (Z.to_nat r) = w.
Proof.
  intros [Hd _] Hr ->. rewrite Nat2Z.id. apply list_eq_same_length with (n := length w); [reflexivity | apply length_seen|].
  intros j x y Hj Hx Hy. unfold seen in Hx. rewrite list_lookup_fmap, lookup_seq_lt in Hx by exact Hj. injection Hx as <-.
  cbn [Nat.add]. rewrite Hd. replace (_ && _) with true by lia. replace (Z.to_nat (addr + Z.of_nat j - addr)) with j by lia. rewrite Hy. reflexivity.
Qed.

Lemma exec_ok p W R : exec p W R -> p_lock p = false /\ exists buf, holds p buf /\ W = R ++ buf.
Proof.
  induction 1 as [d|p W R u k addr n i r s' _ IH Hu Hi Ha Han Hrun|p W R u k addr n r s' _ IH Hu Hn Ha Han Hrun Hr Hcount
    |p W R u k addr n e s' _ IH Hu Hn Ha Han Hrun He|p W R u k w f s' _ IH Hrun].
  - split; [reflexivity|]. exists []. split; [apply pipeinit_holds | reflexivity].
  - destruct IH as (Hl & buf & Hh & ->). pose proof (pipewrite_wp addr n i buf (PState p u k) Hh Hl Hu Hi Ha Han) as Hw.
    unfold wp in Hw. rewrite Hrun in Hw. destruct Hw as (j & Hh' & Hse & Hnr & _). cbn in Hh', Hse, Hnr.
    split; [destruct Hse as (_ & _ & ->); exact Hl|]. exists (buf ++ seen u (addr + i) j). split; [exact Hh'|].
    replace (Z.to_nat (u32 (nwrite (pi s') - nwrite p))) with j; [rewrite app_assoc; reflexivity|].
    pose proof (h_nwrite _ _ Hh) as H1. pose proof (h_nwrite _ _ Hh') as H2. pose proof (h_len _ _ Hh') as H3.
    rewrite length_app, length_seen in H2, H3. rewrite H1, H2, Hnr. unfold u32, PIPESIZE in *. clear - H3. zdiv.
  - destruct IH as (Hl & buf & Hh & ->). pose proof (piperead_wp addr n buf (PState p u k) Hh Hl Hu Hn Ha Han) as Hw.
    unfold wp in Hw. rewrite Hrun in Hw. destruct Hw as (Hse & _ & _ & Hw). cbn in Hse.
    split; [destruct Hse as (_ & _ & ->); exact Hl|]. destruct Hw as [(-> & _)|(_ & w & rest & -> & Hh' & Hd & Hnr & Hend)]; [lia|].
    cbn in Hd, Hnr. pose proof (h_len _ _ Hh) as Hlen. rewrite length_app in Hlen.
    assert (Er : r = Z.of_nat (length w)).
    { destruct Hend as [[Er _]|Er]; [exact Er|]. exfalso. rewrite Hnr in Hcount. pose proof (h_range _ _ Hh).
      unfold u32, PIPESIZE in *. clear - Hcount Er Hlen Hr H0. zdiv. }
    exists rest. split; [exact Hh'|]. rewrite (seen_delivered addr w r u (user s') Hd Hr Er), app_assoc. reflexivity.
  - destruct IH as (Hl & buf & Hh & ->). pose proof (piperead_wp addr n buf (PState p u k) Hh Hl Hu Hn Ha Han) as Hw.
    unfold wp in Hw. rewrite Hrun in Hw. destruct Hw as (Hse & _ & _ & Hw). cbn in Hse.
    split; [destruct Hse as (_ & _ & ->); exact Hl|]. exists buf. split; [|reflexivity].
    destruct He as [-> | ->]; [destruct Hw as [(_ & -> & _)|(Hr & _)]; [exact Hh | lia] | destruct Hw as (-> & _); exact Hh].
  - destruct IH as (Hl & buf & Hh & ->). unfold pipeclose, lock_pipe, unlock_pipe, acquire, release, mbind, M_bind in Hrun.
    cbn in Hrun. rewrite Hl in Hrun. destruct w; cbn in Hrun; injection Hrun as _ <-; cbn; (split; [reflexivity|]);
      exists buf; (split; [|reflexivity]); destruct Hh; split; assumption.
Qed.


(** [pipewrite] returns or sleeps, and for the right reason: it stores the
    bytes of the process in order, sleeps only on a full buffer with a reader
    left, returns -1 only when the read end is closed or the process killed,
    and stops short only at an address the process cannot read. *)
Theorem pipewrite_correct addr n i buf s :
  holds (pi s) buf -> p_lock (pi s) = false -> um_ok (user s) -> 0 <= i <= n -> 0 <= addr -> addr + n <= 2 ^ 64 ->
  wp (pipewrite addr n i) (wrote addr n i buf s) s.
Proof. apply pipewrite_wp. Qed.

(** A [piperead] to an address the process cannot write returns 0 and the
    oldest byte of the pipe is gone. *)
Theorem piperead_fault_drops addr n c rest s :
  holds (pi s) (c :: rest) -> p_lock (pi s) = false -> um_ok (user s) -> 0 < n -> 0 <= addr -> addr + n <= 2 ^ 64 ->
  uview (user s) addr = None ->
  wp (piperead addr n) (fun r s' => r = Returned 0 /\ holds (pi s') rest) s.
Proof.
  intros Hh Hl Hu Hn Ha Han Hno. eapply wp_mono; [apply (piperead_wp addr n (c :: rest) s); auto; lia|].
  intros r s' (_ & _ & _ & Hr). destruct r as [j|r]; [destruct Hr as (_ & _ & E & _); discriminate|].
  destruct Hr as [(_ & _ & _ & E & _)|(Hr & w & rest' & E & Hh' & [_ Hd] & _ & Hend)]; [discriminate|].
  assert (r = 0) as ->.
  { destruct (Z.eq_dec r 0) as [|Hne]; [assumption|]. exfalso. apply (Hd addr); [lia | exact Hno]. }
  split; [reflexivity|]. destruct Hend as [[Hw [Hend|Hend]]|Hw].
  - lia.
  - destruct w; [|cbn in Hw; lia]. cbn in E. congruence.
  - destruct w as [|a [|? ?]]; cbn in Hw; try lia. cbn in E. injection E as _ ->. exact Hh'.
Qed.
End Pipe.

(** ** Examples *)


Lemma pipewrite_correct_witness :
  wp (pipewrite (H := flat_user) 0 2 0)
     (wrote (H := flat_user) 0 2 0 [] (PState (pipeinit (fun _ => x00)) (fun _ => x41) false))
     (PState (pipeinit (fun _ => x00)) (fun _ => x41) false).
Proof.
  apply (pipewrite_correct (H := flat_user)); try lia; try reflexivity; try exact I. apply pipeinit_holds.
Defined.

Lemma piperead_fault_drops_witness :
  wp (piperead (H := flat_user) FLAT 1) (fun r s' => r = Returned 0 /\ holds (pi s') [])
     (PState (push x41 (pipeinit (fun _ => x00))) (fun _ => x00) false).
Proof.
  apply (piperead_fault_drops (H := flat_user) FLAT 1 x41 []); try (unfold FLAT; lia); try reflexivity; try exact I.
  apply (push_holds _ []); [apply pipeinit_holds | reflexivity].
Defined.
End Pipe.
