(* ===== verification/Unix.v ===== *)
(** * Processes, descriptors and pipes as programs see them

    The interleavings of the processes of a program that forks and talks
    through pipes: every process is at a system call, and a step lets one of
    them make its call (or the part of a [write] for which the pipe has
    room).  The calls behave as kernel/sysfile.c, kernel/pipe.c and
    kernel/proc.c make them: descriptors are numbers, the lowest free one
    first, copied by [fork] and closed by [exit]; a pipe is a queue of at
    most PIPESIZE bytes ([Pipe.pipe_fifo]); a read of an empty pipe waits
    while some descriptor can still write to it.  The sizes of the process
    and file tables are parameters.  Killed processes are not modelled. *)

From S2P Require Import Prelude Memory FsDefs Pipe.

Module Unix.

(** What a descriptor refers to: the console or an end of a pipe. *)
Inductive file_end := Console | RE (p : nat) | WE (p : nat).
#[export] Instance file_end_eq_dec : EqDecision file_end.
Proof. solve_decision. Defined.

Inductive call :=
| CPipe
| CFork
| CRead (fd n : Z)
| CWrite (fd : Z) (bs : list byte)
| CClose (fd : Z)
| CWait
| CGetpid
| CExit (status : Z).

Inductive ret :=
| RInt (r : Z)
| RData (r : Z) (bs : list byte)
| RFds (r fd0 fd1 : Z)
| RChild (r status : Z).

Inductive pstat := Live | Zombie (status : Z) | Reaped.

Section Machine.
(** A program: the call of a process in this state, and its state after the
    return. *)
Context {L : Type} (call_of : L -> call) (after : L -> ret -> L).
(** The processes and open files the kernel has room for. *)
Context (nproc nfile : nat).

(** [p_rest]: what a [write] that has begun still has to write. *)
Record process := Process {
  p_loc : L;
  p_fds : list (option file_end);
  p_rest : option (list byte);
  p_parent : option nat;
  p_stat : pstat
}.

Record unix := Machine {
  u_procs : list process;
  u_pipes : list (list byte);
  u_out : list byte
}.

Definition set_procs (ps : list process) (u : unix) : unix := Machine ps (u_pipes u) (u_out u).
Definition set_pipe (j : nat) (q : list byte) (u : unix) : unix := Machine (u_procs u) (<[j := q]> (u_pipes u)) (u_out u).
Definition set_proc (k : nat) (p : process) (u : unix) : unix := set_procs (<[k := p]> (u_procs u)) u.
Definition set_fds (fds : list (option file_end)) (p : process) : process :=
  Process (p_loc p) fds (p_rest p) (p_parent p) (p_stat p).
Definition set_rest (r : option (list byte)) (p : process) : process :=
  Process (p_loc p) (p_fds p) r (p_parent p) (p_stat p).
Definition set_stat (st : pstat) (p : process) : process :=
  Process (p_loc p) (p_fds p) (p_rest p) (p_parent p) st.
Definition set_parent (par : option nat) (p : process) : process :=
  Process (p_loc p) (p_fds p) (p_rest p) par (p_stat p).

(** The call returns. *)
Definition reply (r : ret) (p : process) : process :=
  Process (after (p_loc p) r) (p_fds p) None (p_parent p) (p_stat p).

Definition fdget (p : process) (fd : Z) : option file_end :=
  if fd <? 0 then None else mjoin (p_fds p !! Z.to_nat fd).

(** [fdalloc]: the lowest free descriptor. *)
Fixpoint fdalloc (fds : list (option file_end)) (e : file_end) : option (nat * list (option file_end)) :=
  match fds with
  | [] => None
  | None :: rest => Some (O, Some e :: rest)
  | Some x :: rest => '(i, rest') ← fdalloc rest e; Some (S i, Some x :: rest')
  end.

Definition has_end (e : file_end) (p : process) : bool := existsb (fun x => bool_decide (x = Some e)) (p_fds p).
(** Some descriptor refers to it. *)
Definition is_open (e : file_end) (u : unix) : bool := existsb (has_end e) (u_procs u).

(** Entries of the file table in use: the console and the open ends. *)
Definition files (u : unix) : nat :=
  S (length (filter (fun e => is_open e u = true) (RE <$> seq 0 (length (u_pipes u))) ++
             filter (fun e => is_open e u = true) (WE <$> seq 0 (length (u_pipes u))))).

(** Entries of the process table in use; [init] reaps those without parent. *)
Definition in_use (p : process) : bool :=
  match p_stat p with Live => true | Zombie _ => bool_decide (is_Some (p_parent p)) | Reaped => false end.
Definition procs_used (u : unix) : nat := length (filter (fun p => in_use p = true) (u_procs u)).

Definition pid_of (k : nat) : Z := Z.of_nat k + 3.

Definition do_pipe (k : nat) (p : process) (u : unix) : unix :=
  let j := length (u_pipes u) in
  let fail := set_proc k (reply (RFds (-1) 0 0) p) u in
  if (nfile <? files u + 2)%nat then fail
  else
    match fdalloc (p_fds p) (RE j) with
    | Some (fd0, fds) =>
        match fdalloc fds (WE j) with
        | Some (fd1, fds) =>
            Machine (<[k := reply (RFds 0 (Z.of_nat fd0) (Z.of_nat fd1)) (set_fds fds p)]> (u_procs u)) (u_pipes u ++ [[]]) (u_out u)
        | None => fail
        end
    | None => fail
    end.

Definition do_fork (k : nat) (p : process) (u : unix) : unix :=
  if (nproc <=? procs_used u)%nat then set_proc k (reply (RInt (-1)) p) u
  else
    let child := length (u_procs u) in
    set_procs (<[k := reply (RInt (pid_of child)) p]> (u_procs u) ++ [set_parent (Some k) (reply (RInt 0) p)]) u.

Definition do_read (k : nat) (p : process) (fd n : Z) (u : unix) : option unix :=
  match fdget p fd with
  | Some (RE j) =>
      match u_pipes u !! j with
      | Some [] => if is_open (WE j) u then None else Some (set_proc k (reply (RData 0 []) p) u)
      | Some q =>
          let bs := take (Z.to_nat n) q in
          Some (set_proc k (reply (RData (Z.of_nat (length bs)) bs) p) (set_pipe j (drop (Z.to_nat n) q) u))
      | None => None
      end
  | Some Console => None
  | _ => Some (set_proc k (reply (RData (-1) []) p) u)
  end.

Definition do_write (k : nat) (p : process) (fd : Z) (bs : list byte) (u : unix) : option unix :=
  let len := Z.of_nat (length bs) in
  match fdget p fd with
  | Some Console => Some (set_proc k (reply (RInt len) p) (Machine (u_procs u) (u_pipes u) (u_out u ++ bs)))
  | Some (WE j) =>
      match default bs (p_rest p), u_pipes u !! j with
      | [], _ => Some (set_proc k (reply (RInt len) p) u)
      | rest, Some q =>
          let room := (Z.to_nat Pipe.PIPESIZE - length q)%nat in
          if negb (is_open (RE j) u) then Some (set_proc k (reply (RInt (-1)) p) u)
          else if (room =? 0)%nat then None
          else
            let u := set_pipe j (q ++ take room rest) u in
            match drop room rest with
            | [] => Some (set_proc k (reply (RInt len) p) u)
            | rest' => Some (set_proc k (set_rest (Some rest') p) u)
            end
      | _, None => None
      end
  | _ => Some (set_proc k (reply (RInt (-1)) p) u)
  end.

Definition do_close (k : nat) (p : process) (fd : Z) (u : unix) : unix :=
  match fdget p fd with
  | Some _ => set_proc k (reply (RInt 0) (set_fds (<[Z.to_nat fd := None]> (p_fds p)) p)) u
  | None => set_proc k (reply (RInt (-1)) p) u
  end.

(** The first child of [k] in this state, from index [i]. *)
Fixpoint find_child (k i : nat) (want : pstat -> bool) (ps : list process) : option (nat * process) :=
  match ps with
  | [] => None
  | p :: rest => if bool_decide (p_parent p = Some k) && want (p_stat p) then Some (i, p) else find_child k (S i) want rest
  end.

Definition do_wait (k : nat) (p : process) (u : unix) : option unix :=
  match find_child k 0 (fun st => match st with Zombie _ => true | _ => false end) (u_procs u) with
  | Some (i, c) =>
      let status := match p_stat c with Zombie st => st | _ => 0 end in
      Some (set_proc k (reply (RChild (pid_of i) status) p) (set_proc i (set_stat Reaped c) u))
  | None =>
      match find_child k 0 (fun st => match st with Live => true | _ => false end) (u_procs u) with
      | Some _ => None
      | None => Some (set_proc k (reply (RChild (-1) 0) p) u)
      end
  end.

Definition do_exit (k : nat) (p : process) (status : Z) (u : unix) : unix :=
  let orphan c := if bool_decide (p_parent c = Some k) then set_parent None c else c in
  set_procs (<[k := set_stat (Zombie status) (set_fds (replicate (length (p_fds p)) None) p)]> (orphan <$> u_procs u)) u.

(** Process [k] makes its call, or waits. *)
Definition ustep (k : nat) (u : unix) : option unix :=
  match u_procs u !! k with
  | Some p =>
      match p_stat p with
      | Live =>
          match call_of (p_loc p) with
          | CPipe => Some (do_pipe k p u)
          | CFork => Some (do_fork k p u)
          | CRead fd n => do_read k p fd n u
          | CWrite fd bs => do_write k p fd bs u
          | CClose fd => Some (do_close k p fd u)
          | CWait => do_wait k p u
          | CGetpid => Some (set_proc k (reply (RInt (pid_of k)) p) u)
          | CExit st => Some (do_exit k p st u)
          end
      | _ => None
      end
  | None => None
  end.

(** Some process takes a step. *)
Definition step (u u' : unix) : Prop := exists k, ustep k u = Some u'.

(** The descriptors a program is started with: the console three times. *)
Definition fds0 : list (option file_end) := replicate 3 (Some Console) ++ replicate (Z.to_nat NOFILE - 3) None.

(** The program begins in [l]. *)
Definition start (l : L) : unix := Machine [Process l fds0 None None Live] [] [].

(** Running the processes in the given order, skipping those that wait. *)
Fixpoint run (sched : list nat) (u : unix) : unix :=
  match sched with
  | [] => u
  | k :: rest => run rest (default u (ustep k u))
  end.

Lemma run_reaches sched u : rtc step u (run sched u).
Proof.
  revert u. induction sched as [|k rest IH]; intros u; cbn [run]; [constructor|].
  destruct (ustep k u) as [u'|] eqn:E; cbn [default]; [|apply IH]. eapply rtc_l; [exists k; exact E | apply IH].
Qed.
End Machine.
End Unix.
