(* ===== verification/Primes.v ===== *)
(** * The concurrent sieve: user/primes.c

    A chain of processes connected by pipes.  The first sends 3, 4, ..., MAX;
    each worker prints the first prime it receives, forks its right neighbour
    and sends it every later number.  LOG is not defined, so the log functions
    print nothing and they and the [getpid] of their arguments have no effect. *)

From S2P Require Import Prelude Memory FsDefs Pipe Printf Unix.
Import Unix Printf.

Module Primes.

Definition MAX : Z := 280.

(** [for (int i = 2; i < n; i++) if (n % i == 0) return 0;] from [i]. *)
Fixpoint no_divisor (k : nat) (n i : Z) : bool :=
  match k with
  | O => true
  | S k' => if i <? n then if Z.rem n i =? 0 then false else no_divisor k' n (i + 1) else true
  end.
Definition is_prime (n : Z) : bool := if n <? 3 then n =? 2 else no_divisor (Z.to_nat n) n 2.

Definition int_bytes (x : Z) : list byte := bytes_at (store32 zeroes 0 (u32 x)) 0 4.
(** The variable [x] after [r] bytes were read into it. *)
Definition read_int (x : Z) (bs : list byte) : Z := i32 (load32 (put_bytes (store32 zeroes 0 (u32 x)) 0 bs) 0).

(** The errors that print the process id. *)
Inductive error := EPipe | ECloseWrite | ECloseRead | ELeft | ERead (n : Z) | EChild (status : Z).

(** Where a process is.  The prefix says whose code it is: [M] of main in
    the first process, [C] of its child, [W] of a worker, [F] the end of main. *)
Inductive ctl :=
| MPipe | MFork | MClose | MSend
| CClose1
| WRead | WPipe | WFork | WChild1 | WChild2 | WParent | WSend
| PErr (e : error) | EWait (silent : bool)
| FClose | FWait | Exit (status : Z).

(** The variables ([cur] is the [i] of main's loop); [pending] is what a
    [printf], which writes byte by byte, has still to write. *)
Record loc := Loc {
  pc : ctl;
  pending : list byte;
  left0 : Z; left1 : Z; right0 : Z; right1 : Z;
  num : Z;
  printed : bool;
  cur : Z
}.

Definition set_pc (c : ctl) (l : loc) : loc :=
  Loc c (pending l) (left0 l) (left1 l) (right0 l) (right1 l) (num l) (printed l) (cur l).
Definition print (fmt : string) (ap : list va) (l : loc) : loc :=
  Loc (pc l) (pending l ++ default [] (vprintf (str fmt) ap)) (left0 l) (left1 l) (right0 l) (right1 l) (num l) (printed l) (cur l).
Definition set_left (a b : Z) (l : loc) : loc :=
  Loc (pc l) (pending l) a b (right0 l) (right1 l) (num l) (printed l) (cur l).
Definition set_right (a b : Z) (l : loc) : loc :=
  Loc (pc l) (pending l) (left0 l) (left1 l) a b (num l) (printed l) (cur l).
Definition set_num (n : Z) (l : loc) : loc :=
  Loc (pc l) (pending l) (left0 l) (left1 l) (right0 l) (right1 l) n (printed l) (cur l).
Definition set_printed (b : bool) (l : loc) : loc :=
  Loc (pc l) (pending l) (left0 l) (left1 l) (right0 l) (right1 l) (num l) b (cur l).
Definition set_cur (n : Z) (l : loc) : loc :=
  Loc (pc l) (pending l) (left0 l) (left1 l) (right0 l) (right1 l) (num l) (printed l) n.

Definition NL : string := String (Ascii.ascii_of_nat 10) EmptyString.

(** The head of the worker's loop. *)
Definition loop_head (l : loc) : loc := if left0 l >=? 0 then set_pc WRead l else set_pc (PErr ELeft) l.
(** The head of main's loop. *)
Definition send_head (l : loc) : loc := if cur l <=? MAX then set_pc MSend l else set_pc FClose l.

Definition call_of (l : loc) : call :=
  match pending l with
  | c :: _ => CWrite 1 [c]
  | [] =>
      match pc l with
      | MPipe | WPipe => CPipe
      | MFork | WFork => CFork
      | MClose | WParent => CClose (right0 l)
      | MSend => CWrite (right1 l) (int_bytes (cur l))
      | CClose1 | WChild2 => CClose (left1 l)
      | WRead => CRead (left0 l) 4
      | WChild1 => CClose (left0 l)
      | WSend => CWrite (right1 l) (int_bytes (num l))
      | PErr _ => CGetpid
      | EWait _ | FWait => CWait
      | FClose => CClose (right1 l)
      | Exit st => CExit st
      end
  end.

(** The worker after [read]. *)
Definition after_read (r : Z) (bs : list byte) (l : loc) : loc :=
  if r >? 0 then
    let l := set_num (read_int (num l) bs) l in
    if negb (r =? 4) then
      set_pc (EWait true) (print "Waiting for the child process to finish..." [] (print "ERROR: number of bytes read must be 4." [] l))
    else if negb (printed l) && is_prime (num l) then set_pc WPipe (print ("prime %d" ++ NL) [Slot (num l)] l)
    else if printed l then set_pc WSend l
    else loop_head l
  else if r <? 0 then set_pc (PErr (ERead r)) l
  else set_pc FClose l.

(** What is printed after [getpid], and where the process goes on. *)
Definition after_error (e : error) (pid : Z) (l : loc) : loc :=
  let waiting := print ("Waiting for the child process to finish..." ++ NL) [] in
  match e with
  | EPipe => set_pc (EWait false) (waiting (print ("ERROR: error while creating new pipe, pid: %d" ++ NL) [Slot pid] l))
  | ECloseWrite => loop_head (print ("ERROR: error when closing write end of the left pipe of the new worker. PID: %d" ++ NL) [Slot pid] l)
  | ECloseRead => set_pc (EWait false) (waiting (print ("ERROR: error when closing read end of the right pipe of process with PID: %d" ++ NL) [Slot pid] l))
  | ELeft => set_pc (Exit 1) (print ("ERROR: invalid file descriptor for the read end of the left pipe, PID: %d" ++ NL) [Slot pid] l)
  | ERead n => set_pc (Exit 1) (print ("ERROR: error while reading from the left pipe, PID: %d, read's status: %d" ++ NL) [Slot pid; Slot n] l)
  | EChild st => set_pc (Exit 1) (print ("ERROR: Child process returns status code of %d, current pid: %d" ++ NL) [Slot st; Slot pid] l)
  end.

Definition ret_int (r : ret) : Z := match r with RInt r | RData r _ | RFds r _ _ | RChild r _ => r end.

Definition after (l : loc) (r : ret) : loc :=
  match pending l with
  | _ :: rest => Loc (pc l) rest (left0 l) (left1 l) (right0 l) (right1 l) (num l) (printed l) (cur l)
  | [] =>
      match pc l, r with
      | MPipe, RFds 0 a b => set_pc MFork (set_right a b l)
      | MPipe, _ => set_pc MFork l
      | MFork, _ => if ret_int r =? 0 then set_pc CClose1 (set_left (right0 l) (right1 l) l) else set_pc MClose l
      | MClose, _ => send_head (set_cur 3 l)
      | MSend, _ => send_head (set_cur (cur l + 1) l)
      | CClose1, _ => loop_head (set_printed false (set_num 0 l))
      | WRead, RData n bs => after_read n bs l
      | WRead, _ => l
      | WPipe, RFds 0 a b => set_pc WFork (set_right a b l)
      | WPipe, _ => set_pc (PErr EPipe) l
      | WFork, _ => if ret_int r =? 0 then set_pc WChild1 l else set_pc WParent l
      | WChild1, _ => set_pc WChild2 (set_left (right0 l) (right1 l) l)
      | WChild2, _ => if negb (ret_int r =? 0) then set_pc (PErr ECloseWrite) l else loop_head l
      | WParent, _ => if negb (ret_int r =? 0) then set_pc (PErr ECloseRead) l else loop_head (set_printed true l)
      | WSend, _ => loop_head l
      | PErr e, _ => after_error e (ret_int r) l
      | EWait silent, RChild _ st =>
          set_pc (Exit 1) (print (if silent then "Child process finished. Status code: %d." else "Child process finished. Status code: %d." ++ NL) [Slot st] l)
      | EWait _, _ => l
      | FClose, _ => set_pc FWait l
      | FWait, RChild r st => if negb (r =? -1) && negb (st =? 0) then set_pc (PErr (EChild st)) l else set_pc (Exit 0) l
      | FWait, _ => l
      | Exit _, _ => l
      end
  end.

(** [main] has printed nothing yet: [printf("2\n")] is what it does first. *)
Definition loc0 : loc := Loc MPipe (default [] (vprintf (str ("2" ++ NL)) [])) (-1) (-1) (-1) (-1) 0 false 0.

End Primes.
