(* ===== verification/PrimesSpec.v ===== *)
(** * The sieve prints the primes, whatever the schedule

    The processes of a run are described by their [phase]s: [conc k p] is
    the process [k] of the chain in phase [p], and what a pipe holds is the
    numbers between the next one its writer sends and the next one its reader
    expects.  Every step keeps this description and lowers a measure, and
    only a finished run has no step. *)

From S2P Require Import Prelude Memory FsDefs Pipe Printf Unix Primes.
Import Unix Printf Primes.

(** ** is_prime *)

Lemma no_divisor_spec k n i : 2 <= i -> n - i <= Z.of_nat k ->
  no_divisor k n i = true <-> forall d, i <= d < n -> ~ (d | n).
Proof.
  revert i. induction k as [|k IH]; intros i Hi Hk; cbn [no_divisor].
  - split; [intros _ d Hd; lia | reflexivity].
  - destruct (Z.ltb_spec i n) as [Hlt|Hge]; [|split; [intros _ d Hd; lia | reflexivity]].
    destruct (Z.eqb_spec (Z.rem n i) 0) as [E|E].
    + split; [discriminate|]. intros H. exfalso. apply (H i); [lia|]. apply Z.rem_divide; lia.
    + rewrite IH by lia. split; intros H d Hd.
      * destruct (decide (d = i)) as [->|]; [|apply H; lia]. intros Hdiv. apply E. apply Z.rem_divide; [lia | exact Hdiv].
      * apply H. lia.
Qed.

Lemma is_prime_prime n : is_prime n = true <-> Z.prime n.
Proof.
  unfold is_prime. destruct (Z.ltb_spec n 3) as [Hlt|Hge].
  - rewrite Z.eqb_eq. split; [intros ->; exact Z.prime_2|]. intros H. pose proof (Z.prime_ge_2 n H). lia.
  - rewrite no_divisor_spec by lia. unfold Z.prime. split.
    + intros H. split; [lia|]. intros d Hd. apply H. lia.
    + intros [_ H] d Hd. apply H. lia.
Qed.

(** ** Numbers in pipes *)

Lemma int_bytes_length x : length (int_bytes x) = 4%nat.
Proof. unfold int_bytes. apply length_bytes_at. Qed.

Lemma read_int_bytes old x : - 2 ^ 31 <= x < 2 ^ 31 -> read_int old (int_bytes x) = x.
Proof.
  intros Hx. unfold read_int, load32. rewrite (le_load_ext 4 _ (store32 zeroes 0 (u32 x)) 0 0).
  - unfold store32. rewrite le_load_store_eq. unfold i32, sext, u32. change (8 * Z.of_nat 4) with 32. rewrite !Zmod_mod. case_match; zdiv.
  - intros k Hk. cbn in Hk. rewrite put_bytes_in by (rewrite int_bytes_length; lia). unfold int_bytes. rewrite nth_bytes_at by lia. f_equal. lia.
Qed.

Definition enc (xs : list Z) : list byte := concat (int_bytes <$> xs).

Lemma enc_length xs : length (enc xs) = (4 * length xs)%nat.
Proof. unfold enc. induction xs as [|x xs IH]; cbn [fmap list_fmap concat]; [reflexivity|]. rewrite length_app, int_bytes_length. cbn [length]. cbn in IH. lia. Qed.

Lemma enc_app xs ys : enc (xs ++ ys) = enc xs ++ enc ys.
Proof. unfold enc. rewrite fmap_app. apply concat_app. Qed.

(** The numbers from [a] up to but not including [b]. *)
Definition between (a b : Z) : list byte := enc (seqZ a (b - a)).

Lemma between_length a b : a <= b -> length (between a b) = (4 * Z.to_nat (b - a))%nat.
Proof. intros H. unfold between. rewrite enc_length, length_seqZ. reflexivity. Qed.

Lemma between_first a b : a < b -> between a b = int_bytes a ++ between (a + 1) b.
Proof.
  intros H. unfold between. rewrite seqZ_cons by lia. replace (Z.pred (b - a)) with (b - (a + 1)) by lia. reflexivity.
Qed.

Lemma between_last a b : a <= b -> between a (b + 1) = between a b ++ int_bytes b.
Proof.
  intros H. unfold between. replace (b + 1 - a) with ((b - a) + 1) by lia. rewrite seqZ_app by lia. rewrite enc_app. f_equal.
  replace (a + (b - a)) with b by lia. unfold enc. cbn [seqZ]. cbn. apply app_nil_r.
Qed.

Lemma between_none a : between a a = [].
Proof. unfold between. rewrite Z.sub_diag. reflexivity. Qed.

(** ** What is printed *)

Definition line (p : Z) : list byte := default [] (vprintf (str ("prime %d" ++ NL)) [Slot p]).

(** The text once every prime below [x] was printed. *)
Definition text (x : Z) : list byte := str ("2" ++ NL) ++ concat (line <$> filter (fun p => is_prime p = true) (seqZ 3 (x - 3))).

Lemma text_next x : 3 <= x -> text (x + 1) = text x ++ (if is_prime x then line x else []).
Proof.
  intros Hx. unfold text. replace (x + 1 - 3) with ((x - 3) + 1) by lia. rewrite seqZ_app by lia.
  rewrite filter_app, fmap_app, concat_app, app_assoc. f_equal. replace (3 + (x - 3)) with x by lia.
  change (seqZ x 1) with [x]. rewrite filter_cons. destruct (is_prime x) eqn:E.
  - rewrite decide_True by reflexivity. cbn. apply app_nil_r.
  - rewrite decide_False by discriminate. reflexivity.
Qed.

(** How many primes there are below [x]. *)
Definition count (x : Z) : nat := length (filter (fun p => is_prime p = true) (seqZ 2 (x - 2))).

Lemma count_next x : 2 <= x -> count (x + 1) = (count x + if is_prime x then 1 else 0)%nat.
Proof.
  intros Hx. unfold count. replace (x + 1 - 2) with ((x - 2) + 1) by lia. rewrite seqZ_app by lia. rewrite filter_app, length_app. f_equal.
  replace (2 + (x - 2)) with x by lia. change (seqZ x 1) with [x]. rewrite filter_cons. destruct (is_prime x).
  - rewrite decide_True by reflexivity. reflexivity.
  - rewrite decide_False by discriminate. reflexivity.
Qed.

Lemma count_mono x y : 2 <= x <= y -> (count x <= count y)%nat.
Proof.
  intros H. replace y with (x + Z.of_nat (Z.to_nat (y - x))) by lia. generalize (Z.to_nat (y - x)) as n. induction n as [|n IH]; [rewrite Z.add_0_r; lia|].
  replace (x + Z.of_nat (S n)) with (x + Z.of_nat n + 1) by lia. rewrite count_next by lia. lia.
Qed.

Lemma count_all : count (MAX + 1) = 59%nat.
Proof. vm_compute. reflexivity. Qed.

Lemma lines_short : forall p, 3 <= p <= MAX -> (0 < length (line p) <= 10)%nat.
Proof.
  assert (H : forallb (fun p => (0 <? length (line p))%nat && (length (line p) <=? 10)%nat) (seqZ 3 278) = true) by (vm_compute; reflexivity).
  intros p Hp. rewrite forallb_forall in H. specialize (H p). rewrite <- list_elem_of_In, elem_of_seqZ in H. specialize (H ltac:(unfold MAX in Hp; lia)). lia.
Qed.
