(* ===== verification/PrimesRun.v ===== *)
(** * The runs of the sieve

    A run is described by the [phase] of each process of the chain:
    [conc k p] is process [k] in phase [p], and a pipe holds the numbers
    between the next one its writer sends and the next one its reader
    expects.  Every step keeps this description and lowers a measure; only a
    finished run has no step. *)

From S2P Require Import Prelude Memory FsDefs Pipe Printf Unix Primes PrimesSpec.
Import Unix Printf Primes.

(** ** Phases

    [a] is the next number the process reads, [pr] whether it has printed. *)

Inductive phase :=
| Mprint (rest : list byte) | Mfork | Mclose | Msend (x : Z) | Mfclose | Mfwait | Mexit | Mzombie
| C1
| Wr (a : Z) (pr : bool)
| Wprint (a : Z) (rest : list byte)
| Wfork (a : Z) | Wparent (a : Z) | Wsend (a : Z) | Wc1 (a : Z) | Wc2 (a : Z)
| Wfclose (pr : bool) | Wfwait (pr : bool) | Wexit (pr : bool)
| Wzombie (pr : bool) | Wreaped (pr orphan : bool).

(** The next number a process reads, and the next one it sends. *)
Definition rd (p : phase) : Z :=
  match p with
  | Wr a _ | Wprint a _ | Wfork a | Wparent a | Wsend a | Wc1 a | Wc2 a => a
  | Wfclose _ | Wfwait _ | Wexit _ | Wzombie _ | Wreaped _ _ => MAX + 1
  | _ => 3
  end.
Definition snd (p : phase) : Z :=
  match p with
  | Msend x => x
  | Wr a _ | Wparent a => a
  | Wsend a => a - 1
  | Mprint _ | Mfork | Mclose => 3
  | _ => MAX + 1
  end.

(** It has forked its right neighbour. *)
Definition spawned (p : phase) : bool :=
  match p with
  | Mclose | Msend _ | Mfclose | Mfwait | Mexit | Mzombie => true
  | Wr _ pr | Wfclose pr | Wfwait pr | Wexit pr | Wzombie pr | Wreaped pr _ => pr
  | Wparent _ | Wsend _ => true
  | _ => false
  end.
(** It has made the pipe and not yet forked. *)
Definition forking (p : phase) : bool := match p with Mfork | Wfork _ => true | _ => false end.
(** It has printed and not yet forked. *)
Definition shown (p : phase) : bool := match p with Mprint _ | Mfork | Wprint _ _ | Wfork _ => true | _ => false end.
(** It has closed the pipe to its right. *)
Definition closed (p : phase) : bool :=
  match p with Mfwait | Mexit | Mzombie | Wfwait _ | Wexit _ | Wzombie _ | Wreaped _ _ => true | _ => false end.
(** It has seen the end of its input. *)
Definition ended (p : phase) : bool :=
  match p with Wfclose _ | Wfwait _ | Wexit _ | Wzombie _ | Wreaped _ _ => true | _ => false end.
(** It has waited for its child; it is dead; it is dead and waited for. *)
Definition waited (p : phase) : bool := match p with Mexit | Mzombie | Wexit _ | Wzombie _ | Wreaped _ _ => true | _ => false end.
Definition dead (p : phase) : bool := match p with Mzombie | Wzombie _ | Wreaped _ _ => true | _ => false end.
Definition reaped (p : phase) : bool := match p with Wreaped _ _ => true | _ => false end.
Definition orphaned (p : phase) : bool := match p with Wreaped _ o => o | _ => false end.

(** ** Descriptors

    A worker's left pipe is descriptor 3 or 4, its right pipe the other one
    and 5. *)

Definition lfd (k : nat) : Z := if Nat.odd k then 3 else 4.
Definition rfd (k : nat) : Z := if Nat.odd k then 4 else 3.
Definition lwfd (k : nat) : Z := if (k =? 1)%nat then 4 else 5.
Definition fdl (x y z : option file_end) : list (option file_end) := replicate 3 (Some Console) ++ [x; y; z] ++ replicate 10 None.
Definition fdk (k : nat) (x y z : option file_end) : list (option file_end) := if Nat.odd k then fdl x y z else fdl y x z.
Definition none : list (option file_end) := replicate 16 None.

Definition conc_fds (k : nat) (p : phase) : list (option file_end) :=
  let base := Some (RE (k - 1)) in
  match p with
  | Mprint _ => fds0
  | Mfork | Mclose => fdl (Some (RE 0)) (Some (WE 0)) None
  | Msend _ | Mfclose => fdl None (Some (WE 0)) None
  | Mfwait | Mexit => fds0
  | C1 => fdl (Some (RE 0)) (Some (WE 0)) None
  | Wr _ pr | Wfclose pr => fdk k base None (if pr then Some (WE k) else None)
  | Wprint _ _ | Wfwait _ | Wexit _ => fdk k base None None
  | Wfork _ | Wparent _ => fdk k base (Some (RE k)) (Some (WE k))
  | Wsend _ => fdk k base None (Some (WE k))
  | Wc1 _ => fdk k base (Some (RE (k - 2))) (Some (WE (k - 1)))
  | Wc2 _ => fdk k base None (Some (WE (k - 1)))
  | Mzombie | Wzombie _ | Wreaped _ _ => none
  end.

(** ** Variables *)

Definition last_num (a : Z) : Z := if a =? 3 then 0 else a - 1.
Definition main_loc (c : ctl) (rest : list byte) (r0 r1 x : Z) : loc := Loc c rest (-1) (-1) r0 r1 0 false x.
(** A worker whose right pipe is its own, or still its parent's. *)
Definition work_loc (k : nat) (c : ctl) (rest : list byte) (own pr : bool) (a : Z) : loc :=
  Loc c rest (lfd k) (lwfd k) (if own then rfd k else lfd k) (if own then 5 else lwfd k) (last_num a) pr 0.

Definition conc_loc (k : nat) (p : phase) : loc :=
  match p with
  | Mprint rest => main_loc MPipe rest (-1) (-1) 0
  | Mfork => main_loc MFork [] 3 4 0
  | Mclose => main_loc MClose [] 3 4 0
  | Msend x => main_loc MSend [] 3 4 x
  | Mfclose => main_loc FClose [] 3 4 (MAX + 1)
  | Mfwait => main_loc FWait [] 3 4 (MAX + 1)
  | Mexit | Mzombie => main_loc (Exit 0) [] 3 4 (MAX + 1)
  | C1 => Loc CClose1 [] 3 4 3 4 0 false 0
  | Wr a pr => work_loc k WRead [] pr pr a
  | Wprint a rest => work_loc k WPipe rest false false a
  | Wfork a => work_loc k WFork [] true false a
  | Wparent a => work_loc k WParent [] true false a
  | Wsend a => work_loc k WSend [] true true a
  | Wc1 a => Loc WChild1 [] (lfd (k - 1)) (lwfd (k - 1)) (lfd k) (lwfd k) (last_num a) false 0
  | Wc2 a => work_loc k WChild2 [] false false a
  | Wfclose pr => work_loc k FClose [] pr pr (MAX + 1)
  | Wfwait pr => work_loc k FWait [] pr pr (MAX + 1)
  | Wexit pr | Wzombie pr | Wreaped pr _ => work_loc k (Exit 0) [] pr pr (MAX + 1)
  end.

Definition conc_parent (k : nat) (p : phase) : option nat :=
  match k with
  | O => None
  | S k' => match p with Wreaped _ true => None | _ => Some k' end
  end.
Definition conc_stat (p : phase) : pstat :=
  match p with Mzombie | Wzombie _ => Zombie 0 | Wreaped _ _ => Reaped | _ => Live end.

Definition conc (k : nat) (p : phase) : process :=
  Process (conc_loc k p) (conc_fds k p) None (conc_parent k p) (conc_stat p).

(** ** The chain *)

(** What holds of one process. *)
Definition ok (k : nat) (p : phase) : Prop :=
  match p with
  | Mprint _ | Mfork | Mclose | Mfclose | Mfwait | Mexit | Mzombie => k = 0%nat
  | Msend x => k = 0%nat /\ 3 <= x <= MAX
  | C1 => k = 1%nat
  | Wr a pr => (1 <= k)%nat /\ 3 <= a <= MAX + 1 /\ (pr = true -> 4 <= a)
  | Wprint a _ | Wfork a | Wparent a | Wsend a => (1 <= k)%nat /\ 4 <= a <= MAX + 1
  | Wc1 a | Wc2 a => (2 <= k)%nat /\ 4 <= a <= MAX + 1
  | Wfclose _ | Wfwait _ | Wexit _ | Wzombie _ | Wreaped _ _ => (1 <= k)%nat
  end.

(** What holds of a process and its right neighbour. *)
Record link (p q : phase) : Prop := {
  li_spawned : spawned p = true;
  li_queue : rd q <= snd p <= rd q + 128;
  li_end : ended q = true -> closed p = true;
  li_waited : waited p = reaped q;
  li_orphan : forall pr o, q = Wreaped pr o -> o = dead p
}.

(** What the last process of the chain has still to print. *)
Definition pending_of (p : phase) : list byte := match p with Mprint rest | Wprint _ rest => rest | _ => [] end.

Record chain (u : unix (L := loc)) (ph : list phase) (z : phase) : Prop := {
  ch_procs : u_procs u = imap conc ph;
  ch_last : last ph = Some z;
  ch_spawned : spawned z = false;
  ch_ok : forall k p, ph !! k = Some p -> ok k p;
  ch_link : forall k p q, ph !! k = Some p -> ph !! S k = Some q -> link p q;
  ch_len : length (u_pipes u) = (length ph - 1 + if forking z then 1 else 0)%nat;
  ch_pipe : forall k p q, ph !! k = Some p -> ph !! S k = Some q -> u_pipes u !! k = Some (between (rd q) (snd p));
  ch_new : forking z = true -> u_pipes u !! (length ph - 1)%nat = Some [];
  ch_out : u_out u ++ pending_of z = text (rd z);
  ch_count : length ph = (count (rd z) + if shown z then 0 else 1)%nat
}.

Lemma conc_insert k p' ph : (k < length ph)%nat -> <[k := conc k p']> (imap conc ph) = imap conc (<[k := p']> ph).
Proof.
  intros Hlt. apply list_eq. intros j. rewrite list_lookup_imap. destruct (decide (j = k)) as [->|Hne].
  - rewrite !list_lookup_insert_eq by (rewrite ?length_imap; exact Hlt). reflexivity.
  - rewrite !list_lookup_insert_ne by congruence. rewrite list_lookup_imap. reflexivity.
Qed.

Section Chain.
Context (u : unix (L := loc)) (ph : list phase) (z : phase) (CH : chain u ph z).

Lemma chain_proc k : u_procs u !! k = conc k <$> ph !! k.
Proof. rewrite (ch_procs _ _ _ CH). apply list_lookup_imap. Qed.

Lemma chain_last_at : ph !! (length ph - 1)%nat = Some z.
Proof. pose proof (ch_last _ _ _ CH) as H. rewrite last_lookup in H. rewrite <- H. f_equal. lia. Qed.

Lemma chain_nonempty : (0 < length ph)%nat.
Proof. pose proof chain_last_at as H. apply lookup_lt_Some in H. lia. Qed.

(** A process is the last one exactly when it has not forked. *)
Lemma chain_inner_iff k p : ph !! k = Some p -> if spawned p then exists q, ph !! S k = Some q /\ link p q else p = z /\ k = (length ph - 1)%nat.
Proof.
  intros Hk. pose proof (lookup_lt_Some _ _ _ Hk) as Hlt. destruct (decide (k = length ph - 1)%nat) as [->|Hne].
  - rewrite chain_last_at in Hk. injection Hk as <-. rewrite (ch_spawned _ _ _ CH). auto.
  - destruct (lookup_lt_is_Some_2 ph (S k) ltac:(lia)) as [q Hq]. pose proof (ch_link _ _ _ CH k p q Hk Hq) as Hl.
    rewrite (li_spawned _ _ Hl). eauto.
Qed.

(** One process that is not the last goes on. *)
Lemma chain_inner k p p' u' :
  ph !! k = Some p -> spawned p = true -> ok k p' -> u_procs u' = <[k := conc k p']> (u_procs u) -> u_out u' = u_out u ->
  (forall q, ph !! S k = Some q -> link p q -> link p' q) -> (forall j q, k = S j -> ph !! j = Some q -> link q p -> link q p') ->
  length (u_pipes u') = length (u_pipes u) ->
  (forall q, ph !! S k = Some q -> u_pipes u' !! k = Some (between (rd q) (snd p'))) ->
  (forall j q, k = S j -> ph !! j = Some q -> u_pipes u' !! j = Some (between (rd p') (snd q))) ->
  (forall j, j <> k -> S j <> k -> u_pipes u' !! j = u_pipes u !! j) ->
  chain u' (<[k := p']> ph) z.
Proof.
  intros Hk Hsp Hok Hpr Ho Hl1 Hl2 Hlen Hp1 Hp2 Hp3. pose proof (lookup_lt_Some _ _ _ Hk) as Hlt.
  pose proof (chain_inner_iff k p Hk) as Hin. rewrite Hsp in Hin. destruct Hin as (q & Hq & Hlq). pose proof (lookup_lt_Some _ _ _ Hq) as Hlt2.
  destruct CH as [C1 C2 C3 C4 C5 C6 C7 C8 C9 C10]. constructor; rewrite ?length_insert; try congruence.
  - rewrite Hpr, C1. apply conc_insert, Hlt.
  - rewrite last_lookup, length_insert, list_lookup_insert_ne by lia. rewrite <- last_lookup. exact C2.
  - intros j r. destruct (decide (j = k)) as [->|Hne]; [rewrite list_lookup_insert_eq by exact Hlt; intros E; injection E as <-; exact Hok|].
    rewrite list_lookup_insert_ne by congruence. apply C4.
  - intros j r s. destruct (decide (j = k)) as [->|Hne].
    + rewrite list_lookup_insert_eq by exact Hlt. rewrite list_lookup_insert_ne by lia. intros E Hs. injection E as <-. apply Hl1; [exact Hs|]. eapply C5; eauto.
    + rewrite (list_lookup_insert_ne ph k j) by congruence. destruct (decide (S j = k)) as [<-|Hne2].
      * rewrite list_lookup_insert_eq by exact Hlt. intros Hr E. injection E as <-. apply (Hl2 j); [reflexivity | exact Hr |]. eapply C5; eauto.
      * rewrite list_lookup_insert_ne by congruence. apply C5.
  - intros j r s. destruct (decide (j = k)) as [->|Hne].
    + rewrite list_lookup_insert_eq by exact Hlt. rewrite list_lookup_insert_ne by lia. intros E Hs. injection E as <-. apply Hp1, Hs.
    + rewrite (list_lookup_insert_ne ph k j) by congruence. destruct (decide (S j = k)) as [<-|Hne2].
      * rewrite list_lookup_insert_eq by exact Hlt. intros Hr E. injection E as <-. apply Hp2 with (1 := eq_refl), Hr.
      * rewrite list_lookup_insert_ne by congruence. rewrite Hp3 by assumption. apply C7.
  - intros Hf. rewrite Hp3 by lia. apply C8, Hf.
Qed.

(** The last process goes on without forking. *)
Lemma chain_end p' u' :
  let k := (length ph - 1)%nat in
  spawned p' = false -> ok k p' -> u_procs u' = <[k := conc k p']> (u_procs u) ->
  (forall j q, k = S j -> ph !! j = Some q -> link q z -> link q p') ->
  length (u_pipes u') = (k + if forking p' then 1 else 0)%nat ->
  (forall j q, k = S j -> ph !! j = Some q -> u_pipes u' !! j = Some (between (rd p') (snd q))) ->
  (forall j, (S j < k)%nat -> u_pipes u' !! j = u_pipes u !! j) ->
  (forking p' = true -> u_pipes u' !! k = Some []) ->
  u_out u' ++ pending_of p' = text (rd p') -> length ph = (count (rd p') + if shown p' then 0 else 1)%nat ->
  chain u' (<[k := p']> ph) p'.
Proof.
  intros k Hsp Hok Hpr Hl Hlen Hp1 Hp2 Hp3 Hout Hcnt. pose proof chain_last_at as Hk. fold k in Hk. pose proof (lookup_lt_Some _ _ _ Hk) as Hlt.
  destruct CH as [C1 C2 C3 C4 C5 C6 C7 C8 C9 C10]. constructor; rewrite ?length_insert; auto.
  - rewrite Hpr, C1. apply conc_insert, Hlt.
  - rewrite last_lookup, length_insert. replace (pred (length ph)) with k by (unfold k; lia). apply list_lookup_insert_eq, Hlt.
  - intros j r. destruct (decide (j = k)) as [->|Hne]; [rewrite list_lookup_insert_eq by exact Hlt; intros E; injection E as <-; exact Hok|].
    rewrite list_lookup_insert_ne by congruence. apply C4.
  - intros j r s Hr Hs. pose proof (lookup_lt_Some _ _ _ Hs) as Hj. rewrite length_insert in Hj. rewrite list_lookup_insert_ne in Hr by lia.
    destruct (decide (S j = k)) as [E|Hne2].
    + rewrite E, list_lookup_insert_eq in Hs by exact Hlt. injection Hs as <-. apply (Hl j); [congruence | exact Hr |]. eapply C5; [exact Hr|]. rewrite E. exact Hk.
    + rewrite list_lookup_insert_ne in Hs by congruence. eapply C5; eauto.
  - intros j r s Hr Hs. pose proof (lookup_lt_Some _ _ _ Hs) as Hj. rewrite length_insert in Hj. rewrite list_lookup_insert_ne in Hr by lia.
    destruct (decide (S j = k)) as [E|Hne2].
    + rewrite E, list_lookup_insert_eq in Hs by exact Hlt. injection Hs as <-. apply Hp1; [congruence | exact Hr].
    + rewrite list_lookup_insert_ne in Hs by congruence. rewrite Hp2 by lia. apply C7; assumption.
Qed.

(** The last process forks: it is in phase [p'] now, its child in [q]. *)
Lemma chain_fork p' q u' :
  let k := (length ph - 1)%nat in
  forking z = true -> ok k p' -> ok (S k) q -> spawned q = false -> forking q = false -> pending_of q = [] -> shown q = false ->
  link p' q -> (forall r, link r z -> link r p') -> rd p' = rd z -> rd q = rd z -> snd p' = rd z -> pending_of z = [] -> shown z = true ->
  u_procs u' = <[k := conc k p']> (u_procs u) ++ [conc (S k) q] -> u_pipes u' = u_pipes u -> u_out u' = u_out u ->
  chain u' (<[k := p']> ph ++ [q]) q.
Proof.
  intros k Hf Hok Hokq Hspq Hfq Hpq Hsq Hlpq Hl Er Erq Esnd Hpz Hsz Hpr Hpi Ho. pose proof chain_last_at as Hk. fold k in Hk. pose proof (lookup_lt_Some _ _ _ Hk) as Hlt.
  destruct CH as [C1 C2 C3 C4 C5 C6 C7 C8 C9 C10].
  assert (Hll : forall j, (<[k := p']> ph ++ [q]) !! j = if decide (j = S k) then Some q else <[k := p']> ph !! j).
  { intros j. case_decide as E.
    - subst j. rewrite lookup_app_r by (rewrite length_insert; unfold k; lia). rewrite length_insert. replace (S k - length ph)%nat with 0%nat by (unfold k; lia). reflexivity.
    - destruct (decide (j < length ph)%nat) as [Hj|Hj]; [apply lookup_app_l; rewrite length_insert; exact Hj|].
      rewrite !lookup_ge_None_2; [reflexivity | rewrite length_insert; lia | rewrite length_app, length_insert; cbn; unfold k in *; lia]. }
  constructor; rewrite ?length_app, ?length_insert; cbn [length]; auto.
  - rewrite Hpr, C1, conc_insert, imap_app by exact Hlt. cbn. rewrite length_insert. repeat f_equal. unfold k. lia.
  - apply last_snoc.
  - intros j r. rewrite Hll. case_decide as E; [intros E'; injection E' as <-; subst j; exact Hokq|].
    destruct (decide (j = k)) as [->|Hne]; [rewrite list_lookup_insert_eq by exact Hlt; intros E'; injection E' as <-; exact Hok|].
    rewrite list_lookup_insert_ne by congruence. apply C4.
  - intros j r s. rewrite !Hll. destruct (decide (j = S k)) as [E|Hne0]; [subst j; destruct (decide (S (S k) = S k)); [lia|]; intros _ Hs; apply lookup_lt_Some in Hs; rewrite length_insert in Hs; unfold k in Hs; lia|].
    destruct (decide (S j = S k)) as [E|Hne].
    + injection E as ->. rewrite list_lookup_insert_eq by exact Hlt. intros E1 E2. injection E1 as <-. injection E2 as <-. exact Hlpq.
    + rewrite (list_lookup_insert_ne ph k j) by congruence. destruct (decide (S j = k)) as [E|Hne2].
      * rewrite E, list_lookup_insert_eq by exact Hlt. intros Hr E'. injection E' as <-. apply Hl. eapply C5; [exact Hr|]. rewrite E. exact Hk.
      * rewrite list_lookup_insert_ne by congruence. apply C5.
  - rewrite Hpi, C6, Hf, Hfq. unfold k in *. lia.
  - intros j r s. rewrite !Hll, Hpi. destruct (decide (j = S k)) as [E|Hne0]; [subst j; destruct (decide (S (S k) = S k)); [lia|]; intros _ Hs; apply lookup_lt_Some in Hs; rewrite length_insert in Hs; unfold k in Hs; lia|].
    destruct (decide (S j = S k)) as [E|Hne].
    + injection E as ->. rewrite list_lookup_insert_eq by exact Hlt. intros E1 E2. injection E1 as <-. injection E2 as <-.
      rewrite Erq, Esnd, between_none. apply C8, Hf.
    + rewrite (list_lookup_insert_ne ph k j) by congruence. destruct (decide (S j = k)) as [E|Hne2].
      * rewrite E, list_lookup_insert_eq by exact Hlt. intros Hr E'. injection E' as <-. rewrite Er. eapply C7; [exact Hr|]. rewrite E. exact Hk.
      * rewrite list_lookup_insert_ne by congruence. apply C7.
  - rewrite Hfq. discriminate.
  - rewrite Ho, Hpq, Erq, <- C9, Hpz. reflexivity.
  - rewrite Hsq, Erq, C10, Hsz. lia.
Qed.

(** A process and its child change together, at the end of their lives. *)
Lemma chain_pair k p q p' q' u' :
  ph !! k = Some p -> ph !! S k = Some q -> ok k p' -> ok (S k) q' ->
  u_procs u' = <[k := conc k p']> (<[S k := conc (S k) q']> (u_procs u)) -> u_pipes u' = u_pipes u -> u_out u' = u_out u ->
  rd p' = rd p -> snd p' = snd p -> rd q' = rd q -> snd q' = snd q -> spawned q' = spawned q -> forking q' = false -> forking q = false ->
  shown q' = false -> shown q = false -> pending_of q' = [] -> pending_of q = [] ->
  link p' q' -> (forall r, link r p -> link r p') -> (forall r, link q r -> link q' r) ->
  chain u' (<[k := p']> (<[S k := q']> ph)) (if decide (S (S k) = length ph) then q' else z).
Proof.
  intros Hk Hq Hok Hokq Hpr Hpi Ho Er Es Erq Esq Hspq Hfq' Hfq Hsq' Hsq Hpq' Hpq Hlpq Hl1 Hl2.
  pose proof (lookup_lt_Some _ _ _ Hk) as Hlt. pose proof (lookup_lt_Some _ _ _ Hq) as Hlt2. pose proof chain_last_at as Hz.
  assert (Hzq : S (S k) = length ph -> z = q) by (intros E; replace (length ph - 1)%nat with (S k) in Hz by lia; congruence).
  set (ph' := <[k := p']> (<[S k := q']> ph)). assert (Hlen : length ph' = length ph) by (unfold ph'; rewrite !length_insert; reflexivity).
  assert (Hll : forall j, ph' !! j = if decide (j = k) then Some p' else if decide (j = S k) then Some q' else ph !! j).
  { intros j. unfold ph'. repeat case_decide; subst; rewrite ?list_lookup_insert_eq, ?list_lookup_insert_ne, ?list_lookup_insert_eq by (rewrite ?length_insert; lia); reflexivity. }
  destruct CH as [C1 C2 C3 C4 C5 C6 C7 C8 C9 C10].
  constructor; rewrite ?Hlen.
  - rewrite Hpr, C1. unfold ph'. rewrite conc_insert by exact Hlt2. apply conc_insert. rewrite length_insert. exact Hlt.
  - rewrite last_lookup, Hlen, Hll. rewrite last_lookup in C2. case_decide as E; [lia|]. destruct (decide (pred (length ph) = S k)) as [E2|E2].
    + rewrite decide_True by lia. reflexivity.
    + rewrite decide_False by lia. exact C2.
  - case_decide as E; [rewrite Hspq, <- (Hzq E) | ]; exact C3.
  - intros j r. rewrite Hll. repeat case_decide; [intros E; injection E as <-; subst; assumption ..|apply C4].
  - intros j r s. rewrite !Hll. destruct (decide (j = k)) as [->|H1].
    + rewrite decide_False, decide_True by lia. intros E1 E2. injection E1 as <-. injection E2 as <-. exact Hlpq.
    + destruct (decide (S j = k)) as [E|H2].
      * rewrite (decide_False (P := j = S k)) by lia. intros Hr E2. injection E2 as <-. apply Hl1. eapply C5; [exact Hr|]. rewrite E. exact Hk.
      * rewrite (decide_False (P := S j = S k)) by lia. destruct (decide (j = S k)) as [->|H3]; [|apply C5].
        intros E1 Hs. injection E1 as <-. apply Hl2. eapply C5; eauto.
  - rewrite Hpi, C6. f_equal. case_decide as E; [rewrite (Hzq E), Hfq, Hfq'|]; reflexivity.
  - intros j r s. rewrite !Hll, Hpi. destruct (decide (j = k)) as [->|H1].
    + rewrite decide_False, decide_True by lia. intros E1 E2. injection E1 as <-. injection E2 as <-. rewrite Es, Erq. eapply C7; eauto.
    + destruct (decide (S j = k)) as [E|H2].
      * rewrite (decide_False (P := j = S k)) by lia. intros Hr E2. injection E2 as <-. rewrite Er. eapply C7; [exact Hr|]. rewrite E. exact Hk.
      * rewrite (decide_False (P := S j = S k)) by lia. destruct (decide (j = S k)) as [->|H3]; [|apply C7].
        intros E1 Hs. injection E1 as <-. rewrite Esq. eapply C7; eauto.
  - rewrite Hpi. case_decide as E; [rewrite Hfq'; discriminate | exact C8].
  - rewrite Ho. case_decide as E; [|exact C9]. rewrite Hpq', Erq, <- (Hzq E), <- C9, (Hzq E), Hpq. reflexivity.
  - case_decide as E; [|exact C10]. rewrite Hsq', Erq, <- (Hzq E), C10, (Hzq E), Hsq. reflexivity.
Qed.
End Chain.

(** ** Descriptors of a process *)

Lemma fdget_fdk (l : loc) r par st k x y z0 :
  let p := Process l (fdk k x y z0) r par st in fdget p (lfd k) = x /\ fdget p (rfd k) = y /\ fdget p 5 = z0.
Proof. unfold fdget, fdk, lfd, rfd. cbn [p_fds]. destruct (Nat.odd k); auto. Qed.

Lemma close_fdk k x y z0 :
  <[Z.to_nat (lfd k) := None]> (fdk k x y z0) = fdk k None y z0 /\
  <[Z.to_nat (rfd k) := None]> (fdk k x y z0) = fdk k x None z0 /\ <[Z.to_nat 5 := None]> (fdk k x y z0) = fdk k x y None.
Proof. unfold fdk, lfd, rfd. destruct (Nat.odd k); auto. Qed.

Lemma alloc_fdk k b e e' :
  fdalloc (fdk k (Some b) None None) e = Some (Z.to_nat (rfd k), fdk k (Some b) (Some e) None) /\
  fdalloc (fdk k (Some b) (Some e) None) e' = Some (5%nat, fdk k (Some b) (Some e) (Some e')).
Proof. unfold fdk, rfd. destruct (Nat.odd k); auto. Qed.

Lemma fdk_flip k x y z0 : fdk (S k) x y z0 = fdk k y x z0.
Proof. unfold fdk. rewrite Nat.odd_succ, <- Nat.negb_odd. destruct (Nat.odd k); reflexivity. Qed.
Lemma lfd_flip k : lfd (S k) = rfd k.
Proof. unfold lfd, rfd. rewrite Nat.odd_succ, <- Nat.negb_odd. destruct (Nat.odd k); reflexivity. Qed.

(** The ends a descriptor table refers to. *)
Lemma ends_fdl e x y z0 : e <> Console ->
  existsb (fun w => bool_decide (w = Some e)) (fdl x y z0) = bool_decide (x = Some e) || (bool_decide (y = Some e) || bool_decide (z0 = Some e)).
Proof.
  intros He. unfold fdl. cbn [existsb replicate app]. rewrite (bool_decide_eq_false_2 (Some Console = Some e)) by congruence.
  rewrite (bool_decide_eq_false_2 (None = Some e)) by discriminate. cbn [orb]. rewrite !orb_false_r. reflexivity.
Qed.

(** Only process [k] and its child can have a descriptor to write to pipe [k]. *)
Lemma writers k p j : ok j p -> has_end (WE k) (conc j p) = true ->
  j = k /\ closed p = false \/ j = S k /\ match p with C1 | Wc1 _ | Wc2 _ => true | _ => false end = true.
Proof.
  unfold has_end, conc. cbn [p_fds]. intros Hok H.
  assert (Hb : forall x, bool_decide (Some (WE x) = Some (WE k)) = true -> x = k) by (intros x Hx; apply bool_decide_eq_true_1 in Hx; congruence).
  assert (Hr : forall x, bool_decide (Some (RE x) = Some (WE k)) = false) by (intros x; apply bool_decide_eq_false_2; congruence).
  destruct p; cbn [conc_fds ok] in *; unfold fdk, fds0, none in H; try discriminate H;
    try (destruct (Nat.odd j)); repeat (destruct pr); rewrite ?ends_fdl in H by discriminate; rewrite ?Hr in H;
    rewrite ?(bool_decide_eq_false_2 (None = Some (WE k))) in H by discriminate; cbn [orb] in H; rewrite ?orb_false_r in H; try discriminate H;
    apply Hb in H; subst; first [left; split; [lia | reflexivity] | right; split; [lia | reflexivity]].
Qed.

(** A process that has not ended reads from the pipe to its left. *)
Lemma reader k p : ok (S k) p -> dead p = false -> has_end (RE k) (conc (S k) p) = true.
Proof.
  unfold has_end, conc. cbn [p_fds]. intros Hok H.
  destruct p; cbn [conc_fds ok dead] in *; try discriminate H; try lia; unfold fdk;
    try (destruct (Nat.odd (S k))); rewrite ends_fdl by discriminate; rewrite ?Nat.sub_0_r; cbn [Nat.sub]; rewrite ?Nat.sub_0_r;
    try (injection Hok as ->); rewrite ?(bool_decide_eq_true_2 (Some (RE k) = Some (RE k))) by reflexivity; rewrite ?orb_true_r; try reflexivity.
Qed.

Lemma writer k p : ok k p -> spawned p = true -> closed p = false -> has_end (WE k) (conc k p) = true.
Proof.
  unfold has_end, conc. cbn [p_fds]. intros Hok Hs Hc.
  destruct p; cbn [conc_fds ok spawned closed] in *; try discriminate Hs; try discriminate Hc; try subst pr; try match goal with H : _ = 0%nat /\ _ |- _ => destruct H as [-> _] end; try subst k; unfold fdk;
    try (destruct (Nat.odd k)); rewrite ?ends_fdl by discriminate; rewrite ?(bool_decide_eq_true_2 (Some (WE _) = Some (WE _))) by reflexivity; rewrite ?orb_true_r; reflexivity.
Qed.

(** A worker's left descriptor is there, so its loop goes on. *)
Lemma loop_work k c rest own pr a : loop_head (work_loc k c rest own pr a) = work_loc k WRead rest own pr a.
Proof. unfold loop_head, work_loc. cbn [left0]. unfold lfd. destruct (Nat.odd k); reflexivity. Qed.

Lemma find_child_some k i want (ps : list (process (L := loc))) n c : find_child k i want ps = Some (n, c) ->
  exists j, n = (i + j)%nat /\ ps !! j = Some c /\ p_parent c = Some k /\ want (p_stat c) = true.
Proof.
  revert i. induction ps as [|p ps IH]; intros i E; [discriminate E|]. cbn [find_child] in E. destruct (bool_decide _ && _) eqn:Eb.
  - injection E as <- <-. apply andb_true_iff in Eb. destruct Eb as [Hp Hw]. apply bool_decide_eq_true_1 in Hp. exists 0%nat. split; [lia|]. auto.
  - destruct (IH _ E) as (j & -> & H). exists (S j). split; [lia | exact H].
Qed.

Lemma find_child_none k i want (ps : list (process (L := loc))) : find_child k i want ps = None ->
  forall j c, ps !! j = Some c -> p_parent c = Some k -> want (p_stat c) = false.
Proof.
  revert i. induction ps as [|p ps IH]; intros i E [|j] c Hj Hp; try discriminate Hj; cbn [find_child] in E; destruct (bool_decide _ && _) eqn:Eb; try discriminate E.
  - injection Hj as ->. rewrite bool_decide_eq_true_2 in Eb by exact Hp. exact Eb.
  - eapply IH; eauto.
Qed.

(** ** The measure *)

Definition wait_weight (a : Z) : Z := 20 * (282 - a) ^ 2 + 20.
Definition print_weight (a : Z) : Z := wait_weight a + 3 * (281 - a) + 30.
Definition weight (p : phase) : Z :=
  match p with
  | Mprint rest => print_weight 3 + 21 + Z.of_nat (length rest)
  | Mfork => print_weight 3 + 20
  | Mclose => 854
  | Msend x => 3 * (281 - x) + 12
  | C1 => wait_weight 3 + 1
  | Wr a true => 3 * (281 - a) + 10
  | Wr a false => wait_weight a
  | Wprint a rest => print_weight a + 1 + Z.of_nat (length rest)
  | Wfork a => print_weight a
  | Wparent a => 3 * (281 - a) + 12
  | Wsend a => 3 * (281 - a) + 11
  | Wc1 a => wait_weight a + 2
  | Wc2 a => wait_weight a + 1
  | Mfclose | Wfclose _ => 9
  | Mfwait | Wfwait _ => 8
  | Mexit | Wexit _ => 7
  | Mzombie | Wzombie _ => 6
  | Wreaped _ false => 5
  | Wreaped _ true => 4
  end.
Definition total (ph : list phase) : Z := foldr (fun p n => weight p + n) 0 ph.

Lemma total_app ph ph' : total (ph ++ ph') = total ph + total ph'.
Proof.
  induction ph as [|p ph IH]; [reflexivity|]. change (weight p + total (ph ++ ph') = weight p + total ph + total ph'). lia.
Qed.

Lemma total_insert ph k p p' : ph !! k = Some p -> total (<[k := p']> ph) = total ph - weight p + weight p'.
Proof.
  revert k. induction ph as [|x ph IH]; intros [|k] H; try discriminate H.
  - injection H as ->. change (weight p' + total ph = weight p + total ph - weight p + weight p'). lia.
  - specialize (IH k H). change (weight x + total (<[k := p']> ph) = weight x + total ph - weight p + weight p'). lia.
Qed.

Lemma weight_nonneg k p : ok k p -> 0 < weight p.
Proof. unfold ok, weight, print_weight, wait_weight, MAX. intros H. destruct p; try destruct pr; try destruct orphan; try lia; nia. Qed.

Lemma total_nonneg u ph z : chain u ph z -> 0 <= total ph.
Proof.
  intros CH. assert (G : forall b, (forall k p, ph !! k = Some p -> ok (b + k) p) -> 0 <= total ph).
  { clear CH. induction ph as [|p ph IH]; intros b H; [cbn; lia|]. change (total (p :: ph)) with (weight p + total ph). pose proof (weight_nonneg _ _ (H 0%nat p eq_refl)).
    enough (0 <= total ph) by lia. apply (IH (S b)). intros k q Hq. replace (S b + k)%nat with (b + S k)%nat by lia. apply H. exact Hq. }
  apply (G 0%nat). exact (ch_ok _ _ _ CH).
Qed.

(** The side conditions of a step, by evaluation. *)
Ltac moved := auto; try discriminate; cbn; unfold MAX, print_weight, wait_weight in *; try lia.

(** ** Steps *)

Section Steps.
Context (nproc nfile : nat) (Hnp : (60 <= nproc)%nat) (Hnf : (119 <= nfile)%nat).
Local Abbreviation go := (ustep call_of after nproc nfile).

(** A step of process [k] keeps the description and lowers the measure. *)
Definition good (k : nat) (u : unix (L := loc)) (ph : list phase) : Prop :=
  forall u', go k u = Some u' -> exists ph' z', chain u' ph' z' /\ total ph' < total ph.

Section One.
Context (u : unix (L := loc)) (ph : list phase) (z : phase) (CH : chain u ph z).

Lemma go_at k p : ph !! k = Some p -> conc_stat p = Live ->
  go k u = match call_of (conc_loc k p) with
           | CPipe => Some (do_pipe after nfile k (conc k p) u)
           | CFork => Some (do_fork after nproc k (conc k p) u)
           | CRead fd n => do_read after k (conc k p) fd n u
           | CWrite fd bs => do_write after k (conc k p) fd bs u
           | CClose fd => Some (do_close after k (conc k p) fd u)
           | CWait => do_wait after k (conc k p) u
           | CGetpid => Some (set_proc k (reply after (RInt (pid_of k)) (conc k p)) u)
           | CExit st => Some (do_exit k (conc k p) st u)
           end.
Proof. intros Hk Hl. unfold ustep. rewrite (chain_proc u ph z CH), Hk. cbn [fmap option_fmap option_map conc p_stat]. rewrite Hl. reflexivity. Qed.

(** Closing a descriptor of its own moves a process on. *)
Lemma inner_move k p p' u' :
  ph !! k = Some p -> spawned p = true -> ok k p' -> u' = set_proc k (conc k p') u ->
  spawned p' = true -> rd p' = rd p -> snd p' = snd p -> ended p' = ended p -> (closed p = true -> closed p' = true) -> waited p' = waited p ->
  dead p' = dead p -> reaped p' = reaped p -> (forall pr o, p' <> Wreaped pr o) -> weight p' < weight p ->
  exists ph' z', chain u' ph' z' /\ total ph' < total ph.
Proof.
  intros Hk Hsp Hok -> Hsp' Er Es Ee Ec Ew Ed Ere Hno Hwt. exists (<[k := p']> ph), z.
  split; [|rewrite (total_insert _ _ _ _ Hk); clear -Hwt; lia].
  pose proof (ch_pipe _ _ _ CH) as Hp. apply (chain_inner u ph z CH k p p'); auto.
  - intros q _ [L1 L2 L3 L4 L5]. constructor; rewrite ?Es, ?Ew, ?Ed; auto.
  - intros j q _ _ [L1 L2 L3 L4 L5]. constructor; rewrite ?Er, ?Ee, ?Ere; auto. intros pr o E. destruct (Hno pr o E).
  - intros q Hq. rewrite Es. eapply Hp; eauto.
  - intros j q -> Hq. rewrite Er. eapply Hp; eauto.
Qed.

(** The same for the last process, when nothing is printed. *)
Lemma last_move p' u' :
  let k := (length ph - 1)%nat in
  ok k p' -> u' = set_proc k (conc k p') u -> spawned p' = false -> rd p' = rd z -> (ended p' = true -> ended z = true) ->
  reaped p' = reaped z -> (forall pr o, p' <> Wreaped pr o) -> forking z = false -> forking p' = false -> shown p' = shown z ->
  pending_of p' = pending_of z -> weight p' < weight z ->
  exists ph' z', chain u' ph' z' /\ total ph' < total ph.
Proof.
  intros k Hok -> Hsp Er Ee Ere Hno Hf Hf' Hs Hpd Hwt. pose proof (chain_last_at u ph z CH) as Hk. fold k in Hk.
  exists (<[k := p']> ph), p'. split; [|rewrite (total_insert _ _ _ _ Hk); clear -Hwt; lia].
  pose proof CH as [C1 C2 C3 C4 C5 C6 C7 C8 C9 C10]. rewrite Hf in C6. apply (chain_end u ph z CH p'); auto; fold k.
  - intros j q _ _ [L1 L2 L3 L4 L5]. constructor; rewrite ?Er, ?Ere; auto. intros pr o E. destruct (Hno pr o E).
  - rewrite Hf'. exact C6.
  - intros j q E Hq. rewrite Er. eapply C7; [exact Hq|]. rewrite <- E. exact Hk.
  - rewrite Hf'. discriminate.
  - rewrite Hpd, Er. exact C9.
  - rewrite Er, Hs. exact C10.
Qed.

Lemma close_to k p p' fd e :
  fdget (conc k p) fd = Some e -> <[Z.to_nat fd := None]> (conc_fds k p) = conc_fds k p' ->
  after (conc_loc k p) (RInt 0) = conc_loc k p' -> conc_parent k p' = conc_parent k p -> conc_stat p' = conc_stat p ->
  do_close after k (conc k p) fd u = set_proc k (conc k p') u.
Proof.
  intros Hg Hf Hl Hp Hs. unfold do_close. rewrite Hg. f_equal. unfold reply, set_fds, conc. cbn [p_loc p_fds p_parent p_stat]. rewrite Hf, Hl, Hp, Hs. reflexivity.
Qed.

Lemma step_mclose k : ph !! k = Some Mclose -> good k u ph.
Proof.
  intros Hk u' E. pose proof (ch_ok _ _ _ CH _ _ Hk) as Hok. cbn in Hok. subst k. rewrite (go_at _ _ Hk eq_refl) in E. cbn [call_of conc_loc main_loc pending pc right0] in E.
  rewrite (close_to 0 Mclose (Msend 3) 3 (RE 0)) in E by reflexivity. injection E as <-.
  apply (inner_move 0 Mclose (Msend 3)); moved.
Qed.

Lemma step_mfclose k : ph !! k = Some Mfclose -> good k u ph.
Proof.
  intros Hk u' E. pose proof (ch_ok _ _ _ CH _ _ Hk) as Hok. cbn in Hok. subst k. rewrite (go_at _ _ Hk eq_refl) in E. cbn [call_of conc_loc main_loc pending pc right1] in E.
  rewrite (close_to 0 Mfclose Mfwait 4 (WE 0)) in E by reflexivity. injection E as <-.
  apply (inner_move 0 Mfclose Mfwait); moved.
Qed.

Lemma step_c1 k : ph !! k = Some C1 -> good k u ph.
Proof.
  intros Hk u' E. pose proof (ch_ok _ _ _ CH _ _ Hk) as Hok. cbn in Hok. rewrite (go_at _ _ Hk eq_refl) in E. cbn [call_of conc_loc pending pc left1] in E.
  pose proof (chain_inner_iff u ph z CH _ _ Hk) as [Hz Hlast].
  rewrite (close_to k C1 (Wr 3 false) 4 (WE 0)) in E by (rewrite ?Hok; reflexivity). injection E as <-.
  apply (last_move (Wr 3 false)); rewrite <- ?Hz, <- ?Hlast; moved.
Qed.

Lemma step_wparent k a : ph !! k = Some (Wparent a) -> good k u ph.
Proof.
  intros Hk u' E. pose proof (ch_ok _ _ _ CH _ _ Hk) as Hok. cbn in Hok. rewrite (go_at _ _ Hk eq_refl) in E. cbn [call_of conc_loc work_loc pending pc right0] in E.
  destruct (fdget_fdk (conc_loc k (Wparent a)) None (conc_parent k (Wparent a)) Live k (Some (RE (k - 1))) (Some (RE k)) (Some (WE k))) as (_ & Hg & _).
  destruct (close_fdk k (Some (RE (k - 1))) (Some (RE k)) (Some (WE k))) as (_ & Hc & _).
  rewrite (close_to k (Wparent a) (Wr a true) _ _ Hg Hc) in E; [|exact (loop_work k WParent [] true true a) | destruct k; reflexivity | reflexivity].
  injection E as <-. apply (inner_move k (Wparent a) (Wr a true)); moved.
Qed.

Lemma step_wc1 k a : ph !! k = Some (Wc1 a) -> good k u ph.
Proof.
  intros Hk u' E. pose proof (ch_ok _ _ _ CH _ _ Hk) as Hok. cbn in Hok. rewrite (go_at _ _ Hk eq_refl) in E. cbn [call_of conc_loc pending pc left0] in E.
  destruct k as [|[|k]]; [lia | lia |]. change (S (S k) - 1)%nat with (S k) in E.
  assert (Ef : lfd (S k) = rfd (S (S k))) by (unfold lfd, rfd; rewrite (Nat.odd_succ (S k)), <- Nat.negb_odd; destruct (Nat.odd (S k)); reflexivity). rewrite Ef in E.
  destruct (fdget_fdk (conc_loc (S (S k)) (Wc1 a)) None (conc_parent (S (S k)) (Wc1 a)) Live (S (S k)) (Some (RE (S (S k) - 1))) (Some (RE (S (S k) - 2))) (Some (WE (S (S k) - 1)))) as (_ & Hg & _).
  destruct (close_fdk (S (S k)) (Some (RE (S (S k) - 1))) (Some (RE (S (S k) - 2))) (Some (WE (S (S k) - 1)))) as (_ & Hc & _).
  rewrite (close_to _ (Wc1 a) (Wc2 a) _ _ Hg Hc) in E by reflexivity.
  injection E as <-. pose proof (chain_inner_iff u ph z CH _ _ Hk) as [Hz Hlast].
  apply (last_move (Wc2 a)); rewrite <- ?Hz, <- ?Hlast; moved.
Qed.

Lemma step_wc2 k a : ph !! k = Some (Wc2 a) -> good k u ph.
Proof.
  intros Hk u' E. pose proof (ch_ok _ _ _ CH _ _ Hk) as Hok. cbn in Hok. rewrite (go_at _ _ Hk eq_refl) in E. cbn [call_of conc_loc work_loc pending pc left1] in E.
  assert (El : lwfd k = 5) by (unfold lwfd; destruct (Nat.eqb_spec k 1); [lia | reflexivity]). rewrite El in E.
  destruct (fdget_fdk (conc_loc k (Wc2 a)) None (conc_parent k (Wc2 a)) Live k (Some (RE (k - 1))) None (Some (WE (k - 1)))) as (_ & _ & Hg).
  destruct (close_fdk k (Some (RE (k - 1))) None (Some (WE (k - 1)))) as (_ & _ & Hc).
  rewrite (close_to k (Wc2 a) (Wr a false) _ _ Hg Hc) in E; [|exact (loop_work k WChild2 [] false false a) | destruct k; reflexivity | reflexivity].
  injection E as <-. pose proof (chain_inner_iff u ph z CH _ _ Hk) as [Hz Hlast].
  apply (last_move (Wr a false)); rewrite <- ?Hz, <- ?Hlast; moved.
Qed.

Lemma step_wfclose k pr : ph !! k = Some (Wfclose pr) -> good k u ph.
Proof.
  intros Hk u' E. pose proof (ch_ok _ _ _ CH _ _ Hk) as Hok. cbn in Hok. rewrite (go_at _ _ Hk eq_refl) in E. cbn [call_of conc_loc work_loc pending pc right1] in E.
  pose proof (chain_inner_iff u ph z CH _ _ Hk) as Hin. destruct pr; cbn [spawned] in Hin.
  - destruct (fdget_fdk (conc_loc k (Wfclose true)) None (conc_parent k (Wfclose true)) Live k (Some (RE (k - 1))) None (Some (WE k))) as (_ & _ & Hg).
    destruct (close_fdk k (Some (RE (k - 1))) None (Some (WE k))) as (_ & _ & Hc).
    rewrite (close_to k (Wfclose true) (Wfwait true) _ _ Hg Hc) in E; [|reflexivity | destruct k; reflexivity | reflexivity].
    injection E as <-. apply (inner_move k (Wfclose true) (Wfwait true)); moved.
  - destruct Hin as [Hz Hlast].
    assert (Hg : fdget (conc k (Wfclose false)) (lwfd k) = None).
    { unfold lwfd. destruct (Nat.eqb_spec k 1) as [->|]; [reflexivity|]. apply fdget_fdk. }
    unfold do_close in E. rewrite Hg in E. injection E as <-.
    apply (last_move (Wfwait false)); rewrite <- ?Hz, <- ?Hlast; moved.
Qed.

(** ** Writing a number to the right *)

Lemma is_open_at e j p : ph !! j = Some p -> has_end e (conc j p) = true -> is_open e u = true.
Proof.
  intros Hj He. unfold is_open. apply existsb_exists. exists (conc j p). split; [|exact He].
  apply list_elem_of_In, list_elem_of_lookup. exists j. rewrite (chain_proc u ph z CH), Hj. reflexivity.
Qed.

Lemma write_to k p fd u' :
  ph !! k = Some p -> spawned p = true -> closed p = false -> fdget (conc k p) fd = Some (WE k) -> snd p <= MAX ->
  do_write after k (conc k p) fd (int_bytes (snd p)) u = Some u' ->
  exists q, ph !! S k = Some q /\ snd p < rd q + 128 /\
    u' = set_proc k (reply after (RInt 4) (conc k p)) (set_pipe k (between (rd q) (snd p + 1)) u).
Proof.
  intros Hk Hsp Hcl Hg Hmax E. pose proof (chain_inner_iff u ph z CH _ _ Hk) as Hin. rewrite Hsp in Hin. destruct Hin as (q & Hq & Hl).
  exists q. split; [exact Hq|]. pose proof (ch_pipe _ _ _ CH _ _ _ Hk Hq) as Hp. pose proof Hl as [_ L2 L3 _ _].
  assert (Hd : dead q = false) by (destruct (ended q) eqn:Ee; [rewrite L3 in Hcl by reflexivity; discriminate | destruct q; try reflexivity; try discriminate Ee; pose proof (ch_ok _ _ _ CH _ _ Hq) as Ho; discriminate Ho]).
  unfold do_write in E. rewrite Hg in E. cbn [conc p_rest default] in E. rewrite Hp in E. pose proof (int_bytes_length (snd p)) as H4. rewrite H4 in E.
  destruct (int_bytes (snd p)) as [|b bs] eqn:Eb; [discriminate H4|]. rewrite <- Eb in *.
  rewrite (is_open_at (RE k) (S k) q Hq) in E by (apply reader; [exact (ch_ok _ _ _ CH _ _ Hq) | exact Hd]). cbn [negb] in E.
  rewrite between_length in E by lia. change (Z.to_nat Pipe.PIPESIZE) with 512%nat in E.
  destruct (Nat.eqb_spec (512 - 4 * Z.to_nat (snd p - rd q)) 0) as [E0|E0]; [discriminate E|]. split; [lia|].
  rewrite drop_ge, take_ge in E by lia. injection E as <-. rewrite between_last by lia. reflexivity.
Qed.

(** The pipe to the right holds one more number. *)
Lemma sent_move k p p' q u' :
  ph !! k = Some p -> spawned p = true -> ph !! S k = Some q -> snd p < rd q + 128 -> ok k p' ->
  u' = set_proc k (conc k p') (set_pipe k (between (rd q) (snd p + 1)) u) ->
  spawned p' = true -> snd p' = snd p + 1 -> rd p' = rd p -> ended p' = ended p -> (closed p = true -> closed p' = true) -> waited p' = waited p ->
  dead p' = dead p -> reaped p' = reaped p -> (forall pr o, p' <> Wreaped pr o) -> weight p' < weight p ->
  exists ph' z', chain u' ph' z' /\ total ph' < total ph.
Proof.
  intros Hk Hsp Hq Hroom Hok -> Hsp' Es Er Ee Ec Ew Ed Ere Hno Hwt. exists (<[k := p']> ph), z.
  split; [|rewrite (total_insert _ _ _ _ Hk); clear -Hwt; lia].
  pose proof (ch_pipe _ _ _ CH) as Hp. pose proof (lookup_lt_Some _ _ _ (Hp k p q Hk Hq)) as Hlt. apply (chain_inner u ph z CH k p p'); auto.
  - intros q' Hq' [L1 L2 L3 L4 L5]. rewrite Hq in Hq'. injection Hq' as <-. constructor; rewrite ?Ew, ?Ed; auto. rewrite Es. clear -L2 Hroom. lia.
  - intros j q' _ _ [L1 L2 L3 L4 L5]. constructor; rewrite ?Er, ?Ee, ?Ere; auto. intros pr o E. destruct (Hno pr o E).
  - cbn [set_proc set_procs set_pipe u_pipes]. apply length_insert.
  - intros q' Hq'. rewrite Hq in Hq'. injection Hq' as <-. cbn [set_proc set_procs set_pipe u_pipes]. rewrite Es. apply list_lookup_insert_eq, Hlt.
  - intros j q' -> Hq'. cbn [set_proc set_procs set_pipe u_pipes]. rewrite list_lookup_insert_ne by (clear; lia). rewrite Er. eapply Hp; eauto.
  - intros j Hj Hj'. cbn [set_proc set_procs set_pipe u_pipes]. apply list_lookup_insert_ne. congruence.
Qed.

Lemma step_msend k x : ph !! k = Some (Msend x) -> good k u ph.
Proof.
  intros Hk u' E. pose proof (ch_ok _ _ _ CH _ _ Hk) as Hok. cbn in Hok. destruct Hok as [-> Hx]. rewrite (go_at _ _ Hk eq_refl) in E.
  cbn [call_of conc_loc main_loc pending pc right1 cur] in E. apply (write_to 0 (Msend x)) in E; auto; [|cbn; lia]. destruct E as (q & Hq & Hroom & ->).
  destruct (decide (x = MAX)) as [->|Hne].
  - apply (sent_move 0 (Msend MAX) Mfclose q); moved.
  - apply (sent_move 0 (Msend x) (Msend (x + 1)) q); moved. f_equal. f_equal. unfold conc, reply. f_equal. cbn. unfold send_head. cbn [cur set_cur main_loc].
    replace (x + 1 <=? MAX) with true by (unfold MAX in *; lia). reflexivity.
Qed.

Lemma step_wsend k a : ph !! k = Some (Wsend a) -> good k u ph.
Proof.
  intros Hk u' E. pose proof (ch_ok _ _ _ CH _ _ Hk) as Hok. cbn in Hok. rewrite (go_at _ _ Hk eq_refl) in E.
  cbn [call_of conc_loc work_loc pending pc right1 num] in E. replace (last_num a) with (snd (Wsend a)) in E by (cbn; unfold last_num; replace (a =? 3) with false by lia; reflexivity).
  apply (write_to k (Wsend a)) in E; auto; [|apply fdget_fdk | cbn; lia]. destruct E as (q & Hq & Hroom & ->).
  apply (sent_move k (Wsend a) (Wr a true) q); moved. f_equal. unfold conc, reply. f_equal.
  exact (loop_work k WSend [] true true a).
Qed.

(** ** Printing *)

Lemma print_move p' c u' :
  let k := (length ph - 1)%nat in
  ok k p' -> u_procs u' = <[k := conc k p']> (u_procs u) -> u_pipes u' = u_pipes u -> u_out u' = u_out u ++ [c] ->
  pending_of z = c :: pending_of p' -> spawned p' = false -> rd p' = rd z -> ended p' = false -> reaped p' = reaped z ->
  (forall pr o, p' <> Wreaped pr o) -> forking z = false -> forking p' = false -> shown p' = shown z -> weight p' < weight z ->
  exists ph' z', chain u' ph' z' /\ total ph' < total ph.
Proof.
  intros k Hok Hpr Hpi Ho Hpd Hsp Er Ee Ere Hno Hf Hf' Hs Hwt. pose proof (chain_last_at u ph z CH) as Hk. fold k in Hk.
  exists (<[k := p']> ph), p'. split; [|rewrite (total_insert _ _ _ _ Hk); clear -Hwt; lia].
  pose proof CH as [C1 C2 C3 C4 C5 C6 C7 C8 C9 C10]. rewrite Hf in C6. apply (chain_end u ph z CH p'); auto; fold k; rewrite ?Hpi; auto.
  - intros j q _ _ [L1 L2 L3 L4 L5]. constructor; rewrite ?Er, ?Ere; auto; [congruence|]. intros pr o E. destruct (Hno pr o E).
  - rewrite Hf'. exact C6.
  - intros j q E Hq. rewrite Er. eapply C7; [exact Hq|]. rewrite <- E. exact Hk.
  - rewrite Hf'. discriminate.
  - rewrite Ho, Er, <- app_assoc, <- C9, Hpd. reflexivity.
  - rewrite Er, Hs. exact C10.
Qed.

(** There is room for another pipe and another process. *)
Lemma chain_room : shown z = true -> (length ph <= 59)%nat /\ (files u <= 1 + 2 * length (u_pipes u))%nat /\ (procs_used u <= length ph)%nat.
Proof.
  intros Hs. pose proof CH as [C1 C2 C3 C4 C5 C6 C7 C8 C9 C10]. pose proof (C4 _ _ (chain_last_at u ph z CH)) as Hok. split; [|split].
  - rewrite C10, Hs, Nat.add_0_r, <- count_all. apply count_mono. unfold MAX in *. destruct z; cbn in *; unfold MAX in *; try discriminate Hs; lia.
  - unfold files. rewrite length_app.
    assert (Hf : forall (f : nat -> file_end) l, (length (filter (fun e => is_open e u = true) (f <$> l)) <= length l)%nat).
    { intros f l. etransitivity; [apply length_filter|]. rewrite length_fmap. lia. }
    pose proof (Hf RE (seq 0 (length (u_pipes u)))) as H1. pose proof (Hf WE (seq 0 (length (u_pipes u)))) as H2. rewrite length_seq in H1, H2. lia.
  - unfold procs_used. etransitivity; [apply length_filter|]. rewrite C1, length_imap. lia.
Qed.

(** The last process makes its pipe. *)
Lemma pipe_move p' u' :
  let k := (length ph - 1)%nat in
  ok k p' -> u' = Machine (<[k := conc k p']> (u_procs u)) (u_pipes u ++ [[]]) (u_out u) ->
  spawned p' = false -> rd p' = rd z -> ended p' = false -> reaped p' = reaped z -> (forall pr o, p' <> Wreaped pr o) ->
  forking z = false -> forking p' = true -> shown p' = shown z -> pending_of p' = [] -> pending_of z = [] -> weight p' < weight z ->
  exists ph' z', chain u' ph' z' /\ total ph' < total ph.
Proof.
  intros k Hok -> Hsp Er Ee Ere Hno Hf Hf' Hs Hpd Hpz Hwt. pose proof (chain_last_at u ph z CH) as Hk. fold k in Hk.
  exists (<[k := p']> ph), p'. split; [|rewrite (total_insert _ _ _ _ Hk); clear -Hwt; lia].
  pose proof CH as [C1 C2 C3 C4 C5 C6 C7 C8 C9 C10]. rewrite Hf in C6. apply (chain_end u ph z CH p'); auto; fold k; cbn [u_pipes u_out].
  - intros j q _ _ [L1 L2 L3 L4 L5]. constructor; rewrite ?Er, ?Ere; auto; [congruence|]. intros pr o E. destruct (Hno pr o E).
  - rewrite length_app, C6, Hf'. cbn. unfold k. lia.
  - intros j q E Hq. rewrite Er, lookup_app_l by (rewrite C6; lia). eapply C7; [exact Hq|]. rewrite <- E. exact Hk.
  - intros j Hj. apply lookup_app_l. rewrite C6. unfold k in Hj. lia.
  - intros _. rewrite lookup_app_r by (rewrite C6; unfold k; lia). rewrite C6. unfold k. replace (_ - _)%nat with 0%nat by lia. reflexivity.
  - rewrite Hpd, Er, <- C9, Hpz. reflexivity.
  - rewrite Er, Hs. exact C10.
Qed.

Lemma step_mprint k rest : ph !! k = Some (Mprint rest) -> good k u ph.
Proof.
  intros Hk u' E. pose proof (ch_ok _ _ _ CH _ _ Hk) as Hok. cbn in Hok. rewrite (go_at _ _ Hk eq_refl) in E.
  pose proof (chain_inner_iff u ph z CH _ _ Hk) as [Hz Hlast]. destruct rest as [|c rest]; cbn [call_of conc_loc main_loc pending pc] in E.
  - destruct chain_room as (Hr1 & Hr2 & _); [rewrite <- Hz; reflexivity|]. pose proof (ch_len _ _ _ CH) as C6. rewrite <- Hz in C6. cbn [forking] in C6.
    unfold do_pipe in E. replace (nfile <? files u + 2)%nat with false in E by lia. rewrite C6 in E. replace (length ph - 1 + 0)%nat with 0%nat in E by lia.
    cbn in E. injection E as <-. apply (pipe_move Mfork); rewrite <- ?Hz, <- ?Hlast; moved.
  - unfold do_write in E. cbn in E. injection E as <-. apply (print_move (Mprint rest) c); rewrite <- ?Hz, <- ?Hlast; moved.
Qed.

Lemma step_wprint k a rest : ph !! k = Some (Wprint a rest) -> good k u ph.
Proof.
  intros Hk u' E. pose proof (ch_ok _ _ _ CH _ _ Hk) as Hok. cbn in Hok. rewrite (go_at _ _ Hk eq_refl) in E.
  pose proof (chain_inner_iff u ph z CH _ _ Hk) as [Hz Hlast]. destruct rest as [|c rest]; cbn [call_of conc_loc work_loc pending pc] in E.
  - destruct chain_room as (Hr1 & Hr2 & _); [rewrite <- Hz; reflexivity|]. pose proof (ch_len _ _ _ CH) as C6. rewrite <- Hz in C6. cbn [forking] in C6.
    unfold do_pipe in E. replace (nfile <? files u + 2)%nat with false in E by lia. rewrite C6 in E. replace (length ph - 1 + 0)%nat with k in E by lia.
    destruct (alloc_fdk k (RE (k - 1)) (RE k) (WE k)) as [Ha1 Ha2]. cbn [conc p_fds conc_fds] in E. rewrite Ha1, Ha2 in E. injection E as <-.
    apply (pipe_move (Wfork a)); rewrite <- ?Hz, <- ?Hlast; moved. f_equal. f_equal. unfold conc, reply, set_fds. cbn.
    rewrite Z2Nat.id by (unfold rfd; destruct (Nat.odd k); lia). destruct k; reflexivity.
  - assert (Hg : fdget (conc k (Wprint a (c :: rest))) 1 = Some Console) by (unfold fdget, conc, conc_fds, fdk; cbn; destruct (Nat.odd k); reflexivity).
    unfold do_write in E. rewrite Hg in E. injection E as <-. apply (print_move (Wprint a rest) c); rewrite <- ?Hz, <- ?Hlast; moved.
Qed.

(** ** Forking *)

Lemma step_mfork k : ph !! k = Some Mfork -> good k u ph.
Proof.
  intros Hk u' E. pose proof (ch_ok _ _ _ CH _ _ Hk) as Hok. cbn in Hok. rewrite (go_at _ _ Hk eq_refl) in E. cbn [call_of conc_loc main_loc pending pc] in E.
  pose proof (chain_inner_iff u ph z CH _ _ Hk) as [Hz Hlast]. destruct chain_room as (Hr1 & _ & Hr3); [rewrite <- Hz; reflexivity|].
  unfold do_fork in E. replace (nproc <=? procs_used u)%nat with false in E by lia. injection E as <-.
  exists (<[(length ph - 1)%nat := Mclose]> ph ++ [C1]), C1. rewrite <- Hlast. split; [|rewrite total_app, (total_insert _ _ _ _ Hk); moved].
  rewrite Hlast. apply (chain_fork u ph z CH); rewrite <- ?Hz, <- ?Hlast; auto; try (cbn; lia); try (subst k; reflexivity).
  - constructor; cbn; auto; [lia | discriminate].
  - intros r [L1 L2 L3 L4 L5]. constructor; auto; try discriminate.
  - subst k. cbn. unfold reply. cbn. f_equal. f_equal. unfold conc. f_equal. cbn. unfold pid_of.
    replace (Z.of_nat (length (u_procs u)) + 3 =? 0) with false by lia. reflexivity.
Qed.

Lemma step_wfork k a : ph !! k = Some (Wfork a) -> good k u ph.
Proof.
  intros Hk u' E. pose proof (ch_ok _ _ _ CH _ _ Hk) as Hok. cbn in Hok. rewrite (go_at _ _ Hk eq_refl) in E. cbn [call_of conc_loc work_loc pending pc] in E.
  pose proof (chain_inner_iff u ph z CH _ _ Hk) as [Hz Hlast]. destruct chain_room as (Hr1 & _ & Hr3); [rewrite <- Hz; reflexivity|].
  unfold do_fork in E. replace (nproc <=? procs_used u)%nat with false in E by lia. injection E as <-.
  exists (<[(length ph - 1)%nat := Wparent a]> ph ++ [Wc1 a]), (Wc1 a). rewrite <- Hlast. split; [|rewrite total_app, (total_insert _ _ _ _ Hk); moved].
  rewrite Hlast. apply (chain_fork u ph z CH); rewrite <- ?Hz, <- ?Hlast; auto; try (cbn; lia).
  - constructor; cbn; auto; [lia | discriminate].
  - intros r [L1 L2 L3 L4 L5]. constructor; auto; try discriminate.
  - cbn [u_procs set_procs]. f_equal; [f_equal|f_equal].
    + unfold reply, conc. cbn. unfold pid_of. replace (Z.of_nat (length (u_procs u)) + 3 =? 0) with false by lia. destruct k; reflexivity.
    + unfold set_parent, reply, conc. cbn [p_loc p_fds p_rest p_parent p_stat conc_loc conc_fds conc_parent conc_stat]. rewrite fdk_flip, lfd_flip.
      destruct k as [|k]; [lia|]. cbn [Nat.sub]. rewrite Nat.sub_0_r. reflexivity.
Qed.

(** ** Reading a number from the left *)

Lemma snd_le k p : ok k p -> snd p <= MAX + 1.
Proof. destruct p; cbn; unfold MAX; lia. Qed.

Lemma closed_snd p : closed p = true -> snd p = MAX + 1.
Proof. destruct p; try discriminate; reflexivity. Qed.

(** What process [k] reads when its next number is [a]: the number, or the
    end of the input after MAX. *)
Lemma read_from k p u' :
  ph !! k = Some p -> (1 <= k)%nat -> fdget (conc k p) (lfd k) = Some (RE (k - 1)) -> ended p = false ->
  do_read after k (conc k p) (lfd k) 4 u = Some u' ->
  exists r, ph !! (k - 1)%nat = Some r /\ link r p /\
    (rd p <= MAX /\ rd p < snd r /\ u' = set_proc k (reply after (RData 4 (int_bytes (rd p))) (conc k p)) (set_pipe (k - 1) (between (rd p + 1) (snd r)) u) \/
     rd p = MAX + 1 /\ closed r = true /\ u' = set_proc k (reply after (RData 0 []) (conc k p)) u).
Proof.
  intros Hk H1 Hg He E. pose proof (lookup_lt_Some _ _ _ Hk) as Hlt. destruct (lookup_lt_is_Some_2 ph (k - 1)%nat ltac:(lia)) as [r Hr].
  exists r. split; [exact Hr|]. assert (Hk' : ph !! S (k - 1) = Some p) by (replace (S (k - 1)) with k by lia; exact Hk).
  pose proof (ch_link _ _ _ CH _ _ _ Hr Hk') as Hl. split; [exact Hl|]. pose proof (ch_pipe _ _ _ CH _ _ _ Hr Hk') as Hp.
  pose proof (li_queue _ _ Hl) as L2. pose proof (ch_ok _ _ _ CH _ _ Hr) as Hokr. pose proof (snd_le _ _ Hokr) as Hle.
  unfold do_read in E. rewrite Hg, Hp in E. destruct (decide (rd p = snd r)) as [Eq|Hne].
  - rewrite <- Eq, between_none in E. right. destruct (closed r) eqn:Ec.
    + rewrite (closed_snd _ Ec) in Eq. split; [exact Eq|]. split; [reflexivity|]. destruct (is_open _ u); [discriminate E|]. injection E as <-. reflexivity.
    + exfalso. rewrite (is_open_at (WE (k - 1)) (k - 1) r Hr) in E; [discriminate E|]. apply writer; [exact Hokr | apply Hl | exact Ec].
  - left. split; [lia|]. split; [lia|]. rewrite between_first in E by lia. pose proof (int_bytes_length (rd p)) as H4.
    destruct (int_bytes (rd p) ++ between (rd p + 1) (snd r)) as [|b bs] eqn:Eb.
    { exfalso. apply (f_equal length) in Eb. rewrite length_app, H4 in Eb. discriminate Eb. }
    rewrite <- Eb in E. change (Z.to_nat 4) with 4%nat in E. rewrite <- H4 in E. rewrite take_app_length, drop_app_length, H4 in E. injection E as <-. reflexivity.
Qed.

(** The locals of a worker after it has read [a]. *)
Lemma after_num k own pr a : 3 <= a <= MAX ->
  after (work_loc k WRead [] own pr a) (RData 4 (int_bytes a)) =
  if pr then work_loc k WSend [] own true (a + 1)
  else if is_prime a then work_loc k WPipe (line a) own false (a + 1)
  else work_loc k WRead [] own false (a + 1).
Proof.
  intros Ha. unfold MAX in Ha.
  assert (E : set_num (read_int (num (work_loc k WRead [] own pr a)) (int_bytes a)) (work_loc k WRead [] own pr a) = work_loc k WRead [] own pr (a + 1)).
  { rewrite read_int_bytes by lia. unfold work_loc, set_num. cbn [pc pending left0 left1 right0 right1 num printed cur]. f_equal.
    unfold last_num. replace (a + 1 =? 3) with false by lia. lia. }
  unfold after. cbn [pending pc work_loc]. unfold after_read. rewrite E. cbn [Z.gtb Z.compare Z.eqb negb].
  assert (En : num (work_loc k WRead [] own pr (a + 1)) = a) by (cbn; unfold last_num; replace (a + 1 =? 3) with false by lia; lia). rewrite En.
  cbn [printed work_loc]. destruct pr; [reflexivity|]. cbn [negb andb]. destruct (is_prime a); [reflexivity | apply (loop_work k WRead [] own false (a + 1))].
Qed.

Lemma step_wr_true k a : ph !! k = Some (Wr a true) -> good k u ph.
Proof.
  intros Hk u' E. pose proof (ch_ok _ _ _ CH _ _ Hk) as Hok. cbn in Hok. rewrite (go_at _ _ Hk eq_refl) in E. cbn [call_of conc_loc work_loc pending pc left0] in E.
  apply (read_from k (Wr a true)) in E; [|exact Hk | lia | apply fdget_fdk | reflexivity]. cbn [rd] in E.
  destruct E as (r & Hr & Hl & [(Ha & Hlt & ->)|(-> & Hc & ->)]); pose proof (ch_pipe _ _ _ CH) as Hp.
  - assert (Hk' : ph !! S (k - 1) = Some (Wr a true)) by (replace (S (k - 1)) with k by lia; exact Hk). pose proof (lookup_lt_Some _ _ _ (Hp _ _ _ Hr Hk')) as Hpl.
    exists (<[k := Wsend (a + 1)]> ph), z. split; [|rewrite (total_insert _ _ _ _ Hk); moved].
    apply (chain_inner u ph z CH k (Wr a true)); auto; [cbn; lia | | | | | | |]; cbn [set_proc set_procs set_pipe u_pipes u_procs].
    + f_equal. unfold reply, conc. f_equal. exact (after_num k true true a ltac:(lia)).
    + intros q Hq [L1 L2 L3 L4 L5]. constructor; auto. cbn in *. lia.
    + intros j q -> Hq [L1 L2 L3 L4 L5]. cbn [Nat.sub] in Hr. rewrite Nat.sub_0_r in Hr. rewrite Hr in Hq. injection Hq as <-. constructor; auto; try discriminate; cbn in *; lia.
    + apply length_insert.
    + intros q Hq. rewrite list_lookup_insert_ne by lia. cbn [snd]. replace (a + 1 - 1) with (snd (Wr a true)) by (cbn; lia). eapply Hp; eauto.
    + intros j q -> Hq. cbn [Nat.sub] in *. rewrite Nat.sub_0_r in *. rewrite Hr in Hq. injection Hq as <-. apply list_lookup_insert_eq, Hpl.
    + intros j Hj Hj'. apply list_lookup_insert_ne. lia.
  - exists (<[k := Wfclose true]> ph), z. split; [|rewrite (total_insert _ _ _ _ Hk); moved].
    apply (chain_inner u ph z CH k (Wr (MAX + 1) true)); auto; [cbn; lia | | | |].
    + intros q Hq [L1 L2 L3 L4 L5]. constructor; auto.
    + intros j q -> Hq [L1 L2 L3 L4 L5]. cbn [Nat.sub] in Hr. rewrite Nat.sub_0_r in Hr. rewrite Hr in Hq. injection Hq as <-. constructor; auto; discriminate.
    + intros q Hq. exact (Hp k (Wr (MAX + 1) true) q Hk Hq).
    + intros j q -> Hq. exact (Hp j q (Wr (MAX + 1) true) Hq Hk).
Qed.

(** The last process goes on after a read, the pipe to its left being
    [between (rd p') _] now. *)
Lemma read_move k p' r u' :
  ph !! k = Some z -> (k = length ph - 1)%nat -> (1 <= k)%nat -> ph !! (k - 1)%nat = Some r -> ok k p' -> link r p' ->
  u_procs u' = <[k := conc k p']> (u_procs u) -> u_pipes u' = <[(k - 1)%nat := between (rd p') (snd r)]> (u_pipes u) ->
  spawned p' = false -> forking z = false -> forking p' = false -> u_out u' ++ pending_of p' = text (rd p') ->
  length ph = (count (rd p') + if shown p' then 0 else 1)%nat -> weight p' < weight z ->
  exists ph' z', chain u' ph' z' /\ total ph' < total ph.
Proof.
  intros Hk Hlast H1 Hr Hok Hl Hpr Hpi Hsp Hf Hf' Hout Hcnt Hwt. exists (<[k := p']> ph), p'.
  split; [|rewrite (total_insert _ _ _ _ Hk); clear -Hwt; lia]. pose proof (ch_len _ _ _ CH) as C6. rewrite Hf in C6.
  assert (Hj : forall j q, (length ph - 1)%nat = S j -> ph !! j = Some q -> j = (k - 1)%nat /\ q = r).
  { intros j q E Hq. assert (j = (k - 1)%nat) as -> by lia. split; [reflexivity | congruence]. }
  rewrite Hlast. apply (chain_end u ph z CH p'); rewrite <- ?Hlast; auto; rewrite ?Hpi, ?Hf'; try discriminate.
  - intros j q E Hq _. rewrite Hlast in E. destruct (Hj j q E Hq) as [-> ->]. exact Hl.
  - rewrite length_insert, C6. lia.
  - intros j q E Hq. rewrite Hlast in E. destruct (Hj j q E Hq) as [-> ->]. apply list_lookup_insert_eq. lia.
  - intros j Hlt. apply list_lookup_insert_ne. lia.
Qed.

Lemma step_wr_false k a : ph !! k = Some (Wr a false) -> good k u ph.
Proof.
  intros Hk u' E. pose proof (ch_ok _ _ _ CH _ _ Hk) as Hok. cbn in Hok. rewrite (go_at _ _ Hk eq_refl) in E. cbn [call_of conc_loc work_loc pending pc left0] in E.
  pose proof (chain_inner_iff u ph z CH _ _ Hk) as [Hz Hlast]. pose proof (ch_out _ _ _ CH) as C9. pose proof (ch_count _ _ _ CH) as C10. rewrite <- Hz in C9, C10. cbn in C9, C10. rewrite app_nil_r in C9.
  apply (read_from k (Wr a false)) in E; [|exact Hk | lia | apply fdget_fdk | reflexivity]. cbn [rd] in E.
  destruct E as (r & Hr & Hl & [(Ha & Hlt & ->)|(-> & Hc & ->)]); pose proof Hl as [L1 L2 L3 L4 L5]; pose proof Hk as Hk'; rewrite Hz in Hk'.
  - pose proof (text_next a ltac:(lia)) as Ht. pose proof (count_next a ltac:(lia)) as Hc. pose proof (after_num k false false a ltac:(lia)) as Han.
    pose proof (lines_short a ltac:(lia)) as Hln. destruct (is_prime a) eqn:Ep.
    + apply (read_move k (Wprint (a + 1) (line a)) r); rewrite <- ?Hz; auto; try (cbn; lia).
      * constructor; auto; try discriminate; cbn in *; lia.
      * unfold set_proc, set_procs, set_pipe. cbn [u_procs]. f_equal. unfold reply, conc. cbn [p_loc]. f_equal. exact Han.
      * cbn [pending_of rd]. rewrite Ht. cbn. rewrite C9. reflexivity.
      * cbn [weight]. unfold print_weight, wait_weight. rewrite !Z.pow_2_r. unfold MAX in *. nia.
    + apply (read_move k (Wr (a + 1) false) r); rewrite <- ?Hz; auto; try (cbn; lia).
      * constructor; auto; try discriminate; cbn in *; lia.
      * unfold set_proc, set_procs, set_pipe. cbn [u_procs]. f_equal. unfold reply, conc. cbn [p_loc]. f_equal. exact Han.
      * cbn [pending_of rd]. rewrite Ht. cbn. rewrite C9. reflexivity.
      * cbn [weight]. unfold wait_weight. rewrite !Z.pow_2_r. unfold MAX in *. nia.
  - apply (read_move k (Wfclose false) r); rewrite <- ?Hz; auto; try (cbn; lia).
    + constructor; auto; discriminate.
    + cbn [set_proc set_procs u_pipes rd]. symmetry. apply list_insert_id. refine (ch_pipe _ _ _ CH (k - 1)%nat r (Wr (MAX + 1) false) Hr _).
      replace (S (k - 1)) with k by lia. exact Hk.
    + cbn. rewrite app_nil_r. exact C9.
    + vm_compute. reflexivity.
Qed.

(** ** Waiting for the child *)

Lemma conc_child k p : p_parent (conc (S k) p) = if orphaned p then None else Some k.
Proof. destruct p as [| | | | | | | | | | | | | | | | | | | |pr [|]]; reflexivity. Qed.

(** The children of process [k]: its right neighbour, unless it is an orphan. *)
Lemma child_at k j c : u_procs u !! j = Some c -> p_parent c = Some k -> exists q, j = S k /\ ph !! S k = Some q /\ c = conc (S k) q.
Proof.
  rewrite (chain_proc u ph z CH). destruct (ph !! j) as [q|] eqn:Hq; [|discriminate]. cbn. intros E Hp. injection E as <-. exists q.
  destruct j as [|j]; [discriminate Hp|]. rewrite conc_child in Hp. destruct (orphaned q); [discriminate Hp|]. injection Hp as ->. auto.
Qed.

Lemma wait_on k p q u' : ph !! k = Some p -> ph !! S k = Some q -> waited p = false -> do_wait after k (conc k p) u = Some u' ->
  exists pr, q = Wzombie pr /\
    u' = set_proc k (reply after (RChild (pid_of (S k)) 0) (conc k p)) (set_proc (S k) (conc (S k) (Wreaped pr false)) u).
Proof.
  intros Hk Hq Hw E. pose proof (ch_link _ _ _ CH _ _ _ Hk Hq) as [_ _ _ L4 L5]. rewrite Hw in L4.
  assert (Hpar : p_parent (conc (S k) q) = Some k) by (rewrite conc_child; destruct q; try reflexivity; discriminate L4).
  pose proof (chain_proc u ph z CH (S k)) as Hc. rewrite Hq in Hc. cbn [fmap option_fmap option_map] in Hc.
  unfold do_wait in E. destruct (find_child k 0 _ (u_procs u)) as [[i c]|] eqn:E1.
  - apply find_child_some in E1. destruct E1 as (j & Hj & Hc' & Hp & Hst). destruct (child_at k j c Hc' Hp) as (q' & -> & Hq' & ->).
    rewrite Hq in Hq'. injection Hq' as <-. subst i. injection E as <-. pose proof (ch_ok _ _ _ CH _ _ Hq) as Hokq.
    destruct q; try discriminate Hst; [discriminate Hokq|]. exists pr. split; reflexivity.
  - exfalso. destruct (find_child k 0 _ (u_procs u)) as [ic|] eqn:E2 in E; [discriminate E|].
    pose proof (find_child_none _ _ _ _ E1 _ _ Hc Hpar) as Hz1. pose proof (find_child_none _ _ _ _ E2 _ _ Hc Hpar) as Hz2.
    cbn [conc p_stat] in Hz1, Hz2. destruct q; try discriminate Hz1; try discriminate Hz2. discriminate L4.
Qed.

(** Process [k] has waited for its child. *)
Lemma waited_move k p p' pr u' :
  ph !! k = Some p -> ph !! S k = Some (Wzombie pr) -> ok k p' -> spawned p' = true ->
  u' = set_proc k (conc k p') (set_proc (S k) (conc (S k) (Wreaped pr false)) u) ->
  rd p' = rd p -> snd p' = snd p -> ended p' = ended p -> (closed p = true -> closed p' = true) -> waited p' = true -> dead p' = false -> reaped p' = reaped p ->
  (forall pr o, p' <> Wreaped pr o) -> weight p' < weight p ->
  exists ph' z', chain u' ph' z' /\ total ph' < total ph.
Proof.
  intros Hk Hq Hok Hsp -> Er Es Ee Ec Ew Ed Ere Hno Hwt. pose proof (ch_ok _ _ _ CH _ _ Hq) as Hokq.
  pose proof (ch_link _ _ _ CH _ _ _ Hk Hq) as [L1 L2 L3 L4 L5].
  eexists _, _. split; [eapply (chain_pair u ph z CH k p (Wzombie pr) p' (Wreaped pr false)); eauto|].
  - constructor; auto.
    + rewrite Es. exact L2.
    + intros pr' o E. injection E as <- <-. rewrite Ed. reflexivity.
  - intros r [M1 M2 M3 M4 M5]. constructor; rewrite ?Er, ?Ee, ?Ere; auto. intros pr' o E. destruct (Hno pr' o E).
  - intros r [M1 M2 M3 M4 M5]. constructor; auto.
  - rewrite (total_insert _ _ p); [|rewrite list_lookup_insert_ne by (clear; lia); exact Hk]. rewrite (total_insert _ _ _ _ Hq). clear -Hwt. cbn. lia.
Qed.

Lemma step_mfwait k : ph !! k = Some Mfwait -> good k u ph.
Proof.
  intros Hk u' E. pose proof (ch_ok _ _ _ CH _ _ Hk) as Hok. cbn in Hok. rewrite (go_at _ _ Hk eq_refl) in E. cbn [call_of conc_loc main_loc pending pc] in E.
  destruct (chain_inner_iff u ph z CH _ _ Hk) as (q & Hq & Hl). destruct (wait_on k _ q u' Hk Hq eq_refl E) as (pr & -> & ->).
  apply (waited_move k Mfwait Mexit pr); moved.
Qed.

Lemma step_wfwait k pr : ph !! k = Some (Wfwait pr) -> good k u ph.
Proof.
  intros Hk u' E. pose proof (ch_ok _ _ _ CH _ _ Hk) as Hok. cbn in Hok. rewrite (go_at _ _ Hk eq_refl) in E. cbn [call_of conc_loc work_loc pending pc] in E.
  pose proof (chain_inner_iff u ph z CH _ _ Hk) as Hin. destruct pr; cbn [spawned] in Hin.
  - destruct Hin as (q & Hq & Hl). destruct (wait_on k _ q u' Hk Hq eq_refl E) as (pr & -> & ->).
    apply (waited_move k (Wfwait true) (Wexit true) pr); moved.
  - destruct Hin as [Hz Hlast]. unfold do_wait in E.
    assert (Hno : forall want, find_child k 0 want (u_procs u) = None).
    { intros want. destruct (find_child k 0 want (u_procs u)) as [[i c]|] eqn:E1; [|reflexivity]. apply find_child_some in E1. destruct E1 as (j & Hj & Hc' & Hp & Hst).
      destruct (child_at k j c Hc' Hp) as (q' & -> & Hq' & _). apply lookup_lt_Some in Hq'. lia. }
    rewrite !Hno in E. injection E as <-. apply (last_move (Wexit false)); rewrite <- ?Hz, <- ?Hlast; moved.
Qed.

(** ** Exit *)

Lemma exit_procs k p : ph !! k = Some p -> waited p = true -> dead p = false ->
  (fun c => if bool_decide (p_parent c = Some k) then set_parent None c else c) <$> u_procs u =
  match ph !! S k with Some (Wreaped pr _) => <[S k := conc (S k) (Wreaped pr true)]> (u_procs u) | _ => u_procs u end.
Proof.
  intros Hk Hw Hd. apply list_eq. intros j. rewrite list_lookup_fmap.
  assert (Hq : forall q, ph !! S k = Some q -> exists pr, q = Wreaped pr false).
  { intros q Hq. pose proof (ch_link _ _ _ CH _ _ _ Hk Hq) as [_ _ _ L4 L5]. rewrite Hw in L4. destruct q; try discriminate L4. rewrite (L5 _ _ eq_refl), Hd. eauto. }
  destruct (decide (j = S k)) as [->|Hne].
  - rewrite (chain_proc u ph z CH (S k)). destruct (ph !! S k) as [q|] eqn:Eq.
    + destruct (Hq q eq_refl) as [pr ->]. rewrite list_lookup_insert_eq; [|rewrite (ch_procs _ _ _ CH), length_imap; eapply lookup_lt_Some, Eq].
      cbn [fmap option_fmap option_map]. rewrite bool_decide_eq_true_2 by reflexivity. reflexivity.
    + rewrite (chain_proc u ph z CH (S k)), Eq. reflexivity.
  - transitivity (u_procs u !! j).
    + destruct (u_procs u !! j) as [c|] eqn:Ec; [|reflexivity]. cbn. case_bool_decide as Hp; [|reflexivity]. destruct (child_at k j c Ec Hp) as (q & -> & _). congruence.
    + destruct (ph !! S k) as [[]|]; try reflexivity. rewrite list_lookup_insert_ne by congruence. reflexivity.
Qed.

Lemma exit_move k p p' u' :
  ph !! k = Some p -> ok k p' -> waited p = true -> dead p = false -> dead p' = true -> reaped p' = reaped p -> spawned p' = spawned p ->
  u' = do_exit k (conc k p) 0 u -> set_stat (Zombie 0) (set_fds (replicate (length (conc_fds k p)) None) (conc k p)) = conc k p' ->
  rd p' = rd p -> snd p' = snd p -> ended p' = ended p -> closed p' = true -> waited p' = true ->
  (forall pr o, p' <> Wreaped pr o) -> forking p = false -> forking p' = false -> shown p' = shown p -> pending_of p' = pending_of p -> weight p' < weight p ->
  exists ph' z', chain u' ph' z' /\ total ph' < total ph.
Proof.
  intros Hk Hok Hw Hd Hd' Ere Esp -> Hst Er Es Ee Ec Ew Hno Hf Hf' Hs Hpd Hwt. unfold do_exit. rewrite (exit_procs k p Hk Hw Hd). cbn [conc p_fds] in *. rewrite Hst.
  pose proof (chain_inner_iff u ph z CH _ _ Hk) as Hin. destruct (spawned p) eqn:Ep.
  - destruct Hin as (q & Hq & Hl). rewrite Hq. pose proof Hl as [L1 L2 L3 L4 L5]. rewrite Hw in L4. destruct q as [| | | | | | | | | | | | | | | | | | | |pr o]; try discriminate L4.
    pose proof (ch_ok _ _ _ CH _ _ Hq) as Hokq. pose proof (L5 pr o eq_refl) as Ho. rewrite Hd in Ho. subst o.
    eexists _, _. split; [eapply (chain_pair u ph z CH k p (Wreaped pr false) p' (Wreaped pr true)); eauto|].
    + constructor; auto; [rewrite Es; exact L2|]. intros pr' o E. injection E as <- <-. symmetry. exact Hd'.
    + intros r [M1 M2 M3 M4 M5]. constructor; rewrite ?Er, ?Ee, ?Ere; auto. intros pr' o E. destruct (Hno pr' o E).
    + intros r [M1 M2 M3 M4 M5]. constructor; auto.
    + rewrite (total_insert _ _ p); [|rewrite list_lookup_insert_ne by (clear; lia); exact Hk]. rewrite (total_insert _ _ _ _ Hq). clear -Hwt. cbn. lia.
  - destruct Hin as [Hz Hlast]. rewrite (lookup_ge_None_2 ph (S k)) by (clear -Hlast; lia). rewrite Hlast in *.
    apply (last_move p'); auto; rewrite <- ?Hz; auto. intros E. congruence.
Qed.

Lemma step_mexit k : ph !! k = Some Mexit -> good k u ph.
Proof.
  intros Hk u' E. pose proof (ch_ok _ _ _ CH _ _ Hk) as Hok. cbn in Hok. rewrite (go_at _ _ Hk eq_refl) in E. cbn [call_of conc_loc main_loc pending pc] in E.
  injection E as <-. apply (exit_move k Mexit Mzombie); moved.
Qed.

Lemma step_wexit k pr : ph !! k = Some (Wexit pr) -> good k u ph.
Proof.
  intros Hk u' E. pose proof (ch_ok _ _ _ CH _ _ Hk) as Hok. cbn in Hok. rewrite (go_at _ _ Hk eq_refl) in E. cbn [call_of conc_loc work_loc pending pc] in E.
  injection E as <-. apply (exit_move k (Wexit pr) (Wzombie pr)); moved. unfold set_stat, set_fds, conc, conc_fds, fdk. cbn. destruct k, (Nat.odd _); reflexivity.
Qed.

(** ** Every step *)

Lemma step_good k : good k u ph.
Proof.
  destruct (ph !! k) as [p|] eqn:Hk; [|intros u' E; unfold ustep in E; rewrite (chain_proc u ph z CH), Hk in E; discriminate E].
  assert (Hn : conc_stat p <> Live -> good k u ph).
  { intros Hs u' E. unfold ustep in E. rewrite (chain_proc u ph z CH), Hk in E. cbn [fmap option_fmap option_map conc p_stat] in E. destruct (conc_stat p); [congruence | discriminate E ..]. }
  destruct p.
  - exact (step_mprint k _ Hk).
  - exact (step_mfork k Hk).
  - exact (step_mclose k Hk).
  - exact (step_msend k _ Hk).
  - exact (step_mfclose k Hk).
  - exact (step_mfwait k Hk).
  - exact (step_mexit k Hk).
  - apply Hn. discriminate.
  - exact (step_c1 k Hk).
  - destruct pr; [exact (step_wr_true k _ Hk) | exact (step_wr_false k _ Hk)].
  - exact (step_wprint k _ _ Hk).
  - exact (step_wfork k _ Hk).
  - exact (step_wparent k _ Hk).
  - exact (step_wsend k _ Hk).
  - exact (step_wc1 k _ Hk).
  - exact (step_wc2 k _ Hk).
  - exact (step_wfclose k _ Hk).
  - exact (step_wfwait k _ Hk).
  - exact (step_wexit k _ Hk).
  - apply Hn. discriminate.
  - apply Hn. discriminate.
Qed.
End One.
End Steps.
