(* ===== verification/PrimesEnd.v ===== *)
(** * The sieve prints the primes

    Whatever the interleaving of its processes, the sieve of user/primes.c
    prints the primes up to MAX in order and every process exits with status
    0, provided the kernel has room for its processes and its pipes; no
    interleaving deadlocks.  With the NFILE of kernel/param.h there is not
    always room. *)

From Stdlib Require Import Sorting.Sorted.
From S2P Require Import Prelude Memory FsDefs Pipe Printf Unix Primes PrimesSpec PrimesRun.
Import Unix Printf Primes.

Section End_.
Context (nproc nfile : nat).
Local Abbreviation go := (ustep call_of after nproc nfile).

Section Blocked.
Context (u : unix (L := loc)) (ph : list phase) (z : phase) (CH : chain u ph z).

(** The phases that may wait. *)
Definition sending (p : phase) : bool := match p with Msend _ | Wsend _ => true | _ => false end.
Definition reading (p : phase) : bool := match p with Wr _ _ => true | _ => false end.
Definition waiting (p : phase) : bool := match p with Mfwait | Wfwait true => true | _ => false end.

(** What a process that cannot take a step waits for. *)
Definition blocked (k : nat) (p : phase) : Prop :=
  dead p = true \/
  (exists q, ph !! S k = Some q /\ sending p = true /\ snd p = rd q + 128) \/
  (exists r, (1 <= k)%nat /\ ph !! (k - 1)%nat = Some r /\ reading p = true /\ snd r = rd p /\ closed r = false) \/
  (exists q, ph !! S k = Some q /\ waiting p = true /\ dead q = false).

Lemma blocked_write k p fd : ph !! k = Some p -> spawned p = true -> closed p = false -> sending p = true -> fdget (conc k p) fd = Some (WE k) ->
  do_write after k (conc k p) fd (int_bytes (snd p)) u = None -> blocked k p.
Proof.
  intros Hk Hsp Hcl Hs Hg E. pose proof (chain_inner_iff u ph z CH _ _ Hk) as Hin. rewrite Hsp in Hin. destruct Hin as (q & Hq & Hl).
  right. left. exists q. split; [exact Hq|]. split; [exact Hs|]. pose proof (ch_pipe _ _ _ CH _ _ _ Hk Hq) as Hp. pose proof (li_queue _ _ Hl) as L2.
  unfold do_write in E. rewrite Hg in E. cbn [conc p_rest default] in E. rewrite Hp in E. pose proof (int_bytes_length (snd p)) as H4.
  destruct (int_bytes (snd p)) as [|b bs] eqn:Eb; [discriminate H4|]. rewrite <- Eb in *.
  destruct (negb _); [discriminate E|]. rewrite between_length in E by lia. change (Z.to_nat Pipe.PIPESIZE) with 512%nat in E.
  destruct (Nat.eqb_spec (512 - 4 * Z.to_nat (snd p - rd q)) 0) as [E0|E0]; [clear -E0 L2; lia|]. destruct (drop _ _); discriminate E.
Qed.

(** A pipe is closed for writing when its writer has closed it and its
    reader, a worker in its loop, has no descriptor for it. *)
Lemma not_open k r p : ph !! k = Some r -> ph !! S k = Some p -> closed r = true -> reading p = true -> is_open (WE k) u = false.
Proof.
  intros Hr Hk Hc Hrd. unfold is_open. apply not_true_iff_false. intros E. apply existsb_exists in E. destruct E as (c & Hin & He).
  apply list_elem_of_In, list_elem_of_lookup in Hin. destruct Hin as [j Hj]. rewrite (chain_proc u ph z CH) in Hj.
  destruct (ph !! j) as [w|] eqn:Ew; [|discriminate Hj]. injection Hj as <-. destruct (writers k w j (ch_ok _ _ _ CH _ _ Ew) He) as [[-> Hcl]|[-> Hw]].
  - congruence.
  - rewrite Hk in Ew. injection Ew as <-. destruct p; discriminate.
Qed.

Lemma blocked_read k a pr : ph !! k = Some (Wr a pr) -> do_read after k (conc k (Wr a pr)) (lfd k) 4 u = None -> blocked k (Wr a pr).
Proof.
  intros Hk E. pose proof (ch_ok _ _ _ CH _ _ Hk) as Hok. cbn in Hok. pose proof (lookup_lt_Some _ _ _ Hk) as Hlt.
  destruct (lookup_lt_is_Some_2 ph (k - 1)%nat ltac:(lia)) as [r Hr]. right. right. left. exists r. split; [lia|]. split; [exact Hr|]. split; [reflexivity|].
  assert (Hk' : ph !! S (k - 1) = Some (Wr a pr)) by (replace (S (k - 1)) with k by lia; exact Hk).
  pose proof (ch_pipe _ _ _ CH _ _ _ Hr Hk') as Hp. pose proof (li_queue _ _ (ch_link _ _ _ CH _ _ _ Hr Hk')) as L2. cbn [rd] in *.
  assert (Hg : fdget (conc k (Wr a pr)) (lfd k) = Some (RE (k - 1))) by apply fdget_fdk.
  unfold do_read in E. rewrite Hg, Hp in E. destruct (between a (snd r)) as [|b bs] eqn:Eb; [|discriminate E]. split.
  - apply (f_equal length) in Eb. rewrite between_length in Eb by lia. cbn in Eb. lia.
  - destruct (closed r) eqn:Ec; [|reflexivity]. rewrite (not_open (k - 1) r (Wr a pr) Hr Hk' Ec eq_refl) in E. discriminate E.
Qed.

Lemma blocked_wait k p : ph !! k = Some p -> spawned p = true -> waiting p = true -> do_wait after k (conc k p) u = None -> blocked k p.
Proof.
  intros Hk Hsp Hw E. unfold do_wait in E. destruct (find_child k 0 _ (u_procs u)) as [[i c]|] in E; [discriminate E|].
  destruct (find_child k 0 _ (u_procs u)) as [[i c]|] eqn:E2 in E; [|discriminate E].
  apply find_child_some in E2. destruct E2 as (j & Hj & Hc & Hp & Hst). destruct (child_at u ph z CH k j c Hc Hp) as (q & -> & Hq & ->).
  right. right. right. exists q. split; [exact Hq|]. split; [exact Hw|]. cbn [conc p_stat] in Hst. destruct q; try reflexivity; discriminate Hst.
Qed.

Lemma stuck_blocked k p : ph !! k = Some p -> go k u = None -> blocked k p.
Proof.
  intros Hk E. destruct (dead p) eqn:Ed; [left; exact Ed|]. assert (Hl : conc_stat p = Live) by (destruct p; try reflexivity; discriminate Ed).
  pose proof (ch_ok _ _ _ CH _ _ Hk) as Hok. rewrite (go_at nproc nfile u ph z CH k p Hk Hl) in E.
  destruct p; try discriminate E; try discriminate Ed; cbn [call_of conc_loc main_loc work_loc pending pc right1 left0 left1 right0 num cur] in E; try discriminate E.
  - destruct rest; [discriminate E|]. unfold do_write in E. cbn in Hok. subst k. discriminate E.
  - cbn in Hok. destruct Hok as [-> Hx]. apply (blocked_write 0 (Msend x) 4); auto.
  - apply (blocked_wait k Mfwait); auto.
  - apply blocked_read; auto.
  - destruct rest; [discriminate E|]. cbn [call_of work_loc pending] in E. unfold do_write in E.
    assert (Hg : fdget (conc k (Wprint a (b :: rest))) 1 = Some Console) by (unfold fdget, conc, conc_fds, fdk; cbn; destruct (Nat.odd k); reflexivity).
    rewrite Hg in E. discriminate E.
  - cbn in Hok. replace (last_num a) with (snd (Wsend a)) in E by (cbn; unfold last_num; replace (a =? 3) with false by lia; reflexivity).
    apply (blocked_write k (Wsend a) 5); auto. apply fdget_fdk.
  - destruct pr; [apply (blocked_wait k (Wfwait true)); auto|]. exfalso. unfold do_wait in E.
    destruct (find_child k 0 _ (u_procs u)) as [[i c]|] in E; [discriminate E|].
    destruct (find_child k 0 _ (u_procs u)) as [[i c]|] eqn:E2 in E; [|discriminate E].
    apply find_child_some in E2. destruct E2 as (j & Hj & Hc & Hp & _). destruct (child_at u ph z CH k j c Hc Hp) as (q & -> & Hq & _).
    destruct (chain_inner_iff u ph z CH _ _ Hk) as [_ Hlast]. apply lookup_lt_Some in Hq. lia.
Qed.
End Blocked.

(** ** No deadlock *)

Section Stuck.
Context (u : unix (L := loc)) (ph : list phase) (z : phase) (CH : chain u ph z) (Hstuck : forall k, go k u = None).

Lemma stuck k p : ph !! k = Some p -> blocked ph k p.
Proof. intros Hk. exact (stuck_blocked u ph z CH k p Hk (Hstuck k)). Qed.

(** Nobody waits for a number: its sender would have to wait for one too. *)
Lemma no_reader k p : ph !! k = Some p -> reading p = false.
Proof.
  revert p. induction k as [|k IH]; intros p Hk.
  - pose proof (ch_ok _ _ _ CH _ _ Hk) as Hok. destruct p; try reflexivity. cbn in Hok. lia.
  - destruct (reading p) eqn:Er; [|reflexivity]. destruct (stuck _ _ Hk) as [Hd|[(q & _ & Hs & _)|[(r & _ & Hr & _ & Hsr & Hc)|(q & _ & Hw & _)]]];
      try (destruct p; discriminate). cbn [Nat.sub] in Hr. rewrite Nat.sub_0_r in Hr. specialize (IH r Hr).
    destruct (stuck _ _ Hr) as [Hd|[(q & Hq & Hs & Hfull)|[(r' & _ & _ & Hrd & _)|(q & _ & Hw & _)]]].
    + destruct r; discriminate.
    + rewrite Hk in Hq. injection Hq as <-. lia.
    + congruence.
    + destruct r; discriminate.
Qed.

(** Induction from the right end of the chain. *)
Lemma from_right (P : nat -> phase -> Prop) :
  (forall k p, ph !! k = Some p -> (forall q, ph !! S k = Some q -> P (S k) q) -> P k p) -> forall k p, ph !! k = Some p -> P k p.
Proof.
  intros H k p Hk. assert (G : forall n k p, (length ph - k <= n)%nat -> ph !! k = Some p -> P k p); [|exact (G _ _ _ (le_n _) Hk)].
  clear k p Hk. induction n as [|n IH]; intros k p Hn Hk; pose proof (lookup_lt_Some _ _ _ Hk) as Hlt; [lia|].
  apply H; [exact Hk|]. intros q Hq. apply IH; [lia | exact Hq].
Qed.

Lemma no_sender k p : ph !! k = Some p -> sending p = false.
Proof.
  intros Hk. revert k p Hk. apply from_right. intros k p Hk IH. destruct (sending p) eqn:Es; [|reflexivity].
  destruct (stuck _ _ Hk) as [Hd|[(q & Hq & _)|[(r & _ & _ & Hr & _)|(q & _ & Hw & _)]]]; try (destruct p; discriminate).
  pose proof (ch_link _ _ _ CH _ _ _ Hk Hq) as [_ _ L3 _ _]. pose proof (ch_ok _ _ _ CH _ _ Hq) as Hok. specialize (IH q Hq).
  assert (He : ended q = false) by (destruct (ended q); [specialize (L3 eq_refl); destruct p; discriminate | reflexivity]).
  destruct (stuck _ _ Hq) as [Hd|[(q' & _ & Hs & _)|[(r & _ & _ & Hr & _)|(q' & _ & Hw & _)]]].
  - destruct q; try discriminate Hd; discriminate.
  - congruence.
  - pose proof (no_reader _ _ Hq). congruence.
  - destruct q; try discriminate Hw; discriminate.
Qed.

Lemma all_dead k p : ph !! k = Some p -> dead p = true.
Proof.
  intros Hk. revert k p Hk. apply from_right. intros k p Hk IH.
  destruct (stuck _ _ Hk) as [Hd|[(q & _ & Hs & _)|[(r & _ & _ & Hr & _)|(q & Hq & _ & Hd)]]]; [exact Hd | | |].
  - pose proof (no_sender _ _ Hk). congruence.
  - pose proof (no_reader _ _ Hk). congruence.
  - rewrite (IH q Hq) in Hd. discriminate Hd.
Qed.

(** The run is over: everything is printed and every process has exited. *)
Lemma stuck_finished : u_out u = text (MAX + 1) /\ Forall (fun p => p_stat p = Zombie 0 \/ p_stat p = Reaped) (u_procs u).
Proof.
  pose proof (chain_last_at u ph z CH) as Hz. pose proof (all_dead _ _ Hz) as Hd. pose proof (ch_spawned _ _ _ CH) as Hs. pose proof (ch_out _ _ _ CH) as Ho. split.
  - destruct z; try discriminate Hd; try discriminate Hs; cbn [pending_of rd] in Ho; rewrite app_nil_r in Ho; exact Ho.
  - apply Forall_lookup. intros k c Hc. rewrite (chain_proc u ph z CH) in Hc. destruct (ph !! k) as [p|] eqn:Hk; [|discriminate Hc]. injection Hc as <-.
    pose proof (all_dead _ _ Hk) as Hdp. destruct p; try discriminate Hdp; cbn; auto.
Qed.
End Stuck.
End End_.

(** ** The runs of the program *)

Lemma start_chain : chain (start loc0) [Mprint (str ("2" ++ NL))] (Mprint (str ("2" ++ NL))).
Proof.
  constructor; try reflexivity.
  - intros [|k] p Hk; [injection Hk as <-; reflexivity | discriminate Hk].
  - intros k p q _ Hq. discriminate Hq.
  - intros k p q _ Hq. discriminate Hq.
  - discriminate.
Qed.

Lemma text_prefix a b : 3 <= a <= b -> exists rest, text a ++ rest = text b.
Proof.
  intros H. replace b with (a + Z.of_nat (Z.to_nat (b - a))) by lia. generalize (Z.to_nat (b - a)) as n. induction n as [|n [rest IH]].
  - exists []. rewrite app_nil_r. f_equal. lia.
  - replace (a + Z.of_nat (S n)) with (a + Z.of_nat n + 1) by lia. rewrite text_next, <- IH, <- app_assoc by lia. eauto.
Qed.

Lemma rd_bounds k p : ok k p -> 3 <= rd p <= MAX + 1.
Proof. destruct p; cbn; unfold MAX; lia. Qed.

(** What is printed for the primes [ps] after 2. *)
Definition lines (ps : list Z) : list byte := str ("2" ++ NL) ++ concat (line <$> ps).

Lemma filter_sorted (P : Z -> Prop) `{forall x, Decision (P x)} (xs : list Z) : StronglySorted Z.lt xs -> StronglySorted Z.lt (filter P xs).
Proof.
  induction 1 as [|x xs Hs IH Hx]; [constructor|]. rewrite filter_cons. case_decide; [|exact IH]. constructor; [exact IH|].
  apply Forall_forall. intros y Hy. apply list_elem_of_filter in Hy. rewrite Forall_forall in Hx. apply Hx, Hy.
Qed.

Lemma seqZ_sorted a n : StronglySorted Z.lt (seqZ a (Z.of_nat n)).
Proof.
  revert a. induction n as [|n IH]; intros a; [constructor|]. rewrite seqZ_cons by lia. replace (Z.pred (Z.of_nat (S n))) with (Z.of_nat n) by lia.
  constructor; [apply IH|]. apply Forall_forall. intros y Hy. apply elem_of_seqZ in Hy. lia.
Qed.

Lemma text_primes : exists ps, StronglySorted Z.lt ps /\ (forall p, p ∈ ps <-> 3 <= p <= MAX /\ Z.prime p) /\ text (MAX + 1) = lines ps.
Proof.
  exists (filter (fun p => is_prime p = true) (seqZ 3 (MAX + 1 - 3))). split; [|split; [|reflexivity]].
  - apply filter_sorted. exact (seqZ_sorted 3 278).
  - intros p. rewrite list_elem_of_filter, elem_of_seqZ, is_prime_prime. unfold MAX. intuition lia.
Qed.



(** ** The file table

    init and sh are two of the NPROC processes; the console is one of the
    NFILE open files.  Whenever the first process has sent a number, the
    others run until they wait. *)

Definition upto (n k : nat) : list nat := concat (replicate n <$> seq 1 k).
Definition eager : list nat :=
  replicate 6 0%nat ++ concat ((fun x => 0%nat :: upto (if is_prime x then 14 else 2) (count x)) <$> seqZ 3 240).
Definition pipe_error : list byte := str "ERROR: error while creating new pipe".

Lemma eager_error : (let out := u_out (run call_of after (Z.to_nat NPROC - 2) (Z.to_nat NFILE) eager (start loc0)) in
  bool_decide (take (length (text 230 ++ pipe_error)) out = text 230 ++ pipe_error)) = true.
Proof. vm_compute. reflexivity. Qed.

(** C39: With the process and file tables of kernel/param.h the sieve can fail:
    the pipes of the chain stay open while numbers arrive, so when every
    number travels down the chain before the next is sent, the worker that
    prints 229 finds no free entry in the file table and reports an error
    instead of forking its neighbour. *)
Theorem primes_nfile : exists u rest,
  rtc (step call_of after (Z.to_nat NPROC - 2) (Z.to_nat NFILE)) (start loc0) u /\
  u_out u = text 230 ++ pipe_error ++ rest.
Proof.
  pose proof (bool_decide_eq_true_1 _ eager_error) as H. eexists _, _. split; [apply (run_reaches call_of after _ _ eager)|].
  rewrite app_assoc, <- H. symmetry. apply take_drop.
Qed.
