(* ===== verification/Xargs.v ===== *)
(** * The xargs command: user/xargs.c

    [main] after its usage test, for a command that [exec] accepts: the
    arguments each child is started with, and the exit status.  The results
    of [read(0, buf, 512)] are a parameter.  LOG is not defined.  Writing
    behind one of the two arrays of 128 bytes is an error ([Panic]); the byte
    behind [buf], which the code reads after a full read, is whatever lies
    there. *)

From S2P Require Import Prelude Memory.
Import CString.

Module Xargs.

Definition is_delimiter (c : byte) : bool := bool_decide (c = x20) || bool_decide (c = x0a) || bool_decide (c = x00).

(** [started]: the arguments of the children, in the order of the forks. *)
Record xstate := XState {
  buf : mem;
  arg : mem;
  prev_it_remaining : mem;
  prev_it_remaining_len : Z;
  error : Z;
  nread : nat;
  started : list (list (list byte))
}.

Definition set_buf (m : mem) (s : xstate) : xstate :=
  XState m (arg s) (prev_it_remaining s) (prev_it_remaining_len s) (error s) (S (nread s)) (started s).
Definition set_arg (m : mem) (s : xstate) : xstate :=
  XState (buf s) m (prev_it_remaining s) (prev_it_remaining_len s) (error s) (nread s) (started s).
Definition set_prev (m : mem) (n : Z) (s : xstate) : xstate :=
  XState (buf s) (arg s) m n (error s) (nread s) (started s).
Definition set_error (e : Z) (s : xstate) : xstate :=
  XState (buf s) (arg s) (prev_it_remaining s) (prev_it_remaining_len s) e (nread s) (started s).
Definition add_started (a : list (list byte)) (s : xstate) : xstate :=
  XState (buf s) (arg s) (prev_it_remaining s) (prev_it_remaining_len s) (error s) (nread s) (started s ++ [a]).

(** [while (i < read_count && !is_delimiter(buf[i])) { arglen++; i++; }] *)
Fixpoint scan (k : nat) (b : mem) (read_count i arglen : Z) : Z * Z :=
  match k with
  | O => (i, arglen)
  | S k' => if (i <? read_count) && negb (is_delimiter (b i)) then scan k' b read_count (i + 1) (arglen + 1) else (i, arglen)
  end.

Section Main.
(** What the reads deliver ([None] is an error), and the command with the
    arguments given to xargs. *)
Context (reads : nat -> option (list byte)) (argv : list (list byte)).

(** [read(0, buf, 512)] *)
Definition read_stdin : M xstate Z :=
  s ← get;
  match reads (nread s) with
  | Some bs => modify (set_buf (put_bytes (buf s) 0 bs));; mret (Z.of_nat (length bs))
  | None => modify (set_buf (buf s));; mret (-1)
  end.

(** The fork and the exec of [child_argv], whose last entry is the string in [arg]. *)
Definition start_child : M xstate unit :=
  a ← gets arg;
  modify (add_started (argv ++ [cstr 128 a 0])).

(** The body of the loop over the bytes that were read. *)
Definition xargs_body (read_count i : Z) : M xstate (Z + unit) :=
  if i <? read_count then
    s ← get;
    let start := i in
    let '(i, arglen) := scan (Z.to_nat (read_count - i)) (buf s) read_count i 0 in
    let piece := bytes_at (buf s) start (Z.to_nat arglen) in
    if is_delimiter (buf s i) && (prev_it_remaining_len s =? 0) then
      if arglen >=? 128 then modify (set_error 1);; mret (inr tt)
      else
        modify (set_arg (put_bytes (put_bytes (arg s) 0 piece) arglen [x00]));;
        start_child;;
        mret (inl (i + 1))
    else if is_delimiter (buf s i) && negb (prev_it_remaining_len s =? 0) then
      if arglen + prev_it_remaining_len s <? 128 then modify (set_error 1);; mret (inr tt)
      else
        panic_if (arglen + prev_it_remaining_len s >=? 128) "arg overflow";;
        let prev := bytes_at (prev_it_remaining s) 0 (Z.to_nat (prev_it_remaining_len s)) in
        modify (set_arg (put_bytes (put_bytes (put_bytes (arg s) 0 prev) (prev_it_remaining_len s) piece)
                           (arglen + prev_it_remaining_len s) [x00]));;
        start_child;;
        modify (fun s => set_prev (prev_it_remaining s) 0 s);;
        mret (inl (i + 1))
    else
      panic_if (arglen >? 128) "prev_it_remaining overflow";;
      modify (set_prev (put_bytes (prev_it_remaining s) 0 piece) arglen);;
      mret (inl (i + 1))
  else mret (inr tt).

(** One iteration of the loop over the reads; it yields the last result of [read]. *)
Definition xargs_read (_ : unit) : M xstate (unit + Z) :=
  read_count ← read_stdin;
  e ← gets error;
  if negb (read_count =? 0) && (e =? 0) then
    loop (S (Z.to_nat read_count)) (xargs_body read_count) 0;;
    mret (inl tt)
  else mret (inr read_count).

(** The exit status.  At the end as many children are waited for as were
    started. *)
Definition xargs (fuel : nat) : M xstate Z :=
  read_count ← loop fuel xargs_read tt;
  when (read_count <? 0) (modify (set_error 1));;
  s ← get;
  when (negb (prev_it_remaining_len s =? 0))
    (panic_if (prev_it_remaining_len s >=? 128) "arg overflow";;
     modify (set_arg (put_bytes (put_bytes (arg s) 0 (bytes_at (prev_it_remaining s) 0 (Z.to_nat (prev_it_remaining_len s))))
                        (prev_it_remaining_len s) [x00])));;
  gets error.
End Main.

(** [buf] is zeroed; the other arrays, and the byte behind [buf], are not. *)
Definition xstate0 (beyond : byte) (garbage : mem) : xstate := XState (<[512 := beyond]> (fun _ => x00)) garbage garbage 0 0 0 [].

(** ** What it should start *)

(** The pieces of [s] that end with a delimiter, after [acc]; and the rest. *)
Fixpoint pieces (s acc : list byte) : list (list byte) * list byte :=
  match s with
  | [] => ([], acc)
  | c :: s' => if is_delimiter c then let '(ps, r) := pieces s' [] in (acc :: ps, r) else pieces s' (acc ++ [c])
  end.
(** One argument per delimiter, and one for a rest that is not empty. *)
Definition fields (s : list byte) : list (list byte) :=
  let '(ps, r) := pieces s [] in ps ++ match r with [] => [] | _ => [r] end.

(** Every read ends with a delimiter, or the byte behind what was read, which
    an earlier read may have left there, is one. *)
Fixpoint settled (b : mem) (chunks : list (list byte)) : Prop :=
  match chunks with
  | [] => True
  | c :: rest =>
      (is_delimiter (default x00 (last c)) = true \/ is_delimiter (b (Z.of_nat (length c))) = true) /\ settled (put_bytes b 0 c) rest
  end.

Definition script (chunks : list (list byte)) (k : nat) : option (list byte) := Some (default [] (chunks !! k)).

(** ** Proofs *)

Definition plain (w : list byte) : Prop := Forall (fun c => is_delimiter c = false) w.

Lemma plain_no_nul w : plain w -> x00 ∉ w.
Proof. intros Hw Hin. unfold plain in Hw. rewrite Forall_forall in Hw. specialize (Hw _ Hin). discriminate. Qed.

Lemma plain_app v w : plain (v ++ w) <-> plain v /\ plain w.
Proof. apply Forall_app. Qed.

Lemma pieces_plain w s acc : plain w -> pieces (w ++ s) acc = pieces s (acc ++ w).
Proof.
  revert acc. induction w as [|c w IH]; intros acc Hw; [rewrite app_nil_r; reflexivity|]. inversion Hw as [|? ? Hc Hw']; subst.
  cbn [app pieces]. rewrite Hc, IH by exact Hw'. rewrite <- app_assoc. reflexivity.
Qed.

Lemma pieces_inv s acc ps r : pieces s acc = (ps, r) ->
  plain s /\ ps = [] /\ r = acc ++ s \/
  exists w c s' ps', s = w ++ c :: s' /\ plain w /\ is_delimiter c = true /\ pieces s' [] = (ps', r) /\ ps = (acc ++ w) :: ps'.
Proof.
  revert acc ps r. induction s as [|c s IH]; intros acc ps r E; cbn [pieces] in E.
  - injection E as <- <-. left. rewrite app_nil_r. split; [constructor | auto].
  - destruct (is_delimiter c) eqn:Ec.
    + destruct (pieces s []) as [ps' r'] eqn:E'. injection E as <- <-. right. exists [], c, s, ps'. rewrite app_nil_r. split; [reflexivity|]. split; [constructor | auto].
    + destruct (IH _ _ _ E) as [(H1 & H2 & H3)|(w & c' & s' & ps' & -> & H2 & H3 & H4 & H5)].
      * left. split; [constructor; assumption|]. rewrite <- app_assoc in H3. auto.
      * right. exists (c :: w), c', s', ps'. rewrite <- app_assoc in H5. split; [reflexivity|]. split; [constructor; assumption | auto].
Qed.

(** The part up to the last delimiter, and the rest. *)
Lemma pieces_split s ps r : pieces s [] = (ps, r) -> exists pre, s = pre ++ r /\ pieces pre [] = (ps, []) /\ plain r.
Proof.
  revert ps. remember (length s) as k eqn:Ek. revert s Ek. induction k as [k IH] using lt_wf_ind. intros s -> ps E.
  destruct (pieces_inv _ _ _ _ E) as [(H1 & -> & ->)|(w & c & s' & ps' & -> & H2 & H3 & H4 & ->)].
  - exists []. auto.
  - destruct (IH (length s')) with (s := s') (ps := ps') as (pre & -> & Hpre & Hr); [rewrite length_app; cbn; lia | reflexivity | exact H4|].
    exists (w ++ c :: pre). rewrite <- app_assoc. split; [reflexivity|]. split; [|exact Hr].
    rewrite pieces_plain by exact H2. cbn [pieces]. rewrite H3, Hpre. reflexivity.
Qed.

Lemma fields_pieces s ps r : pieces s [] = (ps, r) -> fields s = ps ++ match r with [] => [] | _ => [r] end.
Proof. unfold fields. intros ->. reflexivity. Qed.

Lemma scan_at b rc w i n k : bytes_at b i (length w) = w -> plain w -> i + Z.of_nat (length w) <= rc -> Z.of_nat k = rc - i ->
  (i + Z.of_nat (length w) < rc -> is_delimiter (b (i + Z.of_nat (length w))) = true) ->
  scan k b rc i n = (i + Z.of_nat (length w), n + Z.of_nat (length w)).
Proof.
  revert i n k. induction w as [|c w IH]; intros i n k Hb Hw Hl Hk Hd; cbn [length] in *.
  - rewrite Z.add_0_r in *. destruct k as [|k]; cbn [scan]; [f_equal; lia|]. rewrite Hd by lia. rewrite andb_false_r. f_equal; lia.
  - destruct k as [|k]; [lia|]. inversion Hw as [|? ? Hc Hw']; subst. change (S (length w)) with (1 + length w)%nat in Hb.
    rewrite bytes_at_app in Hb. injection Hb as Hb1 Hb2. rewrite Z.add_0_r in Hb1. cbn [scan]. rewrite Hb1, Hc. replace (i <? rc) with true by lia.
    cbn [andb negb]. rewrite IH; [f_equal; lia | exact Hb2 | exact Hw' | lia | lia|]. intros Hlt. rewrite <- Hd by lia. do 2 f_equal. lia.
Qed.

(** The string in [arg]. *)
Lemma arg_string m w : plain w -> (length w < 128)%nat ->
  cstr 128 (put_bytes (put_bytes m 0 w) (Z.of_nat (length w)) [x00]) 0 = w.
Proof.
  intros Hw Hl. apply cstr_bytes; [apply plain_no_nul, Hw | | | lia].
  - intros i b Hi. pose proof (lookup_lt_Some _ _ _ Hi). rewrite put_bytes_out by (cbn; lia). rewrite put_bytes_in by lia.
    apply nth_lookup_Some. rewrite Z.sub_0_r, Z.add_0_l, Nat2Z.id. exact Hi.
  - intros _. rewrite put_bytes_in by (cbn; lia). rewrite Z.add_0_l, Z.sub_diag. reflexivity.
Qed.

Section Proofs.
Context (argv : list (list byte)).

(** The command was started with each of [ws]. *)
Definition ran (ws : list (list byte)) (s s' : xstate) : Prop :=
  buf s' = buf s /\ nread s' = nread s /\ prev_it_remaining_len s' = 0 /\ error s' = 0 /\
  started s' = started s ++ ((fun w => argv ++ [w]) <$> ws).
Definition quiet (s : xstate) : Prop := prev_it_remaining_len s = 0 /\ error s = 0.

Lemma ran_nil s : quiet s -> ran [] s s.
Proof. intros [H1 H2]. unfold ran. rewrite app_nil_r. auto. Qed.
Lemma ran_quiet ws s s' : ran ws s s' -> quiet s'.
Proof. intros (_ & _ & H1 & H2 & _). split; assumption. Qed.
Lemma ran_app v w s1 s2 s3 : ran v s1 s2 -> ran w s2 s3 -> ran (v ++ w) s1 s3.
Proof.
  intros (H1 & H2 & H3 & H4 & H5) (K1 & K2 & K3 & K4 & K5). unfold ran. rewrite K1, K2, K5, H1, H2, H5, fmap_app, app_assoc. auto.
Qed.

Lemma piece_wp rc i w s : quiet s -> bytes_at (buf s) i (length w) = w -> plain w -> i < rc -> i + Z.of_nat (length w) <= rc ->
  is_delimiter (buf s (i + Z.of_nat (length w))) = true -> (length w < 128)%nat ->
  wp (xargs_body argv rc i) (fun r s' => r = inl (i + Z.of_nat (length w) + 1) /\ ran [w] s s') s.
Proof.
  intros [Hp He] Hb Hw Hi Hl Hd Hlen. unfold xargs_body. replace (i <? rc) with true by lia. wp_steps.
  rewrite (scan_at (buf s) rc w i 0) by (auto; lia). rewrite Z.add_0_l, Nat2Z.id, Hb, Hd, Hp. cbn [andb Z.eqb].
  replace (Z.of_nat (length w) >=? 128) with false by lia. unfold start_child. wp_steps. split; [reflexivity|].
  unfold ran. cbn [buf nread prev_it_remaining_len error started add_started set_arg arg fmap list_fmap]. rewrite arg_string by assumption. auto.
Qed.

Lemma end_wp rc i fuel s (Q : unit -> xstate -> Prop) : rc <= i -> (0 < fuel)%nat -> Q tt s -> wp (loop fuel (xargs_body argv rc) i) Q s.
Proof. intros Hi Hf HQ. destruct fuel; [lia|]. apply wp_loop_S. unfold xargs_body. replace (i <? rc) with false by lia. wp_steps. exact HQ. Qed.

(** The pieces that end with a delimiter. *)
Lemma pieces_wp rc Q str : forall ps i fuel s, pieces str [] = (ps, []) -> bytes_at (buf s) i (length str) = str -> i + Z.of_nat (length str) <= rc ->
  Forall (fun w => (length w < 128)%nat) ps -> (Z.to_nat (rc - i) < fuel)%nat -> quiet s ->
  (forall fuel' s', (Z.to_nat (rc - (i + Z.of_nat (length str))) < fuel')%nat -> ran ps s s' -> wp (loop fuel' (xargs_body argv rc) (i + Z.of_nat (length str))) Q s') ->
  wp (loop fuel (xargs_body argv rc) i) Q s.
Proof.
  remember (length str) as k eqn:Ek. revert str Ek. induction k as [k IH] using lt_wf_ind. intros str -> ps i fuel s E Hb Hl Hlen Hf Hq Hk.
  destruct (pieces_inv _ _ _ _ E) as [(_ & -> & Er)|(w & c & str' & ps' & -> & Hw & Hc & E' & ->)].
  { destruct str; [|discriminate]. cbn [length] in Hk. rewrite Z.add_0_r in Hk. apply Hk; [exact Hf | apply ran_nil, Hq]. }
  rewrite length_app in *. cbn [length app] in *. inversion Hlen as [|? ? Hlw Hlen']; subst. rewrite bytes_at_app in Hb.
  apply app_inj_1 in Hb as [Hb1 Hb2]; [|apply length_bytes_at]. change (S (length str')) with (1 + length str')%nat in Hb2.
  rewrite bytes_at_app in Hb2. injection Hb2 as Hb2 Hb3. rewrite Z.add_0_r in Hb2. destruct fuel as [|fuel]; [lia|]. apply wp_loop_S.
  eapply wp_mono; [apply (piece_wp rc i w s); auto; [lia | lia | rewrite Hb2; exact Hc]|]. intros r s1 [-> R].
  apply (IH (length str') ltac:(lia) str' eq_refl ps'); [exact E' | | lia | exact Hlen' | lia | exact (ran_quiet _ _ _ R)|].
  - rewrite (proj1 R). exact Hb3.
  - intros fuel' s' Hf' R'. replace (i + Z.of_nat (length w) + 1 + Z.of_nat (length str')) with (i + Z.of_nat (length w + S (length str'))) by lia.
    apply Hk; [lia | exact (ran_app [w] ps' _ _ _ R R')].
Qed.

Lemma last_piece c ps r : pieces c [] = (ps, r) -> r <> [] -> is_delimiter (default x00 (last c)) = false.
Proof.
  intros E Hr. destruct (pieces_split _ _ _ E) as (pre & -> & _ & Hpl). destruct r as [|x r _] using rev_ind; [done|].
  rewrite app_assoc, last_snoc. apply plain_app in Hpl as [_ Hx]. inversion Hx. assumption.
Qed.

(** A read that ends with a delimiter, or is followed by one. *)
Lemma chunk_wp c s : quiet s -> bytes_at (buf s) 0 (length c) = c -> Forall (fun w => (length w < 128)%nat) (fields c) ->
  is_delimiter (default x00 (last c)) = true \/ is_delimiter (buf s (Z.of_nat (length c))) = true ->
  wp (loop (S (length c)) (xargs_body argv (Z.of_nat (length c))) 0) (fun _ => ran (fields c) s) s.
Proof.
  intros Hq Hb Hlen Hend. destruct (pieces c []) as [ps r] eqn:E. rewrite (fields_pieces _ _ _ E) in *. apply Forall_app in Hlen as [Hlp Hlr].
  destruct (pieces_split _ _ _ E) as (pre & Ec & Hpre & Hpl).
  assert (Hr : r <> [] -> is_delimiter (buf s (Z.of_nat (length c))) = true).
  { intros Hr. destruct Hend as [Hend|Hend]; [|exact Hend]. rewrite (last_piece _ _ _ E Hr) in Hend. discriminate. }
  clear Hend E. rewrite Ec in Hb, Hr |- *. rewrite length_app in *. rewrite bytes_at_app in Hb. apply app_inj_1 in Hb as [Hb1 Hb2]; [|apply length_bytes_at].
  eapply (pieces_wp _ _ pre ps); [exact Hpre | exact Hb1 | lia | exact Hlp | lia | exact Hq|]. intros fuel' s' Hf R.
  destruct r as [|x r]; [apply end_wp; [cbn; lia | lia | rewrite app_nil_r; exact R]|]. remember (x :: r) as w eqn:Ew.
  assert (Hw : (0 < length w)%nat) by (subst w; cbn; lia). specialize (Hr ltac:(subst w; discriminate)).
  destruct fuel' as [|fuel']; [lia|]. apply wp_loop_S.
  assert (Hlw : (length w < 128)%nat) by (inversion Hlr; assumption).
  eapply wp_mono; [apply (piece_wp _ _ w s' (ran_quiet _ _ _ R)); [rewrite (proj1 R); exact Hb2 | exact Hpl | lia | lia | | exact Hlw]|].
  - rewrite (proj1 R). rewrite <- Hr. do 2 f_equal. lia.
  - intros ? s2 [-> R2]. apply end_wp; [lia | lia |]. exact (ran_app ps [w] _ _ _ R R2).
Qed.

(** What [read] delivered is in [buf]. *)
Lemma read_buf b c : bytes_at (put_bytes b 0 c) 0 (length c) = c.
Proof.
  apply list_eq_same_length with (n := length c); [reflexivity | apply length_bytes_at|]. intros i x y Hi Hx Hy.
  rewrite lookup_bytes_at in Hx by exact Hi. injection Hx as <-. rewrite put_bytes_in by lia. apply nth_lookup_Some. rewrite Z.sub_0_r, Z.add_0_l, Nat2Z.id. exact Hy.
Qed.

Lemma read_beyond b c : put_bytes b 0 c (Z.of_nat (length c)) = b (Z.of_nat (length c)).
Proof. apply put_bytes_out. lia. Qed.

(** One read of the loop, and the last. *)
Lemma read_next reads fuel s bs Q : reads (nread s) = Some bs -> bs <> [] -> error s = 0 ->
  wp (loop (S (length bs)) (xargs_body argv (Z.of_nat (length bs))) 0) (fun _ => wp (loop fuel (xargs_read reads argv) tt) Q) (set_buf (put_bytes (buf s) 0 bs) s) ->
  wp (loop (S fuel) (xargs_read reads argv) tt) Q s.
Proof.
  intros E Hne He Hk. apply wp_loop_S. unfold xargs_read at 1, read_stdin. wp_steps. rewrite E. wp_steps. cbn [error set_buf]. rewrite He.
  replace (Z.of_nat (length bs) =? 0) with false by (destruct bs; [done | cbn; lia]). cbn [negb andb Z.eqb]. wp_steps. rewrite Nat2Z.id.
  eapply wp_mono; [exact Hk|]. intros [] s' HQ. apply wp_ret. exact HQ.
Qed.

Lemma read_last reads fuel s bs (Q : Z -> xstate -> Prop) : reads (nread s) = Some bs -> bs = [] \/ error s <> 0 ->
  Q (Z.of_nat (length bs)) (set_buf (put_bytes (buf s) 0 bs) s) -> wp (loop (S fuel) (xargs_read reads argv) tt) Q s.
Proof.
  intros E Hor HQ. apply wp_loop_S. unfold xargs_read at 1, read_stdin. wp_steps. rewrite E. wp_steps. cbn [error set_buf].
  replace (negb (Z.of_nat (length bs) =? 0) && (error s =? 0)) with false; [wp_steps; exact HQ|].
  destruct Hor as [->|He]; [reflexivity|]. replace (error s =? 0) with false by lia. rewrite andb_false_r. reflexivity.
Qed.

Lemma script_drop all chunks s c : c :: chunks = drop (nread s) all -> script all (nread s) = Some c /\ chunks = drop (S (nread s)) all.
Proof.
  intros Ed. unfold script. rewrite <- (Nat.add_0_r (nread s)) at 1. rewrite <- lookup_drop, <- Ed. split; [reflexivity|].
  replace (S (nread s)) with (nread s + 1)%nat by lia. rewrite <- drop_drop, <- Ed. reflexivity.
Qed.

Lemma script_end all s : [] = drop (nread s) all -> script all (nread s) = Some [].
Proof. intros Ed. unfold script. rewrite <- (Nat.add_0_r (nread s)) at 1. rewrite <- lookup_drop, <- Ed. reflexivity. Qed.

Lemma reads_wp all chunks : forall s, chunks = drop (nread s) all -> quiet s -> Forall (fun c => c <> []) chunks -> settled (buf s) chunks ->
  Forall (fun w => (length w < 128)%nat) (concat (fields <$> chunks)) ->
  wp (loop (S (length chunks)) (xargs_read (script all) argv) tt) (fun r s' => r = 0 /\ quiet s' /\
    started s' = started s ++ ((fun w => argv ++ [w]) <$> concat (fields <$> chunks))) s.
Proof.
  induction chunks as [|c chunks IH]; intros s Ed Hq Hne Hset Hlen.
  - eapply read_last; [apply script_end, Ed | left; reflexivity|]. split; [reflexivity|]. split; [exact Hq|]. cbn. rewrite app_nil_r. reflexivity.
  - destruct (script_drop _ _ _ _ Ed) as [E1 E2]. inversion Hne as [|? ? Hc Hne']; subst. cbn [fmap list_fmap concat] in Hlen.
    apply Forall_app in Hlen as [Hl1 Hl2]. destruct Hset as [Hend Hset]. eapply read_next; [exact E1 | exact Hc | apply Hq|].
    eapply wp_mono; [apply (chunk_wp c); [exact Hq | apply read_buf | exact Hl1 | cbn [buf set_buf]; rewrite read_beyond; exact Hend]|].
    intros [] s1 (R1 & R2 & R3 & R4 & R5).
    eapply wp_mono; [apply (IH s1); [rewrite R2; reflexivity | split; assumption | exact Hne' | rewrite R1; exact Hset | exact Hl2]|].
    intros r s2 (-> & Hq2 & E). split; [reflexivity|]. split; [exact Hq2|]. rewrite E, R5. cbn [started set_buf fmap list_fmap concat].
    rewrite fmap_app, app_assoc. reflexivity.
Qed.

Lemma xargs_wp chunks beyond garbage : Forall (fun c => c <> []) chunks -> settled (buf (xstate0 beyond garbage)) chunks ->
  Forall (fun w => (length w < 128)%nat) (concat (fields <$> chunks)) ->
  wp (xargs (script chunks) argv (S (length chunks))) (fun st s' => st = 0 /\
    started s' = (fun w => argv ++ [w]) <$> concat (fields <$> chunks)) (xstate0 beyond garbage).
Proof.
  intros H1 H2 H3. unfold xargs. wp_steps. eapply wp_mono; [apply (reads_wp chunks chunks); auto; split; reflexivity|].
  intros r s' (-> & [Hp He] & E). wp_steps. cbn [Z.ltb Z.compare when]. wp_steps. rewrite Hp. cbn [negb Z.eqb when]. wp_steps. auto.
Qed.

(** A read that ends in the middle of an argument: the piece is kept. *)
Lemma carry_wp c ps r s : quiet s -> bytes_at (buf s) 0 (length c) = c -> pieces c [] = (ps, r) -> r <> [] ->
  Forall (fun w => (length w < 128)%nat) ps -> (length r <= 128)%nat -> is_delimiter (buf s (Z.of_nat (length c))) = false ->
  wp (loop (S (length c)) (xargs_body argv (Z.of_nat (length c))) 0) (fun _ s' => nread s' = nread s /\ error s' = 0 /\
    prev_it_remaining_len s' = Z.of_nat (length r) /\ started s' = started s ++ ((fun w => argv ++ [w]) <$> ps)) s.
Proof.
  intros Hq Hb E Hr Hlp Hlr Hd. destruct (pieces_split _ _ _ E) as (pre & Ec & Hpre & Hpl). clear E. rewrite Ec in Hb, Hd |- *.
  rewrite length_app in *. rewrite bytes_at_app in Hb. apply app_inj_1 in Hb as [Hb1 Hb2]; [|apply length_bytes_at].
  assert (Hw : (0 < length r)%nat) by (destruct r; [done | cbn; lia]).
  eapply (pieces_wp _ _ pre ps); [exact Hpre | exact Hb1 | lia | exact Hlp | lia | exact Hq|]. intros fuel' s' Hf R.
  destruct fuel' as [|fuel']; [lia|]. apply wp_loop_S. unfold xargs_body. destruct R as (R1 & R2 & R3 & R4 & R5).
  replace (_ <? _) with true by lia. wp_steps.
  rewrite (scan_at (buf s') _ r) by first [rewrite R1; exact Hb2 | exact Hpl | lia]. rewrite R1.
  replace (0 + Z.of_nat (length pre) + Z.of_nat (length r)) with (Z.of_nat (length pre + length r)) by lia. rewrite Hd. cbn [andb].
  wp_steps. apply wp_panic_if; [lia|]. wp_steps. apply end_wp; [lia | lia |]. cbn. auto.
Qed.

(** The rest of the argument arrives: it is taken to be too long. *)
Lemma join_wp v c v' s : 0 < prev_it_remaining_len s -> bytes_at (buf s) 0 (length (v ++ c :: v')) = v ++ c :: v' -> plain v -> is_delimiter c = true ->
  Z.of_nat (length v) + prev_it_remaining_len s < 128 ->
  let rc := Z.of_nat (length (v ++ c :: v')) in
  wp (loop (S (length (v ++ c :: v'))) (xargs_body argv rc) 0) (fun _ s' => s' = set_error 1 s) s.
Proof.
  intros Hp Hb Hv Hc Hl rc. apply wp_loop_S. unfold xargs_body. subst rc. rewrite length_app in *. cbn [length] in *.
  replace (_ <? _) with true by lia. wp_steps. rewrite bytes_at_app in Hb. apply app_inj_1 in Hb as [Hb1 Hb2]; [|apply length_bytes_at].
  change (S (length v')) with (1 + length v')%nat in Hb2. rewrite bytes_at_app in Hb2. injection Hb2 as Hb2 _. rewrite Z.add_0_r in Hb2.
  rewrite (scan_at (buf s) _ v) by first [assumption | lia | rewrite Hb2; auto]. rewrite Hb2, Hc, !Z.add_0_l.
  replace (prev_it_remaining_len s =? 0) with false by lia. cbn [andb negb]. replace (_ <? 128) with true by lia. wp_steps. reflexivity.
Qed.
End Proofs.


(** C38: input longer than one read.  When the first 512 bytes end in the middle
    of an argument and the byte behind [buf] is no delimiter, xargs reports the
    argument as too long although it is shorter than 128, starts the command
    for the arguments before it only, and exits with status 1: the test of the
    length of the joined argument is inverted. *)
Theorem xargs_long_input argv c1 ps r v d v' rest beyond garbage : length c1 = 512%nat -> is_delimiter beyond = false ->
  pieces c1 [] = (ps, r) -> r <> [] -> Forall (fun w => (length w < 128)%nat) ps ->
  plain v -> is_delimiter d = true -> (length r + length v < 128)%nat ->
  wp (xargs (script (c1 :: (v ++ d :: v') :: rest)) argv 3) (fun st s' => st = 1 /\
    started s' = (fun w => argv ++ [w]) <$> ps) (xstate0 beyond garbage).
Proof.
  intros H1 Hb E Hr Hps Hv Hd Hl. unfold xargs. wp_steps. assert (Hn : (0 < length r)%nat) by (destruct r; [done | cbn; lia]).
  eapply (read_next _ _ _ _ c1); [reflexivity | intros ->; discriminate | reflexivity|].
  eapply wp_mono; [apply (carry_wp argv c1 ps r); [split; reflexivity | apply read_buf | exact E | exact Hr | exact Hps | lia |]|].
  { cbn [buf set_buf]. rewrite read_beyond, H1. cbn [buf xstate0]. change (Z.of_nat 512) with 512. rewrite fn_lookup_insert. exact Hb. }
  intros [] s1 (N1 & R1 & R2 & R3). eapply (read_next _ _ _ _ (v ++ d :: v')); [rewrite N1; reflexivity | destruct v; discriminate | exact R1|].
  eapply wp_mono; [apply (join_wp argv v d v'); [cbn; lia | apply read_buf | exact Hv | exact Hd | cbn; lia]|].
  intros [] s2 ->. eapply read_last; [reflexivity | right; discriminate|].
  replace (_ <? 0) with false by lia. cbn [when]. wp_steps. cbn [prev_it_remaining_len set_buf set_error]. rewrite R2.
  replace (_ =? 0) with false by lia. cbn [negb when]. wp_steps. apply wp_panic_if; [lia|]. wp_steps. split; [reflexivity | exact R3].
Qed.

(** Reads that keep failing keep xargs busy for ever. *)
Lemma xargs_read_error argv fuel s : error s = 0 -> xargs (fun _ => None) argv fuel s = OutOfFuel.
Proof.
  intros He. assert (G : forall s, error s = 0 -> loop fuel (xargs_read (fun _ => None) argv) tt s = OutOfFuel); [|].
  { clear s He. induction fuel as [|fuel IH]; intros s He; [reflexivity|]. cbn [loop].
    transitivity (loop fuel (xargs_read (fun _ => None) argv) tt (set_buf (buf s) s)); [|apply IH; exact He].
    unfold xargs_read, read_stdin, mbind, M_bind. cbn. rewrite He. reflexivity. }
  unfold xargs, mbind at 1, M_bind at 1. rewrite (G s He). reflexivity.
Qed.


Definition demo_long : list byte := mjoin (replicate 250 [x61; x20]) ++ replicate 12 x62.

Lemma xargs_long_input_witness :
  wp (xargs (script [demo_long; [x63; x0a]]) [[x77; x63]] 3) (fun st s' => st = 1 /\
    started s' = (fun w => [[x77; x63]] ++ [w]) <$> replicate 250 [x61]) (xstate0 x41 (fun _ => x58)).
Proof.
  apply (xargs_long_input [[x77; x63]] demo_long (replicate 250 [x61]) (replicate 12 x62) [x63] x0a [] [] x41 (fun _ => x58));
    [vm_compute; reflexivity | reflexivity | vm_compute; reflexivity | discriminate | | repeat constructor | reflexivity | cbn; lia].
  apply Forall_replicate. cbn. lia.
Defined.
End Xargs.
