(* ===== verification/Find.v ===== *)
(** * The find and ls commands: user/find.c, user/ls.c

    The file system as the programs see it through [open], [fstat] and the
    reads of a directory is a parameter: what a path can be opened as.  Paths
    are the bytes of C strings.  Undefined behaviour is an error ([Panic]):
    writing behind an array of 512 bytes, and [strlen] of a name of 14 bytes,
    which has no terminator in a directory entry. *)

From S2P Require Import Prelude Memory FsDefs Printf.
Import CString Printf.

Module Find.

Record stat := Stat { st_type : Z; st_ino : Z; st_size : Z }.
(** What [open] finds: the result of [fstat] on it and, for a directory, its
    entries, inode number and the bytes of the name. *)
Record opened := Opened { o_stat : option stat; o_ents : list (Z * list byte) }.

(** What was printed, and the descriptors in use. *)
Record fstate := FState { out : list byte; fds : Z }.

Definition NL : string := String (Ascii.ascii_of_nat 10) EmptyString.
Definition set_fds (n : Z) (s : fstate) : fstate := FState (out s) n.
Definition printf (fmt : string) (ap : list va) : M fstate unit :=
  modify (fun s => FState (out s ++ default [] (vprintf (str fmt) ap)) (fds s)).

Fixpoint iter {S A} (f : A -> M S unit) (l : list A) : M S unit :=
  match l with [] => mret tt | a :: l' => f a;; iter f l' end.

(** [for(p=path+strlen(path); p >= path && *p != '/'; p--);  p++;] *)
Fixpoint after_slash (path : list byte) (p : nat) : nat :=
  if bool_decide (path !! p = Some x2f) then S p
  else match p with O => O | S p' => after_slash path p' end.

Definition fmtname (path : list byte) : list byte :=
  let p := drop (after_slash path (length path)) path in
  if Z.of_nat (length p) >=? DIRSIZ then p
  else p ++ replicate (Z.to_nat DIRSIZ - length p) x20.

(** [memcmp(fname, target, strlen(target)) == 0]: the string [fname] has its
    terminator, at which [memcmp] stops at the latest. *)
Definition name_matches (fname target : list byte) : bool :=
  bool_decide (take (length target) (fname ++ [x00]) = target).

(** The string in the 14 bytes of a name. *)
Definition de_name (raw : list byte) : list byte := cstr 14 (put_bytes (fun _ => x00) 0 raw) 0.

Section Programs.
Context (open_path : list byte -> option opened).

Definition open (path : list byte) : M fstate (option opened) :=
  s ← get;
  if fds s >=? NOFILE then mret None
  else match open_path path with
       | Some o => modify (set_fds (fds s + 1));; mret (Some o)
       | None => mret None
       end.
Definition close : M fstate unit := modify (fun s => set_fds (fds s - 1) s).

(** The recursion goes as deep as the directories. *)
Fixpoint find (fuel : nat) (path target : list byte) : M fstate unit :=
  match fuel with
  | O => fun _ => OutOfFuel
  | S fuel' =>
      fd ← gets fds;
      o ← open path;
      match o with
      | None => printf ("Failed to open a directory. path: %s" ++ NL) [Str (Some path)]
      | Some o =>
          match o_stat o with
          | None => printf ("Failed to call `fstat` on fd %i" ++ NL) [Slot fd];; close
          | Some st =>
              (if (st_type st =? T_DEVICE) || (st_type st =? T_FILE) then
                 when (name_matches (fmtname path) target) (printf ("%s" ++ NL) [Str (Some path)])
               else if st_type st =? T_DIR then
                 panic_if (Z.of_nat (length path) + 1 >? 512) "subdir overflow";;
                 iter (fun '(inum, raw) =>
                   let name := de_name raw in
                   if (inum =? 0) || bool_decide (name = str "..") || bool_decide (name = str ".") then mret tt
                   else
                     panic_if (bool_decide (x00 ∉ raw)) "name not terminated";;
                     panic_if (Z.of_nat (length path + 1 + length name) + 1 >? 512) "subdir overflow";;
                     find fuel' (path ++ x2f :: name) target) (o_ents o)
               else mret tt);;
              close
          end
      end
  end.

(** [stat] of user/ulib.c *)
Definition stat_path (path : list byte) : M fstate (option stat) :=
  o ← open path;
  match o with None => mret None | Some o => close;; mret (o_stat o) end.

Definition print_entry (path : list byte) (st : stat) : M fstate unit :=
  printf ("%s %d %d %d" ++ NL) [Str (Some (fmtname path)); Slot (st_type st); Slot (st_ino st); Slot (i32 (st_size st))].

Definition ls (path : list byte) : M fstate unit :=
  o ← open path;
  match o with
  | None => printf ("ls: cannot open %s" ++ NL) [Str (Some path)]
  | Some o =>
      match o_stat o with
      | None => printf ("ls: cannot stat %s" ++ NL) [Str (Some path)];; close
      | Some st =>
          (if (st_type st =? T_DEVICE) || (st_type st =? T_FILE) then print_entry path st
           else if st_type st =? T_DIR then
             if Z.of_nat (length path) + 1 + DIRSIZ + 1 >? 512 then printf ("ls: path too long" ++ NL) []
             else
               iter (fun '(inum, raw) =>
                 if inum =? 0 then mret tt
                 else
                   let p := path ++ x2f :: de_name raw in
                   r ← stat_path p;
                   match r with
                   | None => printf ("ls: cannot stat %s" ++ NL) [Str (Some p)]
                   | Some st => print_entry p st
                   end) (o_ents o)
           else mret tt);;
          close
      end
  end.

(** ** What find should print *)

Definition skipped (e : Z * list byte) : bool :=
  (e.1 =? 0) || bool_decide (de_name e.2 = str "..") || bool_decide (de_name e.2 = str ".").
Definition names (es : list (Z * list byte)) : list (list byte) :=
  (fun e => de_name e.2) <$> filter (fun e => skipped e = false) es.

(** The paths below a path. *)
Inductive below : list byte -> list byte -> Prop :=
| below_here path : below path path
| below_child path o st name p : open_path path = Some o -> o_stat o = Some st -> st_type st = T_DIR -> name ∈ names (o_ents o) ->
    below (path ++ x2f :: name) p -> below path p.

(** A file or a device. *)
Definition leaf (p : list byte) : Prop :=
  exists o st, open_path p = Some o /\ o_stat o = Some st /\ (st_type st = T_DEVICE \/ st_type st = T_FILE).

(** The directories below [path] are at most [h] deep, hold names of at most
    13 bytes without a slash, each once, and no path is longer than 511. *)
Fixpoint good (h : nat) (path : list byte) : Prop :=
  exists o st, open_path path = Some o /\ o_stat o = Some st /\
  (st_type st = T_DEVICE \/ st_type st = T_FILE \/
   st_type st = T_DIR /\ Z.of_nat (length path) < 512 /\ NoDup (names (o_ents o)) /\
   Forall (fun e => skipped e = false -> x00 ∈ e.2 /\ (x2f ∉ de_name e.2) /\ Z.of_nat (length path + 1 + length (de_name e.2)) < 512 /\
     match h with O => False | S h' => good h' (path ++ x2f :: de_name e.2) end) (o_ents o)).

(** ** Names *)

Lemma name_matches_prefix fname target : x00 ∉ target -> name_matches fname target = true <-> target `prefix_of` fname.
Proof.
  intros Hn. unfold name_matches. rewrite bool_decide_eq_true. split.
  - intros E. destruct (decide (length target <= length fname)%nat) as [Hl|Hl].
    + rewrite take_app_le in E by exact Hl. exists (drop (length target) fname). rewrite <- E at 1. symmetry. apply take_drop.
    + exfalso. apply Hn. rewrite <- E. rewrite take_ge by (rewrite length_app; cbn; lia). apply elem_of_app. right. apply list_elem_of_singleton. reflexivity.
  - intros [r ->]. rewrite <- app_assoc. apply take_app_length.
Qed.

Lemma after_slash_name dir name : x2f ∉ name -> after_slash (dir ++ x2f :: name) (length (dir ++ x2f :: name)) = S (length dir).
Proof.
  intros Hn. assert (G : forall k, (k <= S (length name))%nat -> after_slash (dir ++ x2f :: name) (length dir + k) = S (length dir)).
  { induction k as [|k IH]; intros Hk.
    - rewrite Nat.add_0_r. destruct (length dir) as [|m] eqn:E; cbn [after_slash]; rewrite <- ?E;
        (rewrite bool_decide_eq_true_2; [reflexivity|]); [destruct dir; [reflexivity | discriminate] | apply list_lookup_middle; reflexivity].
    - rewrite Nat.add_succ_r. cbn [after_slash]. rewrite bool_decide_eq_false_2; [apply IH; lia|].
      rewrite lookup_app_r by lia. replace (S (length dir + k) - length dir)%nat with (S k) by lia. cbn. intros Hc. apply Hn. eapply list_elem_of_lookup_2, Hc. }
  rewrite length_app. apply G. cbn. lia.
Qed.

(** The last component of a path, blank-padded. *)
Lemma fmtname_last dir name : x2f ∉ name -> (length name < 14)%nat -> fmtname (dir ++ x2f :: name) = name ++ replicate (14 - length name) x20.
Proof.
  intros Hn Hl. unfold fmtname. rewrite after_slash_name by exact Hn. replace (S (length dir)) with (length (dir ++ [x2f])) by (rewrite length_app; cbn; lia).
  change (dir ++ x2f :: name) with (dir ++ [x2f] ++ name). rewrite app_assoc, drop_app_length. unfold DIRSIZ. replace (_ >=? 14) with false by lia. reflexivity.
Qed.

Definition slashed (r : list byte) : Prop := r = [] \/ exists r', r = x2f :: r'.

Lemma below_extends path p : below path p -> exists r, p = path ++ r /\ slashed r.
Proof.
  induction 1 as [path|path o st name p _ _ _ _ _ (r & -> & _)]; [exists []; rewrite app_nil_r; unfold slashed; auto|].
  rewrite <- app_assoc. exists ((x2f :: name) ++ r). split; [reflexivity|]. right. exists (name ++ r). reflexivity.
Qed.

Lemma slash_inj n1 n2 r1 r2 : x2f ∉ n1 -> x2f ∉ n2 -> slashed r1 -> slashed r2 -> n1 ++ r1 = n2 ++ r2 -> n1 = n2.
Proof.
  revert n2. induction n1 as [|c n1 IH]; intros [|c2 n2] H1 H2 S1 S2 E; cbn in E; [reflexivity| | |].
  - exfalso. destruct S1 as [-> | [r ->]]; [discriminate|]. injection E as <- _. apply H2. left.
  - exfalso. destruct S2 as [-> | [r ->]]; [discriminate|]. injection E as -> _. apply H1. left.
  - injection E as -> E. f_equal. apply (IH n2); auto; intros Hin; [apply H1 | apply H2]; right; exact Hin.
Qed.

(** ** The recursion *)

Definition lines (l : list (list byte)) : list byte := concat ((fun p => p ++ [x0a]) <$> l).

(** [l] are the files and devices below one of [roots] whose name begins with [target]. *)
Definition finds (target : list byte) (roots : list byte -> Prop) (l : list (list byte)) : Prop :=
  NoDup l /\ forall p, p ∈ l <-> (exists r, roots r /\ below r p) /\ leaf p /\ target `prefix_of` fmtname p.

(** [m] prints such a list. *)
Definition prints (target : list byte) (roots : list byte -> Prop) (s s' : fstate) : Prop :=
  fds s' = fds s /\ exists l, finds target roots l /\ out s' = out s ++ lines l.

Lemma print_path path s (Q : unit -> fstate -> Prop) : Q tt (FState (out s ++ path ++ [x0a]) (fds s)) -> wp (printf ("%s" ++ NL) [Str (Some path)]) Q s.
Proof. intros HQ. exact HQ. Qed.

Lemma open_wp path o s : open_path path = Some o -> fds s < NOFILE -> forall Q : option opened -> fstate -> Prop,
  Q (Some o) (set_fds (fds s + 1) s) -> wp (open path) Q s.
Proof. intros E Hf Q HQ. unfold open. wp_steps. replace (fds s >=? NOFILE) with false by lia. rewrite E. wp_steps. exact HQ. Qed.

Lemma leaf_prints target path o st s : x00 ∉ target -> open_path path = Some o -> o_stat o = Some st -> st_type st = T_DEVICE \/ st_type st = T_FILE ->
  wp (when (name_matches (fmtname path) target) (printf ("%s" ++ NL) [Str (Some path)])) (fun _ => prints target (eq path) s) s.
Proof.
  intros Hn E1 E2 Ht. assert (Hbel : forall p, (exists r, path = r /\ below r p) <-> p = path).
  { intros p. split; [|intros ->; exists path; split; [reflexivity | constructor]]. intros (r & <- & Hb). inversion Hb as [|? ? ? ? ? K1 K2 K3]; subst; [reflexivity|].
    rewrite E1 in K1. injection K1 as <-. rewrite E2 in K2. injection K2 as <-. unfold T_DEVICE, T_FILE, T_DIR in *. lia. }
  assert (Hleaf : leaf path) by (exists o, st; auto).
  destruct (name_matches (fmtname path) target) eqn:Em; cbn [when].
  - apply print_path. split; [reflexivity|]. exists [path]. split; [|unfold lines; cbn; rewrite app_nil_r; reflexivity]. split; [apply NoDup_singleton|].
    intros p. rewrite list_elem_of_singleton, Hbel. apply name_matches_prefix in Em; [|exact Hn]. split; [intros ->; auto | tauto].
  - apply wp_ret. split; [reflexivity|]. exists []. split; [|unfold lines; cbn; rewrite app_nil_r; reflexivity]. split; [constructor|].
    intros p. rewrite Hbel. split; [intros Hin; inversion Hin|]. intros (-> & _ & Hp). apply (name_matches_prefix _ _ Hn) in Hp. congruence.
Qed.

(** Two disjoint parts. *)
Lemma finds_app target (R1 R2 : list byte -> Prop) l1 l2 : finds target R1 l1 -> finds target R2 l2 ->
  (forall r1 r2 p, R1 r1 -> R2 r2 -> below r1 p -> below r2 p -> False) -> finds target (fun r => R1 r \/ R2 r) (l1 ++ l2).
Proof.
  intros [N1 E1] [N2 E2] Hdis. split.
  - apply NoDup_app. split; [exact N1|]. split; [|exact N2]. intros p H1 H2. apply E1 in H1 as ((r1 & Hr1 & B1) & _). apply E2 in H2 as ((r2 & Hr2 & B2) & _). eauto.
  - intros p. rewrite elem_of_app, E1, E2. split.
    + intros [((r & Hr & Hb) & H)|((r & Hr & Hb) & H)]; (split; [exists r; auto | exact H]).
    + intros ((r & [Hr|Hr] & Hb) & H); [left | right]; (split; [exists r; auto | exact H]).
Qed.

Lemma finds_ext target (R1 R2 : list byte -> Prop) l : (forall p, (exists r, R1 r /\ below r p) /\ leaf p <-> (exists r, R2 r /\ below r p) /\ leaf p) ->
  finds target R1 l -> finds target R2 l.
Proof. intros HR [N E]. split; [exact N|]. intros p. rewrite E. specialize (HR p). tauto. Qed.

Lemma prints_app target R1 R2 s1 s2 s3 : prints target R1 s1 s2 -> prints target R2 s2 s3 ->
  (forall r1 r2 p, R1 r1 -> R2 r2 -> below r1 p -> below r2 p -> False) -> prints target (fun r => R1 r \/ R2 r) s1 s3.
Proof.
  intros [F1 (l1 & H1 & O1)] [F2 (l2 & H2 & O2)] Hdis. split; [congruence|]. exists (l1 ++ l2). split; [apply finds_app; assumption|].
  rewrite O2, O1. unfold lines. rewrite fmap_app, concat_app, app_assoc. reflexivity.
Qed.

Definition child_of (path : list byte) (es : list (Z * list byte)) (r : list byte) : Prop := exists name, name ∈ names es /\ r = path ++ x2f :: name.

Lemma children_disjoint path n1 n2 p : x2f ∉ n1 -> x2f ∉ n2 -> below (path ++ x2f :: n1) p -> below (path ++ x2f :: n2) p -> n1 = n2.
Proof.
  intros H1 H2 B1 B2. apply below_extends in B1 as (r1 & -> & S1). apply below_extends in B2 as (r2 & E & S2).
  rewrite <- !app_assoc in E. apply app_inv_head in E. cbn in E. injection E as E. exact (slash_inj _ _ _ _ H1 H2 S1 S2 E).
Qed.

Lemma names_cons e es : names (e :: es) = if skipped e then names es else de_name e.2 :: names es.
Proof. unfold names. rewrite filter_cons. destruct (skipped e) eqn:E; [rewrite decide_False by discriminate | rewrite decide_True by reflexivity]; reflexivity. Qed.

Lemma no_slash_names es : Forall (fun e => skipped e = false -> x2f ∉ de_name e.2) es -> forall name, name ∈ names es -> x2f ∉ name.
Proof.
  intros He name Hin. unfold names in Hin. apply list_elem_of_fmap in Hin as (e & -> & Hin). apply list_elem_of_filter in Hin as [Hs Hin].
  rewrite Forall_forall in He. exact (He e Hin Hs).
Qed.

Lemma entries_wp target path fuel F es : NoDup (names es) ->
  Forall (fun e => skipped e = false -> x00 ∈ e.2 /\ (x2f ∉ de_name e.2) /\ Z.of_nat (length path + 1 + length (de_name e.2)) < 512 /\
    forall s, fds s = F -> wp (find fuel (path ++ x2f :: de_name e.2) target) (fun _ => prints target (eq (path ++ x2f :: de_name e.2)) s) s) es ->
  forall s, fds s = F ->
  wp (iter (fun '(inum, raw) =>
        let name := de_name raw in
        if (inum =? 0) || bool_decide (name = str "..") || bool_decide (name = str ".") then mret tt
        else
          panic_if (bool_decide (x00 ∉ raw)) "name not terminated";;
          panic_if (Z.of_nat (length path + 1 + length name) + 1 >? 512) "subdir overflow";;
          find fuel (path ++ x2f :: name) target) es) (fun _ => prints target (child_of path es) s) s.
Proof.
  induction es as [|[inum raw] es IH]; intros Hnd Hall s Hf; cbn [iter].
  - apply wp_ret. split; [reflexivity|]. exists []. split; [|unfold lines; cbn; rewrite app_nil_r; reflexivity].
    split; [constructor|]. intros p. split; [intros Hin; inversion Hin|]. intros ((r & (name & Hin & _) & _) & _). inversion Hin.
  - pose proof Hall as Hall0. inversion Hall as [|? ? He Hall']; subst. rewrite names_cons in Hnd. wp_steps.
    change ((inum =? 0) || bool_decide (de_name raw = str "..") || bool_decide (de_name raw = str ".")) with (skipped (inum, raw)).
    cbn [snd] in *. destruct (skipped (inum, raw)) eqn:Es.
    + wp_steps. eapply wp_mono; [apply (IH Hnd Hall' s eq_refl)|]. intros [] s'. unfold child_of. rewrite names_cons, Es. auto.
    + destruct (He eq_refl) as (Hz & Hs & Hl & Hfind). apply NoDup_cons in Hnd as [Hnin Hnd].
      wp_steps. apply wp_panic_if; [apply bool_decide_eq_false_2; auto|]. wp_steps. apply wp_panic_if; [lia|].
      eapply wp_mono; [apply (Hfind s eq_refl)|]. intros [] s1 P1. eapply wp_mono; [apply (IH Hnd Hall' s1); apply P1|].
      intros [] s2 P2. assert (Hdis : forall r1 r2 p, path ++ x2f :: de_name raw = r1 -> child_of path es r2 -> below r1 p -> below r2 p -> False).
      { intros r1 r2 p <- (name & Hin & ->) B1 B2. apply Hnin. replace (de_name raw) with name; [exact Hin|]. symmetry.
        eapply children_disjoint; [exact Hs | | exact B1 | exact B2]. eapply (no_slash_names es); [|exact Hin].
        eapply Forall_impl; [exact Hall'|]. intros e H E. apply H, E. }
      destruct (prints_app _ _ _ _ _ _ P1 P2 Hdis) as [F1 (l & Hl1 & O1)]. split; [exact F1|]. exists l. split; [|exact O1].
      eapply finds_ext; [|exact Hl1]. intros p. unfold child_of. rewrite names_cons, Es. cbn [snd].
      split; intros ((r & Hr & Hb) & Hleaf); (split; [exists r; split; [|exact Hb] | exact Hleaf]).
      * destruct Hr as [<-|(name & Hin & ->)]; eexists; (split; [apply elem_of_cons | reflexivity]); auto.
      * destruct Hr as (name & [->|Hin]%elem_of_cons & ->); [left; reflexivity | right; exists name; auto].
Qed.

(** What is below a directory is below one of its entries. *)
Lemma dir_prints target path o st s s' : open_path path = Some o -> o_stat o = Some st -> st_type st = T_DIR ->
  prints target (child_of path (o_ents o)) s s' -> prints target (eq path) s s'.
Proof.
  intros E1 E2 Hty [F (l & Hl & O)]. split; [exact F|]. exists l. split; [|exact O]. eapply finds_ext; [|exact Hl]. intros p. split.
  - intros ((r & (name & Hin & ->) & Hb) & Hleaf). split; [|exact Hleaf]. exists path. split; [reflexivity | eapply below_child; eauto].
  - intros ((r & <- & Hb) & Hleaf). split; [|exact Hleaf]. inversion Hb as [|? o' st' name ? K1 K2 K3 K4 K5]; subst.
    + destruct Hleaf as (o' & st' & K1 & K2 & K3). rewrite E1 in K1. injection K1 as <-. rewrite E2 in K2. injection K2 as <-.
      unfold T_DEVICE, T_FILE, T_DIR in *. lia.
    + rewrite E1 in K1. injection K1 as <-. eexists. split; [exists name; eauto | exact K5].
Qed.

(** One directory, given the recursive calls. *)
Lemma find_step target path fuel o st s : x00 ∉ target -> open_path path = Some o -> o_stat o = Some st -> fds s < NOFILE ->
  (st_type st = T_DEVICE \/ st_type st = T_FILE \/
   st_type st = T_DIR /\ Z.of_nat (length path) < 512 /\ NoDup (names (o_ents o)) /\
   Forall (fun e => skipped e = false -> x00 ∈ e.2 /\ (x2f ∉ de_name e.2) /\ Z.of_nat (length path + 1 + length (de_name e.2)) < 512 /\
     forall s', fds s' = fds s + 1 -> wp (find fuel (path ++ x2f :: de_name e.2) target) (fun _ => prints target (eq (path ++ x2f :: de_name e.2)) s') s')
     (o_ents o)) ->
  wp (find (S fuel) path target) (fun _ => prints target (eq path) s) s.
Proof.
  intros Hn E1 E2 Hf Hty. cbn [find]. wp_steps. apply (open_wp path o); auto with lia. rewrite E2. wp_steps. set (s1 := set_fds (fds s + 1) s).
  assert (Hclose : forall s2, prints target (eq path) s1 s2 -> wp close (fun _ => prints target (eq path) s) s2).
  { intros s2 [F (l & Hl & O)]. unfold close. wp_steps. split; [cbn; rewrite F; cbn; lia | exists l; split; [exact Hl | exact O]]. }
  destruct ((st_type st =? T_DEVICE) || (st_type st =? T_FILE)) eqn:Eleaf.
  { eapply wp_mono; [eapply leaf_prints; [exact Hn | exact E1 | exact E2 | unfold T_DEVICE, T_FILE in *; lia] | intros [] s2; apply Hclose]. }
  destruct Hty as [Hty|[Hty|(Hty & Hpl & Hnd & Hents)]]; [unfold T_DEVICE, T_FILE in *; lia.. |].
  rewrite Hty. cbn [Z.eqb T_DIR Pos.eqb]. wp_steps. apply wp_panic_if; [lia|].
  eapply wp_mono; [eapply (entries_wp target path fuel (fds s1)); [exact Hnd | exact Hents | reflexivity]|].
  intros [] s2 P. apply Hclose. eapply dir_prints; eauto.
Qed.

Lemma find_wp target h : x00 ∉ target -> forall path s, good h path -> fds s + Z.of_nat h < NOFILE ->
  wp (find (S h) path target) (fun _ => prints target (eq path) s) s.
Proof.
  intros Hn. induction h as [|h IH]; intros path s (o & st & E1 & E2 & Hty) Hf; (eapply find_step; [exact Hn | exact E1 | exact E2 | lia|]);
    (destruct Hty as [Hty|[Hty|(Hty & Hpl & Hnd & Hents)]]; [auto | auto |]); right; right; repeat (split; [assumption|]);
    (eapply Forall_impl; [exact Hents|]); intros e He Hs; destruct (He Hs) as (H1 & H2 & H3 & H4); [destruct H4|].
  repeat (split; [assumption|]). intros s3 F3. apply IH; [exact H4 | lia].
Qed.


(** ** What ls prints *)

Definition entry_line (path : list byte) (st : stat) : list byte :=
  default [] (vprintf (str ("%s %d %d %d" ++ NL)) [Str (Some (fmtname path)); Slot (st_type st); Slot (st_ino st); Slot (i32 (st_size st))]).
Definition stat_of (p : list byte) : option stat := o ← open_path p; o_stat o.
(** The lines of the entries in use. *)
Fixpoint ls_lines (path : list byte) (es : list (Z * list byte)) : list byte :=
  match es with
  | [] => []
  | (inum, raw) :: es' =>
      let p := path ++ x2f :: de_name raw in
      (if inum =? 0 then [] else match stat_of p with Some st => entry_line p st | None => default [] (vprintf (str ("ls: cannot stat %s" ++ NL)) [Str (Some p)]) end)
      ++ ls_lines path es'
  end.

Lemma stat_path_wp p s (Q : option stat -> fstate -> Prop) : fds s < NOFILE -> Q (stat_of p) s -> wp (stat_path p) Q s.
Proof.
  intros Hf HQ. unfold stat_path, open, stat_of in *. wp_steps. replace (fds s >=? NOFILE) with false by lia.
  destruct (open_path p) as [o|]; wp_steps; [|exact HQ]. unfold close. wp_steps. cbn in HQ. destruct s as [u n]. unfold set_fds. cbn. rewrite Z.add_simpl_r. exact HQ.
Qed.

(** ls prints one line for every entry in use of a directory, in order. *)
Lemma ls_dir path o st s : open_path path = Some o -> o_stat o = Some st -> st_type st = T_DIR ->
  Z.of_nat (length path) + 1 + DIRSIZ + 1 <= 512 -> fds s + 1 < NOFILE ->
  wp (ls path) (fun _ s' => s' = FState (out s ++ ls_lines path (o_ents o)) (fds s)) s.
Proof.
  intros E1 E2 Hty Hl Hf. unfold ls. wp_steps. apply (open_wp path o); [exact E1 | lia|]. rewrite E2, Hty. cbn [Z.eqb T_DIR T_DEVICE T_FILE Pos.eqb orb].
  wp_steps. replace (_ >? 512) with false by lia.
  assert (G : forall es u, wp (iter (fun '(inum, raw) => if inum =? 0 then mret tt else
      let p := path ++ x2f :: de_name raw in r ← stat_path p;
      match r with None => printf ("ls: cannot stat %s" ++ NL) [Str (Some p)] | Some st => print_entry p st end) es)
    (fun _ s' => s' = FState (u ++ ls_lines path es) (fds s + 1)) (FState u (fds s + 1))).
  { induction es as [|[inum raw] es IH]; intros u; cbn [iter ls_lines]; [apply wp_ret; rewrite app_nil_r; reflexivity|]. wp_steps.
    destruct (inum =? 0); [apply wp_ret, IH|]. wp_steps. apply stat_path_wp; [cbn; lia|].
    destruct (stat_of (path ++ x2f :: de_name raw)) as [st'|]; unfold print_entry, printf; wp_steps; cbn [out fds]; rewrite app_assoc; apply IH. }
  eapply wp_mono; [apply (G (o_ents o) (out s))|]. intros [] s' ->. unfold close. wp_steps. unfold set_fds. cbn. f_equal. lia.
Qed.
End Programs.

(** A directory with [foo], [foobar] and a directory [d] with another [foo]. *)
Definition demo_raw (name : string) : list byte := take 14 (str name ++ replicate 14 x00).
Definition demo_ents (path : list byte) : option (list (Z * list byte)) :=
  if bool_decide (path = str ".") then
    Some [(1, demo_raw "."); (1, demo_raw ".."); (2, demo_raw "foo"); (0, demo_raw "gone"); (3, demo_raw "foobar"); (4, demo_raw "d")]
  else if bool_decide (path = str "./d") then Some [(4, demo_raw "."); (1, demo_raw ".."); (5, demo_raw "foo")]
  else None.
Definition demo_fs (path : list byte) : option opened :=
  match demo_ents path with
  | Some es => Some (Opened (Some (Stat T_DIR 1 0)) es)
  | None => if bool_decide (path ∈ str <$> ["./foo"; "./foobar"; "./d/foo"]%string) then Some (Opened (Some (Stat T_FILE 2 0)) []) else None
  end.

Lemma demo_good : good demo_fs 2 (str ".").
Proof.
  assert (Hleaf : forall h p, p ∈ str <$> ["./foo"; "./foobar"; "./d/foo"]%string -> good demo_fs h p).
  { intros h p Hp. assert (E : demo_fs p = Some (Opened (Some (Stat T_FILE 2 0)) [])).
    { repeat (apply elem_of_cons in Hp as [->|Hp]; [reflexivity|]). inversion Hp. }
    destruct h; cbn [good]; eexists _, _; (split; [exact E|]); (split; [reflexivity | auto]). }
  assert (Hd : good demo_fs 1 (str "./d")).
  { cbn [good]. eexists _, _. split; [reflexivity|]. split; [reflexivity|]. right. right. split; [reflexivity|]. split; [reflexivity|].
    split; [apply (bool_decide_unpack _); vm_compute; exact I|].
    repeat (apply Forall_cons; split); try (apply Forall_nil; exact I); try (intros E; vm_compute in E; discriminate E).
    intros _. split; [apply (bool_decide_unpack _); vm_compute; exact I|].
    split; [apply (bool_decide_unpack _); vm_compute; exact I|]. split; [reflexivity|]. apply (Hleaf O). apply (bool_decide_unpack _). vm_compute. exact I. }
  cbn [good]. eexists _, _. split; [reflexivity|]. split; [reflexivity|]. right. right. split; [reflexivity|]. split; [reflexivity|].
  split; [apply (bool_decide_unpack _); vm_compute; exact I|].
  repeat (apply Forall_cons; split); try (apply Forall_nil; exact I); try (intros E; vm_compute in E; discriminate E); intros _;
    (split; [apply (bool_decide_unpack _); vm_compute; exact I|]); (split; [apply (bool_decide_unpack _); vm_compute; exact I|]); (split; [reflexivity|]);
    first [exact Hd | apply (Hleaf 1%nat); apply (bool_decide_unpack _); vm_compute; exact I].
Qed.

End Find.
