(* ===== verification/Pingpong.v ===== *)
(** * Ping-pong over one pipe: user/pingpong.c

    The program on the machine of [Unix].  It has finitely many executions,
    and the property is checked on all of them. *)

From S2P Require Import Prelude Memory FsDefs Pipe Printf Unix.
Import Unix Printf.

Module Pingpong.

(** Where a process is: [M] before the fork, [K] the child, [P] the parent;
    [EClose] closes the descriptors before an [exit]. *)
Inductive ctl :=
| MPipe | MFork
| KRead | KClose | KPid | KWrite | KClose2
| PWrite | PClose | PWait | PRead | PClose2 | PPid
| EClose (l : list Z) (status : Z) | Exit (status : Z).

(** [pending] is what a [printf], which writes byte by byte, has still to
    write. *)
Record loc := Loc { pc : ctl; pending : list byte; read_fd : Z; write_fd : Z; close_status : Z }.

#[export] Instance ctl_eq : EqDecision ctl.
Proof. solve_decision. Defined.
#[export] Instance loc_eq : EqDecision loc.
Proof. solve_decision. Defined.

Definition NL : string := String (Ascii.ascii_of_nat 10) EmptyString.
Definition set_pc (c : ctl) (l : loc) : loc := Loc c (pending l) (read_fd l) (write_fd l) (close_status l).
Definition set_status (st : Z) (l : loc) : loc := Loc (pc l) (pending l) (read_fd l) (write_fd l) st.
Definition print (fmt : string) (ap : list va) (l : loc) : loc :=
  Loc (pc l) (pending l ++ default [] (vprintf (str fmt) ap)) (read_fd l) (write_fd l) (close_status l).

Definition signal : byte := x30.

Definition call_of (l : loc) : call :=
  match pending l with
  | c :: _ => CWrite 1 [c]
  | [] =>
      match pc l with
      | MPipe => CPipe
      | MFork => CFork
      | KRead | PRead => CRead (read_fd l) 1
      | KClose | PClose2 => CClose (read_fd l)
      | KPid | PPid => CGetpid
      | KWrite | PWrite => CWrite (write_fd l) [signal]
      | KClose2 | PClose => CClose (write_fd l)
      | PWait => CWait
      | EClose (fd :: _) _ => CClose fd
      | EClose [] st | Exit st => CExit st
      end
  end.

Definition ret_int (r : ret) : Z := match r with RInt r | RData r _ | RFds r _ _ | RChild r _ => r end.

(** The child, after its call returned [n]. *)
Definition after_child (l : loc) (n : Z) : loc :=
  match pc l with
  | KRead =>
      if negb (n =? 1) then
        set_pc (EClose [read_fd l; write_fd l] 1)
          (print ("[ERROR] Expect to receive a single byte from the parent process, but got %d." ++ NL) [Slot n] l)
      else set_pc KClose l
  | KClose =>
      if negb (n =? 0) then set_pc (Exit 1) (print ("[ERROR] Expect read fd close status to be 0, but got: %d" ++ NL) [Slot n] l)
      else set_pc KPid l
  | KPid => set_pc KWrite (print ("%d: received ping" ++ NL) [Slot n] l)
  | KWrite =>
      if negb (n =? 1) then
        set_pc (EClose [write_fd l] 1) (print ("[ERROR] Expect a single byte to be written, but got %d." ++ NL) [Slot n] l)
      else set_pc KClose2 l
  | _ =>
      if negb (n =? 0) then set_pc (Exit 1) (print ("[ERROR] Expect write fd close status to be 0, but got: %d" ++ NL) [Slot n] l)
      else set_pc (Exit 0) l
  end.

(** The parent; the status of the second [close] is not looked at, but that
    of the first one again. *)
Definition after_parent (l : loc) (r : ret) : loc :=
  let n := ret_int r in
  match pc l with
  | PWrite =>
      if negb (n =? 1) then
        set_pc (EClose [write_fd l; read_fd l] 1) (print ("[ERROR] Expect %d bytes to be written, but got %d." ++ NL) [Slot 1; Slot n] l)
      else set_pc PClose l
  | PClose =>
      if negb (n =? 0) then set_pc (Exit 1) (print ("[ERROR] Expect write fd close status to be 0, but got: %d" ++ NL) [Slot n] l)
      else set_pc PWait (set_status n l)
  | PWait =>
      let st := match r with RChild _ st => st | _ => 0 end in
      if negb (st =? 0) then
        set_pc (EClose [read_fd l] 1)
          (print ("[ERROR] Expect exit status %d from the child process, but got %d." ++ NL) [Slot 0; Slot st] l)
      else set_pc PRead l
  | PRead =>
      if negb (n =? 1) then
        set_pc (EClose [read_fd l] 1) (print ("[ERROR] Expect to receive a single byte from the child, but got: %d." ++ NL) [Slot n] l)
      else set_pc PClose2 l
  | PClose2 =>
      if negb (close_status l =? 0) then
        set_pc (Exit 1) (print ("[ERROR] Expect read fd close status to be 0, but got: %d" ++ NL) [Slot (close_status l)] l)
      else set_pc PPid l
  | _ => set_pc (Exit 0) (print ("%d: received pong" ++ NL) [Slot n] l)
  end.

Definition after (l : loc) (r : ret) : loc :=
  match pending l with
  | _ :: rest => Loc (pc l) rest (read_fd l) (write_fd l) (close_status l)
  | [] =>
      match pc l with
      | MPipe => match r with RFds 0 a b => Loc MFork [] a b (close_status l) | _ => set_pc MFork l end
      | MFork => if ret_int r =? 0 then set_pc KRead l else set_pc PWrite l
      | KRead | KClose | KPid | KWrite | KClose2 => after_child l (ret_int r)
      | PWrite | PClose | PWait | PRead | PClose2 | PPid => after_parent l r
      | EClose (_ :: fds) st => set_pc (EClose fds st) l
      | EClose [] _ | Exit _ => l
      end
  end.

(** [main] with the variables not yet set. *)
Definition main (garbage : Z) : loc := Loc MPipe [] garbage garbage garbage.

(** ** All executions *)

#[export] Instance pstat_eq : EqDecision pstat.
Proof. solve_decision. Defined.
#[export] Instance process_eq : EqDecision (process (L := loc)).
Proof. solve_decision. Defined.
#[export] Instance unix_eq : EqDecision (unix (L := loc)).
Proof. solve_decision. Defined.

Section Runs.
Context (nproc nfile : nat).

Definition next (u : unix) : list unix := omap (fun k => ustep call_of after nproc nfile k u) (seq 0 (length (u_procs u))).

(** The states after [n] steps. *)
Fixpoint layer (n : nat) (u : unix) : list unix :=
  match n with O => [u] | S n' => remove_dups (us ← layer n' u; next us) end.

Lemma next_step u u' : step call_of after nproc nfile u u' <-> u' ∈ next u.
Proof.
  unfold next. rewrite list_elem_of_omap. split.
  - intros [k E]. exists k. split; [|exact E]. apply elem_of_seq. split; [lia|]. unfold ustep in E.
    destruct (u_procs u !! k) eqn:El; [apply lookup_lt_Some in El; exact El | discriminate].
  - intros (k & _ & E). exists k. exact E.
Qed.

Lemma layer_steps n u u' : nsteps (step call_of after nproc nfile) n u u' -> u' ∈ layer n u.
Proof.
  revert u'. induction n as [|n IH]; intros u' Hn; [inversion Hn; subst; left|].
  apply nsteps_inv_r in Hn as (v & Hn & Hs). cbn [layer]. apply elem_of_remove_dups, list_elem_of_bind. exists v.
  split; [apply next_step, Hs | apply IH, Hn].
Qed.
End Runs.

(** Both processes have exited with status 0, and the output is this. *)
Definition finished (u : unix (L := loc)) : bool :=
  bool_decide (u_out u = str ("4: received ping" ++ NL ++ "3: received pong" ++ NL)) &&
  bool_decide (p_stat <$> u_procs u = [Zombie 0; Reaped]).

Definition layers_ok (nproc nfile : nat) (g : Z) (k : nat) : bool :=
  forallb (fun n => forallb (fun u => match next nproc nfile u with [] => finished u && (n =? k)%nat | _ => true end)
    (layer nproc nfile n (start (main g)))) (seq 0 (S k)).

Lemma layers_checked : layers_ok (Z.to_nat NPROC - 2) (Z.to_nat NFILE) (-1) 49 = true /\
  layer (Z.to_nat NPROC - 2) (Z.to_nat NFILE) 50 (start (main (-1))) = [].
Proof. split; vm_compute; reflexivity. Qed.

Lemma layer_empty nproc nfile u n m : layer nproc nfile n u = [] -> (n <= m)%nat -> layer nproc nfile m u = [].
Proof. intros E. induction 1 as [|m _ IH]; [exact E|]. cbn [layer]. rewrite IH. reflexivity. Qed.

(** C35: every execution of pingpong, with its two processes interleaved in any
    way, stops after 49 system calls, both processes then having exited with
    status 0 and the output being the ping of the child before the pong of the
    parent; before that some process can always go on.  (init and sh are two
    of the NPROC processes; -1 stands for the variables not yet set.) *)
Theorem pingpong_prints n u :
  nsteps (step call_of after (Z.to_nat NPROC - 2) (Z.to_nat NFILE)) n (start (main (-1))) u ->
  (n <= 49)%nat /\
  ((exists u', step call_of after (Z.to_nat NPROC - 2) (Z.to_nat NFILE) u u') \/
   n = 49%nat /\ u_out u = str ("4: received ping" ++ NL ++ "3: received pong" ++ NL) /\ p_stat <$> u_procs u = [Zombie 0; Reaped]).
Proof.
  intros Hn. apply layer_steps in Hn. destruct layers_checked as [Hok Hend].
  assert (Hle : (n <= 49)%nat).
  { destruct (decide (n <= 49)%nat) as [|Hgt]; [assumption|]. rewrite (layer_empty _ _ _ 50 n Hend) in Hn by lia. inversion Hn. }
  split; [exact Hle|]. unfold layers_ok in Hok. rewrite forallb_forall in Hok. specialize (Hok n ltac:(apply in_seq; lia)).
  rewrite forallb_forall in Hok. specialize (Hok u ltac:(apply list_elem_of_In, Hn)). destruct (next _ _ u) as [|u' l] eqn:E.
  - right. apply andb_true_iff in Hok as [[H1 H2]%andb_true_iff H3]. apply bool_decide_eq_true in H1, H2. apply Nat.eqb_eq in H3. auto.
  - left. exists u'. apply next_step. rewrite E. left.
Qed.

Lemma pingpong_prints_witness : exists u, nsteps (step call_of after (Z.to_nat NPROC - 2) (Z.to_nat NFILE)) 2 (start (main (-1))) u /\
  exists u', step call_of after (Z.to_nat NPROC - 2) (Z.to_nat NFILE) u u'.
Proof.
  assert (Hn : nsteps (step call_of after (Z.to_nat NPROC - 2) (Z.to_nat NFILE)) 2 (start (main (-1)))
    (run call_of after (Z.to_nat NPROC - 2) (Z.to_nat NFILE) [0; 0]%nat (start (main (-1))))).
  { eapply nsteps_l; [exists O; reflexivity|]. eapply nsteps_l; [exists O; reflexivity|]. apply nsteps_O. }
  eexists. split; [exact Hn|]. destruct (pingpong_prints 2 _ Hn) as [_ [Hs|[E _]]]; [exact Hs | discriminate].
Defined.
End Pingpong.
