(* ===== verification/Cat.v ===== *)
(** * The cat and echo commands: user/cat.c, user/echo.c

    What the reads of a descriptor deliver is a list ([None] is an error; at
    its end the file is at an end), however the kernel splits the contents;
    what a [write] to descriptor 1 accepts is a parameter.  The result is the
    exit status. *)

From S2P Require Import Prelude Memory Printf.
Import Printf.

Module Cat.

(** What was written to descriptors 1 and 2. *)
Record cstate := CState { out : list byte; err : list byte }.

Definition NL : string := String (Ascii.ascii_of_nat 10) EmptyString.

Section Cat.
(** The result of writing these bytes: all of them are accepted, or fewer. *)
Context (accepts : list byte -> Z).

Definition write (bs : list byte) : M cstate Z :=
  modify (fun s => CState (out s ++ take (Z.to_nat (accepts bs)) bs) (err s));; mret (accepts bs).
Definition fprintf2 (fmt : string) (ap : list va) : M cstate unit :=
  modify (fun s => CState (out s) (err s ++ default [] (vprintf (str fmt) ap))).

(** [cat(fd)]: [Some] status is a call of [exit]. *)
Fixpoint cat (reads : list (option (list byte))) : M cstate (option Z) :=
  match reads with
  | [] | Some [] :: _ => mret None
  | None :: _ => fprintf2 ("cat: read error" ++ NL) [];; mret (Some 1)
  | Some bs :: reads' =>
      n ← write bs;
      if negb (n =? Z.of_nat (length bs)) then fprintf2 ("cat: write error" ++ NL) [];; mret (Some 1)
      else cat reads'
  end.

(** The loop of [main] over the arguments; [open] yields the reads. *)
Fixpoint cat_files (open : list byte -> option (list (option (list byte)))) (argv : list (list byte)) : M cstate Z :=
  match argv with
  | [] => mret 0
  | a :: argv' =>
      match open a with
      | None => fprintf2 ("cat: cannot open %s" ++ NL) [Str (Some a)];; mret 1
      | Some reads =>
          r ← cat reads;
          match r with Some st => mret st | None => cat_files open argv' end
      end
  end.

Definition cat_main (open : list byte -> option (list (option (list byte)))) (stdin : list (option (list byte))) (argv : list (list byte)) : M cstate Z :=
  match argv with
  | [] => r ← cat stdin; mret (default 0 r)
  | _ => cat_files open argv
  end.

(** echo, from the argument [i]. *)
Fixpoint echo (argv : list (list byte)) : M cstate Z :=
  match argv with
  | [] => mret 0
  | a :: argv' =>
      write a;;
      match argv' with [] => write [x0a] | _ => write [x20] end;;
      echo argv'
  end.

(** ** What they print, when writes accept everything *)

Context (Hall : forall bs, accepts bs = Z.of_nat (length bs)).

Lemma write_wp bs s (Q : Z -> cstate -> Prop) : Q (Z.of_nat (length bs)) (CState (out s ++ bs) (err s)) -> wp (write bs) Q s.
Proof. intros HQ. unfold write. wp_steps. rewrite Hall, Nat2Z.id, firstn_all. exact HQ. Qed.

Lemma cat_wp chunks s : Forall (fun c => c <> []) chunks ->
  wp (cat (Some <$> chunks)) (fun r s' => r = None /\ s' = CState (out s ++ concat chunks) (err s)) s.
Proof.
  revert s. induction chunks as [|c chunks IH]; intros s Hne; cbn [fmap list_fmap cat].
  - apply wp_ret. cbn. rewrite app_nil_r. destruct s. auto.
  - inversion Hne as [|? ? Hc Hne']; subst. destruct c as [|b c]; [done|]. wp_steps. apply write_wp. rewrite Z.eqb_refl. cbn [negb].
    eapply wp_mono; [apply IH, Hne'|]. intros r s' [-> ->]. cbn [out err concat]. rewrite <- app_assoc. auto.
Qed.

(** cat writes the contents of its files one after the other, however they
    are split into reads. *)
Lemma cat_files_wp open argv (chunks : list (list (list byte))) s : Forall2 (fun a cs => open a = Some (Some <$> cs) /\ Forall (fun c => c <> []) cs) argv chunks ->
  wp (cat_files open argv) (fun r s' => r = 0 /\ s' = CState (out s ++ concat (map (@concat byte) chunks)) (err s)) s.
Proof.
  intros Hf. revert s. induction Hf as [|a cs argv chunks [E Hne] _ IH]; intros s; cbn [cat_files map concat].
  - apply wp_ret. rewrite app_nil_r. destruct s. auto.
  - rewrite E. wp_steps. eapply wp_mono; [apply cat_wp, Hne|]. intros r s1 [-> ->]. eapply wp_mono; [apply IH|].
    intros r s2 [-> ->]. cbn [out err]. rewrite app_assoc. auto.
Qed.

(** echo writes its arguments, separated by blanks, and a newline. *)
Fixpoint joined (argv : list (list byte)) : list byte :=
  match argv with [] => [] | [a] => a ++ [x0a] | a :: argv' => a ++ x20 :: joined argv' end.

Lemma echo_wp argv s : wp (echo argv) (fun r s' => r = 0 /\ s' = CState (out s ++ joined argv) (err s)) s.
Proof.
  revert s. induction argv as [|a argv IH]; intros s; cbn [echo].
  - apply wp_ret. cbn. rewrite app_nil_r. destruct s. auto.
  - wp_steps. apply write_wp. destruct argv as [|a' argv'].
    + wp_steps. apply write_wp. cbn [echo]. apply wp_ret. cbn [out err joined]. rewrite app_assoc. auto.
    + wp_steps. apply write_wp. eapply wp_mono; [apply IH|]. intros r s' [-> ->]. cbn [out err]. change (joined (a :: a' :: argv')) with (a ++ x20 :: joined (a' :: argv')).
      rewrite <- !app_assoc. auto.
Qed.
End Cat.
End Cat.
