(* ===== verification/Virtio.v ===== *)
(** * The virtio disk driver: kernel/virtio_disk.c and kernel/virtio.h

    Processes that call [virtio_disk_rw], the interrupt handler
    [virtio_disk_intr] and the device, interleaved at the granularity of the
    spinlock [disk.vdisk_lock], of [sleep] (which [Sleeplock] proves to lose
    no wakeup) and of the writes that publish a request.  A pointer that the
    driver hands to the device is what it points to.  The device is a
    parameter: the class [Device] says what the virtio specification (version
    1.1, sections 2.6 and 5.2) documents of it. *)

From S2P Require Import Prelude Memory FsDefs.

Module Virtio.

Definition NUM : Z := 8.
Definition VRING_DESC_F_NEXT : Z := 1.
Definition VRING_DESC_F_WRITE : Z := 2.
Definition VIRTIO_BLK_T_IN : Z := 0.
Definition VIRTIO_BLK_T_OUT : Z := 1.

(** &disk.ops[i], b->data, &disk.info[i].status *)
Inductive addr := ANull | AOp (i : Z) | AData (b : nat) | AStatus (i : Z).

Record virtq_desc := Desc { d_addr : addr; d_len : Z; d_flags : Z; d_next : Z }.
Record virtio_blk_req := Req { r_type : Z; r_reserved : Z; r_sector : Z }.

(** The fields of a [struct buf] the driver uses. *)
Record buf := Buf { b_blockno : Z; b_data : mem; b_disk : Z }.

(** [disk], with the rings it points to, and the buffers. *)
Record disk := Disk {
  desc : Z -> virtq_desc;
  avail_idx : Z;              (** avail->idx *)
  avail_ring : Z -> Z;        (** avail->ring *)
  used_no : Z;                (** used->idx *)
  used_ring : Z -> Z;         (** used->ring[].id *)
  free : Z -> bool;
  used_idx : Z;
  info_b : Z -> option nat;
  info_status : Z -> Z;
  ops : Z -> virtio_blk_req;
  bufs : nat -> buf
}.

Definition set_desc f d := Disk f (avail_idx d) (avail_ring d) (used_no d) (used_ring d) (free d) (used_idx d) (info_b d) (info_status d) (ops d) (bufs d).
Definition set_avail i f d := Disk (desc d) i f (used_no d) (used_ring d) (free d) (used_idx d) (info_b d) (info_status d) (ops d) (bufs d).
Definition set_used i f d := Disk (desc d) (avail_idx d) (avail_ring d) i f (free d) (used_idx d) (info_b d) (info_status d) (ops d) (bufs d).
Definition set_free f d := Disk (desc d) (avail_idx d) (avail_ring d) (used_no d) (used_ring d) f (used_idx d) (info_b d) (info_status d) (ops d) (bufs d).
Definition set_used_idx i d := Disk (desc d) (avail_idx d) (avail_ring d) (used_no d) (used_ring d) (free d) i (info_b d) (info_status d) (ops d) (bufs d).
Definition set_info f g d := Disk (desc d) (avail_idx d) (avail_ring d) (used_no d) (used_ring d) (free d) (used_idx d) f g (ops d) (bufs d).
Definition set_ops f d := Disk (desc d) (avail_idx d) (avail_ring d) (used_no d) (used_ring d) (free d) (used_idx d) (info_b d) (info_status d) f (bufs d).
Definition set_bufs f d := Disk (desc d) (avail_idx d) (avail_ring d) (used_no d) (used_ring d) (free d) (used_idx d) (info_b d) (info_status d) (ops d) f.

Definition set_data (m : mem) (x : buf) : buf := Buf (b_blockno x) m (b_disk x).
Definition set_disk (v : Z) (x : buf) : buf := Buf (b_blockno x) (b_data x) v.

(** ** The device

    What it has seen of the available ring, the chains it works on, the
    medium, the interrupt status register, and whether it has been notified
    since it last went idle. *)

Record dview := View {
  seen : Z;
  taken : list Z;
  platter : mem;
  isr : Z;
  awake : bool
}.

Definition chained (x : virtq_desc) : bool := negb (Z.land (d_flags x) VRING_DESC_F_NEXT =? 0).
Definition writable (x : virtq_desc) : bool := negb (Z.land (d_flags x) VRING_DESC_F_WRITE =? 0).

(** The request whose chain starts at [h]: header, data, status; the flags
    say which descriptors are chained and which ones the device writes. *)
Definition transfer (h : Z) (v : dview) (d : disk) : option (mem * disk) :=
  let d0 := desc d h in let d1 := desc d (d_next d0) in let d2 := desc d (d_next d1) in
  if chained d0 && chained d1 && negb (chained d2) && writable d2 then
    match d_addr d0, d_addr d1, d_addr d2 with
    | AOp i, AData b, AStatus j =>
        let at_ := r_sector (ops d i) * 512 in
        let done := set_info (info_b d) (<[j := 0]> (info_status d)) d in
        if (r_type (ops d i) =? VIRTIO_BLK_T_IN) && writable d1 then
          Some (platter v, set_bufs (<[b := set_data (blit (b_data (bufs d b)) 0 (platter v) at_ (d_len d1)) (bufs d b)]> (bufs d)) done)
        else if (r_type (ops d i) =? VIRTIO_BLK_T_OUT) && negb (writable d1) then
          Some (blit (platter v) at_ (b_data (bufs d b)) 0 (d_len d1), done)
        else None
    | _, _, _ => None
    end
  else None.

(** [h] goes to the used ring. *)
Definition give_back (h : Z) (d : disk) : disk :=
  set_used (u16 (used_no d + 1)) (<[used_no d mod NUM := h]> (used_ring d)) d.

Inductive device_does : dview -> disk -> dview -> disk -> Prop :=
| does_take v d : seen v <> avail_idx d ->
    device_does v d (View (u16 (seen v + 1)) (taken v ++ [avail_ring d (seen v mod NUM)]) (platter v) (isr v) (awake v)) d
| does_transfer v d l1 h l2 m d' : taken v = l1 ++ h :: l2 -> transfer h v d = Some (m, d') ->
    device_does v d (View (seen v) (l1 ++ l2) m (Z.lor (isr v) 1) (awake v)) (give_back h d')
| does_rest v d : seen v = avail_idx d -> taken v = [] ->
    device_does v d (View (seen v) [] (platter v) (isr v) false) d.

Class Device (X : Type) := {
  view : X -> dview;
  dstep : X -> disk -> X -> disk -> Prop;
  (** writes of QUEUE_NOTIFY and INTERRUPT_ACK *)
  notify : X -> X;
  ack : Z -> X -> X;
  (** it may also work without a visible effect *)
  dstep_does x d x' d' : dstep x d x' d' -> (view x' = view x /\ d' = d) \/ device_does (view x) d (view x') d';
  (** notified, it takes the requests it has not seen, in order *)
  dstep_takes x d : awake (view x) = true -> seen (view x) <> avail_idx d ->
    exists x', dstep x d x' d /\ device_does (view x) d (view x') d /\ seen (view x') = u16 (seen (view x) + 1);
  (** and it finishes the requests it has taken *)
  dstep_finishes x d h l m d' : taken (view x) = h :: l -> transfer h (view x) d = Some (m, d') ->
    exists x', dstep x d x' (give_back h d') /\ view x' = View (seen (view x)) l m (Z.lor (isr (view x)) 1) (awake (view x));
  notify_view x : view (notify x) = View (seen (view x)) (taken (view x)) (platter (view x)) (isr (view x)) true;
  ack_view n x : view (ack n x) = View (seen (view x)) (taken (view x)) (platter (view x)) (Z.ldiff (isr (view x)) n) (awake (view x))
}.

(** ** The driver *)

(** A call of [virtio_disk_rw] that has its descriptors: b, write, idx. *)
Record call := Call { c_buf : nat; c_write : bool; c_i0 : Z; c_i1 : Z; c_i2 : Z }.

(** Where a process is. *)
Inductive pc :=
| Idle
| Enter (b : nat) (w : bool)       (** acquire(&disk.vdisk_lock) *)
| Alloc (b : nat) (w : bool)       (** alloc3_desc(idx) *)
| AsleepFree (b : nat) (w : bool)  (** sleep(&disk.free[0], ...) *)
| Format (c : call)                (** format the three descriptors *)
| Ring (c : call)                  (** disk.avail->ring[...] = idx[0] *)
| Publish (c : call)               (** disk.avail->idx += 1 *)
| Notify (c : call)                (** QUEUE_NOTIFY *)
| Wait (c : call)                  (** while (b->disk == 1) *)
| AsleepBuf (c : call)             (** sleep(b, ...) *)
| Reenter (c : call).              (** the acquire at the end of sleep *)

(** Where the interrupt handler is. *)
Inductive hpc := HIdle | HEnter | HAck | HLoop | HEntry.

Inductive who := Proc (p : nat) | Handler.
#[export] Instance who_eq_dec : EqDecision who.
Proof. solve_decision. Defined.
Inductive chan := ChFree | ChBuf (b : nat).

Section Driver.
Context {X : Type} `{Device X}.

Record state := State {
  vlock : option who;
  dk : disk;
  pcs : nat -> pc;
  hp : hpc;
  dev : X
}.

Definition set_vlock o s := State o (dk s) (pcs s) (hp s) (dev s).
Definition set_dk d s := State (vlock s) d (pcs s) (hp s) (dev s).
Definition set_pcs f s := State (vlock s) (dk s) f (hp s) (dev s).
Definition set_hp h s := State (vlock s) (dk s) (pcs s) h (dev s).
Definition set_dev x s := State (vlock s) (dk s) (pcs s) (hp s) x.

Definition goto (p : nat) (c : pc) : M state unit := modify (fun s => set_pcs (<[p := c]> (pcs s)) s).
Definition upd (f : disk -> disk) : M state unit := modify (fun s => set_dk (f (dk s)) s).

Definition lock (w : who) : M state unit := fun s =>
  match vlock s with None => Ret tt (set_vlock (Some w) s) | Some _ => Block s end.
Definition unlock : M state unit := modify (set_vlock None).

Definition woken (ch : chan) (c : pc) : pc :=
  match ch, c with
  | ChFree, AsleepFree b w => Enter b w
  | ChBuf b, AsleepBuf c' => if decide (c_buf c' = b) then Reenter c' else c
  | _, _ => c
  end.
Definition wakeup (ch : chan) : M state unit := modify (fun s => set_pcs (fun q => woken ch (pcs s q)) s).

(** [sleep]: the lock is released with the process asleep. *)
Definition sleep (p : nat) (c : pc) : M state unit := unlock;; goto p c.

Fixpoint alloc_from (k : nat) (i : Z) : M state Z :=
  match k with
  | O => mret (-1)
  | S k' =>
      f ← gets (fun s => free (dk s) i);
      if f : bool then upd (fun d => set_free (<[i := false]> (free d)) d);; mret i
      else alloc_from k' (i + 1)
  end.
Definition alloc_desc : M state Z := alloc_from (Z.to_nat NUM) 0.

Definition free_desc (i : Z) : M state unit :=
  panic_if (i >=? NUM) "free_desc 1";;
  f ← gets (fun s => free (dk s) i);
  panic_if f "free_desc 2";;
  upd (fun d => set_desc (<[i := Desc ANull 0 0 0]> (desc d)) d);;
  upd (fun d => set_free (<[i := true]> (free d)) d);;
  wakeup ChFree.

(** Every iteration frees a descriptor: NUM of them are enough. *)
Definition free_chain (i : Z) : M state unit :=
  loop (Z.to_nat NUM) (fun i =>
    flag ← gets (fun s => d_flags (desc (dk s) i));
    nxt ← gets (fun s => d_next (desc (dk s) i));
    free_desc i;;
    if Z.land flag VRING_DESC_F_NEXT =? 0 then mret (inr tt) else mret (inl nxt)) i.

Definition alloc3_desc : M state (option (Z * Z * Z)) :=
  i0 ← alloc_desc;
  if i0 <? 0 then mret None
  else
    i1 ← alloc_desc;
    if i1 <? 0 then free_desc i0;; mret None
    else
      i2 ← alloc_desc;
      if i2 <? 0 then free_desc i0;; free_desc i1;; mret None
      else mret (Some (i0, i1, i2)).

Definition format (c : call) (d : disk) : disk :=
  let '(b, i0, i1, i2) := (c_buf c, c_i0 c, c_i1 c, c_i2 c) in
  let sector := u32 (b_blockno (bufs d b) * (BSIZE / 512)) in
  let d := set_ops (<[i0 := Req (if c_write c then VIRTIO_BLK_T_OUT else VIRTIO_BLK_T_IN) 0 sector]> (ops d)) d in
  let d := set_desc (<[i0 := Desc (AOp i0) 16 VRING_DESC_F_NEXT i1]> (desc d)) d in
  let d := set_desc (<[i1 := Desc (AData b) BSIZE (Z.lor (if c_write c then 0 else VRING_DESC_F_WRITE) VRING_DESC_F_NEXT) i2]> (desc d)) d in
  let d := set_info (info_b d) (<[i0 := 255]> (info_status d)) d in
  let d := set_desc (<[i2 := Desc (AStatus i0) 1 VRING_DESC_F_WRITE 0]> (desc d)) d in
  let d := set_bufs (<[b := set_disk 1 (bufs d b)]> (bufs d)) d in
  set_info (<[i0 := Some b]> (info_b d)) (info_status d) d.

(** One step of process [p] in [virtio_disk_rw]. *)
Definition virtio_disk_rw (p : nat) : M state unit :=
  c ← gets (fun s => pcs s p);
  match c with
  | Idle | AsleepFree _ _ | AsleepBuf _ => block
  | Enter b w => lock (Proc p);; goto p (Alloc b w)
  | Alloc b w =>
      r ← alloc3_desc;
      match r with
      | Some (i0, i1, i2) => goto p (Format (Call b w i0 i1 i2))
      | None => sleep p (AsleepFree b w)
      end
  | Format c => upd (format c);; goto p (Ring c)
  | Ring c => upd (fun d => set_avail (avail_idx d) (<[avail_idx d mod NUM := c_i0 c]> (avail_ring d)) d);; goto p (Publish c)
  | Publish c => upd (fun d => set_avail (u16 (avail_idx d + 1)) (avail_ring d) d);; goto p (Notify c)
  | Notify c => modify (fun s => set_dev (notify (dev s)) s);; goto p (Wait c)
  | Wait c =>
      busy ← gets (fun s => b_disk (bufs (dk s) (c_buf c)));
      if busy =? 1 then sleep p (AsleepBuf c)
      else
        upd (fun d => set_info (<[c_i0 c := None]> (info_b d)) (info_status d) d);;
        free_chain (c_i0 c);;
        unlock;;
        goto p Idle
  | Reenter c => lock (Proc p);; goto p (Wait c)
  end.

(** One step of the interrupt handler. *)
Definition virtio_disk_intr : M state unit :=
  h ← gets hp;
  match h with
  | HIdle => s ← get; if isr (view (dev s)) =? 0 then block else modify (set_hp HEnter)
  | HEnter => lock Handler;; modify (set_hp HAck)
  | HAck => modify (fun s => set_dev (ack (Z.land (isr (view (dev s))) 3) (dev s)) s);; modify (set_hp HLoop)
  | HLoop =>
      more ← gets (fun s => negb (used_idx (dk s) =? used_no (dk s)));
      if more : bool then modify (set_hp HEntry) else unlock;; modify (set_hp HIdle)
  | HEntry =>
      id ← gets (fun s => used_ring (dk s) (used_idx (dk s) mod NUM));
      st ← gets (fun s => info_status (dk s) id);
      panic_if (negb (st =? 0)) "virtio_disk_intr status";;
      b ← gets (fun s => info_b (dk s) id);
      match b with
      | None => panic "null buf"
      | Some b =>
          upd (fun d => set_bufs (<[b := set_disk 0 (bufs d b)]> (bufs d)) d);;
          wakeup (ChBuf b);;
          upd (fun d => set_used_idx (u16 (used_idx d + 1)) d);;
          modify (set_hp HLoop)
      end
  end.

(** The buffer of a call in progress. *)
Definition buf_of (c : pc) : option nat :=
  match c with
  | Idle => None
  | Enter b _ | Alloc b _ | AsleepFree b _ => Some b
  | Format c | Ring c | Publish c | Notify c | Wait c | AsleepBuf c | Reenter c => Some (c_buf c)
  end.
Definition asleep (c : pc) : bool := match c with AsleepFree _ _ | AsleepBuf _ => true | _ => false end.
Definition rouse (c : pc) : pc := match c with AsleepFree b w => Enter b w | AsleepBuf c' => Reenter c' | _ => c end.

(** Everything that can happen among [N] processes.  A caller holds the
    sleep lock of its buffer, so no other call uses it; [kill] can end a
    sleep. *)
Context (N : nat).
Inductive step : state -> state -> Prop :=
| step_call p b w blk data s : (p < N)%nat -> pcs s p = Idle -> (forall q, buf_of (pcs s q) <> Some b) -> 0 <= blk < 2 ^ 31 ->
    step s (set_dk (set_bufs (<[b := Buf blk data (b_disk (bufs (dk s) b))]> (bufs (dk s))) (dk s)) (set_pcs (<[p := Enter b w]> (pcs s)) s))
| step_kill p s : asleep (pcs s p) = true -> step s (set_pcs (<[p := rouse (pcs s p)]> (pcs s)) s)
| step_rw p s s' : virtio_disk_rw p s = Ret tt s' -> step s s'
| step_intr s s' : virtio_disk_intr s = Ret tt s' -> step s s'
| step_device s x d : dstep (dev s) (dk s) x d -> step s (set_dk d (set_dev x s)).

(** After [virtio_disk_init], with a device that has done nothing. *)
Definition disk0 : disk :=
  Disk (fun _ => Desc ANull 0 0 0) 0 (fun _ => 0) 0 (fun _ => 0) (fun _ => true) 0 (fun _ => None) (fun _ => 0) (fun _ => Req 0 0 0)
    (fun _ => Buf 0 zeroes 0).
Definition init (x : X) : state := State None disk0 (fun _ => Idle) HIdle x.
End Driver.
End Virtio.
