(* ===== verification/VirtioInv.v ===== *)
(** * What holds of the virtio disk driver's state

    The descriptors of the calls in progress are distinct and the rest are
    free; the requests between the driver and the device are in exactly one
    of three places: the part of the available ring the device has not seen
    ([la]), the device ([taken]), the part of the used ring the handler has
    not seen ([lu]). *)

From Stdlib Require Import FunctionalExtensionality.
From S2P Require Import Prelude Memory FsDefs Virtio.
Import Virtio.

(** How far the call of a process has come. *)
Inductive stage :=
| SNone
| SBuf (b : nat)
| SFormat (c : call) | SRing (c : call) | SPublish (c : call) | SNotify (c : call)
| SSub (c : call).

Definition stage_of (c : pc) : stage :=
  match c with
  | Idle => SNone
  | Enter b _ | Alloc b _ | AsleepFree b _ => SBuf b
  | Format c => SFormat c
  | Ring c => SRing c
  | Publish c => SPublish c
  | Notify c => SNotify c
  | Wait c | AsleepBuf c | Reenter c => SSub c
  end.

(** The call that has descriptors, has formatted them, has not yet published
    them, has submitted its request. *)
Definition own (x : stage) : option call :=
  match x with SNone | SBuf _ => None | SFormat c | SRing c | SPublish c | SNotify c | SSub c => Some c end.
Definition fmt (x : stage) : option call :=
  match x with SRing c | SPublish c | SNotify c | SSub c => Some c | _ => None end.
Definition unpub (x : stage) : option call := match x with SRing c | SPublish c => Some c | _ => None end.
Definition sub (x : stage) : option call := match x with SNotify c | SSub c => Some c | _ => None end.
Definition sbuf (x : stage) : option nat := match x with SBuf b => Some b | _ => c_buf <$> own x end.

Lemma fmt_own x c : fmt x = Some c -> own x = Some c.
Proof. destruct x; cbn; congruence. Qed.
Lemma unpub_fmt x c : unpub x = Some c -> fmt x = Some c.
Proof. destruct x; cbn; congruence. Qed.
Lemma sub_fmt x c : sub x = Some c -> fmt x = Some c.
Proof. destruct x; cbn; congruence. Qed.
Lemma sub_own x c : sub x = Some c -> own x = Some c.
Proof. intros E. apply fmt_own, sub_fmt, E. Qed.
Lemma own_sbuf x c : own x = Some c -> sbuf x = Some (c_buf c).
Proof. destruct x; cbn; congruence. Qed.
Create HintDb virtio.
#[export] Hint Resolve fmt_own unpub_fmt sub_fmt sub_own own_sbuf : virtio.

Definition idx (c : call) (i : Z) : Prop := i = c_i0 c \/ i = c_i1 c \/ i = c_i2 c.

Record held (fr : Z -> bool) (c : call) : Prop := {
  hd_range i : idx c i -> 0 <= i < NUM;
  hd_taken i : idx c i -> fr i = false;
  hd_01 : c_i0 c <> c_i1 c;
  hd_02 : c_i0 c <> c_i2 c;
  hd_12 : c_i1 c <> c_i2 c
}.

(** The chain in memory. *)
Record chain_ok (d : disk) (c : call) : Prop := {
  co_0 : desc d (c_i0 c) = Desc (AOp (c_i0 c)) 16 VRING_DESC_F_NEXT (c_i1 c);
  co_1 : desc d (c_i1 c) = Desc (AData (c_buf c)) BSIZE (Z.lor (if c_write c then 0 else VRING_DESC_F_WRITE) VRING_DESC_F_NEXT) (c_i2 c);
  co_2 : desc d (c_i2 c) = Desc (AStatus (c_i0 c)) 1 VRING_DESC_F_WRITE 0;
  co_op : ops d (c_i0 c) = Req (if c_write c then VIRTIO_BLK_T_OUT else VIRTIO_BLK_T_IN) 0 (u32 (b_blockno (bufs d (c_buf c)) * (BSIZE / 512)));
  co_b : info_b d (c_i0 c) = Some (c_buf c)
}.

Record core (st : nat -> stage) (d : disk) (v : dview) (la lu : list Z) : Prop := {
  k_held p c : own (st p) = Some c -> held (free d) c;
  k_disj p q c c' i : own (st p) = Some c -> own (st q) = Some c' -> idx c i -> idx c' i -> p = q;
  k_free i : 0 <= i < NUM -> free d i = false -> exists p c, own (st p) = Some c /\ idx c i;
  k_buf p q b : sbuf (st p) = Some b -> sbuf (st q) = Some b -> p = q;
  k_blk p b : sbuf (st p) = Some b -> 0 <= b_blockno (bufs d b) < 2 ^ 31;
  k_chain p c : fmt (st p) = Some c -> chain_ok d c;
  k_unpub p c : unpub (st p) = Some c -> b_disk (bufs d (c_buf c)) = 1 /\ info_status d (c_i0 c) = 255;
  k_pub p c : st p = SPublish c -> avail_ring d (avail_idx d mod NUM) = c_i0 c;
  k_avail : 0 <= seen v < 2 ^ 16 /\ avail_idx d = u16 (seen v + Z.of_nat (length la));
  k_aring j h : la !! j = Some h -> avail_ring d ((seen v + Z.of_nat j) mod NUM) = h;
  k_used : 0 <= used_idx d < 2 ^ 16 /\ used_no d = u16 (used_idx d + Z.of_nat (length lu));
  k_uring j h : lu !! j = Some h -> used_ring d ((used_idx d + Z.of_nat j) mod NUM) = h;
  k_nodup : NoDup (la ++ taken v ++ lu);
  k_heads h : h ∈ la ++ taken v ++ lu -> exists p c, sub (st p) = Some c /\ c_i0 c = h /\ b_disk (bufs d (c_buf c)) = 1;
  k_sub p c : sub (st p) = Some c ->
    b_disk (bufs d (c_buf c)) = 1 /\ c_i0 c ∈ la ++ taken v ++ lu \/ b_disk (bufs d (c_buf c)) = 0 /\ info_status d (c_i0 c) = 0;
  k_busy h : h ∈ la ++ taken v -> info_status d h = 255;
  k_done h : h ∈ lu -> info_status d h = 0;
  k_awake : la <> [] -> awake v = true \/ exists p c, st p = SNotify c
}.

(** Case analysis on updated functions. *)
Ltac fn_cases :=
  repeat match goal with
  | H : context [<[?a := _]> _ ?b] |- _ =>
      destruct (decide (a = b)) as [->|]; [rewrite ?fn_lookup_insert in H | rewrite ?fn_lookup_insert_ne in H by congruence]
  | |- context [<[?a := _]> _ ?b] =>
      destruct (decide (a = b)) as [->|]; [rewrite ?fn_lookup_insert | rewrite ?fn_lookup_insert_ne by congruence]
  end.

(** The facts that the stage of a process gives. *)
Ltac facts Hp :=
  let H1 := fresh in let H2 := fresh in let H3 := fresh in let H4 := fresh in let H5 := fresh in
  pose proof (f_equal own Hp) as H1; pose proof (f_equal fmt Hp) as H2; pose proof (f_equal unpub Hp) as H3;
  pose proof (f_equal sub Hp) as H4; pose proof (f_equal sbuf Hp) as H5; cbn in H1, H2, H3, H4, H5.

Lemma chain_frame d d' c :
  chain_ok d c -> (forall i, idx c i -> desc d' i = desc d i) -> ops d' (c_i0 c) = ops d (c_i0 c) -> info_b d' (c_i0 c) = info_b d (c_i0 c) ->
  b_blockno (bufs d' (c_buf c)) = b_blockno (bufs d (c_buf c)) -> chain_ok d' c.
Proof. intros [C0 C1 C2 C3 C4] Hd Ho Hi Hb. unfold idx in Hd. constructor; rewrite ?Hd, ?Ho, ?Hi, ?Hb by auto; assumption. Qed.

Lemma held_frame fr fr' c : held fr c -> (forall i, idx c i -> fr' i = fr i) -> held fr' c.
Proof. intros [H1 H2 H3 H4 H5] Hf. constructor; auto. intros i Hi. rewrite Hf by exact Hi. auto. Qed.

Lemma u16_mod x : u16 x mod NUM = x mod NUM.
Proof. unfold u16, NUM. zdiv. Qed.
Lemma u16_range x : 0 <= u16 x < 2 ^ 16.
Proof. unfold u16. apply Z.mod_pos_bound. lia. Qed.
Lemma u16_add x y : u16 (u16 x + y) = u16 (x + y).
Proof. unfold u16. zdiv. Qed.
Lemma u16_small x : 0 <= x < 2 ^ 16 -> u16 x = x.
Proof. apply Z.mod_small. Qed.
(** Two positions of a ring less than its size apart. *)
Lemma ring_ne a (j n : nat) : (j < n)%nat -> (n < 8)%nat -> (a + Z.of_nat j) mod NUM <> (a + Z.of_nat n) mod NUM.
Proof. unfold NUM. intros. zdiv. Qed.

Section Core.
Context (st : nat -> stage) (d : disk) (v : dview) (la lu : list Z) (C : core st d v la lu).

(** The process of a request in flight. *)
Lemma head_owner h p c : h ∈ la ++ taken v ++ lu -> own (st p) = Some c -> idx c h -> sub (st p) = Some c /\ b_disk (bufs d (c_buf c)) = 1.
Proof.
  intros Hh Hp Hi. destruct (k_heads _ _ _ _ _ C h Hh) as (q & c' & Hq & Hc & Hd).
  assert (p = q) by (eapply (k_disj _ _ _ _ _ C); eauto with virtio; subst h; left; reflexivity). subst q.
  rewrite (sub_own _ _ Hq) in Hp. injection Hp as ->. auto.
Qed.

(** There are never more requests in flight than descriptors. *)
Lemma heads_range h : h ∈ la ++ taken v ++ lu -> 0 <= h < NUM.
Proof.
  intros Hh. destruct (k_heads _ _ _ _ _ C h Hh) as (q & c' & Hq & <- & _).
  apply (hd_range _ _ (k_held _ _ _ _ _ C q c' (sub_own _ _ Hq))). left. reflexivity.
Qed.

Lemma heads_le : (length (la ++ taken v ++ lu) <= 8)%nat.
Proof.
  assert (Hs : la ++ taken v ++ lu ⊆ seqZ 0 8) by (intros x Hx; apply elem_of_seqZ; pose proof (heads_range x Hx); unfold NUM in *; lia).
  pose proof (submseteq_length _ _ (NoDup_submseteq _ _ (k_nodup _ _ _ _ _ C) Hs)) as Hl. rewrite length_seqZ in Hl. lia.
Qed.

Lemma avail_empty : seen v = avail_idx d <-> la = [].
Proof.
  pose proof heads_le as Hl. rewrite length_app in Hl. destruct (k_avail _ _ _ _ _ C) as [Hs ->]. split.
  - intros E. destruct la as [|h l]; [reflexivity|]. exfalso. cbn [length] in *. unfold u16 in E. zdiv.
  - intros ->. cbn [length]. rewrite Z.add_0_r, u16_small by exact Hs. reflexivity.
Qed.

Lemma used_empty : used_idx d = used_no d <-> lu = [].
Proof.
  pose proof heads_le as Hl. rewrite !length_app in Hl. destruct (k_used _ _ _ _ _ C) as [Hs ->]. split.
  - intros E. destruct lu as [|h l]; [reflexivity|]. exfalso. cbn [length] in *. unfold u16 in E. zdiv.
  - intros ->. cbn [length]. rewrite Z.add_0_r, u16_small by exact Hs. reflexivity.
Qed.

Lemma heads_short h : 0 <= h < NUM -> h ∉ la ++ taken v ++ lu -> (length (la ++ taken v ++ lu) < 8)%nat.
Proof.
  intros Hr Hn. assert (Hd : NoDup (h :: la ++ taken v ++ lu)) by (constructor; [exact Hn | apply C]).
  assert (Hs : h :: la ++ taken v ++ lu ⊆ seqZ 0 8).
  { intros x [->|Hx]%elem_of_cons; apply elem_of_seqZ; [unfold NUM in Hr; lia|]. pose proof (heads_range x Hx). unfold NUM in *. lia. }
  pose proof (NoDup_submseteq _ _ Hd Hs) as Hsub. apply submseteq_length in Hsub. rewrite length_seqZ in Hsub. cbn [length] in Hsub. lia.
Qed.

(** A call begins: its buffer is no other call's. *)
Lemma core_call p b blk data x : st p = SNone -> (forall q, sbuf (st q) <> Some b) -> 0 <= blk < 2 ^ 31 ->
  core (<[p := SBuf b]> st) (set_bufs (<[b := Buf blk data x]> (bufs d)) d) v la lu.
Proof.
  intros Hp Hb Hblk. facts Hp. destruct C as [C1 C2 C3 C4 C5 C6 C7 C8 C9 C10 C11 C12 C13 C14 C15 C16 C17 C18].
  assert (Hob : forall q c, own (st q) = Some c -> c_buf c <> b) by (intros q c Hq E; apply (Hb q); rewrite (own_sbuf _ _ Hq), E; reflexivity).
  constructor; cbn [set_bufs desc avail_idx avail_ring used_no used_ring free used_idx info_b info_status ops bufs]; auto.
  - intros q c Hq. fn_cases; [discriminate Hq|]. exact (C1 q c Hq).
  - intros q r c c' i Hq Hr Hi Hi'. fn_cases; try discriminate. eauto.
  - intros i Hi Hf. destruct (C3 i Hi Hf) as (q & c & Hq & Hc). exists q, c. fn_cases; [congruence|]. auto.
  - intros q r b' Hq Hr. fn_cases; cbn in *; simplify_eq; auto; try (exfalso; eapply Hb; eassumption). eauto.
  - intros q b' Hq. fn_cases; cbn in *; simplify_eq; auto; try (exfalso; eapply Hb; eassumption). eauto.
  - intros q c Hq. fn_cases; [discriminate Hq|]. eapply chain_frame; eauto. cbn. rewrite fn_lookup_insert_ne; [reflexivity|]. apply not_eq_sym. eauto with virtio.
  - intros q c Hq. fn_cases; try discriminate Hq; [exfalso; eapply Hob; eauto with virtio|]. eauto.
  - intros q c Hq. fn_cases; [discriminate Hq|]. eauto.
  - intros h Hh. destruct (C14 h Hh) as (q & c & Hq & Hc & Hd). exists q, c. fn_cases; try congruence; try (exfalso; eapply Hob; eauto with virtio; congruence). auto.
  - intros q c Hq. fn_cases; try discriminate Hq; [exfalso; eapply Hob; eauto with virtio|]. eauto.
  - intros Hla. destruct (C18 Hla) as [Hw|(q & c & Hq)]; [left; exact Hw|]. right. exists q, c. fn_cases; [congruence | exact Hq].
Qed.

(** A call gets its descriptors. *)
Lemma core_alloc p c fr : st p = SBuf (c_buf c) -> (forall i, idx c i -> 0 <= i < NUM /\ free d i = true) ->
  c_i0 c <> c_i1 c -> c_i0 c <> c_i2 c -> c_i1 c <> c_i2 c ->
  (forall i, idx c i -> fr i = false) -> (forall i, ~ idx c i -> fr i = free d i) ->
  core (<[p := SFormat c]> st) (set_free fr d) v la lu.
Proof.
  intros Hp Hc N01 N02 N12 Hin Hout. facts Hp. destruct C as [C1 C2 C3 C4 C5 C6 C7 C8 C9 C10 C11 C12 C13 C14 C15 C16 C17 C18].
  assert (Hd : forall q c' i, own (st q) = Some c' -> idx c' i -> ~ idx c i).
  { intros q c' i Hq Hi Hi'. pose proof (hd_taken _ _ (C1 q c' Hq) i Hi). destruct (Hc i Hi'). congruence. }
  constructor; cbn [set_free desc avail_idx avail_ring used_no used_ring free used_idx info_b info_status ops bufs]; auto.
  - intros q c' Hq. fn_cases; cbn in *; simplify_eq.
    + constructor; auto. intros i Hi. apply (Hc i Hi).
    + eapply held_frame; [eauto|]. intros i Hi. apply Hout. eapply Hd; eauto.
  - intros q r c' c'' i Hq Hr Hi Hi'. fn_cases; cbn in *; simplify_eq; auto; try (exfalso; eapply Hd; eauto; fail). eauto.
  - intros i Hi Hf. destruct (decide (idx c i)) as [Hi'|Hi']; [exists p, c; rewrite fn_lookup_insert; auto|].
    rewrite (Hout i Hi') in Hf. destruct (C3 i Hi Hf) as (q & c' & Hq & Hx). exists q, c'. fn_cases; [congruence|]. auto.
  - intros q r b' Hq Hr. fn_cases; cbn in *; simplify_eq; eauto.
  - intros q b' Hq. fn_cases; cbn in *; simplify_eq; eauto.
  - intros q c' Hq. fn_cases; [discriminate Hq|]. eapply chain_frame; eauto.
  - intros q c' Hq. fn_cases; [discriminate Hq|]. eauto.
  - intros q c' Hq. fn_cases; [discriminate Hq|]. eauto.
  - intros h Hh. destruct (C14 h Hh) as (q & c' & Hq & Hx & Hb). exists q, c'. fn_cases; [congruence|]. auto.
  - intros q c' Hq. fn_cases; [discriminate Hq|]. eauto.
  - intros Hla. destruct (C18 Hla) as [Hw|(q & c' & Hq)]; [left; exact Hw|]. right. exists q, c'. fn_cases; [congruence | exact Hq].
Qed.

(** Descriptors were taken and given back. *)
Lemma core_same ds fr : (forall i, fr i = free d i) -> (forall i, 0 <= i < NUM -> free d i = false -> ds i = desc d i) ->
  core st (set_free fr (set_desc ds d)) v la lu.
Proof.
  intros Hf Hd. destruct C as [C1 C2 C3 C4 C5 C6 C7 C8 C9 C10 C11 C12 C13 C14 C15 C16 C17 C18].
  constructor; cbn [set_free set_desc desc avail_idx avail_ring used_no used_ring free used_idx info_b info_status ops bufs]; auto.
  - intros q c Hq. eapply held_frame; [eauto|]. auto.
  - intros i Hi Hx. rewrite Hf in Hx. eauto.
  - intros q c Hq. pose proof (C1 q c (fmt_own _ _ Hq)) as Hh. eapply chain_frame; eauto. intros i Hi. apply Hd; [apply (hd_range _ _ Hh i Hi) | apply (hd_taken _ _ Hh i Hi)].
Qed.

(** The three descriptors are formatted. *)
Lemma core_format p c : st p = SFormat c -> core (<[p := SRing c]> st) (format c d) v la lu.
Proof.
  intros Hp. facts Hp. pose proof head_owner as Hho. destruct C as [C1 C2 C3 C4 C5 C6 C7 C8 C9 C10 C11 C12 C13 C14 C15 C16 C17 C18].
  assert (Hd : forall q c' i, q <> p -> own (st q) = Some c' -> idx c' i -> ~ idx c i).
  { intros q c' i Hne Hq Hi Hi'. apply Hne. eapply C2; eauto. }
  assert (Hb : forall q c', q <> p -> own (st q) = Some c' -> c_buf c' <> c_buf c).
  { intros q c' Hne Hq E. apply Hne. eapply (C4 q p (c_buf c)); eauto. rewrite <- E. eauto with virtio. }
  assert (Hi0 : forall q c', q <> p -> own (st q) = Some c' -> c_i0 c' <> c_i0 c).
  { intros q c' Hne Hq E. eapply (Hd q c' (c_i0 c')); eauto; left; congruence. }
  assert (Hh : forall h, h ∈ la ++ taken v ++ lu -> h <> c_i0 c).
  { intros h Hh ->. destruct (Hho (c_i0 c) p c Hh) as [Hs _]; auto; [left; reflexivity | congruence]. }
  pose proof (C1 p c ltac:(assumption)) as Hc.
  constructor; cbn [format set_info set_bufs set_ops set_desc desc avail_idx avail_ring used_no used_ring free used_idx info_b info_status ops bufs]; auto.
  - intros q c' Hq. fn_cases; cbn in *; simplify_eq; eauto.
  - intros q r c' c'' i Hq Hr Hi Hi'. fn_cases; cbn in *; simplify_eq; eauto.
  - intros i Hi Hf. destruct (C3 i Hi Hf) as (q & c' & Hq & Hx). exists q, c'. fn_cases; [|auto]. split; [cbn; congruence | exact Hx].
  - intros q r b' Hq Hr. fn_cases; cbn in *; simplify_eq; eauto.
  - intros q b' Hq. assert (Hq' : sbuf (st q) = Some b') by (fn_cases; cbn in *; congruence). destruct (decide (c_buf c = b')) as [<-|Hne]; [rewrite fn_lookup_insert | rewrite fn_lookup_insert_ne by exact Hne]; exact (C5 q _ Hq').
  - intros q c' Hq. destruct (decide (p = q)) as [<-|Hne].
    + rewrite fn_lookup_insert in Hq. cbn in Hq. injection Hq as <-. destruct Hc as [_ _ H01 H02 H12].
      constructor; cbn; rewrite ?fn_lookup_insert, ?fn_lookup_insert_ne, ?fn_lookup_insert by congruence; rewrite ?fn_lookup_insert_ne, ?fn_lookup_insert by congruence; reflexivity.
    + rewrite fn_lookup_insert_ne in Hq by exact Hne. pose proof (fmt_own _ _ Hq) as Ho.
      eapply chain_frame; [eauto| | | |]; cbn.
      * intros i Hi. assert (Hi' : ~ idx c i) by (eapply Hd; eauto). unfold idx in Hi'. rewrite !fn_lookup_insert_ne by (intros E; apply Hi'; rewrite E; auto). reflexivity.
      * apply fn_lookup_insert_ne. apply not_eq_sym. eauto.
      * apply fn_lookup_insert_ne. apply not_eq_sym. eauto.
      * rewrite fn_lookup_insert_ne; [reflexivity|]. apply not_eq_sym. eauto.
  - intros q c' Hq. destruct (decide (p = q)) as [<-|Hne].
    + rewrite fn_lookup_insert in Hq. cbn in Hq. injection Hq as <-. rewrite !fn_lookup_insert. auto.
    + rewrite fn_lookup_insert_ne in Hq by exact Hne. pose proof (fmt_own _ _ (unpub_fmt _ _ Hq)) as Ho. rewrite !fn_lookup_insert_ne by (apply not_eq_sym; eauto). eauto.
  - intros q c' Hq. fn_cases; [discriminate Hq|]. eauto.
  - intros h Hin. destruct (C14 h Hin) as (q & c' & Hq & Hx & Hb'). exists q, c'. assert (Hne : p <> q) by congruence.
    rewrite !fn_lookup_insert_ne by (try exact Hne; apply not_eq_sym; eauto with virtio). auto.
  - intros q c' Hq. destruct (decide (p = q)) as [<-|Hne]; [rewrite fn_lookup_insert in Hq; discriminate Hq|]. rewrite fn_lookup_insert_ne in Hq by exact Hne.
    pose proof (sub_own _ _ Hq) as Ho. rewrite !fn_lookup_insert_ne by (apply not_eq_sym; eauto). eauto.
  - intros h Hin. rewrite fn_lookup_insert_ne; [eauto|]. apply not_eq_sym, Hh. rewrite app_assoc. apply elem_of_app. auto.
  - intros h Hin. rewrite fn_lookup_insert_ne; [eauto|]. apply not_eq_sym, Hh. rewrite !elem_of_app. auto.
  - intros Hla. destruct (C18 Hla) as [Hw|(q & c' & Hq)]; [left; exact Hw|]. right. exists q, c'. fn_cases; [congruence | exact Hq].
Qed.

(** The head of a chain that is not submitted is in none of the queues. *)
Lemma unsubmitted p c : own (st p) = Some c -> sub (st p) = None -> c_i0 c ∉ la ++ taken v ++ lu.
Proof. intros Ho Hs Hin. destruct (head_owner (c_i0 c) p c Hin Ho) as [Hs' _]; [left; reflexivity | congruence]. Qed.

(** The head of the chain is written to the available ring. *)
Lemma core_ring p c : st p = SRing c -> (forall q c', st q <> SPublish c') ->
  core (<[p := SPublish c]> st) (set_avail (avail_idx d) (<[avail_idx d mod NUM := c_i0 c]> (avail_ring d)) d) v la lu.
Proof.
  intros Hp Hnp. facts Hp. pose proof (unsubmitted p c ltac:(assumption) ltac:(assumption)) as Hun.
  pose proof (heads_short (c_i0 c)) as Hsh. destruct C as [C1 C2 C3 C4 C5 C6 C7 C8 C9 C10 C11 C12 C13 C14 C15 C16 C17 C18].
  specialize (Hsh (hd_range _ _ (C1 p c ltac:(assumption)) _ (or_introl eq_refl)) Hun). rewrite length_app in Hsh.
  constructor; cbn [set_avail desc avail_idx avail_ring used_no used_ring free used_idx info_b info_status ops bufs]; auto.
  - intros q c' Hq. fn_cases; cbn in *; simplify_eq; eauto.
  - intros q r c' c'' i Hq Hr Hi Hi'. fn_cases; cbn in *; simplify_eq; eauto.
  - intros i Hi Hf. destruct (C3 i Hi Hf) as (q & c' & Hq & Hx). exists q, c'. fn_cases; [|auto]. split; [cbn; congruence | exact Hx].
  - intros q r b' Hq Hr. fn_cases; cbn in *; simplify_eq; eauto.
  - intros q b' Hq. fn_cases; cbn in *; simplify_eq; eauto.
  - intros q c' Hq. fn_cases; cbn in *; simplify_eq; eapply chain_frame; eauto.
  - intros q c' Hq. fn_cases; cbn in *; simplify_eq; eauto.
  - intros q c' Hq. rewrite fn_lookup_insert. destruct (decide (p = q)) as [<-|Hne].
    + rewrite fn_lookup_insert in Hq. injection Hq as <-. reflexivity.
    + rewrite fn_lookup_insert_ne in Hq by exact Hne. destruct (Hnp _ _ Hq).
  - intros j h Hj. pose proof (lookup_lt_Some _ _ _ Hj) as Hlt. rewrite fn_lookup_insert_ne; [eauto|]. destruct C9 as [_ ->]. rewrite u16_mod.
    apply not_eq_sym, ring_ne; lia.
  - intros h Hh. destruct (C14 h Hh) as (q & c' & Hq & Hx & Hb). exists q, c'. fn_cases; [congruence|]. auto.
  - intros q c' Hq. fn_cases; [discriminate Hq|]. eauto.
  - intros Hla. destruct (C18 Hla) as [Hw|(q & c' & Hq)]; [left; exact Hw|]. right. exists q, c'. fn_cases; [congruence | exact Hq].
Qed.

(** The entry becomes visible to the device. *)
Lemma core_publish p c : st p = SPublish c -> (forall q c', q <> p -> st q <> SPublish c') ->
  core (<[p := SNotify c]> st) (set_avail (u16 (avail_idx d + 1)) (avail_ring d) d) v (la ++ [c_i0 c]) lu.
Proof.
  intros Hp Hnp. facts Hp. pose proof (unsubmitted p c ltac:(assumption) ltac:(assumption)) as Hun.
  destruct C as [C1 C2 C3 C4 C5 C6 C7 C8 C9 C10 C11 C12 C13 C14 C15 C16 C17 C18].
  assert (Hin : forall h, h ∈ (la ++ [c_i0 c]) ++ taken v ++ lu <-> h = c_i0 c \/ h ∈ la ++ taken v ++ lu) by (intros h; rewrite !elem_of_app, list_elem_of_singleton; tauto).
  constructor; cbn [set_avail desc avail_idx avail_ring used_no used_ring free used_idx info_b info_status ops bufs]; auto.
  - intros q c' Hq. fn_cases; cbn in *; simplify_eq; eauto.
  - intros q r c' c'' i Hq Hr Hi Hi'. fn_cases; cbn in *; simplify_eq; eauto.
  - intros i Hi Hf. destruct (C3 i Hi Hf) as (q & c' & Hq & Hx). exists q, c'. fn_cases; [|auto]. split; [cbn; congruence | exact Hx].
  - intros q r b' Hq Hr. fn_cases; cbn in *; simplify_eq; eauto.
  - intros q b' Hq. fn_cases; cbn in *; simplify_eq; eauto.
  - intros q c' Hq. fn_cases; cbn in *; simplify_eq; eapply chain_frame; eauto.
  - intros q c' Hq. fn_cases; [discriminate Hq|]. eauto.
  - intros q c' Hq. fn_cases; [discriminate Hq|]. exfalso. eapply Hnp; [|eassumption]. congruence.
  - destruct C9 as [Hs ->]. split; [exact Hs|]. rewrite u16_add, length_app. f_equal. cbn. lia.
  - intros j h Hj. apply lookup_app_Some in Hj. destruct Hj as [Hj|[Hlen Hj]]; [eauto|]. destruct C9 as [_ Ha].
    destruct (j - length la)%nat as [|n] eqn:E; [|discriminate Hj]. injection Hj as <-. replace j with (length la) by lia.
    rewrite <- (C8 p c Hp), Ha, u16_mod. reflexivity.
  - rewrite <- app_assoc. apply NoDup_app in C13. destruct C13 as (N1 & N2 & N3). apply NoDup_app. split; [exact N1|]. split.
    + intros x Hx [->|Hx']%elem_of_cons; [apply Hun; rewrite elem_of_app; auto | exact (N2 x Hx Hx')].
    + constructor; [|exact N3]. intros Hx. apply Hun. rewrite elem_of_app. auto.
  - intros h [->|Hh]%Hin.
    + exists p, c. rewrite fn_lookup_insert. split; [reflexivity|]. split; [reflexivity|]. apply (C7 p c). rewrite Hp. reflexivity.
    + destruct (C14 h Hh) as (q & c' & Hq & Hx & Hb). exists q, c'. fn_cases; [congruence|]. auto.
  - intros q c' Hq. rewrite Hin. fn_cases; cbn in *; simplify_eq.
    + left. split; [|auto]. apply (C7 q c'). rewrite Hp. reflexivity.
    + destruct (C15 q c' Hq) as [[Hb Hx]|Hx]; [left; auto | right; exact Hx].
  - intros h Hh. assert (Hor : h = c_i0 c \/ h ∈ la ++ taken v) by (rewrite !elem_of_app, list_elem_of_singleton in Hh; rewrite elem_of_app; tauto). destruct Hor as [->|Hx]; [|eauto]. apply (C7 p c). rewrite Hp. reflexivity.
  - intros _. right. exists p, c. apply fn_lookup_insert.
Qed.

(** The device is notified. *)
Lemma core_notify p c : st p = SNotify c -> core (<[p := SSub c]> st) d (View (seen v) (taken v) (platter v) (isr v) true) la lu.
Proof.
  intros Hp. facts Hp. destruct C as [C1 C2 C3 C4 C5 C6 C7 C8 C9 C10 C11 C12 C13 C14 C15 C16 C17 C18].
  constructor; cbn [seen taken platter isr awake]; auto.
  - intros q c' Hq. fn_cases; cbn in *; simplify_eq; eauto.
  - intros q r c' c'' i Hq Hr Hi Hi'. fn_cases; cbn in *; simplify_eq; eauto.
  - intros i Hi Hf. destruct (C3 i Hi Hf) as (q & c' & Hq & Hx). exists q, c'. fn_cases; [|auto]. split; [cbn; congruence | exact Hx].
  - intros q r b' Hq Hr. fn_cases; cbn in *; simplify_eq; eauto.
  - intros q b' Hq. fn_cases; cbn in *; simplify_eq; eauto.
  - intros q c' Hq. fn_cases; cbn in *; simplify_eq; eauto.
  - intros q c' Hq. fn_cases; [discriminate Hq|]. eauto.
  - intros q c' Hq. fn_cases; [discriminate Hq|]. eauto.
  - intros h Hh. destruct (C14 h Hh) as (q & c' & Hq & Hx & Hb). exists q, c'. fn_cases; [|auto]. split; [cbn; congruence | auto].
  - intros q c' Hq. fn_cases; cbn in *; simplify_eq; eauto.
Qed.

(** The call returns and frees its descriptors. *)
Lemma core_finish p c ds fr ib : st p = SSub c -> b_disk (bufs d (c_buf c)) = 0 ->
  (forall i, idx c i -> fr i = true) -> (forall i, ~ idx c i -> fr i = free d i) -> (forall i, ~ idx c i -> ds i = desc d i) ->
  (forall i, ~ idx c i -> ib i = info_b d i) ->
  core (<[p := SNone]> st) (set_free fr (set_desc ds (set_info ib (info_status d) d))) v la lu.
Proof.
  intros Hp Hb0 Hin Hout Hds Hib. facts Hp. destruct C as [C1 C2 C3 C4 C5 C6 C7 C8 C9 C10 C11 C12 C13 C14 C15 C16 C17 C18].
  assert (Hd : forall q c' i, p <> q -> own (st q) = Some c' -> idx c' i -> ~ idx c i).
  { intros q c' i Hne Hq Hi Hi'. apply Hne. eapply C2; eauto. }
  constructor; cbn [set_free set_desc set_info desc avail_idx avail_ring used_no used_ring free used_idx info_b info_status ops bufs]; auto.
  - intros q c' Hq. fn_cases; [discriminate Hq|]. eapply held_frame; [eauto|]. intros i Hi. apply Hout. eapply Hd; eauto.
  - intros q r c' c'' i Hq Hr Hi Hi'. fn_cases; cbn in *; simplify_eq; eauto.
  - intros i Hi Hf. destruct (decide (idx c i)) as [Hx|Hx]; [rewrite Hin in Hf by exact Hx; discriminate Hf|]. rewrite Hout in Hf by exact Hx.
    destruct (C3 i Hi Hf) as (q & c' & Hq & Hx'). exists q, c'. fn_cases; [|auto]. exfalso. apply Hx. congruence.
  - intros q r b' Hq Hr. fn_cases; cbn in *; simplify_eq; eauto.
  - intros q b' Hq. fn_cases; cbn in *; simplify_eq; eauto.
  - intros q c' Hq. fn_cases; [discriminate Hq|]. eapply chain_frame; eauto; cbn.
    + intros i Hi. apply Hds. eapply Hd; eauto with virtio.
    + apply Hib. eapply Hd; eauto with virtio. left. reflexivity.
  - intros q c' Hq. fn_cases; [discriminate Hq|]. eauto.
  - intros q c' Hq. fn_cases; [discriminate Hq|]. eauto.
  - intros h Hh. destruct (C14 h Hh) as (q & c' & Hq & Hx & Hb). exists q, c'. fn_cases; [|auto]. assert (c' = c) by congruence. subst c'. congruence.
  - intros q c' Hq. fn_cases; [discriminate Hq|]. eauto.
  - intros Hla. destruct (C18 Hla) as [Hw|(q & c' & Hq)]; [left; exact Hw|]. right. exists q, c'. fn_cases; [congruence | exact Hq].
Qed.

(** The entry of the used ring that the handler looks at next. *)
Lemma used_head h lu' : lu = h :: lu' -> exists p c, sub (st p) = Some c /\ c_i0 c = h /\ b_disk (bufs d (c_buf c)) = 1 /\
  used_ring d (used_idx d mod NUM) = h /\ info_status d h = 0 /\ info_b d h = Some (c_buf c).
Proof.
  intros E. destruct C as [C1 C2 C3 C4 C5 C6 C7 C8 C9 C10 C11 C12 C13 C14 C15 C16 C17 C18]. subst lu.
  destruct (C14 h) as (p & c & Hp & <- & Hb); [rewrite !elem_of_app; right; right; left|]. exists p, c. split; [exact Hp|]. split; [reflexivity|]. split; [exact Hb|]. split; [|split].
  - rewrite <- (C12 0%nat (c_i0 c) eq_refl). repeat f_equal. cbn. lia.
  - apply C17. left.
  - exact (co_b _ _ (C6 p c (sub_fmt _ _ Hp))).
Qed.

(** The handler finishes a request. *)
Lemma core_entry h lu' p c : lu = h :: lu' -> sub (st p) = Some c -> c_i0 c = h ->
  core st (set_used_idx (u16 (used_idx d + 1)) (set_bufs (<[c_buf c := set_disk 0 (bufs d (c_buf c))]> (bufs d)) d)) v la lu'.
Proof.
  intros E Hp Hc. destruct C as [C1 C2 C3 C4 C5 C6 C7 C8 C9 C10 C11 C12 C13 C14 C15 C16 C17 C18]. subst lu.
  assert (Hb : forall q b, q <> p -> sbuf (st q) = Some b -> c_buf c <> b).
  { intros q b Hne Hq Eb. apply Hne. eapply C4; [exact Hq|]. rewrite <- Eb. eauto with virtio. }
  assert (Hnin : h ∉ la ++ taken v ++ lu').
  { rewrite app_assoc in C13 |- *. apply NoDup_app in C13. destruct C13 as (_ & N2 & N3). apply NoDup_cons in N3. rewrite elem_of_app. intros [Hx|Hx]; [apply (N2 h Hx); left | apply (proj1 N3 Hx)]. }
  constructor; cbn [set_bufs set_used_idx desc avail_idx avail_ring used_no used_ring free used_idx info_b info_status ops bufs]; auto.
  - intros q b Hq. destruct (decide (c_buf c = b)) as [<-|Hne]; [rewrite fn_lookup_insert | rewrite fn_lookup_insert_ne by exact Hne]; exact (C5 q _ Hq).
  - intros q c' Hq. eapply chain_frame; eauto. cbn. destruct (decide (c_buf c = c_buf c')) as [Eb|Hne]; [rewrite <- Eb, fn_lookup_insert | rewrite fn_lookup_insert_ne by exact Hne]; reflexivity.
  - intros q c' Hq. rewrite fn_lookup_insert_ne; [eauto|]. apply (Hb q); [|eauto with virtio]. intros ->. destruct (st p); discriminate.
  - destruct C11 as [_ ->]. split; [apply u16_range|]. rewrite u16_add. f_equal. cbn [length]. lia.
  - intros j h' Hj. rewrite <- (C12 (S j) h' Hj). f_equal. rewrite <- u16_mod, u16_add, u16_mod. f_equal. lia.
  - rewrite app_assoc in C13 |- *. apply NoDup_app in C13. destruct C13 as (N1 & N2 & N3). apply NoDup_cons in N3. apply NoDup_app. split; [exact N1|]. split; [|apply N3].
    intros x Hx Hx'. apply (N2 x Hx). right. exact Hx'.
  - intros h' Hh'. destruct (C14 h') as (q & c' & Hq & Hx & Hd); [rewrite !elem_of_app in *; rewrite elem_of_cons; tauto|]. exists q, c'.
    split; [exact Hq|]. split; [exact Hx|]. rewrite fn_lookup_insert_ne; [exact Hd|]. apply (Hb q); [|eauto with virtio]. intros ->. congruence.
  - intros q c' Hq. destruct (decide (q = p)) as [->|Hne].
    + rewrite Hp in Hq. injection Hq as <-. right. rewrite fn_lookup_insert. split; [reflexivity|]. rewrite Hc. apply C17. left.
    + rewrite fn_lookup_insert_ne by (apply (Hb q); eauto with virtio). destruct (C15 q c' Hq) as [[Hd Hx]|Hx]; [left | right; exact Hx]. split; [exact Hd|].
      rewrite !elem_of_app in *. rewrite elem_of_cons in Hx. destruct Hx as [Hx|[Hx|[Hx|Hx]]]; auto. exfalso. apply Hne. eapply (C2 q p c' c (c_i0 c')); eauto with virtio; [left; reflexivity|].
      rewrite Hx, <- Hc. left. reflexivity.
  - intros h' Hh'. apply C17. right. exact Hh'.
Qed.

(** The device takes the next request. *)
Lemma core_take : seen v <> avail_idx d -> exists h la', la = h :: la' /\ avail_ring d (seen v mod NUM) = h /\
  core st d (View (u16 (seen v + 1)) (taken v ++ [h]) (platter v) (isr v) (awake v)) la' lu.
Proof.
  intros Hne. destruct C as [C1 C2 C3 C4 C5 C6 C7 C8 C9 C10 C11 C12 C13 C14 C15 C16 C17 C18].
  destruct la as [|h la'] eqn:El; [exfalso; apply Hne; destruct C9 as [Hs ->]; rewrite Z.add_0_r, u16_small by exact Hs; reflexivity|].
  exists h, la'. split; [reflexivity|]. split; [rewrite <- (C10 0%nat h eq_refl); f_equal; f_equal; cbn; lia|].
  assert (Hp : la' ++ (taken v ++ [h]) ++ lu ≡ₚ (h :: la') ++ taken v ++ lu).
  { rewrite <- app_assoc. cbn. rewrite (app_assoc la'), <- Permutation_middle, <- app_assoc. reflexivity. }
  constructor; cbn [seen taken platter isr awake]; auto.
  - destruct C9 as [_ ->]. split; [apply u16_range|]. rewrite u16_add. f_equal. cbn [length]. lia.
  - intros j h' Hj. rewrite <- (C10 (S j) h' Hj). f_equal. rewrite <- u16_mod, u16_add, u16_mod. f_equal. lia.
  - rewrite Hp. exact C13.
  - intros h'. rewrite Hp. apply C14.
  - intros q c Hq. rewrite Hp. exact (C15 q c Hq).
  - intros h' Hh. apply C16. rewrite !elem_of_app, list_elem_of_singleton in Hh. rewrite elem_of_app, elem_of_cons. tauto.
Qed.

(** The device finishes a request. *)
Lemma core_transfer l1 h l2 bs m : taken v = l1 ++ h :: l2 ->
  (forall b, b_blockno (bs b) = b_blockno (bufs d b) /\ b_disk (bs b) = b_disk (bufs d b)) ->
  core st (give_back h (set_bufs bs (set_info (info_b d) (<[h := 0]> (info_status d)) d))) (View (seen v) (l1 ++ l2) m (Z.lor (isr v) 1) (awake v)) la (lu ++ [h]).
Proof.
  intros Et Hbs. pose proof heads_short as Hsh. pose proof heads_range as Hr. destruct C as [C1 C2 C3 C4 C5 C6 C7 C8 C9 C10 C11 C12 C13 C14 C15 C16 C17 C18]. rewrite Et in *.
  assert (Hp : la ++ (l1 ++ l2) ++ lu ++ [h] ≡ₚ la ++ (l1 ++ h :: l2) ++ lu).
  { apply Permutation_app_head. rewrite <- !app_assoc. apply Permutation_app_head. cbn. rewrite app_assoc, <- Permutation_cons_append. reflexivity. }
  assert (Hin : h ∈ la ++ (l1 ++ h :: l2) ++ lu) by (rewrite !elem_of_app, elem_of_cons; auto).
  assert (Hnew : forall h', h' ∈ la ++ l1 ++ l2 -> h' <> h).
  { intros h' Hh' ->. rewrite <- Hp in C13. rewrite !app_assoc in C13. rewrite NoDup_app in C13. destruct C13 as (_ & N2 & _). apply (N2 h); [|left]. rewrite !elem_of_app in *. tauto. }
  assert (Hnlu : forall h', h' ∈ lu -> h' <> h).
  { intros h' Hh' ->. rewrite <- Hp, !app_assoc in C13. rewrite NoDup_app in C13. destruct C13 as (_ & N2 & _). apply (N2 h); [|left]. rewrite !elem_of_app. tauto. }
  assert (Hlen : (length lu < 8)%nat).
  { assert (Hd : NoDup (lu ++ [h])) by (rewrite <- Hp in C13; rewrite !app_assoc, <- app_assoc, NoDup_app in C13; apply C13).
    assert (Hs : lu ++ [h] ⊆ seqZ 0 8) by (intros x Hx; apply elem_of_seqZ; assert (0 <= x < NUM) by (apply Hr; rewrite <- Hp, !elem_of_app in *; tauto); unfold NUM in *; lia).
    pose proof (submseteq_length _ _ (NoDup_submseteq _ _ Hd Hs)) as Hl. rewrite length_app, length_seqZ in Hl. cbn in Hl. lia. }
  constructor; cbn [give_back set_used set_bufs set_info seen taken platter isr awake desc avail_idx avail_ring used_no used_ring free used_idx info_b info_status ops bufs]; auto.
  - intros p b Hb. rewrite (proj1 (Hbs b)). eauto.
  - intros p c Hc. eapply chain_frame; eauto. cbn. apply Hbs.
  - intros p c Hc. rewrite (proj2 (Hbs _)). rewrite fn_lookup_insert_ne; [eauto|]. intros ->.
    destruct (C14 _ Hin) as (q & c' & Hq & Hx & _). assert (p = q) by (eapply C2; eauto with virtio; [left; reflexivity | left; congruence]). subst q. destruct (st p); discriminate.
  - destruct C11 as [Hu ->]. split; [exact Hu|]. rewrite u16_add, length_app. f_equal. cbn. lia.
  - intros j h' Hj. destruct C11 as [_ ->]. rewrite u16_mod. apply lookup_app_Some in Hj. destruct Hj as [Hj|[Hl Hj]].
    + pose proof (lookup_lt_Some _ _ _ Hj). rewrite fn_lookup_insert_ne; [eauto|]. apply not_eq_sym, ring_ne; lia.
    + destruct (j - length lu)%nat eqn:E; [|discriminate Hj]. injection Hj as <-. replace j with (length lu) by lia. apply fn_lookup_insert.
  - rewrite Hp. exact C13.
  - intros h'. rewrite Hp. intros Hh'. destruct (C14 h' Hh') as (q & c & Hq & Hx & Hb). exists q, c. rewrite (proj2 (Hbs _)). auto.
  - intros q c Hq. rewrite Hp, (proj2 (Hbs _)). destruct (C15 q c Hq) as [Hx|[Hb Hs]]; [left; exact Hx|]. right. split; [exact Hb|]. fn_cases; auto.
  - intros h' Hh'. rewrite fn_lookup_insert_ne; [apply C16; rewrite !elem_of_app, elem_of_cons in *; tauto|]. apply not_eq_sym, Hnew, Hh'.
  - intros h' [Hh'|Hh']%elem_of_app; [rewrite fn_lookup_insert_ne by (apply not_eq_sym, Hnlu, Hh'); eauto|]. apply list_elem_of_singleton in Hh'. subst h'. apply fn_lookup_insert.
Qed.

(** The interrupt register and an idle device do not matter. *)
Lemma core_quiet n a : (la <> [] -> a = true \/ a = awake v) -> core st d (View (seen v) (taken v) (platter v) n a) la lu.
Proof.
  intros Ha. destruct C as [C1 C2 C3 C4 C5 C6 C7 C8 C9 C10 C11 C12 C13 C14 C15 C16 C17 C18]. constructor; cbn [seen taken platter isr awake]; auto.
  intros Hla. destruct (Ha Hla) as [->| ->]; auto.
Qed.
End Core.
