(* ===== verification/VirtioRun.v ===== *)
(** * The runs of the virtio disk driver

    The driver refines a disk that reads or writes whole blocks atomically:
    every call takes effect at one moment between its beginning and its
    return.  No run panics, and from every state the calls in progress can
    all return. *)

From Stdlib Require Import FunctionalExtensionality.
From S2P Require Import Prelude Memory FsDefs Virtio VirtioInv.
Import Virtio.

(** ** The atomic disk *)

Inductive athread :=
| AIdle
| ACall (b : nat) (w : bool) (blk : Z) (data : mem)
| ADone (b : nat) (w : bool) (blk : Z) (data : mem).

Record astate := AState { a_disk : mem; a_th : nat -> athread }.

Definition abuf (x : athread) : option nat := match x with AIdle => None | ACall b _ _ _ | ADone b _ _ _ => Some b end.

(** A call reads block [blk] into its buffer, or writes its buffer there. *)
Inductive astep : astate -> astate -> Prop :=
| a_call p b w blk data a : a_th a p = AIdle -> (forall q, abuf (a_th a q) <> Some b) -> 0 <= blk < 2 ^ 31 ->
    astep a (AState (a_disk a) (<[p := ACall b w blk data]> (a_th a)))
| a_read p b blk data a : a_th a p = ACall b false blk data ->
    astep a (AState (a_disk a) (<[p := ADone b false blk (blit data 0 (a_disk a) (blk * BSIZE) BSIZE)]> (a_th a)))
| a_write p b blk data a : a_th a p = ACall b true blk data ->
    astep a (AState (blit (a_disk a) (blk * BSIZE) data 0 BSIZE) (<[p := ADone b true blk data]> (a_th a)))
| a_return p b w blk data a : a_th a p = ADone b w blk data ->
    astep a (AState (a_disk a) (<[p := AIdle]> (a_th a))).

(** What the process at [c] has called for, and whether the device has done
    it: it writes 0 to the status byte. *)
Definition th (d : disk) (c : pc) : athread :=
  let call b w := ACall b w (b_blockno (bufs d b)) (b_data (bufs d b)) in
  match c with
  | Idle => AIdle
  | Enter b w | Alloc b w | AsleepFree b w => call b w
  | Format c => call (c_buf c) (c_write c)
  | Ring c | Publish c | Notify c | Wait c | AsleepBuf c | Reenter c =>
      if info_status d (c_i0 c) =? 0 then ADone (c_buf c) (c_write c) (b_blockno (bufs d (c_buf c))) (b_data (bufs d (c_buf c)))
      else call (c_buf c) (c_write c)
  end.

Lemma abuf_th d c : abuf (th d c) = buf_of c.
Proof. destruct c; cbn; try reflexivity; destruct (_ =? _); reflexivity. Qed.

Lemma buf_stage c : buf_of c = sbuf (stage_of c).
Proof. destruct c; reflexivity. Qed.

(** [th] depends on the buffer of the call and its status byte. *)
Lemma th_frame d d' c :
  (forall b, buf_of c = Some b -> b_blockno (bufs d' b) = b_blockno (bufs d b) /\ b_data (bufs d' b) = b_data (bufs d b)) ->
  (forall x, fmt (stage_of c) = Some x -> info_status d' (c_i0 x) = info_status d (c_i0 x)) -> th d' c = th d c.
Proof.
  intros Hb Hs. destruct c; cbn in *; try reflexivity; try (destruct (Hb _ eq_refl) as [-> ->]); try (rewrite (Hs _ eq_refl)); reflexivity.
Qed.

Lemma stage_woken ch c : stage_of (woken ch c) = stage_of c.
Proof. destruct ch, c; cbn; try reflexivity. case_decide; reflexivity. Qed.
Lemma th_woken d ch c : th d (woken ch c) = th d c.
Proof. destruct ch, c; cbn; try reflexivity. case_decide; reflexivity. Qed.
Lemma stage_rouse c : stage_of (rouse c) = stage_of c.
Proof. destruct c; reflexivity. Qed.
Lemma th_rouse d c : th d (rouse c) = th d c.
Proof. destruct c; reflexivity. Qed.

Definition has_lock (c : pc) : bool := match c with Alloc _ _ | Format _ | Ring _ | Publish _ | Notify _ | Wait _ => true | _ => false end.
Definition h_lock (h : hpc) : bool := match h with HAck | HLoop | HEntry => true | _ => false end.

Lemma lock_woken ch c : has_lock (woken ch c) = has_lock c.
Proof. destruct ch, c; cbn; try reflexivity. case_decide; reflexivity. Qed.

(** Projections of updated states. *)
Ltac proj := cbn [set_vlock set_dk set_pcs set_hp set_dev vlock dk pcs hp dev set_desc set_avail set_used set_free set_used_idx set_info set_ops set_bufs
  desc avail_idx avail_ring used_no used_ring free used_idx info_b info_status ops bufs].

Section Run.
Context {X : Type} `{Device X} (N : nat).
Implicit Types s : state (X := X).

(** ** The code of the driver *)

(** [s] with descriptor [i] free and those who wait for one awake. *)
Definition freed (i : Z) s : state :=
  State (vlock s) (set_free (<[i := true]> (free (dk s))) (set_desc (<[i := Desc ANull 0 0 0]> (desc (dk s))) (dk s)))
    (fun q => woken ChFree (pcs s q)) (hp s) (dev s).

Lemma free_desc_run i s : 0 <= i < NUM -> free (dk s) i = false -> free_desc i s = Ret tt (freed i s).
Proof.
  intros Hi Hf. unfold free_desc, mbind, M_bind, panic_if. replace (i >=? NUM) with false by lia. cbn. rewrite Hf. reflexivity.
Qed.

(** [s] with descriptor [i] taken. *)
Definition taken_at (i : Z) s : state := set_dk (set_free (<[i := false]> (free (dk s))) (dk s)) s.

Lemma alloc_from_run k i s : 0 <= i ->
  (alloc_from k i s = Ret (-1) s /\ forall j, i <= j < i + Z.of_nat k -> free (dk s) j = false) \/
  (exists r, alloc_from k i s = Ret r (taken_at r s) /\ i <= r < i + Z.of_nat k /\ free (dk s) r = true).
Proof.
  revert i. induction k as [|k IH]; intros i Hi; [left; split; [reflexivity | intros; lia]|].
  cbn [alloc_from]. unfold mbind, M_bind, gets. destruct (free (dk s) i) eqn:Ef.
  - right. exists i. split; [reflexivity|]. split; [lia | exact Ef].
  - destruct (IH (i + 1) ltac:(lia)) as [[-> Hn]|(r & -> & Hr & Hfr)].
    + left. split; [reflexivity|]. intros j Hj. destruct (decide (j = i)) as [->|]; [exact Ef | apply Hn; lia].
    + right. exists r. split; [reflexivity|]. split; [lia | exact Hfr].
Qed.

Lemma alloc_desc_run s :
  (alloc_desc s = Ret (-1) s /\ forall j, 0 <= j < NUM -> free (dk s) j = false) \/
  (exists r, alloc_desc s = Ret r (taken_at r s) /\ 0 <= r < NUM /\ free (dk s) r = true).
Proof. exact (alloc_from_run 8 0 s ltac:(lia)). Qed.

(** What [alloc3_desc] leaves when it fails. *)
Definition alloc_failed s s' : Prop :=
  (exists j, 0 <= j < NUM /\ free (dk s) j = false) /\
  exists fr ds pcs', s' = State (vlock s) (set_free fr (set_desc ds (dk s))) pcs' (hp s) (dev s) /\
    (forall i, fr i = free (dk s) i) /\ (forall i, free (dk s) i = false -> ds i = desc (dk s) i) /\
    (forall q, pcs' q = pcs s q \/ pcs' q = woken ChFree (pcs s q)).

Lemma fn_back (f : Z -> bool) i j b : f i = b -> <[i := b]> (<[i := negb b]> f) j = f j.
Proof. intros <-. destruct (decide (i = j)) as [->|Hne]; [rewrite fn_lookup_insert; reflexivity | rewrite !fn_lookup_insert_ne by exact Hne; reflexivity]. Qed.

Lemma disk_eta d : set_free (free d) (set_desc (desc d) d) = d.
Proof. destruct d. reflexivity. Qed.
Lemma state_eta s : State (vlock s) (dk s) (pcs s) (hp s) (dev s) = s.
Proof. destruct s. reflexivity. Qed.

Lemma alloc3_desc_run s :
  (exists s', alloc3_desc s = Ret None s' /\ alloc_failed s s') \/
  (exists i0 i1 i2, alloc3_desc s = Ret (Some (i0, i1, i2)) (taken_at i2 (taken_at i1 (taken_at i0 s))) /\
     (0 <= i0 < NUM /\ 0 <= i1 < NUM /\ 0 <= i2 < NUM) /\ (i0 <> i1 /\ i0 <> i2 /\ i1 <> i2) /\
     free (dk s) i0 = true /\ free (dk s) i1 = true /\ free (dk s) i2 = true).
Proof.
  unfold alloc3_desc, mbind, M_bind. destruct (alloc_desc_run s) as [[-> Hn]|(i0 & -> & Hr0 & Hf0)].
  { left. exists s. split; [reflexivity|]. split; [exists 0; split; [unfold NUM; lia | apply Hn; unfold NUM; lia]|].
    exists (free (dk s)), (desc (dk s)), (pcs s). rewrite disk_eta, state_eta. auto. }
  replace (i0 <? 0) with false by lia. destruct (alloc_desc_run (taken_at i0 s)) as [[-> Hn]|(i1 & -> & Hr1 & Hf1)]; cbn [taken_at set_dk dk set_free free] in *.
  { left. replace (-1 <? 0) with true by lia. rewrite free_desc_run; [|exact Hr0 | apply fn_lookup_insert]. eexists. split; [reflexivity|]. split.
    - assert (Hx : exists j, 0 <= j < NUM /\ j <> i0) by (destruct (decide (i0 = 0)); [exists 1 | exists 0]; unfold NUM; lia).
      destruct Hx as (j & Hj & Hne). exists j. split; [exact Hj|]. rewrite <- (Hn j Hj), fn_lookup_insert_ne by congruence. reflexivity.
    - exists (<[i0 := true]> (<[i0 := false]> (free (dk s)))), (<[i0 := Desc ANull 0 0 0]> (desc (dk s))), (fun q => woken ChFree (pcs s q)). split; [reflexivity|]. split; [intros i; apply (fn_back _ i0 i true Hf0)|]. split; [|auto].
      intros i Hi. rewrite fn_lookup_insert_ne by congruence. reflexivity. }
  replace (i1 <? 0) with false by lia. assert (N01 : i0 <> i1) by (intros ->; rewrite fn_lookup_insert in Hf1; discriminate Hf1). rewrite fn_lookup_insert_ne in Hf1 by exact N01.
  destruct (alloc_desc_run (taken_at i1 (taken_at i0 s))) as [[E Hn]|(i2 & E & Hr2 & Hf2)]; unfold taken_at in E at 1; cbn [taken_at set_dk dk set_free free] in *.
  all: unfold taken_at in E |- *; cbn [set_dk dk set_free free] in E |- *; rewrite E.
  - left. replace (-1 <? 0) with true by lia. rewrite free_desc_run; [|exact Hr0 | unfold freed; proj; rewrite fn_lookup_insert_ne by congruence; apply fn_lookup_insert].
    rewrite free_desc_run; [|exact Hr1 | unfold freed; proj; rewrite fn_lookup_insert_ne by congruence; apply fn_lookup_insert]. eexists. split; [reflexivity|]. split.
    + assert (Hx : exists j, 0 <= j < NUM /\ j <> i0 /\ j <> i1).
      { destruct (decide (i0 = 0 \/ i1 = 0)); [|exists 0; unfold NUM; lia]. destruct (decide (i0 = 1 \/ i1 = 1)); [exists 2 | exists 1]; unfold NUM; lia. }
      destruct Hx as (j & Hj & Hne & Hne'). exists j. split; [exact Hj|]. rewrite <- (Hn j Hj), !fn_lookup_insert_ne by congruence. reflexivity.
    + exists (<[i1 := true]> (<[i0 := true]> (<[i1 := false]> (<[i0 := false]> (free (dk s)))))),
        (<[i1 := Desc ANull 0 0 0]> (<[i0 := Desc ANull 0 0 0]> (desc (dk s)))), (fun q => woken ChFree (woken ChFree (pcs s q))). split; [reflexivity|]. split; [|split].
      * intros i. destruct (decide (i = i1)) as [->|]; [rewrite fn_lookup_insert; congruence|]. rewrite fn_lookup_insert_ne by congruence.
        destruct (decide (i = i0)) as [->|]; [rewrite fn_lookup_insert; congruence|]. rewrite !fn_lookup_insert_ne by congruence. reflexivity.
      * intros i Hi. rewrite !fn_lookup_insert_ne by congruence. reflexivity.
      * intros q. right. destruct (pcs s q); reflexivity.
  - right. replace (i2 <? 0) with false by lia. exists i0, i1, i2. split; [reflexivity|].
    assert (N12 : i1 <> i2) by (intros ->; rewrite fn_lookup_insert in Hf2; discriminate Hf2). rewrite fn_lookup_insert_ne in Hf2 by exact N12.
    assert (N02 : i0 <> i2) by (intros ->; rewrite fn_lookup_insert in Hf2; discriminate Hf2). rewrite fn_lookup_insert_ne in Hf2 by exact N02. auto 10.
Qed.

Lemma freed_desc i j s : i <> j -> desc (dk (freed i s)) j = desc (dk s) j.
Proof. intros Hne. unfold freed. proj. apply fn_lookup_insert_ne, Hne. Qed.
Lemma freed_free i j s : i <> j -> free (dk (freed i s)) j = free (dk s) j.
Proof. intros Hne. unfold freed. proj. apply fn_lookup_insert_ne, Hne. Qed.

Lemma free_chain_run c s : held (free (dk s)) c ->
  desc (dk s) (c_i0 c) = Desc (AOp (c_i0 c)) 16 VRING_DESC_F_NEXT (c_i1 c) ->
  desc (dk s) (c_i1 c) = Desc (AData (c_buf c)) BSIZE (Z.lor (if c_write c then 0 else VRING_DESC_F_WRITE) VRING_DESC_F_NEXT) (c_i2 c) ->
  desc (dk s) (c_i2 c) = Desc (AStatus (c_i0 c)) 1 VRING_DESC_F_WRITE 0 ->
  free_chain (c_i0 c) s = Ret tt (freed (c_i2 c) (freed (c_i1 c) (freed (c_i0 c) s))).
Proof.
  intros [Hr Hf N01 N02 N12] E0 E1 E2. unfold idx in Hr, Hf. unfold free_chain. change (Z.to_nat NUM) with 8%nat. cbn [loop].
  unfold mbind, M_bind, gets. rewrite E0. cbn [d_flags d_next]. rewrite free_desc_run by auto.
  change (Z.land VRING_DESC_F_NEXT VRING_DESC_F_NEXT =? 0) with false. cbv beta iota delta [mret M_ret].
  rewrite freed_desc, E1 by exact N01. cbn [d_flags d_next].
  rewrite free_desc_run; [|auto | rewrite freed_free by exact N01; auto].
  replace (Z.land (Z.lor _ _) _ =? 0) with false by (destruct (c_write c); reflexivity). cbv beta iota.
  rewrite !freed_desc, E2 by congruence. cbn [d_flags d_next].
  rewrite free_desc_run; [reflexivity | auto |]. rewrite !freed_free by congruence. auto.
Qed.

(** ** The invariant *)

Definition st s : nat -> stage := fun p => stage_of (pcs s p).
Definition holds s (w : who) : Prop := match w with Proc p => has_lock (pcs s p) = true | Handler => h_lock (hp s) = true end.
Definition locks s : Prop := forall w, vlock s = Some w <-> holds s w.

Record inv s (la lu : list Z) : Prop := {
  v_core : core (st s) (dk s) (view (dev s)) la lu;
  v_lock : locks s;
  v_isr : isr (view (dev s)) = 0 \/ isr (view (dev s)) = 1;
  v_intr : lu <> [] -> isr (view (dev s)) = 1 \/ hp s <> HIdle;
  v_entry : hp s = HEntry -> lu <> [];
  v_sleep p c : pcs s p = AsleepBuf c -> b_disk (bufs (dk s) (c_buf c)) = 1;
  v_full p b w : pcs s p = AsleepFree b w -> exists q c, own (st s q) = Some c;
  v_table p : (N <= p)%nat -> pcs s p = Idle
}.

Lemma core_ext f g d v la lu : (forall q, g q = f q) -> core f d v la lu -> core g d v la lu.
Proof. intros E. replace g with f by (apply functional_extensionality; intros q; symmetry; apply E). auto. Qed.

Lemma lock_keep s s' : locks s -> vlock s' = vlock s -> (forall q, has_lock (pcs s' q) = has_lock (pcs s q)) -> h_lock (hp s') = h_lock (hp s) -> locks s'.
Proof. intros L Ev Ep Eh w. rewrite Ev, (L w). unfold holds. destruct w; rewrite ?Ep, ?Eh; reflexivity. Qed.

Lemma lock_take s s' w : locks s -> vlock s = None -> vlock s' = Some w -> holds s' w ->
  (forall q, w <> Proc q -> has_lock (pcs s' q) = has_lock (pcs s q)) -> (w <> Handler -> h_lock (hp s') = h_lock (hp s)) -> locks s'.
Proof.
  intros L Ev Ev' Hw Hq Hh w'. rewrite Ev'. split; [intros E; injection E as <-; exact Hw|]. intros Hw'. f_equal.
  destruct (decide (w = w')) as [|Hne]; [assumption|]. exfalso. assert (vlock s = Some w'); [|congruence]. apply L.
  destruct w' as [q|]; cbn in *; [rewrite <- Hq by exact Hne | rewrite <- Hh by exact Hne]; exact Hw'.
Qed.

Lemma lock_drop s s' w : locks s -> vlock s = Some w -> vlock s' = None -> ~ holds s' w ->
  (forall q, w <> Proc q -> has_lock (pcs s' q) = has_lock (pcs s q)) -> (w <> Handler -> h_lock (hp s') = h_lock (hp s)) -> locks s'.
Proof.
  intros L Ev Ev' Hw Hq Hh w'. rewrite Ev'. split; [discriminate|]. intros Hw'. exfalso. destruct (decide (w = w')) as [<-|Hne]; [exact (Hw Hw')|].
  assert (vlock s = Some w'); [|congruence]. apply L. destruct w' as [q|]; cbn in *; [rewrite <- Hq by exact Hne | rewrite <- Hh by exact Hne]; exact Hw'.
Qed.

(** Who has the lock is alone in the code it protects. *)
Lemma lock_alone s p q : locks s -> has_lock (pcs s p) = true -> has_lock (pcs s q) = true -> q = p.
Proof. intros L Hp Hq. assert (E : vlock s = Some (Proc p)) by (apply L; exact Hp). assert (E' : vlock s = Some (Proc q)) by (apply L; exact Hq). congruence. Qed.

(** ** Refinement *)

Definition refines s (a : astate) : Prop := a_disk a = platter (view (dev s)) /\ forall q, a_th a q = th (dk s) (pcs s q).
Definition sim s s' : Prop := forall a, refines s a -> exists a', rtc astep a a' /\ refines s' a'.

Lemma sim_quiet s s' : platter (view (dev s')) = platter (view (dev s)) -> (forall q, th (dk s') (pcs s' q) = th (dk s) (pcs s q)) -> sim s s'.
Proof. intros Ep Eq a [Ha Hq]. exists a. split; [constructor|]. split; [congruence|]. intros q. rewrite Hq, Eq. reflexivity. Qed.

(** A step keeps the invariant and is a step of the atomic disk or none. *)
Definition fine s s' : Prop := (exists la lu, inv s' la lu) /\ sim s s'.

(** ** Steps *)

Lemma st_insert s p c q : st (set_pcs (<[p := c]> (pcs s)) s) q = <[p := stage_of c]> (st s) q.
Proof. unfold st. proj. destruct (decide (p = q)) as [->|Hne]; [rewrite !fn_lookup_insert | rewrite !fn_lookup_insert_ne by exact Hne]; reflexivity. Qed.

Section Step.
Context s la lu (I : inv s la lu).

(** Process [p] goes on to [c] with the same descriptors and buffer. *)
Lemma inv_goto p c s' :
  (p < N)%nat \/ c = Idle -> stage_of c = st s p -> s' = State (vlock s') (dk s) (<[p := c]> (pcs s)) (hp s) (dev s) -> locks s' ->
  (forall x, c = AsleepBuf x -> b_disk (bufs (dk s) (c_buf x)) = 1) -> (forall b w, c = AsleepFree b w -> exists q x, own (st s q) = Some x) ->
  inv s' la lu.
Proof.
  intros Hp Hst E L H1 H2. destruct I as [I1 I2 I3 I4 I5 I6 I7 I8]. rewrite E.
  assert (Es : forall q, st (State (vlock s') (dk s) (<[p := c]> (pcs s)) (hp s) (dev s)) q = st s q).
  { intros q. unfold st. proj. fn_cases; [exact Hst | reflexivity]. }
  constructor; proj; auto.
  - eapply core_ext; [exact Es | exact I1].
  - rewrite <- E. exact L.
  - intros q x Hq. fn_cases; eauto.
  - intros q b w Hq. assert (Hx : exists r x, own (st s r) = Some x) by (fn_cases; eauto). destruct Hx as (r & x & Hx). exists r, x. rewrite Es. exact Hx.
  - intros q Hq. fn_cases; [destruct Hp; [lia | assumption]|]. auto.
Qed.

Lemma fine_call p b w blk data :
  (p < N)%nat -> pcs s p = Idle -> (forall q, buf_of (pcs s q) <> Some b) -> 0 <= blk < 2 ^ 31 ->
  fine s (set_dk (set_bufs (<[b := Buf blk data (b_disk (bufs (dk s) b))]> (bufs (dk s))) (dk s)) (set_pcs (<[p := Enter b w]> (pcs s)) s)).
Proof.
  intros Hp Hi Hb Hblk. destruct I as [I1 I2 I3 I4 I5 I6 I7 I8]. assert (Hn : forall q c, own (st s q) = Some c -> c_buf c <> b).
  { intros q c Hq E. apply (Hb q). rewrite buf_stage. fold (st s q). rewrite (own_sbuf _ _ Hq), E. reflexivity. }
  split.
  - exists la, lu. constructor; proj; auto.
    + eapply core_ext; [intros q; exact (st_insert s p (Enter b w) q)|]. apply (core_call _ _ _ _ _ I1); auto; [unfold st; rewrite Hi; reflexivity|].
      intros q. unfold st. rewrite <- buf_stage. apply Hb.
    + eapply lock_keep; [exact I2 | reflexivity | | reflexivity]. intros q. proj. fn_cases; [rewrite Hi|]; reflexivity.
    + intros q c Hq. fn_cases; try discriminate Hq; [|eauto]. exfalso. apply (Hn q c); [unfold st; rewrite Hq; reflexivity | reflexivity].
    + intros q b' w' Hq. fn_cases; [discriminate Hq|]. destruct (I7 q b' w' Hq) as (r & c & Hr). exists r, c. unfold st in *. proj. fn_cases; [|exact Hr]. rewrite Hi in Hr. discriminate Hr.
    + intros q Hq. fn_cases; [lia|]. auto.
  - intros a [Ha Hq]. exists (AState (a_disk a) (<[p := ACall b w blk data]> (a_th a))). split; [apply rtc_once, a_call|split].
    + rewrite Hq, Hi. reflexivity.
    + intros q. rewrite Hq, abuf_th. apply Hb.
    + exact Hblk.
    + exact Ha.
    + intros q. proj. cbn [a_th]. destruct (decide (p = q)) as [<-|Hne].
      * rewrite !fn_lookup_insert. cbn. rewrite !fn_lookup_insert. reflexivity.
      * rewrite !fn_lookup_insert_ne by exact Hne. rewrite Hq. symmetry. apply th_frame; [|reflexivity]. intros b' Hb'. proj. rewrite fn_lookup_insert_ne; [auto|]. intros ->. exact (Hb q Hb').
Qed.

Lemma fine_kill p : asleep (pcs s p) = true -> fine s (set_pcs (<[p := rouse (pcs s p)]> (pcs s)) s).
Proof.
  intros Ha. split.
  - exists la, lu. eapply (inv_goto p (rouse (pcs s p))); [| apply stage_rouse | reflexivity | | |].
    + left. destruct (decide (p < N)%nat) as [|Hge]; [assumption|]. rewrite (v_table _ _ _ I p) in Ha by lia. discriminate Ha.
    + eapply lock_keep; [apply I | reflexivity | | reflexivity]. intros q. proj. fn_cases; [|reflexivity]. destruct (pcs s q); try discriminate Ha; reflexivity.
    + intros x E. destruct (pcs s p); discriminate.
    + intros b w E. destruct (pcs s p); discriminate.
  - apply sim_quiet; [reflexivity|]. intros q. proj. fn_cases; [apply th_rouse | reflexivity].
Qed.

Lemma in_table p : pcs s p <> Idle -> (p < N)%nat.
Proof. intros Hne. destruct (decide (p < N)%nat) as [|Hge]; [assumption|]. destruct Hne. apply I. lia. Qed.

(** Steps that only move a process within its stage. *)
Lemma fine_goto p c s' : pcs s p <> Idle -> stage_of c = st s p -> th (dk s) c = th (dk s) (pcs s p) ->
  s' = State (vlock s') (dk s) (<[p := c]> (pcs s)) (hp s) (dev s) -> locks s' ->
  (forall x, c = AsleepBuf x -> b_disk (bufs (dk s) (c_buf x)) = 1) -> (forall b w, c = AsleepFree b w -> exists q x, own (st s q) = Some x) ->
  fine s s'.
Proof.
  intros Hi Hst Hth E L H1 H2. split.
  - exists la, lu. eapply (inv_goto p c); [left; apply in_table, Hi | ..]; eauto.
  - rewrite E. apply sim_quiet; [reflexivity|]. intros q. proj. fn_cases; [exact Hth | reflexivity].
Qed.

(** What a step of the driver may come to. *)
Definition safe (o : outcome state unit) : Prop := match o with Ret _ s' => fine s s' | Block _ => True | _ => False end.

Lemma rw_enter p b w : pcs s p = Enter b w -> safe (virtio_disk_rw p s).
Proof.
  intros Hp. unfold virtio_disk_rw, mbind, M_bind, gets. rewrite Hp. unfold lock. destruct (vlock s) eqn:Ev; [exact Logic.I|]. cbn.
  apply (fine_goto p (Alloc b w)); try discriminate; rewrite ?Hp; auto; try (unfold st; rewrite Hp; reflexivity); try reflexivity.
  eapply (lock_take s _ (Proc p)); [apply I | exact Ev | reflexivity | | |reflexivity].
  - cbn. rewrite fn_lookup_insert. reflexivity.
  - intros q Hq. proj. rewrite fn_lookup_insert_ne by congruence. reflexivity.
Qed.

Lemma rw_reenter p c : pcs s p = Reenter c -> safe (virtio_disk_rw p s).
Proof.
  intros Hp. unfold virtio_disk_rw, mbind, M_bind, gets. rewrite Hp. unfold lock. destruct (vlock s) eqn:Ev; [exact Logic.I|]. cbn.
  apply (fine_goto p (Wait c)); try discriminate; rewrite ?Hp; auto; try (unfold st; rewrite Hp; reflexivity); try reflexivity.
  eapply (lock_take s _ (Proc p)); [apply I | exact Ev | reflexivity | | |reflexivity].
  - cbn. rewrite fn_lookup_insert. reflexivity.
  - intros q Hq. proj. rewrite fn_lookup_insert_ne by congruence. reflexivity.
Qed.

(** The process has the lock and keeps it. *)
Lemma lock_same p c s' : has_lock (pcs s p) = true -> has_lock c = true -> vlock s' = vlock s -> pcs s' = <[p := c]> (pcs s) -> hp s' = hp s -> locks s'.
Proof.
  intros Hp Hc Ev Ep Eh. eapply lock_keep; [apply I | exact Ev | | rewrite Eh; reflexivity]. intros q. rewrite Ep. fn_cases; [congruence | reflexivity].
Qed.

(** The process has the lock and drops it, waking others perhaps. *)
Lemma lock_gone p s' : has_lock (pcs s p) = true -> vlock s' = None -> has_lock (pcs s' p) = false ->
  (forall q, q <> p -> has_lock (pcs s' q) = has_lock (pcs s q)) -> hp s' = hp s -> locks s'.
Proof.
  intros Hp Ev Hc Hq Eh. eapply (lock_drop s s' (Proc p)); [apply I | apply I; exact Hp | exact Ev | cbn; congruence | | intros _; rewrite Eh; reflexivity].
  intros q Hne. apply Hq. congruence.
Qed.

(** Another process goes on to a stage of its own. *)
Lemma inv_stage p c s' la' lu' :
  (p < N)%nat \/ c = Idle -> asleep c = false -> s' = State (vlock s') (dk s') (<[p := c]> (pcs s)) (hp s) (dev s') -> locks s' ->
  core (<[p := stage_of c]> (st s)) (dk s') (view (dev s')) la' lu' -> isr (view (dev s')) = isr (view (dev s)) -> lu' = lu ->
  (forall q b, q <> p -> sbuf (st s q) = Some b -> b_disk (bufs (dk s') b) = b_disk (bufs (dk s) b)) ->
  (own (st s p) = None \/ own (stage_of c) <> None) ->
  inv s' la' lu'.
Proof.
  intros Hp Hc E L HC Hisr -> Hb Hown. destruct I as [I1 I2 I3 I4 I5 I6 I7 I8].
  assert (Es : forall q, st s' q = <[p := stage_of c]> (st s) q) by (intros q; rewrite E; unfold st; proj; fn_cases; reflexivity).
  assert (Ep : pcs s' = <[p := c]> (pcs s)) by (rewrite E; reflexivity). assert (Eh : hp s' = hp s) by (rewrite E; reflexivity).
  constructor; rewrite ?Hisr, ?Eh; auto.
  - eapply core_ext; [exact Es | exact HC].
  - intros q x Hq. rewrite Ep in Hq. fn_cases; [rewrite Hq in Hc; discriminate Hc|]. rewrite Hb with (q := q); eauto. unfold st. rewrite Hq. reflexivity.
  - intros q b w Hq. rewrite Ep in Hq. fn_cases; [rewrite Hq in Hc; discriminate Hc|]. destruct (I7 q b w Hq) as (r & x & Hr). destruct (decide (r = p)) as [->|Hne].
    + destruct Hown as [Hn|Hn]; [congruence|]. destruct (own (stage_of c)) as [y|] eqn:Ey; [|congruence]. exists p, y. rewrite Es, fn_lookup_insert. exact Ey.
    + exists r, x. rewrite Es, fn_lookup_insert_ne by congruence. exact Hr.
  - intros q Hq. rewrite Ep. fn_cases; [destruct Hp; [lia | assumption]|]. auto.
Qed.

Lemma rw_alloc p b w : pcs s p = Alloc b w -> safe (virtio_disk_rw p s).
Proof.
  intros Hp. assert (Hi : pcs s p <> Idle) by congruence. pose proof (in_table p Hi) as HN. assert (Hs : st s p = SBuf b) by (unfold st; rewrite Hp; reflexivity).
  pose proof (v_core _ _ _ I) as HC. unfold virtio_disk_rw, mbind, M_bind, gets. rewrite Hp.
  destruct (alloc3_desc_run s) as [(s' & -> & (j & Hj & Hfj) & fr & ds & pcs' & -> & Hfr & Hds & Hpcs)|(i0 & i1 & i2 & -> & Hr & Hne & Hf)].
  - cbn. assert (Hst : forall q, stage_of (pcs' q) = st s q) by (intros q; destruct (Hpcs q) as [->| ->]; [reflexivity | apply stage_woken]).
    assert (Hown : exists r x, own (st s r) = Some x) by (destruct (k_free _ _ _ _ _ HC j Hj Hfj) as (r & x & Hx & _); eauto).
    destruct I as [I1 I2 I3 I4 I5 I6 I7 I8]. split.
    + exists la, lu. assert (Es : forall q, st (State None (set_free fr (set_desc ds (dk s))) (<[p := AsleepFree b w]> pcs') (hp s) (dev s)) q = st s q).
      { intros q. unfold st. proj. fn_cases; [symmetry; exact Hs | apply Hst]. }
      constructor; proj; auto.
      * eapply core_ext; [exact Es|]. apply core_same; auto.
      * eapply (lock_gone p); proj; auto; [rewrite Hp; reflexivity | rewrite fn_lookup_insert; reflexivity |]. intros q Hq. rewrite fn_lookup_insert_ne by congruence.
        destruct (Hpcs q) as [->| ->]; [reflexivity | apply lock_woken].
      * intros q x Hq. fn_cases; [discriminate Hq|]. apply (I6 q x). destruct (Hpcs q) as [E|E]; rewrite E in Hq; [exact Hq|]. destruct (pcs s q); try discriminate Hq; exact Hq.
      * intros q b' w' _. destruct Hown as (r & x & Hx). exists r, x. rewrite Es. exact Hx.
      * intros q Hq. fn_cases; [lia|]. destruct (Hpcs q) as [->| ->]; rewrite I8 by exact Hq; reflexivity.
    + apply sim_quiet; [reflexivity|]. intros q. proj. fn_cases.
      * rewrite Hp. reflexivity.
      * transitivity (th (dk s) (pcs' q)); [apply th_frame; intros; auto|]. destruct (Hpcs q) as [->| ->]; [reflexivity | apply th_woken].
  - cbn. set (c := Call b w i0 i1 i2). destruct Hr as (R0 & R1 & R2). destruct Hne as (N01 & N02 & N12). destruct Hf as (F0 & F1 & F2). split.
    + exists la, lu. eapply (inv_stage p (Format c)); auto.
      * eapply (lock_same p (Format c)); try reflexivity. rewrite Hp. reflexivity.
      * unfold taken_at. proj. apply (core_alloc _ _ _ _ _ HC); auto.
        -- intros i [->|[->| ->]]; cbn; auto.
        -- intros i [->|[->| ->]]; cbn; unfold insert, fn_insert; repeat case_decide; congruence.
        -- intros i Hi'. unfold idx in Hi'. cbn in Hi'. rewrite !fn_lookup_insert_ne by (intros ->; tauto). reflexivity.
    + apply sim_quiet; [reflexivity|]. intros q. unfold taken_at. proj. fn_cases; [rewrite Hp; reflexivity|]. apply th_frame; intros; auto.
Qed.

(** The buffers of other calls are others. *)
Lemma other_buf p q c b : own (st s p) = Some c -> q <> p -> sbuf (st s q) = Some b -> c_buf c <> b.
Proof. intros Hp Hne Hq E. apply Hne. eapply (k_buf _ _ _ _ _ (v_core _ _ _ I)); [exact Hq|]. rewrite <- E. apply own_sbuf, Hp. Qed.
Lemma other_head p q c c' : own (st s p) = Some c -> q <> p -> own (st s q) = Some c' -> c_i0 c <> c_i0 c'.
Proof. intros Hp Hne Hq E. apply Hne. eapply (k_disj _ _ _ _ _ (v_core _ _ _ I) q p c' c (c_i0 c')); auto; left; congruence. Qed.

Lemma rw_format p c : pcs s p = Format c -> safe (virtio_disk_rw p s).
Proof.
  intros Hp. assert (Hi : pcs s p <> Idle) by congruence. pose proof (in_table p Hi) as HN. assert (Hs : st s p = SFormat c) by (unfold st; rewrite Hp; reflexivity).
  assert (Ho : own (st s p) = Some c) by (rewrite Hs; reflexivity).
  unfold virtio_disk_rw, mbind, M_bind, gets. rewrite Hp. unfold upd, goto, modify, safe. split.
  - exists la, lu. eapply (inv_stage p (Ring c)); proj; auto.
    + eapply (lock_same p (Ring c)); try reflexivity. rewrite Hp. reflexivity.
    + apply core_format; [apply I | exact Hs].
    + intros q b Hne Hq. unfold format. proj. rewrite fn_lookup_insert_ne; [reflexivity|]. eapply other_buf; eauto.
  - apply sim_quiet; [reflexivity|]. intros q. proj. destruct (decide (p = q)) as [<-|Hne].
    + rewrite fn_lookup_insert, Hp. unfold format. cbn [th]. proj. rewrite !fn_lookup_insert. reflexivity.
    + rewrite fn_lookup_insert_ne by exact Hne. apply th_frame; unfold format; proj.
      * intros b Hb. rewrite fn_lookup_insert_ne; [auto|]. rewrite buf_stage in Hb. eapply other_buf; eauto.
      * intros x Hx. rewrite fn_lookup_insert_ne; [reflexivity|]. eapply other_head; eauto with virtio.
Qed.

Lemma rw_ring p c : pcs s p = Ring c -> safe (virtio_disk_rw p s).
Proof.
  intros Hp. assert (Hi : pcs s p <> Idle) by congruence. pose proof (in_table p Hi) as HN. assert (Hs : st s p = SRing c) by (unfold st; rewrite Hp; reflexivity).
  unfold virtio_disk_rw, mbind, M_bind, gets. rewrite Hp. unfold upd, goto, modify, safe. split.
  - exists la, lu. eapply (inv_stage p (Publish c)); proj; auto.
    + eapply (lock_same p (Publish c)); try reflexivity. rewrite Hp. reflexivity.
    + apply core_ring; [apply I | exact Hs |]. intros q c' Hq. unfold st in Hq. assert (q = p); [|subst q; rewrite Hp in Hq; discriminate Hq].
      eapply lock_alone; [apply I | rewrite Hp; reflexivity | destruct (pcs s q); try discriminate Hq; reflexivity].
  - apply sim_quiet; [reflexivity|]. intros q. proj. fn_cases; [rewrite Hp; reflexivity|]. apply th_frame; intros; auto.
Qed.

Lemma rw_publish p c : pcs s p = Publish c -> safe (virtio_disk_rw p s).
Proof.
  intros Hp. assert (Hi : pcs s p <> Idle) by congruence. pose proof (in_table p Hi) as HN. assert (Hs : st s p = SPublish c) by (unfold st; rewrite Hp; reflexivity).
  unfold virtio_disk_rw, mbind, M_bind, gets. rewrite Hp. unfold upd, goto, modify, safe. split.
  - exists (la ++ [c_i0 c]), lu. eapply (inv_stage p (Notify c)); proj; auto.
    + eapply (lock_same p (Notify c)); try reflexivity. rewrite Hp. reflexivity.
    + apply core_publish; [apply I | exact Hs |]. intros q c' Hne Hq. unfold st in Hq. apply Hne.
      eapply lock_alone; [apply I | rewrite Hp; reflexivity | destruct (pcs s q); try discriminate Hq; reflexivity].
  - apply sim_quiet; [reflexivity|]. intros q. proj. fn_cases; [rewrite Hp; reflexivity|]. apply th_frame; intros; auto.
Qed.

Lemma rw_notify p c : pcs s p = Notify c -> safe (virtio_disk_rw p s).
Proof.
  intros Hp. assert (Hi : pcs s p <> Idle) by congruence. pose proof (in_table p Hi) as HN. assert (Hs : st s p = SNotify c) by (unfold st; rewrite Hp; reflexivity).
  unfold virtio_disk_rw, mbind, M_bind, gets. rewrite Hp. unfold upd, goto, modify, safe. split.
  - exists la, lu. eapply (inv_stage p (Wait c)); proj; auto.
    + eapply (lock_same p (Wait c)); try reflexivity. rewrite Hp. reflexivity.
    + rewrite notify_view. apply core_notify; [apply I | exact Hs].
    + rewrite notify_view. reflexivity.
  - apply sim_quiet; proj; [rewrite notify_view; reflexivity|]. intros q. fn_cases; [rewrite Hp; reflexivity | reflexivity].
Qed.

Lemma rw_wait p c : pcs s p = Wait c -> safe (virtio_disk_rw p s).
Proof.
  intros Hp. assert (Hi : pcs s p <> Idle) by congruence. pose proof (in_table p Hi) as HN. assert (Hs : st s p = SSub c) by (unfold st; rewrite Hp; reflexivity).
  unfold virtio_disk_rw, mbind, M_bind, gets. rewrite Hp. destruct (Z.eqb_spec (b_disk (bufs (dk s) (c_buf c))) 1) as [Eb|Eb].
  - cbn. apply (fine_goto p (AsleepBuf c)); try discriminate; rewrite ?Hp; auto; try reflexivity.
    + eapply (lock_gone p); proj; auto; [rewrite Hp; reflexivity | rewrite fn_lookup_insert; reflexivity |]. intros q Hq. rewrite fn_lookup_insert_ne by congruence. reflexivity.
    + intros x E. injection E as <-. exact Eb.
  - pose proof (v_core _ _ _ I) as HC. assert (Ho : own (st s p) = Some c) by (rewrite Hs; reflexivity).
    pose proof (k_held _ _ _ _ _ HC p c Ho) as Hh. pose proof (k_chain _ _ _ _ _ HC p c ltac:(rewrite Hs; reflexivity)) as [E0 E1 E2 _ _].
    destruct (k_sub _ _ _ _ _ HC p c ltac:(rewrite Hs; reflexivity)) as [[Hd _]|[Hd Hstat]]; [congruence|].
    unfold upd at 1, modify at 1. rewrite (free_chain_run c); [|exact Hh | exact E0 | exact E1 | exact E2]. unfold unlock, goto, modify, freed, safe. proj.
    destruct I as [I1 I2 I3 I4 I5 I6 I7 I8]. destruct Hh as [_ _ N01 N02 N12].
    set (clear3 := fun f : Z -> virtq_desc => <[c_i2 c := Desc ANull 0 0 0]> (<[c_i1 c := Desc ANull 0 0 0]> (<[c_i0 c := Desc ANull 0 0 0]> f))).
    set (pcs' := <[p := Idle]> (fun q => woken ChFree (woken ChFree (woken ChFree (pcs s q))))).
    assert (Hpcs : forall q, q <> p -> pcs' q = woken ChFree (pcs s q)) by (intros q Hne; unfold pcs'; rewrite fn_lookup_insert_ne by congruence; destruct (pcs s q); reflexivity).
    split.
    + exists la, lu. constructor; proj; auto.
      * eapply core_ext; [|apply (core_finish _ _ _ _ _ I1 p c (clear3 (desc (dk s))) (<[c_i2 c := true]> (<[c_i1 c := true]> (<[c_i0 c := true]> (free (dk s))))) (<[c_i0 c := None]> (info_b (dk s)))); auto].
        -- intros q. unfold st. proj. destruct (decide (p = q)) as [<-|Hne]; [unfold pcs'; rewrite !fn_lookup_insert; reflexivity|]. rewrite Hpcs, fn_lookup_insert_ne, stage_woken by congruence. reflexivity.
        -- intros i [->|[->| ->]]; cbn; unfold insert, fn_insert; repeat case_decide; congruence.
        -- intros i Hx. unfold idx in Hx. rewrite !fn_lookup_insert_ne by (intros E; subst i; tauto). reflexivity.
        -- intros i Hx. unfold idx in Hx. unfold clear3. rewrite !fn_lookup_insert_ne by (intros E; subst i; tauto). reflexivity.
        -- intros i Hx. unfold idx in Hx. rewrite !fn_lookup_insert_ne by (intros E; subst i; tauto). reflexivity.
      * eapply (lock_drop s _ (Proc p)); proj; auto; [apply I2; cbn; rewrite Hp; reflexivity | cbn; unfold pcs'; rewrite fn_lookup_insert; discriminate |].
        intros q Hne. rewrite Hpcs by congruence. apply lock_woken.
      * intros q x Hq. destruct (decide (q = p)) as [->|Hne]; [unfold pcs' in Hq; rewrite fn_lookup_insert in Hq; discriminate Hq|]. rewrite Hpcs in Hq by exact Hne.
        apply (I6 q x). destruct (pcs s q); try discriminate Hq; exact Hq.
      * intros q b w Hq. destruct (decide (q = p)) as [->|Hne]; [unfold pcs' in Hq; rewrite fn_lookup_insert in Hq; discriminate Hq|]. rewrite Hpcs in Hq by exact Hne.
        destruct (pcs s q); discriminate Hq.
      * intros q Hq. rewrite Hpcs, I8 by lia. reflexivity.
    + intros a [Ha Hq]. exists (AState (a_disk a) (<[p := AIdle]> (a_th a))). split; [|split; [exact Ha|]].
      * apply rtc_once. eapply a_return. rewrite Hq, Hp. cbn. rewrite Hstat. reflexivity.
      * intros q. proj. cbn [a_th]. destruct (decide (p = q)) as [<-|Hne]; [unfold pcs'; rewrite !fn_lookup_insert; reflexivity|].
        rewrite fn_lookup_insert_ne, Hpcs, Hq by congruence. symmetry. rewrite th_woken. apply th_frame; intros; auto.
Qed.

Lemma rw_safe p : safe (virtio_disk_rw p s).
Proof.
  destruct (pcs s p) eqn:Hp; try (unfold virtio_disk_rw, mbind, M_bind, gets; rewrite Hp; exact Logic.I);
    eauto using rw_enter, rw_alloc, rw_format, rw_ring, rw_publish, rw_notify, rw_wait, rw_reenter.
Qed.

(** *** The interrupt handler *)

Lemma hl_lock p : hp s = p -> h_lock p = true -> vlock s = Some Handler.
Proof. intros E Hl. apply I. cbn. rewrite E. exact Hl. Qed.

(** The handler goes on to [h]. *)
Lemma inv_handler h s' : s' = State (vlock s') (dk s) (pcs s) h (dev s') -> locks s' ->
  core (st s) (dk s) (view (dev s')) la lu -> (isr (view (dev s')) = 0 \/ isr (view (dev s')) = 1) ->
  (lu <> [] -> isr (view (dev s')) = 1 \/ h <> HIdle) -> (h = HEntry -> lu <> []) -> inv s' la lu.
Proof. intros E L HC Hi H1 H2. destruct I as [I1 I2 I3 I4 I5 I6 I7 I8]. rewrite E in *. constructor; proj; auto. Qed.

Lemma intr_idle : hp s = HIdle -> safe (virtio_disk_intr s).
Proof.
  intros Hh. unfold virtio_disk_intr, mbind, M_bind, gets, get. rewrite Hh. destruct (_ =? 0); [exact Logic.I|]. cbn. split; [|apply sim_quiet; reflexivity].
  exists la, lu. apply (inv_handler HEnter); try discriminate; try reflexivity; try apply I.
  - eapply lock_keep; [apply I | reflexivity | reflexivity | rewrite Hh; reflexivity].
  - right. discriminate.
Qed.

Lemma intr_enter : hp s = HEnter -> safe (virtio_disk_intr s).
Proof.
  intros Hh. unfold virtio_disk_intr, mbind, M_bind, gets. rewrite Hh. unfold lock. destruct (vlock s) eqn:Ev; [exact Logic.I|]. cbn. split; [|apply sim_quiet; reflexivity].
  exists la, lu. apply (inv_handler HAck); try discriminate; try reflexivity; try apply I.
  - eapply (lock_take s _ Handler); [apply I | exact Ev | reflexivity | reflexivity | reflexivity | congruence].
  - right. discriminate.
Qed.

Lemma intr_ack : hp s = HAck -> safe (virtio_disk_intr s).
Proof.
  intros Hh. unfold virtio_disk_intr, mbind, M_bind, gets. rewrite Hh. unfold modify, safe. split; [|apply sim_quiet; proj; [rewrite ack_view; reflexivity | reflexivity]].
  exists la, lu. apply (inv_handler HLoop); try discriminate; try reflexivity; proj; rewrite ?ack_view; cbn [isr].
  - eapply lock_keep; [apply I | reflexivity | reflexivity | rewrite Hh; reflexivity].
  - apply core_quiet; [apply I | auto].
  - left. destruct (v_isr _ _ _ I) as [->| ->]; reflexivity.
  - right. discriminate.
Qed.

Lemma intr_loop : hp s = HLoop -> safe (virtio_disk_intr s).
Proof.
  intros Hh. unfold virtio_disk_intr, mbind, M_bind, gets. rewrite Hh. pose proof (used_empty _ _ _ _ _ (v_core _ _ _ I)) as He.
  destruct (Z.eqb_spec (used_idx (dk s)) (used_no (dk s))) as [E|E]; cbn [negb]; unfold unlock, modify, safe; (split; [|apply sim_quiet; reflexivity]); exists la, lu.
  - apply (inv_handler HIdle); try discriminate; try reflexivity; try apply I.
    + eapply (lock_drop s _ Handler); [apply I | apply (hl_lock HLoop); auto | reflexivity | cbn; discriminate | reflexivity | congruence].
    + intros Hn. destruct Hn. apply He, E.
  - apply (inv_handler HEntry); try discriminate; try reflexivity; try apply I.
    + eapply lock_keep; [apply I | reflexivity | reflexivity | rewrite Hh; reflexivity].
    + right. discriminate.
    + intros _ Hn. apply E, He, Hn.
Qed.

Lemma intr_entry : hp s = HEntry -> safe (virtio_disk_intr s).
Proof.
  intros Hh. unfold virtio_disk_intr, mbind, M_bind, gets. rewrite Hh. destruct I as [I1 I2 I3 I4 I5 I6 I7 I8].
  destruct lu as [|h lu'] eqn:Elu; [destruct (I5 Hh eq_refl)|]. destruct (used_head _ _ _ _ _ I1 h lu' eq_refl) as (p & c & Hp & Hc & Hb & -> & -> & Eb).
  cbn [panic_if negb Z.eqb]. unfold mret, M_ret, upd, wakeup, modify, safe. proj. rewrite Eb. proj.
  assert (Hpcs : forall q, stage_of (woken (ChBuf (c_buf c)) (pcs s q)) = st s q) by (intros q; apply stage_woken). split.
  - exists la, lu'. constructor; proj; auto.
    + eapply core_ext; [exact Hpcs|]. eapply (core_entry _ _ _ _ _ I1 h lu' p c); auto.
    + eapply lock_keep; [exact I2 | reflexivity | intros q; apply lock_woken | rewrite Hh; reflexivity].
    + intros q x Hq. rewrite fn_lookup_insert_ne.
      * apply (I6 q x). destruct (pcs s q); cbn in Hq; try discriminate Hq. case_decide; [discriminate Hq | exact Hq].
      * intros E. destruct (pcs s q); cbn in Hq; try discriminate Hq. case_decide; [discriminate Hq|]. injection Hq as <-. congruence.
    + intros q b w Hq. destruct (I7 q b w) as (r & x & Hr); [destruct (pcs s q); cbn in Hq; try discriminate Hq; [exact Hq | case_decide; discriminate Hq]|].
      exists r, x. unfold st. proj. rewrite Hpcs. exact Hr.
    + intros q Hq. rewrite I8 by exact Hq. reflexivity.
  - apply sim_quiet; [reflexivity|]. intros q. proj. rewrite th_woken. apply th_frame; proj; [|reflexivity].
    intros b _. destruct (decide (c_buf c = b)) as [<-|Hne]; [rewrite fn_lookup_insert | rewrite fn_lookup_insert_ne by exact Hne]; auto.
Qed.

Lemma intr_safe : safe (virtio_disk_intr s).
Proof. destruct (hp s) eqn:Hh; auto using intr_idle, intr_enter, intr_ack, intr_loop, intr_entry. Qed.

(** *** The device *)

(** The request that a chain in memory is. *)
Lemma transfer_chain c v d : chain_ok d c -> 0 <= b_blockno (bufs d (c_buf c)) < 2 ^ 31 ->
  let blk := b_blockno (bufs d (c_buf c)) in
  let done bs := set_bufs bs (set_info (info_b d) (<[c_i0 c := 0]> (info_status d)) d) in
  transfer (c_i0 c) v d =
  Some (if c_write c then (blit (platter v) (blk * BSIZE) (b_data (bufs d (c_buf c))) 0 BSIZE, done (bufs d))
        else (platter v, done (<[c_buf c := set_data (blit (b_data (bufs d (c_buf c))) 0 (platter v) (blk * BSIZE) BSIZE) (bufs d (c_buf c))]> (bufs d)))).
Proof.
  intros [E0 E1 E2 E3 _] Hb. cbv zeta. unfold transfer. rewrite E0. cbn [d_next d_addr]. rewrite E1. cbn [d_next d_addr]. rewrite E2. cbn [d_addr d_len]. rewrite E3.
  cbn [r_sector r_type]. rewrite u32_small by (change (BSIZE / 512) with 2; lia). replace (b_blockno (bufs d (c_buf c)) * (BSIZE / 512) * 512) with (b_blockno (bufs d (c_buf c)) * BSIZE) by (change (BSIZE / 512) with 2; unfold BSIZE; lia).
  destruct (c_write c); reflexivity.
Qed.

(** A step of the device that the other parts do not see. *)
Lemma inv_device x d' la' lu' : core (st s) d' (view x) la' lu' -> (isr (view x) = 0 \/ isr (view x) = 1) ->
  (lu' <> [] -> isr (view x) = 1 \/ hp s <> HIdle) -> (lu <> [] -> lu' <> []) ->
  (forall b, b_disk (bufs d' b) = b_disk (bufs (dk s) b)) -> inv (set_dk d' (set_dev x s)) la' lu'.
Proof.
  intros HC Hi H1 H2 Hb. destruct I as [I1 I2 I3 I4 I5 I6 I7 I8]. constructor; proj; auto.
  intros p c Hp. rewrite Hb. eauto.
Qed.

Lemma fine_transfer l1 h l2 m d' x : taken (view (dev s)) = l1 ++ h :: l2 -> transfer h (view (dev s)) (dk s) = Some (m, d') ->
  view x = View (seen (view (dev s))) (l1 ++ l2) m (Z.lor (isr (view (dev s))) 1) (awake (view (dev s))) ->
  fine s (set_dk (give_back h d') (set_dev x s)).
Proof.
  intros Ht Hx Ev. pose proof (v_core _ _ _ I) as HC. pose proof (v_isr _ _ _ I) as Hisr.
  destruct (k_heads _ _ _ _ _ HC h) as (p & c & Hp & Hc & _); [rewrite Ht, !elem_of_app, elem_of_cons; auto|]. subst h.
  pose proof (transfer_chain c (view (dev s)) (dk s) (k_chain _ _ _ _ _ HC p c (sub_fmt _ _ Hp)) (k_blk _ _ _ _ _ HC p _ (own_sbuf _ _ (sub_own _ _ Hp)))) as Hx'.
  cbv zeta in Hx'. rewrite Hx in Hx'. injection Hx' as Hx'.
  assert (Hbusy : info_status (dk s) (c_i0 c) = 255) by (apply (k_busy _ _ _ _ _ HC); rewrite Ht, !elem_of_app, elem_of_cons; auto).
  assert (Hor : Z.lor (isr (view (dev s))) 1 = 1) by (destruct Hisr as [->| ->]; reflexivity).
  set (blk := b_blockno (bufs (dk s) (c_buf c))) in *. set (old := b_data (bufs (dk s) (c_buf c))) in *.
  set (bs := if c_write c then bufs (dk s) else <[c_buf c := set_data (blit old 0 (platter (view (dev s))) (blk * BSIZE) BSIZE) (bufs (dk s) (c_buf c))]> (bufs (dk s))).
  assert (Hd' : d' = set_bufs bs (set_info (info_b (dk s)) (<[c_i0 c := 0]> (info_status (dk s))) (dk s))) by (unfold bs; destruct (c_write c); congruence).
  assert (Hm : m = if c_write c then blit (platter (view (dev s))) (blk * BSIZE) old 0 BSIZE else platter (view (dev s))) by (destruct (c_write c); congruence).
  assert (Hbs : forall b, b_blockno (bs b) = b_blockno (bufs (dk s) b) /\ b_disk (bs b) = b_disk (bufs (dk s) b)).
  { intros b. unfold bs. destruct (c_write c); [auto|]. destruct (decide (c_buf c = b)) as [<-|Hne]; [rewrite fn_lookup_insert | rewrite fn_lookup_insert_ne by exact Hne]; auto. }
  clear Hx Hx'. subst d'. split.
  - exists la, (lu ++ [c_i0 c]). apply inv_device; rewrite ?Ev; cbn [isr]; auto.
    + apply core_transfer; auto.
    + destruct lu; discriminate.
    + intros b. unfold give_back. proj. apply Hbs.
  - intros a [Ha Hq]. assert (Hth : th (dk s) (pcs s p) = ACall (c_buf c) (c_write c) blk old).
    { unfold st in Hp. destruct (pcs s p); try discriminate Hp; cbn in Hp; injection Hp as ->; cbn; rewrite Hbusy; reflexivity. }
    exists (AState m (<[p := ADone (c_buf c) (c_write c) blk (b_data (bs (c_buf c)))]> (a_th a))). split; [|split].
    + apply rtc_once. rewrite <- Hq in Hth. unfold bs. destruct (c_write c); subst m; rewrite <- Ha.
      * apply a_write. exact Hth.
      * rewrite fn_lookup_insert. cbn [b_data set_data]. apply a_read. exact Hth.
    + proj. rewrite Ev. reflexivity.
    + intros q. cbn [a_th]. unfold give_back. proj. destruct (decide (p = q)) as [<-|Hne].
      * rewrite fn_lookup_insert. unfold st in Hp. destruct (pcs s p); try discriminate Hp; cbn in Hp; injection Hp as ->; cbn [th]; proj; rewrite fn_lookup_insert; cbn [Z.eqb]; rewrite (proj1 (Hbs _)); reflexivity.
      * rewrite fn_lookup_insert_ne by exact Hne. rewrite Hq. symmetry. apply th_frame; proj.
        -- intros b Hb. rewrite (proj1 (Hbs b)). split; [reflexivity|]. unfold bs. destruct (c_write c); [reflexivity|]. rewrite fn_lookup_insert_ne; [reflexivity|].
           rewrite buf_stage in Hb. eapply (other_buf p q); eauto with virtio.
        -- intros y Hy. rewrite fn_lookup_insert_ne; [reflexivity|]. eapply (other_head p q); eauto with virtio.
Qed.

Lemma fine_device x d' : dstep (dev s) (dk s) x d' -> fine s (set_dk d' (set_dev x s)).
Proof.
  intros Hd. pose proof (v_core _ _ _ I) as HC. destruct (dstep_does _ _ _ _ Hd) as [[Ev ->]|Hdo].
  - split; [|apply sim_quiet; proj; [rewrite Ev; reflexivity | reflexivity]]. exists la, lu. apply inv_device; rewrite ?Ev; auto; apply I.
  - inversion Hdo as [v d Hne Ev1 Ed1 Ev2 Ed2|v d l1 h l2 m d1 Ht Htr Ev1 Ed1 Ev2 Ed2|v d Hse Hta Ev1 Ed1 Ev2 Ed2]; subst.
    + destruct (core_take _ _ _ _ _ HC Hne) as (h & la' & _ & Hh & HC'). split; [|apply sim_quiet; proj; rewrite <- ?Ev2; reflexivity].
      exists la', lu. apply inv_device; rewrite <- ?Ev2, ?Hh; cbn [isr]; auto; apply I.
    + eapply fine_transfer; eauto.
    + assert (la = []) by (apply (avail_empty _ _ _ _ _ HC), Hse). split; [|apply sim_quiet; proj; rewrite <- ?Ev2; reflexivity].
      exists la, lu. apply inv_device; rewrite <- ?Ev2; cbn [isr]; auto; try apply I. rewrite <- Hta. apply core_quiet; [exact HC|]. intros Hla. congruence.
Qed.
End Step.

(** ** The driver refines the atomic disk *)

Lemma step_fine s s' la lu : inv s la lu -> step N s s' -> fine s s'.
Proof.
  intros I Hs. destruct Hs as [p b w blk data s Hp Hi Hb Hblk|p s Ha|p s s' E|s s' E|s x d E].
  - eapply fine_call; eauto.
  - eapply fine_kill; eauto.
  - pose proof (rw_safe s la lu I p) as Hsafe. rewrite E in Hsafe. exact Hsafe.
  - pose proof (intr_safe s la lu I) as Hsafe. rewrite E in Hsafe. exact Hsafe.
  - eapply fine_device; eauto.
Qed.

Lemma virtio_init_inv x m : view x = View 0 [] m 0 false -> inv (init x) [] [].
Proof.
  intros Ev. constructor; cbn [init vlock dk pcs hp dev]; rewrite ?Ev; cbn [isr]; auto; try discriminate.
  - constructor; cbn; try discriminate; auto; try (intros; discriminate); try (intros h Hh; rewrite ?elem_of_nil in Hh; destruct Hh); try lia; try constructor; try lia; try reflexivity.
  - intros [p|]; cbn; split; discriminate.
Qed.

Lemma reach_inv x m s : view x = View 0 [] m 0 false -> rtc (step N) (init x) s -> exists la lu, inv s la lu.
Proof.
  intros Ev Hr. refine (rtc_invariant _ (fun s => exists la lu, inv s la lu) _ _ _ Hr _); [|eexists _, _; eapply virtio_init_inv, Ev].
  intros a b (la & lu & I) Hs. exact (proj1 (step_fine a b la lu I Hs)).
Qed.
End Run.
