(* ===== verification/VirtioSpec.v ===== *)
(** * The virtio disk driver is correct

    Two properties of every run of [Virtio.step]: the driver refines the
    atomic disk of [VirtioRun] and never panics, and whatever has happened
    the calls in progress can all return.  The second is shown by a measure
    that some step of the driver, the handler or the device lowers. *)

From S2P Require Import Prelude Memory FsDefs Virtio VirtioInv VirtioRun.
Import Virtio.

Section Progress.
Context {X : Type} `{Device X} (N : nat).
Implicit Types s : state (X := X).

(** Steps that begin no call and kill nobody. *)
Inductive goes : state -> state -> Prop :=
| goes_rw p s s' : virtio_disk_rw p s = Ret tt s' -> goes s s'
| goes_intr s s' : virtio_disk_intr s = Ret tt s' -> goes s s'
| goes_device s x d : dstep (dev s) (dk s) x d -> goes s (set_dk d (set_dev x s)).

Lemma goes_step s s' : goes s s' -> step N s s'.
Proof. intros [p a b E|a b E|a x d E]; [eapply step_rw | eapply step_intr | eapply step_device]; eauto. Qed.

(** ** The measure *)

Definition pc_weight (c : pc) : nat :=
  match c with
  | Idle => 0 | Enter _ _ | AsleepFree _ _ => 50 | Alloc _ _ => 51
  | Format _ => 49 | Ring _ => 48 | Publish _ => 47 | Notify _ => 30
  | Wait _ => 20 | AsleepBuf _ | Reenter _ => 19
  end.
Definition weights (n : nat) (f : nat -> pc) : nat := sum_list ((fun p => pc_weight (f p)) <$> seq 0 n).

(** Requests the device has not seen, and entries the handler has not. *)
Definition unseen s : nat := Z.to_nat (u16 (avail_idx (dk s) - seen (view (dev s)))).
Definition unused s : nat := Z.to_nat (u16 (used_no (dk s) - used_idx (dk s))).
Definition h_weight (h : hpc) (n : nat) : nat :=
  match h with HIdle => if (n =? 0)%nat then 0 else 7 | HEnter => 6 | HAck => 5 | HLoop => 4 | HEntry => 3 end.
Definition queued s : nat := (11 * unseen s + 10 * length (taken (view (dev s))) + 2 * unused s + h_weight (hp s) (unused s))%nat.
Definition total s : nat := (weights N (pcs s) + queued s)%nat.

Lemma weights_change n f g p k : (p < n)%nat -> (forall q, q <> p -> (pc_weight (g q) <= pc_weight (f q))%nat) -> (pc_weight (g p) + k <= pc_weight (f p))%nat ->
  (weights n g + k <= weights n f)%nat.
Proof.
  unfold weights. intros Hp Hq Hk. enough (G : forall b m, (forall q, q <> p -> (pc_weight (g q) <= pc_weight (f q))%nat) ->
    (sum_list ((fun p => pc_weight (g p)) <$> seq b m) + (if (b <=? p) && (p <? b + m) then k else 0) <= sum_list ((fun p => pc_weight (f p)) <$> seq b m))%nat).
  { specialize (G 0%nat n Hq). replace ((0 <=? p) && (p <? 0 + n))%nat with true in G by lia. exact G. }
  clear Hp. intros b m. revert b. induction m as [|m IH]; intros b Hle; [replace ((b <=? p) && (p <? b + 0))%nat with false by lia; reflexivity|].
  cbn [seq fmap list_fmap sum_list foldr]. specialize (IH (S b) Hle). destruct (decide (b = p)) as [->|Hne].
  - replace ((p <=? p) && (p <? p + S m))%nat with true by lia. replace ((S p <=? p) && (p <? S p + m))%nat with false in IH by lia. cbn in *. lia.
  - pose proof (Hle b Hne). replace ((b <=? p) && (p <? b + S m))%nat with ((S b <=? p) && (p <? S b + m))%nat by lia. cbn in *. lia.
Qed.

(** Process [p] goes from [c] to [c']. *)
Lemma weights_set n f p c' : (p < n)%nat -> (weights n (<[p := c']> f) + pc_weight (f p) = weights n f + pc_weight c')%nat.
Proof.
  unfold weights. intros Hp. enough (G : forall b m, (sum_list ((fun q => pc_weight (<[p := c']> f q)) <$> seq b m) + (if (b <=? p) && (p <? b + m) then pc_weight (f p) else 0) =
    sum_list ((fun q => pc_weight (f q)) <$> seq b m) + (if (b <=? p) && (p <? b + m) then pc_weight c' else 0))%nat).
  { specialize (G 0%nat n). replace ((0 <=? p) && (p <? 0 + n))%nat with true in G by lia. exact G. }
  intros b m. revert b. induction m as [|m IH]; intros b; [replace ((b <=? p) && (p <? b + 0))%nat with false by lia; reflexivity|].
  cbn [seq fmap list_fmap sum_list foldr]. specialize (IH (S b)). destruct (decide (b = p)) as [->|Hne].
  - rewrite fn_lookup_insert. replace ((p <=? p) && (p <? p + S m))%nat with true by lia. replace ((S p <=? p) && (p <? S p + m))%nat with false in IH by lia. cbn in *. lia.
  - rewrite fn_lookup_insert_ne by congruence. replace ((b <=? p) && (p <? b + S m))%nat with ((S b <=? p) && (p <? S b + m))%nat by lia. cbn in *. lia.
Qed.

Lemma weight_woken ch c : pc_weight (woken ch c) = pc_weight c.
Proof. destruct ch, c; cbn; try reflexivity. case_decide; reflexivity. Qed.

Lemma weights_same n f g : (forall q, pc_weight (g q) = pc_weight (f q)) -> weights n g = weights n f.
Proof. intros E. unfold weights. f_equal. apply list_fmap_ext. intros i x _. apply E. Qed.

(** A step of process [p] that lowers its weight by [k]. *)
Lemma total_pcs s s' p k : (p < N)%nat -> queued s' = queued s -> (forall q, q <> p -> pc_weight (pcs s' q) = pc_weight (pcs s q)) ->
  (pc_weight (pcs s' p) + k <= pc_weight (pcs s p))%nat -> (k + total s' <= total s)%nat.
Proof.
  intros Hp Hq Ho Hk. unfold total. rewrite Hq. pose proof (weights_change N (pcs s) (pcs s') p k Hp) as Hw. specialize (Hw (fun q Hne => Nat.eq_le_incl _ _ (Ho q Hne)) Hk). lia.
Qed.

Section At.
Context s la lu (I : inv N s la lu).

Lemma unseen_la : unseen s = length la.
Proof.
  pose proof (heads_le _ _ _ _ _ (v_core _ _ _ _ I)) as Hl. rewrite length_app in Hl. unfold unseen. destruct (k_avail _ _ _ _ _ (v_core _ _ _ _ I)) as [Hs ->]. unfold u16. zdiv.
Qed.
Lemma unused_lu : unused s = length lu.
Proof.
  pose proof (heads_le _ _ _ _ _ (v_core _ _ _ _ I)) as Hl. rewrite !length_app in Hl. unfold unused. destruct (k_used _ _ _ _ _ (v_core _ _ _ _ I)) as [Hs ->]. unfold u16. zdiv.
Qed.

Lemma held_in p : has_lock (pcs s p) = true -> (p < N)%nat.
Proof. intros Hp. apply (in_table N s la lu I). intros E. rewrite E in Hp. discriminate Hp. Qed.

(** ** The process that has the lock *)

Lemma alloc_less p b w : pcs s p = Alloc b w ->
  exists s', virtio_disk_rw p s = Ret tt s' /\ (total s' < total s)%nat /\ ((forall i, 0 <= i < NUM -> free (dk s) i = true) -> (2 + total s' <= total s)%nat).
Proof.
  intros Hp. pose proof (held_in p ltac:(rewrite Hp; reflexivity)) as HN. unfold virtio_disk_rw, mbind, M_bind, gets. rewrite Hp.
  destruct (alloc3_desc_run s) as [(s' & -> & (j & Hj & Hfj) & fr & ds & pcs' & -> & Hfr & Hds & Hpcs)|(i0 & i1 & i2 & -> & Hr & Hne & Hf)]; cbn; eexists; (split; [reflexivity|]).
  - split; [|intros Hall; rewrite (Hall j Hj) in Hfj; discriminate Hfj].
    enough (Ht : (1 + total (set_pcs (<[p := AsleepFree b w]> pcs') (set_vlock None (State (vlock s) (set_free fr (set_desc ds (dk s))) pcs' (hp s) (dev s)))) <= total s)%nat) by exact Ht.
    apply (total_pcs _ _ p); auto; proj; [|rewrite fn_lookup_insert, Hp; cbn; lia].
    intros q Hq. rewrite fn_lookup_insert_ne by congruence. destruct (Hpcs q) as [->| ->]; [reflexivity | apply weight_woken].
  - enough (Ht : (2 + total (set_pcs (<[p := Format (Call b w i0 i1 i2)]> (pcs s)) (taken_at i2 (taken_at i1 (taken_at i0 s)))) <= total s)%nat) by (split; [unfold lt; etransitivity; [|exact Ht]; apply le_S, le_n | intros _; exact Ht]).
    apply (total_pcs _ _ p); auto; proj; [|rewrite fn_lookup_insert, Hp; cbn; lia]. intros q Hq. rewrite fn_lookup_insert_ne by congruence. reflexivity.
Qed.

(** One step forward in the code of [virtio_disk_rw]. *)
Lemma plain_less p c' s' k : pc_weight c' = (pc_weight (pcs s p) - k)%nat -> (k <= pc_weight (pcs s p))%nat -> (p < N)%nat -> pcs s' = <[p := c']> (pcs s) ->
  queued s' = queued s -> (k + total s' <= total s)%nat.
Proof.
  intros Hw Hk Hp Ep Eq. apply (total_pcs _ _ p); auto.
  - intros q Hq. rewrite Ep, fn_lookup_insert_ne by congruence. reflexivity.
  - rewrite Ep, fn_lookup_insert. lia.
Qed.

Lemma publish_less p c : pcs s p = Publish c -> exists s', virtio_disk_rw p s = Ret tt s' /\ (total s' < total s)%nat.
Proof.
  intros Hp. pose proof (held_in p ltac:(rewrite Hp; reflexivity)) as HN. unfold virtio_disk_rw, mbind, M_bind, gets. rewrite Hp. unfold upd, goto, modify.
  eexists. split; [reflexivity|]. proj. pose proof unseen_la as Hu. pose proof (heads_le _ _ _ _ _ (v_core _ _ _ _ I)) as Hl. rewrite length_app in Hl.
  set (s' := set_pcs _ _). assert (Hq : (queued s' = queued s + 11)%nat).
  { unfold queued. assert (Hu' : unseen s' = S (unseen s)).
    { rewrite Hu. unfold unseen, s'. proj. destruct (k_avail _ _ _ _ _ (v_core _ _ _ _ I)) as [Hs ->]. unfold u16. zdiv. }
    rewrite Hu'. change (unused s') with (unused s). cbn [hp dev s' set_pcs set_dk taken]. lia. }
  pose proof (weights_change N (pcs s) (pcs s') p 17 HN) as Hw. unfold total. rewrite Hq.
  enough ((weights N (pcs s') + 17 <= weights N (pcs s))%nat) by lia. apply Hw.
  - intros q Hne. unfold s'. proj. rewrite fn_lookup_insert_ne by congruence. reflexivity.
  - unfold s'. proj. rewrite fn_lookup_insert, Hp. reflexivity.
Qed.

Lemma wait_less p c : pcs s p = Wait c -> exists s', virtio_disk_rw p s = Ret tt s' /\ (total s' < total s)%nat /\
  (b_disk (bufs (dk s) (c_buf c)) <> 1 -> (20 + total s' <= total s)%nat).
Proof.
  intros Hp. pose proof (held_in p ltac:(rewrite Hp; reflexivity)) as HN. assert (Hs : st s p = SSub c) by (unfold st; rewrite Hp; reflexivity).
  unfold virtio_disk_rw, mbind, M_bind, gets. rewrite Hp. destruct (Z.eqb_spec (b_disk (bufs (dk s) (c_buf c))) 1) as [Eb|Eb].
  - unfold sleep, unlock, goto, mbind, M_bind, modify. eexists. split; [reflexivity|]. split; [|congruence].
    apply (plain_less p (AsleepBuf c) _ 1); rewrite ?Hp; auto; cbn; lia.
  - pose proof (v_core _ _ _ _ I) as HC. pose proof (k_held _ _ _ _ _ HC p c ltac:(rewrite Hs; reflexivity)) as Hh.
    pose proof (k_chain _ _ _ _ _ HC p c ltac:(rewrite Hs; reflexivity)) as [E0 E1 E2 _ _].
    unfold upd at 1, modify at 1. rewrite (free_chain_run c); [|exact Hh | exact E0 | exact E1 | exact E2]. unfold unlock, goto, modify.
    eexists. split; [reflexivity|]. match goal with |- (total ?x < _)%nat /\ _ => enough (Ht : (20 + total x <= total s)%nat) by (split; [lia | intros _; exact Ht]) end.
    apply (total_pcs _ _ p); auto; unfold freed; proj; [|rewrite fn_lookup_insert, Hp; cbn; lia].
    intros q Hq. rewrite fn_lookup_insert_ne by congruence. rewrite !weight_woken. reflexivity.
Qed.

Lemma holder_less p : has_lock (pcs s p) = true -> exists s', virtio_disk_rw p s = Ret tt s' /\ (total s' < total s)%nat.
Proof.
  intros Hl. pose proof (held_in p Hl) as HN. destruct (pcs s p) eqn:Hp; try discriminate Hl.
  - destruct (alloc_less p b w Hp) as (s' & E & Hlt & _). eauto.
  - unfold virtio_disk_rw, mbind, M_bind, gets. rewrite Hp. eexists. split; [reflexivity|]. apply (plain_less p (Ring c) _ 1); rewrite ?Hp; auto; cbn; lia.
  - unfold virtio_disk_rw, mbind, M_bind, gets. rewrite Hp. eexists. split; [reflexivity|]. apply (plain_less p (Publish c) _ 1); rewrite ?Hp; auto; cbn; lia.
  - exact (publish_less p c Hp).
  - unfold virtio_disk_rw, mbind, M_bind, gets. rewrite Hp. eexists. split; [reflexivity|].
    match goal with |- (total ?x < _)%nat => enough (Ht : (10 + total x <= total s)%nat) by lia end.
    apply (plain_less p (Wait c) _ 10); rewrite ?Hp; auto; cbn; try lia. unfold queued, unseen, unused. proj. rewrite notify_view. reflexivity.
  - destruct (wait_less p c Hp) as (s' & E & Hlt & _). eauto.
Qed.

(** ** The handler and the device *)

Lemma handler_less : h_lock (hp s) = true \/ hp s = HEnter /\ vlock s = None \/ hp s = HIdle /\ lu <> [] ->
  exists s', virtio_disk_intr s = Ret tt s' /\ (total s' < total s)%nat.
Proof.
  intros Hh. pose proof unused_lu as Hu. pose proof (used_empty _ _ _ _ _ (v_core _ _ _ _ I)) as He. unfold virtio_disk_intr, mbind, M_bind, gets, get.
  destruct (hp s) eqn:Eh.
  - destruct Hh as [Hh|[[Hh _]|[_ Hh]]]; try discriminate Hh. destruct (v_intr _ _ _ _ I Hh) as [->|Hn]; [|congruence]. cbn [Z.eqb]. unfold modify. eexists. split; [reflexivity|].
    unfold total, queued, unseen, unused in *. proj. rewrite Eh, Hu. cbn [h_weight]. destruct lu; [congruence|]. cbn [length Nat.eqb]. lia.
  - destruct Hh as [Hh|[[_ Hh]|[Hh _]]]; try discriminate Hh. unfold lock. rewrite Hh. unfold modify. eexists. split; [reflexivity|].
    unfold total, queued, unseen, unused in *. proj. rewrite Eh. cbn [h_weight]. lia.
  - unfold modify. eexists. split; [reflexivity|]. unfold total, queued, unseen, unused in *. proj. rewrite Eh, ack_view. cbn [h_weight seen taken]. lia.
  - destruct (Z.eqb_spec (used_idx (dk s)) (used_no (dk s))) as [E|E]; cbn [negb]; unfold unlock, modify; eexists; (split; [reflexivity|]); unfold total, queued, unseen, unused in *; proj; rewrite Eh.
    + apply He in E. rewrite E in Hu. rewrite Hu. cbn [h_weight length Nat.eqb]. lia.
    + cbn [h_weight]. lia.
  - pose proof (v_entry _ _ _ _ I Eh) as Hne. destruct lu as [|h lu'] eqn:Elu; [congruence|].
    destruct (used_head _ _ _ _ _ (v_core _ _ _ _ I) h lu' eq_refl) as (p & c & _ & _ & _ & -> & -> & Eb). cbn [panic_if negb Z.eqb].
    unfold mret, M_ret, upd, wakeup, modify. proj. rewrite Eb. eexists. split; [reflexivity|]. unfold total, queued.
    assert (Hw : weights N (fun q => woken (ChBuf (c_buf c)) (pcs s q)) = weights N (pcs s)) by (apply weights_same; intros q; apply weight_woken).
    pose proof (heads_le _ _ _ _ _ (v_core _ _ _ _ I)) as Hl. rewrite !length_app in Hl. destruct (k_used _ _ _ _ _ (v_core _ _ _ _ I)) as [Hs Hno].
    match goal with |- context [unused ?x] => assert (Hu' : S (unused x) = unused s) end.
    { rewrite Hu. unfold unused. proj. rewrite Hno. cbn [length] in *. unfold u16. zdiv. }
    rewrite <- Hu'. proj. rewrite Hw, Eh. cbn [h_weight]. unfold unseen. proj. lia.
Qed.

Lemma h_weight_7 h n m : (h_weight h n <= h_weight h m + 7)%nat.
Proof. destruct h; cbn; repeat case_match; lia. Qed.

Lemma device_less : taken (view (dev s)) <> [] -> exists s', goes s s' /\ (total s' < total s)%nat.
Proof.
  intros Ht. destruct (taken (view (dev s))) as [|h l] eqn:Et; [congruence|]. pose proof (v_core _ _ _ _ I) as HC.
  destruct (k_heads _ _ _ _ _ HC h) as (p & c & Hp & Hc & _); [rewrite Et, !elem_of_app, elem_of_cons; auto|]. subst h.
  pose proof (transfer_chain c (view (dev s)) (dk s) (k_chain _ _ _ _ _ HC p c (sub_fmt _ _ Hp)) (k_blk _ _ _ _ _ HC p _ (own_sbuf _ _ (sub_own _ _ Hp)))) as Hx.
  cbv zeta in Hx. destruct (transfer (c_i0 c) (view (dev s)) (dk s)) as [[m d']|] eqn:Ex; [|discriminate Hx].
  destruct (dstep_finishes (dev s) (dk s) (c_i0 c) l m d' Et Ex) as (x & Hd & Ev). eexists. split; [apply goes_device; exact Hd|].
  assert (Hd' : avail_idx d' = avail_idx (dk s) /\ used_no d' = used_no (dk s) /\ used_idx d' = used_idx (dk s)) by (injection Hx as Hx; destruct (c_write c); injection Hx as _ ->; auto).
  destruct Hd' as (Ha & Hn & Hi). unfold total, queued. proj. rewrite Ev. cbn [taken]. rewrite Et. pose proof unused_lu as Hu.
  pose proof (heads_le _ _ _ _ _ HC) as Hl. rewrite Et, !length_app in Hl. cbn [length] in Hl |- *. destruct (k_used _ _ _ _ _ HC) as [Hs Hno].
  match goal with |- context [unused ?x] => assert (Hu' : unused x = S (unused s)); [|pose proof (h_weight_7 (hp s) (unused x) (unused s)) as H7; assert (Hse : unseen x = unseen s)] end.
  - rewrite Hu. unfold unused, give_back. proj. rewrite Hn, Hi, Hno. unfold u16. zdiv.
  - unfold unseen, give_back. proj. rewrite Ha, Ev. reflexivity.
  - rewrite Hse, Hu' in *. lia.
Qed.

Lemma take_less : la <> [] -> vlock s = None -> exists s', goes s s' /\ (total s' < total s)%nat.
Proof.
  intros Hla Hv. pose proof (v_core _ _ _ _ I) as HC. assert (Hne : seen (view (dev s)) <> avail_idx (dk s)) by (intros E; apply Hla, (avail_empty _ _ _ _ _ HC), E).
  assert (Haw : awake (view (dev s)) = true).
  { destruct (k_awake _ _ _ _ _ HC Hla) as [|(p & c & Hp)]; [assumption|]. exfalso. assert (E : vlock s = Some (Proc p)); [|congruence]. apply I. cbn.
    unfold st in Hp. destruct (pcs s p); try discriminate Hp. reflexivity. }
  destruct (dstep_takes (dev s) (dk s) Haw Hne) as (x & Hd & Hdo & Hse). eexists. split; [apply goes_device; exact Hd|].
  assert (Ht : length (taken (view x)) = S (length (taken (view (dev s))))).
  { inversion Hdo as [v d E1 Ev1 Ed1 Ev2 Ed2|v d l1 h l2 m d1 Et Htr Ev1 Ed1 Ev2 Ed2|v d Hs Hta Ev1 Ed1 Ev2 Ed2]; subst.
    - cbn [taken]. rewrite length_app. cbn. lia.
    - exfalso. rewrite <- Ev2 in Hse. cbn [seen] in Hse. destruct (k_avail _ _ _ _ _ HC) as [Hr _]. revert Hse. unfold u16. zdiv.
    - congruence. }
  pose proof unseen_la as Hu. pose proof (heads_le _ _ _ _ _ HC) as Hl. rewrite length_app in Hl. destruct (k_avail _ _ _ _ _ HC) as [Hs Ha]. destruct la as [|h l]; [congruence|].
  unfold total, queued. proj. rewrite Ht. match goal with |- context [unseen ?x] => assert (Hu' : S (unseen x) = unseen s) end.
  { rewrite Hu. unfold unseen. proj. rewrite Hse, Ha. cbn [length] in *. unfold u16. zdiv. }
  rewrite <- Hu'. unfold unused. proj. lia.
Qed.

End At.

(** ** Nothing is queued and nobody has the lock *)

Section Free.
Context s la lu (I : inv N s la lu) (Hv : vlock s = None) (Hla : la = []) (Hta : taken (view (dev s)) = []) (Hlu : lu = []).

Lemma no_lock p : has_lock (pcs s p) = false.
Proof. destruct (has_lock (pcs s p)) eqn:E; [|reflexivity]. assert (vlock s = Some (Proc p)) by (apply I; exact E). congruence. Qed.

(** A call that has its descriptors has been served: it can return. *)
Lemma owner_less q c : own (st s q) = Some c -> exists s', tc goes s s' /\ (total s' < total s)%nat.
Proof.
  intros Ho. pose proof (no_lock q) as Hn. pose proof (v_core _ _ _ _ I) as HC. unfold st in Ho.
  assert (Hs : st s q = SSub c) by (unfold st; destruct (pcs s q); try discriminate Hn; try discriminate Ho; cbn in Ho |- *; congruence).
  assert (Hb : b_disk (bufs (dk s) (c_buf c)) = 0).
  { destruct (k_sub _ _ _ _ _ HC q c ltac:(rewrite Hs; reflexivity)) as [[_ Hx]|[Hx _]]; [|exact Hx]. rewrite Hla, Hta, Hlu in Hx. apply elem_of_nil in Hx. destruct Hx. }
  assert (Hp : pcs s q = Reenter c).
  { unfold st in Hs. destruct (pcs s q) eqn:E; try discriminate Hs; try discriminate Hn; cbn in Hs; injection Hs as ->; [|reflexivity]. pose proof (v_sleep _ _ _ _ I q c E). congruence. }
  assert (HN : (q < N)%nat) by (apply (in_table N s la lu I); congruence).
  assert (E1 : virtio_disk_rw q s = Ret tt (set_pcs (<[q := Wait c]> (pcs s)) (set_vlock (Some (Proc q)) s))).
  { unfold virtio_disk_rw, mbind, M_bind, gets. rewrite Hp. unfold lock. rewrite Hv. reflexivity. }
  set (s1 := set_pcs _ _) in E1. destruct (step_fine N s s1 la lu I) as [(la1 & lu1 & I1) _]; [eapply step_rw; exact E1|].
  assert (Hw : pcs s1 q = Wait c) by (unfold s1; proj; apply fn_lookup_insert).
  assert (Ht : (total s1 <= total s + 1)%nat).
  { unfold total. change (queued s1) with (queued s). change (pcs s1) with (<[q := Wait c]> (pcs s)). pose proof (weights_set N (pcs s) q (Wait c) HN) as Hws. rewrite Hp in Hws. cbn [pc_weight] in Hws. lia. }
  destruct (wait_less s1 la1 lu1 I1 q c Hw) as (s2 & E2 & _ & Hlt). exists s2. split; [|specialize (Hlt ltac:(unfold s1; proj; congruence)); lia].
  eapply tc_l; [eapply goes_rw; exact E1|]. apply tc_once. eapply goes_rw. exact E2.
Qed.

(** All descriptors are free: a call that comes in gets three. *)
Lemma enter_less p b w : pcs s p = Enter b w -> (forall i, 0 <= i < NUM -> free (dk s) i = true) -> exists s', tc goes s s' /\ (total s' < total s)%nat.
Proof.
  intros Hp Hall. assert (HN : (p < N)%nat) by (apply (in_table N s la lu I); congruence).
  assert (E1 : virtio_disk_rw p s = Ret tt (set_pcs (<[p := Alloc b w]> (pcs s)) (set_vlock (Some (Proc p)) s))).
  { unfold virtio_disk_rw, mbind, M_bind, gets. rewrite Hp. unfold lock. rewrite Hv. reflexivity. }
  set (s1 := set_pcs _ _) in E1. destruct (step_fine N s s1 la lu I) as [(la1 & lu1 & I1) _]; [eapply step_rw; exact E1|].
  assert (Hw : pcs s1 p = Alloc b w) by (unfold s1; proj; apply fn_lookup_insert).
  assert (Ht : (total s1 <= total s + 1)%nat).
  { unfold total. change (queued s1) with (queued s). change (pcs s1) with (<[p := Alloc b w]> (pcs s)). pose proof (weights_set N (pcs s) p (Alloc b w) HN) as Hws. rewrite Hp in Hws. cbn [pc_weight] in Hws. lia. }
  destruct (alloc_less s1 la1 lu1 I1 p b w Hw) as (s2 & E2 & _ & Hlt). exists s2. split; [|specialize (Hlt Hall); lia].
  eapply tc_l; [eapply goes_rw; exact E1|]. apply tc_once. eapply goes_rw. exact E2.
Qed.

Lemma quiet_less p : pcs s p <> Idle -> exists s', tc goes s s' /\ (total s' < total s)%nat.
Proof.
  intros Hi. destruct (existsb (fun i => negb (free (dk s) i)) (seqZ 0 NUM)) eqn:Ef.
  - apply existsb_exists in Ef. destruct Ef as (i & Hin & Hf). apply list_elem_of_In, elem_of_seqZ in Hin.
    destruct (k_free _ _ _ _ _ (v_core _ _ _ _ I) i ltac:(lia)) as (q & c & Hq & _); [destruct (free (dk s) i); [discriminate Hf | reflexivity]|].
    exact (owner_less q c Hq).
  - assert (Hall : forall i, 0 <= i < NUM -> free (dk s) i = true).
    { intros i Hr. destruct (free (dk s) i) eqn:E; [reflexivity|]. assert (Hx : existsb (fun i => negb (free (dk s) i)) (seqZ 0 NUM) = true); [|congruence].
      apply existsb_exists. exists i. split; [apply list_elem_of_In, elem_of_seqZ; lia | rewrite E; reflexivity]. }
    assert (Hno : forall q c, own (st s q) <> Some c).
    { intros q c Hq. pose proof (k_held _ _ _ _ _ (v_core _ _ _ _ I) q c Hq) as Hh. pose proof (hd_taken _ _ Hh (c_i0 c) (or_introl eq_refl)) as Hf.
      rewrite Hall in Hf; [discriminate Hf|]. apply (hd_range _ _ Hh). left. reflexivity. }
    pose proof (no_lock p) as Hn. destruct (pcs s p) eqn:Hp; try discriminate Hn; try congruence.
    + exact (enter_less p b w Hp Hall).
    + destruct (v_full _ _ _ _ I p b w Hp) as (q & c & Hq). destruct (Hno q c Hq).
    + destruct (Hno p c). unfold st. rewrite Hp. reflexivity.
    + destruct (Hno p c). unfold st. rewrite Hp. reflexivity.
Qed.
End Free.

(** ** Every call can return *)

Lemma progress s la lu p : inv N s la lu -> pcs s p <> Idle -> exists s', tc goes s s' /\ (total s' < total s)%nat.
Proof.
  intros I Hp. assert (One : forall q, (exists s', virtio_disk_rw q s = Ret tt s' /\ (total s' < total s)%nat) -> exists s', tc goes s s' /\ (total s' < total s)%nat).
  { intros q (s' & E & Hlt). exists s'. split; [apply tc_once; eapply goes_rw; exact E | exact Hlt]. }
  assert (Hand : (exists s', virtio_disk_intr s = Ret tt s' /\ (total s' < total s)%nat) -> exists s', tc goes s s' /\ (total s' < total s)%nat).
  { intros (s' & E & Hlt). exists s'. split; [apply tc_once; eapply goes_intr; exact E | exact Hlt]. }
  assert (Dev : (exists s', goes s s' /\ (total s' < total s)%nat) -> exists s', tc goes s s' /\ (total s' < total s)%nat).
  { intros (s' & E & Hlt). exists s'. split; [apply tc_once; exact E | exact Hlt]. }
  destruct (vlock s) as [[q|]|] eqn:Hv.
  - apply (One q), (holder_less s la lu I). apply (v_lock _ _ _ _ I (Proc q)). exact Hv.
  - apply Hand, (handler_less s la lu I). left. apply (v_lock _ _ _ _ I Handler). exact Hv.
  - assert (Hh : h_lock (hp s) = false) by (destruct (h_lock (hp s)) eqn:E; [|reflexivity]; assert (vlock s = Some Handler) by (apply I; exact E); congruence).
    destruct (hp s) eqn:Eh; try discriminate Hh; [|apply Hand, (handler_less s la lu I); auto].
    destruct (decide (lu = [])) as [Hlu|Hlu]; [|apply Hand, (handler_less s la lu I); auto].
    destruct (decide (taken (view (dev s)) = [])) as [Hta|Hta]; [|apply Dev, (device_less s la lu I Hta)].
    destruct (decide (la = [])) as [Hla|Hla]; [|apply Dev, (take_less s la lu I Hla Hv)].
    exact (quiet_less s la lu I Hv Hla Hta Hlu p Hp).
Qed.

Definition idle (c : pc) : bool := match c with Idle => true | _ => false end.

Lemma completes n s la lu : (total s <= n)%nat -> inv N s la lu -> exists s', rtc goes s s' /\ forall p, pcs s' p = Idle.
Proof.
  revert s la lu. induction n as [n IH] using lt_wf_ind. intros s la lu Hn I. destruct (existsb (fun p => negb (idle (pcs s p))) (seq 0 N)) eqn:E.
  - apply existsb_exists in E. destruct E as (p & _ & Hp). destruct (progress s la lu p I) as (s' & Hs & Hlt); [intros E; rewrite E in Hp; discriminate Hp|].
    assert (Hr : rtc (step N) s s') by (eapply rtc_subrel; [|apply tc_rtc, Hs]; exact goes_step).
    assert (HI : exists la' lu', inv N s' la' lu').
    { refine (rtc_invariant _ (fun s => exists la lu, inv N s la lu) _ _ _ Hr _); [|eauto]. intros a b (la1 & lu1 & I1) Hab. exact (proj1 (step_fine N a b la1 lu1 I1 Hab)). }
    destruct HI as (la' & lu' & I'). destruct (IH (total s') ltac:(lia) s' la' lu' (le_n _) I') as (s2 & Hs2 & Hidle). exists s2. split; [|exact Hidle].
    etransitivity; [apply tc_rtc; exact Hs | exact Hs2].
  - exists s. split; [constructor|]. intros p. destruct (decide (p < N)%nat) as [Hlt|Hge]; [|apply I; lia].
    destruct (idle (pcs s p)) eqn:Ei; [destruct (pcs s p); try discriminate Ei; reflexivity|]. exfalso.
    assert (existsb (fun p => negb (idle (pcs s p))) (seq 0 N) = true); [|congruence]. apply existsb_exists. exists p. split; [apply in_seq; lia | rewrite Ei; reflexivity].
Qed.
End Progress.

(** Neither a panic nor an endless loop. *)
Definition no_panic {S} (o : outcome S unit) : Prop := match o with Ret _ _ | Block _ => True | _ => False end.

(** A device that does what is documented and nothing else. *)
#[export, refine] Instance plain_device : Device dview := {|
  view x := x;
  dstep := device_does;
  notify x := View (seen x) (taken x) (platter x) (isr x) true;
  ack n x := View (seen x) (taken x) (platter x) (Z.ldiff (isr x) n) (awake x)
|}.
Proof.
  - intros x d x' d' Hd. right. exact Hd.
  - intros x d _ Hne. eexists. split; [apply does_take; exact Hne|]. split; [apply does_take; exact Hne | reflexivity].
  - intros x d h l m d' Ht Hx. eexists. split; [apply (does_transfer x d [] h l m d'); assumption | reflexivity].
  - reflexivity.
  - reflexivity.
Defined.

(** ** Running it *)

Inductive act := ARw (p : nat) | AIntr | ATake | AFinish.

Definition act_step (a : act) (s : state (X := dview)) : state :=
  match a with
  | ARw p => match virtio_disk_rw p s with Ret _ s' => s' | _ => s end
  | AIntr => match virtio_disk_intr s with Ret _ s' => s' | _ => s end
  | ATake =>
      let v := dev s in
      if decide (seen v = avail_idx (dk s)) then s
      else set_dk (dk s) (set_dev (View (u16 (seen v + 1)) (taken v ++ [avail_ring (dk s) (seen v mod NUM)]) (platter v) (isr v) (awake v)) s)
  | AFinish =>
      let v := dev s in
      match taken v with
      | [] => s
      | h :: l =>
          match transfer h v (dk s) with
          | Some (m, d) => set_dk (give_back h d) (set_dev (View (seen v) l m (Z.lor (isr v) 1) (awake v)) s)
          | None => s
          end
      end
  end.

Lemma act_goes a s : rtc goes s (act_step a s).
Proof.
  destruct a as [p| | |]; cbn [act_step].
  - destruct (virtio_disk_rw p s) as [[] s'| | |] eqn:E; try apply rtc_refl. apply rtc_once, (goes_rw p), E.
  - destruct (virtio_disk_intr s) as [[] s'| | |] eqn:E; try apply rtc_refl. apply rtc_once, goes_intr, E.
  - case_decide as E; [apply rtc_refl|]. apply rtc_once, goes_device. exact (does_take (dev s) (dk s) E).
  - destruct (taken (dev s)) as [|h l] eqn:Et; [apply rtc_refl|]. destruct (transfer h (dev s) (dk s)) as [[m d]|] eqn:Ex; [|apply rtc_refl].
    apply rtc_once, goes_device. exact (does_transfer (dev s) (dk s) [] h l m d Et Ex).
Qed.

Definition acts (l : list act) (s : state) : state := foldl (fun s a => act_step a s) s l.

Lemma acts_reach N l s : rtc (step N) s (acts l s).
Proof.
  revert s. induction l as [|a l IH]; intros s; [apply rtc_refl|]. cbn. etransitivity; [|apply IH]. eapply rtc_subrel; [|apply act_goes]. intros x y. apply goes_step.
Qed.

(** The processes in [calls] have just called, each with a buffer of its own. *)
Definition calling (p : nat) (w : bool) (blk : Z) (data : mem) (s : state (X := dview)) : state :=
  set_dk (set_bufs (<[p := Buf blk data (b_disk (bufs (dk s) p))]> (bufs (dk s))) (dk s)) (set_pcs (<[p := Enter p w]> (pcs s)) s).

Lemma calling_reach N p w blk data s0 s : rtc (step N) s0 s -> (p < N)%nat -> pcs s p = Idle -> (forall q, buf_of (pcs s q) <> Some p) -> 0 <= blk < 2 ^ 31 ->
  rtc (step N) s0 (calling p w blk data s).
Proof. intros. eapply rtc_r; [eassumption|]. apply step_call; assumption. Qed.

Definition dev0 : dview := View 0 [] zeroes 0 false.
Definition write_demo : state := acts ([ARw 0; ARw 0; ARw 0; ARw 0; ARw 0; ARw 0; ATake; AFinish; ARw 0; AIntr; AIntr; AIntr; AIntr; AIntr; AIntr; ARw 0; ARw 0])
  (calling 0 true 3 (fun _ => x41) (init dev0)).

Lemma write_demo_reach : rtc (step 1) (init dev0) write_demo.
Proof. unfold write_demo. etransitivity; [|apply acts_reach]. apply calling_reach; [apply rtc_refl | lia | reflexivity | discriminate | lia]. Qed.
Lemma write_demo_end : pcs write_demo 0%nat = Idle /\ platter (dev write_demo) (3 * BSIZE + 7) = x41.
Proof. vm_compute. auto. Qed.

Definition full_demo : state :=
  acts (replicate 7 (ARw 0) ++ replicate 7 (ARw 1) ++ [ARw 2; ARw 2])
    (calling 2 false 12 zeroes (calling 1 true 11 zeroes (calling 0 false 10 zeroes (init dev0)))).

Lemma full_demo_reach : rtc (step 3) (init dev0) full_demo.
Proof.
  unfold full_demo. etransitivity; [|apply acts_reach].
  apply calling_reach; [apply calling_reach; [apply calling_reach; [apply rtc_refl|..]|..]|..]; try lia; try reflexivity; [discriminate | intros [|[]]; discriminate | intros [|[|[]]]; discriminate].
Qed.
Lemma full_demo_end : pcs full_demo 2%nat = AsleepFree 2 false.
Proof. vm_compute. reflexivity. Qed.



(** C10: No call of [virtio_disk_rw] is ever stuck: from every state that can
    be reached, with a device that serves the requests it is notified of, the
    driver, the handler and the device can go on, without new calls, until
    every call has returned.  So no notification, interrupt or wakeup is lost
    and waiting for descriptors does not deadlock. *)
Theorem virtio_completes {X} `{Device X} (N : nat) (x : X) (m : mem) (s : state (X := X)) :
  view x = View 0 [] m 0 false -> rtc (step N) (init x) s -> exists s', rtc goes s s' /\ forall p, pcs s' p = Idle.
Proof. intros Ev Hr. destruct (reach_inv N x m s Ev Hr) as (la & lu & I). exact (completes N _ s la lu (le_n _) I). Qed.

(** Three processes call at once: there are descriptors for two of them. *)
Lemma virtio_completes_witness : pcs full_demo 2%nat = AsleepFree 2 false /\ exists s', rtc goes full_demo s' /\ forall p, pcs s' p = Idle.
Proof. split; [exact full_demo_end|]. exact (virtio_completes 3 dev0 zeroes full_demo eq_refl full_demo_reach). Defined.
