(* ===== verification/VirtioInit.v ===== *)
(** * Bringing up the virtio disk: virtio_disk_init of kernel/virtio_disk.c

    The initialisation writes and reads the device's registers and allocates
    the pages of the three rings.  The device is a parameter [reads]: what a
    register reads as after the given writes of registers. *)

From S2P Require Import Prelude Memory Riscv Kalloc Virtio.

Module VirtioInit.
Import Virtio.

Definition VIRTIO_MMIO_MAGIC_VALUE : Z := 0x000.
Definition VIRTIO_MMIO_VERSION : Z := 0x004.
Definition VIRTIO_MMIO_DEVICE_ID : Z := 0x008.
Definition VIRTIO_MMIO_VENDOR_ID : Z := 0x00c.
Definition VIRTIO_MMIO_DEVICE_FEATURES : Z := 0x010.
Definition VIRTIO_MMIO_DRIVER_FEATURES : Z := 0x020.
Definition VIRTIO_MMIO_QUEUE_SEL : Z := 0x030.
Definition VIRTIO_MMIO_QUEUE_NUM_MAX : Z := 0x034.
Definition VIRTIO_MMIO_QUEUE_NUM : Z := 0x038.
Definition VIRTIO_MMIO_QUEUE_READY : Z := 0x044.
Definition VIRTIO_MMIO_STATUS : Z := 0x070.
Definition VIRTIO_MMIO_QUEUE_DESC_LOW : Z := 0x080.
Definition VIRTIO_MMIO_QUEUE_DESC_HIGH : Z := 0x084.
Definition VIRTIO_MMIO_DRIVER_DESC_LOW : Z := 0x090.
Definition VIRTIO_MMIO_DRIVER_DESC_HIGH : Z := 0x094.
Definition VIRTIO_MMIO_DEVICE_DESC_LOW : Z := 0x0a0.
Definition VIRTIO_MMIO_DEVICE_DESC_HIGH : Z := 0x0a4.

Definition VIRTIO_CONFIG_S_ACKNOWLEDGE : Z := 1.
Definition VIRTIO_CONFIG_S_DRIVER : Z := 2.
Definition VIRTIO_CONFIG_S_DRIVER_OK : Z := 4.
Definition VIRTIO_CONFIG_S_FEATURES_OK : Z := 8.

Definition VIRTIO_BLK_F_RO : Z := 5.
Definition VIRTIO_BLK_F_SCSI : Z := 7.
Definition VIRTIO_BLK_F_CONFIG_WCE : Z := 11.
Definition VIRTIO_BLK_F_MQ : Z := 12.
Definition VIRTIO_F_ANY_LAYOUT : Z := 27.
Definition VIRTIO_RING_F_INDIRECT_DESC : Z := 28.
Definition VIRTIO_RING_F_EVENT_IDX : Z := 29.

(** The page allocator, the registers written so far, the fields of [disk]
    that are set. *)
Record ini := Ini {
  i_k : kstate;
  i_writes : list (Z * Z);
  i_desc : Z;
  i_avail : Z;
  i_used : Z;
  i_free : Z -> bool
}.

Definition set_k k s := Ini k (i_writes s) (i_desc s) (i_avail s) (i_used s) (i_free s).
Definition set_writes w s := Ini (i_k s) w (i_desc s) (i_avail s) (i_used s) (i_free s).
Definition set_desc_page p s := Ini (i_k s) (i_writes s) p (i_avail s) (i_used s) (i_free s).
Definition set_avail_page p s := Ini (i_k s) (i_writes s) (i_desc s) p (i_used s) (i_free s).
Definition set_used_page p s := Ini (i_k s) (i_writes s) (i_desc s) (i_avail s) p (i_free s).
Definition set_ifree f s := Ini (i_k s) (i_writes s) (i_desc s) (i_avail s) (i_used s) f.

Section Device.
Context (reads : list (Z * Z) -> Z -> Z).

(** [*R(r)] and [*R(r) = v], a 32-bit register *)
Definition rd (r : Z) : M ini Z := gets (fun s => u32 (reads (i_writes s) r)).
Definition wr (r v : Z) : M ini unit := modify (fun s => set_writes (i_writes s ++ [(r, u32 v)]) s).

(** [features &= ~(1 << n)] *)
Definition without (n features : Z) : Z := Z.land features (Z.lnot (Z.shiftl 1 n)).

Definition negotiate (features : Z) : Z :=
  without VIRTIO_RING_F_INDIRECT_DESC (without VIRTIO_RING_F_EVENT_IDX (without VIRTIO_F_ANY_LAYOUT
    (without VIRTIO_BLK_F_MQ (without VIRTIO_BLK_F_CONFIG_WCE (without VIRTIO_BLK_F_SCSI (without VIRTIO_BLK_F_RO features)))))).

Definition ialloc_page (set : Z -> ini -> ini) : M ini unit :=
  p ← zoom i_k set_k kalloc;
  modify (set p).
Definition zero_page (p : Z) : M ini unit := zoom i_k set_k (modify (set_mem (CString.memset p 0 PGSIZE))).

Fixpoint free_all (k : nat) (i : Z) : M ini unit :=
  match k with
  | O => mret tt
  | S k' => modify (fun s => set_ifree (<[i := true]> (i_free s)) s);; free_all k' (i + 1)
  end.

Definition virtio_disk_init : M ini unit :=
  magic ← rd VIRTIO_MMIO_MAGIC_VALUE;
  version ← rd VIRTIO_MMIO_VERSION;
  device ← rd VIRTIO_MMIO_DEVICE_ID;
  vendor ← rd VIRTIO_MMIO_VENDOR_ID;
  panic_if (negb (magic =? 0x74726976) || negb (version =? 2) || negb (device =? 2) || negb (vendor =? 0x554d4551)) "could not find virtio disk";;
  wr VIRTIO_MMIO_STATUS 0;;
  let status := VIRTIO_CONFIG_S_ACKNOWLEDGE in
  wr VIRTIO_MMIO_STATUS status;;
  let status := Z.lor status VIRTIO_CONFIG_S_DRIVER in
  wr VIRTIO_MMIO_STATUS status;;
  features ← rd VIRTIO_MMIO_DEVICE_FEATURES;
  wr VIRTIO_MMIO_DRIVER_FEATURES (negotiate features);;
  let status := Z.lor status VIRTIO_CONFIG_S_FEATURES_OK in
  wr VIRTIO_MMIO_STATUS status;;
  status ← rd VIRTIO_MMIO_STATUS;
  panic_if (Z.land status VIRTIO_CONFIG_S_FEATURES_OK =? 0) "virtio disk FEATURES_OK unset";;
  wr VIRTIO_MMIO_QUEUE_SEL 0;;
  ready ← rd VIRTIO_MMIO_QUEUE_READY;
  panic_if (negb (ready =? 0)) "virtio disk should not be ready";;
  max ← rd VIRTIO_MMIO_QUEUE_NUM_MAX;
  panic_if (max =? 0) "virtio disk has no queue 0";;
  panic_if (max <? NUM) "virtio disk max queue too short";;
  ialloc_page set_desc_page;;
  ialloc_page set_avail_page;;
  ialloc_page set_used_page;;
  d ← gets i_desc;
  a ← gets i_avail;
  u ← gets i_used;
  panic_if ((d =? 0) || (a =? 0) || (u =? 0)) "virtio disk kalloc";;
  zero_page d;;
  zero_page a;;
  zero_page u;;
  wr VIRTIO_MMIO_QUEUE_NUM NUM;;
  wr VIRTIO_MMIO_QUEUE_DESC_LOW d;;
  wr VIRTIO_MMIO_QUEUE_DESC_HIGH (Z.shiftr d 32);;
  wr VIRTIO_MMIO_DRIVER_DESC_LOW a;;
  wr VIRTIO_MMIO_DRIVER_DESC_HIGH (Z.shiftr a 32);;
  wr VIRTIO_MMIO_DEVICE_DESC_LOW u;;
  wr VIRTIO_MMIO_DEVICE_DESC_HIGH (Z.shiftr u 32);;
  wr VIRTIO_MMIO_QUEUE_READY 1;;
  free_all (Z.to_nat NUM) 0;;
  wr VIRTIO_MMIO_STATUS (Z.lor status VIRTIO_CONFIG_S_DRIVER_OK).

(** ** What a usable device answers

    Its identification, the features [F] it offers, that it accepts those
    the driver asks for, that the queue is not in use and long enough. *)
Record usable (F : Z) : Prop := {
  us_magic w : reads w VIRTIO_MMIO_MAGIC_VALUE = 0x74726976;
  us_version w : reads w VIRTIO_MMIO_VERSION = 2;
  us_device w : reads w VIRTIO_MMIO_DEVICE_ID = 2;
  us_vendor w : reads w VIRTIO_MMIO_VENDOR_ID = 0x554d4551;
  us_features w : reads w VIRTIO_MMIO_DEVICE_FEATURES = F;
  us_status w v : reads (w ++ [(VIRTIO_MMIO_STATUS, v)]) VIRTIO_MMIO_STATUS = v;
  us_ready w : Forall (fun x => x.1 <> VIRTIO_MMIO_QUEUE_READY) w -> reads w VIRTIO_MMIO_QUEUE_READY = 0;
  us_max w : NUM <= reads w VIRTIO_MMIO_QUEUE_NUM_MAX < 2 ^ 32
}.

(** The bits the driver does not want, and what is left. *)
Definition unwanted : list Z :=
  [VIRTIO_BLK_F_RO; VIRTIO_BLK_F_SCSI; VIRTIO_BLK_F_CONFIG_WCE; VIRTIO_BLK_F_MQ; VIRTIO_F_ANY_LAYOUT; VIRTIO_RING_F_EVENT_IDX; VIRTIO_RING_F_INDIRECT_DESC].

Lemma without_bit n f i : 0 <= n -> 0 <= i -> Z.testbit (without n f) i = Z.testbit f i && negb (i =? n).
Proof.
  intros Hn Hi. unfold without. rewrite Z.land_spec, Z.lnot_spec by exact Hi. f_equal. f_equal. rewrite Z.shiftl_spec by exact Hi.
  destruct (Z.eqb_spec i n) as [->|Hne]; [rewrite Z.sub_diag; reflexivity|]. destruct (Z.ltb_spec (i - n) 0); [apply Z.testbit_neg_r; lia|].
  rewrite Z.testbit_odd. destruct (i - n) eqn:E; try lia. rewrite Z.shiftr_div_pow2 by lia. rewrite Z.div_small; [reflexivity|]. split; [lia|].
  apply Z.pow_gt_1; lia.
Qed.

Lemma negotiate_bit f i : 0 <= i -> Z.testbit (negotiate f) i = Z.testbit f i && negb (bool_decide (i ∈ unwanted)).
Proof.
  intros Hi. unfold negotiate. rewrite !without_bit by (try exact Hi; vm_compute; discriminate). rewrite <- !andb_assoc. f_equal.
  assert (E : bool_decide (i ∈ unwanted) = existsb (Z.eqb i) unwanted).
  { destruct (existsb (Z.eqb i) unwanted) eqn:Ex.
    - apply bool_decide_eq_true_2. apply existsb_exists in Ex. destruct Ex as (x & Hx & Exi). apply Z.eqb_eq in Exi. subst x. apply list_elem_of_In, Hx.
    - apply bool_decide_eq_false_2. intros Hin. assert (existsb (Z.eqb i) unwanted = true); [|congruence]. apply existsb_exists. exists i. split; [apply list_elem_of_In, Hin | apply Z.eqb_refl]. }
  rewrite E. unfold unwanted. cbn [existsb]. rewrite orb_false_r, !negb_orb. reflexivity.
Qed.

(** The writes of the initialisation, in the order of section 3.1.1 of the
    specification. *)
Definition handshake (F d a u : Z) : list (Z * Z) :=
  [(VIRTIO_MMIO_STATUS, 0); (VIRTIO_MMIO_STATUS, 1); (VIRTIO_MMIO_STATUS, 3); (VIRTIO_MMIO_DRIVER_FEATURES, u32 (negotiate F));
   (VIRTIO_MMIO_STATUS, 11); (VIRTIO_MMIO_QUEUE_SEL, 0); (VIRTIO_MMIO_QUEUE_NUM, 8);
   (VIRTIO_MMIO_QUEUE_DESC_LOW, u32 d); (VIRTIO_MMIO_QUEUE_DESC_HIGH, u32 (Z.shiftr d 32));
   (VIRTIO_MMIO_DRIVER_DESC_LOW, u32 a); (VIRTIO_MMIO_DRIVER_DESC_HIGH, u32 (Z.shiftr a 32));
   (VIRTIO_MMIO_DEVICE_DESC_LOW, u32 u); (VIRTIO_MMIO_DEVICE_DESC_HIGH, u32 (Z.shiftr u 32));
   (VIRTIO_MMIO_QUEUE_READY, 1); (VIRTIO_MMIO_STATUS, 15)].

Lemma page_nonzero e p : page_ok e p -> 0 < e -> p <> 0.
Proof. unfold page_ok. lia. Qed.

Lemma ialloc_page_wp set s p l Q : kinv (i_k s) (p :: l) ->
  (forall k, kinv k l -> same_outside [p] (i_k s) k -> Q tt (set p (set_k k s))) -> wp (ialloc_page set) Q s.
Proof.
  intros HI HQ. unfold ialloc_page. apply wp_bind, wp_zoom. eapply wp_mono; [apply (kalloc_wp _ _ HI)|]. cbv beta. intros r k (-> & HI' & Hs & _). wp_steps. auto.
Qed.

Lemma zero_page_wp p s Q : (forall k, k_lock k = k_lock (i_k s) -> k_freelist k = k_freelist (i_k s) -> same_outside [p] (i_k s) k -> (forall x, in_page p x -> k_mem k x = x00) -> Q tt (set_k k s)) ->
  wp (zero_page p) Q s.
Proof.
  intros HQ. unfold zero_page. apply wp_zoom, wp_modify. apply HQ; ksimpl; auto.
  - split; [reflexivity|]. intros x Hx. rewrite Forall_singleton in Hx. cbn. rewrite CString.memset_fill by (unfold PGSIZE; lia). apply fill_out. exact Hx.
  - intros x Hx. rewrite CString.memset_fill by (unfold PGSIZE; lia). apply fill_in. exact Hx.
Qed.

Lemma rd_wp r v s Q : reads (i_writes s) r = v -> 0 <= v < 2 ^ 32 -> Q v s -> wp (rd r) Q s.
Proof. intros E Hv HQ. unfold rd. apply wp_gets. rewrite E, u32_small by exact Hv. exact HQ. Qed.

Lemma free_all_wp k i s Q :
  (forall f, (forall j, i <= j < i + Z.of_nat k -> f j = true) -> (forall j, ~ i <= j < i + Z.of_nat k -> f j = i_free s j) -> Q tt (set_ifree f s)) -> wp (free_all k i) Q s.
Proof.
  revert i s Q. induction k as [|k IH]; intros i s Q HQ; cbn [free_all].
  - apply wp_ret. specialize (HQ (i_free s)). destruct s. apply HQ; [intros; lia | reflexivity].
  - wp_steps. apply IH. intros f Hin Hout. cbn in Hout. apply HQ.
    + intros j Hj. destruct (decide (j = i)) as [->|]; [rewrite Hout by lia; apply fn_lookup_insert | apply Hin; lia].
    + intros j Hj. rewrite Hout by lia. apply fn_lookup_insert_ne. lia.
Qed.

(** With a device that answers as the specification says and three free
    pages, the initialisation terminates: it goes through the handshake in the
    order the specification demands, asks for exactly the offered features
    without the seven it excludes, gives the device three pages of zeroes of
    its own, and marks every descriptor free; no other memory changes. *)
Theorem virtio_init_correct (F : Z) (s : ini) (d a u : Z) (l : list Z) :
  usable F -> 0 <= F < 2 ^ 32 -> kinv (i_k s) (d :: a :: u :: l) -> i_writes s = [] ->
  wp virtio_disk_init (fun _ s' =>
    i_writes s' = handshake F d a u /\ (forall i, 0 <= i -> Z.testbit (negotiate F) i = Z.testbit F i && negb (bool_decide (i ∈ unwanted))) /\
    (forall p x, p ∈ [d; a; u] -> in_page p x -> k_mem (i_k s') x = x00) /\ (forall i, 0 <= i < NUM -> i_free s' i = true) /\
    kinv (i_k s') l /\ same_outside [d; a; u] (i_k s) (i_k s')) s.
Proof.
  intros [U1 U2 U3 U4 U5 U6 U7 U8] HF HI Hw. unfold virtio_disk_init. pose proof (ki_end _ _ HI) as Hend.
  pose proof (ki_nodup _ _ HI) as Hnd. pose proof (ki_pages _ _ HI) as Hpg. rewrite !Forall_cons in Hpg. destruct Hpg as (Pd & Pa & Pu & _).
  assert (Nz : d <> 0 /\ a <> 0 /\ u <> 0) by (split; [|split]; eapply page_nonzero; eassumption).
  assert (Hzero : forall p q k k', page_ok (k_end (i_k s)) p -> page_ok (k_end (i_k s)) q -> p <> q -> same_outside [p] k k' ->
    (forall x, in_page q x -> k_mem k x = x00) -> forall x, in_page q x -> k_mem k' x = x00).
  { intros p q k k' Hp Hq Hne [_ Hs] Hz x Hx. rewrite Hs; [apply Hz, Hx|]. apply Forall_singleton. eapply page_disjoint; [apply Hq | apply Hp | congruence | exact Hx]. }
  unfold wr. wp_steps. eapply rd_wp; [apply U1 | lia |]. wp_steps. eapply rd_wp; [apply U2 | lia |]. wp_steps. eapply rd_wp; [apply U3 | lia |].
  wp_steps. eapply rd_wp; [apply U4 | lia |]. wp_steps. apply wp_panic_if; [reflexivity|]. wp_steps.
  eapply rd_wp; [apply U5 | exact HF |]. wp_steps. cbn [set_writes i_writes]. eapply (rd_wp VIRTIO_MMIO_STATUS 11); [exact (U6 _ 11) | lia |].
  wp_steps. apply wp_panic_if; [reflexivity|]. wp_steps.
  eapply (rd_wp VIRTIO_MMIO_QUEUE_READY 0); [apply U7; cbn [set_writes i_writes]; rewrite Hw; repeat constructor; discriminate | lia |].
  wp_steps. apply wp_panic_if; [reflexivity|]. wp_steps. eapply rd_wp; [reflexivity | match goal with |- context [reads ?w _] => pose proof (U8 w) end; unfold NUM in *; lia |].
  match goal with |- context [reads ?w _] => pose proof (U8 w) as Hmax end. unfold NUM in Hmax.
  wp_steps. apply wp_panic_if; [lia|]. wp_steps. apply wp_panic_if; [unfold NUM; lia|]. wp_steps.
  eapply ialloc_page_wp; [exact HI|]. intros k1 HI1 S1. wp_steps. eapply ialloc_page_wp; [exact HI1|]. intros k2 HI2 S2. wp_steps. eapply ialloc_page_wp; [exact HI2|]. intros k3 HI3 S3.
  wp_steps. cbn [set_k set_desc_page set_avail_page set_used_page set_writes i_desc i_avail i_used]. apply wp_panic_if; [lia|]. wp_steps.
  apply zero_page_wp. intros k4 L4 F4 S4 Z4. wp_steps. apply zero_page_wp. intros k5 L5 F5 S5 Z5. wp_steps. apply zero_page_wp. intros k6 L6 F6 S6 Z6. wp_steps.
  apply free_all_wp. intros f Hf _. wp_steps. cbn [set_k set_desc_page set_avail_page set_used_page set_writes set_ifree i_desc i_avail i_used i_k i_writes i_free] in *.
  rewrite !NoDup_cons, !not_elem_of_cons in Hnd. destruct Hnd as ((Nda & Ndu & Nd) & (Nau & Na) & Nu & _).
  split; [rewrite Hw; reflexivity|]. split; [intros i Hi; apply negotiate_bit, Hi|]. split; [|split; [exact Hf|]].
  - intros p x Hp. rewrite !elem_of_cons, elem_of_nil in Hp. destruct Hp as [->|[->|[->|[]]]]; auto.
    + eapply (Hzero u d); eauto.
    + eapply (Hzero u a); eauto.
  - assert (So : same_outside [d; a; u; d; a; u] (i_k s) k6).
    { change [d; a; u; d; a; u] with ([d] ++ [a] ++ [u] ++ [d] ++ [a] ++ [u]). repeat (eapply same_outside_trans; [eassumption|]). exact S6. }
    split; [|eapply same_outside_mono; [exact So | clear; set_solver]].
    assert (S36 : same_outside [d; a; u] k3 k6) by (change [d; a; u] with ([d] ++ [a] ++ [u]); repeat (eapply same_outside_trans; [eassumption|]); exact S6).
    eapply kinv_same_outside; [exact HI3 | exact S36 | rewrite L6, L5, L4; apply HI3 | congruence |].
    repeat constructor; auto; [apply Pd | apply Pa | apply Pu].
Qed.
End Device.

(** A device that offers every feature, and an allocator with three pages. *)
Definition demo_reads (w : list (Z * Z)) (r : Z) : Z :=
  if r =? VIRTIO_MMIO_MAGIC_VALUE then 0x74726976
  else if (r =? VIRTIO_MMIO_VERSION) || (r =? VIRTIO_MMIO_DEVICE_ID) then 2
  else if r =? VIRTIO_MMIO_VENDOR_ID then 0x554d4551
  else if r =? VIRTIO_MMIO_DEVICE_FEATURES then 2 ^ 32 - 1
  else if r =? VIRTIO_MMIO_STATUS then default 0 (snd <$> last w)
  else if r =? VIRTIO_MMIO_QUEUE_NUM_MAX then 1024
  else 0.

Lemma demo_usable : usable demo_reads (2 ^ 32 - 1).
Proof. constructor; intros; try reflexivity; [unfold demo_reads; rewrite last_snoc; reflexivity | vm_compute; split; [discriminate | reflexivity]]. Qed.

Lemma demo_pages : exists k, kinv k [0x80002000; 0x80001000; 0x80000000].
Proof.
  set (k0 := mkK zeroes false 0 0x80000000). assert (I0 : kinv k0 []) by (constructor; cbn; auto; [constructor | lia]).
  assert (G : forall p l k, kinv k l -> page_ok (k_end k) p -> p ∉ l -> exists k', kinv k' (p :: l) /\ k_end k' = k_end k).
  { intros p l k HI Hp Hn. pose proof (kfree_wp p k l HI Hp Hn) as Hk. apply wp_run in Hk. destruct Hk as (? & k' & _ & HI' & [He _]). eauto. }
  destruct (G 0x80000000 [] k0 I0) as (k1 & I1 & E1); [vm_compute; auto using eq_refl; split; [reflexivity | split; [discriminate | reflexivity]] | apply not_elem_of_nil|].
  destruct (G 0x80001000 _ k1 I1) as (k2 & I2 & E2); [rewrite E1; vm_compute; split; [reflexivity | split; [discriminate | reflexivity]] | rewrite list_elem_of_singleton; discriminate|].
  destruct (G 0x80002000 _ k2 I2) as (k3 & I3 & E3); [rewrite E2, E1; vm_compute; split; [reflexivity | split; [discriminate | reflexivity]] | rewrite elem_of_cons, list_elem_of_singleton; intros [E|E]; discriminate E|].
  exists k3. exact I3.
Qed.

Lemma virtio_init_correct_witness : exists s s', virtio_disk_init demo_reads s = Ret tt s' /\ i_writes s' = handshake (2 ^ 32 - 1) 0x80002000 0x80001000 0x80000000.
Proof.
  destruct demo_pages as (k & HI). set (s := Ini k [] 0 0 0 (fun _ => false)).
  pose proof (virtio_init_correct demo_reads (2 ^ 32 - 1) s _ _ _ [] demo_usable ltac:(lia) HI eq_refl) as Hw.
  apply wp_run in Hw. destruct Hw as ([] & s' & E & Hs & _). exists s, s'. split; [exact E | exact Hs].
Defined.
End VirtioInit.
