(* ===== verification/Console.v ===== *)
(** * The console: kernel/console.c and the input side of kernel/uart.c

    The line discipline.  [consoleintr] and [consoleread] run under
    [cons.lock]; a reader that sleeps continues at the same place with the
    lock held again, so the executions are the sequences of such runs.  The
    contents of the ring are a queue of committed bytes, which readers take,
    and the line being edited. *)

From S2P Require Import Prelude Memory UserMem.

Module Console.

Definition BACKSPACE : Z := 0x100.
Definition INPUT_BUF_SIZE : Z := 128.
(** [C(x)], Control-x *)
Definition C (x : byte) : Z := b2z x - b2z x40.

Record cons := Cons {
  c_lock : bool;
  c_buf : Z -> byte;
  c_r : Z;
  c_w : Z;
  c_e : Z
}.

(** What goes to the terminal: a character, or the list of processes. *)
Inductive out := Echo (b : byte) | Procdump.

(** A run of [consoleread] ends with the result of the call, or asleep, with
    the destination and the number of bytes left. *)
Inductive ended := Slept (dst n : Z) | Returned (r : Z).

Section Console.
Context {U : Type} `{UserMem U}.

(** The console, what was echoed, the wakeups of [cons.r] so far, the memory
    of the reading process, and whether it was killed. *)
Record cstate := CState { co : cons; echo : list out; wakes : nat; user : U; killed : bool }.

Definition set_co (f : cons -> cons) (s : cstate) : cstate := CState (f (co s)) (echo s) (wakes s) (user s) (killed s).
Definition set_user (u : U) (s : cstate) : cstate := CState (co s) (echo s) (wakes s) u (killed s).
Definition add_echo (o : list out) (s : cstate) : cstate := CState (co s) (echo s ++ o) (wakes s) (user s) (killed s).
Definition set_lock (b : bool) : cstate -> cstate := set_co (fun c => Cons b (c_buf c) (c_r c) (c_w c) (c_e c)).
Definition set_r (r : Z) (c : cons) : cons := Cons (c_lock c) (c_buf c) r (c_w c) (c_e c).
Definition set_w (w : Z) (c : cons) : cons := Cons (c_lock c) (c_buf c) (c_r c) w (c_e c).
Definition set_e (e : Z) (c : cons) : cons := Cons (c_lock c) (c_buf c) (c_r c) (c_w c) e.
Definition put (b : byte) (c : cons) : cons :=
  Cons (c_lock c) (<[c_e c mod INPUT_BUF_SIZE := b]> (c_buf c)) (c_r c) (c_w c) (u32 (c_e c + 1)).

Definition lock_cons : M cstate unit := acquire (fun s => c_lock (co s)) set_lock.
Definition unlock_cons : M cstate unit := release (fun s => c_lock (co s)) set_lock.
Definition wakeup : M cstate unit := modify (fun s => CState (co s) (echo s) (S (wakes s)) (user s) (killed s)).

(** [uartputc_sync] writes the low byte to the transmitter. *)
Definition uartputc_sync (c : Z) : M cstate unit := modify (add_echo [Echo (z2b c)]).

Definition consputc (c : Z) : M cstate unit :=
  if c =? BACKSPACE then uartputc_sync 8;; uartputc_sync 32;; uartputc_sync 8
  else uartputc_sync c.

(** [while(cons.e != cons.w && ...)]: there are at most INPUT_BUF_SIZE bytes
    to erase. *)
Definition kill_line : M cstate unit :=
  loop (S (Z.to_nat INPUT_BUF_SIZE)) (fun _ : unit =>
    c ← gets co;
    if negb (c_e c =? c_w c) && negb (bool_decide (c_buf c (u32 (c_e c - 1) mod INPUT_BUF_SIZE) = x0a)) then
      modify (set_co (fun c => set_e (u32 (c_e c - 1)) c));;
      consputc BACKSPACE;;
      mret (inl tt)
    else mret (inr tt)) tt.

Definition consoleintr (c : Z) : M cstate unit :=
  lock_cons;;
  (if c =? C x50 then modify (add_echo [Procdump])
   else if c =? C x55 then kill_line
   else if (c =? C x48) || (c =? 0x7f) then
     k ← gets co;
     when (negb (c_e k =? c_w k))
       (modify (set_co (fun c => set_e (u32 (c_e c - 1)) c));;
        consputc BACKSPACE)
   else
     k ← gets co;
     when (negb (c =? 0) && (u32 (c_e k - c_r k) <? INPUT_BUF_SIZE))
       (let c := if c =? b2z x0d then b2z x0a else c in
        consputc c;;
        modify (set_co (put (z2b c)));;
        k ← gets co;
        when ((c =? b2z x0a) || (c =? C x44) || (u32 (c_e k - c_r k) =? INPUT_BUF_SIZE))
          (modify (set_co (fun c => set_w (c_e c) c));;
           wakeup)));;
  unlock_cons.

(** The body of the loop of [consoleread]. *)
Definition consoleread_step (target : Z) (l : Z * Z) : M cstate (Z * Z + ended) :=
  let '(dst, n) := l in
  if n >? 0 then
    k ← gets co;
    if c_r k =? c_w k then
      dead ← gets killed;
      mret (inr (if dead : bool then Returned (-1) else Slept dst n))
    else
      let c := c_buf k (c_r k mod INPUT_BUF_SIZE) in
      modify (set_co (fun k => set_r (u32 (c_r k + 1)) k));;
      if b2z c =? C x44 then
        when (n <? target) (modify (set_co (fun k => set_r (u32 (c_r k - 1)) k)));;
        mret (inr (Returned (target - n)))
      else
        x ← zoom user set_user (ucopyout dst [c]);
        if x =? -1 then mret (inr (Returned (target - n)))
        else if bool_decide (c = x0a) then mret (inr (Returned (target - (n - 1))))
        else mret (inl (u64 (dst + 1), n - 1))
  else mret (inr (Returned (target - n))).

(** [consoleread(1, dst, target)], with [n] bytes left to read to [dst]. *)
Definition consoleread (target dst n : Z) : M cstate ended :=
  lock_cons;;
  r ← loop (S (Z.to_nat n)) (consoleread_step target) (dst, n);
  unlock_cons;;
  mret r.

(** [rx] is what has arrived: [LSR] says whether there is something, and [RHR]
    yields the first byte. *)
Definition uartgetc (rx : list byte) : Z * list byte := match rx with [] => (-1, []) | c :: rx' => (b2z c, rx') end.

(** The first loop of [uartintr]. *)
Definition uartintr_input (rx : list byte) : M cstate unit :=
  loop (S (length rx)) (fun rx =>
    let '(c, rx) := uartgetc rx in
    if c =? -1 then mret (inr tt)
    else consoleintr c;; mret (inl rx)) rx.

(** ** The contents of the console

    [q] is committed and not yet read, [l] the line being edited. *)

Record holds (c : cons) (q l : list byte) : Prop := {
  h_r : 0 <= c_r c < 2 ^ 32;
  h_w : c_w c = u32 (c_r c + Z.of_nat (length q));
  h_e : c_e c = u32 (c_r c + Z.of_nat (length (q ++ l)));
  h_len : Z.of_nat (length (q ++ l)) <= INPUT_BUF_SIZE;
  h_buf : forall i b, (q ++ l) !! i = Some b -> c_buf c ((c_r c + Z.of_nat i) mod INPUT_BUF_SIZE) = b;
  h_line : Forall (fun b => b <> x0a) l
}.

Definition cons0 (b : Z -> byte) : cons := Cons false b 0 0 0.

(** [initlock] and the two entries of [devsw] (CONSOLE is 1); [uartinit] is in [Uart]. *)
Definition consoleinit {A} (read write : A) (c : cons) (devread devwrite : Z -> option A) : cons * (Z -> option A) * (Z -> option A) :=
  (Cons false (c_buf c) (c_r c) (c_w c) (c_e c), <[1 := Some read]> devread, <[1 := Some write]> devwrite).

Lemma cons0_holds b : holds (cons0 b) [] [].
Proof. constructor; cbn; try lia; try reflexivity; [unfold INPUT_BUF_SIZE; lia | intros i x Hi; discriminate | constructor]. Qed.

(** A key, as the terminal's user sees it. *)
Definition akey (c : byte) (q l : list byte) : list byte * list byte * list out * bool :=
  let erase := [Echo x08; Echo x20; Echo x08] in
  if bool_decide (c = x10) then (q, l, [Procdump], false)
  else if bool_decide (c = x15) then (q, [], concat (replicate (length l) erase), false)
  else if bool_decide (c = x08) || bool_decide (c = x7f) then (q, take (length l - 1) l, match l with [] => [] | _ => erase end, false)
  else if bool_decide (c = x00) || (length (q ++ l) =? 128)%nat then (q, l, [], false)
  else
    let c := if bool_decide (c = x0d) then x0a else c in
    let l := l ++ [c] in
    if bool_decide (c = x0a) || bool_decide (c = x04) || (length (q ++ l) =? 128)%nat then (q ++ l, [], [Echo c], true)
    else (q, l, [Echo c], false).

(** ** Keys *)

Lemma cons_wrap z : u32 z mod INPUT_BUF_SIZE = z mod INPUT_BUF_SIZE.
Proof. unfold u32, INPUT_BUF_SIZE. zdiv. Qed.

Lemma used_room c q l : holds c q l -> u32 (c_e c - c_r c) = Z.of_nat (length (q ++ l)).
Proof. intros [H1 _ H3 H4 _ _]. rewrite H3. unfold u32, INPUT_BUF_SIZE in *. zdiv. Qed.

Lemma line_empty c q l : holds c q l -> (c_e c =? c_w c) = bool_decide (l = []).
Proof.
  intros [H1 H2 H3 H4 _ _]. rewrite H3, H2. rewrite length_app in *. unfold u32, INPUT_BUF_SIZE in *.
  case_bool_decide as E; [subst l; cbn; rewrite Z.eqb_eq; f_equal; lia|]. destruct l; [done|]. cbn [length] in *. zdiv.
Qed.

Lemma queue_empty c q l : holds c q l -> (c_r c =? c_w c) = bool_decide (q = []).
Proof.
  intros [H1 H2 H3 H4 _ _]. rewrite H2. rewrite length_app in *. unfold u32, INPUT_BUF_SIZE in *.
  case_bool_decide as E; [subst q; cbn; rewrite Z.eqb_eq, Z.mod_small; lia|]. destruct q; [done|]. cbn [length] in *. zdiv.
Qed.

Lemma erase_holds c q l b : holds c q (l ++ [b]) ->
  holds (set_e (u32 (c_e c - 1)) c) q l /\ c_buf c (u32 (c_e c - 1) mod INPUT_BUF_SIZE) = b.
Proof.
  intros [H1 H2 H3 H4 H5 H6]. rewrite app_assoc in *. rewrite length_app in H3, H4. cbn [length] in H3, H4.
  assert (E : u32 (c_e c - 1) = u32 (c_r c + Z.of_nat (length (q ++ l)))) by (rewrite H3; unfold u32; zdiv).
  split.
  - split; cbn; auto; [lia | | apply Forall_app in H6 as [H6 _]; exact H6].
    intros i x Hi. apply H5. apply lookup_app_l_Some. exact Hi.
  - rewrite E, cons_wrap. apply H5. apply list_lookup_middle. reflexivity.
Qed.

Lemma put_ring c q l b : holds c q l -> Z.of_nat (length (q ++ l)) < INPUT_BUF_SIZE ->
  c_e (put b c) = u32 (c_r c + Z.of_nat (length (q ++ l ++ [b]))) /\
  forall i x, (q ++ l ++ [b]) !! i = Some x -> c_buf (put b c) ((c_r c + Z.of_nat i) mod INPUT_BUF_SIZE) = x.
Proof.
  intros [H1 H2 H3 H4 H5 H6] Hlt. rewrite app_assoc. split.
  - rewrite length_app. cbn. rewrite H3. unfold u32. zdiv.
  - cbn [c_buf put]. intros i x Hi. rewrite H3, cons_wrap. apply lookup_app_Some in Hi as [Hi|[Hi1 Hi2]].
    + pose proof (lookup_lt_Some _ _ _ Hi). rewrite fn_lookup_insert_ne; [apply H5; exact Hi|]. unfold INPUT_BUF_SIZE in *. zdiv.
    + apply list_lookup_singleton_Some in Hi2 as [Hi2 <-]. replace i with (length (q ++ l)) by lia. apply fn_lookup_insert.
Qed.

Lemma put_holds c q l b : holds c q l -> Z.of_nat (length (q ++ l)) < INPUT_BUF_SIZE -> b <> x0a -> holds (put b c) q (l ++ [b]).
Proof.
  intros Hh Hlt Hb. destruct (put_ring c q l b Hh Hlt) as [E1 E2]. destruct Hh as [H1 H2 H3 H4 H5 H6].
  split; [exact H1 | exact H2 | exact E1 | | exact E2 | ].
  - rewrite app_assoc, length_app. cbn [length]. lia.
  - apply Forall_app. split; [exact H6 | constructor; [exact Hb | constructor]].
Qed.

(** Storing a byte and committing the line up to it. *)
Lemma commit_holds c q l b : holds c q l -> Z.of_nat (length (q ++ l)) < INPUT_BUF_SIZE ->
  holds (set_w (c_e (put b c)) (put b c)) (q ++ l ++ [b]) [].
Proof.
  intros Hh Hlt. destruct (put_ring c q l b Hh Hlt) as [E1 E2]. destruct Hh as [H1 H2 H3 H4 H5 H6].
  split; rewrite ?app_nil_r; [exact H1 | exact E1 | exact E1 | | exact E2 | constructor].
  rewrite app_assoc, length_app. cbn [length]. lia.
Qed.

(** What a key did. *)
Definition keyed (q l : list byte) (o : list out) (w : nat) (s s' : cstate) : Prop :=
  holds (co s') q l /\ c_lock (co s') = c_lock (co s) /\ echo s' = echo s ++ o /\ wakes s' = (wakes s + w)%nat /\
  user s' = user s /\ killed s' = killed s.

Definition erased : list out := [Echo x08; Echo x20; Echo x08].

Lemma consputc_backspace_wp s (Q : unit -> cstate -> Prop) : Q tt (add_echo erased s) -> wp (consputc BACKSPACE) Q s.
Proof. intros HQ. unfold consputc, uartputc_sync. cbn [Z.eqb BACKSPACE Pos.eqb]. wp_steps. unfold add_echo in *. cbn in *. rewrite <- !app_assoc. exact HQ. Qed.

Lemma kill_line_wp q l s : holds (co s) q l ->
  wp kill_line (fun _ => keyed q [] (concat (replicate (length l) erased)) 0 s) s.
Proof.
  intros Hh. unfold kill_line.
  apply (wp_loop (fun m _ s' => exists l', length l' = m /\ (m <= length l)%nat /\
    keyed q l' (concat (replicate (length l - m) erased)) 0 s s')) with (k := length l).
  2:{ exists l. rewrite Nat.sub_diag. cbn. unfold keyed. rewrite app_nil_r, Nat.add_0_r. auto 10. }
  2:{ destruct Hh as [_ _ _ H4 _ _]. rewrite length_app in H4. unfold INPUT_BUF_SIZE in *. lia. }
  intros m [] s' (l' & <- & Hm & Hh' & E1 & E2 & E3 & E4 & E5). wp_steps. rewrite (line_empty _ _ _ Hh').
  destruct l' as [|b l' _] using rev_ind.
  { cbn. apply wp_ret. rewrite Nat.sub_0_r in E2. repeat split; auto; apply Hh'. }
  destruct (erase_holds _ _ _ _ Hh') as [Hh2 Eb].
  assert (Hb : b <> x0a) by (destruct Hh' as [_ _ _ _ _ H6]; apply Forall_app in H6 as [_ H6]; inversion H6; assumption).
  rewrite Eb, (bool_decide_eq_false_2 (_ ++ _ = [])), (bool_decide_eq_false_2 (b = x0a)) by (first [exact Hb | destruct l'; discriminate]).
  cbn [negb andb]. wp_steps. apply consputc_backspace_wp. wp_steps. exists (length l'). rewrite length_app in *. cbn [length] in *.
  split; [lia|]. exists l'. split; [reflexivity|]. split; [lia|]. split; [exact Hh2|]. split; [exact E1|]. split; [|auto].
  cbn [echo add_echo set_co]. rewrite E2, <- app_assoc. f_equal.
  replace (length l - length l')%nat with (length l - (length l' + 1) + 1)%nat by lia.
  rewrite replicate_add, concat_app. cbn. rewrite ?app_nil_r. reflexivity.
Qed.

Lemma b2z_eqb b c : (b2z b =? b2z c) = bool_decide (b = c).
Proof. case_bool_decide as E; [subst; apply Z.eqb_refl|]. apply Z.eqb_neq. intros E'. apply E, b2z_inj, E'. Qed.

Lemma consputc_byte_wp c s (Q : unit -> cstate -> Prop) : Q tt (add_echo [Echo c] s) -> wp (consputc (b2z c)) Q s.
Proof.
  intros HQ. unfold consputc, uartputc_sync. pose proof (b2z_range c).
  replace (b2z c =? BACKSPACE) with false by (unfold BACKSPACE; lia). wp_steps. rewrite z2b_b2z. exact HQ.
Qed.

(** A character that is stored: [c] once the carriage return is translated. *)
Lemma store_wp c q l s : holds (co s) q l -> (length (q ++ l) < 128)%nat ->
  wp (consputc (b2z c);;
      modify (set_co (put (z2b (b2z c))));;
      k ← gets co;
      when ((b2z c =? b2z x0a) || (b2z c =? C x44) || (u32 (c_e k - c_r k) =? INPUT_BUF_SIZE))
        (modify (set_co (fun c => set_w (c_e c) c));; wakeup))
  (fun _ => if bool_decide (c = x0a) || bool_decide (c = x04) || (length (q ++ l ++ [c]) =? 128)%nat
            then keyed (q ++ l ++ [c]) [] [Echo c] 1 s else keyed q (l ++ [c]) [Echo c] 0 s) s.
Proof.
  intros Hh Hlt. assert (Hlt' : Z.of_nat (length (q ++ l)) < INPUT_BUF_SIZE) by (unfold INPUT_BUF_SIZE; lia).
  wp_steps. apply consputc_byte_wp. rewrite z2b_b2z. wp_steps.
  change (C x44) with (b2z x04). rewrite !b2z_eqb. cbn [co set_co add_echo].
  replace (u32 (c_e (put c (co s)) - c_r (put c (co s))) =? INPUT_BUF_SIZE) with (length (q ++ l ++ [c]) =? 128)%nat.
  2:{ destruct (put_ring (co s) q l c Hh Hlt') as [-> _]. destruct Hh as [H1 _ _ _ _ _]. cbn [c_r put].
      rewrite !length_app in *. cbn [length] in *. unfold u32, INPUT_BUF_SIZE in *. zdiv. }
  destruct (_ || _) eqn:E.
  - cbn [when]. unfold wakeup. wp_steps. unfold keyed. cbn. split; [apply commit_holds; assumption|]. auto 10 with lia.
  - cbn [when]. apply wp_ret. apply orb_false_iff in E as [[E%bool_decide_eq_false _]%orb_false_iff _].
    unfold keyed. cbn. split; [apply put_holds; assumption|]. auto 10 with lia.
Qed.

Lemma consoleintr_wp c q l s : holds (co s) q l -> c_lock (co s) = false ->
  wp (consoleintr (b2z c)) (fun _ s' => let '(q', l', o, w) := akey c q l in keyed q' l' o (if w then 1 else 0)%nat s s') s.
Proof.
  intros Hh Hl. unfold consoleintr. wp_steps. apply wp_acquire; [exact Hl|].
  assert (Hh1 : holds (co (set_lock true s)) q l) by (destruct Hh; split; assumption).
  enough (Hbody : forall q' l' o w s', keyed q' l' o w (set_lock true s) s' ->
    wp unlock_cons (fun _ => keyed q' l' o w s) s').
  { change (C x50) with (b2z x10). change (C x55) with (b2z x15). change (C x48) with (b2z x08). change 0x7f with (b2z x7f).
    change (b2z c =? 0) with (b2z c =? b2z x00). rewrite !b2z_eqb. unfold akey. apply wp_bind.
    case_bool_decide; [wp_steps; apply Hbody; unfold keyed; cbn; auto 10 with lia|].
    case_bool_decide; [eapply wp_mono; [apply (kill_line_wp q l); exact Hh1 | intros [] s' Hk; apply Hbody, Hk]|].
    destruct (_ || _).
    - wp_steps. rewrite (line_empty _ _ _ Hh1). destruct l as [|b l _] using rev_ind.
      { cbn [negb bool_decide]. rewrite bool_decide_eq_true_2 by reflexivity. cbn [negb when length take Nat.sub].
        apply wp_ret. apply Hbody. unfold keyed. rewrite app_nil_r. auto 10 with lia. }
      rewrite bool_decide_eq_false_2 by (destruct l; discriminate). cbn [negb when]. wp_steps. apply consputc_backspace_wp.
      rewrite length_app, Nat.add_sub, take_app_length. destruct (erase_holds _ _ _ _ Hh1) as [Hh2 _].
      replace (match l ++ [b] with [] => [] | _ => _ end) with erased by (destruct l; reflexivity).
      apply Hbody. unfold keyed. split; [exact Hh2|]. cbn. auto 10 with lia.
    - wp_steps. rewrite (used_room _ _ _ Hh1). replace (Z.of_nat (length (q ++ l)) <? INPUT_BUF_SIZE) with (negb (length (q ++ l) =? 128)%nat).
      2:{ pose proof (h_len _ _ _ Hh). unfold INPUT_BUF_SIZE in *. destruct (Nat.eqb_spec (length (q ++ l)) 128); cbn [negb]; lia. }
      rewrite <- negb_orb. destruct (_ || _) eqn:Efull; cbn [negb when].
      { apply wp_ret, Hbody. unfold keyed. rewrite app_nil_r. auto 10 with lia. }
      apply orb_false_iff in Efull as [_ Hroom]. apply Nat.eqb_neq in Hroom.
      replace (if bool_decide (c = x0d) then b2z x0a else b2z c) with (b2z (if bool_decide (c = x0d) then x0a else c)) by (case_bool_decide; reflexivity).
      eapply wp_mono; [apply (store_wp _ q l); [exact Hh1|]|].
      + pose proof (h_len _ _ _ Hh). unfold INPUT_BUF_SIZE in *. lia.
      + intros [] s' Hk. cbv zeta. destruct (_ || _); apply Hbody, Hk. }
  intros q' l' o w s' (H1 & H2 & H3 & H4 & H5 & H6). apply wp_release; [exact H2|].
  split; [destruct H1; split; assumption|]. cbn in *. auto 10.
Qed.

(** The keys [cs], as the terminal's user sees them: what is committed, the
    line, what is echoed and the number of wakeups. *)
Fixpoint akeys (cs q l : list byte) : list byte * list byte * list out * nat :=
  match cs with
  | [] => (q, l, [], O)
  | c :: cs' =>
      let '(q1, l1, o1, w) := akey c q l in
      let '(q2, l2, o2, n) := akeys cs' q1 l1 in
      (q2, l2, o1 ++ o2, ((if w then 1 else 0) + n)%nat)
  end.

(** C15: the receive loop of [uartintr] refines the terminal's view of typing:
    on every sequence of characters, from every state of the console, it
    returns, and the committed bytes, the line being edited, what is echoed
    and the wakeups of the readers are those of [akeys]; the indices may wrap
    around 2^32. *)
Theorem uartintr_line_discipline cs q l s : holds (co s) q l -> c_lock (co s) = false ->
  wp (uartintr_input cs) (fun _ s' => let '(q', l', o, n) := akeys cs q l in keyed q' l' o n s s') s.
Proof.
  unfold uartintr_input. revert q l s. induction cs as [|c cs IH]; intros q l s Hh Hl; cbn [length akeys]; apply wp_loop_S; cbn [uartgetc Z.eqb Pos.eqb].
  - apply wp_ret. unfold keyed. rewrite app_nil_r. auto 10 with lia.
  - replace (b2z c =? -1) with false by (pose proof (b2z_range c); lia). wp_steps.
    eapply wp_mono; [apply (consoleintr_wp c q l s Hh Hl)|]. intros [] s1.
    destruct (akey c q l) as [[[q1 l1] o1] w]. intros (H1 & H2 & H3 & H4 & H5 & H6).
    wp_steps. eapply wp_mono; [apply (IH q1 l1 s1 H1); congruence|]. intros [] s2. destruct (akeys cs q1 l1) as [[[q2 l2] o2] n].
    intros (K1 & K2 & K3 & K4 & K5 & K6). unfold keyed. rewrite K2, K3, K4, K5, K6, H2, H3, H4, H5, H6, app_assoc.
    auto 10 with lia.
Qed.

(** ** Reads *)

(** A read of [n] of [target] bytes from the committed bytes [q], into memory
    with room for [room] bytes: the bytes read, and what is left, unless the
    reader waits for more. *)
Fixpoint line_read (target room n : nat) (q : list byte) : list byte * option (list byte) :=
  match n, q with
  | O, _ => ([], Some q)
  | _, [] => ([], None)
  | S n', c :: q' =>
      if bool_decide (c = x04) then ([], Some (if (n <? target)%nat then q else q'))
      else match room with
           | O => ([], Some q')
           | S room' =>
               if bool_decide (c = x0a) then ([c], Some q')
               else let '(bs, rest) := line_read target room' n' q' in (c :: bs, rest)
           end
  end.

Lemma take_holds c b q l : holds c (b :: q) l ->
  c_buf c (c_r c mod INPUT_BUF_SIZE) = b /\ holds (set_r (u32 (c_r c + 1)) c) q l /\ set_r (u32 (u32 (c_r c + 1) - 1)) c = c.
Proof.
  intros [H1 H2 H3 H4 H5 H6]. cbn [app length] in *. split; [|split].
  - specialize (H5 O b eq_refl). rewrite Z.add_0_r in H5. exact H5.
  - split; cbn; auto; [apply Z.mod_pos_bound; lia | rewrite H2; unfold u32; zdiv | rewrite H3; unfold u32; zdiv | lia |].
    intros i x Hi. specialize (H5 (S i) x Hi). rewrite <- H5. f_equal. unfold u32, INPUT_BUF_SIZE. zdiv.
  - destruct c as [k m r w e]. cbn in *. unfold set_r. cbn. f_equal. unfold u32. zdiv.
Qed.

(** The process sees [bs] at [dst]; nothing else of its memory changed. *)
Definition delivered (dst : Z) (bs : list byte) (u u' : U) : Prop :=
  (forall x, uview u' x = if (dst <=? x) && (x <? dst + Z.of_nat (length bs)) then bs !! Z.to_nat (x - dst) else uview u x) /\
  (forall x, dst <= x < dst + Z.of_nat (length bs) -> uview u x <> None).

Lemma delivered_nil dst u : delivered dst [] u u.
Proof. split; [|cbn; lia]. intros x. cbn [length]. destruct ((dst <=? x) && (x <? dst + Z.of_nat 0)) eqn:E; [lia | reflexivity]. Qed.

Lemma delivered_cons dst b bs u u1 u2 : delivered dst [b] u u1 -> delivered (dst + 1) bs u1 u2 -> delivered dst (b :: bs) u u2.
Proof.
  unfold delivered. intros [H1 H1'] [H2 H2']. cbn [length] in *. split.
  - intros x. rewrite H2, H1. destruct (Z.eq_dec x dst) as [->|Hne].
    + replace ((dst + 1 <=? dst) && _) with false by lia. replace ((dst <=? dst) && (dst <? dst + Z.of_nat 1)) with true by lia.
      replace ((dst <=? dst) && (dst <? dst + Z.of_nat (S (length bs)))) with true by lia. rewrite Z.sub_diag. reflexivity.
    + replace ((dst <=? x) && (x <? dst + Z.of_nat 1)) with false by lia.
      replace ((dst <=? x) && (x <? dst + Z.of_nat (S (length bs)))) with ((dst + 1 <=? x) && (x <? dst + 1 + Z.of_nat (length bs))) by lia.
      destruct ((dst + 1 <=? x) && _) eqn:E; [|reflexivity]. replace (Z.to_nat (x - dst)) with (S (Z.to_nat (x - (dst + 1)))) by lia. reflexivity.
  - intros x Hx. destruct (Z.eq_dec x dst) as [->|Hne]; [apply H1'; lia|].
    specialize (H2' x ltac:(lia)). rewrite H1 in H2'. replace ((dst <=? x) && (x <? dst + Z.of_nat 1)) with false in H2' by lia. exact H2'.
Qed.

(** What a run of [consoleread] did; [room] is less than [n] only if a copy out failed there. *)
Definition read_done (target dst n : Z) (q l : list byte) (s : cstate) (e : ended) (s' : cstate) : Prop :=
  echo s' = echo s /\ wakes s' = wakes s /\ killed s' = killed s /\ um_ok (user s') /\ c_lock (co s') = c_lock (co s) /\
  exists room, (room = Z.to_nat n \/ (room < Z.to_nat n)%nat /\ exists u c u', ucopyout (dst + Z.of_nat room) [c] u = Ret (-1) u') /\
  let '(bs, rest) := line_read (Z.to_nat target) room (Z.to_nat n) q in
  delivered dst bs (user s) (user s') /\
  match rest with
  | Some q' => holds (co s') q' l /\ e = Returned (target - n + Z.of_nat (length bs))
  | None => holds (co s') [] l /\ e = if killed s then Returned (-1) else Slept (dst + Z.of_nat (length bs)) (n - Z.of_nat (length bs))
  end.

Lemma consoleread_loop_wp target l m : forall n dst q s, n = Z.of_nat m -> n <= target -> holds (co s) q l -> um_ok (user s) ->
  0 <= dst -> dst + n < 2 ^ 64 ->
  wp (loop (S m) (consoleread_step target) (dst, n)) (read_done target dst n q l s) s.
Proof.
  induction m as [|m IH]; intros n dst q s -> Ht Hh Hu Hd Hdn; apply wp_loop_S; unfold consoleread_step at 1.
  { change (Z.of_nat 0 >? 0) with false. wp_steps. unfold read_done. repeat (split; [auto|]). exists O. split; [left; lia|]. cbn [line_read length Z.to_nat].
    split; [apply delivered_nil|]. split; [exact Hh |].
    cbn [length]. apply (f_equal Returned). lia. }
  replace (Z.of_nat (S m) >? 0) with true by lia. wp_steps. rewrite (queue_empty _ _ _ Hh). destruct q as [|c q].
  { rewrite bool_decide_eq_true_2 by reflexivity. wp_steps. unfold read_done. repeat (split; [auto|]). exists (S m). split; [left; lia|].
    rewrite Nat2Z.id. cbn [line_read length]. split; [apply delivered_nil|]. split; [exact Hh|]. rewrite Z.add_0_r, Z.sub_0_r. reflexivity. }
  rewrite bool_decide_eq_false_2 by discriminate. destruct (take_holds _ _ _ _ Hh) as (Ec & Hh1 & Eback). rewrite Ec. wp_steps.
  change (C x44) with (b2z x04). rewrite b2z_eqb. case_bool_decide as Ed.
  { wp_steps. apply wp_when; intros Elt; wp_steps; unfold read_done; repeat (split; [auto|]); exists (S m); (split; [left; lia|]);
    rewrite Nat2Z.id; cbn [line_read]; rewrite bool_decide_eq_true_2 by exact Ed; (split; [apply delivered_nil|]).
    - replace (S m <? Z.to_nat target)%nat with true by lia. cbn [co set_co length]. split; [|apply (f_equal Returned); lia].
      rewrite <- Eback in Hh. exact Hh.
    - replace (S m <? Z.to_nat target)%nat with false by lia. split; [exact Hh1|]. cbn [length]. apply (f_equal Returned). lia. }
  wp_steps. cbn [user set_co].
  pose proof (ucopyout_law dst [c] (user s) Hu ltac:(lia)) as Hlaw. apply wp_run in Hlaw as (x & u' & Hrun & Hok & k & Hk & Hview & Hacc & Hres).
  unfold wp at 1. rewrite Hrun. cbn [length] in *. destruct Hres as [[-> ->]|[-> Hk0]]; cbn [Z.eqb].
  2:{ wp_steps. unfold read_done. repeat (split; [auto|]). exists O. split; [right; split; [lia|]; exists (user s), c, u'; rewrite Z.add_0_r; exact Hrun|].
      rewrite Nat2Z.id. cbn [line_read]. rewrite bool_decide_eq_false_2 by exact Ed. split; [|split; [exact Hh1|]; cbn [length]; apply (f_equal Returned); lia].
      split; [|cbn; lia]. intros y. cbn [user set_user length]. rewrite Hview. replace (_ && _) with false by lia.
      replace (_ && _) with false by lia. reflexivity. }
  assert (Hdel : delivered dst [c] (user s) u') by (split; assumption).
  case_bool_decide as Enl.
  { wp_steps. unfold read_done. repeat (split; [auto|]). exists (S m). split; [left; lia|]. rewrite Nat2Z.id. cbn [line_read].
    rewrite (bool_decide_eq_false_2 _ Ed), (bool_decide_eq_true_2 _ Enl). split; [exact Hdel|]. split; [exact Hh1|]. cbn [length]. apply (f_equal Returned). lia. }
  wp_steps. replace (u64 (dst + 1)) with (dst + 1) by (unfold u64; rewrite Z.mod_small; lia).
  eapply wp_mono; [apply (IH _ (dst + 1) q); [lia | lia | exact Hh1 | exact Hok | lia | lia]|].
  intros e s' (H1 & H2 & H3 & H4 & H5 & room & Hroom & Hrest). unfold read_done. cbn in H1, H2, H3, H5. repeat (split; [auto|]). exists (S room).
  split.
  { destruct Hroom as [->|[Hlt (u & b & u2 & Hf)]]; [left; lia | right; split; [lia|]]. exists u, b, u2.
    replace (dst + Z.of_nat (S room)) with (dst + 1 + Z.of_nat room) by lia. exact Hf. }
  rewrite Nat2Z.id. cbn [line_read]. rewrite bool_decide_eq_false_2 by exact Ed. rewrite bool_decide_eq_false_2 by exact Enl.
  replace (Z.to_nat (Z.of_nat (S m) - 1)) with m in Hrest by lia.
  destruct (line_read (Z.to_nat target) room m q) as [bs rest]. destruct Hrest as [Hdel2 Hrest].
  split; [exact (delivered_cons _ _ _ _ _ _ Hdel Hdel2)|].
  cbn [length] in *. cbn [killed set_user set_co] in Hrest. destruct rest as [q'|]; destruct Hrest as [K1 ->]; (split; [exact K1|]); [apply (f_equal Returned); lia|].
  destruct (killed s); [reflexivity | f_equal; lia].
Qed.

(** C16: a run of [consoleread] returns or goes to sleep, and takes from the
    committed bytes exactly what [line_read] says: at most one line and at most
    [n] bytes, a ^D ends the read and is kept for the next one unless nothing
    was read; it sleeps only when nothing is committed, with the bytes so far
    in the memory of the process, and is interrupted then by a kill.  A byte
    whose copy out fails is lost. *)
Theorem consoleread_correct target dst n q l s :
  holds (co s) q l -> c_lock (co s) = false -> um_ok (user s) -> 0 <= n <= target -> 0 <= dst -> dst + n < 2 ^ 64 ->
  wp (consoleread target dst n) (read_done target dst n q l s) s.
Proof.
  intros Hh Hl Hu Hn Hd Hdn. unfold consoleread. wp_steps. apply wp_acquire; [exact Hl|]. wp_steps.
  assert (Hh1 : forall b (s1 : cstate) q1, holds (co s1) q1 l -> holds (co (set_lock b s1)) q1 l) by (intros b s1 q1 [? ? ? ? ? ?]; split; assumption).
  eapply wp_mono; [apply (consoleread_loop_wp target l (Z.to_nat n) n dst q (set_lock true s)); auto; lia|].
  intros e s' (H1 & H2 & H3 & H4 & H5 & room & Hroom & Hrest). wp_steps. apply wp_release; [exact H5|]. wp_steps.
  unfold read_done. repeat (split; [auto|]). exists room. split; [exact Hroom|].
  destruct (line_read _ _ _ q) as [bs rest]. destruct Hrest as [Hdel Hrest]. split; [exact Hdel|].
  destruct rest; destruct Hrest as [K1 K2]; (split; [apply Hh1, K1 | exact K2]).
Qed.
End Console.

(** Typing "hx", backspace, "i", carriage return, with the indices about to
    wrap around. *)
Definition demo_cons : cons := Cons false (fun _ => x00) (2 ^ 32 - 1) (2 ^ 32 - 1) (2 ^ 32 - 1).
Definition demo_typing : cstate := CState demo_cons [] 0 (fun _ : Z => x00) false.

Lemma demo_cons_holds : holds demo_cons [] [].
Proof. constructor; cbn; try lia; try reflexivity; [unfold INPUT_BUF_SIZE; lia | intros i x Hi; discriminate | constructor]. Qed.

Lemma uartintr_line_discipline_witness : wp (uartintr_input [x68; x78; x7f; x69; x0d])
  (fun _ => keyed [x68; x69; x0a] [] [Echo x68; Echo x78; Echo x08; Echo x20; Echo x08; Echo x69; Echo x0a] 1 demo_typing) demo_typing.
Proof. apply (uartintr_line_discipline [x68; x78; x7f; x69; x0d] [] [] demo_typing); [exact demo_cons_holds | reflexivity]. Defined.

(** Two lines are committed; a read gets the first. *)
Definition demo_reading : cstate :=
  CState (Cons false (fun i => if i =? 1 then x0a else x68) 0 4 4) [] 0 (fun _ : Z => x00) false.

Lemma demo_reading_holds : holds (co demo_reading) [x68; x0a; x68; x68] [].
Proof.
  constructor; cbn; try lia; try reflexivity; [unfold INPUT_BUF_SIZE; lia | | constructor].
  intros [|[|[|[|i]]]] x Hi; try discriminate; injection Hi as <-; reflexivity.
Qed.

Lemma consoleread_correct_witness :
  wp (consoleread (H := flat_user) 100 4096 100) (read_done (H := flat_user) 100 4096 100 [x68; x0a; x68; x68] [] demo_reading) demo_reading /\
  line_read 100 100 100 [x68; x0a; x68; x68] = ([x68; x0a], Some [x68; x68]).
Proof. split; [apply (consoleread_correct (H := flat_user)); [exact demo_reading_holds | reflexivity | exact I | lia | lia | lia] | reflexivity]. Defined.
End Console.
