(* ===== verification/Uart.v ===== *)
(** * The console's output: kernel/uart.c and [consolewrite] of kernel/console.c

    Processes in [consolewrite], which calls [uartputc] for each byte, the
    interrupt handler [uartintr], harts in [uartputc_sync] (kernel [printf]
    and the echo of the console, which do not take [uart_tx_lock]) and the
    UART itself, interleaved.  A section under [uart_tx_lock] is as many steps
    as it has accesses to the device's registers, because the device and
    [uartputc_sync] may run between any two of them.  [panicked] is 0. *)

From S2P Require Import Prelude Memory FsDefs UserMem.

Module Uart.

(** [WriteReg(reg, v)], in order. *)
Definition uartinit : list (Z * Z) :=
  let IER := 1 in let FCR := 2 in let LCR := 3 in
  let LCR_BAUD_LATCH := Z.shiftl 1 7 in let LCR_EIGHT_BITS := Z.shiftl 3 0 in
  let FCR_FIFO_ENABLE := Z.shiftl 1 0 in let FCR_FIFO_CLEAR := Z.shiftl 3 1 in
  let IER_RX_ENABLE := Z.shiftl 1 0 in let IER_TX_ENABLE := Z.shiftl 1 1 in
  [(IER, 0); (LCR, LCR_BAUD_LATCH); (0, 3); (1, 0); (LCR, LCR_EIGHT_BITS);
   (FCR, Z.lor FCR_FIFO_ENABLE FCR_FIFO_CLEAR); (IER, Z.lor IER_TX_ENABLE IER_RX_ENABLE)].

Definition LSR_TX_IDLE : Z := Z.shiftl 1 5.
Definition UART_TX_BUF_SIZE : Z := 32.
Definition HARTS : nat := Z.to_nat NCPU.
(** The depth of the transmit FIFO, which [uartinit] enables. *)
Definition FIFO : Z := 16.

(** The transmitter of a 16550A.  [LSR_TX_IDLE] says that its FIFO is empty;
    it interrupts when the FIFO has become empty, until the interrupt status
    register is read or a byte is written; a byte written when there is no
    room would be lost. *)
Class Ns16550 (D : Type) := {
  lsr : D -> Z;
  write_thr : byte -> D -> D;
  read_isr : D -> D;
  dev : D -> D -> Prop;
  tx_irq : D -> bool;
  sent : D -> list byte;
  room : D -> Z;
  dev_ok : D -> Prop;

  idle d := negb (Z.land (lsr d) LSR_TX_IDLE =? 0);
  idle_law d : dev_ok d -> idle d = true -> FIFO <= room d;
  write_law b d : dev_ok d -> 0 < room d ->
    dev_ok (write_thr b d) /\ sent (write_thr b d) = sent d ++ [b] /\ room d - 1 <= room (write_thr b d) /\ idle (write_thr b d) = false;
  isr_law d : dev_ok d -> dev_ok (read_isr d) /\ sent (read_isr d) = sent d /\ room (read_isr d) = room d /\ idle (read_isr d) = idle d;
  dev_law d d' : dev_ok d -> dev d d' ->
    dev_ok d' /\ sent d' = sent d /\ room d <= room d' /\
    (if idle d then idle d' = true /\ (tx_irq d = true -> tx_irq d' = true) else idle d' = true -> tx_irq d' = true);
  drain_law d : dev_ok d -> idle d = false -> exists d', rtc dev d d' /\ idle d' = true
}.

(** Where a caller is in [uartstart]: at the head of the loop, about to write
    a byte it took out of the buffer, or after it. *)
Inductive upc := Head | Write (c : byte) | Exit.
(** A process in [consolewrite], with [i] bytes written: at the head of the
    loop, calling [uartputc(c)], looking whether the buffer is full, asleep on
    [uart_tx_r], in [uartstart], returned. *)
Inductive wpc := WLoop (i : Z) | WEnter (i : Z) (c : byte) | WFull (i : Z) (c : byte) | WSleep (i : Z) (c : byte)
  | WStart (i : Z) (p : upc) | WDone (r : Z).
(** [uartintr], after the input. *)
Inductive hpc := HIdle | HEnter | HStart (p : upc).
(** A hart in [uartputc_sync]: not there, spinning, about to write. *)
Inductive spc := SIdle | SWait (c : byte) | SWrite (c : byte).
Inductive who := Writer (t : nat) | Intr.

#[export] Instance who_eq : EqDecision who.
Proof. solve_decision. Defined.
#[export] Instance upc_eq : EqDecision upc.
Proof. solve_decision. Defined.

Section Uart.
Context {U D : Type} `{UserMem U} `{Ns16550 D}.
(** What each process writes: the address and the length, and its memory. *)
Context (src n : nat -> Z) (mem : nat -> U).

(** The last two fields record the bytes put into the buffer, with the
    process, and the bytes written to the device, with whether they came from
    the buffer; the code does not look at them. *)
Record state := State {
  tx_buf : Z -> byte;
  tx_w : Z;
  tx_r : Z;
  tx_lock : option who;
  d : D;
  wr : nat -> wpc;
  ih : hpc;
  sy : nat -> spc;
  acc : list (nat * byte);
  log : list (bool * byte)
}.

Definition set_d (d' : D) (s : state) : state := State (tx_buf s) (tx_w s) (tx_r s) (tx_lock s) d' (wr s) (ih s) (sy s) (acc s) (log s).
Definition set_wr (t : nat) (p : wpc) (s : state) : state :=
  State (tx_buf s) (tx_w s) (tx_r s) (tx_lock s) (d s) (<[t := p]> (wr s)) (ih s) (sy s) (acc s) (log s).
Definition set_ih (p : hpc) (s : state) : state := State (tx_buf s) (tx_w s) (tx_r s) (tx_lock s) (d s) (wr s) p (sy s) (acc s) (log s).
Definition set_sy (h : nat) (p : spc) (s : state) : state :=
  State (tx_buf s) (tx_w s) (tx_r s) (tx_lock s) (d s) (wr s) (ih s) (<[h := p]> (sy s)) (acc s) (log s).
Definition set_lock (l : option who) (s : state) : state := State (tx_buf s) (tx_w s) (tx_r s) l (d s) (wr s) (ih s) (sy s) (acc s) (log s).

(** [wakeup(&uart_tx_r)]: a sleeper goes on to acquire the lock. *)
Definition rouse (p : wpc) : wpc := match p with WSleep i c => WEnter i c | _ => p end.

(** [WriteReg(THR, c)] *)
Definition put_thr (ring : bool) (c : byte) (s : state) : state :=
  State (tx_buf s) (tx_w s) (tx_r s) (tx_lock s) (write_thr c (d s)) (wr s) (ih s) (sy s) (acc s) (log s ++ [(ring, c)]).

(** One pass of the loop of [uartstart], up to the next access to the device. *)
Definition uartstart (p : upc) (s : state) : upc * state :=
  match p with
  | Head =>
      if tx_w s =? tx_r s then (Exit, set_d (read_isr (d s)) s)
      else if Z.land (lsr (d s)) LSR_TX_IDLE =? 0 then (Exit, s)
      else
        (Write (tx_buf s (tx_r s mod UART_TX_BUF_SIZE)),
         State (tx_buf s) (tx_w s) (u64 (tx_r s + 1)) (tx_lock s) (d s) (fun t => rouse (wr s t)) (ih s) (sy s) (acc s) (log s))
  | Write c => (Head, put_thr true c s)
  | Exit => (Exit, s)
  end.

(** The store of [uartputc]. *)
Definition store (t : nat) (c : byte) (s : state) : state :=
  State (<[tx_w s mod UART_TX_BUF_SIZE := c]> (tx_buf s)) (u64 (tx_w s + 1)) (tx_r s) (tx_lock s) (d s) (wr s) (ih s) (sy s)
    (acc s ++ [(t, c)]) (log s).

(** The steps; [input] says whether the UART may interrupt because of input. *)
Inductive step (input : bool) (s : state) : state -> Prop :=
| w_copyin t i x bs u : wr s t = WLoop i -> i < n t -> ucopyin (u64 (src t + i)) 1 (mem t) = Ret (x, bs) u ->
    step input s (set_wr t (if x =? -1 then WDone i else WEnter i (default x00 (head bs))) s)
| w_return t i : wr s t = WLoop i -> n t <= i -> step input s (set_wr t (WDone i) s)
| w_acquire t i c : wr s t = WEnter i c -> tx_lock s = None -> step input s (set_lock (Some (Writer t)) (set_wr t (WFull i c) s))
| w_sleep t i c : wr s t = WFull i c -> tx_w s = u64 (tx_r s + UART_TX_BUF_SIZE) -> step input s (set_lock None (set_wr t (WSleep i c) s))
| w_store t i c : wr s t = WFull i c -> tx_w s <> u64 (tx_r s + UART_TX_BUF_SIZE) -> step input s (store t c (set_wr t (WStart i Head) s))
| w_start t i p p' s' : wr s t = WStart i p -> p <> Exit -> uartstart p s = (p', s') -> step input s (set_wr t (WStart i p') s')
| w_release t i : wr s t = WStart i Exit -> step input s (set_lock None (set_wr t (WLoop (i + 1)) s))
| h_transmit : ih s = HIdle -> tx_irq (d s) = true -> step input s (set_ih HEnter s)
| h_receive : ih s = HIdle -> input = true -> step input s (set_ih HEnter s)
| h_acquire : ih s = HEnter -> tx_lock s = None -> step input s (set_lock (Some Intr) (set_ih (HStart Head) s))
| h_start p p' s' : ih s = HStart p -> p <> Exit -> uartstart p s = (p', s') -> step input s (set_ih (HStart p') s')
| h_release : ih s = HStart Exit -> step input s (set_lock None (set_ih HIdle s))
| y_call h c : (h < HARTS)%nat -> sy s h = SIdle -> step input s (set_sy h (SWait c) s)
| y_idle h c : (h < HARTS)%nat -> sy s h = SWait c -> Z.land (lsr (d s)) LSR_TX_IDLE <> 0 -> step input s (set_sy h (SWrite c) s)
| y_write h c : (h < HARTS)%nat -> sy s h = SWrite c -> step input s (put_thr false c (set_sy h SIdle s))
| d_step d' : dev (d s) d' -> step input s (set_d d' s).

(** [N] processes about to call [consolewrite]. *)
Definition init (N : nat) (b : Z -> byte) (d0 : D) : state :=
  State b 0 0 None d0 (fun t => if (t <? N)%nat then WLoop 0 else WDone 0) HIdle (fun _ => SIdle) [] [].
End Uart.
End Uart.
