(* ===== verification/UartRun.v ===== *)
(** * The invariant of the console's output

    The buffer holds the bytes put and not yet taken, in order; a sleeping
    writer means a full buffer; if there is something to send and the device
    is idle, an interrupt is pending or somebody is in [uartstart]; and the
    FIFO has room for every byte that somebody is about to write. *)

From S2P Require Import Prelude Memory FsDefs UserMem Uart.

Module UartRun.
Import Uart.

(** ** Sums over the first [k] indices *)

Definition sumf {A} (g : nat -> A -> nat) (f : nat -> A) (k : nat) : nat := sum_list_with (fun i => g i (f i)) (seq 0 k).

Lemma sumf_S {A} (g : nat -> A -> nat) f k : sumf g f (S k) = (sumf g f k + g k (f k))%nat.
Proof. unfold sumf. rewrite seq_S, sum_list_with_app. cbn. lia. Qed.

Lemma sumf_out {A} (g : nat -> A -> nat) f i x k : (k <= i)%nat -> sumf g (<[i := x]> f) k = sumf g f k.
Proof.
  induction k as [|k IH]; intros Hk; [reflexivity|]. rewrite !sumf_S, IH by lia. rewrite fn_lookup_insert_ne by lia. reflexivity.
Qed.

Lemma sumf_insert {A} (g : nat -> A -> nat) f i x k : (i < k)%nat -> (sumf g (<[i := x]> f) k + g i (f i) = sumf g f k + g i x)%nat.
Proof.
  induction k as [|k IH]; intros Hk; [lia|]. rewrite !sumf_S. destruct (decide (i = k)) as [->|Hne].
  - rewrite sumf_out by lia. rewrite fn_lookup_insert. lia.
  - rewrite fn_lookup_insert_ne by lia. specialize (IH ltac:(lia)). lia.
Qed.

Lemma sumf_le {A} (g : nat -> A -> nat) f m k : (forall i, (i < k)%nat -> (g i (f i) <= m)%nat) -> (sumf g f k <= m * k)%nat.
Proof. induction k as [|k IH]; intros Hg; [cbn; lia|]. rewrite sumf_S. pose proof (Hg k ltac:(lia)). rewrite Nat.mul_succ_r. specialize (IH ltac:(auto)). lia. Qed.

Lemma sumf_ext {A} (g : nat -> A -> nat) f f' k : (forall i, (i < k)%nat -> g i (f i) = g i (f' i)) -> sumf g f k = sumf g f' k.
Proof. induction k as [|k IH]; intros Hg; [reflexivity|]. rewrite !sumf_S, IH, Hg by auto. reflexivity. Qed.

(** ** The invariant *)

Definition locked (p : wpc) : bool := match p with WFull _ _ | WStart _ _ => true | _ => false end.
Definition hlocked (p : hpc) : bool := match p with HStart _ => true | _ => false end.
Definition sync (p : spc) : nat := match p with SWrite _ => 1 | _ => 0 end.
(** The bytes a process has put into the buffer. *)
Definition written (p : wpc) : Z :=
  match p with WLoop i | WEnter i _ | WFull i _ | WSleep i _ | WDone i => i | WStart i _ => i + 1 end.

Definition put_by (t : nat) (a : list (nat * byte)) : list byte := (filter (fun x => x.1 = t) a).*2.
Definition ring_part (l : list (bool * byte)) : list byte := (filter (fun x => x.1 = true) l).*2.

Section Run.
Context {D : Type} `{Ns16550 D} (d0 : D).

Local Abbreviation state := (@Uart.state D).

(** Where the owner of the lock is in [uartstart]. *)
Definition cur (s : state) : option upc :=
  match tx_lock s with
  | Some (Writer t) => match wr s t with WStart _ p => Some p | _ => None end
  | Some Intr => match ih s with HStart p => Some p | _ => None end
  | None => None
  end.
Definition pend (s : state) : list byte := match cur s with Some (Write c) => [c] | _ => [] end.
Definition starting (s : state) : Prop := cur s <> None /\ cur s <> Some Exit.

(** The buffer, the device and the records of what was written; [pd] is the
    byte taken out of the buffer and not yet written. *)
Record core (q pd : list byte) (buf : Z -> byte) (w r : Z) (d : D) (sy : nat -> spc) (acc : list (nat * byte)) (log : list (bool * byte)) : Prop := {
  i_ok : dev_ok d;
  i_r : 0 <= r < 2 ^ 64;
  i_w : w = u64 (r + Z.of_nat (length q));
  i_len : Z.of_nat (length q) <= UART_TX_BUF_SIZE;
  i_buf : forall i b, q !! i = Some b -> buf ((r + Z.of_nat i) mod UART_TX_BUF_SIZE) = b;
  i_room : Z.of_nat (sumf (fun _ => sync) sy HARTS + length pd) <= room d;
  i_acc : acc.*2 = ring_part log ++ pd ++ q;
  i_sent : sent d = sent d0 ++ log.*2
}.
Definition core_of (q pd : list byte) (s : state) : Prop := core q pd (tx_buf s) (tx_w s) (tx_r s) (d s) (sy s) (acc s) (log s).

(** ** The buffer and the device *)

Lemma uart_mod_wrap z : u64 z mod UART_TX_BUF_SIZE = z mod UART_TX_BUF_SIZE.
Proof. unfold u64, UART_TX_BUF_SIZE. zdiv. Qed.

Section Core.
Context (q pd : list byte) (s : state) (HC : core_of q pd s).

Lemma core_full : (tx_w s =? u64 (tx_r s + UART_TX_BUF_SIZE)) = (Z.of_nat (length q) =? UART_TX_BUF_SIZE).
Proof. destruct HC. rewrite i_w0. unfold u64, UART_TX_BUF_SIZE in *. zdiv. Qed.

Lemma core_empty : (tx_w s =? tx_r s) = bool_decide (q = []).
Proof.
  destruct HC. rewrite i_w0. case_bool_decide as E; [subst q; cbn; rewrite Z.eqb_eq; unfold u64; rewrite Z.mod_small; lia|].
  destruct q; [done|]. cbn [length] in *. unfold u64, UART_TX_BUF_SIZE in *. zdiv.
Qed.

Lemma core_store t c : Z.of_nat (length q) < UART_TX_BUF_SIZE -> core_of (q ++ [c]) pd (store t c s).
Proof.
  intros Hlt. destruct HC. split; cbn [tx_buf tx_w tx_r d sy acc log store]; auto.
  - rewrite i_w0, length_app. cbn [length]. unfold u64. zdiv.
  - rewrite length_app. cbn [length]. lia.
  - intros i b Hi. rewrite i_w0, uart_mod_wrap. apply lookup_app_Some in Hi as [Hi|[Hi1 Hi2]].
    + pose proof (lookup_lt_Some _ _ _ Hi). rewrite fn_lookup_insert_ne; [apply i_buf0; exact Hi|]. unfold UART_TX_BUF_SIZE in *. zdiv.
    + apply list_lookup_singleton_Some in Hi2 as [Hi2 <-]. replace i with (length q) by lia. apply fn_lookup_insert.
  - rewrite fmap_app, i_acc0, <- !app_assoc. reflexivity.
Qed.

Lemma core_isr : core_of q pd (set_d (read_isr (d s)) s).
Proof. destruct HC. destruct (isr_law _ i_ok0) as (H1 & H2 & H3 & H4). split; cbn [tx_buf tx_w tx_r d sy acc log set_d]; rewrite ?H2, ?H3; auto. Qed.

Lemma core_dev d' : dev (d s) d' -> core_of q pd (set_d d' s).
Proof. intros Hd. destruct HC. destruct (dev_law _ _ i_ok0 Hd) as (H1 & H2 & H3 & H4). split; cbn [tx_buf tx_w tx_r d sy acc log set_d]; rewrite ?H2; auto; lia. Qed.
End Core.

(** An empty FIFO has room for a byte of every hart and one from the buffer. *)
Lemma idle_room (dv : D) (f : nat -> spc) : dev_ok dv -> idle dv = true -> Z.of_nat (sumf (fun _ => sync) f HARTS + 1) <= room dv.
Proof.
  intros Hok Hi. pose proof (idle_law _ Hok Hi).
  assert ((sumf (fun _ => sync) f HARTS <= 1 * HARTS)%nat) by (apply sumf_le; intros j _; destruct (f j); cbn; lia). unfold FIFO, HARTS, NCPU in *. lia.
Qed.

Lemma ring_part_snoc l b c : ring_part (l ++ [(b, c)]) = ring_part l ++ (if b then [c] else []).
Proof. unfold ring_part. rewrite filter_app, fmap_app. f_equal. destruct b; reflexivity. Qed.

Lemma uart_core_take b q s : core_of (b :: q) [] s -> idle (d s) = true ->
  tx_buf s (tx_r s mod UART_TX_BUF_SIZE) = b /\ core q [b] (tx_buf s) (tx_w s) (u64 (tx_r s + 1)) (d s) (sy s) (acc s) (log s).
Proof.
  intros HC Hi. destruct HC. cbn [length] in *. split.
  - specialize (i_buf0 O b eq_refl). rewrite Z.add_0_r in i_buf0. exact i_buf0.
  - split; auto.
    + apply Z.mod_pos_bound. lia.
    + rewrite i_w0. unfold u64. zdiv.
    + lia.
    + intros j x Hj. specialize (i_buf0 (S j) x Hj). rewrite <- i_buf0. f_equal. unfold u64, UART_TX_BUF_SIZE. zdiv.
    + apply idle_room; assumption.
Qed.

Lemma core_write c q s : core_of q [c] s -> core_of q [] (put_thr true c s) /\ idle (write_thr c (d s)) = false.
Proof.
  intros HC. destruct HC. cbn [length] in *. destruct (write_law c _ i_ok0 ltac:(lia)) as (H1 & H2 & H3 & H4). split; [|exact H4].
  split; cbn [tx_buf tx_w tx_r d sy acc log put_thr length]; auto.
  - lia.
  - rewrite i_acc0, ring_part_snoc, <- !app_assoc. reflexivity.
  - rewrite H2, i_sent0, fmap_app, app_assoc. reflexivity.
Qed.

Lemma core_sync_write h c q pd s : core_of q pd s -> (h < HARTS)%nat -> sy s h = SWrite c ->
  core_of q pd (put_thr false c (set_sy h SIdle s)) /\ idle (write_thr c (d s)) = false.
Proof.
  intros HC Hh Hs. destruct HC. pose proof (sumf_insert (fun _ => sync) (sy s) h SIdle HARTS Hh) as Hsum. rewrite Hs in Hsum. cbn [sync] in Hsum.
  destruct (write_law c _ i_ok0 ltac:(lia)) as (H1 & H2 & H3 & H4). split; [|exact H4].
  split; cbn [tx_buf tx_w tx_r d sy acc log put_thr set_sy]; auto.
  - lia.
  - rewrite i_acc0, ring_part_snoc, app_nil_r. reflexivity.
  - rewrite H2, i_sent0, fmap_app, app_assoc. reflexivity.
Qed.

Lemma core_sync h p q pd s : core_of q pd s -> (h < HARTS)%nat -> (length pd <= 1)%nat ->
  (sync p <= sync (sy s h))%nat \/ idle (d s) = true -> core_of q pd (set_sy h p s).
Proof.
  intros HC Hh Hpd Hor. destruct HC. split; cbn [tx_buf tx_w tx_r d sy acc log set_sy]; auto.
  destruct Hor as [Hle|Hi]; [pose proof (sumf_insert (fun _ => sync) (sy s) h p HARTS Hh); lia|].
  pose proof (idle_room (d s) (<[h := p]> (sy s)) i_ok0 Hi). lia.
Qed.

(** ** The threads of control *)

Context {U : Type} `{UserMem U} (src n : nat -> Z) (mem : nat -> U) (N : nat).

Definition mine (t : nat) (p : wpc) (bs : list byte) : Prop :=
  Z.of_nat (length bs) = written p /\ written p <= n t /\
  (forall j b, bs !! j = Some b -> uview (mem t) (src t + Z.of_nat j) = Some b) /\
  match p with
  | WEnter i c | WFull i c | WSleep i c => i < n t /\ uview (mem t) (src t + i) = Some c
  | WDone r => r = n t \/ uview (mem t) (src t + r) = None
  | _ => True
  end.

Record pcs (q : list byte) (s : state) : Prop := {
  i_lockw : forall t, locked (wr s t) = true <-> tx_lock s = Some (Writer t);
  i_lockh : hlocked (ih s) = true <-> tx_lock s = Some Intr;
  i_sleep : forall t i c, wr s t = WSleep i c -> Z.of_nat (length q) = UART_TX_BUF_SIZE;
  i_irq : q <> [] -> idle (d s) = true -> tx_irq (d s) = true \/ starting s;
  i_mine : forall t, (t < N)%nat -> mine t (wr s t) (put_by t (acc s));
  i_out : forall t, (N <= t)%nat -> wr s t = WDone 0
}.

Definition inv (q : list byte) (s : state) : Prop := core_of q (pend s) s /\ pcs q s.

Lemma mine_ext t p p' bs : written p' = written p -> match p' with WEnter _ _ | WFull _ _ | WSleep _ _ | WDone _ => False | _ => True end ->
  mine t p bs -> mine t p' bs.
Proof. intros E Hp (H1 & H2 & H3 & H4). unfold mine. rewrite E. destruct p'; auto 10; contradiction. Qed.

Lemma put_by_snoc t t' c a : put_by t (a ++ [(t', c)]) = put_by t a ++ (if decide (t' = t) then [c] else []).
Proof. unfold put_by. rewrite filter_app, fmap_app. f_equal. unfold filter. cbn. case_decide; reflexivity. Qed.

Section Pcs.
Context (q : list byte) (s : state) (HP : pcs q s).

Lemma pcs_free t : tx_lock s = None -> locked (wr s t) = false.
Proof. intros El. destruct (locked (wr s t)) eqn:E; [|reflexivity]. apply (i_lockw _ _ HP) in E. congruence. Qed.

Lemma pcs_lt t : wr s t <> WDone 0 -> (t < N)%nat.
Proof. intros Hne. destruct (decide (t < N)%nat); [assumption|]. exfalso. apply Hne, (i_out _ _ HP). lia. Qed.

(** A process that neither holds nor takes the lock does not matter to the others. *)
Lemma cur_other t p : locked (wr s t) = false -> cur (set_wr t p s) = cur s.
Proof.
  intros Hl. unfold cur. cbn [tx_lock wr ih set_wr]. destruct (tx_lock s) as [[t'|]|] eqn:El; try reflexivity.
  destruct (decide (t' = t)) as [->|Hne]; [|rewrite fn_lookup_insert_ne by auto; reflexivity].
  apply (i_lockw _ _ HP) in El. congruence.
Qed.

Lemma pcs_other t p : locked (wr s t) = false -> locked p = false -> wr s t <> WDone 0 -> (forall i c, p <> WSleep i c) ->
  mine t p (put_by t (acc s)) -> pcs q (set_wr t p s).
Proof.
  intros Hl Hp Hne Hsl Hm. pose proof (pcs_lt t Hne) as Ht. pose proof (cur_other t p Hl) as Ec. destruct HP.
  split; unfold starting; rewrite ?Ec; auto; cbn [tx_lock wr ih d acc set_wr]; intros t'; destruct (decide (t' = t)) as [->|Hne'];
    rewrite ?fn_lookup_insert, ?fn_lookup_insert_ne by auto; auto.
  - rewrite Hp, <- i_lockw0, Hl. reflexivity.
  - intros i c E. destruct (Hsl _ _ E).
  - eauto.
  - lia.
Qed.
End Pcs.

Lemma locked_rouse p : locked (rouse p) = locked p.
Proof. destruct p; reflexivity. Qed.
Lemma mine_rouse t p bs : mine t p bs -> mine t (rouse p) bs.
Proof. destruct p; auto. Qed.

(** The other processes stay where they are, or are woken up. *)
Definition same_or_roused (f g : nat -> wpc) (t : nat) : Prop := g t = f t \/ g t = rouse (f t).

Lemma same_or_roused_locked f g t : same_or_roused f g t -> locked (g t) = locked (f t).
Proof. intros [->| ->]; [reflexivity | apply locked_rouse]. Qed.
Lemma same_or_roused_mine f g t bs : same_or_roused f g t -> mine t (f t) bs -> mine t (g t) bs.
Proof. intros [->| ->]; [auto | apply mine_rouse]. Qed.
Lemma same_or_roused_done f g t r : same_or_roused f g t -> f t = WDone r -> g t = WDone r.
Proof. intros [->| ->] ->; reflexivity. Qed.

Definition full_sleepers (q : list byte) (s : state) : Prop := forall t i c, wr s t = WSleep i c -> Z.of_nat (length q) = UART_TX_BUF_SIZE.
Definition irq_fine (q : list byte) (s : state) : Prop := q <> [] -> idle (d s) = true -> tx_irq (d s) = true \/ starting s.

(** A step of a process that holds the lock, takes it or gives it up. *)
Lemma pcs_writer q s q' s' t : pcs q s -> tx_lock s = None \/ tx_lock s = Some (Writer t) -> (t < N)%nat ->
  tx_lock s' = (if locked (wr s' t) then Some (Writer t) else None) -> ih s' = ih s ->
  (forall t', t' <> t -> same_or_roused (wr s) (wr s') t' /\ put_by t' (acc s') = put_by t' (acc s)) ->
  full_sleepers q' s' -> irq_fine q' s' -> mine t (wr s' t) (put_by t (acc s')) -> pcs q' s'.
Proof.
  intros HP Hl Ht El Eh Ho Hsl Hirq Hm. destruct HP. split; auto.
  - intros t'. destruct (decide (t' = t)) as [->|Hne].
    + rewrite El. destruct (locked (wr s' t)); split; congruence.
    + rewrite (same_or_roused_locked _ _ _ (proj1 (Ho t' Hne))), i_lockw0, El. destruct Hl as [-> | ->], (locked (wr s' t)); split; congruence.
  - rewrite Eh, i_lockh0, El. destruct Hl as [-> | ->], (locked (wr s' t)); split; congruence.
  - intros t' Ht'. destruct (decide (t' = t)) as [->|Hne]; [exact Hm|]. destruct (Ho t' Hne) as [H1 ->].
    apply (same_or_roused_mine (wr s)); auto.
  - intros t' Ht'. apply (same_or_roused_done (wr s)); [apply Ho; lia | auto].
Qed.

(** The same for the interrupt handler. *)
Lemma pcs_intr q s q' s' : pcs q s -> tx_lock s = None \/ tx_lock s = Some Intr ->
  tx_lock s' = (if hlocked (ih s') then Some Intr else None) -> acc s' = acc s -> (forall t, same_or_roused (wr s) (wr s') t) ->
  full_sleepers q' s' -> irq_fine q' s' -> pcs q' s'.
Proof.
  intros HP Hl El Ea Ho Hsl Hirq. destruct HP. split; auto.
  - intros t'. rewrite (same_or_roused_locked _ _ _ (Ho t')), i_lockw0, El. destruct Hl as [-> | ->], (hlocked (ih s')); split; congruence.
  - rewrite El. destruct (hlocked (ih s')); split; congruence.
  - intros t' Ht'. rewrite Ea. apply (same_or_roused_mine (wr s)); auto.
  - intros t' Ht'. apply (same_or_roused_done (wr s)); auto.
Qed.

Definition held_byte (p : upc) : list byte := match p with Write c => [c] | _ => [] end.

(** One pass of [uartstart], by whoever holds the lock. *)
Lemma uartstart_fine q p s p' s' : core_of q (held_byte p) s -> pcs q s -> p <> Exit -> uartstart p s = (p', s') ->
  exists q', core_of q' (held_byte p') s' /\ full_sleepers q' s' /\
    (q' <> [] -> idle (d s') = true -> tx_irq (d s') = true \/ p' <> Exit) /\
    tx_lock s' = tx_lock s /\ ih s' = ih s /\ acc s' = acc s /\ forall t, same_or_roused (wr s) (wr s') t.
Proof.
  intros HC HP Hne E. destruct p as [|c|]; [| |done]; cbn [uartstart held_byte] in *.
  - rewrite (core_empty _ _ _ HC) in E. case_bool_decide as Eq.
    { injection E as <- <-. exists q. subst q. split; [apply core_isr; exact HC|]. split; [exact (i_sleep _ _ HP)|]. split; [done|]. unfold same_or_roused. auto. }
    destruct (Z.land (lsr (d s)) LSR_TX_IDLE =? 0) eqn:Ei; injection E as <- <-.
    + exists q. split; [exact HC|]. split; [exact (i_sleep _ _ HP)|]. split; [|unfold same_or_roused; auto].
      intros _ Hi. unfold idle in Hi. rewrite Ei in Hi. discriminate.
    + destruct q as [|b q]; [done|]. destruct (uart_core_take _ _ _ HC) as [Eb HC']; [unfold idle; rewrite Ei; reflexivity|].
      exists q. rewrite Eb. split; [exact HC'|]. split; [intros t i c; cbn; destruct (wr s t); discriminate|].
      split; [right; discriminate|]. unfold same_or_roused. cbn. auto.
  - injection E as <- <-. exists q. destruct (core_write _ _ _ HC) as [HC' Hi]. split; [exact HC'|]. split; [exact (i_sleep _ _ HP)|].
    split; [right; discriminate | unfold same_or_roused; auto].
Qed.

(** What the processes write: memory that is well formed, a range of addresses. *)
Definition args_ok : Prop := forall t, (t < N)%nat -> um_ok (mem t) /\ 0 <= src t /\ 0 <= n t /\ src t + n t <= 2 ^ 64.

Lemma pend_lock s : tx_lock s = None -> pend s = [].
Proof. intros El. unfold pend, cur. rewrite El. reflexivity. Qed.

Lemma cur_writer s t : tx_lock s = Some (Writer t) -> cur s = match wr s t with WStart _ p => Some p | _ => None end.
Proof. intros El. unfold cur. rewrite El. reflexivity. Qed.
Lemma cur_intr s : tx_lock s = Some Intr -> cur s = match ih s with HStart p => Some p | _ => None end.
Proof. intros El. unfold cur. rewrite El. reflexivity. Qed.

Lemma not_starting s : tx_lock s = None -> ~ starting s.
Proof. intros El [Hs _]. apply Hs. unfold cur. rewrite El. reflexivity. Qed.

Lemma copyin_inv q s t i x bs u : args_ok -> inv q s -> wr s t = WLoop i -> i < n t -> ucopyin (u64 (src t + i)) 1 (mem t) = Ret (x, bs) u ->
  inv q (set_wr t (if x =? -1 then WDone i else WEnter i (default x00 (head bs))) s).
Proof.
  intros Ha [HC HP] Ew Hi Hcp. assert (Ht : (t < N)%nat) by (apply (pcs_lt _ _ HP); congruence).
  destruct (Ha t Ht) as (Hu & H1 & H2 & H3). pose proof (i_mine _ _ HP t Ht) as (M1 & M2 & M3 & _). rewrite Ew in M1, M2. cbn [written] in *.
  replace (u64 (src t + i)) with (src t + i) in Hcp by (unfold u64; rewrite Z.mod_small; lia).
  pose proof (ucopyin_law (src t + i) 1 (mem t) Hu ltac:(lia) ltac:(lia)) as Hlaw. unfold wp in Hlaw. rewrite Hcp in Hlaw.
  destruct Hlaw as (_ & Hbs & Hr).
  assert (Hl : locked (wr s t) = false) by (rewrite Ew; reflexivity). split.
  - unfold pend. rewrite (cur_other _ _ HP) by exact Hl. exact HC.
  - apply (pcs_other _ _ HP); [exact Hl | destruct (x =? -1); reflexivity | congruence | intros; destruct (x =? -1); discriminate|].
    destruct Hr as [[-> Hlen]|(-> & Hlen & Hnone)]; cbn [Z.eqb Pos.eqb]; unfold mine; cbn [written]; repeat (split; [assumption|]).
    + destruct bs as [|b [|? ?]]; cbn [length] in Hlen; try lia. specialize (Hbs O b eq_refl). rewrite Z.add_0_r in Hbs. exact Hbs.
    + right. replace (Z.of_nat (length bs)) with 0 in Hnone by lia. rewrite Z.add_0_r in Hnone. exact Hnone.
Qed.

Lemma return_inv q s t i : inv q s -> wr s t = WLoop i -> n t <= i -> inv q (set_wr t (WDone i) s).
Proof.
  intros [HC HP] Ew Hi. assert (Hl : locked (wr s t) = false) by (rewrite Ew; reflexivity). split.
  - unfold pend. rewrite (cur_other _ _ HP) by exact Hl. exact HC.
  - apply (pcs_other _ _ HP); [exact Hl | reflexivity | congruence | discriminate|].
    assert (Ht : (t < N)%nat) by (apply (pcs_lt _ _ HP); congruence). pose proof (i_mine _ _ HP t Ht) as (M1 & M2 & M3 & _).
    rewrite Ew in *. cbn [written] in *. unfold mine. cbn [written]. repeat (split; [assumption|]). left. lia.
Qed.

Lemma w_acquire_inv q s t i c : inv q s -> wr s t = WEnter i c -> tx_lock s = None -> inv q (set_lock (Some (Writer t)) (set_wr t (WFull i c) s)).
Proof.
  intros [HC HP] Ew El. rewrite (pend_lock s El) in HC. split.
  - unfold pend. erewrite cur_writer by reflexivity. cbn [wr set_lock set_wr]. rewrite fn_lookup_insert. exact HC.
  - assert (Ht : (t < N)%nat) by (apply (pcs_lt _ _ HP); congruence). eapply (pcs_writer q s _ _ t); eauto; cbn [tx_lock ih wr acc set_lock set_wr].
    + rewrite fn_lookup_insert. reflexivity.
    + intros t' Hne. split; [left; apply fn_lookup_insert_ne; auto | reflexivity].
    + intros t' i' c'. cbn. unfold insert, fn_insert. case_decide; [discriminate | apply (i_sleep _ _ HP)].
    + intros Hq Hi. destruct (i_irq _ _ HP Hq Hi) as [|Hs]; [auto | destruct (not_starting s El Hs)].
    + rewrite fn_lookup_insert. pose proof (i_mine _ _ HP t Ht) as Hm. rewrite Ew in Hm. exact Hm.
Qed.

Lemma h_acquire_inv q s : inv q s -> ih s = HEnter -> tx_lock s = None -> inv q (set_lock (Some Intr) (set_ih (HStart Head) s)).
Proof.
  intros [HC HP] Eh El. rewrite (pend_lock s El) in HC. split; [exact HC|].
  eapply (pcs_intr q s); eauto; [left; reflexivity | exact (i_sleep _ _ HP)|]. intros _ _. right. split; discriminate.
Qed.

Lemma w_sleep_inv q s t i c : inv q s -> wr s t = WFull i c -> tx_w s = u64 (tx_r s + UART_TX_BUF_SIZE) ->
  inv q (set_lock None (set_wr t (WSleep i c) s)).
Proof.
  intros [HC HP] Ew Hw. assert (El : tx_lock s = Some (Writer t)) by (apply (i_lockw _ _ HP); rewrite Ew; reflexivity).
  assert (Ec : cur s = None) by (rewrite (cur_writer s t El), Ew; reflexivity).
  unfold pend in HC. rewrite Ec in HC. apply Z.eqb_eq in Hw. rewrite (core_full _ _ _ HC) in Hw. split; [exact HC|].
  assert (Ht : (t < N)%nat) by (apply (pcs_lt _ _ HP); congruence). eapply (pcs_writer q s _ _ t); eauto; cbn [tx_lock ih wr acc set_lock set_wr].
  - rewrite fn_lookup_insert. reflexivity.
  - intros t' Hne. split; [left; apply fn_lookup_insert_ne; auto | reflexivity].
  - intros t' i' c' _. lia.
  - intros Hq Hi. destruct (i_irq _ _ HP Hq Hi) as [|[Hs _]]; [auto | destruct (Hs Ec)].
  - rewrite fn_lookup_insert. pose proof (i_mine _ _ HP t Ht) as Hm. rewrite Ew in Hm. exact Hm.
Qed.

Lemma w_store_inv q s t i c : inv q s -> wr s t = WFull i c -> tx_w s <> u64 (tx_r s + UART_TX_BUF_SIZE) ->
  inv (q ++ [c]) (store t c (set_wr t (WStart i Head) s)).
Proof.
  intros [HC HP] Ew Hw. assert (El : tx_lock s = Some (Writer t)) by (apply (i_lockw _ _ HP); rewrite Ew; reflexivity).
  unfold pend in HC. rewrite (cur_writer s t El), Ew in HC. apply Z.eqb_neq in Hw. rewrite (core_full _ _ _ HC) in Hw.
  assert (Hlt : Z.of_nat (length q) < UART_TX_BUF_SIZE) by (pose proof (i_len _ _ _ _ _ _ _ _ _ HC); lia).
  assert (Ec : cur (store t c (set_wr t (WStart i Head) s)) = Some Head).
  { erewrite cur_writer by exact El. cbn [wr store set_wr]. rewrite fn_lookup_insert. reflexivity. }
  split; [unfold pend; rewrite Ec; apply (core_store _ _ (set_wr t (WStart i Head) s) HC); exact Hlt|].
  assert (Ht : (t < N)%nat) by (apply (pcs_lt _ _ HP); congruence). eapply (pcs_writer q s _ _ t); eauto; cbn [tx_lock ih wr acc store set_wr].
  - rewrite fn_lookup_insert. exact El.
  - intros t' Hne. split; [left; apply fn_lookup_insert_ne; auto|]. rewrite put_by_snoc, decide_False by auto. apply app_nil_r.
  - intros t' i' c'. cbn [wr store set_wr]. unfold insert, fn_insert. case_decide; [discriminate|]. intros Hs. pose proof (i_sleep _ _ HP _ _ _ Hs). lia.
  - intros _ _. right. unfold starting. rewrite Ec. split; discriminate.
  - rewrite fn_lookup_insert, put_by_snoc, decide_True by reflexivity. pose proof (i_mine _ _ HP t Ht) as Hm.
    rewrite Ew in Hm. destruct Hm as (M1 & M2 & M3 & M4 & M5). cbn [written] in *. unfold mine. cbn [written]. rewrite length_app. cbn [length]. split; [lia|]. split; [lia|]. split; [|exact I].
    intros j b Hj. apply lookup_app_Some in Hj as [Hj|[Hj1 Hj2]]; [auto|]. apply list_lookup_singleton_Some in Hj2 as [Hj2 <-].
    replace (Z.of_nat j) with i by lia. exact M5.
Qed.

Lemma w_start_inv q s t i p p' s' : inv q s -> wr s t = WStart i p -> p <> Exit -> uartstart p s = (p', s') ->
  exists q', inv q' (set_wr t (WStart i p') s').
Proof.
  intros [HC HP] Ew Hp E. assert (El : tx_lock s = Some (Writer t)) by (apply (i_lockw _ _ HP); rewrite Ew; reflexivity).
  assert (Ht : (t < N)%nat) by (apply (pcs_lt _ _ HP); congruence). unfold pend in HC. rewrite (cur_writer s t El), Ew in HC.
  destruct (uartstart_fine q p s p' s') as (q' & HC' & Hsl & Hirq & E1 & E2 & E3 & Ho); [destruct p; exact HC | exact HP | exact Hp | exact E|].
  exists q'. assert (Ec : cur (set_wr t (WStart i p') s') = Some p').
  { erewrite cur_writer by (cbn; rewrite E1; exact El). cbn [wr set_wr]. rewrite fn_lookup_insert. reflexivity. }
  split; [unfold pend; rewrite Ec; destruct p'; exact HC'|].
  eapply (pcs_writer q s _ _ t); eauto; cbn [tx_lock ih wr acc set_wr].
  - rewrite fn_lookup_insert, E1. exact El.
  - intros t' Hne. rewrite E3. split; [|reflexivity]. unfold same_or_roused. rewrite fn_lookup_insert_ne by auto. apply Ho.
  - intros t' i' c'. cbn [wr set_wr]. unfold insert, fn_insert. case_decide; [discriminate | apply Hsl].
  - intros Hq Hi. destruct (Hirq Hq Hi) as [|Hx]; [auto|]. right. unfold starting. rewrite Ec. split; congruence.
  - rewrite fn_lookup_insert, E3. eapply mine_ext; [| |apply (i_mine _ _ HP t Ht)]; [rewrite Ew; reflexivity | exact I].
Qed.

Lemma h_start_inv q s p p' s' : inv q s -> ih s = HStart p -> p <> Exit -> uartstart p s = (p', s') -> exists q', inv q' (set_ih (HStart p') s').
Proof.
  intros [HC HP] Eh Hp E. assert (El : tx_lock s = Some Intr) by (apply (i_lockh _ _ HP); rewrite Eh; reflexivity).
  unfold pend in HC. rewrite (cur_intr s El), Eh in HC.
  destruct (uartstart_fine q p s p' s') as (q' & HC' & Hsl & Hirq & E1 & E2 & E3 & Ho); [destruct p; exact HC | exact HP | exact Hp | exact E|].
  exists q'. assert (Ec : cur (set_ih (HStart p') s') = Some p') by (erewrite cur_intr by (cbn; rewrite E1; exact El); reflexivity).
  split; [unfold pend; rewrite Ec; destruct p'; exact HC'|].
  eapply (pcs_intr q s); eauto; cbn [tx_lock ih wr acc set_ih hlocked]; [congruence|].
  intros Hq Hi. destruct (Hirq Hq Hi) as [|Hx]; [auto|]. right. unfold starting. rewrite Ec. split; congruence.
Qed.

Lemma w_release_inv q s t i : inv q s -> wr s t = WStart i Exit -> inv q (set_lock None (set_wr t (WLoop (i + 1)) s)).
Proof.
  intros [HC HP] Ew. assert (El : tx_lock s = Some (Writer t)) by (apply (i_lockw _ _ HP); rewrite Ew; reflexivity).
  assert (Ec : cur s = Some Exit) by (rewrite (cur_writer s t El), Ew; reflexivity). unfold pend in HC. rewrite Ec in HC. split; [exact HC|].
  assert (Ht : (t < N)%nat) by (apply (pcs_lt _ _ HP); congruence). eapply (pcs_writer q s _ _ t); eauto; cbn [tx_lock ih wr acc set_lock set_wr].
  - rewrite fn_lookup_insert. reflexivity.
  - intros t' Hne. split; [left; apply fn_lookup_insert_ne; auto | reflexivity].
  - intros t' i' c'. cbn [wr set_lock set_wr]. unfold insert, fn_insert. case_decide; [discriminate | apply (i_sleep _ _ HP)].
  - intros Hq Hi. destruct (i_irq _ _ HP Hq Hi) as [|[_ Hs]]; [auto | destruct (Hs Ec)].
  - rewrite fn_lookup_insert. eapply mine_ext; [| |apply (i_mine _ _ HP t Ht)]; [rewrite Ew; reflexivity | exact I].
Qed.

Lemma h_release_inv q s : inv q s -> ih s = HStart Exit -> inv q (set_lock None (set_ih HIdle s)).
Proof.
  intros [HC HP] Eh. assert (El : tx_lock s = Some Intr) by (apply (i_lockh _ _ HP); rewrite Eh; reflexivity).
  assert (Ec : cur s = Some Exit) by (rewrite (cur_intr s El), Eh; reflexivity). unfold pend in HC. rewrite Ec in HC. split; [exact HC|].
  eapply (pcs_intr q s); eauto; [left; reflexivity | exact (i_sleep _ _ HP)|].
  intros Hq Hi. destruct (i_irq _ _ HP Hq Hi) as [|[_ Hs]]; [auto | destruct (Hs Ec)].
Qed.

Lemma h_enter_inv q s : inv q s -> ih s = HIdle -> inv q (set_ih HEnter s).
Proof.
  intros [HC HP] Eh. assert (El : tx_lock s <> Some Intr) by (rewrite <- (i_lockh _ _ HP), Eh; discriminate).
  assert (Ec : cur (set_ih HEnter s) = cur s) by (unfold cur; cbn; destruct (tx_lock s) as [[|]|]; [reflexivity | done | reflexivity]).
  split; [unfold pend; rewrite Ec; exact HC|]. destruct HP. split; unfold starting; rewrite ?Ec; auto.
  cbn [ih hlocked tx_lock set_ih]. split; [discriminate | done].
Qed.

(** The other harts and the device: the processes stay where they are. *)
Lemma pcs_device q s s' : pcs q s -> wr s' = wr s -> ih s' = ih s -> tx_lock s' = tx_lock s -> acc s' = acc s ->
  (idle (d s') = true -> tx_irq (d s') = true \/ idle (d s) = true /\ (tx_irq (d s) = true -> tx_irq (d s') = true)) -> pcs q s'.
Proof.
  intros HP E1 E2 E3 E4 Hd. assert (Ec : cur s' = cur s) by (unfold cur; rewrite E1, E2, E3; reflexivity). destruct HP.
  split; unfold starting; rewrite ?E1, ?E2, ?E3, ?E4, ?Ec; auto.
  intros Hq Hi. destruct (Hd Hi) as [|[Hi' Himp]]; [auto|]. destruct (i_irq0 Hq Hi'); auto.
Qed.

Lemma pend_le s : (length (pend s) <= 1)%nat.
Proof. unfold pend. destruct (cur s) as [[| |]|]; cbn; lia. Qed.

Lemma sync_inv q s h p : inv q s -> (h < HARTS)%nat -> (sync p <= sync (sy s h))%nat \/ idle (d s) = true -> inv q (set_sy h p s).
Proof.
  intros [HC HP] Hh Hp. split; [exact (core_sync _ _ _ _ _ HC Hh (pend_le s) Hp)|]. eapply pcs_device; eauto.
Qed.

Lemma sync_write_inv q s h c : inv q s -> (h < HARTS)%nat -> sy s h = SWrite c -> inv q (put_thr false c (set_sy h SIdle s)).
Proof.
  intros [HC HP] Hh Hs. destruct (core_sync_write _ _ _ _ _ HC Hh Hs) as [HC' Hi]. split; [exact HC'|].
  eapply pcs_device; eauto. cbn [d put_thr set_sy]. rewrite Hi. discriminate.
Qed.

Lemma dev_inv q s d' : inv q s -> dev (d s) d' -> inv q (set_d d' s).
Proof.
  intros [HC HP] Hd. split; [exact (core_dev _ _ _ HC _ Hd)|]. eapply pcs_device; eauto. cbn [d set_d].
  destruct (dev_law _ _ (i_ok _ _ _ _ _ _ _ _ _ HC) Hd) as (_ & _ & _ & Hi). destruct (idle (d s)); [right; tauto | auto].
Qed.

Lemma uart_step_inv input q s s' : args_ok -> inv q s -> step src n mem input s s' -> exists q', inv q' s'.
Proof.
  intros Ha I Hs. destruct Hs.
  - eexists. eapply copyin_inv; eauto.
  - eexists. eapply return_inv; eauto.
  - eexists. eapply w_acquire_inv; eauto.
  - eexists. eapply w_sleep_inv; eauto.
  - eexists. eapply w_store_inv; eauto.
  - eapply w_start_inv; eauto.
  - eexists. eapply w_release_inv; eauto.
  - eexists. eapply h_enter_inv; eauto.
  - eexists. eapply h_enter_inv; eauto.
  - eexists. eapply h_acquire_inv; eauto.
  - eapply h_start_inv; eauto.
  - eexists. eapply h_release_inv; eauto.
  - eexists. eapply sync_inv; [eassumption.. | left; cbn; lia].
  - eexists. eapply sync_inv; [eassumption.. | right; unfold idle; destruct (Z.eqb_spec (Z.land (lsr (d s)) LSR_TX_IDLE) 0); [done | reflexivity]].
  - eexists. eapply sync_write_inv; eauto.
  - eexists. eapply dev_inv; eauto.
Qed.

Lemma uart_init_inv b : args_ok -> dev_ok d0 -> 0 <= room d0 -> inv [] (init N b d0).
Proof.
  intros Ha Hok Hr. split.
  - split; cbn; auto; try lia; try discriminate; try (unfold UART_TX_BUF_SIZE; lia); try (rewrite app_nil_r; reflexivity).
  - split; cbn [wr tx_lock ih acc init].
    + intros t. destruct (t <? N)%nat; cbn; split; intros E; discriminate E.
    + split; intros E; discriminate E.
    + intros t i c E. destruct (t <? N)%nat; discriminate E.
    + done.
    + intros t Ht. replace (t <? N)%nat with true by lia. destruct (Ha t Ht) as (_ & _ & Hn & _). unfold mine. cbn.
      split; [reflexivity|]. split; [exact Hn|]. split; [intros j x Hj; discriminate Hj | exact I].
    + intros t Ht. replace (t <? N)%nat with false by lia. reflexivity.
Qed.

Lemma uart_reach_inv input b s : args_ok -> dev_ok d0 -> 0 <= room d0 -> rtc (step src n mem input) (init N b d0) s -> exists q, inv q s.
Proof.
  intros Ha Hok Hr Hs. eapply (rtc_invariant _ (fun s => exists q, inv q s)); [|exact Hs | exists []; apply uart_init_inv; assumption].
  intros x y [q I] Hxy. eapply uart_step_inv; eassumption.
Qed.
End Run.
End UartRun.
