(* ===== verification/UartSpec.v ===== *)
(** * The console's output: what the device sends, and that every writer returns

    Safety: the bytes of every process reach the device in the order of its
    memory, none is lost or repeated, also with the unlocked writes of
    [uartputc_sync] in between.  Liveness: from every reachable state all
    processes can return and the buffer be sent, without any input arriving;
    the transmit interrupt alone suffices. *)

From S2P Require Import Prelude Memory FsDefs UserMem Uart UartRun.

Module UartSpec.
Import Uart UartRun.

(** ** Progress *)

Definition upc_weight (p : upc) : nat := match p with Write _ => 8 | Head => 7 | Exit => 6 end.
Definition weight (p : wpc) : nat :=
  match p with WStart _ p => upc_weight p | WLoop _ => 5 | WEnter _ _ => 4 | WFull _ _ => 3 | WSleep _ _ => 2 | WDone _ => 0 end.
Definition hweight (p : hpc) : nat := match p with HEnter => 9 | HStart p => upc_weight p | HIdle => 0 end.

Lemma upc_weight_le p : (6 <= upc_weight p <= 8)%nat.
Proof. destruct p; cbn; lia. Qed.
Lemma weight_le p : (weight p <= 8)%nat.
Proof. destruct p as [| | | |? []|]; cbn; lia. Qed.
Lemma hweight_le p : (hweight p <= 9)%nat.
Proof. destruct p as [| |[]]; cbn; lia. Qed.

Section Spec.
Context {U D : Type} `{UserMem U} `{Ns16550 D}.
Context (src n : nat -> Z) (mem : nat -> U) (N : nat) (d0 : D).

Local Abbreviation state := (@Uart.state D).
Local Abbreviation inv := (inv d0 src n mem N).

Definition left (t : nat) (p : wpc) : nat := Z.to_nat (n t - written p).
Definition held (s : state) : nat := Z.to_nat (u64 (tx_w s - tx_r s)).
(** Bytes to put count twice, bytes to send once. *)
Definition major (s : state) : nat := (2 * sumf left (wr s) N + held s)%nat.
Definition minor (s : state) : nat := (sumf (fun _ => weight) (wr s) N + hweight (ih s))%nat.
Definition total (s : state) : nat := (major s * (8 * N + 10) + minor s)%nat.

Lemma minor_le s : (minor s < 8 * N + 10)%nat.
Proof.
  unfold minor. pose proof (hweight_le (ih s)).
  assert ((sumf (fun _ => weight) (wr s) N <= 8 * N)%nat) by (apply sumf_le; intros; apply weight_le). lia.
Qed.

Lemma total_major s s' : (major s' < major s)%nat -> (total s' < total s)%nat.
Proof. intros Hlt. unfold total. pose proof (minor_le s'). nia. Qed.

Lemma total_minor s s' : (major s' <= major s)%nat -> (minor s' < minor s)%nat -> (total s' < total s)%nat.
Proof. intros H1 H2. unfold total. nia. Qed.

Lemma held_length q s : inv q s -> held s = length q.
Proof. intros [[] _]. unfold held. rewrite i_w0. unfold u64, UART_TX_BUF_SIZE in *. zdiv. Qed.

(** A process moves on without putting a byte. *)
Lemma total_writer s s' t p : (t < N)%nat -> wr s' = <[t := p]> (wr s) -> ih s' = ih s -> held s' = held s ->
  written (wr s t) <= written p -> (weight p < weight (wr s t))%nat -> (total s' < total s)%nat.
Proof.
  intros Ht Ew Eh Eq Hw Hlt. apply total_minor; unfold major, minor; rewrite Ew, ?Eq, ?Eh.
  - pose proof (sumf_insert left (wr s) t p N Ht). unfold left in *. lia.
  - pose proof (sumf_insert (fun _ => weight) (wr s) t p N Ht). cbn beta in *. lia.
Qed.

(** What one pass of [uartstart] is for the measure. *)
Lemma uartstart_less q p s p' s' : inv q s -> p <> Exit -> uartstart p s = (p', s') ->
  (forall t, written (wr s' t) = written (wr s t)) /\
  (held s' < held s \/ held s' = held s /\ wr s' = wr s /\ ih s' = ih s /\ upc_weight p' < upc_weight p)%nat.
Proof.
  intros I Hp E. destruct p as [|c|]; [| |done]; cbn [uartstart] in E.
  - destruct (tx_w s =? tx_r s) eqn:Ee; [injection E as <- <-; split; [reflexivity | right; cbn; auto 10 with lia]|].
    destruct (_ =? 0); injection E as <- <-; [split; [reflexivity | right; cbn; auto 10 with lia]|].
    split; [intros t; cbn; destruct (wr s t); reflexivity|]. left. pose proof (held_length _ _ I) as El. destruct I as [[] _].
    unfold held in *. cbn [tx_w tx_r]. assert (length q <> O) by (intros E0; rewrite E0 in i_w0; revert Ee; rewrite i_w0, Z.add_0_r; unfold u64; zdiv).
    unfold UART_TX_BUF_SIZE in *. rewrite El. rewrite i_w0. unfold u64. zdiv.
  - injection E as <- <-. split; [reflexivity|]. right. cbn. auto 10 with lia.
Qed.

Local Abbreviation steps := (rtc (step src n mem false)).
Context (Ha : args_ok src n mem N).

(** One step that lowers the measure suffices. *)
Definition advances (s : state) : Prop := exists s', steps s s' /\ (exists q', inv q' s') /\ (total s' < total s)%nat.

Lemma one_step q s s' : inv q s -> step src n mem false s s' -> (total s' < total s)%nat -> advances s.
Proof. intros I Hs Hlt. exists s'. split; [apply rtc_once; exact Hs|]. split; [eapply uart_step_inv; eassumption | exact Hlt]. Qed.

Lemma start_advances q s : inv q s -> cur s <> None -> advances s.
Proof.
  intros I Hc. pose proof I as [HC HP]. unfold cur in Hc. destruct (tx_lock s) as [[t|]|] eqn:El; [| |done].
  - destruct (wr s t) as [| | | |i p|] eqn:Ew; try done. assert (Ht : (t < N)%nat) by (apply (pcs_lt _ _ _ _ _ _ HP); congruence).
    destruct (decide (p = Exit)) as [->|Hp].
    { eapply one_step; [exact I | apply w_release; exact Ew|]. eapply (total_writer _ _ t); eauto; rewrite Ew; cbn; lia. }
    destruct (uartstart p s) as [p' s'] eqn:E. destruct (uartstart_less _ _ _ _ _ I Hp E) as [Hw Hless].
    eapply one_step; [exact I | eapply w_start; eassumption|]. destruct Hless as [Hlt|(Eh & Er & Ei & Hlt)].
    + apply total_major. unfold major. replace (sumf left (wr (set_wr t (WStart i p') s')) N) with (sumf left (wr s) N); [cbn [held tx_w tx_r set_wr]; unfold held in *; cbn; lia|].
      apply sumf_ext. intros t' _. unfold left. cbn [wr set_wr]. unfold insert, fn_insert. case_decide as Et; [subst t'; rewrite Ew; reflexivity | rewrite Hw; reflexivity].
    + eapply (total_writer _ _ t); [exact Ht | cbn [wr set_wr]; rewrite Er; reflexivity | exact Ei | exact Eh | rewrite Ew; cbn; lia | rewrite Ew; exact Hlt].
  - destruct (ih s) as [| |p] eqn:Ei; try done. destruct (decide (p = Exit)) as [->|Hp].
    { eapply one_step; [exact I | apply h_release; exact Ei|]. apply total_minor; [reflexivity|]. unfold minor. rewrite Ei. cbn. lia. }
    destruct (uartstart p s) as [p' s'] eqn:E. destruct (uartstart_less _ _ _ _ _ I Hp E) as [Hw Hless].
    eapply one_step; [exact I | eapply h_start; eassumption|]. destruct Hless as [Hlt|(Eh & Er & Ei' & Hlt)].
    + apply total_major. unfold major. replace (sumf left (wr (set_ih (HStart p') s')) N) with (sumf left (wr s) N); [unfold held in *; cbn; lia|].
      apply sumf_ext. intros t' _. unfold left. cbn [wr set_ih]. rewrite Hw. reflexivity.
    + apply total_minor; unfold major, minor, held in *; cbn [wr ih tx_w tx_r set_ih]; rewrite Er, ?Ei; cbn [hweight]; lia.
Qed.

Lemma store_advances q s t i c : inv q s -> wr s t = WFull i c -> advances s.
Proof.
  intros I Ew. pose proof I as [HC HP]. assert (Ht : (t < N)%nat) by (apply (pcs_lt _ _ _ _ _ _ HP); congruence).
  destruct (Z.eq_dec (tx_w s) (u64 (tx_r s + UART_TX_BUF_SIZE))) as [E|E].
  { eapply one_step; [exact I | eapply w_sleep; eassumption|]. eapply (total_writer _ _ t); eauto; rewrite Ew; cbn; lia. }
  eapply one_step; [exact I | eapply w_store; eassumption|]. apply total_major.
  pose proof (w_store_inv _ _ _ _ _ _ _ _ _ _ I Ew E) as I'. unfold major. rewrite (held_length _ _ I), (held_length _ _ I'), length_app.
  cbn [wr store set_wr length]. pose proof (sumf_insert left (wr s) t (WStart i Head) N Ht) as Hsum.
  pose proof (i_mine _ _ _ _ _ _ HP t Ht) as Hm. rewrite Ew in Hm, Hsum. destruct Hm as (_ & _ & _ & Hi & _). unfold left in *. cbn [written] in Hsum. lia.
Qed.

Definition active (p : wpc) : bool := match p with WLoop _ | WEnter _ _ => true | _ => false end.

Lemma active_advances q s t : inv q s -> tx_lock s = None -> active (wr s t) = true -> advances s.
Proof.
  intros I El Hact. pose proof I as [HC HP]. assert (Ht : (t < N)%nat) by (apply (pcs_lt _ _ _ _ _ _ HP); intros E; rewrite E in Hact; discriminate).
  destruct (wr s t) as [i|i c| | | |] eqn:Ew; try discriminate.
  - destruct (Z.lt_ge_cases i (n t)) as [Hi|Hi].
    2:{ eapply one_step; [exact I | eapply w_return; eassumption|]. eapply (total_writer _ _ t); eauto; rewrite Ew; cbn; lia. }
    destruct (Ha t Ht) as (Hu & H1 & H2 & H3).
    pose proof (ucopyin_law (u64 (src t + i)) 1 (mem t) Hu (Z.mod_pos_bound _ (2 ^ 64) ltac:(lia)) ltac:(lia)) as Hlaw.
    apply wp_run in Hlaw as ((x & bs) & u & Hrun & _). eapply one_step; [exact I | eapply w_copyin; eassumption|].
    eapply (total_writer _ _ t); [exact Ht | reflexivity | reflexivity | reflexivity | |]; rewrite Ew; destruct (x =? -1); cbn; lia.
  - eapply one_step; [exact I | eapply w_acquire; eassumption|]. eapply (total_writer _ _ t); eauto; rewrite Ew; cbn; lia.
Qed.

(** All processes are back or asleep and the handler is idle, but there are
    bytes to send: the device becomes idle and interrupts, and the handler
    sends one. *)
Lemma drain_steps q s d' : inv q s -> rtc dev (d s) d' -> exists s', s' = set_d d' s /\ steps s s' /\ inv q s'.
Proof.
  intros I Hd. remember (d s) as dv eqn:Ed. revert s I Ed. induction Hd as [x|x y z Hxy _ IH]; intros s I ->.
  - exists s. split; [destruct s; reflexivity|]. split; [reflexivity | exact I].
  - destruct (IH (set_d y s)) as (s' & -> & Hs & I'); [eapply dev_inv; eassumption | reflexivity|].
    eexists. split; [reflexivity|]. split; [eapply rtc_l; [apply d_step; exact Hxy | exact Hs] | exact I'].
Qed.

Lemma interrupted q s : inv q s -> q <> [] -> tx_lock s = None -> exists s', steps s s' /\ inv q s' /\
  wr s' = wr s /\ ih s' = ih s /\ tx_lock s' = None /\ held s' = held s /\ idle (d s') = true /\ tx_irq (d s') = true.
Proof.
  intros I Hq El. assert (G : exists d', rtc dev (d s) d' /\ idle d' = true).
  { destruct (idle (d s)) eqn:Ei; [exists (d s); auto using rtc_refl|]. apply drain_law; [|exact Ei]. destruct I as [[] _]. assumption. }
  destruct G as (d' & Hd & Hi). destruct (drain_steps q s d' I Hd) as (s' & -> & Hs & I'). exists (set_d d' s).
  split; [exact Hs|]. split; [exact I'|]. repeat (split; [reflexivity || assumption|]).
  destruct I' as [_ HP]. destruct (i_irq _ _ _ _ _ _ HP Hq Hi) as [|Hst]; [assumption | destruct (not_starting _ El Hst)].
Qed.

Lemma idle_advances q s : inv q s -> q <> [] -> tx_lock s = None -> ih s = HIdle -> advances s.
Proof.
  intros I Hq El Eh. destruct (interrupted q s I Hq El) as (s1 & Hs1 & I1 & Ew & Eh1 & El1 & Eq & Hi & Hirq).
  pose proof (h_enter_inv _ _ _ _ _ _ _ I1 ltac:(congruence)) as I2.
  pose proof (h_acquire_inv _ _ _ _ _ _ _ I2 eq_refl El1) as I3. set (s3 := set_lock _ _) in I3.
  destruct (uartstart Head s3) as [p' s4] eqn:E. destruct (uartstart_less _ Head _ _ _ I3 ltac:(discriminate) E) as [Hw Hless].
  destruct (h_start_inv _ _ _ _ _ _ _ Head _ _ I3 eq_refl ltac:(discriminate) E) as [q' I4].
  exists (set_ih (HStart p') s4). split; [|split; [eauto|]].
  - etransitivity; [exact Hs1|]. eapply rtc_l; [apply h_transmit; congruence|].
    eapply rtc_l; [apply h_acquire; [reflexivity | exact El1]|]. eapply rtc_once. eapply h_start; [reflexivity | discriminate | exact E].
  - assert (Hlt : (held s4 < held s3)%nat).
    { destruct Hless as [|(_ & _ & _ & Hlt)]; [assumption|]. exfalso. cbn [uartstart] in E. destruct I3 as [HC _].
      rewrite (core_empty d0 q _ s3 HC), bool_decide_eq_false_2 in E by exact Hq. unfold idle in Hi. apply negb_true_iff in Hi.
      cbn [d s3 set_lock set_ih] in E. unfold s3 in E. cbn [d set_lock set_ih] in E. rewrite Hi in E. injection E as <- <-. cbn in Hlt. lia. }
    apply total_major. unfold major. replace (sumf left (wr (set_ih (HStart p') s4)) N) with (sumf left (wr s) N).
    + change (held (set_ih (HStart p') s4)) with (held s4). change (held s3) with (held s1) in Hlt. lia.
    + apply sumf_ext. intros t _. unfold left. cbn [wr set_ih]. rewrite Hw. cbn. rewrite Ew. reflexivity.
Qed.

Definition finished (q : list byte) (s : state) : Prop := (forall t, (t < N)%nat -> exists r, wr s t = WDone r) /\ q = [] /\ tx_lock s = None.

Lemma uart_progress q s : inv q s -> finished q s \/ advances s.
Proof.
  intros I. pose proof I as [HC HP]. destruct (cur s) eqn:Ec; [right; eapply start_advances; [exact I | congruence]|].
  destruct (tx_lock s) as [[t|]|] eqn:El.
  - pose proof (proj2 (i_lockw _ _ _ _ _ _ HP t) El) as Hl. rewrite (cur_writer s t El) in Ec.
    destruct (wr s t) as [| |i c| | |] eqn:Ew; try discriminate. right. eapply store_advances; eassumption.
  - pose proof (proj2 (i_lockh _ _ _ _ _ _ HP) El) as Hl. rewrite (cur_intr s El) in Ec. destruct (ih s); discriminate.
  - destruct (existsb (fun t => active (wr s t)) (seq 0 N)) eqn:Eact.
    { apply existsb_exists in Eact as (t & _ & Hact). right. eapply active_advances; eassumption. }
    destruct (ih s) as [| |p] eqn:Eh.
    + destruct (decide (q = [])) as [->|Hq]; [left | right; eapply idle_advances; eassumption]. split; [|auto]. intros t Ht.
      assert (Hact : active (wr s t) = false).
      { apply not_true_iff_false. intros Hact. apply not_true_iff_false in Eact. apply Eact, existsb_exists. exists t. split; [apply in_seq; lia | exact Hact]. }
      pose proof (pcs_free _ _ _ _ _ _ HP t El) as Hfree. destruct (wr s t) as [| | |i c| |r] eqn:Ew; try discriminate; [|eauto].
      pose proof (i_sleep _ _ _ _ _ _ HP t i c Ew) as Hfull. discriminate Hfull.
    + right. eapply one_step; [exact I | apply h_acquire; assumption|]. apply total_minor; [reflexivity|]. unfold minor. rewrite Eh. cbn. lia.
    + pose proof (proj1 (i_lockh _ _ _ _ _ _ HP)) as Hl. rewrite Eh, El in Hl. discriminate (Hl eq_refl).
Qed.

Lemma uart_finishes m q s : (total s <= m)%nat -> inv q s -> exists q' s', steps s s' /\ inv q' s' /\ finished q' s'.
Proof.
  revert q s. induction m as [m IH] using lt_wf_ind. intros q s Hm I.
  destruct (uart_progress q s I) as [Hf|(s1 & Hs1 & (q1 & I1) & Hlt)]; [exists q, s; auto using rtc_refl|].
  destruct (IH (total s1) ltac:(lia) q1 s1 (le_n _) I1) as (q2 & s2 & Hs2 & I2 & Hf). exists q2, s2.
  split; [etransitivity; eassumption | auto].
Qed.
End Spec.

Section Claims.
Context {U D : Type} `{UserMem U} `{Ns16550 D}.
Context (src n : nat -> Z) (mem : nat -> U) (N : nat) (d0 : D) (b : Z -> byte).

(** C5: in every reachable state, every byte written to the transmitter was
    taken by it, in order, although [uartputc_sync] does not take
    [uart_tx_lock]: at most 9 harts and lock holders saw the 16-byte FIFO empty;
    the bytes from the buffer are the bytes put into it, in order, up to the
    at most 33 that are still under way; and the bytes a process put are those
    at its address, in order: as many as [consolewrite] returned, which is all
    of them unless the next one cannot be read. *)
Theorem uart_output input s : args_ok src n mem N -> dev_ok d0 -> 0 <= room d0 -> rtc (step src n mem input) (init N b d0) s ->
  sent (d s) = sent d0 ++ (log s).*2 /\
  (exists rest, (acc s).*2 = ring_part (log s) ++ rest /\ Z.of_nat (length rest) <= UART_TX_BUF_SIZE + 1) /\
  forall t, (t < N)%nat ->
    (forall j c, put_by t (acc s) !! j = Some c -> uview (mem t) (src t + Z.of_nat j) = Some c) /\
    (forall r, wr s t = WDone r -> Z.of_nat (length (put_by t (acc s))) = r /\ (r = n t \/ r < n t /\ uview (mem t) (src t + r) = None)).
Proof.
  intros Ha Hok Hr Hs. destruct (uart_reach_inv _ _ _ _ _ _ _ _ Ha Hok Hr Hs) as (q & HC & HP). destruct HC. split; [assumption|]. split.
  - exists (pend s ++ q). split; [assumption|]. rewrite length_app. pose proof (pend_le s). lia.
  - intros t Ht. destruct (i_mine _ _ _ _ _ _ HP t Ht) as (M1 & M2 & M3 & M4). split; [exact M3|]. intros r Er. rewrite Er in M1, M2, M4.
    split; [exact M1|]. cbn [written] in M2. destruct (Z.eq_dec r (n t)); [auto|]. right. split; [lia|]. destruct M4; [done | assumption].
Qed.

(** C11: from every reachable state there is a continuation, in which no input
    arrives, that brings every process out of [consolewrite] with everything
    that was put into the buffer sent: no wakeup and no transmit interrupt is
    lost, and nobody waits for the lock for ever. *)
Theorem uart_completes input s : args_ok src n mem N -> dev_ok d0 -> 0 <= room d0 -> rtc (step src n mem input) (init N b d0) s ->
  exists s', rtc (step src n mem false) s s' /\ (forall t, (t < N)%nat -> exists r, wr s' t = WDone r) /\ (acc s').*2 = ring_part (log s').
Proof.
  intros Ha Hok Hr Hs. destruct (uart_reach_inv _ _ _ _ _ _ _ _ Ha Hok Hr Hs) as (q & I).
  destruct (uart_finishes src n mem N d0 Ha _ q s (le_n _) I) as (q' & s' & Hs' & [HC _] & Hdone & -> & El). exists s'.
  split; [exact Hs'|]. split; [exact Hdone|]. destruct HC. rewrite i_acc0, (pend_lock s' El), !app_nil_r. reflexivity.
Qed.
End Claims.

(** ** A transmitter with a FIFO *)

Record fifo := Fifo { f_bytes : list byte; f_sent : list byte; f_irq : bool }.

Definition fifo_lsr (d : fifo) : Z := match f_bytes d with [] => LSR_TX_IDLE | _ => 0 end.
Definition fifo_write (b : byte) (d : fifo) : fifo :=
  if (length (f_bytes d) <? 16)%nat then Fifo (f_bytes d ++ [b]) (f_sent d ++ [b]) false else d.
Definition fifo_isr (d : fifo) : fifo := Fifo (f_bytes d) (f_sent d) false.
Definition fifo_step (d d' : fifo) : Prop :=
  exists b bs, f_bytes d = b :: bs /\ d' = Fifo bs (f_sent d) (match bs with [] => true | _ => f_irq d end).
Definition fifo_room (d : fifo) : Z := 16 - Z.of_nat (length (f_bytes d)).

Lemma fifo_idle d : negb (Z.land (fifo_lsr d) LSR_TX_IDLE =? 0) = bool_decide (f_bytes d = []).
Proof. unfold fifo_lsr. destruct (f_bytes d); reflexivity. Qed.

#[export] Program Instance ns16550_fifo : Ns16550 fifo := {|
  lsr := fifo_lsr; write_thr := fifo_write; read_isr := fifo_isr; dev := fifo_step; tx_irq := f_irq;
  sent := f_sent; room := fifo_room; dev_ok := fun d => (length (f_bytes d) <= 16)%nat |}.
Next Obligation. cbn beta. intros d _ Hi. rewrite fifo_idle in Hi. apply bool_decide_eq_true in Hi. unfold fifo_room, FIFO. rewrite Hi. cbn. lia. Qed.
Next Obligation.
  cbn beta. intros b d Hok Hr. rewrite fifo_idle. unfold fifo_room, fifo_write in *. replace (_ <? 16)%nat with true by lia. cbn.
  rewrite length_app. cbn. split; [lia|]. split; [reflexivity|]. split; [lia|]. destruct (f_bytes d); reflexivity.
Qed.
Next Obligation. cbn beta. intros d Hok. rewrite !fifo_idle. auto. Qed.
Next Obligation.
  cbn beta. intros d d' Hok (b & bs & E & ->). rewrite !fifo_idle. unfold fifo_room. rewrite E in *. cbn in *.
  split; [lia|]. split; [reflexivity|]. split; [lia|]. destruct bs; [reflexivity | discriminate].
Qed.
Next Obligation.
  cbn beta. intros d Hok _. destruct d as [bs snt irq]. cbn in *. clear Hok. revert irq. induction bs as [|b bs IH]; intros irq.
  - eexists. split; [reflexivity|]. rewrite fifo_idle. reflexivity.
  - destruct (IH (match bs with [] => true | _ => irq end)) as (d' & Hd & Hi). exists d'. split; [|exact Hi].
    eapply rtc_l; [|exact Hd]. exists b, bs. auto.
Qed.

(** ** Two processes that write to the console *)

Definition demo_src (t : nat) : Z := 4096 * Z.of_nat t.
Definition demo_mem (t : nat) : Z -> byte := fun x => z2b (x + 65).
#[local] Existing Instance flat_user.

Definition demo_init : state := init 2 (fun _ => x00) (Fifo [] [] false).
(** The first process puts and sends a byte, while a hart echoes another. *)
Definition demo_sent : state :=
  let c := x41 in
  let s1 := set_wr 0 (WEnter 0 c) demo_init in
  let s2 := set_lock (Some (Writer 0)) (set_wr 0 (WFull 0 c) s1) in
  let s3 := store 0 c (set_wr 0 (WStart 0 Head) s2) in
  let s4 := set_wr 0 (WStart 0 (Write c)) (uartstart Head s3).2 in
  let s5 := set_sy 3 (SWait x7a) s4 in
  let s6 := set_sy 3 (SWrite x7a) s5 in
  let s7 := set_wr 0 (WStart 0 Head) (put_thr true c s6) in
  put_thr false x7a (set_sy 3 SIdle s7).

Lemma demo_args : args_ok demo_src (fun _ => 40) demo_mem 2.
Proof. intros t Ht. unfold demo_src. split; [exact I|]. lia. Qed.

Lemma demo_reach : rtc (step demo_src (fun _ => 40) demo_mem true) demo_init demo_sent.
Proof.
  eapply rtc_l; [apply (w_copyin _ _ _ _ _ 0%nat 0 0 [x41] (demo_mem 0)); [reflexivity | lia | reflexivity]|].
  eapply rtc_l; [apply (w_acquire _ _ _ _ _ 0%nat 0 x41); reflexivity|].
  eapply rtc_l; [apply (w_store _ _ _ _ _ 0%nat 0 x41); [reflexivity | discriminate]|].
  eapply rtc_l; [eapply (w_start _ _ _ _ _ 0%nat 0 Head); [reflexivity | discriminate | reflexivity]|].
  eapply rtc_l; [apply (y_call _ _ _ _ _ 3%nat x7a); [unfold HARTS, NCPU; lia | reflexivity]|].
  eapply rtc_l; [apply (y_idle _ _ _ _ _ 3%nat x7a); [unfold HARTS, NCPU; lia | reflexivity | discriminate]|].
  eapply rtc_l; [eapply (w_start _ _ _ _ _ 0%nat 0 (Write x41)); [reflexivity | discriminate | reflexivity]|].
  apply rtc_once. apply (y_write _ _ _ _ _ 3%nat x7a); [unfold HARTS, NCPU; lia | reflexivity].
Qed.

Lemma uart_output_witness : rtc (step demo_src (fun _ => 40) demo_mem true) demo_init demo_sent /\ sent (d demo_sent) = [x41; x7a] /\
  (exists rest, (acc demo_sent).*2 = ring_part (log demo_sent) ++ rest /\ Z.of_nat (length rest) <= UART_TX_BUF_SIZE + 1).
Proof.
  split; [exact demo_reach|]. split; [reflexivity|].
  apply (uart_output demo_src (fun _ => 40) demo_mem 2 (Fifo [] [] false) (fun _ => x00) true demo_sent demo_args); [cbn; lia | vm_compute; discriminate | exact demo_reach].
Defined.

Lemma uart_completes_witness : exists s', rtc (step demo_src (fun _ => 40) demo_mem false) demo_sent s' /\
  (forall t, (t < 2)%nat -> exists r, wr s' t = WDone r) /\ (acc s').*2 = ring_part (log s').
Proof.
  apply (uart_completes demo_src (fun _ => 40) demo_mem 2 (Fifo [] [] false) (fun _ => x00) true demo_sent demo_args); [cbn; lia | vm_compute; discriminate | exact demo_reach].
Defined.
End UartSpec.
