(* ===== verification/Kernel.v ===== *)
(** * The state of the whole kernel

    The process table and the [struct cpu] of the running hart (kernel/proc.h),
    the open files (kernel/file.h), the pipes by the address of their page,
    and the state of the layers below: the file system of [Fs] and the memory
    of [Kalloc] and [Vm].  Code of a layer below runs on its part of the state;
    the memory and the current directory it sees are those of the running
    process.  The device state [D] belongs to the drivers. *)

From S2P Require Import Prelude Memory Riscv Kalloc Vm FsDefs BufCache Log UserMem KernelMem Fs Spinlock ProcDefs Pipe.

(** ** Open files *)

Inductive fdtype := FD_NONE | FD_PIPE | FD_INODE | FD_DEVICE.
#[export] Instance fdtype_eq_dec : EqDecision fdtype.
Proof. solve_decision. Defined.

(** [struct file]; null pointers are [0] and [None]. *)
Record file := File {
  fd_type : fdtype;
  fd_ref : Z;
  fd_readable : bool;
  fd_writable : bool;
  fd_pipe : Z;
  fd_ip : option nat;
  fd_off : Z;
  fd_major : Z
}.

Definition set_fd_type (t : fdtype) (f : file) : file :=
  File t (fd_ref f) (fd_readable f) (fd_writable f) (fd_pipe f) (fd_ip f) (fd_off f) (fd_major f).
Definition set_fd_ref (r : Z) (f : file) : file :=
  File (fd_type f) r (fd_readable f) (fd_writable f) (fd_pipe f) (fd_ip f) (fd_off f) (fd_major f).
Definition set_fd_mode (r w : bool) (f : file) : file :=
  File (fd_type f) (fd_ref f) r w (fd_pipe f) (fd_ip f) (fd_off f) (fd_major f).
Definition set_fd_pipe (p : Z) (f : file) : file :=
  File (fd_type f) (fd_ref f) (fd_readable f) (fd_writable f) p (fd_ip f) (fd_off f) (fd_major f).
Definition set_fd_ip (i : option nat) (f : file) : file :=
  File (fd_type f) (fd_ref f) (fd_readable f) (fd_writable f) (fd_pipe f) i (fd_off f) (fd_major f).
Definition set_fd_off (o : Z) (f : file) : file :=
  File (fd_type f) (fd_ref f) (fd_readable f) (fd_writable f) (fd_pipe f) (fd_ip f) o (fd_major f).
Definition set_fd_major (m : Z) (f : file) : file :=
  File (fd_type f) (fd_ref f) (fd_readable f) (fd_writable f) (fd_pipe f) (fd_ip f) (fd_off f) m.

(** ** Processes *)

(** What a process sleeps on: the addresses the kernel passes to [sleep]. *)
Inductive channel := ChProc (p : nat) | ChTicks | ChRead (pi : Z) | ChWrite (pi : Z) | ChDevice (n : Z).
#[export] Instance channel_eq_dec : EqDecision channel.
Proof. solve_decision. Defined.

(** Where a saved [struct context] continues: nowhere yet, in [forkret], or
    where [swtch] left it. *)
Inductive resume := NoContext | Forkret | InSwtch.

(** [struct proc]; the pointers [trapframe] and [pagetable] are physical
    addresses, [parent] an index of the table. *)
Record proc := Proc {
  p_lock : bool;
  p_state : procstate;
  p_chan : option channel;
  p_killed : Z;
  p_xstate : Z;
  p_pid : Z;
  p_parent : option nat;
  p_kstack : Z;
  p_sz : Z;
  p_pagetable : Z;
  p_trapframe : Z;
  p_context : resume * Z;
  p_ofile : Z -> option nat;
  p_cwd : option nat;
  p_name : mem
}.

Definition set_plock (v : bool) (p : proc) : proc :=
  Proc v (p_state p) (p_chan p) (p_killed p) (p_xstate p) (p_pid p) (p_parent p) (p_kstack p) (p_sz p) (p_pagetable p) (p_trapframe p) (p_context p) (p_ofile p) (p_cwd p) (p_name p).
Definition set_pstate (v : procstate) (p : proc) : proc :=
  Proc (p_lock p) v (p_chan p) (p_killed p) (p_xstate p) (p_pid p) (p_parent p) (p_kstack p) (p_sz p) (p_pagetable p) (p_trapframe p) (p_context p) (p_ofile p) (p_cwd p) (p_name p).
Definition set_pchan (v : option channel) (p : proc) : proc :=
  Proc (p_lock p) (p_state p) v (p_killed p) (p_xstate p) (p_pid p) (p_parent p) (p_kstack p) (p_sz p) (p_pagetable p) (p_trapframe p) (p_context p) (p_ofile p) (p_cwd p) (p_name p).
Definition set_pkilled (v : Z) (p : proc) : proc :=
  Proc (p_lock p) (p_state p) (p_chan p) v (p_xstate p) (p_pid p) (p_parent p) (p_kstack p) (p_sz p) (p_pagetable p) (p_trapframe p) (p_context p) (p_ofile p) (p_cwd p) (p_name p).
Definition set_pxstate (v : Z) (p : proc) : proc :=
  Proc (p_lock p) (p_state p) (p_chan p) (p_killed p) v (p_pid p) (p_parent p) (p_kstack p) (p_sz p) (p_pagetable p) (p_trapframe p) (p_context p) (p_ofile p) (p_cwd p) (p_name p).
Definition set_ppid (v : Z) (p : proc) : proc :=
  Proc (p_lock p) (p_state p) (p_chan p) (p_killed p) (p_xstate p) v (p_parent p) (p_kstack p) (p_sz p) (p_pagetable p) (p_trapframe p) (p_context p) (p_ofile p) (p_cwd p) (p_name p).
Definition set_pparent (v : option nat) (p : proc) : proc :=
  Proc (p_lock p) (p_state p) (p_chan p) (p_killed p) (p_xstate p) (p_pid p) v (p_kstack p) (p_sz p) (p_pagetable p) (p_trapframe p) (p_context p) (p_ofile p) (p_cwd p) (p_name p).
Definition set_pkstack (v : Z) (p : proc) : proc :=
  Proc (p_lock p) (p_state p) (p_chan p) (p_killed p) (p_xstate p) (p_pid p) (p_parent p) v (p_sz p) (p_pagetable p) (p_trapframe p) (p_context p) (p_ofile p) (p_cwd p) (p_name p).
Definition set_psz (v : Z) (p : proc) : proc :=
  Proc (p_lock p) (p_state p) (p_chan p) (p_killed p) (p_xstate p) (p_pid p) (p_parent p) (p_kstack p) v (p_pagetable p) (p_trapframe p) (p_context p) (p_ofile p) (p_cwd p) (p_name p).
Definition set_ppagetable (v : Z) (p : proc) : proc :=
  Proc (p_lock p) (p_state p) (p_chan p) (p_killed p) (p_xstate p) (p_pid p) (p_parent p) (p_kstack p) (p_sz p) v (p_trapframe p) (p_context p) (p_ofile p) (p_cwd p) (p_name p).
Definition set_ptrapframe (v : Z) (p : proc) : proc :=
  Proc (p_lock p) (p_state p) (p_chan p) (p_killed p) (p_xstate p) (p_pid p) (p_parent p) (p_kstack p) (p_sz p) (p_pagetable p) v (p_context p) (p_ofile p) (p_cwd p) (p_name p).
Definition set_pcontext (v : resume * Z) (p : proc) : proc :=
  Proc (p_lock p) (p_state p) (p_chan p) (p_killed p) (p_xstate p) (p_pid p) (p_parent p) (p_kstack p) (p_sz p) (p_pagetable p) (p_trapframe p) v (p_ofile p) (p_cwd p) (p_name p).
Definition set_pofile (v : Z -> option nat) (p : proc) : proc :=
  Proc (p_lock p) (p_state p) (p_chan p) (p_killed p) (p_xstate p) (p_pid p) (p_parent p) (p_kstack p) (p_sz p) (p_pagetable p) (p_trapframe p) (p_context p) v (p_cwd p) (p_name p).
Definition set_pcwd (v : option nat) (p : proc) : proc :=
  Proc (p_lock p) (p_state p) (p_chan p) (p_killed p) (p_xstate p) (p_pid p) (p_parent p) (p_kstack p) (p_sz p) (p_pagetable p) (p_trapframe p) (p_context p) (p_ofile p) v (p_name p).
Definition set_pname (v : mem) (p : proc) : proc :=
  Proc (p_lock p) (p_state p) (p_chan p) (p_killed p) (p_xstate p) (p_pid p) (p_parent p) (p_kstack p) (p_sz p) (p_pagetable p) (p_trapframe p) (p_context p) (p_ofile p) (p_cwd p) v.

(** ** The kernel *)

Section Kernel.
Context {S D : Type} `{BC : BufCache S}.

(** The log and cache, the superblock and [itable]. *)
Record fsys := FSys { fs_log : lstate S; fs_sb : superblock; fs_ilock : bool; fs_inode : nat -> inode }.

(** [ftable] *)
Record ftable := FTable { ft_lock : bool; ft_file : nat -> file }.

(** [proc], [nextpid] with [pid_lock], [wait_lock], [initproc] *)
Record ptable := PTable {
  pt_proc : nat -> proc;
  pt_nextpid : Z;
  pt_pidlock : bool;
  pt_waitlock : bool;
  pt_initproc : option nat
}.

(** [ticks] and [tickslock] *)
Record clock := Clock { ck_lock : bool; ck_ticks : Z }.

Record kernel := Kernel {
  kn_fs : fsys;
  kn_mem : kstate;
  kn_ft : ftable;
  kn_pipe : Z -> Pipe.pipe;
  kn_pt : ptable;
  kn_cpu : Spinlock.cpu;      (** the interrupt nesting of the running hart *)
  kn_cur : option nat;        (** its [c->proc] *)
  kn_clock : clock;
  kn_dev : D
}.

Definition set_fs (v : fsys) (s : kernel) : kernel :=
  Kernel v (kn_mem s) (kn_ft s) (kn_pipe s) (kn_pt s) (kn_cpu s) (kn_cur s) (kn_clock s) (kn_dev s).
Definition set_kmem (v : kstate) (s : kernel) : kernel :=
  Kernel (kn_fs s) v (kn_ft s) (kn_pipe s) (kn_pt s) (kn_cpu s) (kn_cur s) (kn_clock s) (kn_dev s).
Definition set_ft (v : ftable) (s : kernel) : kernel :=
  Kernel (kn_fs s) (kn_mem s) v (kn_pipe s) (kn_pt s) (kn_cpu s) (kn_cur s) (kn_clock s) (kn_dev s).
Definition set_pipe (a : Z) (v : Pipe.pipe) (s : kernel) : kernel :=
  Kernel (kn_fs s) (kn_mem s) (kn_ft s) (<[a := v]> (kn_pipe s)) (kn_pt s) (kn_cpu s) (kn_cur s) (kn_clock s) (kn_dev s).
Definition set_pt (v : ptable) (s : kernel) : kernel :=
  Kernel (kn_fs s) (kn_mem s) (kn_ft s) (kn_pipe s) v (kn_cpu s) (kn_cur s) (kn_clock s) (kn_dev s).
Definition set_kcpu (v : Spinlock.cpu) (s : kernel) : kernel :=
  Kernel (kn_fs s) (kn_mem s) (kn_ft s) (kn_pipe s) (kn_pt s) v (kn_cur s) (kn_clock s) (kn_dev s).
Definition set_cur (v : option nat) (s : kernel) : kernel :=
  Kernel (kn_fs s) (kn_mem s) (kn_ft s) (kn_pipe s) (kn_pt s) (kn_cpu s) v (kn_clock s) (kn_dev s).
Definition set_clock (v : clock) (s : kernel) : kernel :=
  Kernel (kn_fs s) (kn_mem s) (kn_ft s) (kn_pipe s) (kn_pt s) (kn_cpu s) (kn_cur s) v (kn_dev s).
Definition set_dev (v : D) (s : kernel) : kernel :=
  Kernel (kn_fs s) (kn_mem s) (kn_ft s) (kn_pipe s) (kn_pt s) (kn_cpu s) (kn_cur s) (kn_clock s) v.

Definition upd_file (i : nat) (f : file -> file) (s : kernel) : kernel :=
  set_ft (FTable (ft_lock (kn_ft s)) (<[i := f (ft_file (kn_ft s) i)]> (ft_file (kn_ft s)))) s.
Definition set_ftlock (b : bool) (s : kernel) : kernel := set_ft (FTable b (ft_file (kn_ft s))) s.
Definition upd_proc (i : nat) (f : proc -> proc) (s : kernel) : kernel :=
  let t := kn_pt s in
  set_pt (PTable (<[i := f (pt_proc t i)]> (pt_proc t)) (pt_nextpid t) (pt_pidlock t) (pt_waitlock t) (pt_initproc t)) s.
Definition set_nextpid (v : Z) (s : kernel) : kernel :=
  let t := kn_pt s in set_pt (PTable (pt_proc t) v (pt_pidlock t) (pt_waitlock t) (pt_initproc t)) s.
Definition set_pidlock (b : bool) (s : kernel) : kernel :=
  let t := kn_pt s in set_pt (PTable (pt_proc t) (pt_nextpid t) b (pt_waitlock t) (pt_initproc t)) s.
Definition set_waitlock (b : bool) (s : kernel) : kernel :=
  let t := kn_pt s in set_pt (PTable (pt_proc t) (pt_nextpid t) (pt_pidlock t) b (pt_initproc t)) s.
Definition set_initproc (v : option nat) (s : kernel) : kernel :=
  let t := kn_pt s in set_pt (PTable (pt_proc t) (pt_nextpid t) (pt_pidlock t) (pt_waitlock t) v) s.

Definition the_file (i : nat) : M kernel file := gets (fun s => ft_file (kn_ft s) i).
Definition the_proc (i : nat) : M kernel proc := gets (fun s => pt_proc (kn_pt s) i).

(** ** Spinlocks of the kernel on the running hart: [acquire] and [release]
    with the interrupt nesting of [push_off] and [pop_off] *)

Definition kpush_off : M kernel unit := modify (fun s => set_kcpu (Spinlock.push_off (kn_cpu s)) s).
Definition kpop_off : M kernel unit := fun s =>
  match Spinlock.pop_off (kn_cpu s) with
  | Some c => Ret tt (set_kcpu c s)
  | None => Panic "pop_off"
  end.
Definition klock (locked : kernel -> bool) (set : bool -> kernel -> kernel) : M kernel unit :=
  kpush_off;; acquire locked set.
Definition kunlock (locked : kernel -> bool) (set : bool -> kernel -> kernel) : M kernel unit :=
  release locked set;; kpop_off.

Definition lock_proc (p : nat) : M kernel unit :=
  klock (fun s => p_lock (pt_proc (kn_pt s) p)) (fun b => upd_proc p (set_plock b)).
Definition unlock_proc (p : nat) : M kernel unit :=
  kunlock (fun s => p_lock (pt_proc (kn_pt s) p)) (fun b => upd_proc p (set_plock b)).
Definition lock_ftable : M kernel unit := klock (fun s => ft_lock (kn_ft s)) set_ftlock.
Definition unlock_ftable : M kernel unit := kunlock (fun s => ft_lock (kn_ft s)) set_ftlock.
Definition lock_pid : M kernel unit := klock (fun s => pt_pidlock (kn_pt s)) set_pidlock.
Definition unlock_pid : M kernel unit := kunlock (fun s => pt_pidlock (kn_pt s)) set_pidlock.
Definition lock_wait : M kernel unit := klock (fun s => pt_waitlock (kn_pt s)) set_waitlock.
Definition unlock_wait : M kernel unit := kunlock (fun s => pt_waitlock (kn_pt s)) set_waitlock.
Definition set_tickslock (b : bool) (s : kernel) : kernel := set_clock (Clock b (ck_ticks (kn_clock s))) s.
Definition lock_ticks : M kernel unit := klock (fun s => ck_lock (kn_clock s)) set_tickslock.
Definition unlock_ticks : M kernel unit := kunlock (fun s => ck_lock (kn_clock s)) set_tickslock.

(** [myproc], for code that uses its result: a null pointer faults in the
    kernel. *)
Definition myproc : M kernel nat :=
  kpush_off;;
  c ← gets kn_cur;
  kpop_off;;
  match c with Some p => mret p | None => panic "kerneltrap" end.

(** ** Code of the layers below *)

Definition cur_root (s : kernel) : Z :=
  match kn_cur s with Some p => p_pagetable (pt_proc (kn_pt s) p) | None => 0 end.
Definition cur_killed (s : kernel) : bool :=
  match kn_cur s with Some p => negb (p_killed (pt_proc (kn_pt s) p) =? 0) | None => false end.

(** The page allocator and the page tables. *)
Definition vm {A} (m : M kstate A) : M kernel A := zoom kn_mem set_kmem m.

(** The file system, called by the running process. *)
Definition fs_view (s : kernel) : fstate S umem :=
  FState (fs_log (kn_fs s)) (fs_sb (kn_fs s)) (fs_ilock (kn_fs s)) (fs_inode (kn_fs s)) (kn_mem s, cur_root s)
    (match kn_cur s with Some p => default 0%nat (p_cwd (pt_proc (kn_pt s) p)) | None => 0%nat end).
Definition fs_set (f : fstate S umem) (s : kernel) : kernel :=
  set_kmem (f_user f).1 (set_fs (FSys (f_log f) (f_sb f) (f_ilock f) (f_inode f)) s).
Definition fs {A} (m : M (fstate S umem) A) : M kernel A := zoom fs_view fs_set m.

(** The pipe at [pi], used by the running process. *)
Definition pipe_view (pi : Z) (s : kernel) : Pipe.pstate (U := umem) :=
  Pipe.PState (kn_pipe s pi) (kn_mem s, cur_root s) (cur_killed s).
Definition pipe_set (pi : Z) (x : Pipe.pstate (U := umem)) (s : kernel) : kernel :=
  set_kmem (Pipe.user x).1 (set_pipe pi (Pipe.pi x) s).
Definition on_pipe {A} (pi : Z) (m : M (Pipe.pstate (U := umem)) A) : M kernel A :=
  zoom (pipe_view pi) (pipe_set pi) m.

(** ** The interrupt nesting around a lock *)

(** What [push_off] and [pop_off] leave alone when they nest properly. *)
Definition cpu_ok (c : Spinlock.cpu) : Prop :=
  0 <= Spinlock.noff c /\
  (if Spinlock.noff c =? 0 then Spinlock.intena c = Spinlock.intr c else Spinlock.intr c = false).

Lemma pop_push c : cpu_ok c -> Spinlock.pop_off (Spinlock.push_off c) = Some c.
Proof.
  destruct c as [n ie i]. unfold cpu_ok, Spinlock.pop_off, Spinlock.push_off. cbn. intros [Hn Hi].
  replace (n + 1 <? 1) with false by lia. replace (n + 1 - 1) with n by lia.
  destruct (n =? 0); subst; [destruct i|]; reflexivity.
Qed.

Lemma push_ok c : cpu_ok c -> cpu_ok (Spinlock.push_off c).
Proof.
  destruct c as [n ie i]. unfold cpu_ok, Spinlock.push_off. cbn. intros [Hn Hi].
  replace (n + 1 =? 0) with false by lia. split; [lia | reflexivity].
Qed.

Definition procs (s : kernel) : nat -> proc := pt_proc (kn_pt s).
Definition set_procs (f : nat -> proc) (s : kernel) : kernel :=
  let t := kn_pt s in set_pt (PTable f (pt_nextpid t) (pt_pidlock t) (pt_waitlock t) (pt_initproc t)) s.

Lemma wp_kpop_off c Q s : Spinlock.pop_off (kn_cpu s) = Some c -> Q tt (set_kcpu c s) -> wp kpop_off Q s.
Proof. intros Hp HQ. unfold wp, kpop_off. rewrite Hp. exact HQ. Qed.

Lemma wp_myproc p Q s : cpu_ok (kn_cpu s) -> kn_cur s = Some p -> Q p s -> wp myproc Q s.
Proof.
  intros Hc Hp HQ. unfold myproc, kpush_off. wp_steps. apply wp_kpop_off with (c := kn_cpu s); [apply pop_push, Hc|].
  cbn [kn_cur set_kcpu]. rewrite Hp. apply wp_ret. destruct s. exact HQ.
Qed.

Lemma wp_klock locked set Q s : locked (set_kcpu (Spinlock.push_off (kn_cpu s)) s) = false ->
  Q tt (set true (set_kcpu (Spinlock.push_off (kn_cpu s)) s)) -> wp (klock locked set) Q s.
Proof. intros H1 H2. unfold klock, kpush_off. wp_steps. apply wp_acquire; assumption. Qed.

(** Leaving the section of a lock taken with the nesting [c]. *)
Lemma wp_kunlock locked set c Q s : locked s = true -> cpu_ok c ->
  kn_cpu (set false s) = Spinlock.push_off c ->
  Q tt (set_kcpu c (set false s)) -> wp (kunlock locked set) Q s.
Proof.
  intros H1 Hc H2 HQ. unfold kunlock. wp_steps. apply wp_release; [exact H1|].
  apply (wp_kpop_off c); [rewrite H2; apply pop_push, Hc | exact HQ].
Qed.

(** The state inside the section of [proc[p].lock]. *)
Definition locked_proc (p : nat) (s : kernel) : kernel :=
  upd_proc p (set_plock true) (set_kcpu (Spinlock.push_off (kn_cpu s)) s).

Lemma wp_lock_proc p Q s : p_lock (procs s p) = false -> Q tt (locked_proc p s) -> wp (lock_proc p) Q s.
Proof. intros H1 H2. apply wp_klock; assumption. Qed.

(** An update that does not look at the lock. *)
Definition lockless (g : proc -> proc) : Prop := forall b x, g (set_plock b x) = set_plock b (g x).

Lemma set_plock_id x b : p_lock x = b -> set_plock b x = x.
Proof. destruct x. cbn. intros ->. reflexivity. Qed.

(** One section of [proc[p].lock] that applies [g] to the entry. *)
Lemma wp_unlock_proc p g Q s : cpu_ok (kn_cpu s) -> p_lock (procs s p) = false -> lockless g ->
  Q tt (upd_proc p g s) -> wp (unlock_proc p) Q (upd_proc p g (locked_proc p s)).
Proof.
  intros Hc Hl Hg HQ. apply (wp_kunlock _ _ (kn_cpu s)); [|exact Hc | reflexivity |].
  - unfold upd_proc, locked_proc. cbn. rewrite !fn_lookup_insert. rewrite Hg. reflexivity.
  - replace (set_kcpu _ _) with (upd_proc p g s); [exact HQ|]. destruct s as [? ? ? ? [t ? ? ? ?] ? ? ? ?].
    unfold upd_proc, locked_proc, set_kcpu, set_pt, procs in *. cbn in *. do 2 f_equal. apply functional_extensionality.
    intros x. unfold insert, fn_insert. case_decide as E; [subst x|reflexivity]. rewrite !decide_True by reflexivity.
    rewrite Hg. change (g (t p) = set_plock false (g (t p))). rewrite <- Hg, set_plock_id by exact Hl. reflexivity.
Qed.

Lemma upd_proc_id p s : upd_proc p id s = s.
Proof.
  destruct s as [? ? ? ? [t ? ? ? ?] ? ? ? ?]. unfold upd_proc, set_pt, id. cbn. do 2 f_equal.
  apply functional_extensionality. intros x. unfold insert, fn_insert. case_decide; [subst|]; reflexivity.
Qed.

Lemma wp_unlock_proc_same p Q s : cpu_ok (kn_cpu s) -> p_lock (procs s p) = false ->
  Q tt s -> wp (unlock_proc p) Q (locked_proc p s).
Proof.
  intros Hc Hl HQ. rewrite <- (upd_proc_id p (locked_proc p s)). apply wp_unlock_proc; [exact Hc | exact Hl | intros b x; reflexivity|].
  rewrite upd_proc_id. exact HQ.
Qed.

Lemma set_procs_id s : set_procs (procs s) s = s.
Proof. destruct s as [? ? ? ? [t ? ? ? ?] ? ? ? ?]. reflexivity. Qed.

Lemma wlp_kpop_off (B : kernel -> Prop) (Q : unit -> kernel -> Prop) s : (forall c, Q tt (set_kcpu c s)) -> wlp B kpop_off Q s.
Proof. intros HQ. unfold wlp, kpop_off. destruct (Spinlock.pop_off _); auto. Qed.

Lemma wlp_myproc (B : kernel -> Prop) (Q : nat -> kernel -> Prop) s :
  (forall p c, kn_cur s = Some p -> Q p (set_kcpu c s)) -> wlp B myproc Q s.
Proof.
  intros HQ. unfold myproc, kpush_off. apply wlp_bind, wlp_modify, wlp_bind, wlp_gets, wlp_bind, wlp_kpop_off. intros c.
  cbn [kn_cur set_kcpu]. destruct (kn_cur s) as [p|] eqn:E; [apply wlp_ret, (HQ p c eq_refl) | apply wlp_panic].
Qed.

End Kernel.
Arguments kernel S D : clear implicits.

(** The steps of kernel code, for goals [wlp _ _ _ _]. *)
Ltac wstep :=
  lazymatch goal with
  | |- wlp _ (_ ≫= _) _ _ => apply wlp_bind
  | |- wlp _ (mret _) _ _ => apply wlp_ret
  | |- wlp _ (gets _) _ _ => apply wlp_gets
  | |- wlp _ (modify _) _ _ => apply wlp_modify
  | |- wlp _ (panic _) _ _ => apply wlp_panic
  | |- wlp _ block _ _ => apply wlp_block
  | |- wlp _ (when _ _) _ _ => apply wlp_when; intros ?
  | |- wlp _ (panic_if _ _) _ _ => apply wlp_panic_if; intros ?
  | |- wlp _ (acquire _ _) _ _ => apply wlp_acquire; intros ?
  | |- wlp _ (release _ _) _ _ => apply wlp_release; intros ?
  | |- wlp _ kpop_off _ _ => apply wlp_kpop_off; intros ?
  | |- wlp _ myproc _ _ => apply wlp_myproc; intros ? ? ?
  | |- wlp _ (zoom _ _ _) _ _ => apply wlp_zoom; intros *
  | |- wlp _ (the_proc _) _ _ => apply wlp_gets
  | |- wlp _ (the_file _) _ _ => apply wlp_gets
  | |- wlp _ (vm _) _ _ => apply wlp_zoom; intros *
  | |- wlp _ (fs _) _ _ => apply wlp_zoom; intros *
  | |- wlp _ (on_pipe _ _) _ _ => apply wlp_zoom; intros *
  | |- wlp _ (klock _ _) _ _ => unfold klock, kpush_off
  | |- wlp _ (kunlock _ _) _ _ => unfold kunlock
  | |- wlp _ (lock_proc _) _ _ => unfold lock_proc
  | |- wlp _ (unlock_proc _) _ _ => unfold unlock_proc
  | |- wlp _ (let _ := _ in _) _ _ => cbv zeta
  | |- wlp _ ((fun _ => _) _) _ _ => cbv beta
  | |- wlp _ (match ?x with _ => _ end) _ _ => destruct x eqn:?
  end.
