(* ===== verification/Machine.v ===== *)
(** * A small machine

    Concrete kernel states on which the examples of the process and file
    layers run: no disk contents, memory of six free pages, a few processes. *)

From S2P Require Import Prelude Memory Riscv Kalloc Vm FsDefs BufCache Bio Log LogTx UserMem KernelMem Fs Spinlock ProcDefs Pipe Kernel.

Definition demo_bc : bstate := BState false (fun _ => Buf false 0 0 false 0 0 0 zeroes) (fun _ => zeroes) [].
Definition demo_fs : fsys := FSys (lstate0 demo_bc) (get_sb zeroes) false
  (fun _ => Inode 0 0 0 false false 0 0 0 0 0 (fun _ => 0)).
Definition demo_file : file := File FD_NONE 0 false false 0 None 0 0.
Definition demo_proc (st : procstate) (pid tf : Z) : proc :=
  Proc false st None 0 0 pid None 0 0 0 tf (NoContext, 0) (fun _ => None) None zeroes.
Definition demo_pipe : Pipe.pipe := Pipe.pipeinit (fun _ => x00).

Definition demo_kernel (m : kstate) (P : nat -> proc) (next : Z) (cur : option nat) : kernel bstate unit :=
  Kernel demo_fs m (FTable false (fun _ => demo_file)) (fun _ => demo_pipe)
    (PTable P next false false (Some 0%nat)) (Spinlock.Cpu 0 false false) cur (Clock false 0) tt.

(** Six free pages. *)
Definition demo_mem : kstate :=
  match kinit {| k_mem := fun _ => x00; k_lock := false; k_freelist := 0; k_end := PHYSTOP - 6 * PGSIZE |} with
  | Ret _ s => s
  | _ => {| k_mem := zeroes; k_lock := false; k_freelist := 0; k_end := 0 |}
  end.
