(* ===== verification/Sched.v ===== *)
(** * Sleeping, waking and scheduling: the second half of kernel/proc.c

    The process table as the running hart sees it.  A [swtch] to the scheduler
    ends a run in [Block]: the state is the one the scheduler continues from,
    still holding the lock of the process; [scheduler_switched] and
    [scheduler_scan] are the two halves of the scheduler's loop around its own
    [swtch], and [sched_resumed], [sleep_resumed] and [yield_resumed] the code
    after the calls of the process. *)

From S2P Require Import Prelude Memory FsDefs BufCache Log Fs Spinlock ProcDefs Kernel.

Section Sched.
Context {S D : Type} `{BC : BufCache S}.
Local Abbreviation K := (kernel S D).

(** [for(p = proc + i; p < proc + i + k; p++)] *)
Fixpoint for_procs (k i : nat) (body : nat -> M K unit) : M K unit :=
  match k with
  | O => mret tt
  | Datatypes.S k' => body i;; for_procs k' (Datatypes.S i) body
  end.
Definition nproc : nat := Z.to_nat NPROC.

Definition is_state (x : procstate) (p : proc) : bool := bool_decide (p_state p = x).

Definition procinit : M K unit :=
  modify (set_pidlock false);;
  modify (set_waitlock false);;
  for_procs nproc 0 (fun p =>
    modify (upd_proc p (fun x =>
      set_pkstack (Riscv.KSTACK (Z.of_nat p)) (set_pstate UNUSED (set_plock false x))))).

(** ** The scheduler *)

Definition intr_on : M K unit :=
  modify (fun s => set_kcpu (Spinlock.Cpu (Spinlock.noff (kn_cpu s)) (Spinlock.intena (kn_cpu s)) true) s).

(** The scan of the table from entry [i]: the process switched to, with its
    lock held. *)
Fixpoint scheduler_scan (k i : nat) : M K (option nat) :=
  match k with
  | O => mret None
  | Datatypes.S k' =>
      lock_proc i;;
      x ← the_proc i;
      if is_state RUNNABLE x then
        modify (upd_proc i (set_pstate RUNNING));;
        modify (set_cur (Some i));;
        mret (Some i)
      else
        unlock_proc i;;
        scheduler_scan k' (Datatypes.S i)
  end.

(** One round of the scheduler's outer loop, up to its first [swtch]. *)
Definition scheduler : M K (option nat) :=
  modify (set_cur None);;
  intr_on;;
  scheduler_scan nproc 0.

(** Back from process [p]. *)
Definition scheduler_switched (p : nat) : M K (option nat) :=
  modify (set_cur None);;
  unlock_proc p;;
  scheduler_scan (nproc - Datatypes.S p) (Datatypes.S p).

Definition sched {A} : M K A :=
  p ← myproc;
  x ← the_proc p;
  panic_if (negb (p_lock x)) "sched p->lock";;
  c ← gets kn_cpu;
  panic_if (negb (Spinlock.noff c =? 1)) "sched locks";;
  panic_if (is_state RUNNING x) "sched running";;
  panic_if (Spinlock.intr c) "sched interruptible";;
  modify (upd_proc p (fun x => set_pcontext (InSwtch, (p_context x).2) x));;
  block.

(** [mycpu()->intena = intena], with the value saved before the switch. *)
Definition sched_resumed (intena : bool) : M K unit :=
  modify (fun s => set_kcpu (Spinlock.Cpu (Spinlock.noff (kn_cpu s)) intena (Spinlock.intr (kn_cpu s))) s).

Definition yield {A} : M K A :=
  p ← myproc;
  lock_proc p;;
  modify (upd_proc p (set_pstate RUNNABLE));;
  sched.
Definition yield_resumed (intena : bool) : M K unit :=
  sched_resumed intena;;
  p ← myproc;
  unlock_proc p.

(** ** Sleep and wakeup *)

(** [sleep(chan, lk)]; [unlock] releases [lk]. *)
Definition sleep {A} (chan : channel) (unlock : M K unit) : M K A :=
  p ← myproc;
  lock_proc p;;
  unlock;;
  modify (upd_proc p (fun x => set_pstate SLEEPING (set_pchan (Some chan) x)));;
  sched.
Definition sleep_resumed (intena : bool) (lock : M K unit) : M K unit :=
  sched_resumed intena;;
  p ← myproc;
  modify (upd_proc p (set_pchan None));;
  unlock_proc p;;
  lock.

Definition wakeup_one (chan : option channel) (p : nat) : M K unit :=
  c ← gets kn_cur;
  when (negb (bool_decide (c = Some p)))
    (lock_proc p;;
     x ← the_proc p;
     when (is_state SLEEPING x && bool_decide (p_chan x = chan))
       (modify (upd_proc p (set_pstate RUNNABLE)));;
     unlock_proc p).

Definition wakeup (chan : option channel) : M K unit := for_procs nproc 0 (wakeup_one chan).

(** ** Killing *)

Fixpoint kill_scan (k i : nat) (pid : Z) : M K Z :=
  match k with
  | O => mret (-1)
  | Datatypes.S k' =>
      lock_proc i;;
      x ← the_proc i;
      if p_pid x =? pid then
        modify (upd_proc i (set_pkilled 1));;
        when (is_state SLEEPING x) (modify (upd_proc i (set_pstate RUNNABLE)));;
        unlock_proc i;;
        mret 0
      else
        unlock_proc i;;
        kill_scan k' (Datatypes.S i) pid
  end.
Definition kill (pid : Z) : M K Z := kill_scan nproc 0 pid.

Definition setkilled (p : nat) : M K unit :=
  lock_proc p;;
  modify (upd_proc p (set_pkilled 1));;
  unlock_proc p.

Definition killed (p : nat) : M K Z :=
  lock_proc p;;
  x ← the_proc p;
  unlock_proc p;;
  mret (p_killed x).

(** ** The table under these operations *)

(** A loop over the table whose body updates the entry it visits. *)
Lemma wp_for_procs (R : K -> Prop) (F : nat -> proc -> proc) (body : nat -> M K unit) k i Q s :
  (forall j t P, (i <= j < i + k)%nat -> R t -> P tt (upd_proc j (F j) t) -> wp (body j) P t) ->
  (forall j t, R t -> R (upd_proc j (F j) t)) ->
  R s ->
  Q tt (set_procs (fun j => if (i <=? j)%nat && (j <? i + k)%nat then F j (procs s j) else procs s j) s) ->
  wp (for_procs k i body) Q s.
Proof.
  intros Hb HR. revert i s Hb. induction k as [|k IH]; intros i s Hb Hs HQ; cbn [for_procs].
  - apply wp_ret. replace (set_procs _ s) with s in HQ; [exact HQ|]. rewrite <- (set_procs_id s) at 1. f_equal.
    apply functional_extensionality. intros j. replace (_ && _) with false by lia. reflexivity.
  - wp_steps. apply (Hb i); [lia | exact Hs|]. apply IH; [intros j t P Hj; apply Hb; lia | apply HR, Hs|].
    replace (set_procs _ _) with (set_procs (fun j => if (i <=? j)%nat && (j <? i + Datatypes.S k)%nat then F j (procs s j) else procs s j) s); [exact HQ|].
    destruct s as [? ? ? ? [t ? ? ? ?] ? ? ? ?]. unfold set_procs, upd_proc, procs, set_pt. cbn. do 2 f_equal.
    apply functional_extensionality. intros j. unfold insert, fn_insert.
    repeat case_match; subst; first [reflexivity | exfalso; lia].
Qed.

(** No process lock is held by the running hart, the one of the running
    process aside. *)
Definition others_free (s : K) : Prop := forall i, kn_cur s <> Some i -> p_lock (procs s i) = false.

Definition woken (chan : option channel) (cur : option nat) (i : nat) (x : proc) : proc :=
  if negb (bool_decide (cur = Some i)) && (is_state SLEEPING x && bool_decide (p_chan x = chan))
  then set_pstate RUNNABLE x else x.

(** The effect of [wakeup]. *)
Definition wake (chan : option channel) (s : K) : K :=
  set_procs (fun i => if (i <? nproc)%nat then woken chan (kn_cur s) i (procs s i) else procs s i) s.

Lemma woken_lockless chan cur i : lockless (woken chan cur i).
Proof. intros b x. unfold woken, is_state. cbn. destruct (_ && _); reflexivity. Qed.

Lemma woken_lock chan cur i x : p_lock (woken chan cur i x) = p_lock x.
Proof. unfold woken. destruct (_ && _); reflexivity. Qed.

Lemma wp_wakeup_one chan i Q s : cpu_ok (kn_cpu s) -> others_free s ->
  Q tt (upd_proc i (woken chan (kn_cur s) i) s) -> wp (wakeup_one chan i) Q s.
Proof.
  intros Hc Hf HQ. unfold wakeup_one. wp_steps. unfold woken in HQ. case_bool_decide as E; cbn [negb when andb] in *.
  - apply wp_ret. rewrite <- (upd_proc_id i s). exact HQ.
  - specialize (Hf i E). wp_steps. apply wp_lock_proc; [exact Hf|]. unfold the_proc. wp_steps.
    replace (pt_proc (kn_pt (locked_proc i s)) i) with (set_plock true (procs s i))
      by (unfold locked_proc, upd_proc; cbn; rewrite fn_lookup_insert; reflexivity).
    unfold is_state in *. cbn [p_state set_plock p_chan] in *.
    destruct (bool_decide (p_state (procs s i) = SLEEPING) && bool_decide (p_chan (procs s i) = chan)) eqn:Ew; cbn [when]; wp_steps.
    + apply wp_unlock_proc; [exact Hc | exact Hf | intros b x; reflexivity|]. revert HQ.
      unfold upd_proc, procs in *. cbn. rewrite Ew. exact id.
    + apply wp_unlock_proc_same; [exact Hc | exact Hf|]. rewrite <- (upd_proc_id i s). revert HQ.
      unfold upd_proc, procs in *. cbn. rewrite Ew. exact id.
Qed.

Lemma wp_wakeup chan Q s : cpu_ok (kn_cpu s) -> others_free s -> Q tt (wake chan s) -> wp (wakeup chan) Q s.
Proof.
  intros Hc Hf HQ. apply (wp_for_procs (fun t => kn_cpu t = kn_cpu s /\ kn_cur t = kn_cur s /\ others_free t) (woken chan (kn_cur s))); auto.
  - intros j t P _ (E1 & E2 & Hft) HP. rewrite <- E2 in HP. apply wp_wakeup_one; [rewrite E1; exact Hc | exact Hft | exact HP].
  - intros j t (E1 & E2 & Hft). split; [exact E1|]. split; [exact E2|]. intros i Hi. cbn in Hi.
    unfold procs, upd_proc. cbn. unfold insert, fn_insert. case_decide as E; [subst; rewrite woken_lock|]; apply Hft, Hi.
Qed.
End Sched.
