(* ===== verification/File.v ===== *)
(** * Open files: kernel/file.c, with pipealloc and pipeclose of kernel/pipe.c

    An open file is an index of [ftable.file].  The drivers' entries of
    [devsw] are the parameters [devread] and [devwrite], by major number. *)

From S2P Require Import Prelude Memory Riscv Kalloc Vm FsDefs BufCache Log UserMem KernelMem Fs Spinlock ProcDefs Pipe Kernel Sched.

Section File.
Context {S D : Type} `{BufCache S}.
Local Abbreviation K := (kernel S D).
Context (devread devwrite : Z -> option (Z -> Z -> M K Z)).

Definition fileinit : M K unit := modify (set_ftlock false).

(** The first entry from [i] with no reference. *)
Fixpoint free_file (k i : nat) (tbl : nat -> file) : option nat :=
  match k with
  | O => None
  | Datatypes.S k' => if fd_ref (tbl i) =? 0 then Some i else free_file k' (Datatypes.S i) tbl
  end.

Definition filealloc : M K (option nat) :=
  lock_ftable;;
  tbl ← gets (fun s => ft_file (kn_ft s));
  match free_file (Z.to_nat NFILE) 0 tbl with
  | Some f =>
      modify (upd_file f (set_fd_ref 1));;
      unlock_ftable;;
      mret (Some f)
  | None =>
      unlock_ftable;;
      mret None
  end.

Definition filedup (f : nat) : M K nat :=
  lock_ftable;;
  x ← the_file f;
  panic_if (fd_ref x <? 1) "filedup";;
  modify (upd_file f (set_fd_ref (fd_ref x + 1)));;
  unlock_ftable;;
  mret f.

(** [pipeclose(pi, writable)] on the kernel: the last end frees the page. *)
Definition kpipeclose (pi : Z) (writable : bool) : M K unit :=
  last ← on_pipe pi (Pipe.pipeclose writable);
  wakeup (Some (if writable then ChRead pi else ChWrite pi));;
  when last (vm (kfree pi)).

Definition begin_op_ : M K unit := fs (log_ begin_op).
Definition end_op_ : M K unit := fs (log_ end_op).

(** [iput] of an inode pointer; a null pointer faults in the kernel. *)
Definition iput_ (ip : option nat) : M K unit :=
  match ip with Some ip => fs (iput ip) | None => panic "kerneltrap" end.

Definition fileclose (f : nat) : M K unit :=
  lock_ftable;;
  x ← the_file f;
  panic_if (fd_ref x <? 1) "fileclose";;
  modify (upd_file f (set_fd_ref (fd_ref x - 1)));;
  if fd_ref x - 1 >? 0 then unlock_ftable
  else
    ff ← the_file f;
    modify (upd_file f (fun x => set_fd_type FD_NONE (set_fd_ref 0 x)));;
    unlock_ftable;;
    match fd_type ff with
    | FD_PIPE => kpipeclose (fd_pipe ff) (fd_writable ff)
    | FD_INODE | FD_DEVICE => begin_op_;; iput_ (fd_ip ff);; end_op_
    | FD_NONE => mret tt
    end.

(** [struct stat] in memory: the four bytes of padding before the 64-bit size
    are whatever the kernel stack held. *)
Definition stat_bytes (pad : list byte) (st : stat) : list byte :=
  let m := put_bytes zeroes 12 (take 4 pad) in
  let m := store32 m 0 (u32 (st_dev st)) in
  let m := store32 m 4 (st_ino st) in
  let m := store16 m 8 (u16 (st_type st)) in
  let m := store16 m 10 (u16 (st_nlink st)) in
  let m := store64 m 16 (st_size st) in
  bytes_at m 0 24.

Definition filestat (pad : list byte) (f : nat) (addr : Z) : M K Z :=
  p ← myproc;
  x ← the_file f;
  match fd_type x, fd_ip x with
  | FD_INODE, Some ip | FD_DEVICE, Some ip =>
      fs (ilock (Some ip));;
      st ← fs (stati ip);
      fs (iunlock (Some ip));;
      y ← the_proc p;
      r ← vm (copyout (p_pagetable y) addr (stat_bytes pad st));
      if r <? 0 then mret (-1) else mret 0
  | FD_INODE, None | FD_DEVICE, None => panic "ilock"
  | _, _ => mret (-1)
  end.

(** [piperead] and [pipewrite] with their calls of [wakeup] and [sleep]; a
    run that sleeps has given up the lock of the pipe. *)
Definition kpiperead (pi addr n : Z) : M K Z :=
  r ← on_pipe pi (Pipe.piperead addr n);
  match r with
  | Pipe.Slept _ => sleep (ChRead pi) (mret tt)
  | Pipe.Returned r =>
      when (negb (r =? -1)) (wakeup (Some (ChWrite pi)));;
      mret r
  end.

Definition kpipewrite (pi addr n : Z) : M K Z :=
  r ← on_pipe pi (Pipe.pipewrite addr n 0);
  match r with
  | Pipe.Slept _ =>
      wakeup (Some (ChRead pi));;
      sleep (ChWrite pi) (mret tt)
  | Pipe.Returned r =>
      when (negb (r =? -1)) (wakeup (Some (ChRead pi)));;
      mret r
  end.

(** [devsw[major].read] and [.write] for a major number in range *)
Definition device (tbl : Z -> option (Z -> Z -> M K Z)) (major : Z) : option (Z -> Z -> M K Z) :=
  if (major <? 0) || (major >=? NDEV) then None else tbl major.

Definition fileread (f : nat) (addr n : Z) : M K Z :=
  x ← the_file f;
  if negb (fd_readable x) then mret (-1)
  else
    match fd_type x with
    | FD_PIPE => kpiperead (fd_pipe x) addr n
    | FD_DEVICE =>
        match device devread (fd_major x) with
        | None => mret (-1)
        | Some rd => rd addr n
        end
    | FD_INODE =>
        match fd_ip x with
        | None => panic "ilock"
        | Some ip =>
            fs (ilock (Some ip));;
            y ← the_file f;
            '(r, _) ← fs (readi ip (UserDst addr) (fd_off y) (u32 n));
            when (r >? 0) (modify (upd_file f (fun y => set_fd_off (u32 (fd_off y + r)) y)));;
            fs (iunlock (Some ip));;
            mret r
        end
    | FD_NONE => panic "fileread"
    end.

(** The number of bytes written in one transaction. *)
Definition WRITE_MAX : Z := ((MAXOPBLOCKS - 1 - 1 - 2) / 2) * BSIZE.

(** One iteration of [filewrite] on an inode. *)
Definition filewrite_step (f ip : nat) (addr n i : Z) : M K (Z + Z) :=
  if i <? n then
    let n1 := Z.min (n - i) WRITE_MAX in
    begin_op_;;
    fs (ilock (Some ip));;
    y ← the_file f;
    r ← fs (writei ip (UserSrc (u64 (addr + i))) (fd_off y) n1);
    when (r >? 0) (modify (upd_file f (fun y => set_fd_off (u32 (fd_off y + r)) y)));;
    fs (iunlock (Some ip));;
    end_op_;;
    if negb (r =? n1) then mret (inr i) else mret (inl (i + r))
  else mret (inr i).

Definition filewrite (f : nat) (addr n : Z) : M K Z :=
  x ← the_file f;
  if negb (fd_writable x) then mret (-1)
  else
    match fd_type x with
    | FD_PIPE => kpipewrite (fd_pipe x) addr n
    | FD_DEVICE =>
        match device devwrite (fd_major x) with
        | None => mret (-1)
        | Some wr => wr addr n
        end
    | FD_INODE =>
        match fd_ip x with
        | None => panic "ilock"
        | Some ip =>
            i ← loop (Datatypes.S (Datatypes.S (Z.to_nat (n / WRITE_MAX)))) (filewrite_step f ip addr n) 0;
            mret (if i =? n then n else -1)
        end
    | FD_NONE => panic "filewrite"
    end.

(** [pipealloc(&f0, &f1)]: the two files, or [None] for the result -1. *)
Definition pipealloc : M K (option (nat * nat)) :=
  let bad (f0 f1 : option nat) : M K (option (nat * nat)) :=
    match f0 with Some f => fileclose f | None => mret tt end;;
    match f1 with Some f => fileclose f | None => mret tt end;;
    mret None in
  o0 ← filealloc;
  match o0 with
  | None => bad None None
  | Some f0 =>
      o1 ← filealloc;
      match o1 with
      | None => bad (Some f0) None
      | Some f1 =>
          pi ← vm kalloc;
          if pi =? 0 then bad (Some f0) (Some f1)
          else
            m ← gets (fun s => k_mem (kn_mem s));
            modify (set_pipe pi (Pipe.pipeinit (fun i => m (pi + i))));;
            modify (upd_file f0 (fun x => set_fd_pipe pi (set_fd_mode true false (set_fd_type FD_PIPE x))));;
            modify (upd_file f1 (fun x => set_fd_pipe pi (set_fd_mode false true (set_fd_type FD_PIPE x))));;
            mret (Some (f0, f1))
      end
  end.
End File.
