(* ===== verification/FileWrite.v ===== *)
(** * filewrite of kernel/file.c, down to the disk

    The theorem of this file composes the layers: the bytes of a process's
    memory end up in the file, the file system's other data stay as they
    were, the transactions respect the size of the log, and wherever the
    machine stops the disk recovers to a file system in which some first part
    of the bytes has been written. *)

From S2P Require Import Prelude Memory Riscv Kalloc Vm PageTable Uvm UserCopy FsDefs BufCache Bio Log LogCrash LogTx UserMem KernelMem Fs FsTx FsBlocks FsFile FsWrite FsAtomic FsSpec Spinlock ProcDefs Pipe Kernel Machine Sched File.

Section FileWrite.
Context {S D : Type} `{BC : BufCache S}.
Local Abbreviation K := (kernel S D).
Context (dev : Z) (Hdev : u32 dev = dev) (start size : Z) (sb : superblock) (G : geometry start size sb).

(** The file system at rest on the contents [V]. *)
Record fs_rest (V : Z -> mem) (c : cache) (k : K) : Prop := {
  fr_sb : fs_sb (kn_fs k) = sb;
  fr_idle : idle dev start size (fs_log (kn_fs k)) c;
  fr_quiet : quiet start size V c;
  fr_meta : meta_used V sb
}.

Lemma fs_view_set (g : fstate S umem) (k : K) :
  f_user g = f_user (fs_view k) -> f_cwd g = f_cwd (fs_view k) -> fs_view (fs_set g k) = g.
Proof. destruct g as [l b il i u d]. cbn. intros -> ->. reflexivity. Qed.

(** The inode [ip] and the open file [f] after [t] bytes [b] went to offset
    [off]; [ws] are the disk writes since. *)
Record file_progress (ip f : nat) (b : Z -> byte) (off : Z) (V : Z -> mem) (c : cache) (k : K)
    (t : Z) (V' : Z -> mem) (c' : cache) (ws : list (Z * mem)) (k' : K) : Prop := {
  fp_rest : fs_rest V' c' k';
  fp_file : file_written dev sb b off t V (fs_inode (kn_fs k) ip) V' (fs_inode (kn_fs k') ip);
  fp_fd : ft_file (kn_ft k') f = set_fd_off (off + t) (ft_file (kn_ft k) f);
  fp_user : f_user (fs_view k') = f_user (fs_view k);
  fp_writes : c_writes c' = c_writes c ++ ws;
  fp_disk : c_disk c' = disk_after (c_disk c) ws;
  fp_crash : forall j, exists u W x, 0 <= u <= t /\
    recovers start size W (disk_after (c_disk c) (take j ws)) /\
    file_written dev sb b off u V (fs_inode (kn_fs k) ip) W x
}.

Lemma progress_trans ip f b g off V c k t V1 c1 w1 k1 t' V2 c2 w2 k2 :
  file_progress ip f b off V c k t V1 c1 w1 k1 -> file_progress ip f g (off + t) V1 c1 k1 t' V2 c2 w2 k2 ->
  (forall i, 0 <= i < t' -> g i = b (t + i)) -> 0 <= off -> 0 <= t -> 0 <= t' -> off + t + t' <= MAXBYTES ->
  file_progress ip f b off V c k (t + t') V2 c2 (w1 ++ w2) k2.
Proof.
  intros [R1 F1 D1 U1 W1 K1 C1] [R2 F2 D2 U2 W2 K2 C2] Hg Hoff Ht Ht' Hlim.
  assert (Ed : forall w, disk_after (c_disk c) (w1 ++ w) = disk_after (c_disk c1) w) by (intros w; unfold disk_after; rewrite foldl_app, K1; reflexivity).
  constructor; [exact R2 | | | congruence | rewrite W2, W1, app_assoc; reflexivity | rewrite Ed; exact K2 |].
  - exact (file_written_trans dev start size sb G b g off t t' _ _ _ _ _ _ F1 F2 Hg Hoff Ht Ht' Hlim).
  - rewrite D2, D1, Z.add_assoc. destruct (ft_file (kn_ft k) f). reflexivity.
  - intros j. destruct (decide (j <= length w1)%nat) as [Hj|Hj].
    + destruct (C1 j) as (u & W & x & Hu & HR & HF). exists u, W, x. rewrite take_app_le by exact Hj. split; [lia | auto].
    + destruct (C2 (j - length w1)%nat) as (u & W & x & Hu & HR & HF). exists (t + u), W, x. split; [lia|]. split.
      * rewrite take_app_ge by lia. rewrite Ed. exact HR.
      * apply (file_written_trans dev start size sb G b g off t u _ _ _ _ _ _ F1 HF); try lia. intros i Hi. apply Hg. lia.
Qed.

(** The blocks one transaction may log besides the data: the free map, the
    inode and the indirect block. *)
Context (Hroom : Z.of_nat (length (bitmaps sb)) + 8 < size).

Lemma write_chunks n off : 0 <= n <= WRITE_MAX -> chunks n off <= 4.
Proof. unfold chunks, WRITE_MAX. change ((MAXOPBLOCKS - 1 - 1 - 2) / 2 * BSIZE) with 3072. intros. case_match; fsdiv. Qed.

(** The state after the bytes of one transaction are logged. *)
Lemma wp_fs_at {A} (m : M (fstate S umem) A) Q (g : fstate S umem) (k : K) :
  f_user g = f_user (fs_view k) -> f_cwd g = f_cwd (fs_view k) ->
  wp m (fun a g' => Q a (fs_set g' k)) g -> wp (fs m) Q (fs_set g k).
Proof.
  intros Hu Hc Hm. apply wp_zoom. rewrite fs_view_set by assumption. eapply wp_mono; [exact Hm|]. intros a g' HQ. exact HQ.
Qed.

(** The first half: up to the end of [writei]. *)
Lemma write_begin_wp ip f addr b n V c (k : K) (Q : Z -> K -> Prop) :
  let s := fs_view k in let x := f_inode s ip in let off := fd_off (ft_file (kn_ft k) f) in
  fs_rest V c k -> file_ok dev sb V x -> 0 <= off <= i_size x -> 0 <= n <= WRITE_MAX -> off + n <= MAXBYTES ->
  src_ok (UserSrc addr) n b (f_user s) ->
  (forall tot V' T l' s', 0 <= tot <= n -> (tot < n -> disk_full sb V') ->
     file_written dev sb b off tot V x V' (set_ilocked false (f_inode s' ip)) -> meta_used V' sb ->
     i_ref (f_inode s' ip) = i_ref x -> i_locked (f_inode s' ip) = true -> f_sb s' = sb -> same_but ip s s' ->
     tx dev start size (c_disk c) (c_writes c) 1 V' T ∅ l' -> Z.of_nat (length T) <= Z.of_nat (length (bitmaps sb)) + 6 -> Q tot (fs_set (set_log l' s') k)) ->
  wp (begin_op_;; fs (ilock (Some ip));; y ← the_file f; fs (writei ip (UserSrc addr) (fd_off y) n)) Q k.
Proof.
  intros s x off [Rsb Ri Rq Rm] OK Hoff Hn Hlim Hsrc HQ. pose proof (geo_ok start size sb G) as Hgeo.
  assert (Hag : agree start size V (c_view c)) by (intros blk Hb; symmetry; apply (q_data _ _ _ _ Rq blk Hb)).
  unfold begin_op_. apply wp_bind, wp_zoom.
  apply (begin_op_fs dev Hdev start size Hgeo c); [exact Ri | lia|]. intros l1 X1. fold s.
  apply wp_bind. apply wp_fs_at; [reflexivity | reflexivity |].
  apply ilock_fs; [apply OK | apply OK | apply OK |]. apply wp_bind, wp_gets.
  change (fd_off (ft_file (kn_ft (fs_set ?g k)) f)) with off. apply wp_fs_at; [reflexivity | reflexivity |].
  set (s1 := upd_inode ip (set_ilocked true) s).
  change (upd_inode ip (set_ilocked true) (set_log l1 s)) with (set_log l1 s1).
  assert (Ex1 : f_inode s1 ip = set_ilocked true x) by (apply fn_lookup_insert).
  assert (Hil : inode_ok sb V (set_ilocked true x)) by apply OK.
  destruct (iblock_range start size sb G _ (fo_inum _ _ _ _ OK)) as (_ & Hib31 & Hibout).
  set (T0 := IBLOCK (i_inum x) sb :: bitmaps sb).
  assert (HT0 : Z.of_nat (length T0) = Z.of_nat (length (bitmaps sb)) + 1) by (cbn [T0 length]; lia).
  pose proof (write_chunks n off Hn) as Hch.
  assert (X1' : tx dev start size (c_disk c) (c_writes c) 1 (c_view c) T0 ∅ l1).
  { eapply tx_weaken; [exact X1 | intros z Hz; destruct (not_elem_of_nil _ Hz) | lia]. }
  eapply (writei_wp dev Hdev start size sb G (c_disk c) (c_writes c) 1 ltac:(lia) ip b (UserSrc addr) off n (c_view c) T0 l1 s1);
    rewrite ?Ex1; try apply OK; auto; try lia.
  - destruct (fo_typed _ _ _ _ OK). constructor; assumption.
  - exact (agree_inode_ok start size sb G V _ Hag _ Hil).
  - exact (agree_mapped start size sb G V _ Hag _ Hil (fo_mapped _ _ _ _ OK)).
  - exact (agree_meta start size sb G V _ Hag Rm).
  - intros z Hz. right. exact Hz.
  - left.
  - intros tot V' dl l' s' [Ht (x1 & W & Ex') Hmap Hst Hsame Htx Hlen].
    rewrite Ex1 in W, Ex'. cbn [i_size set_ilocked] in Ex'.
    pose proof (written_agree_l start size sb G b off tot V (c_view c) _ V' x1 Hag Hil W) as W'.
    destruct (wr_fields _ _ _ _ _ _ _ _ W') as [a Ea].
    pose proof (inds_len (f_inode s' ip)) as Hil'.
    apply (HQ tot V' (dl ++ inds (f_inode s' ip) ++ T0) l' s'); auto; try apply Ht; [| | | | | | rewrite !length_app; lia].
    + exact (file_written_unlock dev start size sb G b off tot V x V' x1 _ OK W' Ex' Hmap Hst).
    + apply W'.
    + rewrite Ex', Ea. reflexivity.
    + rewrite Ex', Ea. reflexivity.
    + destruct Hsame as (-> & _). exact Rsb.
    + exact (same_but_trans ip s s1 s' (same_but_upd ip _ s) Hsame).
Qed.

Lemma wp_assoc4 {T A B C} (m1 m2 : M T unit) (m3 : M T A) (m4 : A -> M T B) (k4 : B -> M T C) Q s :
  wp (m1;; m2;; y ← m3; m4 y) (fun a s' => wp (k4 a) Q s') s -> wp (m1;; m2;; y ← m3; m4 y ≫= k4) Q s.
Proof.
  unfold wp, mbind, M_bind. destruct (m1 s) as [[] s1| | |]; auto. destruct (m2 s1) as [[] s2| | |]; auto.
  destruct (m3 s2) as [a s3| | |]; auto. destruct (m4 a s3); auto.
Qed.

(** The disk after a crash holds the file before or after the write. *)
Lemma recovers_file (b : Z -> byte) off tot V x V' x' Dk ws' :
  atomic_writes start size V V' Dk ws' -> 0 <= tot ->
  file_written dev sb b off 0 V x V x -> file_written dev sb b off tot V x V' x' ->
  forall j, exists u W y, 0 <= u <= tot /\ recovers start size W (disk_after Dk (take j ws')) /\ file_written dev sb b off u V x W y.
Proof.
  intros [p Hp] Ht H0 H1 j. specialize (Hp j).
  destruct (j <=? p)%nat; [exists 0, V, x | exists tot, V', x']; (split; [lia|]; split; [exact Hp | assumption]).
Qed.

(** One iteration of [filewrite]. *)
Lemma filewrite_step_wp ip f addr n i b V c (k : K) (Q : Z + Z -> K -> Prop) :
  let x := fs_inode (kn_fs k) ip in let off := fd_off (ft_file (kn_ft k) f) in let n1 := Z.min (n - i) WRITE_MAX in
  fs_rest V c k -> file_ok dev sb V x -> 0 <= off <= i_size x -> i < n -> off + n1 <= MAXBYTES ->
  src_ok (UserSrc (u64 (addr + i))) n1 b (f_user (fs_view k)) ->
  (forall tot V' c' ws k', 0 <= tot <= n1 -> (tot < n1 -> disk_full sb V') ->
     file_progress ip f b off V c k tot V' c' ws k' -> Q (if tot =? n1 then inl (i + tot) else inr i) k') ->
  wp (filewrite_step f ip addr n i) Q k.
Proof.
  intros x off n1 R OK Hoff Hi Hlim Hsrc HQ. destruct (R) as [Rsb Ri Rq Rm]. pose proof (geo_ok start size sb G) as Hgeo.
  assert (Hn1 : 0 <= n1 <= WRITE_MAX) by (assert (0 < WRITE_MAX) by reflexivity; lia).
  unfold filewrite_step. replace (i <? n) with true by lia. cbv zeta. fold n1. apply wp_assoc4.
  eapply write_begin_wp; eauto. fold off. change (f_inode (fs_view k) ip) with x.
  intros tot V' T l' s' Ht Hfull HF HM Href Hlk Hsb Hsame X _. destruct (Hsame) as (_ & Esi & Esu & Esc & _).
  apply wp_bind.
  assert (Hgo : forall k0 : K, fs_view k0 = fs_view k -> ft_file (kn_ft k0) f = set_fd_off (off + tot) (ft_file (kn_ft k) f) ->
    wp (fs (iunlock (Some ip));; end_op_;; if negb (tot =? n1) then mret (inr i) else mret (inl (i + tot))) Q
       (fs_set (set_log l' s') k0)).
  { intros k0 Ev Efd. rewrite <- Ev in Esu, Esc. apply wp_bind, wp_fs_at; [exact Esu | exact Esc |].
    apply iunlock_fs; [cbn [f_inode set_log]; pose proof (fo_ref _ _ _ _ OK); lia | exact Hlk |].
    change (upd_inode ip (set_ilocked false) (set_log l' s')) with (set_log l' (upd_inode ip (set_ilocked false) s')).
    apply wp_bind. apply wp_fs_at; [exact Esu | exact Esc |].
    apply (end_op_fs dev Hdev start size Hgeo V (c_disk c) (c_writes c) V' T l' _ _ X); [apply Rq | intros blk Hb; apply (q_data _ _ _ _ Rq blk Hb) |].
    intros l2 c2 ws2 Hi2 Hq2 Ew Ed Ha. set (g2 := set_log l2 _). set (k2 := fs_set g2 k0).
    assert (Ex2 : fs_inode (kn_fs k2) ip = set_ilocked false (f_inode s' ip)) by apply fn_lookup_insert.
    assert (P : file_progress ip f b off V c k tot V' c2 ws2 k2).
    { constructor; [constructor; assumption | | exact Efd | | exact Ew | exact Ed |].
      - rewrite Ex2. exact HF.
      - unfold k2. rewrite fs_view_set by assumption. rewrite <- Ev. exact Esu.
      - apply (recovers_file b off tot V x V' _ _ _ Ha ltac:(lia) (file_written_none dev sb b off V x OK Rm ltac:(lia)) HF). }
    specialize (HQ tot V' c2 ws2 k2 Ht Hfull P). destruct (tot =? n1); apply wp_ret; exact HQ. }
  destruct (Z.gtb_spec tot 0) as [Hp|Hz].
  - apply wp_modify. apply (Hgo (upd_file f (fun y => set_fd_off (u32 (fd_off y + tot)) y) k)); [reflexivity|].
    cbn. rewrite fn_lookup_insert. fold off. rewrite u32_small; [reflexivity|]. change MAXBYTES with 274432 in Hlim. lia.
  - apply wp_ret. apply (Hgo k); [reflexivity|]. replace (off + tot) with off by lia. unfold off. destruct (ft_file (kn_ft k) f). reflexivity.
Qed.

(** Every iteration makes progress, so the loop ends. *)
Lemma filewrite_wp devwrite ip f addr n b V c (k : K) :
  let x := fs_inode (kn_fs k) ip in let y := ft_file (kn_ft k) f in let off := fd_off y in
  fs_rest V c k -> file_ok dev sb V x -> 0 <= off <= i_size x -> 0 <= n -> off + n <= MAXBYTES ->
  fd_writable y = true -> fd_type y = FD_INODE -> fd_ip y = Some ip ->
  src_ok (UserSrc addr) n b (f_user (fs_view k)) ->
  wp (filewrite devwrite f addr n) (fun r k' => exists tot V' c' ws,
    0 <= tot <= n /\ r = (if tot =? n then n else -1) /\ (tot < n -> disk_full sb V') /\
    file_progress ip f b off V c k tot V' c' ws k') k.
Proof.
  intros x y off R OK Hoff Hn Hlim Hw Hty Hip Hsrc. assert (HWM : 0 < WRITE_MAX) by reflexivity.
  unfold filewrite. apply wp_bind, wp_gets. fold y. rewrite Hw, Hty, Hip. cbn [negb].
  apply wp_bind.
  apply (wp_loop (fun m i k' => exists V' c' ws, 0 <= i <= n /\ file_progress ip f b off V c k i V' c' ws k' /\
    m = Z.to_nat ((n - i + WRITE_MAX - 1) / WRITE_MAX))) with (k := Z.to_nat ((n + WRITE_MAX - 1) / WRITE_MAX)).
  - intros m i k' (V' & c' & ws & Hi & P & ->). pose proof (fp_rest _ _ _ _ _ _ _ _ _ _ _ _ P) as R'.
    pose proof (fp_fd _ _ _ _ _ _ _ _ _ _ _ _ P) as Efd. pose proof (fp_file _ _ _ _ _ _ _ _ _ _ _ _ P) as [(x1 & W & Ex') OK'].
    destruct (decide (i < n)) as [Hlt|Hge].
    + assert (Eoff : fd_off (ft_file (kn_ft k') f) = off + i) by (rewrite Efd; reflexivity).
      set (n1 := Z.min (n - i) WRITE_MAX).
      eapply (filewrite_step_wp ip f addr n i (fun j => b (i + j)) V' c' k'); rewrite ?Eoff; auto.
      * rewrite Ex'. cbn [i_size set_isize]. fold x. lia.
      * fold n1. lia.
      * rewrite (fp_user _ _ _ _ _ _ _ _ _ _ _ _ P). destruct Hsrc as (Hu & Hva & Hl & Hv). cbn [src_ok]. unfold u64. rewrite Z.mod_small by lia.
        split; [exact Hu|]. split; [lia|]. split; [lia|]. intros j Hj. rewrite <- Z.add_assoc. apply Hv. lia.
      * fold n1. intros tot V2 c2 ws2 k2 Ht Hfull P2.
        pose proof (progress_trans ip f b _ off V c k i V' c' ws k' tot V2 c2 ws2 k2 P P2 ltac:(reflexivity) ltac:(lia) ltac:(lia) ltac:(lia) ltac:(lia)) as P'.
        destruct (Z.eqb_spec tot n1) as [E|E].
        -- eexists. split; [|exists V2, c2, (ws ++ ws2); split; [|split; [exact P'|reflexivity]]]; [|lia].
           subst tot. unfold n1 in *. change WRITE_MAX with 3072 in *. zdiv.
        -- apply wp_ret. exists (i + tot), V2, c2, (ws ++ ws2). split; [lia|].
           replace (i =? n) with false by lia. replace (i + tot =? n) with false by lia. split; [reflexivity|]. split; [intros _; apply Hfull; lia | exact P'].
    + replace i with n in * by lia. unfold filewrite_step. rewrite Z.ltb_irrefl. apply wp_ret, wp_ret.
      exists n, V', c', ws. split; [lia|]. rewrite Z.eqb_refl. split; [reflexivity|]. split; [intros; lia | exact P].
  - exists V, c, []. split; [lia|]. split; [|f_equal; f_equal; lia].
    destruct R as [Rsb Ri Rq Rm]. constructor; auto; [constructor; assumption | | | rewrite app_nil_r; reflexivity |].
    + apply file_written_none; auto; fold x; lia.
    + rewrite Z.add_0_r. unfold off, y. destruct (ft_file (kn_ft k) f). reflexivity.
    + intros j. exists 0, V, x. split; [lia|]. rewrite take_nil. split; [|apply file_written_none; auto; fold x; lia].
      apply (recovers_empty start size (geo_ok start size sb G)); [apply Rq|]. intros blk Hb. apply (q_data _ _ _ _ Rq blk Hb).
  - change WRITE_MAX with 3072. zdiv.
Qed.
End FileWrite.

(** ** A kernel with an open file *)

Section Demo.
Definition demo_open_file : file := File FD_INODE 1 true true 0 (Some 0%nat) 0 0.

(** Process 0 with page table [root], a file system at rest, and file 0 open
    on inode 0. *)
Definition demo_writer (l : lstate bstate) (m : kstate) (root : Z) : kernel bstate unit :=
  Kernel (FSys l sb0 false (fun _ => demo_inode)) m (FTable false (fun _ => demo_open_file)) (fun _ => demo_pipe)
    (PTable (fun _ => set_ppagetable root (demo_proc RUNNING 1 0)) 2 false false (Some 0%nat))
    (Spinlock.Cpu 0 false false) (Some 0%nat) (Clock false 0) tt.

Lemma demo_writer_rest l c m root : idle 1 2 30 l c -> quiet 2 30 demo_disk c -> fs_rest 1 2 30 sb0 demo_disk c (demo_writer l m root).
Proof. intros Hi Hq. constructor; [reflexivity | exact Hi | exact Hq | exact demo_meta]. Qed.

(** Two pages of memory, whose bytes from address 100 on are written. *)
Lemma demo_source l : exists m root, src_ok (UserSrc 100) 5000 (fun i => vread (k_mem m) root (100 + i)) (f_user (fs_view (demo_writer l m root))).
Proof.
  destruct boot6_space as (m & fl & root & P & HA & Hfl). exists m, root.
  split; [exists fl, P, 2; exact HA|]. split; [lia|]. split; [lia|]. intros i Hi.
  change (kview (m, root) (100 + i) = Some (vread (k_mem m) root (100 + i))). unfold kview. cbn [fst snd].
  rewrite (user_wok_ok _ _ _ (user_wok_flags m fl root P 2 (100 + i) HA ltac:(unfold PGSIZE; lia) ltac:(rewrite Hfl; [reflexivity | unfold PGSIZE; lia]))).
  replace (0 <=? 100 + i) with true by lia. reflexivity.
Qed.
End Demo.

(** ** Properties *)




