(* ===== verification/Proc.v ===== *)
(** * Processes: the first half of kernel/proc.c

    Allocation of process table entries, [fork], [exit], [wait] and the growth
    of a process, on the whole kernel state.  The physical address of the
    trampoline page is a parameter. *)

From S2P Require Import Prelude Memory Riscv Kalloc Vm FsDefs BufCache Log UserMem KernelMem Fs Spinlock ProcDefs Pipe Kernel Sched File.

Section Proc.
Context {S D : Type} `{BufCache S}.
Local Abbreviation K := (kernel S D).
Context (trampoline : Z).

(** One kernel stack per process, each followed by an unmapped page. *)
Definition mapstack (kpgtbl : Z) (p : nat) : M kstate unit :=
  pa ← kalloc;
  panic_if (pa =? 0) "kalloc";;
  kvmmap kpgtbl (KSTACK (Z.of_nat p)) pa PGSIZE (Z.lor PTE_R PTE_W).
Fixpoint mapstacks_from (k i : nat) (kpgtbl : Z) : M kstate unit :=
  match k with
  | O => mret tt
  | Datatypes.S k' => mapstack kpgtbl i;; mapstacks_from k' (Datatypes.S i) kpgtbl
  end.
Definition proc_mapstacks (kpgtbl : Z) : M kstate unit := mapstacks_from nproc 0 kpgtbl.

(** ** Page tables of processes *)

Definition proc_pagetable (trapframe : Z) : M kstate Z :=
  pagetable ← uvmcreate;
  if pagetable =? 0 then mret 0
  else
    r ← mappages pagetable TRAMPOLINE PGSIZE trampoline (Z.lor PTE_R PTE_X);
    if r <? 0 then uvmfree pagetable 0;; mret 0
    else
      r ← mappages pagetable TRAPFRAME PGSIZE trapframe (Z.lor PTE_R PTE_W);
      if r <? 0 then
        uvmunmap pagetable TRAMPOLINE 1 false;;
        uvmfree pagetable 0;;
        mret 0
      else mret pagetable.

Definition proc_freepagetable (pagetable sz : Z) : M kstate unit :=
  uvmunmap pagetable TRAMPOLINE 1 false;;
  uvmunmap pagetable TRAPFRAME 1 false;;
  uvmfree pagetable sz.

(** ** The process table *)

Definition allocpid : M K Z :=
  lock_pid;;
  pid ← gets (fun s => pt_nextpid (kn_pt s));
  modify (set_nextpid (i32 (pid + 1)));;
  unlock_pid;;
  mret pid.

Definition freeproc (p : nat) : M K unit :=
  x ← the_proc p;
  when (negb (p_trapframe x =? 0)) (vm (kfree (p_trapframe x)));;
  modify (upd_proc p (set_ptrapframe 0));;
  when (negb (p_pagetable x =? 0)) (vm (proc_freepagetable (p_pagetable x) (p_sz x)));;
  modify (upd_proc p (fun x =>
    set_pstate UNUSED (set_pxstate 0 (set_pkilled 0 (set_pchan None (set_pname (mset (p_name x) 0 x00)
      (set_pparent None (set_ppid 0 (set_psz 0 (set_ppagetable 0 x)))))))))).

(** The scan for an UNUSED entry, left with its lock held. *)
Fixpoint unused_scan (k i : nat) : M K (option nat) :=
  match k with
  | O => mret None
  | Datatypes.S k' =>
      lock_proc i;;
      x ← the_proc i;
      if is_state UNUSED x then mret (Some i)
      else
        unlock_proc i;;
        unused_scan k' (Datatypes.S i)
  end.

(** The entry allocated, with its lock held. *)
Definition allocproc : M K (option nat) :=
  o ← unused_scan nproc 0;
  match o with
  | None => mret None
  | Some p =>
      pid ← allocpid;
      modify (upd_proc p (fun x => set_pstate USED (set_ppid pid x)));;
      tf ← vm kalloc;
      modify (upd_proc p (set_ptrapframe tf));;
      if tf =? 0 then
        freeproc p;;
        unlock_proc p;;
        mret None
      else
        pt ← vm (proc_pagetable tf);
        modify (upd_proc p (set_ppagetable pt));;
        if pt =? 0 then
          freeproc p;;
          unlock_proc p;;
          mret None
        else
          modify (upd_proc p (fun x => set_pcontext (Forkret, p_kstack x + PGSIZE) x));;
          mret (Some p)
  end.

(** user/initcode.S, assembled *)
Definition initcode : list byte := map z2b
  [0x17; 0x05; 0x00; 0x00; 0x13; 0x05; 0x45; 0x02;
   0x97; 0x05; 0x00; 0x00; 0x93; 0x85; 0x35; 0x02;
   0x93; 0x08; 0x70; 0x00; 0x73; 0x00; 0x00; 0x00;
   0x93; 0x08; 0x20; 0x00; 0x73; 0x00; 0x00; 0x00;
   0xef; 0xf0; 0x9f; 0xff; 0x2f; 0x69; 0x6e; 0x69;
   0x74; 0x00; 0x00; 0x24; 0x00; 0x00; 0x00; 0x00;
   0x00; 0x00; 0x00; 0x00].

(** The bytes of a C string literal. *)
Definition literal (t : string) : mem := put_bytes zeroes 0 (String.list_byte_of_string t).

Definition userinit : M K unit :=
  o ← allocproc;
  modify (set_initproc o);;
  match o with
  | None => panic "kerneltrap"
  | Some p =>
      x ← the_proc p;
      vm (uvmfirst (p_pagetable x) initcode);;
      modify (upd_proc p (set_psz PGSIZE));;
      vm (wr (p_trapframe x + TF_EPC) 0);;
      vm (wr (p_trapframe x + TF_SP) PGSIZE);;
      modify (upd_proc p (fun x => set_pname (CString.safestrcpy (p_name x) 0 (literal "initcode") 0 16) x));;
      ip ← fs (namei (String.list_byte_of_string "/"));
      modify (upd_proc p (set_pcwd ip));;
      modify (upd_proc p (set_pstate RUNNABLE));;
      unlock_proc p
  end.

Definition growproc (n : Z) : M K Z :=
  p ← myproc;
  x ← the_proc p;
  let sz := p_sz x in
  if n >? 0 then
    sz ← vm (uvmalloc (p_pagetable x) sz (u64 (sz + n)) PTE_W);
    if sz =? 0 then mret (-1)
    else modify (upd_proc p (set_psz sz));; mret 0
  else
    sz ← (if n <? 0 then vm (uvmdealloc (p_pagetable x) sz (u64 (sz + n))) else mret sz);
    modify (upd_proc p (set_psz sz));;
    mret 0.

(** ** fork *)

(** [for(i = 0; i < NOFILE; i++) if(p->ofile[i]) np->ofile[i] = filedup(p->ofile[i]);] *)
Fixpoint dup_files (k : nat) (i : Z) (p np : nat) : M K unit :=
  match k with
  | O => mret tt
  | Datatypes.S k' =>
      x ← the_proc p;
      match p_ofile x i with
      | Some f =>
          f ← filedup f;
          modify (upd_proc np (fun y => set_pofile (<[i := Some f]> (p_ofile y)) y))
      | None => mret tt
      end;;
      dup_files k' (i + 1) p np
  end.

Definition fork : M K Z :=
  p ← myproc;
  o ← allocproc;
  match o with
  | None => mret (-1)
  | Some np =>
      x ← the_proc p;
      y ← the_proc np;
      r ← vm (uvmcopy (p_pagetable x) (p_pagetable y) (p_sz x));
      if r <? 0 then
        freeproc np;;
        unlock_proc np;;
        mret (-1)
      else
        modify (upd_proc np (set_psz (p_sz x)));;
        vm (memmove_ (p_trapframe y) (p_trapframe x) TF_SIZE);;
        vm (wr (p_trapframe y + TF_A 0) 0);;
        dup_files (Z.to_nat NOFILE) 0 p np;;
        cwd ← (match p_cwd x with
               | Some d => d ← fs (idup d); mret (Some d)
               | None => panic "kerneltrap"
               end);
        modify (upd_proc np (set_pcwd cwd));;
        modify (upd_proc np (fun y => set_pname (CString.safestrcpy (p_name y) 0 (p_name x) 0 16) y));;
        y ← the_proc np;
        let pid := p_pid y in
        unlock_proc np;;
        lock_wait;;
        modify (upd_proc np (set_pparent (Some p)));;
        unlock_wait;;
        lock_proc np;;
        modify (upd_proc np (set_pstate RUNNABLE));;
        unlock_proc np;;
        mret pid
  end.

(** ** exit and wait *)

Definition reparent_one (p pp : nat) : M K unit :=
  x ← the_proc pp;
  when (bool_decide (p_parent x = Some p))
    (ip ← gets (fun s => pt_initproc (kn_pt s));
     modify (upd_proc pp (set_pparent ip));;
     wakeup (ChProc <$> ip)).
Definition reparent (p : nat) : M K unit := for_procs nproc 0 (reparent_one p).

(** The loop of [exit] over the open files. *)
Fixpoint close_files (k : nat) (fd : Z) (p : nat) : M K unit :=
  match k with
  | O => mret tt
  | Datatypes.S k' =>
      x ← the_proc p;
      match p_ofile x fd with
      | Some f =>
          fileclose f;;
          modify (upd_proc p (fun x => set_pofile (<[fd := None]> (p_ofile x)) x))
      | None => mret tt
      end;;
      close_files k' (fd + 1) p
  end.

(** [exit] from the point where the files and the directory are closed. *)
Definition exit_zombie {A} (p : nat) (status : Z) : M K A :=
  lock_wait;;
  reparent p;;
  x ← the_proc p;
  wakeup (ChProc <$> p_parent x);;
  lock_proc p;;
  modify (upd_proc p (fun x => set_pstate ZOMBIE (set_pxstate status x)));;
  unlock_wait;;
  sched.

Definition exit {A} (status : Z) : M K A :=
  p ← myproc;
  ip ← gets (fun s => pt_initproc (kn_pt s));
  panic_if (bool_decide (Some p = ip)) "init exiting";;
  close_files (Z.to_nat NOFILE) 0 p;;
  begin_op_;;
  x ← the_proc p;
  iput_ (p_cwd x);;
  end_op_;;
  modify (upd_proc p (set_pcwd None));;
  exit_zombie p status.

(** The scan of [wait] for a zombie child: the result of the call, or whether
    there are children. *)
Fixpoint wait_scan (k i : nat) (p : nat) (addr : Z) (havekids : bool) : M K (Z + bool) :=
  match k with
  | O => mret (inr havekids)
  | Datatypes.S k' =>
      x ← the_proc i;
      if bool_decide (p_parent x = Some p) then
        lock_proc i;;
        x ← the_proc i;
        if is_state ZOMBIE x then
          let pid := p_pid x in
          me ← the_proc p;
          r ← (if negb (addr =? 0)
               then vm (copyout (p_pagetable me) addr (bytes_at (store32 zeroes 0 (u32 (p_xstate x))) 0 4))
               else mret 0);
          if r <? 0 then
            unlock_proc i;;
            unlock_wait;;
            mret (inl (-1))
          else
            freeproc i;;
            unlock_proc i;;
            unlock_wait;;
            mret (inl pid)
        else
          unlock_proc i;;
          wait_scan k' (Datatypes.S i) p addr true
      else wait_scan k' (Datatypes.S i) p addr havekids
  end.

Definition wait (addr : Z) : M K Z :=
  p ← myproc;
  lock_wait;;
  r ← wait_scan nproc 0 p addr false;
  match r with
  | inl pid => mret pid
  | inr havekids =>
      k ← (if havekids : bool then killed p else mret 1);
      if negb (k =? 0) then
        unlock_wait;;
        mret (-1)
      else sleep (ChProc p) unlock_wait
  end.

(** [forkret] up to [usertrapret]; [first] is its static variable. *)
Definition forkret (first : bool) : M K bool :=
  p ← myproc;
  unlock_proc p;;
  when first (fs (fsinit ROOTDEV));;
  mret false.
End Proc.
