(* ===== verification/Exec.v ===== *)
(** * System call arguments and exec: kernel/syscall.c and kernel/exec.c

    The arguments of a system call are in the trap frame of the process, a
    page of physical memory; strings and words they point to are copied in
    through its page table. *)

From S2P Require Import Prelude Memory Riscv Kalloc Vm FsDefs BufCache Log UserMem KernelMem Fs Spinlock ProcDefs Pipe Kernel Sched File Proc.

Section Args.
Context {S D : Type} `{BufCache S}.
Local Abbreviation K := (kernel S D).

(** The result of a loop that may run out of fuel. *)
Definition fuelled {A} (o : option A) : M K A := fun s =>
  match o with Some a => Ret a s | None => OutOfFuel end.

(** The result and the word fetched. *)
Definition fetchaddr (addr : Z) : M K (Z * Z) :=
  p ← myproc;
  x ← the_proc p;
  if (addr >=? p_sz x) || (u64 (addr + 8) >? p_sz x) then mret (-1, 0)
  else
    '(r, bs) ← vm (copyin (p_pagetable x) addr 8);
    if negb (r =? 0) then mret (-1, 0)
    else mret (0, load64 (put_bytes zeroes 0 bs) 0).

(** [fetchstr(addr, buf, max)]: the result and the bytes stored in [buf]. *)
Definition fetchstr (addr max : Z) : M K (Z * list byte) :=
  p ← myproc;
  x ← the_proc p;
  '(r, bs) ← vm (copyinstr (p_pagetable x) addr max);
  if r <? 0 then mret (-1, bs)
  else
    n ← fuelled (CString.strlen (Datatypes.S (length bs)) (put_bytes zeroes 0 bs) 0);
    mret (n, bs).

Definition argraw (n : Z) : M K Z :=
  p ← myproc;
  x ← the_proc p;
  if (0 <=? n) && (n <=? 5) then vm (rd (p_trapframe x + TF_A n))
  else panic "argraw".

Definition argint (n : Z) : M K Z := v ← argraw n; mret (i32 v).
Definition argaddr (n : Z) : M K Z := argraw n.

(** The result and, when it is not negative, the string without its NUL. *)
Definition argstr (n max : Z) : M K (Z * list byte) :=
  addr ← argaddr n;
  '(r, bs) ← fetchstr addr max;
  mret (r, take (Z.to_nat r) bs).
End Args.

(** ** kernel/elf.h *)

Definition ELF_MAGIC : Z := 0x464C457F.
Definition ELF_PROG_LOAD : Z := 1.
Definition ELFHDR_SIZE : Z := 64.
Definition PROGHDR_SIZE : Z := 56.

Record elfhdr := ElfHdr { elf_magic : Z; elf_entry : Z; elf_phoff : Z; elf_phnum : Z }.
Definition get_elfhdr (m : mem) : elfhdr :=
  ElfHdr (load32 m 0) (load64 m 24) (load64 m 32) (load16 m 56).

Record proghdr := ProgHdr {
  ph_type : Z; ph_flags : Z; ph_off : Z; ph_vaddr : Z; ph_filesz : Z; ph_memsz : Z
}.
Definition get_proghdr (m : mem) : proghdr :=
  ProgHdr (load32 m 0) (load32 m 4) (load64 m 8) (load64 m 16) (load64 m 32) (load64 m 40).

(** param.h, for the lab the repository is configured for (LAB=util) *)
Definition USERSTACK : Z := 2.

Definition flags2perm (flags : Z) : Z :=
  let perm := if negb (Z.land flags 1 =? 0) then PTE_X else 0 in
  if negb (Z.land flags 2 =? 0) then Z.lor perm PTE_W else perm.

(** The part of a path after its last slash. *)
Fixpoint last_elem (last path : list byte) : list byte :=
  match path with
  | [] => last
  | c :: path' => last_elem (if decide (c = SLASH) then path' else last) path'
  end.

Section Exec.
Context {S D : Type} `{BufCache S}.
Local Abbreviation K := (kernel S D).
Context (trampoline : Z).

(** One iteration of [loadseg]. *)
Definition loadseg_step (pagetable va : Z) (ip : nat) (offset sz i : Z) : M K (Z + Z) :=
  if i <? sz then
    pa ← vm (walkaddr pagetable (u64 (va + i)));
    panic_if (pa =? 0) "loadseg: address should exist";;
    let n := if sz - i <? PGSIZE then sz - i else PGSIZE in
    '(r, bs) ← fs (readi ip KernelDst (u32 (offset + i)) n);
    vm (modify (set_mem (fun m => put_bytes m pa bs)));;
    if negb (u32 r =? n) then mret (inr (-1))
    else mret (inl (u32 (i + PGSIZE)))
  else mret (inr 0).

Definition loadseg (pagetable va : Z) (ip : nat) (offset sz : Z) : M K Z :=
  loop (Datatypes.S (Datatypes.S (Z.to_nat (sz / PGSIZE)))) (loadseg_step pagetable va ip offset sz) 0.

(** One program header: whether to go on, and the size of the image. *)
Definition exec_segment (pagetable : Z) (ip : nat) (off sz : Z) : M K (bool * Z) :=
  '(r, bs) ← fs (readi ip KernelDst (u32 off) PROGHDR_SIZE);
  if negb (r =? PROGHDR_SIZE) then mret (false, sz)
  else
    let ph := get_proghdr (put_bytes zeroes 0 bs) in
    if negb (ph_type ph =? ELF_PROG_LOAD) then mret (true, sz)
    else if ph_memsz ph <? ph_filesz ph then mret (false, sz)
    else if u64 (ph_vaddr ph + ph_memsz ph) <? ph_vaddr ph then mret (false, sz)
    else if negb (ph_vaddr ph mod PGSIZE =? 0) then mret (false, sz)
    else
      sz1 ← vm (uvmalloc pagetable sz (u64 (ph_vaddr ph + ph_memsz ph)) (flags2perm (ph_flags ph)));
      if sz1 =? 0 then mret (false, sz)
      else
        r ← loadseg pagetable (ph_vaddr ph) ip (u32 (ph_off ph)) (u32 (ph_filesz ph));
        mret (negb (r <? 0), sz1).

(** The loop over the program headers. *)
Fixpoint exec_segments (k : nat) (pagetable : Z) (ip : nat) (off sz : Z) : M K (bool * Z) :=
  match k with
  | O => mret (true, sz)
  | Datatypes.S k' =>
      '(ok, sz) ← exec_segment pagetable ip off sz;
      if (ok : bool) then exec_segments k' pagetable ip (i32 (off + PROGHDR_SIZE)) sz
      else mret (false, sz)
  end.

(** [strlen] of a kernel string, in a page of its own *)
Definition kstrlen (s : Z) : M K Z :=
  m ← gets (fun k => k_mem (kn_mem k));
  fuelled (CString.strlen (Z.to_nat PGSIZE) m s).

(** The argument strings, from the top of the stack down: the new stack
    pointer and [ustack], or [None] where the code goes to [bad]. *)
Fixpoint push_args (pagetable stackbase sp : Z) (argv : list Z) (ustack : list Z) : M K (option (Z * list Z)) :=
  match argv with
  | [] => mret (Some (sp, ustack))
  | a :: argv' =>
      if Z.of_nat (length ustack) >=? MAXARG then mret None
      else
        n ← kstrlen a;
        let sp := u64 (sp - (n + 1)) in
        let sp := sp - sp mod 16 in
        if sp <? stackbase then mret None
        else
          m ← gets (fun s => k_mem (kn_mem s));
          r ← vm (copyout pagetable sp (bytes_at m a (Z.to_nat (n + 1))));
          if r <? 0 then mret None
          else push_args pagetable stackbase sp argv' (ustack ++ [sp])
  end.

(** An array of 64-bit words in memory. *)
Definition words (l : list Z) : list byte :=
  concat (map (fun v => bytes_at (store64 zeroes 0 v) 0 8) l).

(** The stack of the new image: [argc] and the final stack pointer. *)
Definition exec_stack (pagetable sz : Z) (argv : list Z) : M K (option (Z * Z)) :=
  let stackbase := u64 (sz - USERSTACK * PGSIZE) in
  o ← push_args pagetable stackbase sz argv [];
  match o with
  | None => mret None
  | Some (sp, ustack) =>
      let argc := Z.of_nat (length ustack) in
      let sp := u64 (sp - (argc + 1) * 8) in
      let sp := sp - sp mod 16 in
      if sp <? stackbase then mret None
      else
        r ← vm (copyout pagetable sp (words (ustack ++ [0])));
        if r <? 0 then mret None else mret (Some (argc, sp))
  end.

(** [bad:] *)
Definition exec_bad (pagetable sz : Z) (ip : option nat) : M K Z :=
  when (negb (pagetable =? 0)) (vm (proc_freepagetable pagetable sz));;
  match ip with
  | Some ip => fs (iunlockput ip);; end_op_
  | None => mret tt
  end;;
  mret (-1).

(** From the loaded segments to the new image; [entry] is [elf.entry]. *)
Definition exec_image (path : list byte) (argv : list Z) (pagetable sz entry : Z) : M K Z :=
  p ← myproc;
  x ← the_proc p;
  let oldsz := p_sz x in
  let sz := PGROUNDUP sz in
  sz1 ← vm (uvmalloc pagetable sz (u64 (sz + (USERSTACK + 1) * PGSIZE)) PTE_W);
  if sz1 =? 0 then exec_bad pagetable sz None
  else
    let sz := sz1 in
    vm (uvmclear pagetable (u64 (sz - (USERSTACK + 1) * PGSIZE)));;
    o ← exec_stack pagetable sz argv;
    match o with
    | None => exec_bad pagetable sz None
    | Some (argc, sp) =>
        vm (wr (p_trapframe x + TF_A 1) sp);;
        modify (upd_proc p (fun x =>
          set_pname (CString.safestrcpy (p_name x) 0 (put_bytes zeroes 0 (last_elem path path)) 0 16) x));;
        modify (upd_proc p (fun x => set_psz sz (set_ppagetable pagetable x)));;
        vm (wr (p_trapframe x + TF_EPC) entry);;
        vm (wr (p_trapframe x + TF_SP) sp);;
        vm (proc_freepagetable (p_pagetable x) oldsz);;
        mret (i32 argc)
    end.

Definition exec (path : list byte) (argv : list Z) : M K Z :=
  p ← myproc;
  begin_op_;;
  o ← fs (namei path);
  match o with
  | None => end_op_;; mret (-1)
  | Some ip =>
      fs (ilock (Some ip));;
      '(r, bs) ← fs (readi ip KernelDst 0 ELFHDR_SIZE);
      if negb (r =? ELFHDR_SIZE) then exec_bad 0 0 (Some ip)
      else
        let elf := get_elfhdr (put_bytes zeroes 0 bs) in
        if negb (elf_magic elf =? ELF_MAGIC) then exec_bad 0 0 (Some ip)
        else
          x ← the_proc p;
          pagetable ← vm (proc_pagetable trampoline (p_trapframe x));
          if pagetable =? 0 then exec_bad 0 0 (Some ip)
          else
            '(ok, sz) ← exec_segments (Z.to_nat (elf_phnum elf)) pagetable ip (i32 (elf_phoff elf)) 0;
            if negb (ok : bool) then exec_bad pagetable sz (Some ip)
            else
              fs (iunlockput ip);;
              end_op_;;
              exec_image path argv pagetable sz (elf_entry elf)
  end.
End Exec.
