(* ===== verification/Sysfile.v ===== *)
(** * File system calls: kernel/sysfile.c

    The handlers as they run on the kernel state: arguments from the trap
    frame, results as the C functions return them.  A local array that the
    code does not initialise is [zeroes]; only what was stored is read. *)

From S2P Require Import Prelude Memory Riscv Kalloc Vm FsDefs BufCache Log UserMem KernelMem Fs Spinlock ProcDefs Pipe Kernel Sched File Proc Exec.

(** ** Creation and removal of directory entries, inside a transaction *)

Section Namespace.
Context {S U : Type} `{BufCache S} `{UserMem U}.
Local Abbreviation F := (fstate S U).

Definition isdirempty (dp : nat) : M F bool :=
  x ← the_inode dp;
  loop (Datatypes.S (Datatypes.S (Z.to_nat (i_size x / DIRENT_SIZE)))) (fun off =>
    x ← the_inode dp;
    if off <? i_size x then
      '(r, bs) ← readi dp KernelDst off DIRENT_SIZE;
      panic_if (negb (r =? DIRENT_SIZE)) "isdirempty: readi";;
      if negb (de_inum (put_bytes zeroes 0 bs) =? 0) then mret (inr false)
      else mret (inl (i32 (off + DIRENT_SIZE)))
    else mret (inr true)) (2 * DIRENT_SIZE).

(** [fail:] of [create] *)
Definition create_fail (dp ip : nat) : M F (option nat) :=
  modify (upd_inode ip (set_inlink 0));;
  iupdate ip;;
  iunlockput ip;;
  iunlockput dp;;
  mret None.

(** The inode, locked. *)
Definition create (path : list byte) (type major minor : Z) : M F (option nat) :=
  '(o, name) ← nameiparent path zeroes;
  match o with
  | None => mret None
  | Some dp =>
      ilock (Some dp);;
      found ← dirlookup dp name;
      match found with
      | Some (ip, _) =>
          iunlockput dp;;
          ilock (Some ip);;
          x ← the_inode ip;
          if (type =? T_FILE) && ((i_type x =? T_FILE) || (i_type x =? T_DEVICE)) then mret (Some ip)
          else iunlockput ip;; mret None
      | None =>
          d ← the_inode dp;
          new ← ialloc (i_dev d) type;
          match new with
          | None => iunlockput dp;; mret None
          | Some ip =>
              ilock (Some ip);;
              modify (upd_inode ip (fun x => set_inlink 1 (set_idevno major minor x)));;
              iupdate ip;;
              x ← the_inode ip;
              ok ← (if type =? T_DIR then
                      r ← dirlink ip (literal ".") (i_inum x);
                      if r <? 0 then mret false
                      else
                        r ← dirlink ip (literal "..") (i_inum d);
                        mret (negb (r <? 0))
                    else mret true);
              if negb (ok : bool) then create_fail dp ip
              else
                r ← dirlink dp name (i_inum x);
                if r <? 0 then create_fail dp ip
                else
                  when (type =? T_DIR)
                    (modify (upd_inode dp (fun d => set_inlink (i16 (i_nlink d + 1)) d));;
                     iupdate dp);;
                  iunlockput dp;;
                  mret (Some ip)
          end
      end
  end.

(** [sys_link] between [begin_op] and [end_op]. *)
Definition link_bad (ip : nat) : M F Z :=
  ilock (Some ip);;
  modify (upd_inode ip (fun x => set_inlink (i16 (i_nlink x - 1)) x));;
  iupdate ip;;
  iunlockput ip;;
  mret (-1).

Definition link (old new : list byte) : M F Z :=
  o ← namei old;
  match o with
  | None => mret (-1)
  | Some ip =>
      ilock (Some ip);;
      x ← the_inode ip;
      if i_type x =? T_DIR then iunlockput ip;; mret (-1)
      else
        modify (upd_inode ip (fun x => set_inlink (i16 (i_nlink x + 1)) x));;
        iupdate ip;;
        iunlock (Some ip);;
        '(o, name) ← nameiparent new zeroes;
        match o with
        | None => link_bad ip
        | Some dp =>
            ilock (Some dp);;
            d ← the_inode dp;
            x ← the_inode ip;
            r ← (if negb (i_dev d =? i_dev x) then mret (-1) else dirlink dp name (i_inum x));
            if r <? 0 then iunlockput dp;; link_bad ip
            else
              iunlockput dp;;
              iput ip;;
              mret 0
        end
  end.

(** [sys_unlink] between [begin_op] and [end_op]. *)
Definition unlink_bad (dp : nat) : M F Z := iunlockput dp;; mret (-1).

Definition unlink (path : list byte) : M F Z :=
  '(o, name) ← nameiparent path zeroes;
  match o with
  | None => mret (-1)
  | Some dp =>
      ilock (Some dp);;
      if (namecmp name (literal ".") 0 =? 0) || (namecmp name (literal "..") 0 =? 0) then unlink_bad dp
      else
        found ← dirlookup dp name;
        match found with
        | None => unlink_bad dp
        | Some (ip, off) =>
            ilock (Some ip);;
            x ← the_inode ip;
            panic_if (i_nlink x <? 1) "unlink: nlink < 1";;
            full ← (if i_type x =? T_DIR then e ← isdirempty ip; mret (negb e) else mret false);
            if (full : bool) then iunlockput ip;; unlink_bad dp
            else
              r ← writei dp (KernelSrc (replicate (Z.to_nat DIRENT_SIZE) x00)) off DIRENT_SIZE;
              panic_if (negb (r =? DIRENT_SIZE)) "unlink: writei";;
              when (i_type x =? T_DIR)
                (modify (upd_inode dp (fun d => set_inlink (i16 (i_nlink d - 1)) d));;
                 iupdate dp);;
              iunlockput dp;;
              modify (upd_inode ip (fun x => set_inlink (i16 (i_nlink x - 1)) x));;
              iupdate ip;;
              iunlockput ip;;
              mret 0
        end
  end.
End Namespace.

(** ** The handlers *)

Section Sysfile.
Context {S D : Type} `{BufCache S}.
Local Abbreviation K := (kernel S D).
Context (trampoline : Z) (devread devwrite : Z -> option (Z -> Z -> M K Z)).

(** The descriptor and its file; [None] for the result -1. *)
Definition argfd (n : Z) : M K (option (Z * nat)) :=
  fd ← argint n;
  if (fd <? 0) || (fd >=? NOFILE) then mret None
  else
    p ← myproc;
    x ← the_proc p;
    mret (match p_ofile x fd with Some f => Some (fd, f) | None => None end).

(** The first free descriptor from [fd]. *)
Fixpoint free_fd (k : nat) (fd : Z) (ofile : Z -> option nat) : option Z :=
  match k with
  | O => None
  | Datatypes.S k' =>
      match ofile fd with
      | None => Some fd
      | Some _ => free_fd k' (fd + 1) ofile
      end
  end.

Definition set_ofile (p : nat) (fd : Z) (f : option nat) : M K unit :=
  modify (upd_proc p (fun x => set_pofile (<[fd := f]> (p_ofile x)) x)).

Definition fdalloc (f : nat) : M K Z :=
  p ← myproc;
  x ← the_proc p;
  match free_fd (Z.to_nat NOFILE) 0 (p_ofile x) with
  | Some fd => set_ofile p fd (Some f);; mret fd
  | None => mret (-1)
  end.

Definition sys_dup : M K Z :=
  o ← argfd 0;
  match o with
  | None => mret (-1)
  | Some (_, f) =>
      fd ← fdalloc f;
      if fd <? 0 then mret (-1)
      else filedup f;; mret fd
  end.

Definition sys_read : M K Z :=
  p ← argaddr 1;
  n ← argint 2;
  o ← argfd 0;
  match o with
  | None => mret (-1)
  | Some (_, f) => fileread devread f p n
  end.

Definition sys_write : M K Z :=
  p ← argaddr 1;
  n ← argint 2;
  o ← argfd 0;
  match o with
  | None => mret (-1)
  | Some (_, f) => filewrite devwrite f p n
  end.

Definition sys_close : M K Z :=
  o ← argfd 0;
  match o with
  | None => mret (-1)
  | Some (fd, f) =>
      p ← myproc;
      set_ofile p fd None;;
      fileclose f;;
      mret 0
  end.

(** [pad] as in [filestat] *)
Definition sys_fstat (pad : list byte) : M K Z :=
  st ← argaddr 1;
  o ← argfd 0;
  match o with
  | None => mret (-1)
  | Some (_, f) => filestat pad f st
  end.

Definition sys_link : M K Z :=
  '(r, old) ← argstr 0 MAXPATH;
  if r <? 0 then mret (-1)
  else
    '(r, new) ← argstr 1 MAXPATH;
    if r <? 0 then mret (-1)
    else
      begin_op_;;
      r ← fs (link old new);
      end_op_;;
      mret r.

Definition sys_unlink : M K Z :=
  '(r, path) ← argstr 0 MAXPATH;
  if r <? 0 then mret (-1)
  else
    begin_op_;;
    r ← fs (unlink path);
    end_op_;;
    mret r.

(** The inode to open, locked. *)
Definition open_inode (path : list byte) (omode : Z) : M K (option nat) :=
  if negb (Z.land omode O_CREATE =? 0) then fs (create path T_FILE 0 0)
  else
    o ← fs (namei path);
    match o with
    | None => mret None
    | Some ip =>
        fs (ilock (Some ip));;
        x ← fs (the_inode ip);
        if (i_type x =? T_DIR) && negb (omode =? O_RDONLY) then fs (iunlockput ip);; mret None
        else mret (Some ip)
    end.

(** A file structure and a descriptor for it. *)
Definition open_fd : M K (option (nat * Z)) :=
  o ← filealloc;
  match o with
  | None => mret None
  | Some f =>
      fd ← fdalloc f;
      if fd <? 0 then fileclose f;; mret None
      else mret (Some (f, fd))
  end.

Definition sys_open : M K Z :=
  omode ← argint 1;
  '(n, path) ← argstr 0 MAXPATH;
  if n <? 0 then mret (-1)
  else
    begin_op_;;
    o ← open_inode path omode;
    match o with
    | None => end_op_;; mret (-1)
    | Some ip =>
        x ← fs (the_inode ip);
        if (i_type x =? T_DEVICE) && ((i_major x <? 0) || (i_major x >=? NDEV)) then
          fs (iunlockput ip);;
          end_op_;;
          mret (-1)
        else
          o ← open_fd;
          match o with
          | None =>
              fs (iunlockput ip);;
              end_op_;;
              mret (-1)
          | Some (f, fd) =>
              x ← fs (the_inode ip);
              modify (upd_file f (fun y =>
                if i_type x =? T_DEVICE then set_fd_major (i_major x) (set_fd_type FD_DEVICE y)
                else set_fd_off 0 (set_fd_type FD_INODE y)));;
              modify (upd_file f (fun y =>
                set_fd_mode (Z.land omode O_WRONLY =? 0)
                  (negb (Z.land omode O_WRONLY =? 0) || negb (Z.land omode O_RDWR =? 0)) (set_fd_ip (Some ip) y)));;
              when (negb (Z.land omode O_TRUNC =? 0) && (i_type x =? T_FILE)) (fs (itrunc ip));;
              fs (iunlock (Some ip));;
              end_op_;;
              mret fd
          end
    end.

Definition sys_mkdir : M K Z :=
  begin_op_;;
  '(r, path) ← argstr 0 MAXPATH;
  o ← (if r <? 0 then mret None else fs (create path T_DIR 0 0));
  match o with
  | None => end_op_;; mret (-1)
  | Some ip =>
      fs (iunlockput ip);;
      end_op_;;
      mret 0
  end.

Definition sys_mknod : M K Z :=
  begin_op_;;
  major ← argint 1;
  minor ← argint 2;
  '(r, path) ← argstr 0 MAXPATH;
  o ← (if r <? 0 then mret None else fs (create path T_DEVICE (i16 major) (i16 minor)));
  match o with
  | None => end_op_;; mret (-1)
  | Some ip =>
      fs (iunlockput ip);;
      end_op_;;
      mret 0
  end.

Definition sys_chdir : M K Z :=
  p ← myproc;
  begin_op_;;
  '(r, path) ← argstr 0 MAXPATH;
  o ← (if r <? 0 then mret None else fs (namei path));
  match o with
  | None => end_op_;; mret (-1)
  | Some ip =>
      fs (ilock (Some ip));;
      x ← fs (the_inode ip);
      if negb (i_type x =? T_DIR) then
        fs (iunlockput ip);;
        end_op_;;
        mret (-1)
      else
        fs (iunlock (Some ip));;
        y ← the_proc p;
        iput_ (p_cwd y);;
        end_op_;;
        modify (upd_proc p (set_pcwd (Some ip)));;
        mret 0
  end.

(** Freeing the pages of [argv]. *)
Fixpoint free_args (argv : list Z) : M K unit :=
  match argv with
  | [] => mret tt
  | a :: argv' => vm (kfree a);; free_args argv'
  end.

(** One iteration of the loop of [sys_exec]: on, or out of it with the
    arguments and whether they are good. *)
Definition exec_arg (uargv : Z) (argv : list Z) : M K (list Z + bool * list Z) :=
  let i := Z.of_nat (length argv) in
  if i >=? MAXARG then mret (inr (false, argv))
  else
    '(r, uarg) ← fetchaddr (u64 (uargv + 8 * i));
    if r <? 0 then mret (inr (false, argv))
    else if uarg =? 0 then mret (inr (true, argv))
    else
      a ← vm kalloc;
      if a =? 0 then mret (inr (false, argv))
      else
        '(r, bs) ← fetchstr uarg PGSIZE;
        vm (modify (set_mem (fun m => put_bytes m a bs)));;
        if r <? 0 then mret (inr (false, argv ++ [a]))
        else mret (inl (argv ++ [a])).

Definition sys_exec : M K Z :=
  uargv ← argaddr 1;
  '(r, path) ← argstr 0 MAXPATH;
  if r <? 0 then mret (-1)
  else
    '(ok, argv) ← loop (Datatypes.S (Z.to_nat MAXARG)) (exec_arg uargv) [];
    if (ok : bool) then
      ret ← exec trampoline path argv;
      free_args argv;;
      mret ret
    else
      free_args argv;;
      mret (-1).

Definition sys_pipe : M K Z :=
  p ← myproc;
  fdarray ← argaddr 0;
  o ← pipealloc;
  match o with
  | None => mret (-1)
  | Some (rf, wf) =>
      fd0 ← fdalloc rf;
      fd1 ← (if fd0 <? 0 then mret (-1) else fdalloc wf);
      if fd1 <? 0 then
        when (fd0 >=? 0) (set_ofile p fd0 None);;
        fileclose rf;;
        fileclose wf;;
        mret (-1)
      else
        x ← the_proc p;
        r ← vm (copyout (p_pagetable x) fdarray (bytes_at (store32 zeroes 0 fd0) 0 4));
        r ← (if r <? 0 then mret r
             else vm (copyout (p_pagetable x) (u64 (fdarray + 4)) (bytes_at (store32 zeroes 0 fd1) 0 4)));
        if r <? 0 then
          set_ofile p fd0 None;;
          set_ofile p fd1 None;;
          fileclose rf;;
          fileclose wf;;
          mret (-1)
        else mret 0
  end.
End Sysfile.
