(* ===== verification/Trap.v ===== *)
(** * System calls and traps: kernel/sysproc.c, kernel/syscall.c and
    kernel/trap.c

    The control and status registers a trap leaves behind ([scause], [sepc],
    [sstatus]) are arguments; the interrupt handlers of the devices are
    parameters.  The message for an unknown system call or trap is not part of
    the model. *)

From S2P Require Import Prelude Memory Riscv Kalloc Vm FsDefs BufCache Log UserMem KernelMem Fs Spinlock ProcDefs Pipe Kernel Sched File Proc Exec Sysfile.

Section Trap.
Context {S D : Type} `{BufCache S}.
Local Abbreviation K := (kernel S D).
Context (trampoline : Z) (devread devwrite : Z -> option (Z -> Z -> M K Z)).
Context (pad : list byte).

(** ** kernel/sysproc.c *)

Definition sys_exit : M K Z :=
  n ← argint 0;
  exit n.

Definition sys_getpid : M K Z :=
  p ← myproc;
  x ← the_proc p;
  mret (p_pid x).

Definition sys_fork : M K Z := fork trampoline.

Definition sys_wait : M K Z :=
  p ← argaddr 0;
  wait p.

Definition sys_sbrk : M K Z :=
  n ← argint 0;
  p ← myproc;
  x ← the_proc p;
  let addr := p_sz x in
  r ← growproc n;
  if r <? 0 then mret (-1) else mret addr.

(** The loop of [sys_sleep], from its start or after a [sleep]. *)
Definition sys_sleep_loop (n ticks0 : Z) : M K Z :=
  t ← gets (fun s => ck_ticks (kn_clock s));
  if u32 (t - ticks0) <? n then
    p ← myproc;
    k ← killed p;
    if negb (k =? 0) then
      unlock_ticks;;
      mret (-1)
    else sleep ChTicks unlock_ticks
  else
    unlock_ticks;;
    mret 0.

Definition sys_sleep : M K Z :=
  n ← argint 0;
  let n := if n <? 0 then 0 else n in
  lock_ticks;;
  ticks0 ← gets (fun s => ck_ticks (kn_clock s));
  sys_sleep_loop n ticks0.

Definition sys_kill : M K Z :=
  pid ← argint 0;
  kill pid.

Definition sys_uptime : M K Z :=
  lock_ticks;;
  xticks ← gets (fun s => ck_ticks (kn_clock s));
  unlock_ticks;;
  mret xticks.

(** ** kernel/syscall.c *)

(** The table [syscalls], by the numbers of kernel/syscall.h. *)
Definition syscalls (num : Z) : option (M K Z) :=
  match num with
  | 1 => Some sys_fork
  | 2 => Some sys_exit
  | 3 => Some sys_wait
  | 4 => Some sys_pipe
  | 5 => Some (sys_read devread)
  | 6 => Some sys_kill
  | 7 => Some (sys_exec trampoline)
  | 8 => Some (sys_fstat pad)
  | 9 => Some sys_chdir
  | 10 => Some sys_dup
  | 11 => Some sys_getpid
  | 12 => Some sys_sbrk
  | 13 => Some sys_sleep
  | 14 => Some sys_uptime
  | 15 => Some sys_open
  | 16 => Some (sys_write devwrite)
  | 17 => Some sys_mknod
  | 18 => Some sys_unlink
  | 19 => Some sys_link
  | 20 => Some sys_mkdir
  | 21 => Some sys_close
  | _ => None
  end.

Definition syscall : M K unit :=
  p ← myproc;
  x ← the_proc p;
  a7 ← vm (rd (p_trapframe x + TF_A 7));
  match syscalls (i32 a7) with
  | Some handler =>
      r ← handler;
      vm (wr (p_trapframe x + TF_A 0) (u64 r))
  | None => vm (wr (p_trapframe x + TF_A 0) (u64 (-1)))
  end.

(** ** kernel/trap.c *)

Context (uartintr virtio_disk_intr : M K unit).

Definition trapinit : M K unit := modify (set_tickslock false).

(** [hart] is the running hart; re-arming the timer is not part of the state. *)
Definition clockintr (hart : Z) : M K unit :=
  when (hart =? 0)
    (lock_ticks;;
     modify (fun s => set_clock (Clock (ck_lock (kn_clock s)) (u32 (ck_ticks (kn_clock s) + 1))) s);;
     wakeup (Some ChTicks);;
     unlock_ticks).

Definition SCAUSE_EXTERNAL : Z := 0x8000000000000009.
Definition SCAUSE_TIMER : Z := 0x8000000000000005.
Definition UART0_IRQ : Z := 10.
Definition VIRTIO0_IRQ : Z := 1.

(** [irq] is what [plic_claim] answers. *)
Definition devintr (scause irq hart : Z) : M K Z :=
  if scause =? SCAUSE_EXTERNAL then
    (if irq =? UART0_IRQ then uartintr
     else if irq =? VIRTIO0_IRQ then virtio_disk_intr
     else mret tt);;
    mret 1
  else if scause =? SCAUSE_TIMER then
    clockintr hart;;
    mret 2
  else mret 0.

Definition SSTATUS_SPP : Z := Z.shiftl 1 8.
Definition SSTATUS_SPIE : Z := Z.shiftl 1 5.
Definition MAKE_SATP (pagetable : Z) : Z := Z.lor (Z.shiftl 8 60) (Z.shiftr pagetable 12).

(** The registers [usertrapret] leaves for [userret]. *)
Record user_entry := UserEntry { ue_stvec : Z; ue_sstatus : Z; ue_sepc : Z; ue_satp : Z }.

(** [uservec] is its offset in the trampoline page; [satp], [utrap] and [tp]
    are the kernel's satp, the address of [usertrap] and the hart id. *)
Definition usertrapret (uservec satp utrap tp sstatus : Z) : M K user_entry :=
  p ← myproc;
  modify (fun s => set_kcpu (Spinlock.Cpu (Spinlock.noff (kn_cpu s)) (Spinlock.intena (kn_cpu s)) false) s);;
  x ← the_proc p;
  vm (wr (p_trapframe x + TF_SATP) satp);;
  vm (wr (p_trapframe x + TF_KSP) (p_kstack x + PGSIZE));;
  vm (wr (p_trapframe x + TF_TRAP) utrap);;
  vm (wr (p_trapframe x + TF_HARTID) tp);;
  epc ← vm (rd (p_trapframe x + TF_EPC));
  mret (UserEntry (TRAMPOLINE + uservec)
          (Z.lor (Z.land sstatus (Z.lnot SSTATUS_SPP)) SSTATUS_SPIE) epc (MAKE_SATP (p_pagetable x))).

(** [usertrap] up to [usertrapret]. *)
Definition usertrap (scause sepc sstatus irq hart : Z) : M K unit :=
  panic_if (negb (Z.land sstatus SSTATUS_SPP =? 0)) "usertrap: not from user mode";;
  p ← myproc;
  x ← the_proc p;
  vm (wr (p_trapframe x + TF_EPC) sepc);;
  which_dev ← (
    if scause =? 8 then
      k ← killed p;
      if negb (k =? 0) then exit (-1)
      else
        epc ← vm (rd (p_trapframe x + TF_EPC));
        vm (wr (p_trapframe x + TF_EPC) (u64 (epc + 4)));;
        intr_on;;
        syscall;;
        mret 0
    else
      w ← devintr scause irq hart;
      when (w =? 0) (setkilled p);;
      mret w);
  k ← killed p;
  if negb (k =? 0) then exit (-1)
  else if which_dev =? 2 then yield
  else mret tt.

(** [kerneltrap]: the trap registers are the arguments, and what it restores. *)
Definition kerneltrap (scause sstatus irq hart : Z) : M K unit :=
  panic_if (Z.land sstatus SSTATUS_SPP =? 0) "kerneltrap: not from supervisor mode";;
  c ← gets kn_cpu;
  panic_if (Spinlock.intr c) "kerneltrap: interrupts enabled";;
  which_dev ← devintr scause irq hart;
  panic_if (which_dev =? 0) "kerneltrap";;
  cur ← gets kn_cur;
  if (which_dev =? 2) && bool_decide (cur <> None) then yield else mret tt.
End Trap.
