(* ===== verification/Boot.v ===== *)
(** * Boot: kernel/start.c, kernel/main.c, kernel/plic.c

    [start] on the control registers of a hart in machine mode; the
    initialisation of [main] by all harts, interleaved, with the registers of
    the interrupt controller.  The calls of [main] other than [plicinit] and
    [plicinithart] are recorded in a trace; their work is in the files of
    their components. *)

From S2P Require Import Prelude FsDefs Riscv Trap.

Module Boot.

(** ** kernel/start.c *)

Inductive mode := Machine | Supervisor | User.

(** The control registers [start] uses, and where the hart is. *)
Record hart := Hart {
  priv : mode; pc : Z;
  mstatus : Z; mepc : Z; satp : Z; medeleg : Z; mideleg : Z; sie : Z; pmpaddr0 : Z; pmpcfg0 : Z;
  mie : Z; menvcfg : Z; mcounteren : Z; stimecmp : Z;
  tp : Z; mhartid : Z; time : Z
}.

Definition MSTATUS_MPP_MASK : Z := Z.shiftl 3 11.
Definition MSTATUS_MPP_S : Z := Z.shiftl 1 11.
Definition SIE_SEIE : Z := Z.shiftl 1 9.
Definition SIE_STIE : Z := Z.shiftl 1 5.
Definition SIE_SSIE : Z := Z.shiftl 1 1.
Definition MIE_STIE : Z := Z.shiftl 1 5.

Definition timerinit (h : hart) : hart :=
  Hart (priv h) (pc h) (mstatus h) (mepc h) (satp h) (medeleg h) (mideleg h) (sie h) (pmpaddr0 h) (pmpcfg0 h)
    (Z.lor (mie h) MIE_STIE) (Z.lor (menvcfg h) (Z.shiftl 1 63)) (Z.lor (mcounteren h) 2) (u64 (time h + 1000000))
    (tp h) (mhartid h) (time h).

(** The instruction [mret]: to the mode in MPP and the address in mepc; MPP
    becomes user mode, MIE (bit 3) becomes MPIE (bit 7), and MPIE is set. *)
Definition mret_insn (h : hart) : hart :=
  let m := mstatus h in
  let mpp := Z.land (Z.shiftr m 11) 3 in
  let m' := Z.lor (Z.land m (Z.lnot (Z.lor MSTATUS_MPP_MASK (Z.lor (Z.shiftl 1 3) (Z.shiftl 1 7)))))
                  (Z.lor (if Z.testbit m 7 then Z.shiftl 1 3 else 0) (Z.shiftl 1 7)) in
  Hart (if mpp =? 3 then Machine else if mpp =? 1 then Supervisor else User) (mepc h) m' (mepc h) (satp h) (medeleg h) (mideleg h)
    (sie h) (pmpaddr0 h) (pmpcfg0 h) (mie h) (menvcfg h) (mcounteren h) (stimecmp h) (tp h) (mhartid h) (time h).

(** [main] is the address of the function. *)
Definition start (main : Z) (h : hart) : hart :=
  let x := Z.lor (Z.land (mstatus h) (Z.lnot MSTATUS_MPP_MASK)) MSTATUS_MPP_S in
  let h := Hart (priv h) (pc h) x main 0 0xffff 0xffff (Z.lor (Z.lor (Z.lor (sie h) SIE_SEIE) SIE_STIE) SIE_SSIE)
    0x3fffffffffffff 0xf (mie h) (menvcfg h) (mcounteren h) (stimecmp h) (tp h) (mhartid h) (time h) in
  let h := timerinit h in
  let id := i32 (mhartid h) in
  mret_insn (Hart (priv h) (pc h) (mstatus h) (mepc h) (satp h) (medeleg h) (mideleg h) (sie h) (pmpaddr0 h) (pmpcfg0 h)
    (mie h) (menvcfg h) (mcounteren h) (stimecmp h) (u64 id) (mhartid h) (time h)).

(** ** kernel/plic.c *)

Definition PLIC_SENABLE (hart : Z) : Z := PLIC + 0x2080 + hart * 0x100.
Definition PLIC_SPRIORITY (hart : Z) : Z := PLIC + 0x201000 + hart * 0x2000.
Definition PLIC_SCLAIM (hart : Z) : Z := PLIC + 0x201004 + hart * 0x2000.

(** The 32-bit registers are a function of the address. *)
Definition plicinit (m : Z -> Z) : Z -> Z := <[PLIC + VIRTIO0_IRQ * 4 := 1]> (<[PLIC + UART0_IRQ * 4 := 1]> m).
Definition plicinithart (hart : Z) (m : Z -> Z) : Z -> Z :=
  <[PLIC_SPRIORITY hart := 0]> (<[PLIC_SENABLE hart := Z.lor (Z.shiftl 1 UART0_IRQ) (Z.shiftl 1 VIRTIO0_IRQ)]> m).
(** [m] is what reads of the registers answer. *)
Definition plic_claim (hart : Z) (m : Z -> Z) : Z := i32 (m (PLIC_SCLAIM hart)).
Definition plic_complete (hart irq : Z) (m : Z -> Z) : Z -> Z := <[PLIC_SCLAIM hart := u32 irq]> m.

(** ** kernel/main.c *)

Inductive call :=
| Consoleinit | Printfinit | Kinit | Kvminit | Kvminithart | Procinit | Trapinit | Trapinithart | Plicinit | Plicinithart
| Binit | Iinit | Fileinit | Virtio_disk_init | Userinit | Set_started | Wait_started.
#[export] Instance call_eq : EqDecision call.
Proof. solve_decision. Defined.

(** What hart [h] does before [scheduler]. *)
Definition main (h : Z) : list call :=
  if h =? 0 then
    [Consoleinit; Printfinit; Kinit; Kvminit; Kvminithart; Procinit; Trapinit; Trapinithart; Plicinit; Plicinithart;
     Binit; Iinit; Fileinit; Virtio_disk_init; Userinit; Set_started]
  else [Wait_started; Kvminithart; Trapinithart; Plicinithart].

(** [todo]: what each hart has still to do; [trace]: what was done, latest last. *)
Record machine := BootState { started : bool; plic : Z -> Z; todo : Z -> list call; trace : list (Z * call) }.

Definition perform (h : Z) (c : call) (m : machine) : machine :=
  BootState (match c with Set_started => true | _ => started m end)
    (match c with Plicinit => plicinit (plic m) | Plicinithart => plicinithart h (plic m) | _ => plic m end)
    (<[h := drop 1 (todo m h)]> (todo m)) (trace m ++ [(h, c)]).

Inductive step (m : machine) : machine -> Prop :=
| boot_step h c rest : 0 <= h < NCPU -> todo m h = c :: rest -> (c = Wait_started -> started m = true) -> step m (perform h c m).

Definition powered_on (r : Z -> Z) : machine := BootState false r main [].

(** ** Proofs *)

(** [start] leaves the hart in supervisor mode at [main], with paging off, the
    hart number in tp, the interrupts of the supervisor enabled in sie and a
    timer interrupt ahead. *)
Lemma start_enters_main main h : 0 <= mstatus h < 2 ^ 64 -> 0 <= mhartid h < 2 ^ 31 ->
  let h' := start main h in
  priv h' = Supervisor /\ pc h' = main /\ satp h' = 0 /\ tp h' = mhartid h /\
  Z.testbit (sie h') 9 = true /\ Z.testbit (sie h') 5 = true /\ Z.testbit (sie h') 1 = true /\
  stimecmp h' = u64 (time h + 1000000).
Proof.
  intros Hm Hid. cbv zeta. unfold start, mret_insn, timerinit. cbn [priv pc satp tp sie stimecmp mstatus mepc mhartid time].
  assert (Empp : Z.land (Z.shiftr (Z.lor (Z.land (mstatus h) (Z.lnot MSTATUS_MPP_MASK)) MSTATUS_MPP_S) 11) 3 = 1).
  { apply Z.bits_inj'. intros i Hi. rewrite Z.land_spec, Z.shiftr_spec, Z.lor_spec, Z.land_spec, Z.lnot_spec by lia.
    unfold MSTATUS_MPP_MASK, MSTATUS_MPP_S. change 3 with (Z.ones 2). rewrite !Z.shiftl_spec by lia. replace (i + 11 - 11) with i by lia.
    destruct (Z.eq_dec i 0) as [->|H0]; [cbn; rewrite andb_false_r; reflexivity|].
    rewrite (Z.bits_above_log2 1 i) by (cbn; lia). destruct (Z.ltb_spec i 2) as [Hlt|Hge].
    - rewrite Z.ones_spec_low by lia. rewrite andb_false_r. reflexivity.
    - rewrite (Z.ones_spec_high 2 i) by lia. rewrite andb_false_r. reflexivity. }
  rewrite Empp. cbn [Z.eqb Pos.eqb]. rewrite i32_small by lia. repeat (split; [first [reflexivity | apply Z.mod_small; lia]|]).
  rewrite !Z.lor_spec. unfold SIE_SEIE, SIE_STIE, SIE_SSIE. change (Z.testbit (Z.shiftl 1 9) 9) with true. change (Z.testbit (Z.shiftl 1 5) 5) with true.
  change (Z.testbit (Z.shiftl 1 1) 1) with true. rewrite !orb_true_r. auto.
Qed.

(** The interrupt controller passes [irq] on to hart [h]. *)
Definition serviced (h irq : Z) (m : Z -> Z) : Prop := m (PLIC + irq * 4) > m (PLIC_SPRIORITY h) /\ Z.testbit (m (PLIC_SENABLE h)) irq = true.

Definition trace_of (h : Z) (l : list (Z * call)) : list call := (filter (fun x => x.1 = h) l).*2.

Lemma trace_of_snoc h h' c l : trace_of h (l ++ [(h', c)]) = trace_of h l ++ (if decide (h' = h) then [c] else []).
Proof. unfold trace_of. rewrite filter_app, fmap_app. f_equal. unfold filter. cbn. case_decide; reflexivity. Qed.

Lemma elem_of_trace_of h c l : c ∈ trace_of h l <-> (h, c) ∈ l.
Proof.
  unfold trace_of. rewrite list_elem_of_fmap. split.
  - intros ([h' c'] & -> & Hin). apply list_elem_of_filter in Hin as [<- Hin]. exact Hin.
  - intros Hin. exists (h, c). split; [reflexivity|]. apply list_elem_of_filter. auto.
Qed.

Record inv (m : machine) : Prop := {
  b_split : forall h, 0 <= h < NCPU -> trace_of h (trace m) ++ todo m h = main h;
  b_started : started m = true -> todo m 0 = [];
  b_waited : forall h, 0 < h < NCPU -> todo m h <> main h -> started m = true;
  b_order : forall pre h c post, trace m = pre ++ (h, c) :: post -> h <> 0 -> forall c', c' ∈ main 0 -> (0, c') ∈ pre;
  b_plic : (0, Plicinit) ∈ trace m -> plic m (PLIC + UART0_IRQ * 4) = 1 /\ plic m (PLIC + VIRTIO0_IRQ * 4) = 1;
  b_hart : forall h, 0 <= h < NCPU -> (h, Plicinithart) ∈ trace m -> plic m (PLIC_SENABLE h) = 0x402 /\ plic m (PLIC_SPRIORITY h) = 0
}.

Lemma boot_init r : inv (powered_on r).
Proof.
  split; cbn [started plic todo trace powered_on].
  - reflexivity.
  - discriminate.
  - intros h _ Hne. destruct (Hne eq_refl).
  - intros pre h c post E. destruct pre; discriminate E.
  - intros Hin. inversion Hin.
  - intros h _ Hin. inversion Hin.
Qed.

Lemma plicinit_out m a : a <> PLIC + UART0_IRQ * 4 -> a <> PLIC + VIRTIO0_IRQ * 4 -> plicinit m a = m a.
Proof. intros H1 H2. unfold plicinit. rewrite !fn_lookup_insert_ne by auto. reflexivity. Qed.
Lemma plicinithart_out h m a : a <> PLIC_SENABLE h -> a <> PLIC_SPRIORITY h -> plicinithart h m a = m a.
Proof. intros H1 H2. unfold plicinithart. rewrite !fn_lookup_insert_ne by auto. reflexivity. Qed.

Ltac plic_arith := unfold PLIC_SENABLE, PLIC_SPRIORITY, PLIC, UART0_IRQ, VIRTIO0_IRQ, NCPU in *; lia.

Lemma priorities_kept h c m : 0 <= h < NCPU -> (c = Plicinit \/ plic m (PLIC + UART0_IRQ * 4) = 1 /\ plic m (PLIC + VIRTIO0_IRQ * 4) = 1) ->
  plic (perform h c m) (PLIC + UART0_IRQ * 4) = 1 /\ plic (perform h c m) (PLIC + VIRTIO0_IRQ * 4) = 1.
Proof.
  intros Hh [->|[H1 H2]]; [cbn; split; reflexivity|]. destruct c; cbn [plic perform]; auto.
  rewrite !plicinithart_out by plic_arith. auto.
Qed.

Lemma enables_kept h h' c m : 0 <= h < NCPU -> 0 <= h' < NCPU ->
  (c = Plicinithart /\ h' = h \/ plic m (PLIC_SENABLE h) = 0x402 /\ plic m (PLIC_SPRIORITY h) = 0) ->
  plic (perform h' c m) (PLIC_SENABLE h) = 0x402 /\ plic (perform h' c m) (PLIC_SPRIORITY h) = 0.
Proof.
  intros Hh Hh' Hor. destruct (decide (c = Plicinithart /\ h' = h)) as [[-> ->]|Hne].
  - cbn [plic perform]. unfold plicinithart. rewrite fn_lookup_insert. rewrite fn_lookup_insert_ne by plic_arith. rewrite fn_lookup_insert. auto.
  - destruct Hor as [|[H1 H2]]; [done|]. destruct c; cbn [plic perform]; auto.
    + rewrite !plicinit_out by plic_arith. auto.
    + assert (h' <> h) by (intros ->; auto). rewrite !plicinithart_out by plic_arith. auto.
Qed.

Lemma todo_perform h h' c m : todo (perform h c m) h' = if decide (h' = h) then drop 1 (todo m h) else todo m h'.
Proof. cbn [todo perform]. destruct (decide (h' = h)) as [->|Hne]; [apply fn_lookup_insert | apply fn_lookup_insert_ne; auto]. Qed.

(** Only hart 0 sets [started], last; only the others wait for it, first. *)
Lemma main_started h pre c rest : main h = pre ++ c :: rest -> (c = Set_started -> h = 0 /\ rest = []) /\ (h <> 0 -> pre = [] <-> c = Wait_started).
Proof.
  unfold main. destruct (Z.eqb_spec h 0) as [->|Hh]; intros E.
  - split; [|done]. intros ->. split; [reflexivity|].
    do 16 (destruct pre as [|? pre]; [first [discriminate E | injection E as <-; reflexivity] | injection E as _ E]). destruct pre; discriminate E.
  - split; [|intros _; split].
    + intros ->. do 4 (destruct pre as [|? pre]; [discriminate E | injection E as _ E]). destruct pre; discriminate E.
    + intros ->. injection E as <- _. reflexivity.
    + intros ->. destruct pre as [|? pre]; [reflexivity|]. injection E as _ E.
      do 3 (destruct pre as [|? pre]; [discriminate E | injection E as _ E]). destruct pre; discriminate E.
Qed.

Lemma boot_step_inv m m' : inv m -> step m m' -> inv m'.
Proof.
  intros I Hs. destruct Hs as [h c rest Hh Ht Hw]. pose proof (b_split _ I h Hh) as Hsp. rewrite Ht in Hsp. symmetry in Hsp.
  destruct (main_started _ _ _ _ Hsp) as [Hset Hwait]. split.
  - intros h' Hh'. rewrite todo_perform. cbn [trace perform]. rewrite trace_of_snoc. destruct (decide (h' = h)) as [->|Hne].
    + rewrite decide_True by reflexivity. rewrite Ht, Hsp, <- app_assoc. reflexivity.
    + rewrite decide_False by auto. rewrite app_nil_r. exact (b_split _ I h' Hh').
  - intros Hst. rewrite todo_perform. case_decide as E.
    + subst h. rewrite Ht. destruct c; cbn [started perform] in Hst; try (pose proof (b_started _ I Hst); congruence). apply Hset; reflexivity.
    + apply (b_started _ I). destruct c; cbn [started perform] in Hst; try exact Hst. destruct (Hset eq_refl) as [-> _]. done.
  - intros h' Hh' Hne. rewrite todo_perform in Hne. assert (Hor : started m = true); [|destruct c; cbn [started perform]; auto].
    destruct (decide (h' = h)) as [->|Hneq]; [|exact (b_waited _ I h' Hh' Hne)].
    destruct (decide (c = Wait_started)) as [Ec|Ec]; [exact (Hw Ec)|]. apply (b_waited _ I h Hh'). rewrite Ht. intros E.
    apply Ec, Hwait; [lia|]. rewrite <- E in Hsp. apply (app_inv_tail (c :: rest) _ []). symmetry. exact Hsp.
  - intros pre h' c1 post E Hh'0 c' Hin. cbn [trace perform] in E. destruct post as [|x post _] using rev_ind.
    + apply app_inj_tail in E as [<- [= -> ->]].
      assert (Hstart : started m = true).
      { destruct (decide (c1 = Wait_started)) as [Ec|Ec]; [exact (Hw Ec)|]. apply (b_waited _ I h'); [lia|]. rewrite Ht. intros E.
        apply Ec, Hwait; [lia|]. rewrite <- E in Hsp. apply (app_inv_tail (c1 :: rest) _ []). symmetry. exact Hsp. }
      apply elem_of_trace_of. pose proof (b_split _ I 0 ltac:(unfold NCPU; lia)) as H0. rewrite (b_started _ I Hstart), app_nil_r in H0. rewrite H0. exact Hin.
    + rewrite app_comm_cons, app_assoc in E. apply app_inj_tail in E as [E _]. exact (b_order _ I _ _ _ _ E Hh'0 _ Hin).
  - intros Hin. apply priorities_kept; [exact Hh|]. cbn [trace perform] in Hin. apply elem_of_app in Hin as [Hin|Hin]; [right; apply (b_plic _ I Hin)|].
    apply list_elem_of_singleton in Hin. injection Hin as _ <-. auto.
  - intros h' Hh' Hin. apply enables_kept; [exact Hh' | exact Hh|]. cbn [trace perform] in Hin. apply elem_of_app in Hin as [Hin|Hin]; [right; apply (b_hart _ I h' Hh' Hin)|].
    apply list_elem_of_singleton in Hin. injection Hin as <- <-. auto.
Qed.

Lemma boot_reach r m : rtc step (powered_on r) m -> inv m.
Proof. intros Hs. apply (rtc_invariant step inv (powered_on r) m boot_step_inv Hs (boot_init r)). Qed.

Lemma enabled_irqs irq : 0 <= irq -> Z.testbit 0x402 irq = true <-> irq = UART0_IRQ \/ irq = VIRTIO0_IRQ.
Proof.
  intros Hi. unfold UART0_IRQ, VIRTIO0_IRQ. destruct (Z.lt_ge_cases irq 11) as [Hlt|Hge].
  - assert (Hc : irq = 0 \/ irq = 1 \/ irq = 2 \/ irq = 3 \/ irq = 4 \/ irq = 5 \/ irq = 6 \/ irq = 7 \/ irq = 8 \/ irq = 9 \/ irq = 10) by lia.
    repeat destruct Hc as [->|Hc]; cbn; try (split; [intros E; discriminate E | lia]); try (split; [auto | reflexivity]). subst irq. split; [auto | reflexivity].
  - rewrite (Z.bits_above_log2 0x402 irq) by (cbn; lia). split; [discriminate | lia].
Qed.


(** The harts in the given order, skipping those that wait. *)
Fixpoint boot_run (hs : list Z) (m : machine) : machine :=
  match hs with
  | [] => m
  | h :: hs' =>
      boot_run hs' (match todo m h with
                    | c :: _ => if (0 <=? h) && (h <? NCPU) && (started m || negb (bool_decide (c = Wait_started))) then perform h c m else m
                    | [] => m
                    end)
  end.

Lemma boot_run_reaches hs m : rtc step m (boot_run hs m).
Proof.
  revert m. induction hs as [|h hs IH]; intros m; cbn [boot_run]; [apply rtc_refl|]. destruct (todo m h) as [|c rest] eqn:Et; [apply IH|].
  destruct (_ && _ && _) eqn:Eok; [|apply IH]. eapply rtc_l; [|apply IH]. eapply boot_step; [lia | exact Et|].
  intros ->. apply andb_true_iff in Eok as [_ Eok]. rewrite bool_decide_eq_true_2, orb_false_r in Eok by reflexivity. exact Eok.
Qed.

(** Hart 1 waits, hart 0 boots, then hart 1. *)
Definition demo_booted : machine := boot_run ([1; 1] ++ replicate 16 0 ++ replicate 4 1) (powered_on (fun _ => 7)).

End Boot.
