(* ===== verification/Pids.v ===== *)
(** * The process table stays well formed

    [table_ok]: process ids are distinct, below [nextpid], and belong to
    exactly the entries in use.  Every system call, trap and scheduling step
    keeps this, whether it returns or waits. *)

From S2P Require Import Prelude Memory Riscv Kalloc Vm FsDefs BufCache Log UserMem KernelMem Fs Spinlock ProcDefs Pipe Bio Kernel Machine Sched File Proc Exec Sysfile Trap.

Record table_ok (P : nat -> proc) (next : Z) : Prop := TableOk {
  tk_range i : 0 <= p_pid (P i) < next;
  tk_used i : p_state (P i) = UNUSED <-> p_pid (P i) = 0;
  tk_uniq i j : p_pid (P i) = p_pid (P j) -> p_pid (P i) <> 0 -> i = j
}.

Section Pids.
Context {S D : Type} `{BC : BufCache S}.
Local Abbreviation K := (kernel S D).

(** The table is well formed, with [k] more process ids to give out before
    [nextpid] overflows. *)
Definition tbl (k : Z) (s : K) : Prop :=
  table_ok (procs s) (pt_nextpid (kn_pt s)) /\ pt_nextpid (kn_pt s) + k <= 2 ^ 31 - 1.

(** Besides, the running process is [c], and the entries [L] are in use. *)
Definition pids (k : Z) (c : option nat) (L : list nat) (s : K) : Prop :=
  tbl k s /\ kn_cur s = c /\ (forall p, c = Some p -> p_state (procs s p) = RUNNING) /\
  (forall q, q ∈ L -> p_state (procs s q) <> UNUSED).

(** An update of an entry that the table invariant does not see. *)
Definition same_id (x y : proc) : Prop := p_pid y = p_pid x /\ (p_state y = UNUSED <-> p_state x = UNUSED).

Lemma procs_upd p f (s : K) i : procs (upd_proc p f s) i = if decide (p = i) then f (procs s i) else procs s i.
Proof. unfold procs, upd_proc. cbn. unfold insert, fn_insert. case_decide; [subst|]; reflexivity. Qed.

Lemma tbl_upd k p f s : same_id (procs s p) (f (procs s p)) -> tbl k s -> tbl k (upd_proc p f s).
Proof.
  intros [Hpid Hst] [Hok Hk]. split; [|exact Hk].
  assert (Hp : forall i, p_pid (procs (upd_proc p f s) i) = p_pid (procs s i)).
  { intros i. rewrite procs_upd. case_decide; [subst; exact Hpid | reflexivity]. }
  split.
  - intros i. rewrite Hp. apply (tk_range _ _ Hok).
  - intros i. rewrite Hp, procs_upd, <- (tk_used _ _ Hok). case_decide; [subst; exact Hst | reflexivity].
  - intros i j. rewrite !Hp. apply (tk_uniq _ _ Hok).
Qed.

Lemma pids_upd k c L p f s : same_id (procs s p) (f (procs s p)) ->
  c <> Some p \/ p_state (f (procs s p)) = p_state (procs s p) ->
  pids k c L s -> pids k c L (upd_proc p f s).
Proof.
  intros Hid Hc (H1 & H2 & H3 & H4). split; [apply tbl_upd; assumption|]. split; [exact H2|]. split.
  - intros q Hq. rewrite procs_upd. case_decide; [subst p|auto]. destruct Hc as [Hc| ->]; [congruence | auto].
  - intros q Hq. rewrite procs_upd. case_decide; [subst p|auto]. destruct Hid as [_ Hid]. rewrite Hid. auto.
Qed.

Lemma same_id_refl x y : p_pid y = p_pid x -> p_state y = p_state x -> same_id x y.
Proof. intros H1 H2. split; [exact H1 | rewrite H2; reflexivity]. Qed.

Lemma same_id_state x y : p_pid y = p_pid x -> p_state x <> UNUSED -> p_state y <> UNUSED -> same_id x y.
Proof. intros H1 H2 H3. split; [exact H1 | tauto]. Qed.

Lemma pids_tbl k c L s : pids k c L s -> tbl k s.
Proof. intros H. apply H. Qed.

(** An update of fields other than the id and the state. *)
Lemma pids_field k c L p f s : (forall x, p_pid (f x) = p_pid x) -> (forall x, p_state (f x) = p_state x) ->
  pids k c L s -> pids k c L (upd_proc p f s).
Proof. intros H1 H2. apply pids_upd; [apply same_id_refl; auto | auto]. Qed.
Lemma tbl_field k p f s : (forall x, p_pid (f x) = p_pid x) -> (forall x, p_state (f x) = p_state x) ->
  tbl k s -> tbl k (upd_proc p f s).
Proof. intros H1 H2. apply tbl_upd, same_id_refl; auto. Qed.
End Pids.

Create HintDb keeps.

(** A goal about a state as far as the invariants see it. *)
Ltac pleaf :=
  repeat lazymatch goal with
  | |- pids _ _ _ (upd_proc _ _ _) => apply pids_field; [reflexivity | reflexivity |]
  | |- tbl _ (upd_proc _ _ _) => apply tbl_field; [reflexivity | reflexivity |]
  | |- pids ?k ?c ?L (_ _ _ ?s) => first [eassumption | change (pids k c L s)]
  | |- pids ?k ?c ?L (_ _ ?s) => first [eassumption | change (pids k c L s)]
  | |- tbl ?k (_ _ _ ?s) => first [eassumption | change (tbl k s)]
  | |- tbl ?k (_ _ ?s) => first [eassumption | change (tbl k s)]
  | |- pids _ _ _ _ => eassumption
  | |- tbl _ _ => first [eassumption | eapply pids_tbl; eassumption]
  end.

(** Kernel code that keeps [pids], step by step; calls of code known to keep it
    are in the hint database. *)
Ltac kstep :=
  first
  [ progress cbv beta
  | lazymatch goal with |- wlp _ (mret _) _ _ => apply wlp_ret end
  | match goal with |- wlp _ ?m _ ?s =>
      eapply wlp_keeps; [solve [eauto 3 with keeps] | solve [pleaf] | intros ? ? ?] end
  | wstep
  | match goal with |- keeps _ _ _ => intros ? ? end
  | progress intros
  | progress pleaf ].
Ltac ksteps := repeat kstep.

(** [myproc] is the running process. *)
Ltac curis :=
  match goal with Hp : pids _ ?c _ ?s, E : kn_cur ?s = Some ?p |- _ =>
    assert (c = Some p) by (destruct Hp as (_ & <- & _); exact E); subst c end.

Section Keeps.
Context {S D : Type} `{BC : BufCache S}.
Local Abbreviation K := (kernel S D).
Implicit Types (k : Z) (c : option nat) (L : list nat).

Lemma keep_ret {A} k c L (a : A) : keeps (pids k c L) (tbl k) (mret a : M K A).
Proof. ksteps. Qed.
Lemma keep_vm {A} k c L (m : M kstate A) : keeps (pids k c L) (tbl k) (vm m : M K A).
Proof. ksteps. Qed.
Lemma keep_fs {A} k c L (m : M _ A) : keeps (pids k c L) (tbl k) (fs m : M K A).
Proof. ksteps. Qed.
Lemma keep_on_pipe {A} k c L pi (m : M _ A) : keeps (pids k c L) (tbl k) (on_pipe pi m : M K A).
Proof. ksteps. Qed.
Lemma keep_lock_proc k c L p : keeps (pids k c L) (tbl k) (lock_proc p : M K unit).
Proof. ksteps. Qed.
Lemma keep_unlock_proc k c L p : keeps (pids k c L) (tbl k) (unlock_proc p : M K unit).
Proof. ksteps. Qed.
Lemma keep_lock_ftable k c L : keeps (pids k c L) (tbl k) (lock_ftable : M K unit).
Proof. unfold lock_ftable. ksteps. Qed.
Lemma keep_unlock_ftable k c L : keeps (pids k c L) (tbl k) (unlock_ftable : M K unit).
Proof. unfold unlock_ftable. ksteps. Qed.
Lemma keep_lock_wait k c L : keeps (pids k c L) (tbl k) (lock_wait : M K unit).
Proof. unfold lock_wait. ksteps. Qed.
Lemma keep_unlock_wait k c L : keeps (pids k c L) (tbl k) (unlock_wait : M K unit).
Proof. unfold unlock_wait. ksteps. Qed.
Lemma keep_lock_ticks k c L : keeps (pids k c L) (tbl k) (lock_ticks : M K unit).
Proof. unfold lock_ticks. ksteps. Qed.
Lemma keep_unlock_ticks k c L : keeps (pids k c L) (tbl k) (unlock_ticks : M K unit).
Proof. unfold unlock_ticks. ksteps. Qed.
#[local] Hint Resolve keep_ret keep_vm keep_fs keep_on_pipe keep_lock_proc keep_unlock_proc keep_lock_ftable
  keep_unlock_ftable keep_lock_wait keep_unlock_wait keep_lock_ticks keep_unlock_ticks : keeps.

(** ** Waking and sleeping *)

Lemma is_state_true st x : is_state st x = true -> p_state x = st.
Proof. unfold is_state. case_bool_decide; [auto | discriminate]. Qed.

(** A process that is not running changes to another state in use. *)
Lemma pids_restate k c L p f st (s : K) : p_state (procs s p) = st -> st <> UNUSED -> st <> RUNNING ->
  (forall x, p_pid (f x) = p_pid x) -> (forall x, p_state (f x) <> UNUSED) ->
  pids k c L s -> pids k c L (upd_proc p f s).
Proof.
  intros Hst Hu Hr Hf1 Hf2 Hp. apply pids_upd; [apply same_id_state; [auto | congruence | auto] | | exact Hp].
  left. intros E. apply Hr. rewrite <- Hst. apply Hp, E.
Qed.

(** The running process changes to another state in use, and waits. *)
Lemma tbl_leave k L p f (s : K) :
  (forall x, p_pid (f x) = p_pid x) -> (forall x, p_state (f x) <> UNUSED) ->
  pids k (Some p) L s -> tbl k (upd_proc p f s).
Proof.
  intros Hf1 Hf2 (H1 & H2 & H3 & _). apply tbl_upd; [|exact H1]. apply same_id_state; [auto | | auto].
  rewrite H3 by reflexivity. discriminate.
Qed.

Lemma wlp_sched {A} k (Q : A -> K -> Prop) s : tbl k s -> wlp (tbl k) sched Q s.
Proof. intros Hs. unfold sched. ksteps. Qed.

Lemma keep_for_procs k c L n i (body : nat -> M K unit) :
  (forall p, keeps (pids k c L) (tbl k) (body p)) -> keeps (pids k c L) (tbl k) (for_procs n i body).
Proof. intros Hb. revert i. induction n as [|n IH]; intros i; cbn [for_procs]; ksteps. Qed.

Lemma keep_wakeup k c L chan : keeps (pids k c L) (tbl k) (wakeup chan : M K unit).
Proof.
  apply keep_for_procs. intros p. unfold wakeup_one. ksteps.
  apply andb_true_iff in H2 as [H2 _]. apply is_state_true in H2. eapply pids_restate; eauto; discriminate.
Qed.

Lemma keep_kill k c L pid : keeps (pids k c L) (tbl k) (kill pid : M K Z).
Proof.
  unfold kill. generalize 0%nat. generalize nproc. intros n. induction n as [|n IH]; intros i; cbn [kill_scan]; ksteps.
  apply is_state_true in H1. eapply pids_restate; [| | | | |pleaf]; rewrite ?procs_upd, ?decide_True by reflexivity; cbn; eauto; discriminate.
Qed.

Lemma keep_setkilled k c L p : keeps (pids k c L) (tbl k) (setkilled p : M K unit).
Proof. unfold setkilled. ksteps. Qed.
Lemma keep_killed k c L p : keeps (pids k c L) (tbl k) (killed p : M K Z).
Proof. unfold killed. ksteps. Qed.
#[local] Hint Resolve keep_wakeup keep_kill keep_setkilled keep_killed : keeps.

Lemma keep_sleep {A} k c L chan (unlock : M K unit) :
  keeps (pids k c L) (tbl k) unlock -> keeps (pids k c L) (tbl k) (sleep chan unlock : M K A).
Proof.
  intros Hu. unfold sleep. ksteps. curis. apply wlp_sched. eapply tbl_leave; eauto; discriminate.
Qed.

Lemma keep_yield {A} k c L : keeps (pids k c L) (tbl k) (yield : M K A).
Proof. unfold yield. ksteps. curis. apply wlp_sched. eapply tbl_leave; eauto; discriminate. Qed.
#[local] Hint Resolve keep_sleep keep_yield : keeps.

(** ** Files *)

Lemma keep_filealloc k c L : keeps (pids k c L) (tbl k) (filealloc : M K _).
Proof. unfold filealloc. ksteps. Qed.
Lemma keep_filedup k c L f : keeps (pids k c L) (tbl k) (filedup f : M K _).
Proof. unfold filedup. ksteps. Qed.
Lemma keep_begin_op k c L : keeps (pids k c L) (tbl k) (begin_op_ : M K _).
Proof. unfold begin_op_. ksteps. Qed.
Lemma keep_end_op k c L : keeps (pids k c L) (tbl k) (end_op_ : M K _).
Proof. unfold end_op_. ksteps. Qed.
Lemma keep_iput k c L ip : keeps (pids k c L) (tbl k) (iput_ ip : M K _).
Proof. unfold iput_. ksteps. Qed.
#[local] Hint Resolve keep_filealloc keep_filedup keep_begin_op keep_end_op keep_iput : keeps.
Lemma keep_kpipeclose k c L pi w : keeps (pids k c L) (tbl k) (kpipeclose pi w : M K _).
Proof. unfold kpipeclose. ksteps. Qed.
#[local] Hint Resolve keep_kpipeclose : keeps.
Lemma keep_fileclose k c L f : keeps (pids k c L) (tbl k) (fileclose f : M K _).
Proof. unfold fileclose. ksteps. Qed.
#[local] Hint Resolve keep_fileclose : keeps.
Lemma keep_pipealloc k c L : keeps (pids k c L) (tbl k) (pipealloc : M K _).
Proof. unfold pipealloc. ksteps. Qed.
Lemma keep_filestat k c L pad f a : keeps (pids k c L) (tbl k) (filestat pad f a : M K _).
Proof. unfold filestat. ksteps. Qed.
Lemma keep_kpiperead k c L pi a n : keeps (pids k c L) (tbl k) (kpiperead pi a n : M K _).
Proof. unfold kpiperead. ksteps. Qed.
Lemma keep_kpipewrite k c L pi a n : keeps (pids k c L) (tbl k) (kpipewrite pi a n : M K _).
Proof. unfold kpipewrite. ksteps. Qed.
#[local] Hint Resolve keep_pipealloc keep_filestat keep_kpiperead keep_kpipewrite : keeps.

(** The drivers keep the invariant. *)
Definition dev_keeps (tbl_ : Z -> option (Z -> Z -> M K Z)) : Prop :=
  forall major f, tbl_ major = Some f -> forall a n k c L, keeps (pids k c L) (tbl k) (f a n).

Lemma keep_device devs major f a n k c L : dev_keeps devs -> device devs major = Some f ->
  keeps (pids k c L) (tbl k) (f a n).
Proof. unfold device. intros Hd Hf. destruct (_ || _); [discriminate|]. eapply Hd, Hf. Qed.

Lemma keep_fileread k c L devs f a n : dev_keeps devs -> keeps (pids k c L) (tbl k) (fileread devs f a n : M K _).
Proof. intros Hd. unfold fileread. ksteps. eapply wlp_mono; [eapply (keep_device devs); eauto|]. auto. Qed.

Lemma keep_loop {A R} k c L fuel (body : A -> M K (A + R)) l :
  (forall l, keeps (pids k c L) (tbl k) (body l)) -> keeps (pids k c L) (tbl k) (loop fuel body l).
Proof.
  intros Hb s Hs. apply (wlp_loop _ (fun _ => pids k c L)); [|exact Hs]. intros l' t Ht.
  eapply wlp_mono; [apply Hb, Ht|]. intros [?|?] ? ?; assumption.
Qed.

#[local] Hint Resolve keep_loop : keeps.

Lemma keep_filewrite_step k c L f ip a n i : keeps (pids k c L) (tbl k) (filewrite_step f ip a n i : M K _).
Proof. unfold filewrite_step. ksteps. Qed.
#[local] Hint Resolve keep_filewrite_step : keeps.

Lemma keep_filewrite k c L devs f a n : dev_keeps devs -> keeps (pids k c L) (tbl k) (filewrite devs f a n : M K _).
Proof. intros Hd. unfold filewrite. ksteps. eapply wlp_mono; [eapply (keep_device devs); eauto|]. auto. Qed.
#[local] Hint Resolve keep_fileread keep_filewrite : keeps.

(** ** Processes *)

(** Giving an entry a new identity: none, or one no other entry has. *)
Lemma tbl_identity k p f (s : K) : tbl k s ->
  0 <= p_pid (f (procs s p)) < pt_nextpid (kn_pt s) ->
  (p_state (f (procs s p)) = UNUSED <-> p_pid (f (procs s p)) = 0) ->
  (forall i, i <> p -> p_pid (procs s i) <> 0 -> p_pid (procs s i) <> p_pid (f (procs s p))) ->
  tbl k (upd_proc p f s).
Proof.
  intros [[H1 H2 H3] Hk] Hr Hu Hf. split; [|exact Hk]. split.
  - intros i. rewrite procs_upd. case_decide; [subst; exact Hr | apply H1].
  - intros i. rewrite procs_upd. case_decide; [subst; exact Hu | apply H2].
  - intros i j. rewrite !procs_upd. repeat case_decide; subst; [auto | | | apply H3].
    + intros E Hn. exfalso. apply (Hf j); congruence.
    + intros E Hn. exfalso. apply (Hf i); auto.
Qed.

Lemma pids_identity k c L p f (s : K) : pids k c L s -> c <> Some p -> tbl k (upd_proc p f s) ->
  (p ∈ L -> p_state (f (procs s p)) <> UNUSED) -> pids k c L (upd_proc p f s).
Proof.
  intros (_ & H2 & H3 & H4) Hc Ht HL. split; [exact Ht|]. split; [exact H2|]. split.
  - intros q Hq. rewrite procs_upd. case_decide; [congruence | auto].
  - intros q Hq. rewrite procs_upd. case_decide; [subst; auto | auto].
Qed.

Lemma pids_next k c L (s : K) : pids k c L s -> 0 < pt_nextpid (kn_pt s).
Proof. intros Hs. pose proof (tk_range _ _ (proj1 (pids_tbl _ _ _ _ Hs)) 0%nat). lia. Qed.

Lemma pids_more k c L (s : K) : pids (k + 1) c L s -> pids k c L s.
Proof. intros ((H1 & H2) & H3). split; [split; [exact H1 | lia] | exact H3]. Qed.

Lemma wlp_more {A} k (m : M K A) Q s : wlp (tbl (k + 1)) m Q s -> wlp (tbl k) m Q s.
Proof. unfold wlp, tbl. destruct (m s); auto. intros [H1 H2]. split; [exact H1 | lia]. Qed.

Lemma pids_live k c L p (s : K) : pids k c L s -> p_state (procs s p) <> UNUSED -> pids k c (p :: L) s.
Proof.
  intros (H1 & H2 & H3 & H4) Hp. split; [exact H1|]. split; [exact H2|]. split; [exact H3|].
  intros q [->|Hq]%elem_of_cons; auto.
Qed.

Lemma pids_drop k c L p (s : K) : pids k c (p :: L) s -> pids k c L s.
Proof.
  intros (H1 & H2 & H3 & H4). split; [exact H1|]. split; [exact H2|]. split; [exact H3|].
  intros q Hq. apply H4. apply elem_of_cons. auto.
Qed.

(** [freeproc] of an entry that is neither running nor relied upon. *)
Lemma wlp_freeproc k c L p (Q : unit -> K -> Prop) s : pids k c L s -> c <> Some p -> p ∉ L ->
  (forall s', pids k c L s' -> Q tt s') -> wlp (tbl k) (freeproc p : M K unit) Q s.
Proof.
  intros Hs Hc HL HQ. unfold freeproc. ksteps; apply HQ; (apply pids_identity; [pleaf | exact Hc | | tauto]);
    (apply tbl_identity; cbn; [eapply pids_tbl; pleaf | | tauto | auto]);
    (split; [lia | eapply pids_next; pleaf]).
Qed.

Lemma wlp_allocpid k c L (Q : Z -> K -> Prop) s : 0 <= k -> pids (k + 1) c L s ->
  (forall pid s', pids k c L s' -> procs s' = procs s -> 0 < pid < pt_nextpid (kn_pt s') ->
    (forall i, p_pid (procs s i) <> pid) -> Q pid s') -> wlp (tbl k) (allocpid : M K Z) Q s.
Proof.
  intros Hk0 Hs HQ. pose proof (pids_next _ _ _ _ Hs) as Hn. destruct Hs as (([H1 H2 H3] & Hk) & H4 & H5 & H6).
  assert (Hi : i32 (pt_nextpid (kn_pt s) + 1) = pt_nextpid (kn_pt s) + 1) by (apply i32_small; lia).
  unfold allocpid, lock_pid, unlock_pid. ksteps. apply HQ.
  - split; [split; [|change (i32 (pt_nextpid (kn_pt s) + 1) + k <= 2 ^ 31 - 1); lia]|split; [exact H4 | split; [exact H5 | exact H6]]].
    split; [|exact H2 | exact H3]. intros i. specialize (H1 i).
    change (0 <= p_pid (procs s i) < i32 (pt_nextpid (kn_pt s) + 1)). lia.
  - reflexivity.
  - change (0 < pt_nextpid (kn_pt s) < i32 (pt_nextpid (kn_pt s) + 1)). lia.
  - intros i. specialize (H1 i). change (p_pid (procs s i) <> pt_nextpid (kn_pt s)). lia.
Qed.

Lemma wlp_unused_scan k c L n i (Q : option nat -> K -> Prop) s : pids k c L s ->
  (forall o s', pids k c L s' -> (forall p, o = Some p -> p_state (procs s' p) = UNUSED) -> Q o s') ->
  wlp (tbl k) (unused_scan n i : M K _) Q s.
Proof.
  revert i s. induction n as [|n IH]; intros i s Hs HQ; cbn [unused_scan]; ksteps.
  - apply HQ; [exact Hs | discriminate].
  - apply HQ; [assumption|]. intros p [= <-]. apply is_state_true. assumption.
  - apply IH; assumption.
Qed.

Lemma wlp_allocproc k c L tramp (Q : option nat -> K -> Prop) s : 0 <= k -> pids (k + 1) c L s ->
  (forall s', pids k c L s' -> Q None s') ->
  (forall p s', pids k c (p :: L) s' -> c <> Some p -> p ∉ L -> Q (Some p) s') ->
  wlp (tbl k) (allocproc tramp : M K _) Q s.
Proof.
  intros Hk0 Hs HN HS. unfold allocproc. apply wlp_bind, wlp_more. eapply wlp_unused_scan; [exact Hs|].
  intros [p|] s1 Hs1 Hp; [|apply wlp_ret, HN, pids_more, Hs1]. specialize (Hp p eq_refl).
  assert (Hc : c <> Some p) by (intros E; destruct Hs1 as (_ & _ & Hr & _); rewrite (Hr p E) in Hp; discriminate).
  assert (HL : p ∉ L) by (intros E; destruct Hs1 as (_ & _ & _ & Hl); exact (Hl p E Hp)).
  apply wlp_bind. eapply wlp_allocpid; [exact Hk0 | exact Hs1|]. intros pid s2 Hs2 E Hpid Hfresh. rewrite <- E in Hfresh.
  apply wlp_bind, wlp_modify.
  assert (Hs3 : pids k c (p :: L) (upd_proc p (fun x => set_pstate USED (set_ppid pid x)) s2)).
  { apply pids_live; [|rewrite procs_upd, decide_True by reflexivity; discriminate].
    apply pids_identity; [exact Hs2 | exact Hc | | discriminate].
    apply tbl_identity; [exact (pids_tbl _ _ _ _ Hs2) | cbn; lia | cbn; split; [discriminate | lia] | cbn; auto]. }
  revert Hs3. generalize (upd_proc p (fun x => set_pstate USED (set_ppid pid x)) s2). intros s3 Hs3.
  ksteps; try (eapply (wlp_freeproc k c L); [eapply pids_drop; pleaf | exact Hc | exact HL | intros ? ?; ksteps; auto]).
  apply HS; [pleaf | exact Hc | exact HL].
Qed.

Lemma keep_dup_files k c L n i p np : keeps (pids k c L) (tbl k) (dup_files n i p np : M K unit).
Proof. revert i. induction n as [|n IH]; intros i; cbn [dup_files]; ksteps. Qed.
#[local] Hint Resolve keep_dup_files : keeps.

(** [fork] uses one process id. *)
Lemma wlp_fork k c L tramp s : 0 <= k -> pids (k + 1) c L s ->
  wlp (tbl k) (fork tramp : M K Z) (fun _ s' => pids k c L s') s.
Proof.
  intros Hk0 Hs. unfold fork. apply wlp_bind, wlp_myproc. intros p cp Hp. apply wlp_bind.
  eapply wlp_allocproc; [exact Hk0 | exact Hs | intros s1 Hs1; ksteps|]. intros np s1 Hs1 Hc HL. ksteps.
  - eapply wlp_freeproc; [eapply pids_drop; eassumption | exact Hc | exact HL|]. intros ? ?. ksteps.
  - eapply pids_drop. apply pids_upd; [| left; exact Hc | eassumption].
    apply same_id_state; [reflexivity | | discriminate].
    match goal with Hl : pids _ _ (np :: L) _ |- _ => apply Hl, elem_of_cons; auto end.
Qed.

Lemma keep_reparent k c L p : keeps (pids k c L) (tbl k) (reparent p : M K unit).
Proof. apply keep_for_procs. intros q. unfold reparent_one. ksteps. Qed.
Lemma keep_close_files k c L n fd p : keeps (pids k c L) (tbl k) (close_files n fd p : M K unit).
Proof. revert fd. induction n as [|n IH]; intros fd; cbn [close_files]; ksteps. Qed.
#[local] Hint Resolve keep_reparent keep_close_files : keeps.

Lemma keep_exit {A} k c L status : keeps (pids k c L) (tbl k) (exit status : M K A).
Proof. unfold exit, exit_zombie. ksteps. curis. unfold unlock_wait. ksteps. apply wlp_sched. pleaf. eapply tbl_leave; eauto; discriminate. Qed.

#[local] Hint Resolve keep_exit : keeps.

Lemma not_running k c L p st (s : K) : pids k c L s -> is_state st (procs s p) = true -> st <> RUNNING -> c <> Some p.
Proof. intros (_ & _ & Hr & _) Hst Hn E. apply is_state_true in Hst. rewrite (Hr p E) in Hst. congruence. Qed.

Lemma keep_wait_scan k c n i p addr kids : keeps (pids k c []) (tbl k) (wait_scan n i p addr kids : M K _).
Proof.
  revert i kids. induction n as [|n IH]; intros i kids; cbn [wait_scan]; ksteps;
    (eapply wlp_freeproc; [eassumption | eapply not_running; [|eassumption|]; [eassumption | discriminate] | apply not_elem_of_nil|];
     intros ? ?; ksteps).
Qed.
#[local] Hint Resolve keep_wait_scan : keeps.
Lemma keep_wait k c addr : keeps (pids k c []) (tbl k) (wait addr : M K _).
Proof. unfold wait. ksteps. Qed.
Lemma keep_growproc k c L n : keeps (pids k c L) (tbl k) (growproc n : M K _).
Proof. unfold growproc. ksteps. Qed.
#[local] Hint Resolve keep_wait keep_growproc : keeps.

(** ** Arguments and exec *)

Lemma keep_fuelled {A} k c L (o : option A) : keeps (pids k c L) (tbl k) (fuelled o : M K A).
Proof. intros s Hs. unfold fuelled, wlp. destruct o; auto. Qed.
#[local] Hint Resolve keep_fuelled : keeps.
Lemma keep_fetchaddr k c L a : keeps (pids k c L) (tbl k) (fetchaddr a : M K _).
Proof. unfold fetchaddr. ksteps. Qed.
Lemma keep_fetchstr k c L a m : keeps (pids k c L) (tbl k) (fetchstr a m : M K _).
Proof. unfold fetchstr. ksteps. Qed.
Lemma keep_argraw k c L n : keeps (pids k c L) (tbl k) (argraw n : M K _).
Proof. unfold argraw. ksteps. Qed.
#[local] Hint Resolve keep_fetchaddr keep_fetchstr keep_argraw : keeps.
Lemma keep_argint k c L n : keeps (pids k c L) (tbl k) (argint n : M K _).
Proof. unfold argint. ksteps. Qed.
Lemma keep_argaddr k c L n : keeps (pids k c L) (tbl k) (argaddr n : M K _).
Proof. unfold argaddr. ksteps. Qed.
#[local] Hint Resolve keep_argint keep_argaddr : keeps.
Lemma keep_argstr k c L n m : keeps (pids k c L) (tbl k) (argstr n m : M K _).
Proof. unfold argstr. ksteps. Qed.
#[local] Hint Resolve keep_argstr : keeps.

Lemma keep_loadseg k c L pt va ip off sz : keeps (pids k c L) (tbl k) (loadseg pt va ip off sz : M K _).
Proof. apply keep_loop. intros i. unfold loadseg_step. ksteps. Qed.
#[local] Hint Resolve keep_loadseg : keeps.
Lemma keep_exec_segments k c L n pt ip off sz : keeps (pids k c L) (tbl k) (exec_segments n pt ip off sz : M K _).
Proof. revert off sz. induction n as [|n IH]; intros off sz; cbn [exec_segments]; unfold exec_segment; ksteps. Qed.
Lemma keep_push_args k c L pt base sp argv us : keeps (pids k c L) (tbl k) (push_args pt base sp argv us : M K _).
Proof. revert sp us. induction argv as [|a argv IH]; intros sp us; cbn [push_args]; unfold kstrlen; ksteps. Qed.
#[local] Hint Resolve keep_exec_segments keep_push_args : keeps.
Lemma keep_exec_stack k c L pt sz argv : keeps (pids k c L) (tbl k) (exec_stack pt sz argv : M K _).
Proof. unfold exec_stack. ksteps. Qed.
Lemma keep_exec_bad k c L pt sz ip : keeps (pids k c L) (tbl k) (exec_bad pt sz ip : M K _).
Proof. unfold exec_bad. ksteps. Qed.
#[local] Hint Resolve keep_exec_stack keep_exec_bad : keeps.
Lemma keep_exec_image k c L path argv pt sz e : keeps (pids k c L) (tbl k) (exec_image path argv pt sz e : M K _).
Proof. unfold exec_image. ksteps. Qed.
#[local] Hint Resolve keep_exec_image : keeps.
Lemma keep_exec k c L tramp path argv : keeps (pids k c L) (tbl k) (exec tramp path argv : M K _).
Proof. unfold exec. ksteps. Qed.
#[local] Hint Resolve keep_exec : keeps.

(** ** System calls *)

Lemma keep_argfd k c L n : keeps (pids k c L) (tbl k) (argfd n : M K _).
Proof. unfold argfd. ksteps. Qed.
Lemma keep_set_ofile k c L p fd f : keeps (pids k c L) (tbl k) (set_ofile p fd f : M K _).
Proof. unfold set_ofile. ksteps. Qed.
#[local] Hint Resolve keep_argfd keep_set_ofile : keeps.
Lemma keep_fdalloc k c L f : keeps (pids k c L) (tbl k) (fdalloc f : M K _).
Proof. unfold fdalloc. ksteps. Qed.
#[local] Hint Resolve keep_fdalloc : keeps.
Lemma keep_open_inode k c L path m : keeps (pids k c L) (tbl k) (open_inode path m : M K _).
Proof. unfold open_inode. ksteps. Qed.
Lemma keep_open_fd k c L : keeps (pids k c L) (tbl k) (open_fd : M K _).
Proof. unfold open_fd. ksteps. Qed.
Lemma keep_free_args k c L argv : keeps (pids k c L) (tbl k) (free_args argv : M K _).
Proof. induction argv as [|a argv IH]; cbn [free_args]; ksteps. Qed.
Lemma keep_exec_arg k c L u argv : keeps (pids k c L) (tbl k) (exec_arg u argv : M K _).
Proof. unfold exec_arg. ksteps. Qed.
#[local] Hint Resolve keep_open_inode keep_open_fd keep_free_args keep_exec_arg : keeps.
Lemma keep_sleep_loop k c L n t0 : keeps (pids k c L) (tbl k) (sys_sleep_loop n t0 : M K _).
Proof. unfold sys_sleep_loop. ksteps. Qed.
#[local] Hint Resolve keep_sleep_loop : keeps.

Context (tramp : Z) (devread devwrite : Z -> option (Z -> Z -> M K Z)) (pad : list byte).
Context (Hread : dev_keeps devread) (Hwrite : dev_keeps devwrite).

(** Every handler but [sys_fork] keeps the invariant. *)
Lemma keep_handler k c num h : num <> 1 -> syscalls tramp devread devwrite pad num = Some h ->
  keeps (pids k c []) (tbl k) h.
Proof.
  intros Hn Hh.
  assert (E : 1 <= num <= 21) by (destruct num as [|n|n]; [discriminate | | discriminate]; do 5 (destruct n as [n|n|]; try discriminate; try lia)).
  assert (num = 2 \/ num = 3 \/ num = 4 \/ num = 5 \/ num = 6 \/ num = 7 \/ num = 8 \/ num = 9 \/ num = 10 \/ num = 11 \/
    num = 12 \/ num = 13 \/ num = 14 \/ num = 15 \/ num = 16 \/ num = 17 \/ num = 18 \/ num = 19 \/ num = 20 \/ num = 21) as Hnum by lia.
  clear E Hn. repeat destruct Hnum as [->|Hnum]; [..|subst num]; injection Hh as <-;
    unfold sys_exit, sys_wait, sys_pipe, sys_read, sys_kill, sys_exec, sys_fstat, sys_chdir, sys_dup, sys_getpid, sys_sbrk,
      sys_sleep, sys_uptime, sys_open, sys_write, sys_mknod, sys_unlink, sys_link, sys_mkdir, sys_close; ksteps.
Qed.

Lemma wlp_syscall k c s : 0 <= k -> pids (k + 1) c [] s ->
  wlp (tbl k) (syscall tramp devread devwrite pad : M K unit) (fun _ s' => pids k c [] s') s.
Proof.
  intros Hk Hs. unfold syscall. apply wlp_bind, wlp_myproc. intros p cp Hp. apply wlp_bind, wlp_gets, wlp_bind, wlp_more.
  eapply wlp_keeps; [apply (keep_vm (k + 1) c [])| exact Hs|]. intros a7 s1 Hs1.
  destruct (syscalls _ _ _ _ (i32 a7)) as [h|] eqn:E; [|pose proof (pids_more _ _ _ _ Hs1); ksteps].
  apply wlp_bind. destruct (decide (i32 a7 = 1)) as [Hn|Hn].
  - rewrite Hn in E. injection E as <-. eapply wlp_mono; [apply wlp_fork; [exact Hk | exact Hs1]|]. cbv beta. intros r s2 Hs2. ksteps.
  - eapply wlp_keeps; [exact (keep_handler k c _ _ Hn E) | apply pids_more, Hs1|]. intros r s2 Hs2. ksteps.
Qed.

Lemma keep_devintr k c L uart disk scause irq hart : keeps (pids k c L) (tbl k) uart -> keeps (pids k c L) (tbl k) disk ->
  keeps (pids k c L) (tbl k) (devintr uart disk scause irq hart : M K _).
Proof. intros H1 H2. unfold devintr, clockintr. ksteps. Qed.

Lemma wlp_usertrap k p uart disk scause sepc sstatus irq hart s : 0 <= k -> pids (k + 1) (Some p) [] s ->
  keeps (pids k (Some p) []) (tbl k) uart -> keeps (pids k (Some p) []) (tbl k) disk ->
  wlp (tbl k) (usertrap tramp devread devwrite pad uart disk scause sepc sstatus irq hart : M K unit)
    (fun _ s' => pids k (Some p) [] s') s.
Proof.
  intros Hk Hs Hu Hd. pose proof (keep_devintr k (Some p) [] uart disk scause irq hart Hu Hd) as Hi.
  unfold usertrap. apply wlp_bind, wlp_panic_if. intros _. apply wlp_bind, wlp_myproc. intros p' cp Hp.
  apply wlp_bind, wlp_gets, wlp_bind, wlp_more. eapply wlp_keeps; [apply (keep_vm (k + 1) (Some p) [])| exact Hs|].
  intros w0 s1 Hs1. apply wlp_bind. apply (wlp_mono _ _ (fun _ s' => pids k (Some p) [] s')); [|cbv beta; intros w s2 Hs2; ksteps].
  destruct (scause =? 8); [|pose proof (pids_more _ _ _ _ Hs1); ksteps].
  apply wlp_bind, wlp_more. eapply wlp_keeps; [apply (keep_killed (k + 1) (Some p) [])| exact Hs1|]. intros kl s2 Hs2.
  destruct (negb (kl =? 0)); [pose proof (pids_more _ _ _ _ Hs2); ksteps|].
  apply wlp_bind, wlp_more. eapply wlp_keeps; [apply (keep_vm (k + 1) (Some p) [])| exact Hs2|]. intros epc s3 Hs3.
  apply wlp_bind, wlp_more. eapply wlp_keeps; [apply (keep_vm (k + 1) (Some p) [])| exact Hs3|]. intros w1 s4 Hs4.
  apply wlp_bind. unfold intr_on. apply wlp_modify. apply wlp_bind.
  eapply wlp_mono; [apply wlp_syscall; [exact Hk|]; pleaf|]. intros w2 s5 Hs5. apply wlp_ret. exact Hs5.
Qed.

Lemma scheduler_scan_pids k n i s : tbl k s ->
  wlp (tbl k) (scheduler_scan n i : M K _) (fun o s' => tbl k s' /\ forall q, o = Some q -> pids k (Some q) [] s') s.
Proof.
  revert i s. induction n as [|n IH]; intros i s Hs; cbn [scheduler_scan]; ksteps.
  - split; [exact Hs | discriminate].
  - match goal with Hr : is_state RUNNABLE ?x = true |- _ => apply is_state_true in Hr as Hst end.
    match goal with |- tbl k (set_cur _ ?t) /\ _ => assert (Ht : tbl k t) end.
    { apply tbl_upd; [|pleaf]. apply same_id_state; [reflexivity | unfold procs; rewrite Hst; discriminate | discriminate]. }
    split; [exact Ht|]. intros q [= <-]. split; [exact Ht|]. split; [reflexivity|]. split; [|intros q Hq; inversion Hq].
    intros q [= <-]. change (p_state (procs (upd_proc i (set_pstate RUNNING) (upd_proc i (set_plock true) s)) i) = RUNNING).
    rewrite procs_upd, decide_True by reflexivity. reflexivity.
  - apply IH. pleaf.
Qed.

Lemma scheduler_switched_pids k p s : tbl k s ->
  wlp (tbl k) (scheduler_switched p : M K _) (fun o s' => tbl k s' /\ forall q, o = Some q -> pids k (Some q) [] s') s.
Proof. intros Hs. unfold scheduler_switched. ksteps. apply scheduler_scan_pids. pleaf. Qed.
End Keeps.

(** ** Correctness *)


(** A process that asks for its id, on a machine without devices. *)
Definition demo_tf : Z := PHYSTOP - PGSIZE.
Definition demo_getpid : kernel bstate unit :=
  demo_kernel (mkK (store64 zeroes (demo_tf + TF_A 7) 11) false 0 0)
    (fun i => match i with O => demo_proc RUNNING 1 demo_tf | _ => demo_proc UNUSED 0 0 end) 2 (Some 0%nat).

Lemma demo_getpid_ok : table_ok (procs demo_getpid) 2.
Proof.
  unfold procs, demo_getpid, demo_kernel. cbn [kn_pt pt_proc]. split.
  - intros [|i]; cbn [p_pid demo_proc]; lia.
  - intros [|i]; cbn [p_state p_pid demo_proc]; split; (discriminate || reflexivity).
  - intros [|i] [|j]; cbn [p_pid demo_proc]; lia.
Qed.

