(* ===== verification/Lifecycle.v ===== *)
(** * The life of a process: exit, wait and kill

    [exit] and [wait] meet on [wait_lock]: a parent goes to sleep only while
    none of its children is a zombie, and a child that becomes one wakes its
    parent.  Code that ends in [sched] is described by the state it leaves to
    the scheduler. *)

From S2P Require Import Prelude Memory Riscv Kalloc Vm FsDefs BufCache Log UserMem KernelMem Fs Spinlock ProcDefs Pipe Bio Kernel Machine Sched File Proc Exec Sysfile Trap Pids.

(** [m] gives up the processor in a state satisfying [Q]. *)
Definition waits {S A} (m : M S A) (Q : S -> Prop) (s : S) : Prop :=
  match m s with Block s' => Q s' | _ => False end.

Lemma waits_inv {S A} (m : M S A) Q s : waits m Q s -> exists s', m s = Block s' /\ Q s'.
Proof. unfold waits. destruct (m s) as [| |s'|]; try contradiction. eauto. Qed.

Lemma waits_bind {S A B} (m : M S A) (f : A -> M S B) Q s :
  wp m (fun a s' => waits (f a) Q s') s -> waits (m ≫= f) Q s.
Proof. unfold waits, wp, mbind, M_bind. destruct (m s); tauto. Qed.

(** Code that never waits. *)
Definition nowait {S A} (m : M S A) : Prop := keeps (fun _ => True) (fun _ => False) m.

Lemma nowait_bind {S A B} (m : M S A) (f : A -> M S B) : nowait m -> (forall a, nowait (f a)) -> nowait (m ≫= f).
Proof. intros H1 H2 s _. apply wlp_bind. eapply wlp_mono; [exact (H1 s I)|]. intros a s' _. exact (H2 a s' I). Qed.
Lemma nowait_loop {S L R} fuel (body : L -> M S (L + R)) l : (forall l, nowait (body l)) -> nowait (loop fuel body l).
Proof.
  intros Hb s _. apply (wlp_loop _ (fun _ _ => True)); [|exact I]. intros l' t _.
  eapply wlp_mono; [exact (Hb l' t I)|]. intros [?|?] ? _; exact I.
Qed.
Lemma nowait_zoom {S T A} (g : T -> S) (st : S -> T -> T) (m : M S A) : nowait m -> nowait (zoom g st m).
Proof. intros Hm t _. specialize (Hm (g t) I). unfold wlp, zoom in *. destruct (m (g t)); auto. Qed.

Create HintDb nowait.
(** Steps for goals [nowait _]. *)
Ltac nwstep :=
  lazymatch goal with
  | |- nowait (_ ≫= _) => apply nowait_bind; [|intros]
  | |- nowait (loop _ _ _) => apply nowait_loop; intros
  | |- nowait (zoom _ _ _) => apply nowait_zoom
  | |- nowait (match ?x with _ => _ end) => destruct x
  | |- nowait (when ?b _) => destruct b; unfold when
  | |- nowait (panic_if ?b _) => destruct b; unfold panic_if
  | |- nowait (let _ := _ in _) => cbv zeta
  | |- nowait ((fun _ => _) _) => cbv beta
  | |- nowait (acquire _ _) => intros ? _; apply wlp_acquire; intros; exact I
  | |- nowait (release _ _) => intros ? _; apply wlp_release; intros; exact I
  | |- nowait (mret _) => intros ? _; exact I
  | |- nowait (gets _) => intros ? _; exact I
  | |- nowait get => intros ? _; exact I
  | |- nowait (modify _) => intros ? _; exact I
  | |- nowait (panic _) => intros ? _; exact I
  | |- nowait (rd _) => intros ? _; exact I
  | |- nowait (wr _ _) => intros ? _; exact I
  | |- nowait (fun _ => OutOfFuel) => intros ? _; exact I
  | |- nowait _ => solve [eauto 2 with nowait]
  end.
Ltac nwsteps := repeat nwstep.

Lemma kfree_nowait pa : nowait (kfree pa).
Proof. unfold kfree. nwsteps. Qed.
Lemma kalloc_nowait : nowait kalloc.
Proof. unfold kalloc. nwsteps. Qed.
#[export] Hint Resolve kfree_nowait kalloc_nowait : nowait.
Lemma walk_nowait pt va alloc : nowait (walk pt va alloc).
Proof.
  unfold walk. nwsteps. generalize 2%nat. intros n. revert pt.
  induction n as [|n IH]; intros pt; cbn [walk_from]; unfold memset_; nwsteps; apply IH.
Qed.
#[export] Hint Resolve walk_nowait : nowait.
Lemma copyout_nowait pt va bs : nowait (copyout pt va bs).
Proof. unfold copyout. nwsteps. unfold copyout_body. nwsteps. Qed.
Lemma uvmunmap_nowait pt va n b : nowait (uvmunmap pt va n b).
Proof. unfold uvmunmap. nwsteps. Qed.
Lemma freewalk_nowait d pt : nowait (freewalk d pt).
Proof. revert pt. induction d as [|d IH]; intros pt; cbn [freewalk]; nwsteps; apply IH. Qed.
#[export] Hint Resolve copyout_nowait uvmunmap_nowait freewalk_nowait : nowait.
Lemma proc_freepagetable_nowait pt sz : nowait (proc_freepagetable pt sz).
Proof. unfold proc_freepagetable, uvmfree. nwsteps. Qed.
#[export] Hint Resolve proc_freepagetable_nowait : nowait.

Section Lifecycle.
Context {S D : Type} `{BC : BufCache S}.
Local Abbreviation K := (kernel S D).

(** No lock of the process layer is held by the running hart. *)
Record quiet (s : K) : Prop := Quiet {
  qt_cpu : cpu_ok (kn_cpu s);
  qt_noff : Spinlock.noff (kn_cpu s) = 0;
  qt_proc i : p_lock (procs s i) = false;
  qt_wait : pt_waitlock (kn_pt s) = false
}.

Lemma wp_for_inv (I : nat -> K -> Prop) (body : nat -> M K unit) k i Q s :
  (forall j t, (i <= j < i + k)%nat -> I j t -> wp (body j) (fun _ t' => I (Datatypes.S j) t') t) ->
  I i s -> (forall s', I (i + k)%nat s' -> Q tt s') -> wp (for_procs k i body) Q s.
Proof.
  revert i s. induction k as [|k IH]; intros i s Hb Hi HQ; cbn [for_procs].
  - apply wp_ret, HQ. rewrite Nat.add_0_r. exact Hi.
  - wp_steps. eapply wp_mono; [apply (Hb i s); [lia | exact Hi]|]. intros [] s' Hs'.
    apply IH; [intros j t Hj; apply Hb; lia | exact Hs'|]. intros s2 Hs2. apply HQ. rewrite <- Nat.add_succ_comm. exact Hs2.
Qed.

(** What [exit] and [kill] may do to another process: a new parent, and from
    SLEEPING on one of the channels [chs] to RUNNABLE. *)
Definition awoken (chs : list channel) (x y : proc) : Prop :=
  exists st, y = set_pstate st x /\
    (st = p_state x \/ p_state x = SLEEPING /\ st = RUNNABLE /\ exists ch, p_chan x = Some ch /\ ch ∈ chs).

Lemma awoken_refl chs x : awoken chs x x.
Proof. exists (p_state x). split; [destruct x; reflexivity | auto]. Qed.

Lemma awoken_woken chs ch cur i x : ch ∈ chs -> awoken chs x (woken (Some ch) cur i x).
Proof.
  intros Hin. unfold woken. destruct (negb _ && _) eqn:E; [|apply awoken_refl].
  apply andb_true_iff in E as [_ E]. apply andb_true_iff in E as [E1 E2]. apply is_state_true in E1.
  apply bool_decide_eq_true in E2. exists RUNNABLE. split; [reflexivity|]. right. eauto.
Qed.

Lemma awoken_trans chs x y z : awoken chs x y -> awoken chs y z -> awoken chs x z.
Proof.
  intros (st & -> & H1) (st' & -> & H2). exists st'. split; [reflexivity|]. cbn in H2.
  destruct H1 as [->|(H1 & -> & H3)]; [exact H2|]. destruct H2 as [->|(H2 & _)]; [auto | discriminate].
Qed.

(** The parent of each entry once [reparent] has passed the first [n]. *)
Definition newparent (p : nat) (ip : option nat) (n i : nat) (x : proc) : proc :=
  if (i <? n)%nat && bool_decide (p_parent x = Some p) then set_pparent ip x else x.

Record orphaned (p ip n : nat) (s s' : K) : Prop := Orphaned {
  or_rest : s' = set_procs (procs s') s;
  or_procs i : awoken [ChProc ip] (newparent p (Some ip) n i (procs s i)) (procs s' i);
  or_woken i : (i < n)%nat -> p_parent (procs s i) = Some p -> kn_cur s <> Some ip -> (ip < nproc)%nat ->
    ~ (p_state (procs s' ip) = SLEEPING /\ p_chan (procs s' ip) = Some (ChProc ip))
}.

Lemma upd_proc_set j f (s : K) : upd_proc j f s = set_procs (<[j := f (procs s j)]> (procs s)) s.
Proof. reflexivity. Qed.
Lemma set_procs_rest f g (s t : K) : t = set_procs g s -> set_procs f t = set_procs f s.
Proof. intros ->. reflexivity. Qed.
Lemma wake_set chan (s : K) :
  wake chan s = set_procs (fun i => if (i <? nproc)%nat then woken chan (kn_cur s) i (procs s i) else procs s i) s.
Proof. reflexivity. Qed.
Lemma procs_wake chan (s : K) i :
  procs (wake chan s) i = if (i <? nproc)%nat then woken chan (kn_cur s) i (procs s i) else procs s i.
Proof. reflexivity. Qed.

Lemma awoken_lock chs x y : awoken chs x y -> p_lock y = p_lock x.
Proof. intros (st & -> & _). reflexivity. Qed.
Lemma awoken_parent chs x y : awoken chs x y -> p_parent y = p_parent x.
Proof. intros (st & -> & _). reflexivity. Qed.
Lemma newparent_lock p ip n i x : p_lock (newparent p ip n i x) = p_lock x.
Proof. unfold newparent. destruct (_ && _); reflexivity. Qed.
Lemma newparent_skip p ip n i x : n <> i \/ p_parent x <> Some p ->
  newparent p ip (Datatypes.S n) i x = newparent p ip n i x.
Proof.
  intros Hs. unfold newparent. destruct Hs as [Hs|Hs].
  - replace (i <? Datatypes.S n)%nat with (i <? n)%nat by lia. reflexivity.
  - rewrite bool_decide_eq_false_2, !andb_false_r by exact Hs. reflexivity.
Qed.

Lemma orphaned_wake chan (s : K) ip : kn_cur s <> Some ip -> (ip < nproc)%nat -> chan = Some (ChProc ip) ->
  ~ (p_state (procs (wake chan s) ip) = SLEEPING /\ p_chan (procs (wake chan s) ip) = Some (ChProc ip)).
Proof.
  intros Hc Hip -> [H1 H2]. rewrite procs_wake in H1, H2. replace (ip <? nproc)%nat with true in H1, H2 by lia.
  unfold woken in *. rewrite bool_decide_eq_false_2 in H1, H2 by exact Hc. cbn [negb andb] in *.
  destruct (is_state SLEEPING (procs s ip) && bool_decide (p_chan (procs s ip) = Some (ChProc ip))) eqn:E; [discriminate H1|].
  unfold is_state in E. rewrite !bool_decide_eq_true_2 in E by assumption. discriminate.
Qed.

Lemma reparent_one_wp p ip n (s t : K) : cpu_ok (kn_cpu s) -> (forall i, p_lock (procs s i) = false) ->
  pt_initproc (kn_pt s) = Some ip ->
  orphaned p ip n s t -> wp (reparent_one p n) (fun _ t' => orphaned p ip (Datatypes.S n) s t') t.
Proof.
  intros Hc Hl Hip Ho. pose proof Ho as [Hr Hp Hw]. unfold reparent_one, the_proc. wp_steps.
  change (pt_proc (kn_pt t) n) with (procs t n).
  assert (Epar : p_parent (procs t n) = p_parent (procs s n)).
  { rewrite (awoken_parent _ _ _ (Hp n)). unfold newparent. rewrite Nat.ltb_irrefl. reflexivity. }
  apply wp_when; intros E; [apply bool_decide_eq_true in E | apply bool_decide_eq_false in E]; rewrite Epar in E.
  2: { split; [exact Hr | | ].
    - intros i. rewrite newparent_skip; [apply Hp|]. destruct (decide (n = i)); [subst|]; auto.
    - intros i Hi Hpar. apply (Hw i); [|exact Hpar]. destruct (decide (i = n)); [subst; congruence | lia]. }
  wp_steps. assert (Eip : pt_initproc (kn_pt t) = Some ip) by (rewrite Hr; exact Hip).
  rewrite Eip. cbn [fmap option_fmap option_map].
  assert (Hcur : kn_cur t = kn_cur s) by (rewrite Hr; reflexivity).
  set (t1 := upd_proc n (set_pparent (Some ip)) t).
  assert (Hl1 : forall i, p_lock (procs t1 i) = false).
  { intros i. unfold t1. rewrite procs_upd. case_decide; cbn; rewrite (awoken_lock _ _ _ (Hp i)), newparent_lock; apply Hl. }
  apply wp_wakeup; [unfold t1; cbn; rewrite Hr; exact Hc | intros i _; apply Hl1|]. split.
  - apply (set_procs_rest _ (procs t1)), (set_procs_rest _ (procs t)), Hr.
  - intros i. apply (awoken_trans _ _ (procs t1 i)).
    + unfold t1. rewrite procs_upd. case_decide as En; [subst i|rewrite newparent_skip by auto; apply Hp].
      destruct (Hp n) as (st & Est & Hst). unfold newparent in *. rewrite Nat.ltb_irrefl in Est, Hst. cbn [andb] in Est, Hst.
      rewrite bool_decide_eq_true_2 by exact E. replace (n <? Datatypes.S n)%nat with true by lia.
      rewrite Est. exists st. split; [reflexivity | exact Hst].
    + rewrite procs_wake. destruct (i <? nproc)%nat; [apply awoken_woken, list_elem_of_here | apply awoken_refl].
  - intros i Hi Hpar Hne Hn. apply orphaned_wake; [unfold t1; cbn; rewrite Hcur; exact Hne | exact Hn | reflexivity].
Qed.

Lemma wp_reparent p ip Q (s : K) : cpu_ok (kn_cpu s) -> (forall i, p_lock (procs s i) = false) ->
  pt_initproc (kn_pt s) = Some ip ->
  (forall s', orphaned p ip nproc s s' -> Q tt s') -> wp (reparent p) Q s.
Proof.
  intros Hc Hl Hip HQ. apply (wp_for_inv (fun n t => orphaned p ip n s t)); [|split|exact HQ].
  - intros j t _ Ho. apply reparent_one_wp; assumption.
  - symmetry. apply set_procs_id.
  - intros i. apply awoken_refl.
  - intros i Hi. lia.
Qed.

(** ** Leaving the processor *)

Lemma waits_sched {A} p Q (s : K) : kn_cur s = Some p -> cpu_ok (kn_cpu s) -> Spinlock.noff (kn_cpu s) = 1 ->
  p_lock (procs s p) = true -> p_state (procs s p) <> RUNNING ->
  Q (upd_proc p (fun x => set_pcontext (InSwtch, (p_context x).2) x) s) -> waits (sched : M K A) Q s.
Proof.
  intros Hcur Hc Hn Hl Hst HQ. unfold sched. apply waits_bind, (wp_myproc p); [exact Hc | exact Hcur|].
  apply waits_bind, wp_gets, waits_bind, wp_panic_if; [unfold procs in Hl; rewrite Hl; reflexivity|].
  apply waits_bind, wp_gets, waits_bind, wp_panic_if; [rewrite Hn; reflexivity|].
  apply waits_bind, wp_panic_if; [unfold is_state; apply bool_decide_eq_false_2; exact Hst|].
  apply waits_bind, wp_panic_if; [|apply waits_bind, wp_modify; exact HQ].
  destruct Hc as [_ Hc]. rewrite Hn in Hc. exact Hc.
Qed.

Lemma push_noff c : Spinlock.noff (Spinlock.push_off c) = Spinlock.noff c + 1.
Proof. reflexivity. Qed.

(** The state [exit] leaves: the exiting process a zombie with its status, its
    children with init, a parent or init that slept in [wait] runnable. *)
Record exited (p q ip : nat) (status : Z) (s s' : K) : Prop := Exited {
  ex_state : p_state (procs s' p) = ZOMBIE;
  ex_status : p_xstate (procs s' p) = status;
  ex_pid : p_pid (procs s' p) = p_pid (procs s p);
  ex_par : p_parent (procs s' p) = Some q;
  ex_other i : i <> p -> awoken [ChProc ip; ChProc q] (newparent p (Some ip) nproc i (procs s i)) (procs s' i);
  ex_parent : (q < nproc)%nat -> ~ (p_state (procs s' q) = SLEEPING /\ p_chan (procs s' q) = Some (ChProc q));
  ex_init i : (i < nproc)%nat -> p_parent (procs s i) = Some p -> (ip < nproc)%nat ->
    ~ (p_state (procs s' ip) = SLEEPING /\ p_chan (procs s' ip) = Some (ChProc ip));
  ex_lock i : p_lock (procs s' i) = bool_decide (i = p);
  ex_cpu : kn_cpu s' = Spinlock.push_off (kn_cpu s);
  ex_cur : kn_cur s' = Some p;
  ex_wait : pt_waitlock (kn_pt s') = false
}.

Lemma awoken_mono chs chs' x y : (forall ch, ch ∈ chs -> ch ∈ chs') -> awoken chs x y -> awoken chs' x y.
Proof. intros Hs (st & E & [E'|(H1 & H2 & ch & H3 & H4)]); exists st; (split; [exact E|]); [auto | right; eauto 10]. Qed.

(** Still asleep means asleep all along. *)
Lemma awoken_asleep chs x y : awoken chs x y -> p_state y = SLEEPING -> p_state x = SLEEPING /\ p_chan y = p_chan x.
Proof. intros (st & -> & [->|(H1 & -> & _)]) Hy; cbn in *; [auto | discriminate]. Qed.
Lemma awoken_zombie chs x y : awoken chs x y -> p_state y = ZOMBIE -> p_state x = ZOMBIE.
Proof. intros (st & -> & [->|(H1 & -> & _)]) Hy; cbn in *; [auto | discriminate]. Qed.

Lemma asleep_woken chan cur i x ch : p_state (woken chan cur i x) = SLEEPING /\ p_chan (woken chan cur i x) = ch ->
  p_state x = SLEEPING /\ p_chan x = ch.
Proof. unfold woken. destruct (_ && _); cbn; [intros [E _]; discriminate | auto]. Qed.

(** [exited] from the table before the switch and after [reparent]. *)
Lemma exited_intro p q ip status (s s2 s4 : K) :
  ip <> p -> q <> p -> p_parent (procs s p) = Some q ->
  (forall i, awoken [ChProc ip] (newparent p (Some ip) nproc i (procs s i)) (procs s2 i)) ->
  awoken [ChProc ip] (procs s p) (procs s2 p) ->
  (forall i, (i < nproc)%nat -> p_parent (procs s i) = Some p -> kn_cur s <> Some ip -> (ip < nproc)%nat ->
    ~ (p_state (procs s2 ip) = SLEEPING /\ p_chan (procs s2 ip) = Some (ChProc ip))) ->
  kn_cur s = Some p -> kn_cur s2 = Some p -> (forall i, p_lock (procs s2 i) = false) ->
  (forall i, procs s4 i = if decide (p = i) then set_pstate ZOMBIE (set_pxstate status (set_plock true (procs (wake (Some (ChProc q)) s2) i)))
    else procs (wake (Some (ChProc q)) s2) i) ->
  kn_cpu s4 = Spinlock.push_off (kn_cpu s) -> kn_cur s4 = Some p -> pt_waitlock (kn_pt s4) = false ->
  exited p q ip status s (upd_proc p (fun x => set_pcontext (InSwtch, (p_context x).2) x) s4).
Proof.
  intros Hipp Hqp Hq Hp Hpp Hwk Hcur Hcur2 Hl2 Hp4 Hc4 Hcur4 Hw4.
  set (s3 := wake _ s2) in *.
  assert (H3 : forall i, awoken [ChProc q] (procs s2 i) (procs s3 i)).
  { intros i. unfold s3. rewrite procs_wake. destruct (_ <? _)%nat; [apply awoken_woken, list_elem_of_here | apply awoken_refl]. }
  assert (Hown : awoken [ChProc ip; ChProc q] (procs s p) (procs s3 p)).
  { eapply awoken_trans; eapply awoken_mono; [|exact Hpp| |apply H3]; intros ch; rewrite ?elem_of_cons; tauto. }
  set (s5 := upd_proc _ _ _).
  assert (H5 : forall i, i <> p -> procs s5 i = procs s3 i).
  { intros i Hi. unfold s5. rewrite procs_upd, decide_False, Hp4, decide_False by congruence. reflexivity. }
  assert (H5p : procs s5 p = set_pcontext (InSwtch, (p_context (procs s4 p)).2) (set_pstate ZOMBIE (set_pxstate status (set_plock true (procs s3 p))))).
  { unfold s5. rewrite procs_upd, decide_True by reflexivity. rewrite Hp4, decide_True by reflexivity. reflexivity. }
  destruct Hown as (st & Est & Hst). split.
  - rewrite H5p. reflexivity.
  - rewrite H5p. reflexivity.
  - rewrite H5p, Est. reflexivity.
  - rewrite H5p, Est. exact Hq.
  - intros i Hi. rewrite H5 by exact Hi.
    eapply awoken_trans; eapply awoken_mono; [|apply Hp| |apply H3]; intros ch; rewrite ?elem_of_cons; tauto.
  - intros Hqn. rewrite H5 by exact Hqp. apply orphaned_wake; [congruence | exact Hqn | reflexivity].
  - intros i Hi Hpar Hin. rewrite H5 by exact Hipp. intros Hs. apply (Hwk i Hi Hpar); [congruence | exact Hin|].
    revert Hs. unfold s3. rewrite procs_wake. destruct (_ <? _)%nat; [apply asleep_woken | exact id].
  - intros i. case_bool_decide as Ei; [subst; rewrite H5p; reflexivity|]. rewrite H5 by exact Ei.
    rewrite (awoken_lock _ _ _ (H3 i)). apply Hl2.
  - exact Hc4.
  - exact Hcur4.
  - exact Hw4.
Qed.

Lemma exit_zombie_waits {A} p q ip status (s : K) : quiet s -> kn_cur s = Some p ->
  pt_initproc (kn_pt s) = Some ip -> ip <> p -> p_parent (procs s p) = Some q -> q <> p ->
  waits (exit_zombie p status : M K A) (exited p q ip status s) s.
Proof.
  intros [Hc Hn Hl Hw] Hcur Hip Hipp Hq Hqp. unfold exit_zombie.
  apply waits_bind, wp_klock; [exact Hw|]. set (s1 := set_waitlock true _).
  apply waits_bind, (wp_reparent p ip); [apply push_ok, Hc | exact Hl | exact Hip|]. intros s2 [Hr Hp Hwk].
  assert (Hself : newparent p (Some ip) nproc p (procs s1 p) = procs s p).
  { unfold newparent. rewrite bool_decide_eq_false_2, andb_false_r; [reflexivity|]. unfold s1, procs in *. cbn. congruence. }
  pose proof (Hp p) as Hpp. rewrite Hself in Hpp.
  assert (Hl2 : forall i, p_lock (procs s2 i) = false) by (intros i; rewrite (awoken_lock _ _ _ (Hp i)), newparent_lock; apply Hl).
  assert (Hc2 : kn_cpu s2 = Spinlock.push_off (kn_cpu s)) by (rewrite Hr; reflexivity).
  assert (Hcur2 : kn_cur s2 = Some p) by (rewrite Hr; exact Hcur).
  apply waits_bind, wp_gets. change (pt_proc (kn_pt s2) p) with (procs s2 p).
  rewrite (awoken_parent _ _ _ Hpp), Hq. cbn [fmap option_fmap option_map].
  apply waits_bind, wp_wakeup; [rewrite Hc2; apply push_ok, Hc | intros i _; apply Hl2|].
  set (s3 := wake _ s2).
  assert (Hl3 : forall i, p_lock (procs s3 i) = false).
  { intros i. unfold s3. rewrite procs_wake. destruct (_ <? _)%nat; [rewrite woken_lock|]; apply Hl2. }
  apply waits_bind, wp_lock_proc; [apply Hl3|]. apply waits_bind, wp_modify.
  apply waits_bind, (wp_kunlock _ _ (Spinlock.push_off (kn_cpu s))); [unfold s3; rewrite Hr; reflexivity | apply push_ok, Hc |
    change (Spinlock.push_off (kn_cpu s2) = Spinlock.push_off (Spinlock.push_off (kn_cpu s))); rewrite Hc2; reflexivity|].
  set (s4 := set_kcpu _ _).
  assert (Hp4 : forall i, procs s4 i = if decide (p = i) then set_pstate ZOMBIE (set_pxstate status (set_plock true (procs s3 i))) else procs s3 i).
  { intros i. change (procs s4 i) with (procs (upd_proc p (fun x => set_pstate ZOMBIE (set_pxstate status x)) (upd_proc p (set_plock true) s3)) i).
    rewrite !procs_upd. case_decide; reflexivity. }
  assert (Hp4p : procs s4 p = set_pstate ZOMBIE (set_pxstate status (set_plock true (procs s3 p)))) by (rewrite Hp4, decide_True; reflexivity).
  apply (waits_sched p); [exact Hcur2 | apply push_ok, Hc | change (Spinlock.noff (kn_cpu s) + 1 = 1); lia | rewrite Hp4p; reflexivity | rewrite Hp4p; discriminate|].
  apply exited_intro with (s2 := s2) (s4 := s4); auto.
Qed.

(** ** No lost child *)

(** A process asleep in [wait] has no zombie child. *)
Definition no_lost_child (s : K) : Prop := forall q c, (q < nproc)%nat -> (c < nproc)%nat ->
  p_state (procs s q) = SLEEPING -> p_chan (procs s q) = Some (ChProc q) ->
  p_parent (procs s c) = Some q -> p_state (procs s c) <> ZOMBIE.

Lemma newparent_fields p ip n i x : p_state (newparent p ip n i x) = p_state x /\ p_chan (newparent p ip n i x) = p_chan x.
Proof. unfold newparent. destruct (_ && _); auto. Qed.

Lemma exited_no_lost p q ip status s s' : exited p q ip status s s' -> (ip < nproc)%nat -> (p < nproc)%nat ->
  no_lost_child s -> no_lost_child s'.
Proof.
  intros He Hin Hpn Hs r c Hr Hcn Hst Hch Hpar Hz.
  assert (Hrp : r <> p) by (intros ->; rewrite (ex_state _ _ _ _ _ _ He) in Hst; discriminate).
  destruct (awoken_asleep _ _ _ (ex_other _ _ _ _ _ _ He r Hrp) Hst) as [Hst0 Ech].
  destruct (newparent_fields p (Some ip) nproc r (procs s r)) as [E1 E2]. rewrite E1 in Hst0. rewrite Ech, E2 in Hch.
  destruct (decide (c = p)) as [->|Hcp].
  - rewrite (ex_par _ _ _ _ _ _ He) in Hpar. injection Hpar as <-.
    apply (ex_parent _ _ _ _ _ _ He Hr). split; [exact Hst | congruence].
  - pose proof (ex_other _ _ _ _ _ _ He c Hcp) as Hc. pose proof (awoken_zombie _ _ _ Hc Hz) as Hz0.
    rewrite (awoken_parent _ _ _ Hc) in Hpar. rewrite (proj1 (newparent_fields _ _ _ _ _)) in Hz0. unfold newparent in Hpar.
    destruct ((c <? nproc)%nat && bool_decide (p_parent (procs s c) = Some p)) eqn:Ech'.
    + cbn in Hpar. injection Hpar as <-. apply andb_true_iff in Ech' as [_ Hcp']. apply bool_decide_eq_true in Hcp'.
      apply (ex_init _ _ _ _ _ _ He c ltac:(lia) Hcp' Hin). split; [exact Hst | congruence].
    + exact (Hs r c Hr Hcn Hst0 Hch Hpar Hz0).
Qed.

(** Whether a process has children. *)
Definition has_kids (p n i : nat) (s : K) : bool :=
  existsb (fun j => bool_decide (p_parent (procs s j) = Some p)) (seq i n).

(** The scan of [wait] when none of the children is a zombie. *)
Lemma wait_scan_none p addr n i kids (s : K) : cpu_ok (kn_cpu s) -> (forall j, p_lock (procs s j) = false) ->
  (forall j, (i <= j < i + n)%nat -> p_parent (procs s j) = Some p -> p_state (procs s j) <> ZOMBIE) ->
  wp (wait_scan n i p addr kids) (fun r s' => s' = s /\ r = inr (kids || has_kids p n i s)) s.
Proof.
  intros Hc Hl. revert i kids. induction n as [|n IH]; intros i kids Hz; cbn [wait_scan].
  - apply wp_ret. cbn. rewrite orb_false_r. auto.
  - unfold the_proc. wp_steps. change (pt_proc (kn_pt s) i) with (procs s i).
    unfold has_kids. cbn [seq existsb]. fold (has_kids p n (Datatypes.S i) s).
    destruct (bool_decide (p_parent (procs s i) = Some p)) eqn:E; cbn [orb].
    + apply bool_decide_eq_true in E. wp_steps. apply wp_lock_proc; [apply Hl|]. wp_steps.
      change (pt_proc (kn_pt (locked_proc i s)) i) with (procs (upd_proc i (set_plock true) s) i).
      rewrite procs_upd, decide_True by reflexivity. unfold is_state. cbn [p_state set_plock].
      rewrite bool_decide_eq_false_2 by (apply Hz; [lia | exact E]). wp_steps.
      apply wp_unlock_proc_same; [exact Hc | apply Hl|]. eapply wp_mono; [apply IH; intros j Hj; apply Hz; lia|].
      intros r s' [-> ->]. rewrite orb_true_r. auto.
    + apply IH. intros j Hj. apply Hz. lia.
Qed.

Lemma klock_nowait l st : nowait (klock l st : M K unit).
Proof. unfold klock, kpush_off. nwsteps. Qed.
Lemma kunlock_nowait l st : nowait (kunlock l st : M K unit).
Proof. unfold kunlock. nwsteps. intros s _. apply wlp_kpop_off. auto. Qed.
#[local] Hint Resolve klock_nowait kunlock_nowait : nowait.
Lemma freeproc_nowait p : nowait (freeproc p : M K unit).
Proof. unfold freeproc, the_proc, vm. nwsteps. Qed.
#[local] Hint Resolve freeproc_nowait : nowait.

Lemma is_zombie_locked p (s : K) : is_state ZOMBIE (pt_proc (kn_pt (locked_proc p s)) p) = is_state ZOMBIE (procs s p).
Proof.
  change (pt_proc (kn_pt (locked_proc p s)) p) with (procs (upd_proc p (set_plock true) s) p).
  rewrite procs_upd, decide_True by reflexivity. reflexivity.
Qed.

(** With a zombie child the scan of [wait] ends the call. *)
Lemma wait_scan_zombie p addr n i kids (s : K) c : cpu_ok (kn_cpu s) -> (forall j, p_lock (procs s j) = false) ->
  (i <= c < i + n)%nat -> p_parent (procs s c) = Some p -> p_state (procs s c) = ZOMBIE ->
  wlp (fun _ => False) (wait_scan n i p addr kids) (fun r _ => exists v, r = inl v) s.
Proof.
  intros Hc Hl. revert i kids. induction n as [|n IH]; intros i kids Hin Hpar Hz; [lia|]. cbn [wait_scan].
  apply wlp_bind, wlp_gets. change (pt_proc (kn_pt s) i) with (procs s i).
  case_bool_decide as E; [|apply IH; auto; destruct (decide (c = i)); [subst; congruence | lia]].
  apply wlp_bind, wp_wlp, wp_lock_proc; [apply Hl|]. apply wlp_bind, wlp_gets. rewrite is_zombie_locked.
  destruct (is_state ZOMBIE (procs s i)) eqn:Ez.
  - apply wlp_bind, wlp_gets, wlp_bind. eapply (wlp_keeps _ (fun _ => True)); [|exact I|].
    { change (nowait (if negb (addr =? 0) then vm (copyout (p_pagetable (pt_proc (kn_pt (locked_proc i s)) p)) addr
        (bytes_at (store32 zeroes 0 (u32 (p_xstate (pt_proc (kn_pt (locked_proc i s)) i)))) 0 4)) else mret 0 : M K Z)).
      unfold vm. nwsteps. }
    intros r s1 _.
    assert (Hfin : forall pid, wlp (fun _ => False) (unlock_proc i;; unlock_wait;; mret (inl pid) : M K (Z + bool))
      (fun r _ => exists v, r = inl v) s1).
    { intros pid. repeat (apply wlp_bind; eapply (wlp_keeps _ (fun _ => True)); [apply kunlock_nowait | exact I | intros ? ? _]).
      apply wlp_ret. eauto. }
    destruct (r <? 0); [apply Hfin|].
    apply wlp_bind. eapply (wlp_keeps _ (fun _ => True)); [apply freeproc_nowait | exact I|]. intros ? s2 _.
    repeat (apply wlp_bind; eapply (wlp_keeps _ (fun _ => True)); [apply kunlock_nowait | exact I | intros ? ? _]).
    apply wlp_ret. eauto.
  - apply wlp_bind, wp_wlp, wp_unlock_proc_same; [exact Hc | apply Hl|]. apply IH; auto.
    destruct (decide (c = i)); [subst|lia]. unfold is_state in Ez. rewrite bool_decide_eq_true_2 in Ez by exact Hz. discriminate.
Qed.

(** ** wait *)

Lemma wp_killed p Q (s : K) : cpu_ok (kn_cpu s) -> p_lock (procs s p) = false -> Q (p_killed (procs s p)) s -> wp (killed p) Q s.
Proof.
  intros Hc Hl HQ. unfold killed. wp_steps. apply wp_lock_proc; [exact Hl|]. unfold the_proc. wp_steps.
  apply wp_unlock_proc_same; [exact Hc | exact Hl|]. wp_steps.
  change (pt_proc (kn_pt (locked_proc p s)) p) with (procs (upd_proc p (set_plock true) s) p).
  rewrite procs_upd, decide_True by reflexivity. exact HQ.
Qed.

(** The state inside the section of [wait_lock]. *)
Definition waiting (s : K) : K := set_waitlock true (set_kcpu (Spinlock.push_off (kn_cpu s)) s).
Lemma wp_lock_wait Q (s : K) : pt_waitlock (kn_pt s) = false -> Q tt (waiting s) -> wp lock_wait Q s.
Proof. intros H1 H2. apply wp_klock; assumption. Qed.
Lemma wp_unlock_wait Q (s : K) : cpu_ok (kn_cpu s) -> pt_waitlock (kn_pt s) = false -> Q tt s -> wp unlock_wait Q (waiting s).
Proof.
  intros Hc Hw HQ. apply (wp_kunlock _ _ (kn_cpu s)); [reflexivity | exact Hc | reflexivity|].
  replace (set_kcpu _ _) with s; [exact HQ|]. destruct s as [? ? ? ? [? ? ? w ?] ? ? ? ?]. cbn in Hw. subst w. reflexivity.
Qed.

(** The state of a process that has gone to sleep in [wait]. *)
Record asleep (p : nat) (s s' : K) : Prop := Asleep {
  as_state : p_state (procs s' p) = SLEEPING;
  as_chan : p_chan (procs s' p) = Some (ChProc p);
  as_parent : p_parent (procs s' p) = p_parent (procs s p);
  as_other i : i <> p -> procs s' i = procs s i;
  as_cpu : kn_cpu s' = Spinlock.push_off (kn_cpu s);
  as_wait : pt_waitlock (kn_pt s') = false;
  as_cur : kn_cur s' = Some p
}.

Lemma sleep_in_wait {A} p (s : K) : quiet s -> kn_cur s = Some p ->
  waits (sleep (ChProc p) unlock_wait : M K A) (asleep p s) (waiting s).
Proof.
  intros [Hc Hn Hl Hw] Hcur. unfold sleep. apply waits_bind, (wp_myproc p); [apply push_ok, Hc | exact Hcur|].
  apply waits_bind, wp_lock_proc; [apply Hl|].
  apply waits_bind, (wp_kunlock _ _ (Spinlock.push_off (kn_cpu s))); [reflexivity | apply push_ok, Hc | reflexivity|].
  apply waits_bind, wp_modify. set (s1 := upd_proc _ _ _).
  assert (H1 : forall i, procs s1 i = if decide (p = i) then set_pstate SLEEPING (set_pchan (Some (ChProc p)) (set_plock true (procs s i))) else procs s i).
  { intros i. change (procs s1 i) with (procs (upd_proc p (fun x => set_pstate SLEEPING (set_pchan (Some (ChProc p)) x)) (upd_proc p (set_plock true) s)) i).
    rewrite !procs_upd. case_decide; reflexivity. }
  apply (waits_sched p); [exact Hcur | apply push_ok, Hc | change (Spinlock.noff (kn_cpu s) + 1 = 1); lia
    | rewrite H1, decide_True by reflexivity; reflexivity | rewrite H1, decide_True by reflexivity; discriminate|].
  split; try reflexivity; try exact Hcur; rewrite ?procs_upd, ?decide_True by reflexivity; rewrite ?H1, ?decide_True by reflexivity; try reflexivity.
  intros i Hi. rewrite procs_upd, decide_False, H1, decide_False by congruence. reflexivity.
Qed.

Lemma asleep_no_lost p s s' : asleep p s s' -> (forall j, (j < nproc)%nat -> p_parent (procs s j) = Some p -> p_state (procs s j) <> ZOMBIE) ->
  no_lost_child s -> no_lost_child s'.
Proof.
  intros Ha Hnz Hs q c Hq Hcn Hst Hch Hpar.
  assert (Hpar' : p_parent (procs s c) = Some q).
  { destruct (decide (c = p)) as [->|Hc]; [rewrite <- (as_parent _ _ _ Ha); exact Hpar | rewrite <- (as_other _ _ _ Ha c Hc); exact Hpar]. }
  destruct (decide (c = p)) as [->|Hc]; [rewrite (as_state _ _ _ Ha); discriminate|]. rewrite (as_other _ _ _ Ha c Hc).
  destruct (decide (q = p)) as [->|Hqp]; [apply Hnz; [exact Hcn | exact Hpar']|].
  rewrite (as_other _ _ _ Ha q Hqp) in Hst, Hch. exact (Hs q c Hq Hcn Hst Hch Hpar').
Qed.

Definition zombie_child (p : nat) (s : K) : Prop :=
  exists c, (c < nproc)%nat /\ p_parent (procs s c) = Some p /\ p_state (procs s c) = ZOMBIE.

Lemma wait_none {B} p addr (f : Z + bool -> M K B) Q (s : K) : quiet s -> ~ zombie_child p s ->
  waits (f (inr (has_kids p nproc 0 s))) Q (waiting s) -> waits (wait_scan nproc 0 p addr false ≫= f) Q (waiting s).
Proof.
  intros [Hc Hn Hl Hw] Hnz HQ. apply waits_bind.
  eapply wp_mono; [apply (wait_scan_none p addr nproc 0 false (waiting s)); [apply push_ok, Hc | exact Hl|]|].
  - intros j Hj Hpar Hz. apply Hnz. exists j. split; [lia|]. auto.
  - intros r s' [-> ->]. exact HQ.
Qed.

(** C25: [exit] once the files are closed (nothing locked, the process not init
    and not its own parent) gives up the processor for good, as a zombie with
    its status, with its children handed to init and with a parent -- or init,
    if it inherited a child -- that slept in [wait] made runnable; so that, if
    no process slept in [wait] with a zombie child before, none does after. *)
Theorem exit_hands_over p q ip status (s : K) : quiet s -> kn_cur s = Some p -> (p < nproc)%nat ->
  pt_initproc (kn_pt s) = Some ip -> (ip < nproc)%nat -> ip <> p -> p_parent (procs s p) = Some q -> q <> p ->
  no_lost_child s ->
  waits (exit_zombie p status : M K unit) (fun s' => exited p q ip status s s' /\ no_lost_child s') s.
Proof.
  intros Hqt Hcur Hp Hip Hipn Hipp Hq Hqp Hs.
  pose proof (exit_zombie_waits (A := unit) p q ip status s Hqt Hcur Hip Hipp Hq Hqp) as H. unfold waits in *.
  destruct (exit_zombie p status s); try exact H. split; [exact H | eapply exited_no_lost; eauto].
Qed.

(** [wait] sleeps only when it has children and none of them is a zombie:
    with a zombie child it does not sleep; with no children, or when killed, it
    returns -1 and changes nothing; otherwise it is asleep on its own channel
    with [wait_lock] released, and no process sleeps in [wait] with a zombie
    child. *)
Theorem wait_sleeps_only_without_zombie p addr (s : K) : quiet s -> kn_cur s = Some p -> no_lost_child s ->
  (zombie_child p s -> match wait addr s with Block _ => False | _ => True end) /\
  (~ zombie_child p s ->
    if has_kids p nproc 0 s && (p_killed (procs s p) =? 0)
    then waits (wait addr) (fun s' => asleep p s s' /\ no_lost_child s') s
    else wp (wait addr) (fun r s' => r = -1 /\ s' = s) s).
Proof.
  intros Hqt Hcur Hs. pose proof Hqt as [Hc Hn Hl Hw]. split.
  - intros (c & Hcn & Hpar & Hz).
    assert (H : wlp (fun _ => False) (wait addr) (fun _ _ => True) s); [|unfold wlp in H; destruct (wait addr s); auto].
    unfold wait. apply wlp_bind, wp_wlp, (wp_myproc p); [exact Hc | exact Hcur|].
    apply wlp_bind, wp_wlp, wp_lock_wait; [exact Hw|]. apply wlp_bind.
    eapply wlp_mono; [apply (wait_scan_zombie p addr nproc 0 false (waiting s) c); [apply push_ok, Hc | exact Hl | lia | exact Hpar | exact Hz]|].
    intros r s' [v ->]. apply wlp_ret. exact I.
  - intros Hnz. destruct (has_kids p nproc 0 s && (p_killed (procs s p) =? 0)) eqn:E; unfold wait.
    + apply andb_true_iff in E as [E1 E2]. apply waits_bind, (wp_myproc p); [exact Hc | exact Hcur|].
      apply waits_bind, wp_lock_wait; [exact Hw|]. apply wait_none; [exact Hqt | exact Hnz|]. rewrite E1.
      apply waits_bind, wp_killed; [apply push_ok, Hc | apply Hl|]. change (procs (waiting s) p) with (procs s p). rewrite E2. cbn [negb].
      pose proof (sleep_in_wait (A := Z) p s Hqt Hcur) as H. unfold waits in *. destruct (sleep _ _ _); try exact H.
      split; [exact H | eapply asleep_no_lost; [exact H | | exact Hs]]. intros j Hj Hpar Hz. apply Hnz. exists j. auto.
    + apply wp_bind, (wp_myproc p); [exact Hc | exact Hcur|]. apply wp_bind, wp_lock_wait; [exact Hw|]. apply wp_bind.
      eapply wp_mono; [apply (wait_scan_none p addr nproc 0 false (waiting s)); [apply push_ok, Hc | exact Hl|]|].
      { intros j Hj Hpar Hz. apply Hnz. exists j. split; [lia|]. auto. }
      intros r s' [-> ->]. cbn [orb]. change (has_kids p nproc 0 (waiting s)) with (has_kids p nproc 0 s).
      apply wp_bind. apply (wp_mono _ (fun k t => k <> 0 /\ t = waiting s)).
      * destruct (has_kids p nproc 0 s); [|apply wp_ret; split; [lia | reflexivity]].
        apply wp_killed; [apply push_ok, Hc | apply Hl|]. change (procs (waiting s) p) with (procs s p). split; [|reflexivity]. cbn in E. lia.
      * intros k t [Hk ->]. replace (negb (k =? 0)) with true by lia. apply wp_bind, wp_unlock_wait; [exact Hc | exact Hw|].
        apply wp_ret. auto.
Qed.
End Lifecycle.

(** ** A process killed before it is born *)

Section Marked.
Context {S D : Type} `{BC : BufCache S}.
Local Abbreviation K := (kernel S D).

Definition marked (i : nat) (s : K) : Prop := p_killed (procs s i) = 1.

Lemma marked_upd i p f (s : K) : (forall x, p_killed (f x) = p_killed x) -> marked i s -> marked i (upd_proc p f s).
Proof. intros Hf Hm. unfold marked. rewrite procs_upd. case_decide; [rewrite Hf|]; exact Hm. Qed.

Lemma procs_kcpu c (s : K) : procs (set_kcpu c s) = procs s.
Proof. reflexivity. Qed.

(** The parts of the state that [marked] does not see. *)
Lemma marked_kcpu i c (s : K) : marked i s -> marked i (set_kcpu c s).
Proof. exact id. Qed.
Lemma marked_kmem i m (s : K) : marked i s -> marked i (set_kmem m s).
Proof. exact id. Qed.
Lemma marked_pidlock i b (s : K) : marked i s -> marked i (set_pidlock b s).
Proof. exact id. Qed.
Lemma marked_waitlock i b (s : K) : marked i s -> marked i (set_waitlock b s).
Proof. exact id. Qed.
Lemma marked_nextpid i v (s : K) : marked i s -> marked i (set_nextpid v s).
Proof. exact id. Qed.
Lemma marked_fs i f (s : K) : marked i s -> marked i (fs_set f s).
Proof. exact id. Qed.
Lemma marked_ftlock i b (s : K) : marked i s -> marked i (set_ftlock b s).
Proof. exact id. Qed.
Lemma marked_file i f g (s : K) : marked i s -> marked i (upd_file f g s).
Proof. exact id. Qed.

Ltac mleaf :=
  repeat lazymatch goal with
  | |- marked _ (upd_proc _ _ _) => apply marked_upd; [reflexivity|]
  | |- marked _ (set_kcpu _ _) => apply marked_kcpu
  | |- marked _ (set_kmem _ _) => apply marked_kmem
  | |- marked _ (set_pidlock _ _) => apply marked_pidlock
  | |- marked _ (set_waitlock _ _) => apply marked_waitlock
  | |- marked _ (set_nextpid _ _) => apply marked_nextpid
  | |- marked _ (fs_set _ _) => apply marked_fs
  | |- marked _ (set_ftlock _ _) => apply marked_ftlock
  | |- marked _ (upd_file _ _ _) => apply marked_file
  | |- marked _ _ => assumption
  end.
Ltac msteps := repeat first [progress cbv beta | wstep | progress intros | exact I | progress mleaf].

Lemma unused_scan_first i n j (s : K) : cpu_ok (kn_cpu s) -> (forall m, p_lock (procs s m) = false) ->
  (j <= i < j + n)%nat -> (forall m, (j <= m < i)%nat -> p_state (procs s m) <> UNUSED) -> p_state (procs s i) = UNUSED ->
  wp (unused_scan n j) (fun o s' => o = Some i /\ s' = locked_proc i s) s.
Proof.
  intros Hc Hl. revert j. induction n as [|n IH]; intros j Hj Hn Hi; [lia|]. cbn [unused_scan].
  wp_steps. apply wp_lock_proc; [apply Hl|]. unfold the_proc. wp_steps.
  change (pt_proc (kn_pt (locked_proc j s)) j) with (procs (upd_proc j (set_plock true) s) j).
  rewrite procs_upd, decide_True by reflexivity. unfold is_state. cbn [p_state set_plock].
  destruct (decide (j = i)) as [->|Hne].
  - rewrite bool_decide_eq_true_2 by exact Hi. wp_steps. auto.
  - rewrite bool_decide_eq_false_2 by (apply Hn; lia). wp_steps. apply wp_unlock_proc_same; [exact Hc | apply Hl|].
    apply IH; [lia | intros m Hm; apply Hn; lia | exact Hi].
Qed.

Lemma kill_scan_first i pid n j (s : K) : cpu_ok (kn_cpu s) -> (forall m, p_lock (procs s m) = false) ->
  (j <= i < j + n)%nat -> (forall m, (j <= m < i)%nat -> p_pid (procs s m) <> pid) -> p_pid (procs s i) = pid ->
  p_state (procs s i) <> SLEEPING ->
  wp (kill_scan n j pid) (fun r s' => r = 0 /\ s' = upd_proc i (set_pkilled 1) s) s.
Proof.
  intros Hc Hl. revert j. induction n as [|n IH]; intros j Hj Hn Hi Hs; [lia|]. cbn [kill_scan].
  wp_steps. apply wp_lock_proc; [apply Hl|]. unfold the_proc. wp_steps.
  change (pt_proc (kn_pt (locked_proc j s)) j) with (procs (upd_proc j (set_plock true) s) j).
  rewrite procs_upd, decide_True by reflexivity. unfold is_state. cbn [p_state p_pid set_plock].
  destruct (decide (j = i)) as [->|Hne].
  - rewrite Hi, Z.eqb_refl. wp_steps. apply wp_when; intros E; [apply bool_decide_eq_true in E; contradiction|].
    wp_steps. apply wp_unlock_proc; [exact Hc | apply Hl | intros b x; reflexivity|]. wp_steps. auto.
  - replace (p_pid (procs s j) =? pid) with false by (symmetry; apply Z.eqb_neq, Hn; lia). wp_steps.
    apply wp_unlock_proc_same; [exact Hc | apply Hl|]. apply IH; [lia | intros m Hm; apply Hn; lia | exact Hi | exact Hs].
Qed.

Lemma dup_files_marked i n fd p np (s : K) : marked i s ->
  wlp (fun _ => True) (dup_files n fd p np) (fun _ s' => marked i s') s.
Proof.
  revert fd s. induction n as [|n IH]; intros fd s Hs; cbn [dup_files]; unfold filedup, lock_ftable, unlock_ftable; msteps;
    apply IH; mleaf.
Qed.

Lemma fork_marked tramp i p (s : K) : cpu_ok (kn_cpu s) -> kn_cur s = Some p -> (forall m, p_lock (procs s m) = false) -> (i < nproc)%nat ->
  (forall m, (m < i)%nat -> p_state (procs s m) <> UNUSED) -> p_state (procs s i) = UNUSED -> marked i s ->
  wlp (fun _ => True) (fork tramp) (fun r s' => r = -1 \/ marked i s' /\ p_state (procs s' i) = RUNNABLE) s.
Proof.
  intros Hc Hcur Hl Hi Hn Hu Hm. unfold fork, allocproc.
  apply wlp_bind, wp_wlp, (wp_myproc p); [exact Hc | exact Hcur|]. apply wlp_bind, wlp_bind.
  apply wp_wlp. eapply wp_mono; [apply (unused_scan_first i nproc 0 s); auto; [lia | intros m Hm'; apply Hn; lia]|].
  intros o s1 [-> ->]. assert (H1 : marked i (locked_proc i s)) by (unfold locked_proc; mleaf).
  revert H1. generalize (locked_proc i s). clear. intros s Hs.
  unfold allocpid, freeproc, lock_pid, unlock_pid, lock_wait, unlock_wait. msteps; auto.
  eapply wlp_mono; [apply (dup_files_marked i); mleaf|]. cbv beta. intros _ s1 Hs1.
  match goal with |- wlp _ (match ?o with _ => _ end ≫= _) _ _ => generalize o end. intros o.
  msteps; right; (split; [mleaf|]); rewrite procs_kcpu;
  do 2 (rewrite procs_upd, decide_True by reflexivity); reflexivity.
Qed.



(** C40: the free entries of the process table have the id 0, so [kill] of 0
    finds the first of them, marks it killed and reports success; and the next
    [fork] that succeeds uses that entry, so that its child is born killed (it
    exits at its first trap). *)
Theorem kill_zero_poisons tramp i p (s : K) : cpu_ok (kn_cpu s) -> kn_cur s = Some p ->
  (forall m, p_lock (procs s m) = false) -> table_ok (procs s) (pt_nextpid (kn_pt s)) ->
  (i < nproc)%nat -> p_state (procs s i) = UNUSED -> (forall m, (m < i)%nat -> p_state (procs s m) <> UNUSED) ->
  wp (kill 0) (fun r s1 => r = 0 /\
    forall r' s2, fork tramp s1 = Ret r' s2 -> r' = -1 \/ p_killed (procs s2 i) = 1 /\ p_state (procs s2 i) = RUNNABLE) s.
Proof.
  intros Hc Hcur Hl [_ Hu _] Hi Hst Hfirst. unfold kill.
  eapply wp_mono; [apply (kill_scan_first i 0 nproc 0 s); auto; [lia | | apply Hu, Hst | rewrite Hst; discriminate]|].
  { intros m Hm E. apply (Hfirst m); [lia|]. apply Hu, E. }
  intros r s1 [-> ->]. split; [reflexivity|]. intros r' s2 E.
  pose proof (fork_marked tramp i p (upd_proc i (set_pkilled 1) s)) as H. unfold wlp in H. rewrite E in H. apply H; auto.
  - intros m. rewrite procs_upd. case_decide; apply Hl.
  - intros m Hm. rewrite procs_upd, decide_False by lia. auto.
  - rewrite procs_upd, decide_True by reflexivity. exact Hst.
  - unfold marked. rewrite procs_upd, decide_True by reflexivity. reflexivity.
Qed.
End Marked.

(** init on a machine with six free pages, about to fork. *)
Definition demo_fork : kernel bstate unit :=
  demo_kernel demo_mem
    (fun i => match i with O => set_pcwd (Some 0%nat) (demo_proc RUNNING 1 0x1000) | _ => demo_proc UNUSED 0 0 end)
    2 (Some 0%nat).

Definition demo_fork_procs (i : nat) : proc :=
  match i with O => set_pcwd (Some 0%nat) (demo_proc RUNNING 1 0x1000) | _ => demo_proc UNUSED 0 0 end.
Lemma demo_fork_cpu : cpu_ok (kn_cpu demo_fork).
Proof. change (cpu_ok (Spinlock.Cpu 0 false false)). split; [cbn; lia | reflexivity]. Qed.
Lemma demo_fork_cur : kn_cur demo_fork = Some 0%nat.
Proof. reflexivity. Qed.
Lemma demo_fork_lock m : p_lock (procs demo_fork m) = false.
Proof. change (p_lock (demo_fork_procs m) = false). destruct m; reflexivity. Qed.
Lemma demo_fork_ok : table_ok (procs demo_fork) (pt_nextpid (kn_pt demo_fork)).
Proof.
  change (table_ok demo_fork_procs 2). split.
  - intros [|i]; cbn [p_pid demo_proc set_pcwd demo_fork_procs]; lia.
  - intros [|i]; cbn [p_state p_pid demo_proc set_pcwd demo_fork_procs]; split; congruence.
  - intros [|i] [|j]; cbn [p_pid demo_proc set_pcwd demo_fork_procs]; lia.
Qed.
Lemma demo_fork_lt : (1 < nproc)%nat.
Proof. unfold nproc, NPROC. lia. Qed.
Lemma demo_fork_unused : p_state (procs demo_fork 1) = UNUSED.
Proof. reflexivity. Qed.
Lemma demo_fork_first m : (m < 1)%nat -> p_state (procs demo_fork m) <> UNUSED.
Proof. change ((m < 1)%nat -> p_state (demo_fork_procs m) <> UNUSED). destruct m; [discriminate | lia]. Qed.

Lemma demo_fork_run : match kill 0 demo_fork with
  | Ret r s1 => match fork 0x2000 s1 with Ret r' s2 => Some (r, r') | _ => None end
  | _ => None
  end = Some (0, 2).
Proof. vm_compute. reflexivity. Qed.

Lemma kill_zero_poisons_witness : exists s1 s2, kill 0 demo_fork = Ret 0 s1 /\ fork 0x2000 s1 = Ret 2 s2 /\
  p_killed (procs s2 1) = 1.
Proof.
  pose proof (kill_zero_poisons 0x2000 1 0 demo_fork demo_fork_cpu demo_fork_cur demo_fork_lock demo_fork_ok demo_fork_lt
    demo_fork_unused demo_fork_first) as H. pose proof demo_fork_run as E.
  apply wp_run in H as (r & s1 & E1 & -> & H). rewrite E1 in E. exists s1.
  destruct (fork 0x2000 s1) as [r' s2| | |] eqn:Ef; try discriminate E. injection E as ->. exists s2.
  split; [exact E1|]. split; [reflexivity|]. destruct (H _ _ eq_refl) as [|[H1 _]]; [discriminate | exact H1].
Defined.


(** init asleep in [wait], its child running. *)
Definition demo_exit : kernel bstate unit :=
  demo_kernel (mkK zeroes false 0 0)
    (fun i => match i with
              | O => set_pchan (Some (ChProc 0)) (demo_proc SLEEPING 1 0)
              | 1%nat => set_pparent (Some 0%nat) (demo_proc RUNNING 2 0)
              | _ => demo_proc UNUSED 0 0
              end) 3 (Some 1%nat).
Definition demo_wait : kernel bstate unit :=
  demo_kernel (mkK zeroes false 0 0)
    (fun i => match i with
              | O => demo_proc RUNNING 1 0
              | 1%nat => set_pparent (Some 0%nat) (demo_proc RUNNABLE 2 0)
              | _ => demo_proc UNUSED 0 0
              end) 3 (Some 0%nat).

Lemma demo_kernel_quiet m P next cur : (forall i, p_lock (P i) = false) -> quiet (demo_kernel m P next cur).
Proof. intros Hl. split; [split; [cbn; lia | reflexivity] | reflexivity | exact Hl | reflexivity]. Qed.

Lemma exit_hands_over_witness : exists s',
  (exit_zombie 1 7 : M _ unit) demo_exit = Block s' /\ p_xstate (procs s' 1) = 7 /\ p_state (procs s' 0) <> SLEEPING.
Proof.
  assert (H : waits (exit_zombie 1 7 : M _ unit) (fun s' => exited 1 0 0 7 demo_exit s' /\ no_lost_child s') demo_exit).
  { apply (exit_hands_over 1 0 0 7 demo_exit); [apply demo_kernel_quiet; intros [|[|i]]; reflexivity | reflexivity | unfold nproc, NPROC; lia
      | reflexivity | unfold nproc, NPROC; lia | discriminate | reflexivity | discriminate|].
    intros q c _ _ Hst _ Hpar. destruct c as [|[|c]]; try discriminate Hpar. discriminate. }
  apply waits_inv in H as (s' & E & e & _). exists s'. split; [exact E|]. split; [exact (ex_status _ _ _ _ _ _ e)|]. intros Hst.
  apply (ex_parent _ _ _ _ _ _ e ltac:(unfold nproc, NPROC; lia)). split; [exact Hst|].
  rewrite (proj2 (awoken_asleep _ _ _ (ex_other _ _ _ _ _ _ e 0%nat ltac:(lia)) Hst)), (proj2 (newparent_fields _ _ _ _ _)). reflexivity.
Defined.

Lemma wait_sleeps_only_without_zombie_witness : exists s',
  wait 0 demo_wait = Block s' /\ p_state (procs s' 0) = SLEEPING.
Proof.
  assert (Hnz : ~ zombie_child 0 demo_wait) by (intros (c & _ & Hpar & Hz); destruct c as [|[|c]]; discriminate).
  destruct (wait_sleeps_only_without_zombie 0 0 demo_wait) as [_ H].
  - apply demo_kernel_quiet. intros [|[|i]]; reflexivity.
  - reflexivity.
  - intros q c _ _ Hst _ _. destruct q as [|[|q]]; discriminate Hst.
  - specialize (H Hnz). replace (has_kids 0 nproc 0 demo_wait && (p_killed (procs demo_wait 0) =? 0)) with true in H by (vm_compute; reflexivity).
    apply waits_inv in H as (s' & E & a & _). exists s'. split; [exact E|].
    exact (as_state _ _ _ a).
Defined.
